(* ===== verification/_CoqProject ===== *)
-Q . S2P
Prelude.v
Types.v
RecordPhase.v
Lifecycle.v
Policy.v
SlotPool.v
WarmPolicy.v
Events.v
AtomicFile.v
RecordStore.v
RecordPort.v
Runtime.v
Recovery.v
Actor.v
ActorKey.v
ActorInv.v
ActorRun.v
ActorProps.v
ActorProgress.v
ActorRecord.v
ActorClaims.v
Bits.v
BTree.v
RingSpec.v
GuestMem.v
SplitQueue.v
QueueSpec.v
VirtQueue.v
MmioState.v
IrqChip.v
VmmMemory.v
DeviceManager.v
DeviceProps.v
DeviceIrq.v
Checksum.v
Bytes.v
ConnTrack.v
NatEngine.v
NetCsum.v
Mpmc.v
Spsc.v
Pool.v
VsockConn.v
VsockMgr.v
VsockTx.v
VsockRx.v
VsockRound.v
VsockStream.v
EthFrame.v
Fragment.v
FragmentProps.v
UdpFrag.v
IpView.v
TcpFrame.v
TcpSegment.v
FragmentV6.v
FragmentV6Props.v
Reassembly.v
Classifier.v
ClassifierProps.v
ClassifierUdp.v
DhcpPacket.v
DhcpServer.v
DhcpProps.v
