(* ===== verification/Prelude.v ===== *)
(** * ArcBox: a verification development

    ArcBox (the Rust workspace under [src/]) runs containers and microVM
    sandboxes on a desktop. A sandbox ("computer") is owned by the computer
    runtime ([src/computer/arcbox-computer-runtime]): a daemon keeps a durable
    record per computer, one actor per computer drives its life as a state
    machine, and a restart of the daemon recovers every computer from its
    record. Each computer runs in a virtual machine ([src/virt]) whose virtio
    devices the host emulates: guest memory, virtqueues, register files, an
    interrupt chip and the device manager that ties them together. Its network
    goes through a NAT engine ([src/common/arcbox-conntrack]), over lock-free
    rings and a pool of buffers ([src/common/arcbox-datapath]), or through a
    userspace stack that classifies and reassembles its frames and cuts streams into
    new ones ([src/common/splicetcp], [src/common/arcbox-packet]), with addresses of
    a DHCP server ([src/virt/arcbox-dhcp]); host processes reach it through a vsock
    device ([src/virt/arcbox-virtio-vsock]). This library
    models the runtime from the disk up, the device model from guest memory up,
    the translation of frames from the bytes up, the datapath from its atomic
    accesses up, and vsock streams from packets in guest memory to sockets.

    ** The parts, and where they are

    - [Prelude]: Rust's [Result] with its [?], functional record update, the
      tactics and hint databases, and the generic lemmas.
    - [Types] ([sandbox/types.rs], [error.rs], [agent.rs]): the shared data,
      the error enum with its texts, the id check.
    - [RecordPhase] ([sandbox/record/phase.rs]): the durable record and
      [ComputerRecord::apply], the only way its phase moves.
    - [Lifecycle] ([lifecycle/machine.rs], [event.rs], [effect.rs],
      [projection.rs]): the hierarchical state machine. A state handler is a
      function of the event and the effects so far; [chain] is the superstate
      nesting and [handle] one dispatch of the machine.
    - [Policy] ([sandbox/policy/*.rs]): recovery plans, deadlines, what a
      capture settles to. [SlotPool] ([sandbox/pool.rs]): prepared slots.
      [WarmPolicy] ([sandbox/warm.rs]): the warm-create cache.
    - [Events] ([sandbox/events.rs]): the numbered event feed.
    - [AtomicFile] ([src/common/arcbox-atomic-file]): write to a temporary file, sync,
      rename, sync the directory, over a file system with a volatile and a
      durable part and a fault oracle for every call.
    - [RecordStore] ([record/store.rs]): every operation of the record store
      over [AtomicFile]. [RecordPort] is the interface the actor uses of it, a
      class whose laws [store_port] discharges.
    - [Runtime] ([lifecycle/runtime.rs]): the state an actor shares with its
      sub-tasks; what belongs to the driver and the network is opaque, a class.
    - [Recovery] ([sandbox/reconcile.rs]): loading every record at start and
      normalising it against the evidence found.
    - [Actor] ([lifecycle/actor/*.rs]): the actor. One record is its state, one
      function each of its handlers; [apply_effect] performs an effect,
      [dispatch] runs the machine and drains its effects and queued events,
      [select] is one branch of the loop's [select!] and [run_actor] a life.
      [ActorKey], [ActorInv] and [ActorRun] prove the sub-task discipline on the
      part of the state it lives in; [ActorProps] follows the callers and the
      handover, [ActorProgress] the flows, [ActorRecord] what is on record, and
      [ActorClaims] states what a whole life guarantees.
    - [Bits], [BTree]: words of 8 to 64 bits and the halves of a word; ordered
      maps as sorted lists.
    - [GuestMem] ([arcbox-virtio-core/src/guest_mem.rs]): bounded little-endian
      accesses to guest RAM.
    - [RingSpec]: what a device queue promises, an abstract ring and a class.
      [SplitQueue] ([split_queue.rs]) is the queue in guest memory, [QueueSpec]
      its instance and theorems; [VirtQueue] ([queue.rs]) is the queue in host
      memory, the other instance.
    - [MmioState] ([arcbox-vmm/src/device/mmio_state.rs]): the virtio-mmio
      register file. [IrqChip] ([irq/*.rs]): the interrupt chip.
      [VmmMemory] ([memory.rs]): the guest address space.
    - [DeviceManager] ([device/mod.rs], [dispatch.rs]): registration, routing of
      guest accesses, queue kicks and interrupt lines, over the register file,
      the chip and the address space; a device is the class [VirtioDevice].
      [DeviceProps] and [DeviceIrq] compose the parts' theorems.
    - [Checksum] ([src/common/arcbox-packet/src/checksum.rs]): the Internet
      checksum, scalar and vectorised, and its incremental updates. [Bytes]:
      slices of bytes whose accesses panic out of range, and sums of ranges.
    - [ConnTrack] ([src/common/arcbox-conntrack/src/conntrack.rs]): connections,
      reverse map, cache, ports. [NatEngine] ([translate.rs], [lib.rs]): parsing
      and rewriting of frames over it.
    - [NetCsum] ([arcbox-vmm/src/device/checksum.rs]): the checksums a guest
      leaves to the host.
    - [Mpmc] and [Spsc] ([src/common/arcbox-datapath/src/ring.rs]): the two
      lock-free rings, one access to shared memory per step. [Pool] ([pool.rs],
      [frame_buf.rs]): buffers and the frames that own them, over [Mpmc].
    - [VsockConn] ([arcbox-virtio-vsock/src/protocol.rs], [manager/ops.rs],
      [manager/connection.rs]): packet headers, pending operations and credit.
      [VsockMgr] ([manager/mod.rs], [host_connections.rs]): the connection
      manager. [VsockTx] ([device.rs], [device/virtio_device.rs], [events.rs]):
      the device and the guest's packets. [VsockRx] ([device/rx_injection.rs]):
      packets to the guest, over [SplitQueue]. [VsockRound] follows a round
      through guest memory, [VsockStream] a stream from end to end.
    - [EthFrame] ([arcbox-packet/src/ethernet/mod.rs], [checksum.rs], [udp.rs]): the
      Ethernet header, ARP replies and the builder of UDP datagrams, cut by the MTU.
      [IpView] ([arcbox-packet/src/ip.rs]): packets of both IP versions, parsed over
      the class [Etherparse] of header slices. [TcpFrame] ([ethernet/tcp.rs],
      [splicetcp/src/tcp_bridge/packet.rs]): the TCP frames sent to the guest, their
      options, and the reading of the guest's. [TcpSegment]
      ([tcp_bridge/segmentation.rs]): a stream cut into such frames.
    - [Fragment] ([splicetcp/src/fragment.rs]) and [FragmentV6] ([fragment/ipv6.rs]):
      the reassembler for each IP version, with [FragmentProps] and
      [FragmentV6Props]; [UdpFrag] joins the builder and the reassembler, and
      [Reassembly] states what both versions guarantee.
    - [Classifier] ([splicetcp/src/classifier.rs], [shim.rs]): frames and bare packets
      sorted into queues over [EthFrame], [IpView] and the reassembler;
      [ClassifierProps] and [ClassifierUdp] have its theorems.
    - [DhcpPacket] ([arcbox-dhcp/src/packet.rs], [config.rs]): messages on the wire.
      [DhcpServer] ([allocator.rs], [server.rs]): pool, leases and handlers, with the
      theorems in [DhcpProps].

    ** What the theorems show

    - The store: a record file is at any crash point one of the values written
      or the one before, never torn; a confirmed write survives a crash; writes
      of a stale generation change nothing; provisioning is idempotent.
    - The record: [apply] moves along the documented graph only, and every
      transition keeps the record well formed.
    - The machine: its durable projection is exactly what its writes implement;
      timers, the workload slot and the spawned flow follow the state; removal
      and handover are final.
    - The policies: recovery leaves the phase the machine is then seeded with;
      the pool and the cache keep their bounds and evict the least recently
      used; warm keys are injective.
    - Recovery: a completed normalisation leaves the store and the computers it
      hands on consistent.
    - The actor, over any inputs and any answers of the world: every caller is
      answered exactly once, one sub-task at a time and the right one, stale
      completions are dropped, only tasks that own nothing are cut, a flow
      always has its task, a handed-over computer is left alone, and the phase
      on record is the machine's durable projection.
    - Queues: both queues refine the abstract ring under any interleaving of
      guest and device; chains of any shape are walked in bounded time; a batch
      is its completions; re-arming notifications loses none.
    - The device manager: slots are disjoint, so accesses reach one device and
      change no other; registers keep their widths; a kicked queue is the one
      the driver set up; interrupt lines follow the status registers.
    - The interrupt chip accounts for every trigger, and waiting interrupts
      expire.
    - The network: vector checksums are the scalar one, incremental updates are
      recomputations; the connection cache is invisible; frames of any bytes
      are translated without a panic and keep their checksums as right as they
      were; replies go back to the sender until the ports wrap; offloaded
      checksums verify.
    - The datapath: under any interleaving of the threads' steps the rings are
      first-in first-out queues and read no slot before it is published; frames
      never share a buffer and keep their bytes; a dropped frame is returned.
    - Frames: every TCP frame built for the guest reads back as what it was built
      from, with right checksums; a stream cut into frames is carried whole, in
      order and within the limits of link and peer.
    - Reassembly: a frame that comes out is made of fragments that arrived, and
      agrees with them; disagreeing fragments bring out nothing; tables and ranges
      are bounded whatever arrives; a datagram built in fragments comes out whole.
    - The classifier: any frame is classified without a panic, each queue holds only
      whole packets of its kind, and the two ways of feeding packets agree.
    - DHCP: no two clients hold one address, an offer is honoured, and a request for
      an address is refused only when there is none.
    - Vsock: an open stream is complete and in order whatever the two ends do,
      the guest's window is never overrun, no pending operation is forgotten, and
      a round over a well-formed ring delivers its packets whole and writes
      nothing else; the write loop to a slow socket ends.

    ** Conventions, bounds and fuel

    - Machine integers are [Z] with the width written out where the code wraps
      or saturates; times are [Z] nanoseconds; hash maps are [gmap]s.
    - What the world answers (system calls, the clock, awaited tasks) is an
      argument: an environment per call or an oracle [nat -> World] read once
      per call. Theorems quantify over it, so they hold under every failure,
      unless they say the world is quiet.
    - [dispatch] drains the queue with fuel [length queue + 1]: an event of the
      queue moves a live computer to a state whose effects queue no second one
      ([dispatch_queued_ok] shows the queue is empty afterwards).
    - The walk of a descriptor chain has the fuel [size + 1], its own bound;
      [chain_walk_complete] shows that more fuel changes nothing.
    - The loops of the vsock device have the fuel of the entries the guest has
      posted, plus the queued connections for a round; [fuel_enough] and
      [inject_loop_ends] show that a round ends within it.
    - The folding of a 32-bit sum has fuel 2, its loop's bound ([fold_done]).
    - The classifier calls itself once, for a reassembled frame, which is no
      fragment: its depth is 2. The loop over IPv6 extension headers has the length
      of the packet as fuel, the options of a SYN their length, the pool of the DHCP
      server its size, the segmentation the bytes it is given: a step of each takes
      at least one.
    - A panic (an index out of bounds, a remainder by zero) is [None]. Release
      builds wrap on overflow, and so do the definitions.
    - Constants of the [virtio_bindings] crate are classes whose laws say that
      the offsets are distinct; [spec_regs] is an instance. The header slices of the
      [etherparse] crate are the class [Etherparse], its documented behaviour the
      laws [EtherparseLaws], and [ex_etherparse] an instance that meets them.
    - Concurrency is interleaving: an actor takes one input at a time, and the
      inputs are in any order that is enabled; guest writes between the steps of
      a device are steps of their own; in the rings each access to an atomic or a
      slot is a step. Memory is sequentially consistent: fences and orderings are
      not modelled.

    ** Not modelled

    - The sub-tasks themselves (booting, gating, capturing: calls to the VM
      driver and the guest agent), which an actor sees as reports; the probing
      of processes and journals at start, which recovery sees as evidence.
    - The desktop application, the container engine, the RPC services, the SDK,
      the guest agents and the hypervisor back ends: I/O against frameworks,
      generated code, or components planned for later. Of the device model, the
      request formats of the devices other than vsock, the worker threads and the
      vCPU loop; of vsock, the older path over a backend trait and vhost-user.
    - Of the network, the packet loops over sockets, the state machine of the TCP
      bridge with its handshakes and timers, DNS and proxies.
    - Logging and metrics. *)

From stdpp Require Import base list gmap strings relations.
From Stdlib Require Import ZArith Lia.

(** ** Results

    Rust's [Result<T, E>]: every fallible operation of the sources returns
    one of these, and the [?] operator is the [let?] notation. *)

Inductive result (E A : Type) : Type :=
| Ok (a : A)
| Err (e : E).
Arguments Ok {E A} _.
Arguments Err {E A} _.

Declare Scope rust_scope.
Delimit Scope rust_scope with rust.
Open Scope rust_scope.

Notation "'let?' x ':=' c 'in' k" :=
  (match c with Ok x => k | Err e => Err e end)
  (at level 10, x pattern, c at level 100, k at level 200,
   format "'[v' 'let?'  x  ':='  c  'in' '/' k ']'") : rust_scope.

(** Whether a fallible call succeeded ([Result::is_ok]). *)
Definition is_ok {E A} (r : result E A) : bool :=
  match r with Ok _ => true | Err _ => false end.

Lemma is_ok_true {E A} (r : result E A) : is_ok r = true ↔ ∃ a, r = Ok a.
Proof. destruct r; simpl; naive_solver. Qed.

(** ** Functional record update

    [r <| f := v |>] is Rust's [r.f = v] on a value: the record [r] with the
    field [f] replaced. A record type joins by declaring an [Eta] instance that
    rebuilds it from its projections; the setter of a field is found by
    abstracting that projection in the rebuilt value. *)

Class Eta (R : Type) := {
  eta : R → R;
  eta_ok : ∀ r, eta r = r
}.
Class Setter {R T : Type} (field : R → T) := upd : (T → T) → R → R.
Arguments upd {R T} field {_} _ _ : simpl never.

Ltac solve_setter :=
  lazymatch goal with
  | |- @Setter ?R ?T ?field =>
      let inst := constr:(_ : Eta R) in
      let g := constr:(fun (setter_f : T → T) (setter_r : R) =>
        ltac:(let body := eval hnf in (@eta R inst setter_r) in
              match eval pattern (field setter_r) in body with
              | ?h _ => let res := eval cbv beta in (h (setter_f (field setter_r))) in exact res
              end)) in
      exact g
  end.
#[export] Hint Extern 1 (Setter _) => solve_setter : typeclass_instances.

Notation "r <| f := v |>" := (upd f (fun _ => v) r)
  (at level 1, left associativity, f at level 9, v at level 200,
   format "r  <|  f  :=  v  |>") : rust_scope.

(** ** Machine integers

    A [w]-bit unsigned integer is a [Z] in [0, 2^w); the wrapping operations
    reduce modulo [2^w]. *)

Open Scope Z_scope.

Definition u8_bound : Z := 2 ^ 8.
Definition u16_bound : Z := 2 ^ 16.
Definition u32_bound : Z := 2 ^ 32.
Definition u64_bound : Z := 2 ^ 64.

Definition in_u16 (z : Z) : Prop := 0 ≤ z < u16_bound.
Definition in_u32 (z : Z) : Prop := 0 ≤ z < u32_bound.
Definition in_u64 (z : Z) : Prop := 0 ≤ z < u64_bound.

Definition wrap16 (z : Z) : Z := z mod u16_bound.
Definition wrapping_add16 (a b : Z) : Z := wrap16 (a + b).
Definition wrapping_sub16 (a b : Z) : Z := wrap16 (a - b).

Lemma in_u16_wrap z : in_u16 (wrap16 z).
Proof. by apply Z.mod_pos_bound. Qed.

(** [width]: values are in the range of their type. *)
Create HintDb width discriminated.
#[export] Hint Constants Opaque : width.
#[export] Hint Resolve in_u16_wrap : width.

(** Saturating subtraction on unsigned integers. *)
Definition saturating_sub (a b : Z) : Z := Z.max 0 (a - b).

Close Scope Z_scope.

(** ** Hierarchical state machines

    The lifecycle machines of the sources are written with an attribute macro:
    a handler per leaf state and per superstate, each returning an [Outcome].
    [Super] defers the event to the superstate named by the handler's attribute;
    an event nobody claims leaves the state alone. None of the sources declares
    an entry or exit action, so a transition is its target state and nothing
    more. *)

Inductive Outcome (S : Type) : Type :=
| Handled
| Super
| Transition (s : S).
Arguments Handled {S}.
Arguments Super {S}.
Arguments Transition {S} _.

(** A handler reads the event and writes into the context. *)
Definition Handler (S E C : Type) : Type := E → C → Outcome S * C.

(** Try a handler, and on [Super] the next one up. *)
Definition or_super {S E C} (leaf parent : Handler S E C) : Handler S E C :=
  λ e c, match leaf e c with
         | (Super, c') => parent e c'
         | r => r
         end.

(** The state after the outermost handler has answered. *)
Definition settle_outcome {S C} (s : S) (r : Outcome S * C) : S * C :=
  match r with
  | (Transition s', c) => (s', c)
  | (Handled, c) | (Super, c) => (s, c)
  end.

(** ** Bytes

    A [u8] is a [Z] in [0, 256); [le_bytes n z] is [z.to_le_bytes()] of an
    [8 n]-bit integer (two's complement for a negative one) and [le_value] is
    [from_le_bytes]. *)

Fixpoint le_bytes (n : nat) (z : Z) : list Z :=
  match n with
  | O => []
  | S n => (z mod 256)%Z :: le_bytes n (z / 256)%Z
  end.

Fixpoint le_value (bs : list Z) : Z :=
  match bs with
  | [] => 0
  | b :: bs => b + 256 * le_value bs
  end%Z.

Lemma le_bytes_length n z : length (le_bytes n z) = n.
Proof. revert z; induction n as [|n IH]; intros z; simpl; [done|by rewrite IH]. Qed.

Lemma pow256_S n : (256 ^ Z.of_nat (S n) = 256 * 256 ^ Z.of_nat n)%Z.
Proof. rewrite Nat2Z.inj_succ, Z.pow_succ_r by lia. done. Qed.

Lemma le_value_bytes n z : le_value (le_bytes n z) = (z mod 256 ^ Z.of_nat n)%Z.
Proof.
  revert z; induction n as [|n IH]; intros z.
  { simpl. by rewrite Z.mod_1_r. }
  simpl le_bytes. simpl le_value. rewrite IH, pow256_S.
  rewrite Z.rem_mul_r by lia. lia.
Qed.

Lemma le_bytes_inj n x y :
  (0 ≤ x < 256 ^ Z.of_nat n)%Z → (0 ≤ y < 256 ^ Z.of_nat n)%Z →
  le_bytes n x = le_bytes n y → x = y.
Proof.
  intros Hx Hy H. apply (f_equal le_value) in H.
  rewrite !le_value_bytes, !Z.mod_small in H by lia. done.
Qed.

Lemma le_bytes_range n z : Forall (λ b, 0 ≤ b < 256)%Z (le_bytes n z).
Proof.
  revert z; induction n as [|n IH]; intros z; simpl; constructor; [|done].
  apply Z.mod_pos_bound. lia.
Qed.

Lemma le_value_range bs :
  Forall (λ b, 0 ≤ b < 256)%Z bs → (0 ≤ le_value bs < 256 ^ Z.of_nat (length bs))%Z.
Proof.
  induction 1 as [|b bs Hb _ IH]; [simpl; lia|].
  change (length (b :: bs)) with (S (length bs)). rewrite pow256_S. simpl. lia.
Qed.

(** [str::as_bytes]. *)
Definition as_bytes (s : string) : list Z :=
  (λ a, Z.of_N (Ascii.N_of_ascii a)) <$> String.list_ascii_of_string s.

#[export] Instance as_bytes_inj : Inj (=) (=) as_bytes.
Proof.
  intros s t H. unfold as_bytes in H.
  apply list_fmap_eq_inj in H.
  - rewrite <- (String.string_of_list_ascii_of_string s), H.
    apply String.string_of_list_ascii_of_string.
  - intros a b Hab. apply N2Z.inj in Hab.
    rewrite <- (Ascii.ascii_N_embedding a), Hab. apply Ascii.ascii_N_embedding.
Qed.

Lemma string_app_nil (s : string) : "" +:+ s = s.
Proof. done. Qed.

Lemma string_app_cons a (s t : string) : String a s +:+ t = String a (s +:+ t).
Proof. done. Qed.

Lemma string_app_length (s t : string) :
  String.length (s +:+ t) = String.length s + String.length t.
Proof.
  induction s as [|a s IH]; [done|]. rewrite string_app_cons. simpl. by rewrite IH.
Qed.

Lemma string_app_assoc (s t u : string) : s +:+ (t +:+ u) = (s +:+ t) +:+ u.
Proof.
  induction s as [|a s IH]; [done|]. rewrite !string_app_cons. by f_equal.
Qed.

(** Two strings that end in suffixes of the same length split there. *)
Lemma string_app_suffix_inj (x y s t : string) :
  String.length s = String.length t → x +:+ s = y +:+ t → x = y ∧ s = t.
Proof.
  intros Hlen. revert y. induction x as [|a x IH]; intros [|b y];
    rewrite ?string_app_nil, ?string_app_cons; intros H.
  - done.
  - subst s. simpl in Hlen. rewrite string_app_length in Hlen. lia.
  - subst t. simpl in Hlen. rewrite string_app_length in Hlen. lia.
  - injection H as -> H. destruct (IH y H) as [-> ->]. done.
Qed.

(** [str::contains] and [str::starts_with] for a literal needle. *)
Fixpoint starts_with (needle s : string) : bool :=
  match needle, s with
  | EmptyString, _ => true
  | String a needle, String b s => Ascii.eqb a b && starts_with needle s
  | String _ _, EmptyString => false
  end.

Fixpoint str_contains (needle s : string) : bool :=
  starts_with needle s ||
  match s with EmptyString => false | String _ s => str_contains needle s end.

(** ** Vectors *)

(** [Vec::pop]: the last element and the rest. *)
Definition vec_pop {A} (l : list A) : option (A * list A) :=
  match last l with
  | Some x => Some (x, removelast l)
  | None => None
  end.

Lemma vec_pop_Some {A} (l l' : list A) x : vec_pop l = Some (x, l') ↔ l = l' ++ [x].
Proof.
  unfold vec_pop. induction l as [|y l _] using rev_ind.
  { split; [done|]. intros H. by apply app_cons_not_nil in H. }
  rewrite last_snoc, removelast_last. split.
  - by intros [= -> ->].
  - intros [-> [= ->]]%app_inj_2; done.
Qed.

Lemma vec_pop_None {A} (l : list A) : vec_pop l = None ↔ l = [].
Proof.
  unfold vec_pop. destruct (last l) eqn:H.
  - split; [done|]. by intros ->.
  - by apply last_None in H.
Qed.
