(* ===== verification/Types.v ===== *)
(** * Computer-runtime vocabulary

    The types the computer runtime shares between its components
    ([computer/arcbox-computer-runtime/src/sandbox/types.rs],
    [.../error.rs], [.../agent.rs], [.../sandbox/workload.rs]): the public
    state a caller sees, the creation parameters a durable record carries, the
    error every fallible operation returns, and the identifier check.

    Instants ([DateTime<Utc>]) and durations are nanoseconds in [Z]; the clock
    is an argument of every operation that reads it. *)

From stdpp Require Import base list gmap strings pretty.
From Stdlib Require Import ZArith.
From S2P Require Import Prelude.

Definition DateTime : Type := Z.
Definition Duration : Type := Z.
Definition from_secs (s : Z) : Duration := (s * 1000000000)%Z.
Definition from_millis (ms : Z) : Duration := (ms * 1000000)%Z.

Abbreviation ComputerId := string (only parsing).

(** ** Public state *)

Module CState.
Inductive ComputerState :=
| Starting | Ready | Running | Stopping | Stopped | Failed | Pausing | Paused.
End CState.
Abbreviation ComputerState := CState.ComputerState.
#[export] Instance ComputerState_eq_dec : EqDecision ComputerState.
Proof. solve_decision. Defined.

(** [impl Display for ComputerState]. *)
Definition ComputerState_to_string (s : ComputerState) : string :=
  match s with
  | CState.Starting => "starting"
  | CState.Ready => "ready"
  | CState.Running => "running"
  | CState.Stopping => "stopping"
  | CState.Stopped => "stopped"
  | CState.Failed => "failed"
  | CState.Pausing => "pausing"
  | CState.Paused => "paused"
  end.

Inductive IdleAction := Kill | Pause.
#[export] Instance IdleAction_eq_dec : EqDecision IdleAction.
Proof. solve_decision. Defined.

Inductive WorkloadClaim := Api | Initial.
#[export] Instance WorkloadClaim_eq_dec : EqDecision WorkloadClaim.
Proof. solve_decision. Defined.

Inductive ExitStatus := Code (code : Z) | Signaled (signal : Z).
#[export] Instance ExitStatus_eq_dec : EqDecision ExitStatus.
Proof. solve_decision. Defined.

Definition conventional_code (s : ExitStatus) : Z :=
  match s with
  | Code code => code
  | Signaled signal => (128 + signal)%Z
  end.

(** ** Creation parameters *)

Record LifecycleUpdate := {
  upd_ttl_seconds : option Z;
  upd_idle_timeout_seconds : option Z;
  upd_on_idle : option IdleAction
}.

Record ComputerMountSpec := {
  mount_source : string;
  mount_target : string;
  mount_readonly : bool
}.

Record TemplateWarmRef := {
  warm_snapshot_id : string;
  warm_vcpus : Z;
  warm_memory_mib : Z
}.

Inductive ReadyProbeSpec :=
| ProbePort (port : Z) (timeout_seconds : Z)
| ProbeCommand (cmd : list string) (timeout_seconds : Z).

Record ComputerSpec := MkComputerSpec {
  spec_id : option string;
  spec_labels : gmap string string;
  spec_kernel : string;
  spec_rootfs : string;
  spec_boot_args : string;
  spec_vcpus : Z;
  spec_memory_mib : Z;
  spec_cmd : list string;
  spec_env : gmap string string;
  spec_working_dir : string;
  spec_user : string;
  spec_mounts : list ComputerMountSpec;
  spec_network_mode : string;
  spec_ttl_seconds : Z;
  spec_ssh_public_key : option string;
  spec_idle_timeout_seconds : Z;
  spec_on_idle : IdleAction;
  spec_template_warm : option TemplateWarmRef;
  spec_ready_probe : option ReadyProbeSpec
}.

#[export] Instance eta_ComputerSpec : Eta ComputerSpec := {|
  eta r := MkComputerSpec (spec_id r) (spec_labels r) (spec_kernel r)
    (spec_rootfs r) (spec_boot_args r) (spec_vcpus r) (spec_memory_mib r)
    (spec_cmd r) (spec_env r) (spec_working_dir r) (spec_user r)
    (spec_mounts r) (spec_network_mode r) (spec_ttl_seconds r)
    (spec_ssh_public_key r) (spec_idle_timeout_seconds r) (spec_on_idle r)
    (spec_template_warm r) (spec_ready_probe r);
  eta_ok := ltac:(by intros [])
|}.

(** [ComputerSpec::default()]. *)
Definition default_spec : ComputerSpec :=
  MkComputerSpec None ∅ "" "" "" 0 0 [] ∅ "" "" [] "" 0 None 0 Kill None None.

(** ** Errors *)

Module CErr.
Inductive ComputerError :=
| NotFound (id : string)
| AlreadyExists (id : string)
| WrongState (id expected actual : string)
| Paused (id : string)
| Io (detail : string)
| Json (detail : string)
| Driver (detail : string)
| Network (detail : string)
| Snapshot (detail : string)
| DeviceMapper (detail : string)
| Rootfs (detail : string)
| Process (detail : string)
| Config (detail : string)
| Vsock (detail : string)
| PathNotFound (path : string)
| NotADirectory (path : string)
| DirectoryNotEmpty (path : string)
| TemplateNotFound (detail : string)
| TemplateVersionExists (detail : string)
| FailedPrecondition (detail : string)
| DeadlineExceeded (detail : string)
| Unavailable (detail : string)
| AckUnconfirmed (id detail : string)
| StdinGap (accepted offset : Z)
| Other (detail : string).
End CErr.
Abbreviation ComputerError := CErr.ComputerError.
#[export] Instance ComputerError_eq_dec : EqDecision ComputerError.
Proof. solve_decision. Defined.

(** [impl Display for ComputerError] (the [#[error(..)]] attributes). *)
Definition error_to_string (e : ComputerError) : string :=
  match e with
  | CErr.NotFound s => "VM not found: " +:+ s
  | CErr.AlreadyExists s => "VM already exists: " +:+ s
  | CErr.WrongState id expected actual =>
      "VM '" +:+ id +:+ "' is in wrong state: expected " +:+ expected
        +:+ ", got " +:+ actual
  | CErr.Paused s => "sandbox '" +:+ s +:+ "' is paused"
  | CErr.Io s => "I/O error: " +:+ s
  | CErr.Json s => "JSON error: " +:+ s
  | CErr.Driver s => "driver error: " +:+ s
  | CErr.Network s => "network error: " +:+ s
  | CErr.Snapshot s => "snapshot error: " +:+ s
  | CErr.DeviceMapper s => "device-mapper error: " +:+ s
  | CErr.Rootfs s => "rootfs error: " +:+ s
  | CErr.Process s => "process error: " +:+ s
  | CErr.Config s => "configuration error: " +:+ s
  | CErr.Vsock s => "vsock error: " +:+ s
  | CErr.PathNotFound s => "path not found: " +:+ s
  | CErr.NotADirectory s => "not a directory: " +:+ s
  | CErr.DirectoryNotEmpty s => "directory not empty: " +:+ s
  | CErr.TemplateNotFound s => "template not found: " +:+ s
  | CErr.TemplateVersionExists s => "template version already exists: " +:+ s
  | CErr.FailedPrecondition s => "failed precondition: " +:+ s
  | CErr.DeadlineExceeded s => "deadline exceeded: " +:+ s
  | CErr.Unavailable s => "service unavailable: " +:+ s
  | CErr.AckUnconfirmed id detail =>
      "sandbox " +:+ id +:+ " committed, but ACK durability is unconfirmed: "
        +:+ detail
  | CErr.StdinGap accepted offset =>
      "stdin offset " +:+ pretty offset +:+ " is past the " +:+ pretty accepted
        +:+ " accepted bytes"
  | CErr.Other s => s
  end.

(** The runtime's [Result<T>] alias. *)
Abbreviation Result A := (result ComputerError A).

(** ** Identifiers *)

(** [b.is_ascii_alphanumeric() || b == b'-' || b == b'_'], on the byte's value. *)
Definition id_byte_ok (a : Ascii.ascii) : bool :=
  let b := Ascii.nat_of_ascii a in
  ((48 <=? b) && (b <=? 57)) || ((65 <=? b) && (b <=? 90))
    || ((97 <=? b) && (b <=? 122)) || (b =? 45) || (b =? 95).

Fixpoint string_forallb (f : Ascii.ascii → bool) (s : string) : bool :=
  match s with
  | EmptyString => true
  | String a s' => f a && string_forallb f s'
  end.

(** [validate_id]: an identifier is non-empty and uses only ASCII letters,
    digits, ['-'] and ['_']. The refusal quotes the identifier ([{id:?}]);
    the quotes are left out of the text here. *)
Definition validate_id (kind id : string) : Result unit :=
  if (id =? "")%string then Err (CErr.Config (kind +:+ " must not be empty"))
  else if negb (string_forallb id_byte_ok id) then
    Err (CErr.Config ("invalid " +:+ kind +:+ " " +:+ id
      +:+ ": only ASCII letters, digits, '-' and '_' are allowed"))
  else Ok tt.
