(* ===== verification/RecordPhase.v ===== *)
(** * The durable phase graph and the record

    [computer/arcbox-computer-runtime/src/sandbox/record/phase.rs]: what a
    durable record can say about one sandbox generation, which moves between
    phases are legal ([can_transition_to]), how a transition edits the record
    ([apply]), and the validation every record read from or written to disk
    passes ([validate_record]).

    [Utc::now()] and [Uuid::new_v4()] are arguments. Texts that interpolate a
    [Debug] rendering keep the interpolated value only. *)

From stdpp Require Import base list gmap strings pretty relations.
From Stdlib Require Import ZArith.
From S2P Require Import Prelude Types.

(** ** Data *)

Definition RECORD_VERSION : Z := 1.

Module Phase.
Inductive ComputerPhase :=
| Creating | Starting | Ready | Stopping | Stopped | Failed | Removing
| Pausing | Paused | Resuming.
End Phase.
Abbreviation ComputerPhase := Phase.ComputerPhase.
#[export] Instance ComputerPhase_eq_dec : EqDecision ComputerPhase.
Proof. solve_decision. Defined.

(** The name the rest of the runtime uses for the same enum. *)
Abbreviation PersistPhase := Phase.ComputerPhase.

Record ComputerProvisionOutcome := { ip_address : string }.
#[export] Instance ComputerProvisionOutcome_eq_dec :
  EqDecision ComputerProvisionOutcome.
Proof. solve_decision. Defined.

(** [ComputerProvisionOutcome::default()]. *)
Definition default_outcome : ComputerProvisionOutcome := {| ip_address := "" |}.

Record ComputerRecord := MkComputerRecord {
  version : Z;
  rec_id : ComputerId;
  generation : Z;
  request_key : string;
  effective_spec : ComputerSpec;
  phase : ComputerPhase;
  provision_outcome : option ComputerProvisionOutcome;
  created_at : DateTime;
  error : option string;
  pause_snapshot_id : option string;
  paused_at : option DateTime;
  ttl_deadline : option DateTime
}.

#[export] Instance eta_ComputerRecord : Eta ComputerRecord := {|
  eta r := MkComputerRecord (version r) (rec_id r) (generation r)
    (request_key r) (effective_spec r) (phase r) (provision_outcome r)
    (created_at r) (error r) (pause_snapshot_id r) (paused_at r)
    (ttl_deadline r);
  eta_ok := ltac:(by intros [])
|}.

Inductive ProvisionIntent :=
| Created (r : ComputerRecord)
| Resume (r : ComputerRecord)
| Replay (r : ComputerRecord)
| Blocked (r : ComputerRecord).

Module Tr.
Inductive ComputerTransition :=
| Starting (outcome : ComputerProvisionOutcome)
| ReadyWithOutcome (outcome : ComputerProvisionOutcome)
| Ready
| Stopping
| Stopped
| Failed (error : string)
| Removing
| Pausing
| Paused (snapshot_id : string)
| Resuming.
End Tr.
Abbreviation ComputerTransition := Tr.ComputerTransition.

(** [ComputerTransition::phase]. *)
Definition transition_phase (t : ComputerTransition) : ComputerPhase :=
  match t with
  | Tr.Starting _ => Phase.Starting
  | Tr.ReadyWithOutcome _ | Tr.Ready => Phase.Ready
  | Tr.Stopping => Phase.Stopping
  | Tr.Stopped => Phase.Stopped
  | Tr.Failed _ => Phase.Failed
  | Tr.Removing => Phase.Removing
  | Tr.Pausing => Phase.Pausing
  | Tr.Paused _ => Phase.Paused
  | Tr.Resuming => Phase.Resuming
  end.

(** ** Operations *)

(** [ComputerRecord::new]: the [Creating] intent. The deadline is seeded from
    the requested lifetime, when there is one. *)
Definition new_record (id key : string) (spec : ComputerSpec)
    (now : DateTime) (uuid : Z) : ComputerRecord :=
  let deadline :=
    if (0 <? spec_ttl_seconds spec)%Z
    then Some (now + from_secs (spec_ttl_seconds spec))%Z
    else None in
  MkComputerRecord RECORD_VERSION id uuid key spec Phase.Creating None now
    None None None deadline.

(** [ComputerPhase::can_transition_to]: the durable edge set, with the
    idempotent self-edge every phase has. *)
Definition can_transition_to (from next : ComputerPhase) : bool :=
  bool_decide (from = next) ||
  match from, next with
  | Phase.Creating, (Phase.Starting | Phase.Failed | Phase.Removing) => true
  | Phase.Starting,
      (Phase.Ready | Phase.Stopping | Phase.Failed | Phase.Removing) => true
  | Phase.Ready,
      (Phase.Stopping | Phase.Pausing | Phase.Failed | Phase.Removing) => true
  | Phase.Stopping, (Phase.Stopped | Phase.Failed | Phase.Removing) => true
  | (Phase.Stopped | Phase.Failed), Phase.Removing => true
  | (Phase.Pausing | Phase.Resuming),
      (Phase.Paused | Phase.Ready | Phase.Failed | Phase.Removing) => true
  | Phase.Paused, (Phase.Resuming | Phase.Failed | Phase.Removing) => true
  | _, _ => false
  end.

(** [ComputerPhase::as_str]. *)
Definition as_str (p : ComputerPhase) : string :=
  match p with
  | Phase.Creating => "creating"
  | Phase.Starting => "starting"
  | Phase.Ready => "ready"
  | Phase.Stopping => "stopping"
  | Phase.Stopped => "stopped"
  | Phase.Failed => "failed"
  | Phase.Removing => "removing"
  | Phase.Pausing => "pausing"
  | Phase.Paused => "paused"
  | Phase.Resuming => "resuming"
  end.

(** The field edits of [ComputerRecord::redact_runtime_inputs]. *)
Definition redact_spec (s : ComputerSpec) : ComputerSpec :=
  s <| spec_boot_args := "" |>
    <| spec_cmd := [] |>
    <| spec_env := ∅ |>
    <| spec_working_dir := "" |>
    <| spec_user := "" |>
    <| spec_mounts := [] |>
    <| spec_ttl_seconds := 0%Z |>
    <| spec_ssh_public_key := None |>.

Definition redact_runtime_inputs (r : ComputerRecord) : ComputerRecord :=
  r <| effective_spec := redact_spec (effective_spec r) |>.

(** The provision outcome a record already carries may not be replaced by a
    different one. *)
Definition outcome_conflict (r : ComputerRecord)
    (outcome : ComputerProvisionOutcome) : option ComputerProvisionOutcome :=
  match provision_outcome r with
  | Some existing => if bool_decide (existing = outcome) then None else Some existing
  | None => None
  end.

Definition conflict_error (r : ComputerRecord)
    (existing outcome : ComputerProvisionOutcome) : ComputerError :=
  CErr.WrongState (rec_id r)
    ("provision outcome " +:+ ip_address existing)
    ("provision outcome " +:+ ip_address outcome).

(** [ComputerRecord::apply]. The method edits [self] in place and every
    refusal precedes the first edit, so a refused transition leaves the record
    unchanged; here an accepted one returns the edited record. *)
Definition apply (r : ComputerRecord) (t : ComputerTransition) (now : DateTime)
    : Result ComputerRecord :=
  let next := transition_phase t in
  let atomic_ready :=
    match t with
    | Tr.ReadyWithOutcome _ => bool_decide (phase r = Phase.Creating)
    | _ => false
    end in
  if negb atomic_ready && negb (can_transition_to (phase r) next) then
    Err (CErr.WrongState (rec_id r)
           ("a valid transition from " +:+ as_str (phase r)) (as_str next))
  else
    match t with
    | Tr.Starting outcome =>
        match outcome_conflict r outcome with
        | Some existing => Err (conflict_error r existing outcome)
        | None =>
            Ok (r <| phase := Phase.Starting |>
                  <| provision_outcome := Some outcome |>
                  <| error := None |>)
        end
    | Tr.ReadyWithOutcome outcome =>
        match outcome_conflict r outcome with
        | Some existing => Err (conflict_error r existing outcome)
        | None =>
            Ok (redact_runtime_inputs
                  (r <| phase := Phase.Ready |>
                     <| provision_outcome := Some outcome |>
                     <| error := None |>))
        end
    | Tr.Ready =>
        Ok (redact_runtime_inputs
              (r <| phase := Phase.Ready |>
                 <| error := None |>
                 <| pause_snapshot_id := None |>
                 <| paused_at := None |>))
    | Tr.Stopping =>
        Ok (redact_runtime_inputs
              (r <| phase := Phase.Stopping |> <| error := None |>))
    | Tr.Stopped => Ok (r <| phase := Phase.Stopped |> <| error := None |>)
    | Tr.Failed e =>
        Ok (redact_runtime_inputs
              (r <| phase := Phase.Failed |> <| error := Some e |>))
    | Tr.Removing => Ok (redact_runtime_inputs (r <| phase := Phase.Removing |>))
    | Tr.Pausing => Ok (r <| phase := Phase.Pausing |> <| error := None |>)
    | Tr.Paused snapshot_id =>
        Ok (r <| phase := Phase.Paused |>
              <| pause_snapshot_id := Some snapshot_id |>
              <| paused_at := Some (default now (paused_at r)) |>
              <| error := None |>)
    | Tr.Resuming => Ok (r <| phase := Phase.Resuming |> <| error := None |>)
    end.

Inductive ExistingProvision := EPending | EReplay | EBlocked.

(** [classify_existing_provision]. *)
Definition classify_existing_provision (r : ComputerRecord) (key : string)
    : Result ExistingProvision :=
  if negb (request_key r =? key)%string then
    Err (CErr.AlreadyExists (rec_id r))
  else Ok match phase r with
  | Phase.Creating => EPending
  | Phase.Starting | Phase.Ready => EReplay
  | Phase.Stopping | Phase.Stopped | Phase.Failed | Phase.Removing
  | Phase.Pausing | Phase.Paused | Phase.Resuming => EBlocked
  end.

(** The phases whose record must carry a provision outcome, and those whose
    record must name a pause snapshot ([validate_record]'s two [matches!]). *)
Definition needs_outcome (p : ComputerPhase) : bool :=
  match p with
  | Phase.Starting | Phase.Ready | Phase.Stopping | Phase.Stopped
  | Phase.Pausing | Phase.Paused | Phase.Resuming => true
  | _ => false
  end.

Definition needs_snapshot (p : ComputerPhase) : bool :=
  match p with Phase.Paused | Phase.Resuming => true | _ => false end.

Definition is_none {A} (o : option A) : bool :=
  match o with None => true | Some _ => false end.

(** [validate_record], in the source's order of checks. *)
Definition validate_record (id : string) (r : ComputerRecord) : Result unit :=
  let? _ := validate_id "sandbox id" id in
  if negb (version r =? RECORD_VERSION)%Z then
    Err (CErr.Config ("unsupported sandbox record version "
                        +:+ pretty (version r) +:+ " for " +:+ id))
  else if negb (rec_id r =? id)%string then
    Err (CErr.Config ("sandbox record id mismatch: expected " +:+ id
                        +:+ ", got " +:+ rec_id r))
  else if negb (bool_decide (spec_id (effective_spec r) = Some id)) then
    Err (CErr.Config ("sandbox record spec id mismatch for " +:+ id))
  else if (request_key r =? "")%string then
    Err (CErr.Config
           ("sandbox record provision request key is empty for " +:+ id))
  else if bool_decide (phase r = Phase.Creating)
            && negb (is_none (provision_outcome r)) then
    Err (CErr.Config ("creating sandbox record unexpectedly has a provision outcome for "
                        +:+ id))
  else if needs_outcome (phase r) && is_none (provision_outcome r) then
    Err (CErr.Config ("sandbox record has no provision outcome in phase "
                        +:+ as_str (phase r) +:+ " for " +:+ id))
  else if needs_snapshot (phase r) && is_none (pause_snapshot_id r) then
    Err (CErr.Config ("sandbox record has no pause snapshot in phase "
                        +:+ as_str (phase r) +:+ " for " +:+ id))
  else Ok tt.

(** ** Well-formed records *)

(** What [validate_record] checks, as a proposition. *)
Record record_wf (id : string) (r : ComputerRecord) : Prop := {
  wf_id_ok : validate_id "sandbox id" id = Ok tt;
  wf_version : version r = RECORD_VERSION;
  wf_id : rec_id r = id;
  wf_spec_id : spec_id (effective_spec r) = Some id;
  wf_key : request_key r ≠ "";
  wf_creating : phase r = Phase.Creating → provision_outcome r = None;
  wf_outcome : needs_outcome (phase r) = true → is_Some (provision_outcome r);
  wf_snapshot : needs_snapshot (phase r) = true → is_Some (pause_snapshot_id r)
}.

Lemma is_none_false {A} (o : option A) : is_none o = false ↔ is_Some o.
Proof. destruct o; simpl; split; by eauto || inversion 1. Qed.

Lemma is_none_true {A} (o : option A) : is_none o = true ↔ o = None.
Proof. by destruct o. Qed.

Lemma validate_id_unit kind id u : validate_id kind id = Ok u → u = tt.
Proof. by destruct u. Qed.

Lemma validate_record_wf id r : validate_record id r = Ok tt ↔ record_wf id r.
Proof.
  unfold validate_record. split.
  - destruct (validate_id _ id) as [[]|] eqn:Hid; [|done].
    repeat case_match; try done; intros _.
    repeat match goal with
    | H : negb _ = false |- _ => apply negb_false_iff in H
    | H : _ && _ = false |- _ => apply andb_false_iff in H
    | H : (_ =? _)%Z = true |- _ => apply Z.eqb_eq in H
    | H : (_ =? _)%string = true |- _ => apply String.eqb_eq in H
    | H : (_ =? _)%string = false |- _ => apply String.eqb_neq in H
    | H : bool_decide _ = true |- _ => apply bool_decide_eq_true in H
    end.
    split; try done.
    + intros Hp. destruct H3 as [H3|H3]; [by apply bool_decide_eq_false in H3|].
      apply negb_false_iff in H3. by apply is_none_true.
    + intros Hp. apply is_none_false. destruct H4; congruence.
    + intros Hp. apply is_none_false. destruct H5; congruence.
  - intros [Hid Hv Hrid Hspec Hkey Hcr Hout Hsnap]. rewrite Hid.
    rewrite Hv, Hrid, Hspec, String.eqb_refl. simpl.
    rewrite bool_decide_true by done. simpl.
    apply String.eqb_neq in Hkey. rewrite Hkey.
    destruct (decide (phase r = Phase.Creating)) as [Hp|Hp].
    + rewrite Hp, (Hcr Hp). done.
    + rewrite (bool_decide_false _ Hp). simpl.
      destruct (needs_outcome (phase r)); simpl.
      * apply is_none_false in Hout as ->; [|done]. simpl.
        destruct (needs_snapshot (phase r)); simpl; [|done].
        by apply is_none_false in Hsnap as ->.
      * destruct (needs_snapshot (phase r)); simpl; [|done].
        by apply is_none_false in Hsnap as ->.
Qed.

(** A transition is legal for a record when its edge is in the durable graph
    (or is the restore's single hop from [Creating]) and it does not replace a
    recorded provision outcome by a different one. *)
Definition legal_move (r : ComputerRecord) (t : ComputerTransition) : Prop :=
  (can_transition_to (phase r) (transition_phase t) = true ∨
   (∃ o, t = Tr.ReadyWithOutcome o) ∧ phase r = Phase.Creating) ∧
  (∀ o, t = Tr.Starting o ∨ t = Tr.ReadyWithOutcome o →
        provision_outcome r = None ∨ provision_outcome r = Some o).

Lemma outcome_conflict_None r o :
  outcome_conflict r o = None ↔
  provision_outcome r = None ∨ provision_outcome r = Some o.
Proof.
  unfold outcome_conflict. destruct (provision_outcome r) as [e|]; [|naive_solver].
  case_bool_decide; naive_solver.
Qed.

(** The record an accepted transition produces always sits in the phase the
    transition names, and keeps the identity of the generation. *)
Lemma apply_inv r t now r' :
  apply r t now = Ok r' →
  phase r' = transition_phase t ∧ version r' = version r ∧
  rec_id r' = rec_id r ∧ generation r' = generation r ∧
  request_key r' = request_key r ∧ created_at r' = created_at r ∧
  ttl_deadline r' = ttl_deadline r ∧
  spec_id (effective_spec r') = spec_id (effective_spec r).
Proof.
  unfold apply. case_match; [done|].
  destruct t; simpl; try case_match; intros [= <-]; done.
Qed.

Lemma is_ok_outcome {E A} r o (err : ComputerProvisionOutcome → E) (a : A) :
  is_ok (match outcome_conflict r o with
         | Some existing => Err (err existing)
         | None => Ok a
         end) = true ↔
  provision_outcome r = None ∨ provision_outcome r = Some o.
Proof.
  rewrite <- outcome_conflict_None.
  destruct (outcome_conflict r o); simpl; naive_solver.
Qed.

Lemma apply_ok_legal r t now :
  is_ok (apply r t now) = true ↔ legal_move r t.
Proof.
  unfold apply, legal_move.
  destruct (can_transition_to (phase r) (transition_phase t)) eqn:Hedge.
  - rewrite andb_false_r.
    destruct t as [o|o| | | | | | | | ]; simpl in *;
      rewrite ?is_ok_outcome; naive_solver.
  - rewrite andb_true_r.
    destruct t as [o|o| | | | | | | | ]; simpl in *;
      try (split; [done|intros [[?|[[? ?] ?]] _]; congruence]).
    case_bool_decide as Hp; simpl; rewrite ?is_ok_outcome; naive_solver.
Qed.

(** ** Runs of a record *)

(** One accepted durable write, and the records a generation goes through. *)
Definition record_step (r r' : ComputerRecord) : Prop :=
  ∃ t now, apply r t now = Ok r'.
Abbreviation record_run := (rtc record_step).

(** Nothing the guest's first workload was given is left in the record. *)
Record inputs_redacted (s : ComputerSpec) : Prop := {
  no_boot_args : spec_boot_args s = "";
  no_cmd : spec_cmd s = [];
  no_env : spec_env s = ∅;
  no_working_dir : spec_working_dir s = "";
  no_user : spec_user s = "";
  no_mounts : spec_mounts s = [];
  no_ttl : spec_ttl_seconds s = 0%Z;
  no_ssh_key : spec_ssh_public_key s = None
}.

Lemma redact_spec_redacted s : inputs_redacted (redact_spec s).
Proof. by split. Qed.

Definition provisioning_phase (p : ComputerPhase) : bool :=
  match p with Phase.Creating | Phase.Starting => true | _ => false end.

Definition teardown_phase (p : ComputerPhase) : bool :=
  match p with
  | Phase.Stopping | Phase.Stopped | Phase.Failed | Phase.Removing => true
  | _ => false
  end.

Definition parked_phase (p : ComputerPhase) : bool :=
  match p with Phase.Paused | Phase.Resuming => true | _ => false end.

(** An accepted move follows the edge set, up to the restore's single hop. *)
Lemma apply_edge r t now r' :
  apply r t now = Ok r' →
  can_transition_to (phase r) (phase r') = true ∨
  phase r = Phase.Creating ∧ phase r' = Phase.Ready.
Proof.
  intros H. destruct (apply_inv _ _ _ _ H) as [-> _].
  assert (is_ok (apply r t now) = true) as Hok by (by rewrite H).
  apply apply_ok_legal in Hok as [[?|[[o ->] ?]] _]; auto.
Qed.

Lemma apply_redacts r t now r' :
  apply r t now = Ok r' →
  (provisioning_phase (phase r) = false → inputs_redacted (effective_spec r)) →
  provisioning_phase (phase r') = false → inputs_redacted (effective_spec r').
Proof.
  intros H Hr. destruct (apply_edge _ _ _ _ H) as [He|He].
  - revert H He. unfold apply. case_match; [done|].
    destruct t; simpl; try case_match; intros [= <-] He Hp; simpl in *;
      try done; try apply redact_spec_redacted;
      apply Hr; destruct (phase r); simpl in *; done.
  - revert H He. unfold apply. case_match; [done|].
    destruct t; simpl; try case_match; intros [= <-] He Hp; simpl in *;
      try done; try apply redact_spec_redacted; destruct He; congruence.
Qed.

Lemma apply_keeps_wf id r t now r' :
  record_wf id r → apply r t now = Ok r' → record_wf id r'.
Proof.
  intros [Hid Hv Hrid Hspec Hkey Hcr Hout Hsnap] H.
  destruct (apply_inv _ _ _ _ H) as (Hp & Hv' & Hi' & Hg' & Hk' & Hc' & Ht' & Hs').
  destruct (apply_edge _ _ _ _ H) as [He|[He1 He2]];
    (split; [done|congruence|congruence|congruence|congruence|..]);
    revert H; unfold apply; case_match; try done;
    destruct t; simpl in *; try case_match; intros [= <-]; simpl in *; eauto;
    destruct (phase r); simpl in *; eauto; done.
Qed.

(** ** Properties *)

(** Validity is an invariant of the durable record. A fresh intent for a
    valid id and a non-empty request key validates, and a record that
    validates still validates after any sequence of accepted transitions, so a
    store that only writes what [apply] returns never refuses its own write. *)
Theorem record_run_valid (id key : string) (spec : ComputerSpec)
    (now : DateTime) (uuid : Z) (r : ComputerRecord)
    (Hid : validate_id "sandbox id" id = Ok tt) (Hkey : key ≠ "")
    (Hspec : spec_id spec = Some id)
    (Hrun : record_run (new_record id key spec now uuid) r) :
  validate_record id r = Ok tt.
Proof.
  apply validate_record_wf.
  assert (record_wf id (new_record id key spec now uuid)) as Hwf by (by split).
  revert Hwf. induction Hrun as [|x y z [t [n Hstep]] _ IH]; [done|].
  eauto using apply_keeps_wf.
Qed.

Example ex_spec : ComputerSpec := default_spec <| spec_id := Some "box" |>
  <| spec_cmd := ["/bin/work"] |> <| spec_env := {["TOKEN" := "secret"]} |>
  <| spec_ttl_seconds := 60%Z |>.
Example ex_outcome : ComputerProvisionOutcome := {| ip_address := "192.0.2.2" |}.

(** A cold boot followed by a pause, as the records it goes through. *)
Definition ex_apply (r : ComputerRecord) (t : ComputerTransition) (now : DateTime)
    : ComputerRecord := match apply r t now with Ok r' => r' | Err _ => r end.
Definition ex_new : ComputerRecord := new_record "box" "key" ex_spec 5%Z 77%Z.
Definition ex_starting : ComputerRecord :=
  Eval vm_compute in ex_apply ex_new (Tr.Starting ex_outcome) 6%Z.
Definition ex_ready : ComputerRecord :=
  Eval vm_compute in ex_apply ex_starting Tr.Ready 7%Z.
Definition ex_pausing : ComputerRecord :=
  Eval vm_compute in ex_apply ex_ready Tr.Pausing 8%Z.
Definition ex_paused : ComputerRecord :=
  Eval vm_compute in ex_apply ex_pausing (Tr.Paused "snap") 9%Z.
Definition ex_resuming : ComputerRecord :=
  Eval vm_compute in ex_apply ex_paused Tr.Resuming 20%Z.
Definition ex_repaused : ComputerRecord :=
  Eval vm_compute in ex_apply ex_resuming (Tr.Paused "snap") 30%Z.
Definition ex_failed : ComputerRecord :=
  Eval vm_compute in ex_apply ex_paused (Tr.Failed "boom") 9%Z.
Definition ex_removing : ComputerRecord :=
  Eval vm_compute in ex_apply ex_failed Tr.Removing 10%Z.

Ltac step_with t n := exists t, n%Z; vm_compute; reflexivity.

Lemma ex_paused_run : record_run ex_new ex_paused.
Proof.
  apply rtc_l with ex_starting; [step_with (Tr.Starting ex_outcome) 6%Z|].
  apply rtc_l with ex_ready; [step_with Tr.Ready 7%Z|].
  apply rtc_l with ex_pausing; [step_with Tr.Pausing 8%Z|].
  apply rtc_once. step_with (Tr.Paused "snap") 9%Z.
Defined.

Lemma record_run_valid_witness : validate_record "box" ex_paused = Ok tt.
Proof.
  apply (record_run_valid "box" "key" ex_spec 5%Z 77%Z ex_paused);
    [reflexivity|discriminate|reflexivity|apply ex_paused_run].
Defined.

(** [apply] accepts a transition exactly when the durable graph has the
    edge (or it is the restore's one-hop commit from [Creating]) and it does
    not contradict a recorded provision outcome; an accepted one lands in the
    phase the transition names and keeps the generation's identity. *)
Theorem apply_spec (r : ComputerRecord) (t : ComputerTransition) (now : DateTime) :
  (is_ok (apply r t now) = true ↔ legal_move r t) ∧
  (∀ r', apply r t now = Ok r' →
     phase r' = transition_phase t ∧ rec_id r' = rec_id r ∧
     generation r' = generation r ∧ request_key r' = request_key r ∧
     created_at r' = created_at r ∧ ttl_deadline r' = ttl_deadline r).
Proof.
  split; [apply apply_ok_legal|].
  intros r' H. destruct (apply_inv _ _ _ _ H) as (?&?&?&?&?&?&?&?). done.
Qed.

(** Once a record has left provisioning it carries none of the inputs the
    first workload was given — command, environment, user, mounts, SSH key,
    boot arguments — whatever path it took. *)
Theorem record_run_redacted (id key : string) (spec : ComputerSpec)
    (now : DateTime) (uuid : Z) (r : ComputerRecord)
    (Hrun : record_run (new_record id key spec now uuid) r)
    (Hphase : provisioning_phase (phase r) = false) :
  inputs_redacted (effective_spec r).
Proof.
  assert (provisioning_phase (phase (new_record id key spec now uuid)) = false →
          inputs_redacted (effective_spec (new_record id key spec now uuid)))
    as H0 by done.
  revert H0 Hphase. induction Hrun as [|x y z [t [n Hstep]] _ IH]; [done|].
  eauto using apply_redacts.
Qed.

Lemma record_run_redacted_witness : inputs_redacted (effective_spec ex_paused).
Proof.
  apply (record_run_redacted "box" "key" ex_spec 5%Z 77%Z ex_paused);
    [apply ex_paused_run|reflexivity].
Defined.

(** Teardown is irreversible. From [Stopping], [Stopped], [Failed] or
    [Removing] no sequence of accepted writes reaches a live phase again, and
    [Removing] is left by no write at all. *)
Theorem teardown_irreversible (r r' : ComputerRecord)
    (Hrun : record_run r r') (Hdown : teardown_phase (phase r) = true) :
  teardown_phase (phase r') = true ∧
  (phase r = Phase.Removing → phase r' = Phase.Removing).
Proof.
  induction Hrun as [|x y z [t [n Hstep]] _ IH]; [done|].
  assert (teardown_phase (phase y) = true ∧
          (phase x = Phase.Removing → phase y = Phase.Removing)) as [Hy Hrem].
  { apply apply_edge in Hstep as [He|[He _]]; [|by rewrite He in Hdown].
    destruct (phase x), (phase y); simpl in *; done. }
  destruct (IH Hy) as [? Hz]. eauto.
Qed.

Lemma teardown_irreversible_witness :
  teardown_phase (phase ex_removing) = true.
Proof.
  apply (teardown_irreversible ex_failed ex_removing);
    [apply rtc_once; step_with Tr.Removing 10%Z|reflexivity].
Defined.

(** A pause is stamped once. While a record stays parked — [Paused], or
    [Resuming] and unwound back to [Paused] — the instant it was paused at
    never moves and it always names a pause snapshot. *)
Theorem paused_stamp_stable (r r' : ComputerRecord) (at_ : DateTime)
    (Hrun : rtc (λ x y, record_step x y ∧ parked_phase (phase y) = true) r r')
    (Hparked : parked_phase (phase r) = true)
    (Hat : paused_at r = Some at_) (Hsnap : is_Some (pause_snapshot_id r)) :
  paused_at r' = Some at_ ∧ is_Some (pause_snapshot_id r').
Proof.
  induction Hrun as [|x y z [[t [n Hstep]] Hy] _ IH]; [done|].
  apply IH; [done|..]; revert Hstep Hy; unfold apply; case_match; try done;
    destruct t; simpl; try case_match; intros [= <-]; simpl; try done;
    rewrite ?Hat; eauto.
Qed.

Lemma paused_stamp_stable_witness : paused_at ex_repaused = Some 9%Z.
Proof.
  apply (paused_stamp_stable ex_paused ex_repaused 9%Z);
    [|reflexivity|reflexivity|by eexists].
  apply rtc_l with ex_resuming;
    [split; [step_with Tr.Resuming 20%Z|reflexivity]|].
  apply rtc_once. split; [step_with (Tr.Paused "snap") 30%Z|reflexivity].
Defined.
