(* ===== verification/Lifecycle.v ===== *)
(** * The computer lifecycle machine

    [src/computer/arcbox-computer-runtime/src/lifecycle/]: the events
    ([event.rs]), the effects ([effect.rs]), the transition table
    ([machine.rs]) and the two projections of a state ([projection.rs]). One
    definition per handler, composed along the [superstate] attributes. *)

From stdpp Require Import base list gmap strings relations.
From Stdlib Require Import ZArith Lia.
From S2P Require Import Prelude Types RecordPhase.

(** ** Events ([event.rs]) *)

Inductive RestoreOrigin := Restore | WarmCreate.

Module Prov.
Inductive Provision :=
| Boot (warm : bool)
| Restore (origin : RestoreOrigin).
End Prov.
Abbreviation Provision := Prov.Provision.

Inductive PauseReason := Requested | IdleTimeout.

#[export] Instance RestoreOrigin_eq : EqDecision RestoreOrigin.
Proof. solve_decision. Defined.
#[export] Instance PauseReason_eq : EqDecision PauseReason.
Proof. solve_decision. Defined.

(** The wire reasons, [sandbox::pause_reason]. *)
Definition PauseReason_as_str (r : PauseReason) : string :=
  match r with Requested => "pause" | IdleTimeout => "idle_timeout" end.

Module Ev.
Inductive Event :=
| Provision (p : Provision)
| Checkpoint
| Pause (reason : PauseReason)
| Resume
| Stop (budget_ms : Z)
| Remove (force : bool)
| Detach
| ClaimWorkload (claim : WorkloadClaim)
| WorkloadExited
| WorkloadReleased
| ResourcesHandedOff
| AgentReady
| Restored
| Gated
| CaptureDone (snapshot_id : string)
| ReleasedForPause
| StopDone
| RemoveDone
| Detached
| Failure
| Frozen
| Stranded
| VmExited
| TtlExpired
| IdleExpired (action : IdleAction)
| Recovered (phase : PersistPhase)
| Adopted.
End Ev.
Abbreviation Event := Ev.Event.

(** ** Effects ([effect.rs]) *)

Module Ntf.
Inductive Notify :=
| Created | Ready | Running | Idle | Stopping | Stopped | Failed | Removed
| Pausing | Paused | Resumed.
End Ntf.
Abbreviation Notify := Ntf.Notify.

Inductive Unconfirmed := Ack | Unavailable | RevertToPaused.

Inductive Durability := Warn | GateJournal | Report (u : Unconfirmed).

Inductive ReleaseScope := Runtime | KeepDisk | Full.

Inductive RecordEnd := Aborted | Removed.

Inductive Timer := Ttl | Idle.

Module Ans.
Inductive Answer := Ready | Resumed | Paused | Stopped | Removed | Detached.
End Ans.
Abbreviation Answer := Ans.Answer.

Module Fx.
Inductive Effect :=
| PersistPhase (phase : PersistPhase) (durability : Durability)
| CommitRestored (durability : Durability)
| ForgetRecord (e : RecordEnd)
| SpawnBoot (warm : bool)
| SpawnRestore (origin : RestoreOrigin)
| SpawnGate
| SpawnCheckpoint (hold : bool)
| SpawnResume
| SpawnStop (budget_ms : Z) (drain : bool)
| SpawnRelease (scope : ReleaseScope)
| Detach
| AbortInflight
| Publish (n : Notify)
| ArmTimer (t : Timer)
| CancelTimer (t : Timer)
| Answer (a : Answer)
| ClearJournal.
End Fx.
Abbreviation Effect := Fx.Effect.

#[export] Instance Notify_eq : EqDecision Notify.
Proof. solve_decision. Defined.
#[export] Instance Unconfirmed_eq : EqDecision Unconfirmed.
Proof. solve_decision. Defined.
#[export] Instance Durability_eq : EqDecision Durability.
Proof. solve_decision. Defined.
#[export] Instance ReleaseScope_eq : EqDecision ReleaseScope.
Proof. solve_decision. Defined.
#[export] Instance Timer_eq : EqDecision Timer.
Proof. solve_decision. Defined.
#[export] Instance Answer_eq : EqDecision Answer.
Proof. solve_decision. Defined.

(** The effect sink a dispatch writes into. *)
Definition Effects : Type := list Effect.

Definition emit (effect : Effect) (items : Effects) : Effects := items ++ [effect].

Definition persist (phase : PersistPhase) (durability : Durability)
    (items : Effects) : Effects :=
  emit (Fx.PersistPhase phase durability) items.

Definition release (scope : ReleaseScope) (items : Effects) : Effects :=
  emit (Fx.SpawnRelease scope) items.

Definition stop (budget_ms : Z) (drain : bool) (items : Effects) : Effects :=
  let items := persist Phase.Stopping Warn items in
  let items := emit (Fx.CancelTimer Idle) items in
  let items := emit (Fx.Publish Ntf.Stopping) items in
  emit (Fx.SpawnStop budget_ms drain) items.

Definition removal (items : Effects) : Effects :=
  let items := emit Fx.AbortInflight items in
  let items := emit (Fx.CancelTimer Ttl) items in
  let items := emit (Fx.CancelTimer Idle) items in
  let items := persist Phase.Removing Warn items in
  release Full items.

Definition failure (items : Effects) : Effects :=
  let items := persist Phase.Failed GateJournal items in
  let items := release Runtime items in
  let items := emit Fx.ClearJournal items in
  let items := emit (Fx.CancelTimer Idle) items in
  let items := emit (Fx.CancelTimer Ttl) items in
  emit (Fx.Publish Ntf.Failed) items.

(** ** The machine ([machine.rs]) *)

Module St.
Inductive State :=
| Provisioning
| Staging
| Booting
| Restoring (origin : RestoreOrigin)
| Gating (committed claimed : bool)
| Ready
| Running
| Checkpointing
| Capturing
| Releasing
| Paused
| Resuming
| Stopping
| Stopped
| Failed
| Removing
| Detached
| Gone.
End St.
Abbreviation State := St.State.

#[export] Instance State_eq : EqDecision State.
Proof. solve_decision. Defined.

Abbreviation LHandler := (Handler State Event Effects).

Definition computer : LHandler := λ event context,
  match event with
  | Ev.Remove _ | Ev.TtlExpired => (Transition St.Removing, removal context)
  | Ev.Frozen | Ev.Failure | Ev.Stranded | Ev.VmExited =>
      (Transition St.Failed, failure context)
  | _ => (Handled, context)
  end.

Definition provisioning : LHandler := λ event context,
  match event with
  | Ev.Provision (Prov.Boot warm) =>
      let context := persist Phase.Starting (Report Ack) context in
      let context := emit (Fx.SpawnBoot warm) context in
      let context := emit (Fx.Publish Ntf.Created) context in
      let context := emit (Fx.ArmTimer Ttl) context in
      (Transition St.Staging, context)
  | Ev.Provision (Prov.Restore origin) =>
      (Transition (St.Restoring origin), emit (Fx.SpawnRestore origin) context)
  | Ev.Failure => (Transition St.Gone, emit (Fx.ForgetRecord Aborted) context)
  | Ev.Recovered phase =>
      match phase with
      | Phase.Creating => (Handled, context)
      | Phase.Starting | Phase.Ready | Phase.Stopping | Phase.Pausing
      | Phase.Resuming | Phase.Failed => (Transition St.Failed, context)
      | Phase.Stopped => (Transition St.Stopped, context)
      | Phase.Paused => (Transition St.Paused, context)
      | Phase.Removing => (Transition St.Removing, context)
      end
  | Ev.Adopted => (Transition St.Ready, context)
  | Ev.Remove false => (Handled, context)
  | _ => (Super, context)
  end.

Definition staging : LHandler := λ event context,
  match event with
  | Ev.ResourcesHandedOff => (Transition St.Booting, context)
  | Ev.Remove false => (Handled, context)
  | _ => (Super, context)
  end.

Definition launching : LHandler := λ event context,
  match event with
  | Ev.ResourcesHandedOff | Ev.Remove false => (Handled, context)
  | _ => (Super, context)
  end.

Definition booting : LHandler := λ event context,
  match event with
  | Ev.AgentReady => (Transition (St.Gating false false), emit Fx.SpawnGate context)
  | _ => (Super, context)
  end.

Definition restoring (origin : RestoreOrigin) : LHandler := λ event context,
  match event with
  | Ev.Restored =>
      let context := emit (Fx.CommitRestored (Report Ack)) context in
      let context := if bool_decide (origin = WarmCreate)
                     then emit (Fx.Publish Ntf.Created) context else context in
      let context := emit (Fx.ArmTimer Ttl) context in
      let context := emit Fx.SpawnGate context in
      (Transition (St.Gating true false), context)
  | Ev.Failure | Ev.Stranded | Ev.VmExited | Ev.Frozen =>
      (Transition St.Removing, removal context)
  | _ => (Super, context)
  end.

Definition gating (committed claimed : bool) : LHandler := λ event context,
  match event with
  | Ev.Gated =>
      let context := if committed then context
                     else persist Phase.Ready (Report Unavailable) context in
      let context := emit (Fx.Publish Ntf.Ready) context in
      let context := emit (Fx.Answer Ans.Ready) context in
      if claimed then (Transition St.Running, context)
      else (Transition St.Ready, emit (Fx.ArmTimer Idle) context)
  | Ev.ClaimWorkload Initial =>
      if claimed then (Handled, context)
      else (Transition (St.Gating committed true),
            emit (Fx.Publish Ntf.Running) context)
  | Ev.WorkloadExited =>
      if claimed then (Transition (St.Gating committed false),
                       emit (Fx.Publish Ntf.Idle) context)
      else (Super, context)
  | Ev.WorkloadReleased =>
      if claimed then (Transition (St.Gating committed false),
                       emit (Fx.Publish Ntf.Idle) context)
      else (Super, context)
  | Ev.Failure | Ev.Frozen | Ev.Stranded =>
      if committed then (Transition St.Removing, removal context)
      else (Super, context)
  | Ev.ClaimWorkload Api | Ev.Remove false => (Handled, context)
  | _ => (Super, context)
  end.

Definition active : LHandler := λ event context,
  match event with
  | Ev.Stop budget_ms => (Transition St.Stopping, stop budget_ms false context)
  | Ev.Detach => (Handled, emit Fx.Detach context)
  | Ev.Detached =>
      let context := emit (Fx.Answer Ans.Detached) context in
      let context := emit (Fx.CancelTimer Ttl) context in
      let context := emit (Fx.CancelTimer Idle) context in
      (Transition St.Detached, context)
  | _ => (Super, context)
  end.

(** The [Pause] arm of [ready], which the idle expiry re-enters. *)
Definition ready_pause (context : Effects) : Outcome State * Effects :=
  let context := persist Phase.Pausing Warn context in
  let context := emit (Fx.CancelTimer Idle) context in
  let context := emit (Fx.Publish Ntf.Pausing) context in
  let context := emit (Fx.SpawnCheckpoint true) context in
  (Transition St.Capturing, context).

Definition ready : LHandler := λ event context,
  match event with
  | Ev.ClaimWorkload _ =>
      let context := emit (Fx.CancelTimer Idle) context in
      let context := emit (Fx.Publish Ntf.Running) context in
      (Transition St.Running, context)
  | Ev.Pause _ => ready_pause context
  | Ev.IdleExpired Pause => ready_pause context
  | Ev.IdleExpired Kill => (Transition St.Removing, removal context)
  | Ev.Checkpoint =>
      let context := emit (Fx.CancelTimer Idle) context in
      let context := emit (Fx.SpawnCheckpoint false) context in
      (Transition St.Checkpointing, context)
  | _ => (Super, context)
  end.

Definition running : LHandler := λ event context,
  match event with
  | Ev.WorkloadExited | Ev.WorkloadReleased =>
      let context := emit (Fx.Publish Ntf.Idle) context in
      let context := emit (Fx.ArmTimer Idle) context in
      (Transition St.Ready, context)
  | Ev.Stop budget_ms => (Transition St.Stopping, stop budget_ms true context)
  | Ev.ClaimWorkload _ | Ev.Pause _ | Ev.Checkpoint | Ev.IdleExpired _
  | Ev.Remove false => (Handled, context)
  | _ => (Super, context)
  end.

Definition checkpointing : LHandler := λ event context,
  match event with
  | Ev.CaptureDone _ | Ev.Failure =>
      (Transition St.Ready, emit (Fx.ArmTimer Idle) context)
  | Ev.ClaimWorkload _ | Ev.Pause _ | Ev.Checkpoint | Ev.Detach | Ev.Detached
  | Ev.IdleExpired _ => (Handled, context)
  | _ => (Super, context)
  end.

Definition suspending : LHandler := λ event context,
  match event with
  | Ev.Stop _ => (Handled, context)
  | _ => (Super, context)
  end.

Definition capturing : LHandler := λ event context,
  match event with
  | Ev.CaptureDone _ => (Transition St.Releasing, release KeepDisk context)
  | Ev.Failure =>
      let context := persist Phase.Ready Warn context in
      let context := emit (Fx.Publish Ntf.Ready) context in
      let context := emit (Fx.ArmTimer Idle) context in
      (Transition St.Ready, context)
  | _ => (Super, context)
  end.

Definition releasing : LHandler := λ event context,
  match event with
  | Ev.ReleasedForPause =>
      let context := persist Phase.Paused GateJournal context in
      let context := emit Fx.ClearJournal context in
      let context := emit (Fx.Publish Ntf.Paused) context in
      let context := emit (Fx.Answer Ans.Paused) context in
      (Transition St.Paused, context)
  | _ => (Super, context)
  end.

Definition paused : LHandler := λ event context,
  match event with
  | Ev.Resume =>
      let context := persist Phase.Resuming (Report RevertToPaused) context in
      (Transition St.Resuming, emit Fx.SpawnResume context)
  | Ev.Pause _ => (Handled, context)
  | _ => (Super, context)
  end.

Definition resuming : LHandler := λ event context,
  match event with
  | Ev.Restored =>
      let context := persist Phase.Ready Warn context in
      let context := emit (Fx.Publish Ntf.Resumed) context in
      let context := emit (Fx.Answer Ans.Resumed) context in
      let context := emit (Fx.ArmTimer Idle) context in
      (Transition St.Ready, context)
  | Ev.Failure =>
      let context := persist Phase.Paused Warn context in
      (Transition St.Paused, emit (Fx.Publish Ntf.Paused) context)
  | Ev.Remove false => (Handled, context)
  | _ => (Super, context)
  end.

Definition stopping : LHandler := λ event context,
  match event with
  | Ev.StopDone =>
      let context := persist Phase.Stopped GateJournal context in
      let context := emit Fx.ClearJournal context in
      let context := emit (Fx.CancelTimer Ttl) context in
      let context := emit (Fx.Publish Ntf.Stopped) context in
      let context := emit (Fx.Answer Ans.Stopped) context in
      (Transition St.Stopped, context)
  | Ev.VmExited => (Handled, context)
  | _ => (Super, context)
  end.

Definition resting : LHandler := λ event context,
  match event with
  | Ev.TtlExpired | Ev.IdleExpired _ | Ev.VmExited | Ev.Failure | Ev.Stranded
  | Ev.Frozen => (Handled, context)
  | _ => (Super, context)
  end.

Definition stopped : LHandler := λ _ context, (Super, context).

Definition failed : LHandler := λ _ context, (Super, context).

Definition removing : LHandler := λ event context,
  match event with
  | Ev.RemoveDone =>
      let context := emit (Fx.ForgetRecord Removed) context in
      let context := emit (Fx.Publish Ntf.Removed) context in
      let context := emit (Fx.Answer Ans.Removed) context in
      (Transition St.Gone, context)
  | Ev.Remove _ | Ev.TtlExpired | Ev.Failure | Ev.Stranded | Ev.Frozen
  | Ev.VmExited => (Handled, context)
  | _ => (Super, context)
  end.

Definition detached : LHandler := λ _ context, (Handled, context).

Definition gone : LHandler := λ _ context, (Handled, context).

(** The [superstate] attributes: the chain of handlers an event climbs. *)
Definition chain (s : State) : LHandler :=
  match s with
  | St.Provisioning => or_super provisioning computer
  | St.Staging => or_super staging computer
  | St.Booting => or_super booting (or_super launching computer)
  | St.Restoring origin => or_super (restoring origin) (or_super launching computer)
  | St.Gating committed claimed => or_super (gating committed claimed) computer
  | St.Ready => or_super ready (or_super active computer)
  | St.Running => or_super running (or_super active computer)
  | St.Checkpointing => or_super checkpointing (or_super active computer)
  | St.Capturing => or_super capturing (or_super suspending computer)
  | St.Releasing => or_super releasing (or_super suspending computer)
  | St.Paused => or_super paused computer
  | St.Resuming => or_super resuming computer
  | St.Stopping => or_super stopping computer
  | St.Stopped => or_super stopped (or_super resting computer)
  | St.Failed => or_super failed (or_super resting computer)
  | St.Removing => or_super removing computer
  | St.Detached => detached
  | St.Gone => gone
  end.

(** [handle_with_context]: one event into the machine, with the effects it
    asked for. *)
Definition handle (s : State) (e : Event) : State * Effects :=
  settle_outcome s (chain s e []).

(** The state the machine starts in. *)
Definition initial : State := St.Provisioning.

(** ** Projections ([projection.rs]) *)

Definition to_public (s : State) : ComputerState :=
  match s with
  | St.Provisioning | St.Staging | St.Booting | St.Restoring _ | St.Resuming =>
      CState.Starting
  | St.Gating _ false => CState.Starting
  | St.Gating _ true => CState.Running
  | St.Ready | St.Checkpointing => CState.Ready
  | St.Running => CState.Running
  | St.Capturing | St.Releasing => CState.Pausing
  | St.Paused => CState.Paused
  | St.Stopping | St.Removing => CState.Stopping
  | St.Detached => CState.Ready
  | St.Stopped | St.Gone => CState.Stopped
  | St.Failed => CState.Failed
  end.

Definition durable (s : State) : option PersistPhase :=
  match s with
  | St.Provisioning | St.Restoring _ => Some Phase.Creating
  | St.Staging | St.Booting => Some Phase.Starting
  | St.Gating committed _ =>
      Some (if committed then Phase.Ready else Phase.Starting)
  | St.Gone => None
  | St.Ready | St.Running | St.Checkpointing | St.Detached => Some Phase.Ready
  | St.Capturing | St.Releasing => Some Phase.Pausing
  | St.Paused => Some Phase.Paused
  | St.Resuming => Some Phase.Resuming
  | St.Stopping => Some Phase.Stopping
  | St.Stopped => Some Phase.Stopped
  | St.Failed => Some Phase.Failed
  | St.Removing => Some Phase.Removing
  end.

(** ** Runs of the machine *)

(** The state and all the effects after a sequence of events. *)
Fixpoint run (s : State) (es : list Event) : State * Effects :=
  match es with
  | [] => (s, [])
  | e :: es =>
      let (s1, fx1) := handle s e in
      let (s2, fx2) := run s1 es in (s2, fx1 ++ fx2)
  end.

(** The two events that seed a fresh machine from a record already on disk. *)
Definition seeding (e : Event) : bool :=
  match e with Ev.Recovered _ | Ev.Adopted => true | _ => false end.

(** A fold of the effects a run emits, indexed by the state it started in,
    keeps an invariant on (state, accumulator) when one dispatch does. *)
Section run_invariant.
Context {A : Type} (f : A → Effect → option A) (allowed : Event → bool).
Context (I : State → A → Prop).

Fixpoint foldM (a : A) (fx : Effects) : option A :=
  match fx with
  | [] => Some a
  | x :: fx => match f a x with Some a' => foldM a' fx | None => None end
  end.

Lemma foldM_app a fx1 fx2 :
  foldM a (fx1 ++ fx2) = match foldM a fx1 with
                         | Some a' => foldM a' fx2 | None => None end.
Proof. revert a; induction fx1 as [|x fx1 IH]; intros a; simpl; [done|]. by case_match. Qed.

Hypothesis dispatch_keeps : ∀ s e a, allowed e = true → I s a →
  ∃ a', foldM a (snd (handle s e)) = Some a' ∧ I (fst (handle s e)) a'.

Lemma run_keeps s es a :
  Forall (λ e, allowed e = true) es → I s a →
  ∃ a', foldM a (snd (run s es)) = Some a' ∧ I (fst (run s es)) a'.
Proof.
  intros Hall. revert s a. induction Hall as [|e es He _ IH]; intros s a HI; simpl.
  { by exists a. }
  destruct (dispatch_keeps s e a He HI) as (a1 & Hf1 & HI1).
  destruct (handle s e) as [s1 fx1]. simpl in *.
  destruct (IH s1 a1 HI1) as (a2 & Hf2 & HI2).
  destruct (run s1 es) as [s2 fx2]. simpl in *.
  exists a2. by rewrite foldM_app, Hf1.
Qed.
End run_invariant.

(** Case analysis on the transition table: every state (with its local
    storage) against every event. *)
Ltac by_table s e :=
  destruct s as [| | |[]|[] []| | | | | | | | | | | | |];
  destruct e as [[w|[]]| |[]| |b|[]| |[]| | | | | | |sn| | | | | | | | | |[]|[]|].

(** Close a row of the table by evaluation. *)
Ltac row := first [discriminate | vm_compute; reflexivity].

(** ** The durable projection is implemented by the writes *)

(** One effect's durable write against the record's phase: a phase write must
    be an edge of the durable graph, the restore's commit starts from
    [Creating], an intent is only aborted from [Creating] and a tombstone only
    dropped from [Removing]. [None] is a refused write. *)
Definition durable_write (cur : option PersistPhase) (fx : Effect)
    : option (option PersistPhase) :=
  match fx with
  | Fx.PersistPhase p _ =>
      match cur with
      | Some q => if can_transition_to q p then Some (Some p) else None
      | None => None
      end
  | Fx.CommitRestored _ =>
      if bool_decide (cur = Some Phase.Creating) then Some (Some Phase.Ready) else None
  | Fx.ForgetRecord Aborted =>
      if bool_decide (cur = Some Phase.Creating) then Some None else None
  | Fx.ForgetRecord Removed =>
      if bool_decide (cur = Some Phase.Removing) then Some None else None
  | _ => Some cur
  end.

Lemma durable_dispatch s e :
  seeding e = false →
  foldM durable_write (durable s) (snd (handle s e)) = Some (durable (fst (handle s e))).
Proof. intros H. by_table s e; row. Qed.

(** ** Timers *)

(** The timers armed, as (ttl, idle). *)
Definition timer_effect (armed : bool * bool) (fx : Effect) : option (bool * bool) :=
  Some match fx with
       | Fx.ArmTimer Ttl => (true, snd armed)
       | Fx.ArmTimer Idle => (fst armed, true)
       | Fx.CancelTimer Ttl => (false, snd armed)
       | Fx.CancelTimer Idle => (fst armed, false)
       | _ => armed
       end.

(** The states a provisioned computer can still expire in. *)
Definition expirable (s : State) : bool :=
  match s with
  | St.Staging | St.Booting | St.Gating _ _ | St.Ready | St.Running
  | St.Checkpointing | St.Capturing | St.Releasing | St.Paused | St.Resuming
  | St.Stopping => true
  | _ => false
  end.

Definition timers_of (s : State) : bool * bool :=
  (expirable s, bool_decide (s = St.Ready)).

(** ** The workload slot *)

Definition holds_slot (s : State) : bool :=
  match s with St.Running | St.Gating _ true => true | _ => false end.

(** The states a computer no longer takes work in. *)
Definition winding_down (s : State) : bool :=
  match s with
  | St.Stopping | St.Stopped | St.Failed | St.Removing | St.Detached | St.Gone => true
  | _ => false
  end.

(** RUNNING opens the slot and IDLE closes it; [None] is an unbalanced one. *)
Definition slot_effect (taken : bool) (fx : Effect) : option bool :=
  match fx with
  | Fx.Publish Ntf.Running => if taken then None else Some true
  | Fx.Publish Ntf.Idle => if taken then Some false else None
  | _ => Some taken
  end.

Definition slot_inv (s : State) (taken : bool) : Prop :=
  winding_down s = false → taken = holds_slot s.

Lemma slot_dispatch s e taken :
  slot_inv s taken →
  ∃ taken', foldM slot_effect taken (snd (handle s e)) = Some taken' ∧
            slot_inv (fst (handle s e)) taken'.
Proof.
  unfold slot_inv. intros H.
  destruct (winding_down s) eqn:Hw.
  - exists taken. clear H. revert Hw. by_table s e; intros; try discriminate; done.
  - specialize (H eq_refl). subst taken. revert Hw.
    by_table s e; intros; try discriminate; eexists; (split; [reflexivity|done]).
Qed.

(** ** Flows *)

(** The sub-task a state waits for. *)
Inductive Flow :=
| FBoot | FRestore | FGate | FCapture (hold : bool) | FResume | FStop
| FRelease (scope : ReleaseScope).

#[export] Instance Flow_eq : EqDecision Flow.
Proof. solve_decision. Defined.

Definition awaits (s : State) : option Flow :=
  match s with
  | St.Staging | St.Booting => Some FBoot
  | St.Restoring _ => Some FRestore
  | St.Gating _ _ => Some FGate
  | St.Checkpointing => Some (FCapture false)
  | St.Capturing => Some (FCapture true)
  | St.Releasing => Some (FRelease KeepDisk)
  | St.Resuming => Some FResume
  | St.Stopping => Some FStop
  | St.Failed => Some (FRelease Runtime)
  | St.Removing => Some (FRelease Full)
  | _ => None
  end.

Definition spawned (fx : Effect) : list Flow :=
  match fx with
  | Fx.SpawnBoot _ => [FBoot]
  | Fx.SpawnRestore _ => [FRestore]
  | Fx.SpawnGate => [FGate]
  | Fx.SpawnCheckpoint hold => [FCapture hold]
  | Fx.SpawnResume => [FResume]
  | Fx.SpawnStop _ _ => [FStop]
  | Fx.SpawnRelease scope => [FRelease scope]
  | _ => []
  end.

Definition spawns (fx : Effects) : list Flow := mjoin (spawned <$> fx).

Lemma claim_moves s claim :
  (fst (handle s (Ev.ClaimWorkload claim)) ≠ s ↔
     s = St.Ready ∨ claim = Initial ∧ ∃ committed, s = St.Gating committed false) ∧
  (fst (handle s (Ev.ClaimWorkload claim)) ≠ s →
     to_public (fst (handle s (Ev.ClaimWorkload claim))) = CState.Running ∧
     holds_slot s = false).
Proof.
  destruct s as [| | |[]|[] []| | | | | | | | | | | | |], claim; simpl;
    (split; [split|]); naive_solver.
Qed.

(** ** Properties *)

(** The durable projection is exactly what the writes implement. From any
    state, along any sequence of events that does not reseed the machine, every
    durable write the effects ask for is legal for the phase the record is in
    when it is made — an edge of the record's graph, the restore's commit from
    [Creating], an abort of an intent or the drop of a tombstone — and the
    phase they leave is the one [durable] names for the final state. *)
Theorem run_durable (s : State) (es : list Event)
    (Hes : Forall (λ e, seeding e = false) es) :
  foldM durable_write (durable s) (snd (run s es)) = Some (durable (fst (run s es))).
Proof.
  destruct (run_keeps durable_write (λ e, negb (seeding e)) (λ s a, a = durable s))
    with (s := s) (es := es) (a := durable s) as (a' & -> & ->); [|..|done|done].
  - intros s' e a He ->. apply negb_true_iff in He.
    exists (durable (fst (handle s' e))). split; [by apply durable_dispatch|done].
  - eapply Forall_impl; [exact Hes|]. by intros e ->.
Qed.

(** A cold boot that runs a workload, is paused, resumed and removed. *)
Example ex_life : list Event :=
  [Ev.Provision (Prov.Boot true); Ev.ResourcesHandedOff; Ev.AgentReady;
   Ev.ClaimWorkload Initial; Ev.Gated; Ev.WorkloadExited; Ev.Pause Requested;
   Ev.CaptureDone "snap"; Ev.ReleasedForPause; Ev.Resume; Ev.Restored;
   Ev.Remove false; Ev.RemoveDone].

Lemma run_durable_witness :
  fst (run St.Provisioning ex_life) = St.Gone ∧
  foldM durable_write (durable St.Provisioning) (snd (run St.Provisioning ex_life))
    = Some (durable (fst (run St.Provisioning ex_life))).
Proof.
  split; [vm_compute; reflexivity|].
  apply (run_durable St.Provisioning ex_life). repeat constructor.
Defined.

(** Timer discipline. In every life of a computer the idle window is armed
    exactly while it sits in [ready], and the lifetime cap exactly from the
    provisioning of its guest until it is stopped, failed, handed over or
    being removed. *)
Theorem run_timers (es : list Event) (Hes : Forall (λ e, seeding e = false) es) :
  foldM timer_effect (false, false) (snd (run initial es))
    = Some (timers_of (fst (run initial es))).
Proof.
  destruct (run_keeps timer_effect (λ e, negb (seeding e)) (λ s a, a = timers_of s))
    with (s := initial) (es := es) (a := (false, false)) as (a' & -> & ->);
    [|..|done|done].
  - intros s e a He ->. eexists; split; [|done]. by_table s e; row.
  - eapply Forall_impl; [exact Hes|]. by intros e ->.
Qed.

Lemma run_timers_witness :
  foldM timer_effect (false, false) (snd (run initial (take 6 ex_life)))
    = Some (true, true).
Proof.
  change (Some (true, true))
    with (Some (timers_of (fst (run initial (take 6 ex_life))))).
  apply (run_timers (take 6 ex_life)). repeat constructor.
Defined.

(** The workload slot is exclusive and its announcements balance. Whatever
    events arrive, RUNNING and IDLE alternate starting with RUNNING, and while
    the computer takes work the slot is open exactly in [running] and in a
    gate whose reservation the boot's own command has claimed. *)
Theorem run_slot (es : list Event) :
  ∃ taken, foldM slot_effect false (snd (run initial es)) = Some taken ∧
    (winding_down (fst (run initial es)) = false →
     taken = holds_slot (fst (run initial es))).
Proof.
  apply (run_keeps slot_effect (λ _, true) slot_inv).
  - intros s e a _. apply slot_dispatch.
  - by apply Forall_true.
  - done.
Qed.

(** One flow at a time, and the right one. A dispatch that leaves the
    machine waiting for a sub-task other than the one it was waiting for spawns
    exactly that sub-task, once; every other dispatch spawns nothing. *)
Theorem handle_spawns (s : State) (e : Event) (He : seeding e = false) :
  spawns (snd (handle s e)) =
    if decide (awaits (fst (handle s e)) = awaits s) then []
    else option_list (awaits (fst (handle s e))).
Proof. by_table s e; row. Qed.

Lemma handle_spawns_witness :
  spawns (snd (handle St.Booting Ev.AgentReady)) = [FGate].
Proof. apply (handle_spawns St.Booting Ev.AgentReady). reflexivity. Defined.

(** Removal. A remove is refused without effect exactly when it is already
    under way or over, when the VM has been handed over, or when it is not
    forced and the public state is busy (starting or running); otherwise it
    tears everything down, whatever was in flight, and the completion of that
    teardown forgets the record for good. The lifetime cap does what a forced
    remove does, except on a computer already at rest. *)
Theorem remove_spec (s : State) (force : bool) :
  let over := bool_decide (s ∈ [St.Removing; St.Gone; St.Detached]) in
  let busy := bool_decide (to_public s ∈ [CState.Starting; CState.Running]) in
  let at_rest := bool_decide (s ∈ [St.Stopped; St.Failed]) in
  handle s (Ev.Remove force) =
    (if over || (negb force && busy) then (s, []) else (St.Removing, removal [])) ∧
  handle s Ev.TtlExpired =
    (if over || at_rest then (s, []) else (St.Removing, removal [])) ∧
  handle St.Removing Ev.RemoveDone =
    (St.Gone, [Fx.ForgetRecord Removed; Fx.Publish Ntf.Removed; Fx.Answer Ans.Removed]) ∧
  (∀ es, run St.Gone es = (St.Gone, [])).
Proof.
  split; [destruct s as [| | |[]|[] []| | | | | | | | | | | | |], force; row|].
  split; [destruct s as [| | |[]|[] []| | | | | | | | | | | | |]; row|].
  split; [done|]. intros es. by induction es as [|e es IH]; simpl; [|rewrite IH].
Qed.

(** What each command acts on. A stop shuts down exactly the computers
    holding a settled guest, draining first only when a workload is running; a
    pause and a checkpoint start only from [ready], a resume only from
    [paused]; a claim is granted only from [ready], or to the boot's own
    command in a gate nobody has claimed, and always ends in a state callers
    see as running. Everywhere else the command leaves state and world alone. *)
Theorem command_spec (s : State) (budget_ms : Z) (reason : PauseReason)
    (claim : WorkloadClaim) :
  handle s (Ev.Stop budget_ms) =
    (if bool_decide (s ∈ [St.Ready; St.Running; St.Checkpointing])
     then (St.Stopping, stop budget_ms (bool_decide (s = St.Running)) [])
     else (s, [])) ∧
  handle s (Ev.Pause reason) =
    (if bool_decide (s = St.Ready)
     then (St.Capturing, [Fx.PersistPhase Phase.Pausing Warn; Fx.CancelTimer Idle;
                          Fx.Publish Ntf.Pausing; Fx.SpawnCheckpoint true])
     else (s, [])) ∧
  handle s Ev.Checkpoint =
    (if bool_decide (s = St.Ready)
     then (St.Checkpointing, [Fx.CancelTimer Idle; Fx.SpawnCheckpoint false])
     else (s, [])) ∧
  handle s Ev.Resume =
    (if bool_decide (s = St.Paused)
     then (St.Resuming, [Fx.PersistPhase Phase.Resuming (Report RevertToPaused);
                         Fx.SpawnResume])
     else (s, [])) ∧
  (fst (handle s (Ev.ClaimWorkload claim)) ≠ s ↔
     s = St.Ready ∨ claim = Initial ∧ ∃ committed, s = St.Gating committed false) ∧
  (fst (handle s (Ev.ClaimWorkload claim)) ≠ s →
     to_public (fst (handle s (Ev.ClaimWorkload claim))) = CState.Running ∧
     holds_slot s = false).
Proof.
  destruct s as [| | |[]|[] []| | | | | | | | | | | | |], claim;
    (do 4 (split; [row|])); apply claim_moves.
Qed.

(** A handover is final and writes nothing. Only [ready] and [running]
    ask for one and only they accept its completion; the request itself does
    not move the machine, the record keeps the [Ready] the successor adopts
    from, both timers are dropped, and no later event has any effect. *)
Theorem handover_final (s : State) :
  (handle s Ev.Detach =
     (s, if bool_decide (s ∈ [St.Ready; St.Running]) then [Fx.Detach] else [])) ∧
  (fst (handle s Ev.Detached) = St.Detached ↔
     s ∈ [St.Ready; St.Running; St.Detached]) ∧
  (foldM durable_write (durable s) (snd (handle s Ev.Detached)) = Some (durable s)) ∧
  (∀ armed, s ∈ [St.Ready; St.Running] →
     foldM timer_effect armed (snd (handle s Ev.Detached)) = Some (false, false)) ∧
  (∀ es, run St.Detached es = (St.Detached, [])).
Proof.
  split; [destruct s as [| | |[]|[] []| | | | | | | | | | | | |]; row|].
  split; [rewrite !elem_of_cons, elem_of_nil;
          destruct s as [| | |[]|[] []| | | | | | | | | | | | |]; naive_solver|].
  split; [destruct s as [| | |[]|[] []| | | | | | | | | | | | |]; row|].
  split; [by intros [??] [->|[->|?%elem_of_nil]%elem_of_cons]%elem_of_cons|].
  intros es. by induction es as [|e es IH]; simpl; [|rewrite IH].
Qed.
