(* ===== verification/Policy.v ===== *)
(** * Restart, deadline and settlement policies

    The pure decision functions of
    [src/computer/arcbox-computer-runtime/src/sandbox/policy/]: what a restart
    makes of a durable record ([recovery.rs]), when a computer's timers are due
    ([deadlines.rs]) and where a capture left the guest ([settle.rs]), with the
    theorems that tie them to the lifecycle machine. *)

From stdpp Require Import base list gmap strings relations.
From Stdlib Require Import ZArith Lia.
From S2P Require Import Prelude Types RecordPhase Lifecycle.

(** ** Crash recovery ([recovery.rs]) *)

Module Evidence.
Inductive JournalEvidence := Swept | Unjournaled | Unchecked | Adopted.
End Evidence.
Abbreviation JournalEvidence := Evidence.JournalEvidence.

#[export] Instance JournalEvidence_eq : EqDecision JournalEvidence.
Proof. solve_decision. Defined.

Inductive RecoveryAction :=
| LeaveResumable
| Fail
| Reinstate (state : ComputerState)
| FinishRemove
| RefuseUnjournaled
| RefuseAdopted.

Inductive SweepAction := DropStaleJournal | Reclaim.

#[export] Instance RecoveryAction_eq : EqDecision RecoveryAction.
Proof. solve_decision. Defined.
#[export] Instance SweepAction_eq : EqDecision SweepAction.
Proof. solve_decision. Defined.

Definition plan (phase : PersistPhase) (evidence : JournalEvidence)
    : RecoveryAction :=
  match phase, evidence with
  | Phase.Ready, Evidence.Adopted => Reinstate CState.Ready
  | _, Evidence.Adopted => RefuseAdopted
  | Phase.Creating, _ => LeaveResumable
  | (Phase.Starting | Phase.Ready | Phase.Stopping), Evidence.Unjournaled =>
      RefuseUnjournaled
  | (Phase.Starting | Phase.Ready | Phase.Stopping), _ => Fail
  | (Phase.Pausing | Phase.Resuming), _ => Fail
  | Phase.Paused, _ => Reinstate CState.Paused
  | Phase.Stopped, _ => Reinstate CState.Stopped
  | Phase.Failed, _ => Reinstate CState.Failed
  | Phase.Removing, _ => FinishRemove
  end.

Definition retained_ids (records : list (string * PersistPhase)) : gset string :=
  list_to_set (fst <$> filter (λ r, snd r = Phase.Paused) records).

Definition sweep_action (id : string) (retained : gset string) : SweepAction :=
  if bool_decide (id ∈ retained) then DropStaleJournal else Reclaim.

(** [reconcile.rs], [phase_of]: the durable phase a reinstated computer's
    record was left in. *)
Definition phase_of (state : ComputerState) : PersistPhase :=
  match state with
  | CState.Paused | CState.Pausing => Phase.Paused
  | CState.Stopped | CState.Stopping => Phase.Stopped
  | _ => Phase.Failed
  end.

(** ** Deadlines ([deadlines.rs]) *)

Definition ttl_due (state : ComputerState) (deadline : option DateTime)
    : option DateTime :=
  match state with
  | CState.Stopped | CState.Failed => None
  | _ => deadline
  end.

Definition idle_due (state : ComputerState) (timeout_seconds : Z)
    : option Duration :=
  if bool_decide (state = CState.Ready) && negb (timeout_seconds =? 0)%Z
  then Some (from_secs timeout_seconds) else None.

(** [TimeDelta::to_std] refuses a negative span. *)
Definition remaining (deadline now : DateTime) : Duration :=
  if (deadline - now <? 0)%Z then 0%Z else (deadline - now)%Z.

(** ** Checkpoint settlement ([settle.rs]) *)

(** The driver's exit status and VM state ([virt/arcbox-vm-driver]). *)
Record DriverExit := { exit_code : option Z; exit_signal : option Z }.

Module VmSt.
Inductive VmState := Running | Quiesced | Exited (status : DriverExit).
End VmSt.
Abbreviation VmState := VmSt.VmState.

#[export] Instance DriverExit_eq : EqDecision DriverExit.
Proof. solve_decision. Defined.
#[export] Instance VmState_eq : EqDecision VmState.
Proof. solve_decision. Defined.

Inductive GuestHold := ResumeGuest | Hold.
Inductive Capture := Succeeded | CaptureFailed.
Inductive Settlement := AsRequested | FrozenGuest.

#[export] Instance GuestHold_eq : EqDecision GuestHold.
Proof. solve_decision. Defined.
#[export] Instance Capture_eq : EqDecision Capture.
Proof. solve_decision. Defined.

Definition settlement (state : VmState) (hold : GuestHold) (capture : Capture)
    : Settlement :=
  if bool_decide (state = VmSt.Quiesced) &&
     (bool_decide (hold = ResumeGuest) || bool_decide (capture = CaptureFailed))
  then FrozenGuest else AsRequested.

(** ** Properties *)

(** What recovery has left of a record once its verdict is carried out: the
    phase written, or [None] for a tombstone dropped. A refusal leaves no
    verdict at all. *)
Definition verdict_phase (phase : PersistPhase) (a : RecoveryAction)
    : option (option PersistPhase) :=
  match a with
  | LeaveResumable => Some (Some phase)
  | Fail => Some (Some Phase.Failed)
  | Reinstate _ => Some (Some phase)
  | FinishRemove => Some None
  | RefuseUnjournaled | RefuseAdopted => None
  end.

(** The event a recovered computer's machine is seeded with
    ([RecoveredComputer], [Seeded]). *)
Definition seed_event (evidence : JournalEvidence) (a : RecoveryAction)
    : option Event :=
  match a with
  | Fail => Some (Ev.Recovered (phase_of CState.Failed))
  | Reinstate state =>
      Some (match evidence with
            | Evidence.Adopted => Ev.Adopted
            | _ => Ev.Recovered (phase_of state)
            end)
  | _ => None
  end.

(** A restart resumes exactly where the record says. Whenever recovery
    reinstates or fails a computer, the machine it seeds sits in a state whose
    durable projection is the phase recovery left on disk and whose public
    projection is the state the verdict names, without emitting a single
    effect; the [Failed] it writes is a legal edge of the record's graph, and a
    record is only ever dropped from [Removing]. *)
Theorem plan_seeds_machine (phase : PersistPhase) (evidence : JournalEvidence) :
  (∀ e, seed_event evidence (plan phase evidence) = Some e →
     snd (handle initial e) = [] ∧
     Some (durable (fst (handle initial e)))
       = verdict_phase phase (plan phase evidence) ∧
     (∀ s, plan phase evidence = Reinstate s → to_public (fst (handle initial e)) = s)) ∧
  (plan phase evidence = Fail → can_transition_to phase Phase.Failed = true) ∧
  (plan phase evidence = FinishRemove → phase = Phase.Removing).
Proof.
  destruct phase, evidence; simpl; (split; [|done]); intros e H; try done;
    injection H as <-; simpl; naive_solver.
Qed.

Lemma plan_seeds_machine_witness :
  to_public (fst (handle initial (Ev.Recovered Phase.Paused))) = CState.Paused.
Proof.
  apply (plan_seeds_machine Phase.Paused Evidence.Swept); reflexivity.
Defined.

(** A journal is kept or torn down by what the record says. The sweep
    drops a journal and keeps the files beside it exactly for the ids that have
    a [Paused] record — the ones a restart reinstates as resumable — and
    reclaims every other, a journal with no record included; and startup
    refuses to declare a computer dead exactly when a live phase left no
    journal or the sweep adopted a phase it must not. *)
Theorem sweep_and_refusal (records : list (string * PersistPhase)) (id : string)
    (phase : PersistPhase) (evidence : JournalEvidence) :
  (sweep_action id (retained_ids records) = DropStaleJournal ↔
     (id, Phase.Paused) ∈ records) ∧
  ((id, phase) ∈ records →
     plan phase evidence = Reinstate CState.Paused →
     sweep_action id (retained_ids records) = DropStaleJournal) ∧
  (verdict_phase phase (plan phase evidence) = None ↔
     evidence = Evidence.Adopted ∧ phase ≠ Phase.Ready ∨
     evidence = Evidence.Unjournaled ∧
       phase ∈ [Phase.Starting; Phase.Ready; Phase.Stopping]).
Proof.
  assert (sweep_action id (retained_ids records) = DropStaleJournal ↔
          (id, Phase.Paused) ∈ records) as Hsweep.
  { unfold sweep_action, retained_ids. case_bool_decide as Hin.
    - split; [|done]. intros _. rewrite elem_of_list_to_set, list_elem_of_fmap in Hin.
      destruct Hin as ([i p] & -> & [Hp Hr]%list_elem_of_filter). simpl in *. by subst.
    - split; [done|]. intros Hr. destruct Hin.
      rewrite elem_of_list_to_set, list_elem_of_fmap. exists (id, Phase.Paused).
      split; [done|]. by apply list_elem_of_filter. }
  split; [done|]. split.
  - intros Hin Hplan. apply Hsweep. destruct phase, evidence; try done.
  - rewrite !elem_of_cons, elem_of_nil. destruct phase, evidence; simpl; naive_solver.
Qed.

Lemma sweep_and_refusal_witness :
  sweep_action "a" (retained_ids [("a", Phase.Paused); ("b", Phase.Ready)])
    = DropStaleJournal.
Proof.
  apply (sweep_and_refusal [("a", Phase.Paused); ("b", Phase.Ready)] "a"
           Phase.Paused Evidence.Swept); [set_solver|reflexivity].
Defined.

(** Deadlines. The time left on a deadline is never negative, reaches zero
    exactly when it has passed and shrinks with the clock; and the timers a
    public state would have armed agree with the machine: where [ttl_due]
    cancels, the machine's cap is not armed either, and where [idle_due] arms,
    the public state is [Ready]. *)
Theorem deadlines_spec (deadline now : DateTime) (s : State) (timeout : Z) :
  (0 ≤ remaining deadline now)%Z ∧
  (remaining deadline now = 0%Z ↔ (deadline ≤ now)%Z) ∧
  (∀ later, (now ≤ later)%Z → (remaining deadline later ≤ remaining deadline now)%Z) ∧
  (ttl_due (to_public s) (Some deadline) = None → expirable s = false) ∧
  (idle_due (to_public s) timeout ≠ None ↔
     to_public s = CState.Ready ∧ timeout ≠ 0%Z).
Proof.
  unfold remaining, idle_due. split; [case_match; lia|].
  split; [case_match; lia|]. split; [intros; repeat case_match; lia|].
  split; [by destruct s as [| | |[]|[] []| | | | | | | | | | | | |]|].
  case_bool_decide; simpl; [|naive_solver].
  destruct (Z.eqb_spec timeout 0); simpl; naive_solver.
Qed.

Lemma deadlines_spec_witness : expirable St.Failed = false.
Proof. apply (deadlines_spec 10%Z 3%Z St.Failed 0%Z). reflexivity. Defined.
