(* ===== verification/SlotPool.v ===== *)
(** * The warm-slot pool

    [src/computer/arcbox-computer-runtime/src/sandbox/policy/pool.rs]: the
    slots prepared ahead of a restore, keyed by snapshot id, at most two ids at
    a time by recency. The mutex is held for the whole of every method, so an
    operation is one step on [PoolInner]. *)

From stdpp Require Import base list gmap strings relations.
From Stdlib Require Import ZArith Lia.
From S2P Require Import Prelude.

Definition MAX_POOLED_SNAPSHOTS : nat := 2.

Record PoolInner (S : Type) := MkPoolInner {
  ready_slots : gmap string (list S);
  filling : gmap string nat;
  lru : list string
}.
Arguments MkPoolInner {S}.
Arguments ready_slots {S}.
Arguments filling {S}.
Arguments lru {S}.

#[export] Instance PoolInner_eta S : Eta (PoolInner S) := {|
  eta p := MkPoolInner (ready_slots p) (filling p) (lru p);
  eta_ok := ltac:(by intros [])
|}.

Record FillPlan (S : Type) := MkFillPlan { spawn : nat; evicted : list S }.
Arguments MkFillPlan {S}.
Arguments spawn {S}.
Arguments evicted {S}.

Section pool.
  Context {S : Type}.
  Implicit Types (p : PoolInner S) (id : string).

(** [Default]. *)
Definition empty_pool : PoolInner S := MkPoolInner ∅ ∅ [].

(** [lru.retain(|entry| entry != id)]. *)
Definition forget_id (id : string) (l : list string) : list string :=
  filter (λ entry, entry ≠ id) l.

Definition touch (p : PoolInner S) (id : string) : PoolInner S :=
  p <| lru := forget_id id (lru p) ++ [id] |>.

Definition is_filling (p : PoolInner S) (id : string) : nat :=
  default 0 (filling p !! id).

Definition ready_for (p : PoolInner S) (id : string) : list S :=
  default [] (ready_slots p !! id).

Definition prune (p : PoolInner S) (id : string) : PoolInner S :=
  let ready := negb (bool_decide (ready_for p id = [])) in
  let fill := bool_decide (0 < is_filling p id) in
  if negb ready && negb fill
  then p <| ready_slots := delete id (ready_slots p) |>
         <| lru := forget_id id (lru p) |>
  else p.

Definition finish_fill (p : PoolInner S) (id : string) : PoolInner S :=
  match filling p !! id with
  | Some count =>
      let count := count - 1 in
      if bool_decide (count = 0) then p <| filling := delete id (filling p) |>
      else p <| filling := <[id := count]> (filling p) |>
  | None => p
  end.

Definition claim (p : PoolInner S) (id : string) : PoolInner S * option S :=
  match ready_slots p !! id with
  | None => (p, None)
  | Some slots =>
      match vec_pop slots with
      | None => (p, None)
      | Some (slot, rest) =>
          let p := p <| ready_slots := <[id := rest]> (ready_slots p) |> in
          (prune (touch p id) id, Some slot)
      end
  end.

(** The eviction loop of [begin_fill]: the head of the LRU list goes while the
    list is over the cap. *)
Fixpoint evict (l : list string) (ready : gmap string (list S)) (out : list S)
    : list string * gmap string (list S) * list S :=
  match l with
  | [] => (l, ready, out)
  | stale :: rest =>
      if bool_decide (MAX_POOLED_SNAPSHOTS < length l)
      then evict rest (delete stale ready) (out ++ default [] (ready !! stale))
      else (l, ready, out)
  end.

Definition begin_fill (p : PoolInner S) (id : string) (target : nat)
    : PoolInner S * FillPlan S :=
  if bool_decide (target = 0) then (p, MkFillPlan 0 []) else
  let p := touch p id in
  let ready := length (ready_for p id) in
  let fill := is_filling p id in
  let spawn := target - (ready + fill) in
  let p := if bool_decide (0 < spawn)
           then p <| filling := <[id := fill + spawn]> (filling p) |> else p in
  let '(l, r, out) := evict (lru p) (ready_slots p) [] in
  (p <| lru := l |> <| ready_slots := r |>, MkFillPlan spawn out).

Definition offer (p : PoolInner S) (id : string) (slot : S)
    : PoolInner S * option S :=
  let p := finish_fill p id in
  if bool_decide (id ∈ lru p)
  then (p <| ready_slots := <[id := ready_for p id ++ [slot]]> (ready_slots p) |>, None)
  else (p, Some slot).

Definition abandon_fill (p : PoolInner S) (id : string) : PoolInner S :=
  prune (finish_fill p id) id.

(** Every slot of a map of slots; a [HashMap] drains in no particular order. *)
Definition all_slots (m : gmap string (list S)) : list S :=
  map_to_list m ≫= snd.

Definition drain (p : PoolInner S) (id : option string) : PoolInner S * list S :=
  match id with
  | Some id =>
      (p <| lru := forget_id id (lru p) |>
         <| ready_slots := delete id (ready_slots p) |>, ready_for p id)
  | None => (p <| lru := [] |> <| ready_slots := ∅ |>, all_slots (ready_slots p))
  end.

End pool.

(** ** Steps *)

Inductive PoolOp (S : Type) :=
| Claim (id : string)
| BeginFill (id : string) (target : nat)
| Offer (id : string) (slot : S)
| AbandonFill (id : string)
| Drain (id : option string).
Arguments Claim {S}.
Arguments BeginFill {S}.
Arguments Offer {S}.
Arguments AbandonFill {S}.
Arguments Drain {S}.

(** The pool after an operation and the slots the operation hands back. *)
Definition pool_step {S} (p : PoolInner S) (op : PoolOp S) : PoolInner S * list S :=
  match op with
  | Claim id => let (p, s) := claim p id in (p, option_list s)
  | BeginFill id target => let (p, f) := begin_fill p id target in (p, evicted f)
  | Offer id slot => let (p, s) := offer p id slot in (p, option_list s)
  | AbandonFill id => (abandon_fill p id, [])
  | Drain id => drain p id
  end.

(** The slots an operation hands in. *)
Definition slots_in {S} (op : PoolOp S) : list S :=
  match op with Offer _ slot => [slot] | _ => [] end.

Fixpoint pool_run {S} (p : PoolInner S) (ops : list (PoolOp S))
    : PoolInner S * list S :=
  match ops with
  | [] => (p, [])
  | op :: ops =>
      let (p, out) := pool_step p op in
      let (p, outs) := pool_run p ops in (p, out ++ outs)
  end.

(** ** Invariant *)

(** The ids listed are distinct and at most two; only a listed id holds slots;
    a listed id has a slot or a fill on the way; counts of fills are positive. *)
Record pool_inv {S} (p : PoolInner S) : Prop := {
  inv_nodup : NoDup (lru p);
  inv_cap : length (lru p) ≤ MAX_POOLED_SNAPSHOTS;
  inv_listed : ∀ id, is_Some (ready_slots p !! id) → id ∈ lru p;
  inv_live : ∀ id, id ∈ lru p → ready_for p id ≠ [] ∨ 0 < is_filling p id;
  inv_counts : ∀ id n, filling p !! id = Some n → 0 < n
}.

Section pool_lemmas.
Context {S : Type}.
Implicit Types (p : PoolInner S) (id : string).

Lemma elem_of_forget_id id x l : x ∈ forget_id id l ↔ x ∈ l ∧ x ≠ id.
Proof. unfold forget_id. rewrite list_elem_of_filter. naive_solver. Qed.

Lemma forget_id_nodup id l : NoDup l → NoDup (forget_id id l).
Proof. apply NoDup_filter. Qed.

Lemma forget_id_length id l : length (forget_id id l) ≤ length l.
Proof. apply length_filter. Qed.

Lemma forget_id_notin id l : id ∉ l → forget_id id l = l.
Proof.
  unfold forget_id. induction l as [|x l IH]; [done|].
  rewrite not_elem_of_cons, filter_cons. intros [? ?].
  rewrite decide_True by done. f_equal. auto.
Qed.

Lemma forget_id_length_in id l :
  NoDup l → id ∈ l → length (forget_id id l) + 1 = length l.
Proof.
  induction 1 as [|x l Hx Hl IH]; [by intros ?%elem_of_nil|].
  unfold forget_id in *. rewrite elem_of_cons, filter_cons. intros [->|Hin].
  - rewrite decide_False by naive_solver. simpl.
    fold (forget_id x l). rewrite forget_id_notin by done. lia.
  - rewrite decide_True by (by intros ->). simpl. specialize (IH Hin). lia.
Qed.

Lemma touch_nodup p id : NoDup (lru p) → NoDup (lru (touch p id)).
Proof.
  intros H. apply NoDup_app. split; [by apply forget_id_nodup|]. split.
  - intros x Hx%elem_of_forget_id ->%list_elem_of_singleton. naive_solver.
  - apply NoDup_singleton.
Qed.

Lemma elem_of_touch p id x : x ∈ lru (touch p id) ↔ x ∈ lru p ∨ x = id.
Proof.
  change (lru (touch p id)) with (forget_id id (lru p) ++ [id]).
  rewrite elem_of_app, elem_of_forget_id, list_elem_of_singleton.
  destruct (decide (x = id)); naive_solver.
Qed.

(** What [prune] leaves: the pool itself when the id is live, otherwise the
    pool without any trace of the id but its fill count. *)
Lemma prune_cases p id :
  (ready_for p id ≠ [] ∨ 0 < is_filling p id) ∧ prune p id = p ∨
  ready_for p id = [] ∧ is_filling p id = 0 ∧
    lru (prune p id) = forget_id id (lru p) ∧
    ready_slots (prune p id) = delete id (ready_slots p) ∧
    filling (prune p id) = filling p.
Proof.
  unfold prune. case_bool_decide; case_bool_decide; simpl;
    [left|right|left|left]; eauto; split_and!; eauto; lia.
Qed.

Lemma prune_inv p id :
  NoDup (lru p) → length (lru p) ≤ MAX_POOLED_SNAPSHOTS →
  (∀ x, is_Some (ready_slots p !! x) → x ∈ lru p) →
  (∀ x, x ∈ lru p → x ≠ id → ready_for p x ≠ [] ∨ 0 < is_filling p x) →
  (∀ x n, filling p !! x = Some n → 0 < n) →
  pool_inv (prune p id).
Proof.
  intros Hnd Hcap Hlst Hlive Hcnt.
  destruct (prune_cases p id) as [[Hok ->]|(Hr & Hf & Hlru & Hrd & Hfl)].
  - split; [done|done|done| |done]. intros x Hx.
    destruct (decide (x = id)) as [->|]; eauto.
  - split; rewrite ?Hlru, ?Hrd, ?Hfl.
    + by apply forget_id_nodup.
    + pose proof (forget_id_length id (lru p)). lia.
    + intros x Hx. rewrite elem_of_forget_id. apply lookup_delete_is_Some in Hx as [? ?].
      auto.
    + intros x [Hx Hne]%elem_of_forget_id. unfold ready_for, is_filling in *.
      rewrite Hrd, Hfl, lookup_delete_ne by done. by apply Hlive.
    + done.
Qed.

Lemma finish_fill_keeps p id :
  lru (finish_fill p id) = lru p ∧ ready_slots (finish_fill p id) = ready_slots p.
Proof. unfold finish_fill. repeat case_match; done. Qed.

Lemma finish_fill_other p id x :
  x ≠ id → is_filling (finish_fill p id) x = is_filling p x.
Proof.
  intros Hne. unfold finish_fill, is_filling. case_match; [|done].
  case_bool_decide; simpl; by rewrite ?lookup_delete_ne, ?lookup_insert_ne by done.
Qed.

Lemma finish_fill_counts p id :
  (∀ x n, filling p !! x = Some n → 0 < n) →
  ∀ x n, filling (finish_fill p id) !! x = Some n → 0 < n.
Proof.
  intros Hc x n. unfold finish_fill. destruct (filling p !! id) as [c|] eqn:Hid; [|apply Hc].
  case_bool_decide; simpl.
  - intros [_ ?]%lookup_delete_Some. eauto.
  - intros [[<- <-]|[_ ?]]%lookup_insert_Some; [lia|eauto].
Qed.

(** The eviction keeps a suffix of the list, within the cap, and the slots of
    exactly the ids it keeps. *)
Lemma evict_spec (l : list string) (ready : gmap string (list S)) out l' ready' out' :
  evict l ready out = (l', ready', out') →
  length l' ≤ MAX_POOLED_SNAPSHOTS ∧ (∃ gone, l = gone ++ l' ∧
    (length l ≤ MAX_POOLED_SNAPSHOTS → gone = []) ∧
    (gone ≠ [] → length l' = MAX_POOLED_SNAPSHOTS) ∧
    ready' = foldl (λ m k, delete k m) ready gone).
Proof.
  revert ready out. induction l as [|stale l IH]; simpl; intros ready out.
  { intros [= <- <- <-]. split; [unfold MAX_POOLED_SNAPSHOTS; simpl; lia|].
    by exists []. }
  case_bool_decide as Hlen.
  - intros Hev. destruct (IH _ _ Hev) as (Hcap & gone & -> & Hg & Hg' & ->).
    split; [done|]. exists (stale :: gone). split; [done|]. split; [|split; [|done]].
    + simpl in *. lia.
    + intros _. destruct gone as [|g gone]; [|by apply Hg'].
      simpl in *. lia.
  - intros [= <- <- <-]. split; [simpl; lia|]. by exists [].
Qed.

Lemma foldl_delete_lookup (gone : list string) (m : gmap string (list S)) x :
  foldl (λ m k, delete k m) m gone !! x = if decide (x ∈ gone) then None else m !! x.
Proof.
  revert m. induction gone as [|g gone IH]; intros m; [done|]. simpl. rewrite IH.
  destruct (decide (x ∈ gone)).
  - rewrite decide_True; [done|set_solver].
  - destruct (decide (x = g)) as [->|].
    + rewrite lookup_delete_eq, decide_True; [done|set_solver].
    + rewrite lookup_delete_ne by done. rewrite decide_False; [done|set_solver].
Qed.

Lemma claim_inv p id : pool_inv p → pool_inv (fst (claim p id)).
Proof.
  intros [Hnd Hcap Hlst Hlive Hcnt]. unfold claim.
  destruct (ready_slots p !! id) as [slots|] eqn:Hid; [|by split].
  destruct (vec_pop slots) as [[slot rest]|]; [|by split]. simpl.
  assert (id ∈ lru p) as Hin by (apply Hlst; eauto).
  apply prune_inv.
  - by apply touch_nodup.
  - simpl. unfold touch; simpl. change (length (forget_id id (lru p) ++ [id]) ≤ MAX_POOLED_SNAPSHOTS).
    rewrite length_app. simpl. pose proof (forget_id_length_in id _ Hnd Hin). lia.
  - intros x Hx. apply elem_of_touch.
    change (is_Some (<[id:=rest]> (ready_slots p) !! x)) in Hx.
    apply lookup_insert_is_Some in Hx as [->|[_ ?]]; auto.
  - intros x Hx Hne. apply elem_of_touch in Hx as [Hx|?]; [|done].
    change (default [] (<[id:=rest]> (ready_slots p) !! x) ≠ [] ∨ 0 < is_filling p x).
    rewrite lookup_insert_ne by done. by apply Hlive.
  - done.
Qed.

Lemma offer_inv p id slot : pool_inv p → pool_inv (fst (offer p id slot)).
Proof.
  intros [Hnd Hcap Hlst Hlive Hcnt]. unfold offer.
  destruct (finish_fill_keeps p id) as [Hl Hr].
  pose proof (finish_fill_counts p id Hcnt) as Hc.
  pose proof (finish_fill_other p id) as Ho.
  destruct (finish_fill p id) as [rd fl l]. simpl in *. subst rd l.
  case_bool_decide as Hin; split; simpl; try done.
  - intros x [->|[_ ?]]%lookup_insert_is_Some; auto.
  - unfold ready_for, is_filling in *. simpl in *. intros x Hx.
    destruct (decide (x = id)) as [->|Hne].
    + left. rewrite lookup_insert_eq. simpl. by destruct (default _ _).
    + rewrite lookup_insert_ne, Ho by done. by apply Hlive.
  - unfold ready_for, is_filling in *. simpl in *. intros x Hx.
    rewrite Ho by (by intros ->). by apply Hlive.
Qed.

Lemma abandon_inv p id : pool_inv p → pool_inv (abandon_fill p id).
Proof.
  intros [Hnd Hcap Hlst Hlive Hcnt]. unfold abandon_fill.
  destruct (finish_fill_keeps p id) as [Hl Hr].
  apply prune_inv; rewrite ?Hl, ?Hr; eauto using finish_fill_counts.
  intros x Hx Hne. unfold ready_for. rewrite Hr, finish_fill_other by done.
  by apply Hlive.
Qed.

Lemma drain_inv p (id : option string) : pool_inv p → pool_inv (fst (drain p id)).
Proof.
  intros [Hnd Hcap Hlst Hlive Hcnt]. destruct id as [id|]; simpl; split; simpl;
    try done.
  - by apply forget_id_nodup.
  - change (length (forget_id id (lru p)) ≤ MAX_POOLED_SNAPSHOTS).
    pose proof (forget_id_length id (lru p)). lia.
  - intros x Hx. change (x ∈ forget_id id (lru p)). apply elem_of_forget_id.
    change (is_Some (delete id (ready_slots p) !! x)) in Hx.
    apply lookup_delete_is_Some in Hx as [? ?]. auto.
  - intros x Hx. change (x ∈ forget_id id (lru p)) in Hx.
    apply elem_of_forget_id in Hx as [Hx Hne].
    change (default [] (delete id (ready_slots p) !! x) ≠ [] ∨ 0 < is_filling p x).
    rewrite lookup_delete_ne by done. by apply Hlive.
  - change (NoDup (@nil string)). constructor.
  - unfold MAX_POOLED_SNAPSHOTS. change (0 ≤ 2). lia.
  - intros x. change (is_Some ((∅ : gmap string (list S)) !! x) → x ∈ []).
    rewrite lookup_empty. by intros [? ?].
  - intros x Hx. change (x ∈ []) in Hx. by apply elem_of_nil in Hx.
Qed.

Lemma begin_fill_inv p id target :
  pool_inv p → pool_inv (fst (begin_fill p id target)).
Proof.
  intros [Hnd Hcap Hlst Hlive Hcnt]. unfold begin_fill.
  case_bool_decide as Ht; [by split|].
  pose proof (touch_nodup p id Hnd) as Hnd'.
  set (n := target - (length (ready_for (touch p id) id) + is_filling (touch p id) id)).
  set (q := if bool_decide (0 < n) then _ else _).
  assert (lru q = lru (touch p id) ∧ ready_slots q = ready_slots p) as [Hql Hqr].
  { subst q. by case_bool_decide. }
  destruct (evict (lru q) (ready_slots q) []) as [[l' r'] out] eqn:Hev.
  apply evict_spec in Hev as (Hcap' & gone & Hsplit & _ & _ & ->).
  rewrite Hql in Hsplit. rewrite Hsplit in Hnd'.
  apply NoDup_app in Hnd' as (_ & Hdisj & Hnd'').
  assert (∀ x, x ∈ l' → x ∉ gone) as Hkept by (intros x ? ?; eapply Hdisj; eauto).
  split; simpl; try done; rewrite ?Hqr.
  - intros x. rewrite foldl_delete_lookup. case_decide as Hg; [by intros []|].
    intros Hx. assert (x ∈ gone ++ l') as [?|?]%elem_of_app; [|done|done].
    rewrite <- Hsplit. apply elem_of_touch. auto.
  - intros x Hx. unfold ready_for, is_filling. simpl.
    rewrite foldl_delete_lookup, decide_False by auto.
    assert (x ∈ lru p ∨ x = id) as Hor.
    { apply elem_of_touch. rewrite Hsplit. apply elem_of_app. auto. }
    unfold ready_for, is_filling in *. simpl in *.
    destruct (decide (x = id)) as [->|Hne].
    + subst q. case_bool_decide as Hn; simpl.
      * right. rewrite lookup_insert_eq. simpl. lia.
      * destruct (default [] (ready_slots p !! id)); [|by left].
        right. simpl in *. lia.
    + assert (filling q !! x = filling p !! x) as ->.
      { subst q. case_bool_decide; simpl; [by rewrite lookup_insert_ne|done]. }
      apply Hlive. naive_solver.
  - intros x m. subst q. case_bool_decide as Hn; simpl; [|apply Hcnt].
    intros [[<- <-]|[_ ?]]%lookup_insert_Some; [lia|eauto].
Qed.

Lemma pool_step_inv p op : pool_inv p → pool_inv (fst (pool_step p op)).
Proof.
  intros H. destruct op as [id|id target|id slot|id|id]; simpl.
  - pose proof (claim_inv p id H). by destruct (claim p id).
  - pose proof (begin_fill_inv p id target H). by destruct (begin_fill p id target).
  - pose proof (offer_inv p id slot H). by destruct (offer p id slot).
  - by apply abandon_inv.
  - by apply drain_inv.
Qed.

Lemma empty_pool_inv : pool_inv (@empty_pool S).
Proof.
  split; simpl; try done; [constructor|unfold MAX_POOLED_SNAPSHOTS; lia|..].
  - intros id. rewrite lookup_empty. by intros [].
  - by intros id ?%elem_of_nil.
Qed.

(** ** Where the slots are *)

Lemma all_slots_delete (m : gmap string (list S)) id :
  all_slots m ≡ₚ default [] (m !! id) ++ all_slots (delete id m).
Proof.
  unfold all_slots. destruct (m !! id) as [v|] eqn:Hid; simpl.
  - by rewrite <- (map_to_list_delete m id v Hid).
  - by rewrite delete_id.
Qed.

Lemma all_slots_insert (m : gmap string (list S)) id v :
  all_slots (<[id := v]> m) ≡ₚ v ++ all_slots (delete id m).
Proof.
  rewrite (all_slots_delete _ id), lookup_insert_eq. simpl.
  by rewrite delete_insert_eq.
Qed.

Lemma prune_slots p id : all_slots (ready_slots (prune p id)) ≡ₚ all_slots (ready_slots p).
Proof.
  destruct (prune_cases p id) as [[_ ->]|(Hr & _ & _ & -> & _)]; [done|].
  rewrite (all_slots_delete (ready_slots p) id). unfold ready_for in Hr.
  by rewrite Hr.
Qed.

Lemma evict_slots (l : list string) (ready : gmap string (list S)) out l' ready' out' :
  evict l ready out = (l', ready', out') →
  all_slots ready' ++ out' ≡ₚ all_slots ready ++ out.
Proof.
  revert ready out. induction l as [|stale l IH]; simpl; intros ready out.
  { by intros [= <- <- <-]. }
  case_bool_decide; [|by intros [= <- <- <-]].
  intros Hev%IH. rewrite Hev, (all_slots_delete ready stale). solve_Permutation.
Qed.

Lemma pool_step_slots p op :
  all_slots (ready_slots (fst (pool_step p op))) ++ snd (pool_step p op)
    ≡ₚ slots_in op ++ all_slots (ready_slots p).
Proof.
  destruct op as [id|id target|id slot|id|[id|]]; simpl.
  - unfold claim. destruct (ready_slots p !! id) as [slots|] eqn:Hid; simpl;
      [|by rewrite app_nil_r].
    destruct (vec_pop slots) as [[x rest]|] eqn:Hpop; simpl; [|by rewrite app_nil_r].
    apply vec_pop_Some in Hpop as ->. rewrite prune_slots. simpl.
    rewrite all_slots_insert, (all_slots_delete (ready_slots p) id), Hid. simpl.
    solve_Permutation.
  - unfold begin_fill. case_bool_decide; simpl; [by rewrite app_nil_r|].
    set (q := if bool_decide _ then _ else _).
    assert (ready_slots q = ready_slots p) as Hqr by (subst q; by case_bool_decide).
    destruct (evict (lru q) (ready_slots q) []) as [[l' r'] out] eqn:Hev. simpl.
    apply evict_slots in Hev. by rewrite Hev, Hqr, app_nil_r.
  - unfold offer. destruct (finish_fill_keeps p id) as [_ Hr].
    case_bool_decide; simpl; unfold ready_for; rewrite Hr.
    + rewrite all_slots_insert, (all_slots_delete (ready_slots p) id).
      solve_Permutation.
    + solve_Permutation.
  - unfold abandon_fill. destruct (finish_fill_keeps p id) as [_ Hr].
    by rewrite prune_slots, Hr, app_nil_r.
  - rewrite (all_slots_delete (ready_slots p) id). unfold ready_for.
    solve_Permutation.
  - unfold all_slots at 1. by rewrite map_to_list_empty.
Qed.
End pool_lemmas.

(** ** Properties *)

(** The pool never over-commits. After any sequence of operations on a
    fresh pool at most two distinct snapshot ids are pooled, every pooled slot
    belongs to one of them, and an id stays listed only while it has a slot or
    a fill on the way. *)
Theorem pool_run_inv {S} (ops : list (PoolOp S)) :
  pool_inv (fst (pool_run empty_pool ops)).
Proof.
  pose proof (@empty_pool_inv S) as H.
  revert H. generalize (@empty_pool S). induction ops as [|op ops IH]; [done|].
  intros p H. apply (pool_step_inv p op) in H. simpl.
  destruct (pool_step p op) as [q out]. specialize (IH q H).
  by destruct (pool_run q ops).
Qed.

(** No prepared slot is lost or handed out twice. Over any sequence of
    operations the slots offered to the pool are, as a multiset, exactly the
    ones still pooled together with the ones handed back — claimed, evicted,
    drained or refused at the offer. *)
Theorem pool_run_slots {S} (ops : list (PoolOp S)) :
  all_slots (ready_slots (fst (pool_run empty_pool ops))) ++ snd (pool_run empty_pool ops)
    ≡ₚ (ops ≫= slots_in).
Proof.
  enough (∀ p, all_slots (ready_slots (fst (pool_run p ops))) ++ snd (pool_run p ops)
    ≡ₚ (ops ≫= slots_in) ++ all_slots (ready_slots p)) as H.
  { rewrite H. unfold all_slots. simpl. by rewrite map_to_list_empty, app_nil_r. }
  induction ops as [|op ops IH]; intros p; simpl; [by rewrite app_nil_r|].
  pose proof (pool_step_slots p op) as Hs. destruct (pool_step p op) as [q out].
  specialize (IH q). destruct (pool_run q ops) as [q' outs]. simpl in *.
  transitivity (out ++ all_slots (ready_slots q') ++ outs); [solve_Permutation|].
  rewrite IH. transitivity ((ops ≫= slots_in) ++ all_slots (ready_slots q) ++ out);
    [solve_Permutation|].
  rewrite Hs. solve_Permutation.
Qed.

(** A refill owes exactly what is missing. After [begin_fill] with a
    positive target the id is pooled, its ready and in-flight slots add up to
    the larger of the target and what it had, and the number of prepares
    planned is the difference. *)
Theorem begin_fill_spec {S} (p : PoolInner S) (id : string) (target : nat)
    (Hinv : pool_inv p) (Htarget : 0 < target) :
  let had := length (ready_for p id) + is_filling p id in
  let (p', f) := begin_fill p id target in
  last (lru p') = Some id ∧
  length (ready_for p' id) + is_filling p' id = Nat.max target had ∧
  spawn f = Nat.max target had - had.
Proof.
  unfold begin_fill. rewrite bool_decide_false by lia.
  set (n := target - (length (ready_for (touch p id) id) + is_filling (touch p id) id)).
  set (q := if bool_decide (0 < n) then _ else _).
  assert (lru q = lru (touch p id) ∧ ready_slots q = ready_slots p) as [Hql Hqr].
  { subst q. by case_bool_decide. }
  pose proof (touch_nodup p id (inv_nodup _ Hinv)) as Hnd'.
  destruct (evict (lru q) (ready_slots q) []) as [[l' r'] out] eqn:Hev.
  apply evict_spec in Hev as (Hcap' & gone & Hsplit & _ & Hfull & ->).
  rewrite Hql in Hsplit. rewrite Hsplit in Hnd'.
  apply NoDup_app in Hnd' as (_ & Hdisj & _).
  assert (last l' = Some id) as Hlast.
  { assert (last (lru (touch p id)) = Some id) as H by (simpl; apply last_snoc).
    rewrite Hsplit in H. destruct l' as [|y l']; [|by rewrite last_app_cons in H].
    rewrite app_nil_r in H. destruct gone; [done|]. by discriminate Hfull. }
  assert (id ∉ gone) as Hg.
  { intros Hg. apply (Hdisj id Hg). by apply last_Some_elem_of. }
  unfold ready_for, is_filling in *. simpl in *.
  rewrite foldl_delete_lookup, decide_False, Hqr by done.
  split_and!; [done| |subst n; lia].
  subst q. case_bool_decide; simpl; [rewrite lookup_insert_eq; simpl|]; subst n; lia.
Qed.

Lemma begin_fill_spec_witness :
  last (lru (fst (begin_fill (@empty_pool Z) "snap" 2))) = Some "snap".
Proof.
  apply (begin_fill_spec (@empty_pool Z) "snap" 2 empty_pool_inv). lia.
Defined.
