(* ===== verification/WarmPolicy.v ===== *)
(** * The warm-create cache policy

    [src/computer/arcbox-computer-runtime/src/sandbox/policy/warm.rs]: what
    identifies a cacheable boot shape, which specs may use the cache and which
    keys an eviction drops. The digest is a parameter; the bytes fed to it are
    modelled in full. *)

From stdpp Require Import base list gmap strings relations sorting.
From Stdlib Require Import ZArith Lia.
From S2P Require Import Prelude Types.

Definition MAX_WARM_KEYS : nat := 2.
Definition WARM_KEY_LABEL : string := "arcbox.warm_key".
Definition OS_BUILD_LABEL : string := "arcbox.os_build".
Definition TEMPLATE_LABEL : string := "arcbox.template".
Definition i64_max : Z := (2 ^ 63 - 1)%Z.

Record FileFingerprint := {
  dev : Z;
  ino : Z;
  mtime : Z;
  mtime_nsec : Z;
  size_ : Z
}.

(** ** The key *)

Definition os_build_bytes (os_build : option string) : list Z :=
  match os_build with
  | None => [0%Z]
  | Some build => [1%Z] ++ as_bytes build ++ [0%Z]
  end.

Definition text_bytes (text : string) : list Z := as_bytes text ++ [0%Z].

Definition fingerprint_bytes (f : FileFingerprint) : list Z :=
  le_bytes 8 (dev f) ++ le_bytes 8 (ino f) ++ le_bytes 8 (size_ f) ++
  le_bytes 8 (mtime f) ++ le_bytes 8 (mtime_nsec f).

(** The bytes the hasher is updated with, in order. *)
Definition warm_key_input (spec : ComputerSpec) (kernel rootfs : FileFingerprint)
    (os_build : option string) : list Z :=
  os_build_bytes os_build ++
  text_bytes (spec_kernel spec) ++ text_bytes (spec_rootfs spec) ++
  text_bytes (spec_boot_args spec) ++
  le_bytes 8 (spec_vcpus spec) ++ le_bytes 8 (spec_memory_mib spec) ++
  fingerprint_bytes kernel ++ fingerprint_bytes rootfs.

Definition warm_key (sha256_hex : list Z → string) (spec : ComputerSpec)
    (kernel rootfs : FileFingerprint) (os_build : option string) : string :=
  sha256_hex (warm_key_input spec kernel rootfs os_build).

(** [warm_create] is [config.firecracker.warm_create]. *)
Definition warm_eligible (warm_create : bool) (spec : ComputerSpec)
    (caller_supplied_boot relocatable : bool) : bool :=
  warm_create
  && relocatable
  && negb caller_supplied_boot
  && String.eqb (spec_network_mode spec) "tap"
  && negb (str_contains "ip=" (spec_boot_args spec))
  && bool_decide (spec_mounts spec = [])
  && bool_decide (spec_ssh_public_key spec = None).

Definition reject_reserved_labels (labels : gmap string string) : Result unit :=
  if bool_decide (is_Some (labels !! WARM_KEY_LABEL)) then
    Err (CErr.Config ("snapshot label " +:+ WARM_KEY_LABEL +:+
                      " is reserved for the warm-create cache"))
  else if bool_decide (is_Some (labels !! OS_BUILD_LABEL)) then
    Err (CErr.Config ("snapshot label " +:+ OS_BUILD_LABEL +:+
                      " is reserved for the checkpoint's macOS build"))
  else if bool_decide (is_Some (labels !! TEMPLATE_LABEL)) then
    Err (CErr.Config ("snapshot label " +:+ TEMPLATE_LABEL +:+
                      " is reserved for the template catalog"))
  else Ok tt.

(** ** The cache bookkeeping *)

Record WarmCacheInner := MkWarmCacheInner {
  recency : list string;
  publishing : gset string
}.
#[export] Instance WarmCacheInner_eta : Eta WarmCacheInner := {|
  eta c := MkWarmCacheInner (recency c) (publishing c);
  eta_ok := ltac:(by intros [])
|}.

Definition warm_touch (c : WarmCacheInner) (key : string) : WarmCacheInner :=
  c <| recency := filter (λ entry, entry ≠ key) (recency c) ++ [key] |>.

Definition begin_publish (c : WarmCacheInner) (key : string)
    : WarmCacheInner * bool :=
  (c <| publishing := {[key]} ∪ publishing c |>,
   bool_decide (key ∉ publishing c)).

Definition end_publish (c : WarmCacheInner) (key : string) : WarmCacheInner :=
  c <| publishing := publishing c ∖ {[key]} |>.

Abbreviation CatalogEntry := (string * DateTime)%type.

(** The eviction priority of a catalog entry. *)
Definition rank (rec : list string) (entry : CatalogEntry) : Z * Z :=
  (match list_find (λ e, e = fst entry) rec with
   | Some (position, _) => Z.min (Z.of_nat position) i64_max
   | None => -1
   end%Z,
   snd entry).

Definition rank_le (a b : Z * Z) : Prop :=
  (fst a < fst b ∨ fst a = fst b ∧ snd a ≤ snd b)%Z.
#[export] Instance rank_le_dec a b : Decision (rank_le a b).
Proof. unfold rank_le. apply _. Defined.

(** [sort_by_key], which is stable. *)
Fixpoint sort_insert (rec : list string) (x : CatalogEntry) (l : list CatalogEntry)
    : list CatalogEntry :=
  match l with
  | [] => [x]
  | y :: l' => if decide (rank_le (rank rec x) (rank rec y)) then x :: l
               else y :: sort_insert rec x l'
  end.

Definition sort_by_rank (rec : list string) (l : list CatalogEntry)
    : list CatalogEntry := foldr (sort_insert rec) [] l.

Definition plan_evictions (c : WarmCacheInner) (catalog : list CatalogEntry)
    : WarmCacheInner * list string :=
  let c := c <| recency := filter (λ entry, entry ∈ catalog.*1) (recency c) |> in
  if bool_decide (length catalog ≤ MAX_WARM_KEYS) then (c, []) else
  let excess := length catalog - MAX_WARM_KEYS in
  (c, (take excess (sort_by_rank (recency c) catalog)).*1).

(** ** Lemmas *)

#[export] Instance rank_le_total : Total rank_le.
Proof. intros [a1 a2] [b1 b2]. unfold rank_le; simpl. lia. Qed.
#[export] Instance rank_le_trans : Transitive rank_le.
Proof. intros [a1 a2] [b1 b2] [c1 c2]. unfold rank_le; simpl. lia. Qed.

Section sorting.
Context (rec : list string).
Abbreviation le_entry := (λ x y, rank_le (rank rec x) (rank rec y)).

Lemma sort_insert_perm x l : sort_insert rec x l ≡ₚ x :: l.
Proof.
  induction l as [|y l IH]; simpl; [done|]. case_decide; [done|].
  rewrite IH. apply Permutation_swap.
Qed.

Lemma sort_by_rank_perm l : sort_by_rank rec l ≡ₚ l.
Proof.
  unfold sort_by_rank. induction l as [|x l IH]; simpl; [done|].
  by rewrite sort_insert_perm, IH.
Qed.

Lemma sort_insert_sorted x l :
  StronglySorted le_entry l → StronglySorted le_entry (sort_insert rec x l).
Proof.
  induction 1 as [|y l Hl IH Hy]; simpl; [repeat constructor|].
  case_decide as Hle.
  - constructor; [by constructor|]. constructor; [done|].
    eapply Forall_impl; [exact Hy|]. intros z Hz. by etrans.
  - constructor; [done|]. rewrite sort_insert_perm. constructor; [|done].
    by destruct (total rank_le (rank rec x) (rank rec y)).
Qed.

Lemma sort_by_rank_sorted l : StronglySorted le_entry (sort_by_rank rec l).
Proof.
  unfold sort_by_rank. induction l; simpl; [constructor|].
  by apply sort_insert_sorted.
Qed.

Lemma sorted_take_drop n l x y :
  StronglySorted le_entry l → x ∈ take n l → y ∈ drop n l →
  rank_le (rank rec x) (rank rec y).
Proof.
  intros Hs. revert n. induction Hs as [|z l Hl IH Hz]; intros [|n]; simpl;
    rewrite ?elem_of_nil; try done.
  rewrite elem_of_cons. intros [->|Hx] Hy; [|by eapply IH].
  rewrite Forall_forall in Hz. apply Hz. eapply subseteq_drop, Hy.
Qed.
End sorting.

(** ** The bytes determine the boot shape *)

Definition nul_free (s : string) : Prop := 0%Z ∉ as_bytes s.

Lemma nul_terminated_inj (xs ys r r' : list Z) :
  0%Z ∉ xs → 0%Z ∉ ys → xs ++ 0%Z :: r = ys ++ 0%Z :: r' → xs = ys ∧ r = r'.
Proof.
  revert ys. induction xs as [|x xs IH]; intros [|y ys]; simpl.
  - by intros _ _ [= ->].
  - rewrite not_elem_of_cons. intros _ [Hy _] [= <- _]. done.
  - rewrite not_elem_of_cons. intros [Hx _] _ [= -> _]. done.
  - rewrite !not_elem_of_cons. intros [_ ?] [_ ?] [= -> Heq].
    destruct (IH ys) as [-> ->]; done.
Qed.

Lemma text_bytes_inj s t r r' :
  nul_free s → nul_free t → text_bytes s ++ r = text_bytes t ++ r' → s = t ∧ r = r'.
Proof.
  unfold text_bytes, nul_free. rewrite <- !app_assoc. simpl. intros Hs Ht H.
  apply nul_terminated_inj in H as [H ->]; [|done|done]. by apply (inj as_bytes) in H.
Qed.

Lemma le_bytes_app_inj n x y r r' :
  (0 ≤ x < 256 ^ Z.of_nat n)%Z → (0 ≤ y < 256 ^ Z.of_nat n)%Z →
  le_bytes n x ++ r = le_bytes n y ++ r' → x = y ∧ r = r'.
Proof.
  intros Hx Hy H. apply app_inj_1 in H as [H ->]; [|by rewrite !le_bytes_length].
  split; [|done]. by eapply le_bytes_inj.
Qed.

Lemma le_bytes_u64_inj x y r r' :
  in_u64 x → in_u64 y → le_bytes 8 x ++ r = le_bytes 8 y ++ r' → x = y ∧ r = r'.
Proof.
  unfold in_u64, u64_bound. intros Hx Hy. apply le_bytes_app_inj;
    change (256 ^ Z.of_nat 8)%Z with (2 ^ 64)%Z; assumption.
Qed.

Definition in_i64 (z : Z) : Prop := (- 2 ^ 63 ≤ z < 2 ^ 63)%Z.

Lemma le_bytes_i64_inj x y r r' :
  in_i64 x → in_i64 y → le_bytes 8 x ++ r = le_bytes 8 y ++ r' → x = y ∧ r = r'.
Proof.
  unfold in_i64. intros Hx Hy H.
  apply app_inj_1 in H as [H ->]; [|by rewrite !le_bytes_length].
  split; [|done]. apply (f_equal le_value) in H. rewrite !le_value_bytes in H.
  change (256 ^ Z.of_nat 8)%Z with (2 ^ 64)%Z in H.
  rewrite (Z.mod_eq x), (Z.mod_eq y) in H by done. lia.
Qed.

(** A fingerprint holds what [stat] reports. *)
Record fingerprint_ok (f : FileFingerprint) : Prop := {
  dev_ok : in_u64 (dev f);
  ino_ok : in_u64 (ino f);
  size_ok : in_u64 (size_ f);
  mtime_ok : in_i64 (mtime f);
  mtime_nsec_ok : in_i64 (mtime_nsec f)
}.

Lemma fingerprint_bytes_inj f g r r' :
  fingerprint_ok f → fingerprint_ok g →
  fingerprint_bytes f ++ r = fingerprint_bytes g ++ r' → f = g ∧ r = r'.
Proof.
  intros [? ? ? ? ?] [? ? ? ? ?]. unfold fingerprint_bytes. rewrite <- !app_assoc.
  intros H. do 3 (apply le_bytes_u64_inj in H as [? H]; [|assumption..]).
  do 2 (apply le_bytes_i64_inj in H as [? H]; [|assumption..]).
  split; [|exact H]. destruct f, g; simpl in *; congruence.
Qed.

(** The parts of a spec the key is about, as the code can hold them: no text
    has a NUL (paths and kernel command lines cannot) and the geometry fits its
    integers. *)
Record shape_ok (spec : ComputerSpec) (os_build : option string) : Prop := {
  kernel_ok : nul_free (spec_kernel spec);
  rootfs_ok : nul_free (spec_rootfs spec);
  boot_args_ok : nul_free (spec_boot_args spec);
  vcpus_ok : in_u32 (spec_vcpus spec);
  memory_ok : in_u64 (spec_memory_mib spec);
  build_ok : ∀ b, os_build = Some b → nul_free b
}.

Lemma os_build_bytes_inj b b' r r' :
  (∀ x, b = Some x → nul_free x) → (∀ x, b' = Some x → nul_free x) →
  os_build_bytes b ++ r = os_build_bytes b' ++ r' → b = b' ∧ r = r'.
Proof.
  intros Hb Hb'. destruct b as [b|], b' as [b'|]; simpl; intros H;
    injection H as H; try discriminate; [|by subst].
  fold (text_bytes b) (text_bytes b') in H.
  apply text_bytes_inj in H as [-> ->]; auto.
Qed.

Lemma in_u32_u64 z : in_u32 z → in_u64 z.
Proof. unfold in_u32, u32_bound, in_u64, u64_bound. lia. Qed.

(** ** Properties *)

(** Two boot shapes share a digest input only when they are the same
    shape. With NUL-free texts and in-range integers, the bytes fed to the
    digest determine the kernel, rootfs and boot arguments, the geometry, both
    content fingerprints and the host build, so a cache hit against a different
    shape would need a digest collision. *)
Theorem warm_key_input_inj (s1 s2 : ComputerSpec) (k1 k2 r1 r2 : FileFingerprint)
    (b1 b2 : option string)
    (H1 : shape_ok s1 b1) (H2 : shape_ok s2 b2)
    (Hk1 : fingerprint_ok k1) (Hk2 : fingerprint_ok k2)
    (Hr1 : fingerprint_ok r1) (Hr2 : fingerprint_ok r2)
    (Heq : warm_key_input s1 k1 r1 b1 = warm_key_input s2 k2 r2 b2) :
  b1 = b2 ∧ spec_kernel s1 = spec_kernel s2 ∧ spec_rootfs s1 = spec_rootfs s2 ∧
  spec_boot_args s1 = spec_boot_args s2 ∧ spec_vcpus s1 = spec_vcpus s2 ∧
  spec_memory_mib s1 = spec_memory_mib s2 ∧ k1 = k2 ∧ r1 = r2.
Proof.
  destruct H1, H2. unfold warm_key_input in Heq.
  apply os_build_bytes_inj in Heq as [-> Heq]; [|assumption..].
  do 3 (apply text_bytes_inj in Heq as [? Heq]; [|assumption..]).
  do 2 (apply le_bytes_u64_inj in Heq as [? Heq]; [|auto using in_u32_u64..]).
  apply fingerprint_bytes_inj in Heq as [-> Heq]; [|assumption..].
  rewrite <- (app_nil_r (fingerprint_bytes r1)), <- (app_nil_r (fingerprint_bytes r2)) in Heq.
  apply fingerprint_bytes_inj in Heq as [-> _]; [|assumption..]. split_and!; assumption || reflexivity.
Qed.

Example ex_fingerprint : FileFingerprint :=
  {| dev := 5; ino := 7; mtime := -1; mtime_nsec := 3; size_ := 4096 |}.
Example ex_template : ComputerSpec :=
  default_spec <| spec_kernel := "/k" |> <| spec_rootfs := "/r" |>
    <| spec_boot_args := "quiet" |> <| spec_vcpus := 2%Z |>.

Lemma warm_key_input_inj_witness :
  spec_boot_args ex_template = spec_boot_args (ex_template <| spec_user := "me" |>).
Proof.
  assert (fingerprint_ok ex_fingerprint) by (by repeat split).
  apply (warm_key_input_inj ex_template (ex_template <| spec_user := "me" |>)
    ex_fingerprint ex_fingerprint ex_fingerprint ex_fingerprint
    (Some "25A1") (Some "25A1")); try done.
  - split; simpl; try done; try (unfold nul_free; apply (bool_decide_eq_true_1 _); done).
    intros b [= <-]. unfold nul_free. by apply (bool_decide_eq_true_1 _).
  - split; simpl; try done; try (unfold nul_free; apply (bool_decide_eq_true_1 _); done).
    intros b [= <-]. unfold nul_free. by apply (bool_decide_eq_true_1 _).
Defined.

Lemma plan_evictions_split c catalog :
  let c' := fst (plan_evictions c catalog) in
  ∃ kept, catalog.*1 ≡ₚ snd (plan_evictions c catalog) ++ kept.*1 ∧
    length kept = Nat.min (length catalog) MAX_WARM_KEYS ∧
    (∀ x, x ∈ kept → x ∈ catalog) ∧
    (∀ k y, k ∈ snd (plan_evictions c catalog) → y ∈ kept →
       ∃ created, (k, created) ∈ catalog ∧
         rank_le (rank (recency c') (k, created)) (rank (recency c') y)).
Proof.
  unfold plan_evictions. case_bool_decide as Hlen; simpl.
  { exists catalog. simpl. split_and!; [done|lia|done|]. by intros k y ?%elem_of_nil. }
  set (rec := filter _ _). set (sorted := sort_by_rank rec catalog).
  assert (sorted ≡ₚ catalog) as Hperm by apply sort_by_rank_perm.
  exists (drop (length catalog - MAX_WARM_KEYS) sorted). split_and!.
  - rewrite <- fmap_app, take_drop. by rewrite Hperm.
  - rewrite length_drop, Hperm. lia.
  - intros x Hx%subseteq_drop. by rewrite <- Hperm.
  - intros k y [[k' created] [-> Hx]]%list_elem_of_fmap Hy. exists created.
    split; [rewrite <- Hperm; eapply subseteq_take, Hx|].
    eapply sorted_take_drop; eauto using sort_by_rank_sorted.
Qed.

(** An eviction is by least recent use. It leaves at most two keys, drops
    exactly the excess, and no key it drops outranks one it keeps: untouched
    keys go before touched ones, oldest snapshot first, and touched ones least
    recently used first. *)
Theorem plan_evictions_lru (c : WarmCacheInner) (catalog : list CatalogEntry) :
  let (c', dropped) := plan_evictions c catalog in
  length dropped = length catalog - MAX_WARM_KEYS ∧
  ∃ kept, catalog.*1 ≡ₚ dropped ++ kept.*1 ∧ length kept ≤ MAX_WARM_KEYS ∧
    (∀ k y, k ∈ dropped → y ∈ kept →
       ∃ created, (k, created) ∈ catalog ∧
         rank_le (rank (recency c') (k, created)) (rank (recency c') y)).
Proof.
  destruct (plan_evictions_split c catalog) as (kept & Hp & Hl & _ & Hr).
  destruct (plan_evictions c catalog) as [c' dropped]. simpl in *. split.
  - apply Permutation_length in Hp. rewrite length_app, !length_fmap in Hp. lia.
  - exists kept. split_and!; [done|lia|done].
Qed.

Lemma list_find_last_unique (rec : list string) key :
  key ∉ rec → list_find (λ e, e = key) (rec ++ [key]) = Some (length rec, key).
Proof.
  intros Hn. apply list_find_Some. split_and!.
  - apply list_lookup_middle. done.
  - done.
  - intros j y Hj Hlt ->. apply Hn. rewrite lookup_app_l in Hj by done.
    by eapply list_elem_of_lookup_2.
Qed.

Lemma list_find_before (rec : list string) key x :
  x ≠ key → ∀ i y, list_find (λ e, e = x) (rec ++ [key]) = Some (i, y) → i < length rec.
Proof.
  intros Hne i y (Hi & -> & _)%list_find_Some. apply lookup_app_Some in Hi as [Hi|[_ Hi]].
  - by eapply lookup_lt_Some.
  - by apply list_lookup_singleton_Some in Hi as [_ ?].
Qed.

(** The key just used is never the one evicted, whatever else the catalog
    holds, as long as its entries are distinct and the bookkeeping stays below
    the width of its positions. *)
Theorem touched_key_survives (c : WarmCacheInner) (key : string)
    (catalog : list CatalogEntry)
    (Hdistinct : NoDup catalog.*1) (Hin : key ∈ catalog.*1)
    (Hwidth : (Z.of_nat (length (recency c)) < i64_max)%Z) :
  key ∉ snd (plan_evictions (warm_touch c key) catalog).
Proof.
  intros Hdrop. destruct (plan_evictions_split (warm_touch c key) catalog)
    as (kept & Hp & Hl & Hsub & Hr).
  assert (key ∉ kept.*1) as Hnk.
  { rewrite Hp in Hdistinct. apply NoDup_app in Hdistinct as (_ & Hd & _). by apply Hd. }
  destruct kept as [|y kept].
  { destruct catalog; [by apply elem_of_nil in Hin|]. simpl in Hl. lia. }
  destruct (Hr key y Hdrop) as (created & _ & Hle); [left|].
  assert (recency (fst (plan_evictions (warm_touch c key) catalog)) =
          filter (λ e, e ∈ catalog.*1) (filter (λ e, e ≠ key) (recency c)) ++ [key]) as Hrec.
  { assert (∀ d, recency (fst (plan_evictions d catalog)) =
                 filter (λ e, e ∈ catalog.*1) (recency d)) as ->.
    { intros d. unfold plan_evictions. by case_bool_decide. }
    simpl. rewrite filter_app, filter_cons. by rewrite decide_True. }
  rewrite Hrec in Hle. set (pre := filter _ _) in Hle.
  assert (key ∉ pre) as Hpre by (subst pre; rewrite !list_elem_of_filter; naive_solver).
  assert (length pre ≤ length (recency c)) as Hlen
    by (subst pre; etrans; apply length_filter).
  unfold rank in Hle. simpl in Hle.
  rewrite (list_find_last_unique pre key Hpre) in Hle.
  unfold rank_le in Hle. simpl in Hle, Hnk.
  destruct (list_find _ (pre ++ [key])) as [[i z]|] eqn:Hf in Hle; [|lia].
  apply list_find_before in Hf; [lia|]. intros Heq. apply Hnk. rewrite Heq. left.
Qed.

Lemma touched_key_survives_witness :
  "b" ∉ snd (plan_evictions (warm_touch (MkWarmCacheInner ["b"; "c"] ∅) "b")
               [("a", 9%Z); ("b", 1%Z); ("c", 2%Z)]).
Proof.
  apply (touched_key_survives (MkWarmCacheInner ["b"; "c"] ∅) "b"
           [("a", 9%Z); ("b", 1%Z); ("c", 2%Z)]).
  - by apply (bool_decide_eq_true_1 _).
  - by apply (bool_decide_eq_true_1 _).
  - reflexivity.
Defined.
