(* ===== verification/Events.v ===== *)
(** * The lifecycle event feed

    [ComputerEvent] and its actions
    ([src/computer/arcbox-computer-runtime/src/sandbox/types.rs]) and the bus
    that numbers and broadcasts events
    ([src/computer/arcbox-computer-runtime/src/sandbox/events.rs]). The bus holds
    its lock over stamp and send, so a history of the bus is a sequence of
    [publish] calls and the feed is the list of events in the order a
    subscriber that misses none receives them. *)

From stdpp Require Import base list gmap strings.
From Stdlib Require Import ZArith Lia.
From S2P Require Import Prelude Types.

(** [types::action]. *)
Definition CREATED : string := "created".
Definition READY : string := "ready".
Definition RUNNING : string := "running".
Definition IDLE : string := "idle".
Definition STOPPING : string := "stopping".
Definition STOPPED : string := "stopped".
Definition FAILED : string := "failed".
Definition REMOVED : string := "removed".
Definition PAUSING : string := "pausing".
Definition PAUSED : string := "paused".
Definition RESUMED : string := "resumed".

Record ComputerEvent := MkEvent {
  sandbox_id : string;
  ev_action : string;
  timestamp_ns : Z;
  attributes : gmap string string;
  sequence : Z
}.

#[export] Instance eta_ComputerEvent : Eta ComputerEvent := {|
  eta e := MkEvent (sandbox_id e) (ev_action e) (timestamp_ns e) (attributes e)
    (sequence e);
  eta_ok := ltac:(by intros [])
|}.

(** [timestamp_nanos_opt().unwrap_or(0)]: the instant, when an [i64] holds it. *)
Definition timestamp_nanos (now : DateTime) : Z :=
  if ((- 2 ^ 63 <=? now) && (now <? 2 ^ 63))%Z then now else 0%Z.

(** [ComputerEvent::new]. *)
Definition new_event (id action : string) (now : DateTime) : ComputerEvent :=
  MkEvent id action (timestamp_nanos now) ∅ 0.

Definition with_attr (e : ComputerEvent) (key value : string) : ComputerEvent :=
  e <| attributes := <[key := value]> (attributes e) |>.

Definition is_terminal (e : ComputerEvent) : bool :=
  bool_decide (ev_action e = STOPPED) || bool_decide (ev_action e = FAILED)
    || bool_decide (ev_action e = REMOVED).

(** [EventBus]: the last sequence stamped, and what was sent. *)
Record EventBus := MkBus { last_seq : Z; feed : list ComputerEvent }.

Definition new_bus : EventBus := MkBus 0 [].

(** [EventBus::publish]: stamp with the next number and broadcast. *)
Definition bus_publish (b : EventBus) (e : ComputerEvent) : EventBus :=
  let n := (last_seq b + 1)%Z in
  MkBus n (feed b ++ [e <| sequence := n |>]).

(** A subscriber's view: the events it received, each numbered one past the
    one before it. *)
Fixpoint contiguous (l : list ComputerEvent) : Prop :=
  match l with
  | x :: (y :: _) as l' => sequence y = (sequence x + 1)%Z ∧ contiguous l'
  | _ => True
  end.

(** The feed numbers its events 1, 2, ... and [last] is the count. *)
Definition bus_inv (b : EventBus) : Prop :=
  last_seq b = Z.of_nat (length (feed b)) ∧
  ∀ i e, feed b !! i = Some e → sequence e = (Z.of_nat i + 1)%Z.

Lemma bus_publish_inv b e : bus_inv b → bus_inv (bus_publish b e).
Proof.
  intros [Hl Hs]. split; simpl.
  - rewrite length_app. simpl. lia.
  - intros i x [[_ Hi]|[-> <-]]%lookup_snoc_Some; [by apply Hs|].
    simpl. lia.
Qed.

Lemma bus_run_inv es : bus_inv (foldl bus_publish new_bus es).
Proof.
  assert (bus_inv new_bus) as Hb by done. revert Hb. generalize new_bus as b.
  induction es as [|e es IH]; [done|]. intros b Hb. by apply IH, bus_publish_inv.
Qed.

(** A numbered list whose numbers have no gap is a segment of the feed. *)
Lemma contiguous_segment (l rcv : list ComputerEvent) (n : Z) (e : ComputerEvent) :
  (∀ i x, l !! i = Some x → sequence x = (n + Z.of_nat i)%Z) →
  rcv `sublist_of` l → contiguous (e :: rcv) → sequence e = (n - 1)%Z →
  rcv `prefix_of` l.
Proof.
  revert n rcv e. induction l as [|x l IH]; intros n rcv e Hn Hsub Hc He.
  { apply sublist_nil_r in Hsub as ->. apply prefix_nil. }
  assert (∀ i y, l !! i = Some y → sequence y = (n + 1 + Z.of_nat i)%Z) as Hn'.
  { intros i y Hy. rewrite (Hn (S i) y) by done. lia. }
  pose proof (Hn 0 x eq_refl) as Hx.
  apply sublist_cons_r in Hsub as [Hsub|(rcv' & -> & Hsub)].
  - destruct rcv as [|y rcv]; [apply prefix_nil|]. destruct Hc as [Hy Hc]. exfalso.
    assert (y ∈ l) as [i Hi]%list_elem_of_lookup_1.
    { eapply elem_of_submseteq; [left|by apply sublist_submseteq]. }
    apply Hn' in Hi. lia.
  - apply prefix_cons. destruct Hc as [_ Hc]. eapply (IH (n + 1)%Z _ x); [done..|lia].
Qed.

(** ** Properties *)

(** Loss is detectable. Whatever was published, the feed is numbered
    1, 2, ... in the order it is sent, and a subscriber whose received events
    carry contiguous numbers has missed nothing between the first and the last
    of them: what it holds is one unbroken segment of the feed. *)
Theorem feed_gaps_are_losses (es rcv : list ComputerEvent)
    (Hrcv : rcv `sublist_of` feed (foldl bus_publish new_bus es))
    (Hseq : contiguous rcv) :
  (∀ i e, feed (foldl bus_publish new_bus es) !! i = Some e →
     sequence e = (Z.of_nat i + 1)%Z) ∧
  ∃ before after, feed (foldl bus_publish new_bus es) = before ++ rcv ++ after.
Proof.
  destruct (bus_run_inv es) as [_ Hn]. split; [done|].
  destruct rcv as [|e rcv].
  { exists []. by eexists. }
  apply sublist_cons_l in Hrcv as (before & after & Hl & Hsub). rewrite Hl in *.
  pose proof (Hn (length before) e) as He.
  rewrite lookup_app_r, Nat.sub_diag in He by done. specialize (He eq_refl).
  destruct (contiguous_segment after rcv (sequence e + 1) e) as [rest ->]; [|done|done|lia|].
  - intros i x Hx. rewrite (Hn (length before + S i) x).
    + rewrite He. lia.
    + rewrite lookup_app_r by lia. by replace (_ - _) with (S i) by lia.
  - by exists before, rest.
Qed.

Lemma feed_gaps_are_losses_witness :
  let b := foldl bus_publish new_bus
    [new_event "a" CREATED 5%Z; new_event "b" READY 6%Z; new_event "a" READY 7%Z] in
  ∃ before after, feed b = before ++ drop 1 (feed b) ++ after.
Proof.
  apply (feed_gaps_are_losses
    [new_event "a" CREATED 5%Z; new_event "b" READY 6%Z; new_event "a" READY 7%Z]);
    [apply sublist_drop|]. vm_compute. done.
Defined.
