(* ===== verification/AtomicFile.v ===== *)
(** * Atomic file replacement

    [src/common/arcbox-atomic-file/src/lib.rs]: write a private sibling, flush
    it, rename it over the destination, flush the directory. A directory is
    modelled with what a power loss can make of it: names point at inodes, an
    inode's bytes are reliable only once flushed, and every version of the
    directory since its last flush may be the one that comes back. Each system
    call can fail, and a run keeps every state it goes through, so the theorems
    speak about a crash at any point. *)

From stdpp Require Import base list gmap strings.
From Stdlib Require Import ZArith Lia.
From S2P Require Import Prelude.

(** ** Directories *)

Inductive IoKind := KNotFound | KAlreadyExists | KInvalidInput | KOther.
#[export] Instance IoKind_eq : EqDecision IoKind.
Proof. solve_decision. Defined.

(** [std::io::Error]: its kind and its text. *)
Record IoError := { kind : IoKind; text : string }.
#[export] Instance IoError_eq : EqDecision IoError.
Proof. solve_decision. Defined.

Record File := MkFile { data : list Z; mode : Z; synced : bool }.
#[export] Instance File_eta : Eta File := {|
  eta f := MkFile (data f) (mode f) (synced f); eta_ok := ltac:(by intros []) |}.

(** [entries] is the directory as processes see it; [unsynced] the older
    versions a power loss may still bring back. *)
Record Dir := MkDir {
  inodes : gmap Z File;
  entries : gmap string Z;
  unsynced : list (gmap string Z);
  next : Z
}.
#[export] Instance Dir_eta : Eta Dir := {|
  eta d := MkDir (inodes d) (entries d) (unsynced d) (next d);
  eta_ok := ltac:(by intros []) |}.

(** The names changed: the version before the change may come back. *)
Definition relink (d : Dir) (e : gmap string Z) : Dir :=
  d <| entries := e |> <| unsynced := entries d :: unsynced d |>.

(** The file a name shows. *)
Definition visible (d : Dir) (name : string) : option File :=
  match entries d !! name with
  | Some ino => inodes d !! ino
  | None => None
  end.

(** ** System calls

    Each takes the error the environment injects, if any. *)

Definition sys_create_new (d : Dir) (name : string) (m : Z) (fault : option IoError)
    : Dir * result IoError Z :=
  match fault with
  | Some e => (d, Err e)
  | None =>
      match entries d !! name with
      | Some _ => (d, Err {| kind := KAlreadyExists; text := "File exists" |})
      | None =>
          let ino := next d in
          let d := d <| inodes := <[ino := MkFile [] m false]> (inodes d) |>
                     <| next := (ino + 1)%Z |> in
          (relink d (<[name := ino]> (entries d)), Ok ino)
      end
  end.

Definition with_inode (d : Dir) (ino : Z) (g : File → File) : Dir :=
  d <| inodes := alter g ino (inodes d) |>.

(** A failed write may have stored any prefix. *)
Definition sys_write_all (d : Dir) (ino : Z) (bytes : list Z)
    (fault : option (nat * IoError)) : Dir * result IoError unit :=
  match fault with
  | Some (n, e) =>
      (with_inode d ino (λ f, MkFile (data f ++ take n bytes) (mode f) false), Err e)
  | None => (with_inode d ino (λ f, MkFile (data f ++ bytes) (mode f) false), Ok tt)
  end.

Definition sys_set_permissions (d : Dir) (ino m : Z) (fault : option IoError)
    : Dir * result IoError unit :=
  match fault with
  | Some e => (d, Err e)
  | None => (with_inode d ino (λ f, MkFile (data f) m (synced f)), Ok tt)
  end.

Definition sys_sync_all (d : Dir) (ino : Z) (fault : option IoError)
    : Dir * result IoError unit :=
  match fault with
  | Some e => (d, Err e)
  | None => (with_inode d ino (λ f, MkFile (data f) (mode f) true), Ok tt)
  end.

Definition not_found : IoError :=
  {| kind := KNotFound; text := "No such file or directory" |}.

Definition sys_rename (d : Dir) (from to : string) (fault : option IoError)
    : Dir * result IoError unit :=
  match fault with
  | Some e => (d, Err e)
  | None =>
      match entries d !! from with
      | None => (d, Err not_found)
      | Some ino => (relink d (<[to := ino]> (delete from (entries d))), Ok tt)
      end
  end.

Definition sys_remove_file (d : Dir) (name : string) (fault : option IoError)
    : Dir * result IoError unit :=
  match fault with
  | Some e => (d, Err e)
  | None =>
      match entries d !! name with
      | None => (d, Err not_found)
      | Some _ => (relink d (delete name (entries d)), Ok tt)
      end
  end.

Definition sys_sync_dir (d : Dir) (fault : option IoError)
    : Dir * result IoError unit :=
  match fault with
  | Some e => (d, Err e)
  | None => (d <| unsynced := [] |>, Ok tt)
  end.

(** ** A monad of runs: the states gone through, the last one, the outcome. *)

Definition Io (A : Type) : Type := Dir → list Dir * Dir * result IoError A.

Definition call {A} (f : Dir → Dir * result IoError A) : Io A :=
  λ d, let (d', r) := f d in ([d'], d', r).

Definition io_ret {A} (a : A) : Io A := λ d, ([], d, Ok a).

Definition io_bind {A B} (m : Io A) (k : A → Io B) : Io B :=
  λ d, let '(t1, d1, r) := m d in
       match r with
       | Err e => (t1, d1, Err e)
       | Ok a => let '(t2, d2, r2) := k a d1 in (t1 ++ t2, d2, r2)
       end.

Declare Scope io_scope.
Delimit Scope io_scope with io.
Notation "x ←! m ; k" := (io_bind m (λ x, k))
  (at level 20, m at level 100, k at level 200, right associativity) : io_scope.

(** ** [write_with_mode] *)

(** A path as its components; the root has no parent. *)
Definition Path : Type := list string.
Definition file_name (p : Path) : option string := last p.

Inductive AtomicWriteError :=
| NotCommitted (path : Path) (source : IoError)
| DurabilityUncertain (path : Path) (source : IoError).

(** The error a call site meets, one per system call of [write_with_mode]. *)
Record Faults := {
  on_open : option IoError;
  on_write : option (nat * IoError);
  on_chmod : option IoError;
  on_sync : option IoError;
  on_rename : option IoError;
  on_cleanup : option IoError;
  on_sync_dir : option IoError
}.

Definition publish (temp dest : string) (bytes : list Z) (m : Z) (f : Faults)
    : Io unit :=
  (ino ←! call (λ d, sys_create_new d temp 384%Z (on_open f));
   _ ←! call (λ d, sys_write_all d ino bytes (on_write f));
   _ ←! call (λ d, sys_set_permissions d ino m (on_chmod f));
   _ ←! call (λ d, sys_sync_all d ino (on_sync f));
   call (λ d, sys_rename d temp dest (on_rename f)))%io.

(** The error left after removing the temporary file. *)
Definition after_cleanup (temp : string) (original : IoError)
    (cleanup : result IoError unit) : IoError :=
  match cleanup with
  | Ok _ => original
  | Err e =>
      if decide (kind e = KNotFound) then original
      else {| kind := kind original;
              text := text original +:+ "; failed to remove temporary file "
                        +:+ temp +:+ ": " +:+ text e |}
  end.

(** [temp] is the unique [.arcbox-<uuid>.tmp] sibling. *)
Definition write_with_mode (temp : string) (destination : Path) (bytes : list Z)
    (m : Z) (f : Faults) (d : Dir)
    : list Dir * Dir * result AtomicWriteError unit :=
  match file_name destination with
  | None =>
      ([], d, Err (NotCommitted destination
        {| kind := KInvalidInput; text := "path has no parent: /" |}))
  | Some dest =>
      match publish temp dest bytes m f d with
      | (t, d, Err original) =>
          let (d', cleanup) := sys_remove_file d temp (on_cleanup f) in
          (t ++ [d'], d',
           Err (NotCommitted destination (after_cleanup temp original cleanup)))
      | (t, d, Ok _) =>
          let (d', r) := sys_sync_dir d (on_sync_dir f) in
          (t ++ [d'], d',
           match r with
           | Ok _ => Ok tt
           | Err e => Err (DurabilityUncertain destination e)
           end)
      end
  end.

(** [write] (0600) and [write_public] (0644). *)
Definition write (temp : string) (destination : Path) (bytes : list Z)
    (f : Faults) (d : Dir) : list Dir * Dir * result AtomicWriteError unit :=
  write_with_mode temp destination bytes 384%Z f d.
Definition write_public (temp : string) (destination : Path) (bytes : list Z)
    (f : Faults) (d : Dir) : list Dir * Dir * result AtomicWriteError unit :=
  write_with_mode temp destination bytes 420%Z f d.

(** ** What a power loss leaves *)

(** The contents of a name in one version: no such file, the whole flushed
    bytes, or ([Some None]) bytes nobody can vouch for. *)
Definition version_view (d : Dir) (name : string) (version : gmap string Z)
    : option (option (list Z)) :=
  match version !! name with
  | None => None
  | Some ino =>
      Some (match inodes d !! ino with
            | Some f => if synced f then Some (data f) else None
            | None => None
            end)
  end.

Definition crash_view (d : Dir) (name : string) : list (option (option (list Z))) :=
  version_view d name <$> entries d :: unsynced d.

(** Every name points at an inode that exists, below the next number. *)
Definition dir_wf (d : Dir) : Prop :=
  Forall (λ version : gmap string Z,
    ∀ name ino, version !! name = Some ino → (ino < next d)%Z ∧ is_Some (inodes d !! ino))
    (entries d :: unsynced d).

(** ** The states of a run *)

Section write.
Context (d0 : Dir) (temp dest : string) (bytes : list Z) (m : Z) (f : Faults).
Context (Hwf : dir_wf d0) (Hfresh : entries d0 !! temp = None) (Hne : dest ≠ temp).

(** The temporary file exists and nothing else has changed. *)
Definition staged (file : File) : Dir :=
  MkDir (<[next d0 := file]> (inodes d0)) (<[temp := next d0]> (entries d0))
    (entries d0 :: unsynced d0) (next d0 + 1).

(** The rename has landed. *)
Definition renamed : Dir :=
  relink (staged (MkFile bytes m true)) (<[dest := next d0]> (entries d0)).

Lemma with_inode_staged file g :
  with_inode (staged file) (next d0) g = staged (g file).
Proof. unfold with_inode, staged, upd. simpl. by rewrite alter_insert_eq. Qed.

Lemma rename_staged :
  sys_rename (staged (MkFile bytes m true)) temp dest None = (renamed, Ok tt).
Proof.
  unfold sys_rename. simpl. rewrite lookup_insert_eq. unfold renamed.
  by rewrite delete_insert_id.
Qed.

Lemma remove_staged file :
  sys_remove_file (staged file) temp None = (relink (staged file) (entries d0), Ok tt).
Proof.
  unfold sys_remove_file. simpl. rewrite lookup_insert_eq.
  by rewrite delete_insert_id.
Qed.

Lemma publish_states t d r :
  publish temp dest bytes m f d0 = (t, d, r) →
  (∃ e, r = Err e ∧ d = d0 ∧ Forall (λ x, x = d0) t) ∨
  (∃ e file, r = Err e ∧ d = staged file ∧ Forall (λ x, ∃ y, x = staged y) t) ∨
  (r = Ok tt ∧ d = renamed ∧ Forall (λ x, x = renamed ∨ ∃ y, x = staged y) t).
Proof.
  unfold publish, io_bind, call, sys_create_new.
  destruct (on_open f) as [e|]; [intros [= <- <- <-]; left; eauto|].
  rewrite Hfresh.
  change (relink _ _) with (staged (MkFile [] 384%Z false)). unfold sys_write_all.
  destruct (on_write f) as [[n e]|]; rewrite with_inode_staged; simpl.
  { intros [= <- <- <-]. right; left. eauto 10. }
  unfold sys_set_permissions. destruct (on_chmod f) as [e|].
  { intros [= <- <- <-]. right; left. do 2 eexists. split_and!; [done..|].
    repeat constructor; eauto. }
  rewrite with_inode_staged. unfold sys_sync_all. destruct (on_sync f) as [e|].
  { intros [= <- <- <-]. right; left. do 2 eexists. split_and!; [done..|].
    repeat constructor; eauto. }
  rewrite with_inode_staged. destruct (on_rename f) as [e|].
  { intros [= <- <- <-]. right; left. do 2 eexists. split_and!; [done..|].
    repeat constructor; eauto. }
  cbn [data mode synced app]. rewrite rename_staged. intros [= <- <- <-]. right; right.
  split_and!; [done..|]. rewrite !Forall_cons. split_and!; eauto.
Qed.

(** A version of before reads the same once the new inode exists. *)
Lemma version_view_staged file d name v :
  v ∈ entries d0 :: unsynced d0 → inodes d = inodes (staged file) →
  version_view d name v = version_view d0 name v.
Proof.
  intros Hv Hin. unfold version_view. destruct (v !! name) as [ino|] eqn:Hl; [|done].
  rewrite Hin. simpl.
  unfold dir_wf in Hwf. rewrite Forall_forall in Hwf.
  destruct (Hwf v Hv name ino Hl) as [Hlt _].
  by rewrite lookup_insert_ne by lia.
Qed.

(** A state reached through the staged one, whose current version shows [name]
    as before: what may come back for it could come back before. *)
Lemma crash_view_through file d name :
  inodes d = inodes (staged file) → entries d !! name = entries d0 !! name →
  (∀ v, v ∈ unsynced d → v ∈ entries d0 :: unsynced d0 ∨ v !! name = entries d0 !! name) →
  ∀ w, w ∈ crash_view d name → w ∈ crash_view d0 name.
Proof.
  intros Hin Hcur Hold w (v & -> & Hv)%list_elem_of_fmap.
  assert (version_view d name (entries d0) ∈ crash_view d0 name) as Hnow.
  { rewrite (version_view_staged file) by (done || left). left. }
  assert (∀ u : gmap string Z, u !! name = entries d0 !! name →
            version_view d name u ∈ crash_view d0 name) as Hsame.
  { intros u Hu. unfold version_view in *. by rewrite Hu. }
  apply elem_of_cons in Hv as [->|Hv]; [by apply Hsame|].
  destruct (Hold v Hv) as [Hv'|?]; [|by apply Hsame].
  rewrite (version_view_staged file) by done. by apply list_elem_of_fmap_2.
Qed.

(** What may come back: for the destination what could before, or the new
    bytes whole; for any other name but the temporary one what could before. *)
Definition crash_safe (d : Dir) : Prop :=
  (∀ v, v ∈ crash_view d dest → v = Some (Some bytes) ∨ v ∈ crash_view d0 dest) ∧
  (∀ name v, name ≠ dest → name ≠ temp →
     v ∈ crash_view d name → v ∈ crash_view d0 name).

Lemma start_safe : crash_safe d0.
Proof. split; auto. Qed.

Lemma staged_shows name file : name ≠ temp → entries (staged file) !! name = entries d0 !! name.
Proof. intros Hn. simpl. by rewrite lookup_insert_ne. Qed.

Lemma staged_safe file : crash_safe (staged file).
Proof.
  assert (∀ name v, name ≠ temp → v ∈ crash_view (staged file) name →
                    v ∈ crash_view d0 name) as H.
  { intros name v Hn. eapply crash_view_through; [done|by apply staged_shows|].
    intros u Hu. by left. }
  split; eauto.
Qed.

Lemma removed_safe file : crash_safe (relink (staged file) (entries d0)).
Proof.
  assert (∀ name v, name ≠ temp → v ∈ crash_view (relink (staged file) (entries d0)) name →
                    v ∈ crash_view d0 name) as H.
  { intros name v Hn. eapply (crash_view_through file); [done|done|].
    simpl. intros u [->|Hu]%elem_of_cons; [|by left].
    right. by rewrite lookup_insert_ne. }
  split; eauto.
Qed.

Lemma renamed_safe : crash_safe renamed.
Proof.
  split.
  - intros v. unfold crash_view. rewrite fmap_cons, elem_of_cons. intros [->|Hv].
    + left. unfold version_view. simpl. by rewrite !lookup_insert_eq.
    + exact (proj1 (staged_safe (MkFile bytes m true)) v Hv).
  - intros name v Hd Ht. eapply (crash_view_through (MkFile bytes m true)); [done| |].
    + simpl. by rewrite lookup_insert_ne.
    + simpl. intros u [->|Hu]%elem_of_cons; [|by left].
      right. by rewrite lookup_insert_ne.
Qed.

(** A name the run did not touch shows what it showed. *)
Lemma visible_same file d name :
  inodes d = inodes (staged file) → entries d !! name = entries d0 !! name →
  visible d name = visible d0 name.
Proof.
  intros Hin Hen. unfold visible. rewrite Hen, Hin.
  destruct (entries d0 !! name) as [ino|] eqn:Hl; [|done]. simpl.
  unfold dir_wf in Hwf. rewrite Forall_cons in Hwf. destruct Hwf as [Hcur _].
  destruct (Hcur name ino Hl). by rewrite lookup_insert_ne by lia.
Qed.

Lemma dir_wf_through file d :
  inodes d = inodes (staged file) → next d = next (staged file) →
  (∀ v, v ∈ entries d :: unsynced d → v ∈ entries d0 :: unsynced d0 ∨
     ∃ name, v = <[name := next d0]> (entries d0)) →
  dir_wf d.
Proof.
  intros Hin Hnx Hver. unfold dir_wf. apply Forall_forall. intros v Hv name ino Hl.
  rewrite Hin, Hnx. simpl.
  assert (ino = next d0 ∨ (ino < next d0)%Z ∧ is_Some (inodes d0 !! ino)) as [->|[? ?]].
  { unfold dir_wf in Hwf. rewrite Forall_forall in Hwf.
    destruct (Hver v Hv) as [Hv'|[n ->]]; [right; eapply Hwf; eauto|].
    apply lookup_insert_Some in Hl as [[_ <-]|[_ Hl]]; [by left|].
    right. eapply Hwf; [left|done]. }
  - split; [lia|]. rewrite lookup_insert_eq. by eexists.
  - split; [lia|]. by rewrite lookup_insert_ne by lia.
Qed.

(** The temporary file is gone again, or still there when its removal failed. *)
Lemma cleanup_staged file :
  ∃ d' r, sys_remove_file (staged file) temp (on_cleanup f) = (d', r) ∧
    crash_safe d' ∧ inodes d' = inodes (staged file) ∧ dir_wf d' ∧
    (∀ name, name ≠ temp → entries d' !! name = entries d0 !! name).
Proof.
  destruct (on_cleanup f) as [e|].
  - do 2 eexists. split; [done|]. split; [apply staged_safe|]. split; [done|].
    split; [|by intros; apply staged_shows].
    eapply dir_wf_through; [done|done|]. simpl. set_solver.
  - rewrite remove_staged. do 2 eexists. split; [done|].
    split; [apply removed_safe|]. split; [done|]. split; [|done].
    eapply (dir_wf_through file); [done|done|]. simpl. set_solver.
Qed.

Lemma renamed_wf : dir_wf renamed.
Proof. eapply (dir_wf_through (MkFile bytes m true)); [done|done|]. simpl. set_solver. Qed.

Lemma renamed_shows d :
  inodes d = inodes renamed → entries d = entries renamed →
  visible d dest = Some (MkFile bytes m true) ∧
  ∀ name, name ≠ dest → name ≠ temp → visible d name = visible d0 name.
Proof.
  intros Hin Hen. split.
  - unfold visible. rewrite Hen, Hin. simpl. by rewrite !lookup_insert_eq.
  - intros name Hn _. apply (visible_same (MkFile bytes m true)); [exact Hin|].
    rewrite Hen. simpl. by rewrite lookup_insert_ne.
Qed.

(** The directory flush after the rename. *)
Lemma flushed_renamed (d := renamed <| unsynced := [] |>) :
  dir_wf d ∧ crash_safe d ∧ crash_view d dest = [Some (Some bytes)].
Proof.
  assert (crash_view d dest = [Some (Some bytes)]) as Hcv.
  { unfold crash_view, version_view. simpl. by rewrite !lookup_insert_eq. }
  split_and!; [| |done].
  - pose proof renamed_wf as Hw. unfold dir_wf in *. rewrite Forall_cons in Hw.
    apply Forall_singleton. apply Hw.
  - split; [rewrite Hcv; intros v ->%list_elem_of_singleton; by left|].
    intros name v Hd Ht Hv. apply renamed_safe; [done..|].
    unfold crash_view in *. rewrite fmap_cons in *. simpl in Hv.
    apply list_elem_of_singleton in Hv as ->. left.
Qed.
End write.

(** Every outcome of a write, with the states it went through. *)
Lemma write_with_mode_cases (d : Dir) (temp dest : string) (parent : Path)
    (bytes : list Z) (m : Z) (f : Faults)
    (Hwf : dir_wf d) (Hfresh : entries d !! temp = None) (Hne : dest ≠ temp) :
  let '(trace, d', r) := write_with_mode temp (parent ++ [dest]) bytes m f d in
  Forall (crash_safe d temp dest bytes) (trace ++ [d']) ∧ dir_wf d' ∧
  match r with
  | Ok _ => visible d' dest = Some (MkFile bytes m true) ∧
            crash_view d' dest = [Some (Some bytes)]
  | Err (DurabilityUncertain _ _) => visible d' dest = Some (MkFile bytes m true)
  | Err (NotCommitted _ _) => visible d' dest = visible d dest
  end ∧
  (∀ name, name ≠ dest → name ≠ temp → visible d' name = visible d name).
Proof.
  unfold write_with_mode, file_name. rewrite last_snoc.
  destruct (publish temp dest bytes m f d) as [[t d1] r] eqn:Hp.
  apply publish_states in Hp as [(e & -> & -> & Ht)|[(e & file & -> & -> & Ht)|(-> & -> & Ht)]];
    try done.
  - assert (sys_remove_file d temp (on_cleanup f) =
            (d, Err (default not_found (on_cleanup f)))) as ->
      by (unfold sys_remove_file; rewrite Hfresh; by case_match).
    split_and!; [|done..]. rewrite !Forall_app, !Forall_singleton.
    split_and!; auto using start_safe.
    eapply Forall_impl; [exact Ht|]. intros x ->. apply start_safe.
  - destruct (cleanup_staged d temp dest bytes f Hwf Hfresh Hne file)
      as (d' & r' & -> & Hsafe & Hin & Hw & Hen). split_and!.
    + rewrite !Forall_app, !Forall_singleton. split_and!; [|done..].
      eapply Forall_impl; [exact Ht|]. intros x [y ->]. by apply staged_safe.
    + done.
    + apply (visible_same d temp Hwf file); auto.
    + intros name ? ?. apply (visible_same d temp Hwf file); auto.
  - assert (Forall (crash_safe d temp dest bytes) t) as Hts.
    { eapply Forall_impl; [exact Ht|].
      intros x [->|[y ->]]; [by apply renamed_safe|by apply staged_safe]. }
    unfold sys_sync_dir. destruct (on_sync_dir f) as [e|].
    + destruct (renamed_shows d temp dest bytes m Hwf (renamed d temp dest bytes m))
        as [? ?]; [done..|].
      split_and!; [|by apply renamed_wf|done|done].
      rewrite !Forall_app, !Forall_singleton. split_and!; auto using renamed_safe.
    + destruct (flushed_renamed d temp dest bytes m) as (Hw & Hs & Hcv); [done..|].
      destruct (renamed_shows d temp dest bytes m Hwf
        ((renamed d temp dest bytes m) <| unsynced := [] |>)) as [? ?]; [done..|].
      split_and!; [|done..].
      rewrite !Forall_app, !Forall_singleton. by split_and!.
Qed.

(** ** Properties *)

(** C15: a replacement is atomic under failure and power loss. Whatever system
    call fails, at every state a run goes through a crash brings back either
    something it could already have brought back or the new bytes in full,
    never a torn file. A confirmed write shows the new bytes with the requested
    mode and nothing else can come back; an unconfirmed one shows them already;
    a failed one leaves the destination exactly as it was; and no other name
    but the temporary one is ever touched. *)
Theorem write_with_mode_atomic (d : Dir) (temp dest : string) (parent : Path)
    (bytes : list Z) (m : Z) (f : Faults)
    (Hwf : dir_wf d) (Hfresh : entries d !! temp = None) (Hne : dest ≠ temp) :
  let '(trace, d', r) := write_with_mode temp (parent ++ [dest]) bytes m f d in
  Forall (crash_safe d temp dest bytes) (trace ++ [d']) ∧ dir_wf d' ∧
  match r with
  | Ok _ => visible d' dest = Some (MkFile bytes m true) ∧
            crash_view d' dest = [Some (Some bytes)]
  | Err (DurabilityUncertain _ _) => visible d' dest = Some (MkFile bytes m true)
  | Err (NotCommitted _ _) => visible d' dest = visible d dest
  end ∧
  (∀ name, name ≠ dest → name ≠ temp → visible d' name = visible d name).
Proof. by apply write_with_mode_cases. Qed.

Definition ex_dir : Dir :=
  MkDir {[1%Z := MkFile [7%Z] 384%Z true]} {["r.json" := 1%Z]} [] 2%Z.
Definition no_faults : Faults := {|
  on_open := None; on_write := None; on_chmod := None; on_sync := None;
  on_rename := None; on_cleanup := None; on_sync_dir := None |}.

Lemma ex_dir_wf : dir_wf ex_dir.
Proof.
  apply Forall_singleton. simpl. intros name ino [<- <-]%lookup_singleton_Some.
  split; [done|by eexists].
Qed.

Lemma write_with_mode_atomic_witness :
  let run := write_with_mode ".arcbox-1.tmp" (["data"] ++ ["r.json"]) [1%Z; 2%Z]
               384%Z no_faults ex_dir in
  snd run = Ok tt ∧ Forall (crash_safe ex_dir ".arcbox-1.tmp" "r.json" [1%Z; 2%Z])
    (fst (fst run) ++ [snd (fst run)]).
Proof.
  split; [vm_compute; reflexivity|].
  pose proof (write_with_mode_atomic ex_dir ".arcbox-1.tmp" "r.json" ["data"]
    [1%Z; 2%Z] 384%Z no_faults ex_dir_wf eq_refl ltac:(discriminate)) as H.
  destruct (write_with_mode _ _ _ _ _ _) as [[trace d'] r]. exact (proj1 H).
Defined.
