(* ===== verification/RecordStore.v ===== *)
(** * The computer record store

    [src/computer/arcbox-computer-runtime/src/sandbox/record/store.rs]: how a
    record reaches the disk and what "durable" means for each write. The store
    is the directory of [AtomicFile]; every operation takes the answers the
    environment gives its system calls, so an error path is a value of the
    environment. The process-local mutex serialises whole operations, which is
    why an operation is one function on the directory. JSON is the interface
    [RecordCodec]. *)

From stdpp Require Import countable base list gmap strings relations pretty.
From Stdlib Require Import ZArith Lia.
From S2P Require Import Prelude Types RecordPhase AtomicFile.

(** What the store relies on of [serde_json] and the record's derived
    (de)serialisers: a record reads back as itself, and the header read finds
    its version. *)
Class RecordCodec := {
  to_vec_pretty : ComputerRecord → list Z;
  header_version : list Z → result string Z;
  from_slice : list Z → result string ComputerRecord;
  from_slice_to_vec : ∀ r, from_slice (to_vec_pretty r) = Ok r;
  header_to_vec : ∀ r, header_version (to_vec_pretty r) = Ok (version r)
}.

(** A mutation whose rename or unlink happened, with the doubt about its
    directory flush, if any. *)
Record DurableCommit (A : Type) := MkCommit {
  value : A;
  durability_error : option string
}.
Arguments MkCommit {A}.
Arguments value {A}.
Arguments durability_error {A}.

Definition confirmed {A} (c : DurableCommit A) (operation : string) : Result A :=
  match durability_error c with
  | Some error =>
      Err (CErr.Unavailable (operation +:+
             " is visible but its durability is unconfirmed: " +:+ error))
  | None => Ok (value c)
  end.

(** ** The environment of one operation *)

Inductive MetaAnswer := MetaOk | MetaErr (e : IoError) | MetaNotRegular.

Record StoreEnv := {
  poisoned : bool;                     (* a thread panicked holding the lock *)
  meta_answer : MetaAnswer;            (* symlink_metadata *)
  chmod_fault : option IoError;        (* tightening a loose mode *)
  read_fault : option IoError;         (* fs::read *)
  write_faults : Faults;               (* arcbox_atomic_file::write *)
  temp_uuid : string;                  (* the temporary name's uuid *)
  remove_fault : option IoError;       (* fs::remove_file *)
  sync_fault : option IoError;         (* fsync of the root directory *)
  clock : DateTime;                    (* Utc::now *)
  new_uuid : Z                         (* Uuid::new_v4 *)
}.

Definition temp_name (env : StoreEnv) : string :=
  ".arcbox-" +:+ temp_uuid env +:+ ".tmp".

Definition record_path (id : string) : string := id +:+ ".json".

Definition io {A} (e : IoError) : Result A := Err (CErr.Io (text e)).

Definition path_display (root : Path) (name : string) : string :=
  foldr (λ c acc, "/" +:+ c +:+ acc) ("/" +:+ name) root.

(** [AtomicWriteError]'s [Display]. *)
Definition atomic_error_text (root : Path) (name : string) (e : AtomicWriteError)
    : string :=
  match e with
  | NotCommitted _ source =>
      path_display root name +:+ " was not replaced: " +:+ text source
  | DurabilityUncertain _ source =>
      path_display root name +:+
        " was renamed but directory durability is unconfirmed: " +:+ text source
  end.

(** [From<AtomicWriteError> for ComputerError]. *)
Definition from_atomic_error (root : Path) (name : string) (e : AtomicWriteError)
    : ComputerError :=
  match e with
  | NotCommitted _ source => CErr.Io (text source)
  | DurabilityUncertain _ _ => CErr.Unavailable (atomic_error_text root name e)
  end.

(** [ComputerRecordStore::new]: the directory exists, private, and its own
    entry and its names are flushed. *)
Definition store_new (d : Dir)
    (on_create on_chmod_root on_sync_parent on_sync_root : option IoError)
    : Dir * Result unit :=
  match on_create, on_chmod_root, on_sync_parent with
  | Some e, _, _ | None, Some e, _ | None, None, Some e => (d, io e)
  | None, None, None =>
      let (d, r) := sys_sync_dir d on_sync_root in
      (d, match r with Ok _ => Ok tt | Err e => io e end)
  end.

(** The inode a name points at, with its file. *)
Definition find_file (d : Dir) (name : string) : option (Z * File) :=
  match entries d !! name with
  | Some ino => match inodes d !! ino with Some f => Some (ino, f) | None => None end
  | None => None
  end.

Section store.
  Context `{RecordCodec} (root : Path).

Definition lock (env : StoreEnv) : Result unit :=
  if poisoned env then Err (CErr.Other "sandbox record store mutex poisoned")
  else Ok tt.

Definition sync_root_unlocked (env : StoreEnv) (d : Dir)
    : Dir * result IoError unit := sys_sync_dir d (sync_fault env).

Definition confirm_root_unlocked (env : StoreEnv) (d : Dir) (operation : string)
    : Dir * Result unit :=
  let (d, r) := sync_root_unlocked env d in
  (d, match r with
      | Ok _ => Ok tt
      | Err e => Err (CErr.Unavailable
                        (operation +:+ " durability could not be confirmed: " +:+ text e))
      end).

Definition confirm_absence_unlocked (env : StoreEnv) (d : Dir)
    : Dir * DurableCommit unit :=
  let (d, r) := sync_root_unlocked env d in
  (d, MkCommit tt (match r with Ok _ => None | Err e => Some (text e) end)).

(** What the bytes of a record file decode to. *)
Definition decode_record (id : string) (bytes : list Z) : Result (option ComputerRecord) :=
  match header_version bytes with
  | Err e => Err (CErr.Json e)
  | Ok v =>
      if negb (v =? RECORD_VERSION)%Z then
        Err (CErr.Config ("unsupported sandbox record version " +:+ pretty v
                            +:+ " for " +:+ id))
      else
        match from_slice bytes with
        | Err e => Err (CErr.Json e)
        | Ok record =>
            let? _ := validate_record id record in
            Ok (Some record)
        end
  end.

Definition load_unlocked (env : StoreEnv) (d : Dir) (id : string)
    : Dir * Result (option ComputerRecord) :=
  match validate_id "sandbox id" id with
  | Err e => (d, Err e)
  | Ok _ =>
      match meta_answer env, find_file d (record_path id) with
      | MetaErr e, _ =>
          (d, if decide (kind e = KNotFound) then Ok None else io e)
      | _, None => (d, Ok None)
      | MetaNotRegular, Some _ =>
          (d, Err (CErr.Config ("sandbox record is not a regular file: "
                                  +:+ path_display root (record_path id))))
      | MetaOk, Some (ino, file) =>
          let loose := negb (Z.land (mode file) 63 =? 0)%Z in
          let (d, chmod) :=
            if loose then sys_set_permissions d ino 384%Z (chmod_fault env)
            else (d, Ok tt) in
          match chmod with
          | Err e => (d, io e)
          | Ok _ =>
              match read_fault env with
              | Some e => (d, if decide (kind e = KNotFound) then Ok None else io e)
              | None => (d, decode_record id (data file))
              end
          end
      end
  end.

Definition save_unlocked (env : StoreEnv) (d : Dir) (record : ComputerRecord)
    : Dir * Result (option string) :=
  match validate_record (rec_id record) record with
  | Err e => (d, Err e)
  | Ok _ =>
      let name := record_path (rec_id record) in
      let bytes := to_vec_pretty record in
      let '(_, d, r) :=
        write (temp_name env) (root ++ [name]) bytes (write_faults env) d in
      (d, match r with
          | Ok _ => Ok None
          | Err (NotCommitted _ _ as e) => Err (from_atomic_error root name e)
          | Err (DurabilityUncertain _ _ as e) => Ok (Some (atomic_error_text root name e))
          end)
  end.

Definition delete_unlocked (env : StoreEnv) (d : Dir) (id : string)
    : Dir * Result (DurableCommit unit) :=
  let (d, r) := sys_remove_file d (record_path id) (remove_fault env) in
  match r with
  | Err e => (d, io e)
  | Ok _ =>
      let (d, s) := sync_root_unlocked env d in
      (d, Ok (MkCommit tt (match s with Ok _ => None | Err e => Some (text e) end)))
  end.

Definition generation_mismatch (id : string) (expected actual : Z) : ComputerError :=
  CErr.WrongState id ("generation " +:+ pretty expected) ("generation " +:+ pretty actual).

Definition validate_provision_input (id request_key : string) : Result unit :=
  let? _ := validate_id "sandbox id" id in
  if (request_key =? "")%string
  then Err (CErr.Config "sandbox provision request key must not be empty")
  else Ok tt.

(** Take the lock and load the record, then go on with both. *)
Definition with_loaded {A} (env : StoreEnv) (d : Dir) (id : string)
    (k : Dir → option ComputerRecord → Dir * Result A) : Dir * Result A :=
  match lock env with
  | Err e => (d, Err e)
  | Ok _ =>
      match load_unlocked env d id with
      | (d, Err e) => (d, Err e)
      | (d, Ok found) => k d found
      end
  end.

Definition replay_provision (env : StoreEnv) (d : Dir) (id request_key : string)
    : Dir * Result (option ComputerProvisionOutcome) :=
  match validate_provision_input id request_key with
  | Err e => (d, Err e)
  | Ok _ =>
      with_loaded env d id (λ d found,
        match found with
        | None => (d, Ok None)
        | Some record =>
            match classify_existing_provision record request_key with
            | Err e => (d, Err e)
            | Ok EPending => (d, Ok None)
            | Ok EReplay =>
                let (d, r) := confirm_root_unlocked env d "provision replay" in
                (d, let? _ := r in Ok (provision_outcome record))
            | Ok EBlocked =>
                let (d, r) := confirm_root_unlocked env d "provision collision" in
                (d, let? _ := r in Err (CErr.AlreadyExists id))
            end
        end)
  end.

Definition provision_intent (env : StoreEnv) (d : Dir) (id request_key : string)
    (effective_spec : ComputerSpec) : Dir * Result ProvisionIntent :=
  match validate_provision_input id request_key with
  | Err e => (d, Err e)
  | Ok _ =>
      with_loaded env d id (λ d found,
        match found with
        | Some record =>
            match classify_existing_provision record request_key with
            | Err e => (d, Err e)
            | Ok EPending => (d, Ok (Resume record))
            | Ok EReplay =>
                let (d, r) := confirm_root_unlocked env d "provision replay" in
                (d, let? _ := r in Ok (Replay record))
            | Ok EBlocked =>
                let (d, r) := confirm_root_unlocked env d "provision collision" in
                (d, let? _ := r in Ok (Blocked record))
            end
        | None =>
            let record := new_record id request_key effective_spec (clock env) (new_uuid env) in
            match save_unlocked env d record with
            | (d, Err e) => (d, Err e)
            | (d, Ok _) => (d, Ok (Created record))
            end
        end)
  end.

Definition transition (env : StoreEnv) (d : Dir) (id : string) (gen : Z)
    (t : ComputerTransition) : Dir * Result (DurableCommit ComputerRecord) :=
  with_loaded env d id (λ d found,
    match found with
    | None => (d, Err (CErr.NotFound id))
    | Some record =>
        if negb (generation record =? gen)%Z
        then (d, Err (generation_mismatch id (generation record) gen)) else
        match apply record t (clock env) with
        | Err e => (d, Err e)
        | Ok record =>
            match save_unlocked env d record with
            | (d, Err e) => (d, Err e)
            | (d, Ok durability) => (d, Ok (MkCommit record durability))
            end
        end
    end).

Definition update_lifecycle (env : StoreEnv) (d : Dir) (id : string) (gen : Z)
    (ttl : option DateTime) (idle_timeout_seconds : Z) (on_idle : IdleAction)
    : Dir * Result (DurableCommit unit) :=
  with_loaded env d id (λ d found,
    match found with
    | None => (d, Err (CErr.NotFound id))
    | Some record =>
        if negb (generation record =? gen)%Z
        then (d, Err (generation_mismatch id (generation record) gen)) else
        let record := record <| ttl_deadline := ttl |>
          <| effective_spec := (effective_spec record)
               <| spec_idle_timeout_seconds := idle_timeout_seconds |>
               <| spec_on_idle := on_idle |> |> in
        match save_unlocked env d record with
        | (d, Err e) => (d, Err e)
        | (d, Ok durability) => (d, Ok (MkCommit tt durability))
        end
    end).

Definition delete_record (env : StoreEnv) (d : Dir) (id : string) (gen : Z)
    (expected_phase : ComputerPhase) : Dir * Result (DurableCommit unit) :=
  with_loaded env d id (λ d found,
    match found with
    | None => let (d, c) := confirm_absence_unlocked env d in (d, Ok c)
    | Some record =>
        if negb (generation record =? gen)%Z
        then (d, Err (generation_mismatch id (generation record) gen))
        else if negb (bool_decide (phase record = expected_phase))
        then (d, Err (CErr.WrongState id (as_str expected_phase) (as_str (phase record))))
        else delete_unlocked env d id
    end).

Definition abort_provision (env : StoreEnv) (d : Dir) (id : string) (gen : Z)
    : Dir * Result (DurableCommit unit) := delete_record env d id gen Phase.Creating.

Definition finish_remove (env : StoreEnv) (d : Dir) (id : string) (gen : Z)
    : Dir * Result (DurableCommit unit) := delete_record env d id gen Phase.Removing.

Definition cancel_pending_or_missing (env : StoreEnv) (d : Dir) (id : string)
    : Dir * Result (DurableCommit unit) :=
  with_loaded env d id (λ d found,
    match found with
    | None => let (d, c) := confirm_absence_unlocked env d in (d, Ok c)
    | Some record =>
        if negb (bool_decide (phase record = Phase.Creating))
           || negb (is_none (provision_outcome record))
        then (d, Err (CErr.AlreadyExists id))
        else delete_unlocked env d id
    end).

End store.

(** ** The records a directory shows *)

Section store_lemmas.
Context `{RecordCodec} (root : Path).

(** The record an id shows, if any. *)
Definition shown (d : Dir) (id : string) : option ComputerRecord :=
  match visible d (record_path id) with
  | Some f => match from_slice (data f) with Ok r => Some r | Err _ => None end
  | None => None
  end.

(** The invariant: whatever a crash brings back, an id has no record or a
    whole, valid one. *)
Record store_ok (d : Dir) : Prop := {
  ok_wf : dir_wf d;
  ok_views : ∀ id v, v ∈ crash_view d (record_path id) →
    v = None ∨ ∃ r, v = Some (Some (to_vec_pretty r)) ∧ record_wf id r
}.

(** The temporary name is new, which a version-4 uuid makes it. *)
Definition env_fresh (env : StoreEnv) (d : Dir) : Prop :=
  entries d !! temp_name env = None.

#[local] Instance record_path_inj : Inj (=) (=) record_path.
Proof. intros x y Hxy. by apply string_app_suffix_inj in Hxy as [-> _]. Qed.

Lemma temp_name_not_record env id : record_path id ≠ temp_name env.
Proof.
  unfold record_path, temp_name. change ".json" with ("." +:+ "json").
  rewrite !string_app_assoc. intros Heq.
  by apply string_app_suffix_inj in Heq as [_ ?].
Qed.

(** ** What an operation's reads do to the directory *)

(** Reading a record may tighten its mode; nothing else changes. *)
Record same_contents (d d' : Dir) : Prop := {
  same_entries : entries d' = entries d;
  same_unsynced : unsynced d' = unsynced d;
  same_next : next d' = next d;
  same_files : ∀ ino, (λ f, (data f, synced f)) <$> inodes d' !! ino =
                      (λ f, (data f, synced f)) <$> inodes d !! ino
}.

Lemma same_contents_refl d : same_contents d d.
Proof. by split. Qed.

Lemma same_contents_view d d' name :
  same_contents d d' → crash_view d' name = crash_view d name.
Proof.
  intros [He Hu _ Hf]. unfold crash_view. rewrite He, Hu.
  apply list_fmap_ext. intros i v _. unfold version_view.
  destruct (v !! name) as [ino|]; [|done]. specialize (Hf ino).
  destruct (inodes d' !! ino), (inodes d !! ino); simpl in Hf; try done.
  injection Hf as Hdata Hsync. by rewrite Hdata, Hsync.
Qed.

Lemma same_contents_wf d d' : same_contents d d' → dir_wf d → dir_wf d'.
Proof.
  intros [He Hu Hn Hf]. unfold dir_wf. rewrite He, Hu, Hn. intros Hw.
  eapply Forall_impl; [exact Hw|]. intros v Hv name ino Hl. destruct (Hv name ino Hl) as [? Hs]. split; [done|].
  specialize (Hf ino). destruct (inodes d' !! ino); [by eexists|].
  by destruct Hs as [x Hs]; rewrite Hs in Hf.
Qed.

Lemma same_contents_ok d d' : same_contents d d' → store_ok d → store_ok d'.
Proof.
  intros Hs [Hw Hv]. split; [by eapply same_contents_wf|].
  intros id v. rewrite (same_contents_view d d') by done. apply Hv.
Qed.

Lemma same_contents_shown d d' id : same_contents d d' → shown d' id = shown d id.
Proof.
  intros [He _ _ Hf]. unfold shown, visible. rewrite He.
  destruct (entries d !! record_path id) as [ino|]; [|done]. specialize (Hf ino).
  destruct (inodes d' !! ino), (inodes d !! ino); simpl in Hf; try done.
  injection Hf as Hdata _. by rewrite Hdata.
Qed.

Lemma same_contents_trans d1 d2 d3 :
  same_contents d1 d2 → same_contents d2 d3 → same_contents d1 d3.
Proof. intros [] []. split; congruence. Qed.

(** In a good store the file an id shows is a whole, valid record. *)
Lemma shown_file d id f :
  store_ok d → visible d (record_path id) = Some f →
  ∃ r, data f = to_vec_pretty r ∧ record_wf id r ∧ shown d id = Some r.
Proof.
  intros [Hw Hv] Hf. unfold shown. rewrite Hf.
  assert (version_view d (record_path id) (entries d) ∈ crash_view d (record_path id))
    as Hin by left.
  apply Hv in Hin. unfold version_view, visible in *.
  destruct (entries d !! record_path id) as [ino|]; [|done]. rewrite Hf in Hin.
  destruct Hin as [|(r & Hr & Hwf)]; [done|]. exists r.
  destruct (synced f); simplify_eq. rewrite Hr. by rewrite from_slice_to_vec.
Qed.

Lemma shown_wf d id r : store_ok d → shown d id = Some r → record_wf id r.
Proof.
  intros Hok Hs. unfold shown in Hs.
  destruct (visible d (record_path id)) as [f|] eqn:Hf; [|done].
  destruct (shown_file d id f Hok Hf) as (r' & Hd & Hwf & Hs').
  rewrite Hd, from_slice_to_vec in Hs. by simplify_eq.
Qed.

Lemma decode_valid id r :
  record_wf id r → decode_record id (to_vec_pretty r) = Ok (Some r).
Proof.
  intros Hwf. unfold decode_record.
  rewrite header_to_vec, from_slice_to_vec, (wf_version _ _ Hwf). simpl.
  apply validate_record_wf in Hwf. by rewrite Hwf.
Qed.

(** The environment never reports a record file missing that is there. *)
Record env_honest (env : StoreEnv) : Prop := {
  honest_meta : ∀ e, meta_answer env = MetaErr e → kind e ≠ KNotFound;
  honest_read : ∀ e, read_fault env = Some e → kind e ≠ KNotFound
}.

Lemma chmod_same d ino m fault d' r :
  sys_set_permissions d ino m fault = (d', r) → same_contents d d'.
Proof.
  unfold sys_set_permissions. destruct fault; intros [= <- <-]; [done|].
  split; try done. simpl. intros i. destruct (decide (i = ino)) as [->|Hn].
  - rewrite lookup_alter_eq. by destruct (inodes d !! ino).
  - by rewrite lookup_alter_ne.
Qed.

(** Loading leaves every content alone. *)
Lemma load_same env d id d' r : load_unlocked root env d id = (d', r) → same_contents d d'.
Proof.
  unfold load_unlocked. destruct (validate_id _ _); [|by intros [= <- <-]].
  destruct (meta_answer env); destruct (find_file d (record_path id)) as [[ino f]|];
    try by intros [= <- <-].
  destruct (negb _) eqn:Hloose.
  - destruct (sys_set_permissions _ _ _ _) as [d1 c] eqn:Hc. apply chmod_same in Hc.
    destruct c; [destruct (read_fault env)|]; by intros [= <- <-].
  - destruct (read_fault env); by intros [= <- <-].
Qed.

Lemma find_file_visible d name :
  snd <$> find_file d name = visible d name.
Proof.
  unfold find_file, visible. destruct (entries d !! name) as [ino|]; [|done].
  by destruct (inodes d !! ino).
Qed.

(** Loading answers with the record the directory shows. *)
Lemma load_shown env d id d' found :
  store_ok d → env_honest env → load_unlocked root env d id = (d', Ok found) →
  found = shown d id.
Proof.
  intros Hok [Hm Hr]. unfold load_unlocked.
  destruct (validate_id _ _); [|done].
  pose proof (find_file_visible d (record_path id)) as Hff.
  assert (find_file d (record_path id) = None → shown d id = None) as Hnone.
  { intros Hn. unfold shown. by rewrite <- Hff, Hn. }
  destruct (meta_answer env) as [|e|] eqn:Hmeta.
  - destruct (find_file d (record_path id)) as [[ino f]|];
      [|intros [= <- <-]; symmetry; auto].
    simpl in Hff. symmetry in Hff.
    destruct (shown_file d id f Hok Hff) as (r & Hd & Hwf & ->).
    destruct (if negb _ then _ else _) as [d1 [u|e]]; [|by destruct e].
    destruct (read_fault env) as [e|] eqn:Hrf.
    + rewrite decide_False by eauto. done.
    + rewrite Hd, (decode_valid id r Hwf). by intros [= _ <-].
  - rewrite decide_False by eauto. by destruct (find_file d (record_path id)).
  - destruct (find_file d (record_path id)); [done|].
    intros [= <- <-]. symmetry. auto.
Qed.

(** A directory flush forgets older versions and shows the same. *)
Lemma sync_ok d fault d' r :
  store_ok d → sys_sync_dir d fault = (d', r) →
  store_ok d' ∧ (∀ id, shown d' id = shown d id) ∧
  (r = Ok tt → ∀ name, crash_view d' name = [version_view d name (entries d)]).
Proof.
  intros [Hw Hv] Hs. unfold sys_sync_dir in Hs.
  destruct fault; injection Hs as <- <-; [by split_and!|].
  assert (∀ name, crash_view (d <| unsynced := [] |>) name =
                  [version_view d name (entries d)]) as Hcv by done.
  split_and!; [split|done|done].
  - unfold dir_wf in *. rewrite Forall_cons in Hw. apply Forall_singleton, Hw.
  - intros id v. rewrite Hcv. intros ->%list_elem_of_singleton. apply Hv. left.
Qed.

(** The effect of a save: the one record, or nothing. *)
Lemma save_ok env d r d' res :
  store_ok d → env_fresh env d → save_unlocked root env d r = (d', res) →
  store_ok d' ∧ (∀ id, id ≠ rec_id r → shown d' id = shown d id) ∧
  match res with
  | Err _ => shown d' (rec_id r) = shown d (rec_id r)
  | Ok doubt =>
      record_wf (rec_id r) r ∧ shown d' (rec_id r) = Some r ∧
      (doubt = None → crash_view d' (record_path (rec_id r))
                        = [Some (Some (to_vec_pretty r))])
  end.
Proof.
  intros Hok Hfresh. unfold save_unlocked.
  destruct (validate_record (rec_id r) r) as [[]|e] eqn:Hval; [|by intros [= <- <-]].
  apply validate_record_wf in Hval. unfold write.
  pose proof (write_with_mode_cases d (temp_name env) (record_path (rec_id r)) root
    (to_vec_pretty r) 384%Z (write_faults env) (ok_wf _ Hok) Hfresh
    (temp_name_not_record env (rec_id r))) as Hcases.
  destruct (write_with_mode _ _ _ _ _ _) as [[trace d1] w]. intros [= <- <-].
  destruct Hcases as (Hsafe & Hwf & Hres & Hother).
  rewrite Forall_app, Forall_singleton in Hsafe. destruct Hsafe as [_ [Hs1 Hs2]].
  split_and!.
  - split; [done|]. intros id v Hv. destruct (decide (id = rec_id r)) as [->|Hne].
    + apply Hs1 in Hv as [->|Hv]; [by right; eauto|]. by apply (ok_views d).
    + apply (ok_views d Hok). eapply Hs2; [by intros ?%(inj record_path)| |done].
      apply temp_name_not_record.
  - intros id Hne. unfold shown. rewrite Hother; [done| |apply temp_name_not_record].
    by intros ?%(inj record_path).
  - unfold shown. destruct w as [|[|]]; simpl.
    + destruct Hres as [-> Hcv]. simpl. by rewrite from_slice_to_vec.
    + by rewrite Hres.
    + rewrite Hres. simpl. by rewrite from_slice_to_vec.
Qed.

Lemma remove_ok env d id d' res :
  store_ok d → delete_unlocked env d id = (d', res) →
  store_ok d' ∧ (∀ i, i ≠ id → shown d' i = shown d i) ∧
  match res with
  | Err _ => shown d' id = shown d id
  | Ok c => shown d' id = None ∧
            (durability_error c = None → crash_view d' (record_path id) = [None])
  end.
Proof.
  intros Hok. unfold delete_unlocked, sys_remove_file.
  destruct (remove_fault env) as [e|]; [by intros [= <- <-]|].
  destruct (entries d !! record_path id) as [ino|] eqn:Hl; [|by intros [= <- <-]].
  set (d1 := relink d _).
  assert (store_ok d1) as Hok1.
  { destruct Hok as [Hw Hv]. split.
    - unfold dir_wf in *. simpl. constructor; [|done].
      rewrite Forall_cons in Hw. destruct Hw as [Hw _].
      intros n i [_ Hn]%lookup_delete_Some. eauto.
    - intros i v. unfold crash_view. simpl. rewrite elem_of_cons.
      intros [->|Hin]; [|by apply Hv].
      destruct (decide (i = id)) as [->|Hne].
      + left. unfold version_view. by rewrite lookup_delete_eq.
      + apply (Hv i). unfold version_view at 1.
        rewrite lookup_delete_ne by (by intros ?%(inj record_path)). left. }
  assert (shown d1 id = None ∧ ∀ i, i ≠ id → shown d1 i = shown d i) as [Hn Ho].
  { unfold shown, visible. simpl. rewrite lookup_delete_eq. split; [done|].
    intros i Hi. by rewrite lookup_delete_ne by (by intros ?%(inj record_path)). }
  unfold sync_root_unlocked. destruct (sys_sync_dir d1 (sync_fault env)) as [d2 s] eqn:Hs.
  destruct (sync_ok _ _ _ _ Hok1 Hs) as (Hok2 & Hsh & Hcv). intros [= <- <-].
  split_and!; [done|intros; rewrite Hsh; auto|by rewrite Hsh|].
  destruct s as [[]|]; simpl; [|done]. intros _. rewrite Hcv by done.
  unfold version_view. simpl. by rewrite lookup_delete_eq.
Qed.

Lemma with_loaded_inv {A} env d id (k : Dir → option ComputerRecord → Dir * Result A) d' res :
  with_loaded root env d id k = (d', res) →
  (same_contents d d' ∧ ∃ e, res = Err e) ∨
  ∃ d1 found, load_unlocked root env d id = (d1, Ok found) ∧ same_contents d d1 ∧
              k d1 found = (d', res).
Proof.
  unfold with_loaded. destruct (lock env); [|intros [= <- <-]; left; eauto using same_contents_refl].
  destruct (load_unlocked root env d id) as [d1 [found|e]] eqn:Hl.
  - intros Hk. right. eauto 6 using load_same.
  - intros [= <- <-]. left. eauto using load_same.
Qed.

(** What every operation on [id] guarantees: the invariant, and that it
    touches no other id. *)
Definition only_touches (id : string) (d d' : Dir) : Prop :=
  store_ok d' ∧ ∀ i, i ≠ id → shown d' i = shown d i.

Lemma same_only_touches id d d' : store_ok d → same_contents d d' → only_touches id d d'.
Proof. intros. split; eauto using same_contents_ok, same_contents_shown. Qed.

Lemma with_loaded_touches {A} env d id (k : Dir → option ComputerRecord → Dir * Result A) :
  store_ok d →
  (∀ d1 found, same_contents d d1 → load_unlocked root env d id = (d1, Ok found) →
     only_touches id d1 (fst (k d1 found))) →
  only_touches id d (fst (with_loaded root env d id k)).
Proof.
  intros Hok Hk. destruct (with_loaded root env d id k) as [d' res] eqn:Hw.
  apply with_loaded_inv in Hw as [[Hs _]|(d1 & found & Hl & Hs & Hk1)].
  - by apply same_only_touches.
  - specialize (Hk d1 found Hs Hl). rewrite Hk1 in Hk. destruct Hk as [Hok' Ho].
    split; [done|]. intros i Hi. simpl in *. rewrite Ho by done.
    by apply same_contents_shown.
Qed.

Lemma sync_touches id env d :
  store_ok d → only_touches id d (fst (sync_root_unlocked env d)).
Proof.
  intros Hok. unfold sync_root_unlocked.
  destruct (sys_sync_dir d (sync_fault env)) as [d' r] eqn:Hs.
  destruct (sync_ok _ _ _ _ Hok Hs) as (? & ? & _). split; auto.
Qed.

Lemma fresh_same env d d' : same_contents d d' → env_fresh env d → env_fresh env d'.
Proof. intros [He _ _ _]. unfold env_fresh. by rewrite He. Qed.

Lemma save_touches env d r :
  store_ok d → env_fresh env d →
  only_touches (rec_id r) d (fst (save_unlocked root env d r)).
Proof.
  intros Hok Hf. destruct (save_unlocked root env d r) as [d' res] eqn:Hs.
  destruct (save_ok _ _ _ _ _ Hok Hf Hs) as (? & ? & _). by split.
Qed.

Lemma delete_touches env d id :
  store_ok d → only_touches id d (fst (delete_unlocked env d id)).
Proof.
  intros Hok. destruct (delete_unlocked env d id) as [d' res] eqn:Hs.
  destruct (remove_ok _ _ _ _ _ Hok Hs) as (? & ? & _). by split.
Qed.

Lemma load_id env d id d1 r :
  load_unlocked root env d id = (d1, Ok (Some r)) → rec_id r = id.
Proof.
  unfold load_unlocked. destruct (validate_id _ _); [|done].
  destruct (meta_answer env);
    destruct (find_file d (record_path id)) as [[ino f]|]; try (by repeat case_match).
  destruct (if negb _ then _ else _) as [d2 [u|]]; [|done].
  destruct (read_fault env); [by case_decide|]. intros [= _ Hdec].
  unfold decode_record in Hdec. repeat case_match; simplify_eq.
  match goal with H : validate_record _ _ = Ok ?u |- _ => destruct u end.
  by eapply wf_id, validate_record_wf.
Qed.
End store_lemmas.

(** ** The operations as steps *)

Inductive StoreOp :=
| OpReplayProvision (id request_key : string)
| OpProvisionIntent (id request_key : string) (spec : ComputerSpec)
| OpTransition (id : string) (gen : Z) (t : ComputerTransition)
| OpUpdateLifecycle (id : string) (gen : Z) (ttl : option DateTime)
    (idle_timeout_seconds : Z) (on_idle : IdleAction)
| OpAbortProvision (id : string) (gen : Z)
| OpFinishRemove (id : string) (gen : Z)
| OpCancelPending (id : string).

Definition op_id (op : StoreOp) : string :=
  match op with
  | OpReplayProvision id _ | OpProvisionIntent id _ _ | OpTransition id _ _
  | OpUpdateLifecycle id _ _ _ _ | OpAbortProvision id _ | OpFinishRemove id _
  | OpCancelPending id => id
  end.

Definition store_exec `{RecordCodec} (root : Path) (env : StoreEnv) (d : Dir)
    (op : StoreOp) : Dir :=
  match op with
  | OpReplayProvision id key => fst (replay_provision root env d id key)
  | OpProvisionIntent id key spec => fst (provision_intent root env d id key spec)
  | OpTransition id gen t => fst (transition root env d id gen t)
  | OpUpdateLifecycle id gen ttl idle on_idle =>
      fst (update_lifecycle root env d id gen ttl idle on_idle)
  | OpAbortProvision id gen => fst (abort_provision root env d id gen)
  | OpFinishRemove id gen => fst (finish_remove root env d id gen)
  | OpCancelPending id => fst (cancel_pending_or_missing root env d id)
  end.

(** One operation in an environment whose temporary name is new. *)
Definition store_step `{RecordCodec} (root : Path) (d d' : Dir) : Prop :=
  ∃ env op, env_fresh env d ∧ d' = store_exec root env d op.

Section store_steps.
Context `{RecordCodec} (root : Path).

Lemma delete_record_touches env d id gen p :
  store_ok d → only_touches id d (fst (delete_record root env d id gen p)).
Proof.
  intros Hok. apply with_loaded_touches; [done|]. intros d1 found Hs _.
  assert (store_ok d1) as Hok1 by eauto using same_contents_ok.
  destruct found as [r|].
  - do 2 (case_match; [by apply same_only_touches|]). by apply delete_touches.
  - pose proof (sync_touches id env d1 Hok1). unfold confirm_absence_unlocked.
    by destruct (sync_root_unlocked env d1).
Qed.

Lemma replay_touches env d id key : store_ok d → only_touches id d (fst (replay_provision root env d id key)).
Proof.
  intros Hok. unfold replay_provision. destruct (validate_provision_input id key);
    [|by apply same_only_touches].
  apply with_loaded_touches; [done|]. intros d1 [r|] Hs _;
    [|by apply same_only_touches, same_contents_refl; eapply same_contents_ok].
  assert (store_ok d1) as Hok1 by eauto using same_contents_ok.
  pose proof (sync_touches id env d1 Hok1) as Hsync. unfold confirm_root_unlocked.
  destruct (classify_existing_provision r key) as [[]|];
    try destruct (sync_root_unlocked env d1); simpl in *; try done;
    by apply same_only_touches.
Qed.

Lemma provision_touches env d id key spec :
  store_ok d → env_fresh env d → only_touches id d (fst (provision_intent root env d id key spec)).
Proof.
  intros Hok Hf. unfold provision_intent. destruct (validate_provision_input id key);
    [|by apply same_only_touches].
  apply with_loaded_touches; [done|]. intros d1 found Hs _.
  assert (store_ok d1) as Hok1 by eauto using same_contents_ok.
  pose proof (sync_touches id env d1 Hok1) as Hsync. unfold confirm_root_unlocked.
  destruct found as [r|].
  - destruct (classify_existing_provision r key) as [[]|];
      try destruct (sync_root_unlocked env d1); simpl in *; try done;
      by apply same_only_touches.
  - pose proof (save_touches root env d1 (new_record id key spec (clock env) (new_uuid env))
      Hok1 (fresh_same _ _ _ Hs Hf)) as Hsave.
    by destruct (save_unlocked _ _ _ _) as [? [?|?]].
Qed.

Lemma exec_touches env d op :
  store_ok d → env_fresh env d → only_touches (op_id op) d (store_exec root env d op).
Proof.
  intros Hok Hf. destruct op as [id key|id key spec|id gen t|id gen ttl idle oi|id gen|id gen|id];
    simpl.
  - by apply replay_touches.
  - by apply provision_touches.
  - apply with_loaded_touches; [done|]. intros d1 found Hs Hl.
    assert (store_ok d1) as Hok1 by eauto using same_contents_ok.
    destruct found as [r|]; [|by apply same_only_touches].
    destruct (negb _); [by apply same_only_touches|].
    destruct (apply r t (clock env)) as [r'|] eqn:Ha; [|by apply same_only_touches].
    apply load_id in Hl. destruct (apply_inv _ _ _ _ Ha) as (_ & _ & Hid & _).
    pose proof (save_touches root env d1 r' Hok1 (fresh_same _ _ _ Hs Hf)) as Hsave.
    rewrite Hid, Hl in Hsave. by destruct (save_unlocked _ _ _ _) as [? [?|?]].
  - apply with_loaded_touches; [done|]. intros d1 found Hs Hl.
    assert (store_ok d1) as Hok1 by eauto using same_contents_ok.
    destruct found as [r|]; [|by apply same_only_touches].
    destruct (negb _); [by apply same_only_touches|].
    apply load_id in Hl. set (r' := _ <| effective_spec := _ |>).
    pose proof (save_touches root env d1 r' Hok1 (fresh_same _ _ _ Hs Hf)) as Hsave.
    change (rec_id r') with (rec_id r) in Hsave. rewrite Hl in Hsave.
    cbv zeta. by destruct (save_unlocked _ _ _ _) as [? [?|?]].
  - by apply delete_record_touches.
  - by apply delete_record_touches.
  - apply with_loaded_touches; [done|]. intros d1 found Hs _.
    assert (store_ok d1) as Hok1 by eauto using same_contents_ok.
    destruct found as [r|].
    + case_match; [by apply same_only_touches|by apply delete_touches].
    + pose proof (sync_touches id env d1 Hok1). unfold confirm_absence_unlocked.
      by destruct (sync_root_unlocked env d1).
Qed.

(** An environment in which nothing goes wrong. *)
Record env_quiet (env : StoreEnv) : Prop := {
  quiet_lock : poisoned env = false;
  quiet_meta : meta_answer env = MetaOk;
  quiet_chmod : chmod_fault env = None;
  quiet_read : read_fault env = None;
  quiet_write : write_faults env = no_faults;
  quiet_remove : remove_fault env = None;
  quiet_sync : sync_fault env = None
}.

Lemma quiet_honest env : env_quiet env → env_honest env.
Proof. intros []. split; congruence. Qed.

Lemma quiet_load env d id :
  env_quiet env → store_ok d → validate_id "sandbox id" id = Ok tt →
  ∃ d1, load_unlocked root env d id = (d1, Ok (shown d id)) ∧ same_contents d d1.
Proof.
  intros Hq Hok Hid. destruct (load_unlocked root env d id) as [d1 r] eqn:Hl.
  exists d1. split; [|by eapply load_same]. f_equal.
  enough (∃ found, r = Ok found) as [found ->].
  { f_equal. eapply load_shown; eauto using quiet_honest. }
  revert Hl. unfold load_unlocked. rewrite Hid, (quiet_meta _ Hq), (quiet_read _ Hq).
  pose proof (find_file_visible d (record_path id)) as Hff.
  destruct (find_file d (record_path id)) as [[ino f]|]; [|intros [= _ <-]; eauto].
  simpl in Hff. symmetry in Hff.
  destruct (shown_file d id f Hok Hff) as (rec & Hd & Hwf & _).
  unfold sys_set_permissions. rewrite (quiet_chmod _ Hq), Hd, (decode_valid id rec Hwf).
  destruct (negb _); intros [= _ <-]; eauto.
Qed.

Lemma quiet_with_loaded {A} env d id (k : Dir → option ComputerRecord → Dir * Result A) :
  env_quiet env → store_ok d → validate_id "sandbox id" id = Ok tt →
  ∃ d1, same_contents d d1 ∧ with_loaded root env d id k = k d1 (shown d id).
Proof.
  intros Hq Hok Hid. destruct (quiet_load env d id Hq Hok Hid) as (d1 & Hl & Hs).
  exists d1. split; [done|]. unfold with_loaded, lock. by rewrite (quiet_lock _ Hq), Hl.
Qed.

Lemma quiet_save env d r :
  env_quiet env → store_ok d → env_fresh env d → record_wf (rec_id r) r →
  ∃ d', save_unlocked root env d r = (d', Ok None).
Proof.
  intros Hq Hok Hf Hwf. unfold save_unlocked.
  apply validate_record_wf in Hwf. rewrite Hwf, (quiet_write _ Hq).
  unfold write, write_with_mode, file_name. rewrite last_snoc.
  unfold publish, io_bind, call, sys_create_new. simpl. rewrite Hf. simpl.
  unfold sys_rename. simpl. rewrite lookup_insert_eq. eauto.
Qed.

Lemma validate_id_of_shown d id r :
  store_ok d → shown d id = Some r → validate_id "sandbox id" id = Ok tt.
Proof. intros Hok Hs. by eapply wf_id_ok, shown_wf. Qed.

(** The transition, up to its load. *)
Lemma transition_ok env d id gen t d' c :
  store_ok d → env_honest env → env_fresh env d →
  transition root env d id gen t = (d', Ok c) →
  ∃ r, shown d id = Some r ∧ generation r = gen ∧ apply r t (clock env) = Ok (value c) ∧
    shown d' id = Some (value c) ∧
    (durability_error c = None →
     crash_view d' (record_path id) = [Some (Some (to_vec_pretty (value c)))]).
Proof.
  intros Hok Hh Hf Ht. apply with_loaded_inv in Ht as [[_ [e ?]]|(d1 & found & Hl & Hs & Hk)];
    [done|].
  pose proof (load_shown _ _ _ _ _ _ Hok Hh Hl) as ->.
  destruct (shown d id) as [r|] eqn:Hshown; [|done].
  destruct (Z.eqb_spec (generation r) gen) as [Hg|]; simpl in Hk; [|done].
  destruct (apply r t (clock env)) as [r'|] eqn:Ha; [|done].
  destruct (save_unlocked root env d1 r') as [d2 [dur|e]] eqn:Hsave; [|done].
  injection Hk as <- <-. simpl.
  destruct (apply_inv _ _ _ _ Ha) as (_ & _ & Hid & _). apply load_id in Hl.
  destruct (save_ok _ _ _ _ _ _ (same_contents_ok _ _ Hs Hok) (fresh_same _ _ _ Hs Hf) Hsave)
    as (_ & _ & _ & Hsh & Hcv).
  exists r. rewrite Hid, Hl in *. split_and!; done.
Qed.

(** With nothing failing, a legal transition goes through and is confirmed. *)
Lemma quiet_transition env d id gen t r r' :
  env_quiet env → store_ok d → env_fresh env d → shown d id = Some r →
  generation r = gen → apply r t (clock env) = Ok r' →
  ∃ d', transition root env d id gen t = (d', Ok (MkCommit r' None)).
Proof.
  intros Hq Hok Hfresh Hsh Hg Ha. pose proof (shown_wf _ _ _ Hok Hsh) as Hwf.
  unfold transition.
  match goal with |- context [with_loaded root env d id ?k] =>
    destruct (quiet_with_loaded env d id k Hq Hok (wf_id_ok _ _ Hwf)) as (d1 & Hs & ->) end.
  rewrite Hsh, Hg, Z.eqb_refl, Ha. simpl.
  destruct (apply_inv _ _ _ _ Ha) as (_ & _ & Hid & _).
  assert (record_wf (rec_id r') r') as Hwf'.
  { rewrite Hid, (wf_id _ _ Hwf). by eapply apply_keeps_wf. }
  destruct (quiet_save env d1 r' Hq (same_contents_ok _ _ Hs Hok)
    (fresh_same _ _ _ Hs Hfresh) Hwf') as [d2 ->]. eauto.
Qed.

Lemma with_loaded_err {A} env d id (k : Dir → option ComputerRecord → Dir * Result A) d' e :
  store_ok d → env_honest env → with_loaded root env d id k = (d', Err e) →
  (∀ d1, same_contents d d1 → ∀ d2 e2, k d1 (shown d id) = (d2, Err e2) →
     shown d2 id = shown d1 id) →
  shown d' id = shown d id.
Proof.
  intros Hok Hh Hw Hk. apply with_loaded_inv in Hw as [[Hs _]|(d1 & found & Hl & Hs & Hk1)].
  - by apply same_contents_shown.
  - pose proof (load_shown _ _ _ _ _ _ Hok Hh Hl) as ->.
    rewrite (Hk d1 Hs _ _ Hk1). by apply same_contents_shown.
Qed.
End store_steps.

(** ** Temporary names

    No operation that reports success leaves one behind. *)

Definition temp_clean (d : Dir) : Prop :=
  ∀ uuid, entries d !! (".arcbox-" +:+ uuid +:+ ".tmp") = None.

Lemma temp_clean_fresh env d : temp_clean d → env_fresh env d.
Proof. intros Hc. apply Hc. Qed.

Lemma record_path_not_temp id uuid : record_path id ≠ ".arcbox-" +:+ uuid +:+ ".tmp".
Proof.
  apply (temp_name_not_record
    {| poisoned := false; meta_answer := MetaOk; chmod_fault := None; read_fault := None;
       write_faults := no_faults; temp_uuid := uuid; remove_fault := None;
       sync_fault := None; clock := 0%Z; new_uuid := 0%Z |}).
Qed.

Lemma same_clean d d' : same_contents d d' → temp_clean d → temp_clean d'.
Proof. intros [He _ _ _] Hc uuid. rewrite He. apply Hc. Qed.

Section clean.
Context `{RecordCodec} (root : Path).

Lemma save_clean env d r d' dur :
  store_ok d → temp_clean d → save_unlocked root env d r = (d', Ok dur) → temp_clean d'.
Proof.
  intros Hok Hc. unfold save_unlocked. destruct (validate_record _ _); [|done].
  unfold write, write_with_mode, file_name. rewrite last_snoc.
  destruct (publish _ _ _ _ _ _) as [[t d1] res] eqn:Hp.
  apply publish_states in Hp as [(e & -> & -> & _)|[(e & file & -> & -> & _)|(-> & -> & _)]];
    [| | |apply Hc].
  - destruct (sys_remove_file _ _ _) as [d2 c]. by intros [= _ ?].
  - destruct (sys_remove_file _ _ _) as [d2 c]. by intros [= _ ?].
  - unfold sys_sync_dir. intros Hs.
    assert (entries d' = <[record_path (rec_id r) := next d]> (entries d)) as He.
    { destruct (on_sync_dir (write_faults env)); by injection Hs as <- _. }
    intros uuid. rewrite He, lookup_insert_ne by apply record_path_not_temp. apply Hc.
Qed.

Lemma delete_clean env d id d' res :
  temp_clean d → delete_unlocked env d id = (d', res) → temp_clean d'.
Proof.
  intros Hc. unfold delete_unlocked, sys_remove_file.
  destruct (remove_fault env); [by intros [= <- _]|].
  destruct (entries d !! record_path id); [|by intros [= <- _]].
  unfold sync_root_unlocked, sys_sync_dir.
  assert (∀ uuid, delete (record_path id) (entries d) !! (".arcbox-" +:+ uuid +:+ ".tmp")
                  = None) as Hd by (intros uuid; apply lookup_delete_None; auto).
  destruct (sync_fault env); by intros [= <- _].
Qed.

Lemma transition_clean env d id gen t d' c :
  store_ok d → temp_clean d → transition root env d id gen t = (d', Ok c) → temp_clean d'.
Proof.
  intros Hok Hc Ht. apply with_loaded_inv in Ht as [[_ [e ?]]|(d1 & found & Hl & Hs & Hk)];
    [done|].
  assert (store_ok d1) as Hok1 by eauto using same_contents_ok.
  destruct found as [r|]; [|done]. destruct (negb _); [done|].
  destruct (apply r t (clock env)) as [r'|]; [|done].
  destruct (save_unlocked root env d1 r') as [d2 [dur|e]] eqn:Hsave; [|done].
  injection Hk as <- _. eapply save_clean; eauto using same_clean.
Qed.

Lemma delete_record_clean env d id gen p d' res :
  temp_clean d → delete_record root env d id gen p = (d', res) → temp_clean d'.
Proof.
  intros Hc Ht. apply with_loaded_inv in Ht as [[Hs _]|(d1 & found & Hl & Hs & Hk)];
    [by eapply same_clean|].
  pose proof (same_clean _ _ Hs Hc) as Hc1. destruct found as [r|].
  - destruct (negb _); [by injection Hk as <- _|].
    destruct (negb _); [by injection Hk as <- _|]. by eapply delete_clean.
  - unfold confirm_absence_unlocked, sync_root_unlocked, sys_sync_dir in Hk.
    by destruct (sync_fault env); injection Hk as <- _.
Qed.
End clean.

(** ** Properties *)

Definition empty_dir : Dir := MkDir ∅ ∅ [] 0%Z.

Lemma empty_dir_ok `{RecordCodec} : store_ok empty_dir.
Proof.
  split.
  - unfold dir_wf. apply Forall_singleton. intros name ino. simpl. by rewrite lookup_empty.
  - intros id v. unfold crash_view, version_view. simpl. rewrite lookup_empty.
    intros ->%list_elem_of_singleton. by left.
Qed.


(** A transition does what it says. It never touches another id; refused,
    it leaves the record alone; accepted, the id showed a record of that
    generation, what it shows now is that record with the transition applied,
    and a confirmed one is all that can come back after a crash. When nothing
    in the environment fails, a legal transition is accepted and confirmed. *)
Theorem transition_spec `{RecordCodec} (root : Path) (env : StoreEnv) (d : Dir)
    (id : string) (gen : Z) (t : ComputerTransition)
    (Hok : store_ok d) (Hhonest : env_honest env) (Hfresh : env_fresh env d) :
  let (d', res) := transition root env d id gen t in
  (∀ i, i ≠ id → shown d' i = shown d i) ∧
  match res with
  | Err _ => shown d' id = shown d id
  | Ok c =>
      ∃ r, shown d id = Some r ∧ generation r = gen ∧
        apply r t (clock env) = Ok (value c) ∧ shown d' id = Some (value c) ∧
        (durability_error c = None →
         crash_view d' (record_path id) = [Some (Some (to_vec_pretty (value c)))])
  end ∧
  (env_quiet env → ∀ r r', shown d id = Some r → generation r = gen →
     apply r t (clock env) = Ok r' → res = Ok (MkCommit r' None)).
Proof.
  destruct (transition root env d id gen t) as [d' res] eqn:Ht. split_and!.
  - pose proof (exec_touches root env d (OpTransition id gen t) Hok Hfresh) as [_ Ho].
    simpl in Ho. by rewrite Ht in Ho.
  - destruct res as [c|e]; [by eapply transition_ok|].
    eapply with_loaded_err; [done|done|exact Ht|]. intros d1 Hs d2 e2.
    destruct (shown d id) as [r|] eqn:Hsh; [|by intros [= <- _]].
    destruct (negb _); [by intros [= <- _]|].
    destruct (apply r t (clock env)) as [r'|] eqn:Ha; [|by intros [= <- _]].
    destruct (save_unlocked root env d1 r') as [d3 [dur|e3]] eqn:Hsave; [done|].
    intros [= <- _]. destruct (apply_inv _ _ _ _ Ha) as (_ & _ & Hid & _).
    rewrite <- (wf_id _ _ (shown_wf _ _ _ Hok Hsh)), <- Hid.
    by apply (save_ok _ _ _ _ _ _ (same_contents_ok _ _ Hs Hok) (fresh_same _ _ _ Hs Hfresh) Hsave).
  - intros Hq r r' Hsh Hg Ha.
    destruct (quiet_transition root env d id gen t r r') as (d2 & Heq); [done..|].
    rewrite Heq in Ht. by injection Ht as _ <-.
Qed.

(** The generation an operation names. *)
Definition op_gen (op : StoreOp) : option Z :=
  match op with
  | OpTransition _ gen _ | OpUpdateLifecycle _ gen _ _ _ | OpAbortProvision _ gen
  | OpFinishRemove _ gen => Some gen
  | _ => None
  end.

Lemma stale_loaded `{RecordCodec} root {A} env d id gen r
    (k : Dir → option ComputerRecord → Dir * Result A) :
  store_ok d → env_honest env → shown d id = Some r → generation r ≠ gen →
  (∀ d1 x, generation x ≠ gen → fst (k d1 (Some x)) = d1) →
  ∀ i, shown (fst (with_loaded root env d id k)) i = shown d i.
Proof.
  intros Hok Hh Hs Hg Hk i.
  destruct (with_loaded root env d id k) as [d' res] eqn:Hw.
  apply with_loaded_inv in Hw as [[Hsame _]|(d1 & found & Hl & Hsame & Hk1)];
    [by apply same_contents_shown|].
  pose proof (load_shown _ _ _ _ _ _ Hok Hh Hl) as ->. rewrite Hs in Hk1.
  specialize (Hk d1 r Hg). rewrite Hk1 in Hk. simpl in *. subst d'.
  by apply same_contents_shown.
Qed.


(** C3: provisioning is idempotent. On an id with no record it reserves one,
    durably, in phase [Creating]; on an id that has one it never creates or
    changes anything: the same request key resumes the pending intent, replays
    an accepted one or is blocked by one that has moved on, always with the
    record that is there, and another key is refused. *)
Theorem provision_idempotent `{RecordCodec} (root : Path) (env : StoreEnv) (d : Dir)
    (id key : string) (spec : ComputerSpec)
    (Hok : store_ok d) (Hquiet : env_quiet env) (Hfresh : env_fresh env d)
    (Hid : validate_id "sandbox id" id = Ok tt) (Hkey : key ≠ "")
    (Hspec : spec_id spec = Some id) :
  let (d', res) := provision_intent root env d id key spec in
  match shown d id with
  | None =>
      let r := new_record id key spec (clock env) (new_uuid env) in
      res = Ok (Created r) ∧ shown d' id = Some r ∧
      crash_view d' (record_path id) = [Some (Some (to_vec_pretty r))] ∧
      (∀ i, i ≠ id → shown d' i = shown d i)
  | Some r =>
      (∀ i, shown d' i = shown d i) ∧
      res = (if (request_key r =? key)%string
             then Ok (match phase r with
                      | Phase.Creating => Resume r
                      | Phase.Starting | Phase.Ready => Replay r
                      | _ => Blocked r
                      end)
             else Err (CErr.AlreadyExists id))
  end.
Proof.
  pose proof (exec_touches root env d (OpProvisionIntent id key spec) Hok Hfresh) as [_ Ho].
  simpl in Ho. revert Ho. unfold provision_intent, validate_provision_input.
  apply String.eqb_neq in Hkey as Hkey'. rewrite Hid, Hkey'.
  edestruct (quiet_with_loaded (A := ProvisionIntent) root env d id)
    as (d1 & Hs & ->); [done..|].
  assert (store_ok d1) as Hok1 by eauto using same_contents_ok.
  destruct (shown d id) as [r|] eqn:Hsh.
  - unfold classify_existing_provision.
    pose proof (wf_id _ _ (shown_wf _ _ _ Hok Hsh)) as Hrid.
    destruct (String.eqb_spec (request_key r) key) as [Hk|]; simpl;
      [|intros _; rewrite Hrid; split; [intros i; by apply same_contents_shown|done]].
    unfold confirm_root_unlocked, sync_root_unlocked, sys_sync_dir.
    rewrite (quiet_sync _ Hquiet). intros _.
    assert (∀ i, shown (d1 <| unsynced := [] |>) i = shown d i) as Hsync.
    { intros i. rewrite <- (same_contents_shown d d1 i Hs). done. }
    destruct (phase r); (split; [first [exact Hsync|intros i; by apply same_contents_shown]|done]).
  - set (r := new_record id key spec (clock env) (new_uuid env)).
    assert (record_wf (rec_id r) r) as Hwf by (by split).
    destruct (quiet_save root env d1 r Hquiet Hok1 (fresh_same _ _ _ Hs Hfresh) Hwf)
      as [d2 Hsave].
    rewrite Hsave. intros Ho. simpl in Ho.
    destruct (save_ok _ _ _ _ _ _ Hok1 (fresh_same _ _ _ Hs Hfresh) Hsave)
      as (_ & _ & _ & Hsh2 & Hcv). split_and!; auto.
Qed.

(** Dropping a record, on every outcome that reports success. *)
Lemma delete_record_ok `{RecordCodec} (root : Path) (env : StoreEnv) (d d' : Dir)
    (id : string) (gen : Z) (expected : ComputerPhase) (c : DurableCommit unit)
    (Hok : store_ok d) (Hhonest : env_honest env)
    (Hdel : delete_record root env d id gen expected = (d', Ok c)) :
  shown d' id = None ∧
  (∀ r, shown d id = Some r → generation r = gen ∧ phase r = expected) ∧
  (durability_error c = None → crash_view d' (record_path id) = [None]).
Proof.
  apply with_loaded_inv in Hdel as [[_ [e ?]]|(d1 & found & Hl & Hs & Hk)]; [done|].
  pose proof (load_shown _ _ _ _ _ _ Hok Hhonest Hl) as ->.
  assert (store_ok d1) as Hok1 by eauto using same_contents_ok.
  destruct (shown d id) as [r|] eqn:Hsh.
  - destruct (Z.eqb_spec (generation r) gen) as [Hg|]; simpl in Hk; [|done].
    case_bool_decide as Hp; simpl in Hk; [|done].
    destruct (remove_ok _ _ _ _ _ Hok1 Hk) as (_ & _ & Hnone & Hcv).
    split_and!; [done|by intros ? [= <-]|done].
  - unfold confirm_absence_unlocked in Hk.
    destruct (sync_root_unlocked env d1) as [d2 s] eqn:Hsync.
    destruct (sync_ok _ _ _ _ Hok1 Hsync) as (_ & Hsh2 & Hcv). injection Hk as <- <-.
    rewrite Hsh2, (same_contents_shown d d1) by done. split_and!; [done|done|].
    destruct s as [[]|]; simpl; [|done]. intros _. rewrite Hcv by done. f_equal.
    unfold version_view. destruct (entries d1 !! record_path id) as [ino|] eqn:He; [|done].
    pose proof (ok_wf _ Hok1) as [Hw _]%Forall_cons. destruct (Hw _ _ He) as [_ [f Hf]].
    assert (visible d1 (record_path id) = Some f) as Hvis by (unfold visible; by rewrite He).
    destruct (shown_file d1 id f Hok1 Hvis) as (r & _ & _ & Hr).
    by rewrite (same_contents_shown d d1), Hsh in Hr.
Qed.

(** A forgotten id stays forgotten. Dropping a record — an aborted intent
    or the tombstone of a removal — succeeds only on a record of the expected
    generation and phase, or on none; afterwards the id shows no record, and
    once the drop is confirmed no crash can bring one back. *)
Theorem forget_spec `{RecordCodec} (root : Path) (env : StoreEnv) (d d' : Dir)
    (id : string) (gen : Z) (expected : ComputerPhase) (c : DurableCommit unit)
    (Hok : store_ok d) (Hhonest : env_honest env)
    (Hdel : delete_record root env d id gen expected = (d', Ok c)) :
  shown d' id = None ∧
  (∀ r, shown d id = Some r → generation r = gen ∧ phase r = expected) ∧
  (durability_error c = None → crash_view d' (record_path id) = [None]).
Proof. by eapply delete_record_ok. Qed.

(** ** A concrete codec

    Records as numbers, to show that the interface can be met. *)

#[export] Instance ComputerMountSpec_eq : EqDecision ComputerMountSpec.
Proof. solve_decision. Defined.
#[export] Instance TemplateWarmRef_eq : EqDecision TemplateWarmRef.
Proof. solve_decision. Defined.
#[export] Instance ReadyProbeSpec_eq : EqDecision ReadyProbeSpec.
Proof. solve_decision. Defined.
#[export] Instance ComputerSpec_eq : EqDecision ComputerSpec.
Proof. solve_decision. Defined.
#[export] Instance ComputerRecord_eq : EqDecision ComputerRecord.
Proof. solve_decision. Defined.

#[export] Program Instance IdleAction_countable : Countable IdleAction :=
  inj_countable' (λ a, match a with Kill => true | Pause => false end)
    (λ b, if b : bool then Kill else Pause) _.
Next Obligation. by intros []. Qed.

#[export] Program Instance ComputerPhase_countable : Countable ComputerPhase :=
  inj_countable (λ p, match p with
    | Phase.Creating => 0 | Phase.Starting => 1 | Phase.Ready => 2
    | Phase.Stopping => 3 | Phase.Stopped => 4 | Phase.Failed => 5
    | Phase.Removing => 6 | Phase.Pausing => 7 | Phase.Paused => 8
    | Phase.Resuming => 9 end)
    (λ n : nat, [Phase.Creating; Phase.Starting; Phase.Ready; Phase.Stopping;
      Phase.Stopped; Phase.Failed; Phase.Removing; Phase.Pausing; Phase.Paused;
      Phase.Resuming] !! n) _.
Next Obligation. by intros []. Qed.

#[export] Program Instance ComputerProvisionOutcome_countable :
    Countable ComputerProvisionOutcome :=
  inj_countable' ip_address (λ a, {| ip_address := a |}) _.
Next Obligation. by intros []. Qed.

#[export] Program Instance ComputerMountSpec_countable : Countable ComputerMountSpec :=
  inj_countable' (λ m, (mount_source m, mount_target m, mount_readonly m))
    (λ '(a, b, c), {| mount_source := a; mount_target := b; mount_readonly := c |}) _.
Next Obligation. by intros []. Qed.

#[export] Program Instance TemplateWarmRef_countable : Countable TemplateWarmRef :=
  inj_countable' (λ w, (warm_snapshot_id w, warm_vcpus w, warm_memory_mib w))
    (λ '(a, b, c), {| warm_snapshot_id := a; warm_vcpus := b; warm_memory_mib := c |}) _.
Next Obligation. by intros []. Qed.

#[export] Program Instance ReadyProbeSpec_countable : Countable ReadyProbeSpec :=
  inj_countable' (λ p, match p with
    | ProbePort a b => inl (a, b) | ProbeCommand a b => inr (a, b) end)
    (λ s, match s with inl (a, b) => ProbePort a b | inr (a, b) => ProbeCommand a b end) _.
Next Obligation. by intros []. Qed.

#[export] Program Instance ComputerSpec_countable : Countable ComputerSpec :=
  inj_countable' (λ s,
    ((spec_id s, spec_labels s, spec_kernel s, spec_rootfs s, spec_boot_args s,
      spec_vcpus s, spec_memory_mib s, spec_cmd s, spec_env s),
     (spec_working_dir s, spec_user s, spec_mounts s, spec_network_mode s,
      spec_ttl_seconds s),
     (spec_ssh_public_key s, spec_idle_timeout_seconds s, spec_on_idle s,
      spec_template_warm s, spec_ready_probe s)))
    (λ '((a, b, c, d, e, f, g, h, i), (j, k, l, m, n), (o, p, q, r, s)),
     MkComputerSpec a b c d e f g h i j k l m n o p q r s) _.
Next Obligation. by intros []. Qed.

#[export] Program Instance ComputerRecord_countable : Countable ComputerRecord :=
  inj_countable' (λ r,
    ((version r, rec_id r, generation r, request_key r, effective_spec r, phase r),
     (provision_outcome r, created_at r, error r, pause_snapshot_id r, paused_at r,
      ttl_deadline r)))
    (λ '((a, b, c, d, e, f), (g, h, i, j, k, l)),
     MkComputerRecord a b c d e f g h i j k l) _.
Next Obligation. by intros []. Qed.

Definition number_decode (bytes : list Z) : option ComputerRecord :=
  match bytes with [Z.pos p] => decode p | _ => None end.

#[export] Program Instance number_codec : RecordCodec := {|
  to_vec_pretty r := [Z.pos (encode r)];
  header_version bytes := match number_decode bytes with
                          | Some r => Ok (version r) | None => Err "not a record" end;
  from_slice bytes := match number_decode bytes with
                      | Some r => Ok r | None => Err "not a record" end
|}.
Next Obligation. intros r. simpl. by rewrite decode_encode. Qed.
Next Obligation. intros r. simpl. by rewrite decode_encode. Qed.

(** ** Witnesses *)

Definition quiet_env (temp : string) (now uuid : Z) : StoreEnv := {|
  poisoned := false; meta_answer := MetaOk; chmod_fault := None; read_fault := None;
  write_faults := no_faults; temp_uuid := temp; remove_fault := None;
  sync_fault := None; clock := now; new_uuid := uuid |}.

Lemma quiet_env_quiet temp now uuid : env_quiet (quiet_env temp now uuid).
Proof. by split. Qed.

(** The directory after the intent of [ex_new] was written. *)
Definition ex_store : Dir :=
  store_exec ["data"] (quiet_env "1" 5 77) empty_dir
    (OpProvisionIntent "box" "key" ex_spec).


Lemma ex_store_ok : store_ok ex_store.
Proof. by apply exec_touches; [apply empty_dir_ok|]. Qed.

Lemma provision_idempotent_witness :
  snd (provision_intent ["data"] (quiet_env "1" 5 77) empty_dir "box" "key" ex_spec)
    = Ok (Created ex_new).
Proof.
  pose proof (provision_idempotent ["data"] (quiet_env "1" 5 77) empty_dir "box" "key"
    ex_spec empty_dir_ok (quiet_env_quiet _ _ _) eq_refl eq_refl ltac:(discriminate)
    eq_refl) as H.
  destruct (provision_intent _ _ _ _ _ _) as [d' res]. exact (proj1 H).
Defined.

Lemma ex_store_shown : shown ex_store "box" = Some ex_new.
Proof. vm_compute. reflexivity. Qed.

Lemma transition_spec_witness :
  snd (transition ["data"] (quiet_env "2" 6 0) ex_store "box" 77 (Tr.Starting ex_outcome))
    = Ok (MkCommit ex_starting None).
Proof.
  pose proof (transition_spec ["data"] (quiet_env "2" 6 0) ex_store "box" 77
    (Tr.Starting ex_outcome) ex_store_ok
    (quiet_honest _ (quiet_env_quiet _ _ _)) ltac:(vm_compute; reflexivity)) as H.
  destruct (transition _ _ _ _ _ _) as [d' res]. destruct H as (_ & _ & H).
  apply (H (quiet_env_quiet _ _ _) ex_new);
    [exact ex_store_shown|reflexivity|vm_compute; reflexivity].
Defined.


Lemma forget_spec_witness :
  ∃ d', snd (delete_record ["data"] (quiet_env "2" 6 0) ex_store "box" 77 Phase.Creating)
          = Ok (MkCommit tt None) ∧
        fst (delete_record ["data"] (quiet_env "2" 6 0) ex_store "box" 77 Phase.Creating) = d' ∧
        shown d' "box" = None.
Proof.
  destruct (delete_record ["data"] (quiet_env "2" 6 0) ex_store "box" 77 Phase.Creating)
    as [d' res] eqn:Hdel. exists d'.
  assert (res = Ok (MkCommit tt None)) as Hres.
  { change res with (snd (d', res)). rewrite <- Hdel. vm_compute. reflexivity. }
  rewrite Hres in Hdel |- *. split; [reflexivity|]. split; [reflexivity|].
  apply (forget_spec ["data"] (quiet_env "2" 6 0) ex_store d' "box" 77 Phase.Creating
    (MkCommit tt None) ex_store_ok (quiet_honest _ (quiet_env_quiet _ _ _)) Hdel).
Defined.
