(* ===== verification/RecordPort.v ===== *)
(** * What the actor relies on of the record store

    The lifecycle actor calls four operations of [ComputerRecordStore]
    ([src/computer/arcbox-computer-runtime/src/sandbox/record/store.rs]). The
    class [RecordPort] states them with what they promise when nothing fails
    underneath; [store_port] discharges it with the store of [RecordStore], so
    what is proved of an actor against the interface holds of the actor on that
    store. *)

From stdpp Require Import base list gmap strings.
From Stdlib Require Import ZArith Lia.
From S2P Require Import Prelude Types RecordPhase AtomicFile RecordStore.

(** The deadline knobs [update_lifecycle] records. *)
Definition with_lifecycle (r : ComputerRecord) (ttl : option DateTime)
    (idle_timeout_seconds : Z) (on_idle : IdleAction) : ComputerRecord :=
  r <| ttl_deadline := ttl |>
    <| effective_spec := (effective_spec r)
         <| spec_idle_timeout_seconds := idle_timeout_seconds |>
         <| spec_on_idle := on_idle |> |>.

Class RecordPort := {
  Store : Type;
  port_transition : StoreEnv → Store → string → Z → ComputerTransition →
    Store * Result (DurableCommit ComputerRecord);
  port_update_lifecycle : StoreEnv → Store → string → Z → option DateTime → Z →
    IdleAction → Store * Result (DurableCommit unit);
  port_abort_provision : StoreEnv → Store → string → Z →
    Store * Result (DurableCommit unit);
  port_finish_remove : StoreEnv → Store → string → Z →
    Store * Result (DurableCommit unit);
  (** What a store in good order shows under an id. *)
  port_shown : Store → string → option ComputerRecord;
  port_ok : Store → Prop;
  port_wf : ∀ d id r, port_ok d → port_shown d id = Some r → record_wf id r;
  (** A legal write goes through, confirmed, and is what is shown next. *)
  port_transition_law : ∀ env d id gen t r r',
    env_quiet env → port_ok d → port_shown d id = Some r → generation r = gen →
    apply r t (clock env) = Ok r' →
    ∃ d', port_transition env d id gen t = (d', Ok (MkCommit r' None)) ∧
      port_ok d' ∧ port_shown d' id = Some r';
  port_update_law : ∀ env d id gen ttl idle on_idle r,
    env_quiet env → port_ok d → port_shown d id = Some r → generation r = gen →
    ∃ d', port_update_lifecycle env d id gen ttl idle on_idle
            = (d', Ok (MkCommit tt None)) ∧
      port_ok d' ∧ port_shown d' id = Some (with_lifecycle r ttl idle on_idle);
  (** Only an intent is aborted and only a tombstone dropped. *)
  port_abort_law : ∀ env d id gen r,
    env_quiet env → port_ok d → port_shown d id = Some r → generation r = gen →
    phase r = Phase.Creating →
    ∃ d', port_abort_provision env d id gen = (d', Ok (MkCommit tt None)) ∧
      port_ok d' ∧ port_shown d' id = None;
  port_finish_law : ∀ env d id gen r,
    env_quiet env → port_ok d → port_shown d id = Some r → generation r = gen →
    phase r = Phase.Removing →
    ∃ d', port_finish_remove env d id gen = (d', Ok (MkCommit tt None)) ∧
      port_ok d' ∧ port_shown d' id = None
}.

(** ** The store discharges it *)

Section instance.
Context `{RecordCodec} (root : Path).

(** The invariant, and no temporary file left over. *)
Definition store_good (d : Dir) : Prop := store_ok d ∧ temp_clean d.

Lemma quiet_transition_good env d id gen t r r' :
  env_quiet env → store_good d → shown d id = Some r → generation r = gen →
  apply r t (clock env) = Ok r' →
  ∃ d', transition root env d id gen t = (d', Ok (MkCommit r' None)) ∧
    store_good d' ∧ shown d' id = Some r'.
Proof.
  intros Hq [Hok Hc] Hs Hg Ha. pose proof (temp_clean_fresh env d Hc) as Hf.
  destruct (quiet_transition root env d id gen t r r') as [d' Ht]; [done..|].
  exists d'. split; [done|].
  pose proof (exec_touches root env d (OpTransition id gen t) Hok Hf) as [Hok' _].
  simpl in Hok'. rewrite Ht in Hok'.
  destruct (transition_ok root _ _ _ _ _ _ _ Hok (quiet_honest _ Hq) Hf Ht)
    as (_ & _ & _ & _ & Hs' & _).
  split; [split; [done|]|done]. eapply transition_clean; [exact Hok|exact Hc|exact Ht].
Qed.

Lemma with_lifecycle_wf id r ttl idle on_idle :
  record_wf id r → record_wf id (with_lifecycle r ttl idle on_idle).
Proof. by intros []. Qed.

Lemma quiet_update_good env d id gen ttl idle on_idle r :
  env_quiet env → store_good d → shown d id = Some r → generation r = gen →
  ∃ d', update_lifecycle root env d id gen ttl idle on_idle
          = (d', Ok (MkCommit tt None)) ∧
    store_good d' ∧ shown d' id = Some (with_lifecycle r ttl idle on_idle).
Proof.
  intros Hq [Hok Hc] Hs Hg. pose proof (shown_wf _ _ _ Hok Hs) as Hwf.
  unfold update_lifecycle.
  match goal with |- context [with_loaded root env d id ?k] =>
    destruct (quiet_with_loaded root env d id k Hq Hok (wf_id_ok _ _ Hwf))
      as (d1 & Hs1 & ->) end.
  rewrite Hs, Hg, Z.eqb_refl. simpl. fold (with_lifecycle r ttl idle on_idle).
  pose proof (same_contents_ok _ _ Hs1 Hok) as Hok1.
  pose proof (same_clean _ _ Hs1 Hc) as Hc1.
  pose proof (with_lifecycle_wf id r ttl idle on_idle Hwf) as Hwf'.
  assert (rec_id (with_lifecycle r ttl idle on_idle) = id) as Hid by apply Hwf'.
  destruct (quiet_save root env d1 (with_lifecycle r ttl idle on_idle) Hq Hok1
    (temp_clean_fresh env d1 Hc1)) as [d2 Hsave]; [by rewrite Hid|].
  rewrite Hsave. exists d2. split; [done|].
  destruct (save_ok _ _ _ _ _ _ Hok1 (temp_clean_fresh env d1 Hc1) Hsave)
    as (Hok2 & _ & _ & Hs2 & _). rewrite Hid in Hs2.
  split; [split; [done|]|done]. eapply save_clean; [exact Hok1|exact Hc1|exact Hsave].
Qed.

Lemma quiet_delete_good env d id gen p r :
  env_quiet env → store_good d → shown d id = Some r → generation r = gen →
  phase r = p →
  ∃ d', delete_record root env d id gen p = (d', Ok (MkCommit tt None)) ∧
    store_good d' ∧ shown d' id = None.
Proof.
  intros Hq [Hok Hc] Hs Hg Hp.
  assert (∃ d', delete_record root env d id gen p = (d', Ok (MkCommit tt None)))
    as [d' Hd].
  { unfold delete_record.
    match goal with |- context [with_loaded root env d id ?k] =>
      destruct (quiet_with_loaded root env d id k Hq Hok
        (validate_id_of_shown _ _ _ Hok Hs)) as (d1 & Hs1 & ->) end.
    rewrite Hs, Hg, Z.eqb_refl, bool_decide_true by done. simpl.
    unfold delete_unlocked, sys_remove_file. rewrite (quiet_remove _ Hq).
    assert (is_Some (entries d1 !! record_path id)) as [ino ->].
    { rewrite (same_entries _ _ Hs1). unfold shown, visible in Hs.
      destruct (entries d !! record_path id); [by eexists|done]. }
    unfold sync_root_unlocked, sys_sync_dir. rewrite (quiet_sync _ Hq). eauto. }
  exists d'. split; [done|].
  destruct (delete_record_ok root env d d' id gen p _ Hok (quiet_honest _ Hq) Hd)
    as (Hs' & _). split; [|done]. split.
  - pose proof (delete_record_touches root env d id gen p Hok) as [? _]. by rewrite Hd in *.
  - eapply delete_record_clean; [exact Hc|exact Hd].
Qed.

#[export] Instance store_port : RecordPort := {|
  Store := Dir;
  port_transition := transition root;
  port_update_lifecycle := update_lifecycle root;
  port_abort_provision := abort_provision root;
  port_finish_remove := finish_remove root;
  port_shown := shown;
  port_ok := store_good;
  port_wf d id r Hok := shown_wf d id r (proj1 Hok);
  port_transition_law := quiet_transition_good;
  port_update_law := quiet_update_good;
  port_abort_law env d id gen := quiet_delete_good env d id gen Phase.Creating;
  port_finish_law env d id gen := quiet_delete_good env d id gen Phase.Removing
|}.
End instance.
