(* ===== verification/Runtime.v ===== *)
(** * A computer's runtime state

    [src/computer/arcbox-computer-runtime/src/lifecycle/runtime.rs]: what an
    actor and its sub-tasks share about one computer. The driver's and the
    network's handles are opaque types of the interface [Resources]; the
    copy-on-write handle is
    [src/engine/arcbox-snapshot/src/snapshot_cow.rs]'s. *)

From stdpp Require Import base list gmap strings.
From Stdlib Require Import ZArith.
From S2P Require Import Prelude Types RecordPhase AtomicFile.

(** The types of what a computer holds from the driver and the network. *)
Class Resources := {
  PreparedVm : Type;
  VmHandle : Type;
  NetworkLease : Type;
  NetworkIdentity : Type
}.

Record CowHandle := MkCowHandle {
  dm_name : string;
  dm_device : string;
  cow_loop : string;
  cow_file : Path;
  template_path : Path
}.

Record ComputerRuntime `{Resources} := MkRuntime {
  rt_id : ComputerId;
  record_generation : option Z;
  rt_labels : gmap string string;
  rt_spec : ComputerSpec;
  rt_state : ComputerState;
  prepared : option PreparedVm;
  rt_handle : option VmHandle;
  network : option NetworkLease;
  net_identity : option NetworkIdentity;
  vm_dir : Path;
  rt_created_at : DateTime;
  ready_at : option DateTime;
  last_exited_at : option DateTime;
  last_exit_status : option ExitStatus;
  rt_error : option string;
  cow_handle : option CowHandle;
  pool_slot_id : option string;
  net_invariant : bool;
  rt_paused_at : option DateTime;
  rt_pause_snapshot_id : option string;
  rt_ttl_deadline : option DateTime
}.

#[export] Instance eta_ComputerRuntime `{Resources} : Eta ComputerRuntime := {|
  eta r := MkRuntime _ (rt_id r) (record_generation r) (rt_labels r) (rt_spec r)
    (rt_state r) (prepared r) (rt_handle r) (network r) (net_identity r)
    (vm_dir r) (rt_created_at r) (ready_at r) (last_exited_at r)
    (last_exit_status r) (rt_error r) (cow_handle r) (pool_slot_id r)
    (net_invariant r) (rt_paused_at r) (rt_pause_snapshot_id r)
    (rt_ttl_deadline r);
  eta_ok := ltac:(by intros [])
|}.

(** [new_inner], which [new] and [new_with_generation] share. *)
Definition new_inner `{Resources} (id : ComputerId) (spec : ComputerSpec)
    (net : option NetworkLease) (dir : Path) (gen : option Z) (now : DateTime)
    : ComputerRuntime :=
  MkRuntime _ id gen (spec_labels spec) spec CState.Starting None None net None
    dir now None None None None None None false None None None.

Definition new_runtime `{Resources} (id : ComputerId) (spec : ComputerSpec)
    (net : option NetworkLease) (dir : Path) (now : DateTime) : ComputerRuntime :=
  new_inner id spec net dir None now.

Definition new_with_generation `{Resources} (id : ComputerId) (spec : ComputerSpec)
    (net : option NetworkLease) (dir : Path) (gen : Z) (now : DateTime)
    : ComputerRuntime :=
  new_inner id spec net dir (Some gen) now.
