(* ===== verification/Recovery.v ===== *)
(** * Startup recovery

    [src/computer/arcbox-computer-runtime/src/sandbox/record/store.rs],
    [load_all], and [src/computer/arcbox-computer-runtime/src/sandbox/reconcile.rs],
    [normalize_durable_records] with the helpers that rebuild a computer from
    its record: what a restart makes of the records the previous process left,
    given what the orphan sweep established. *)

From stdpp Require Import base list gmap strings relations.
From Stdlib Require Import Ascii ZArith Lia.
From S2P Require Import Prelude Types RecordPhase Lifecycle Policy AtomicFile RecordStore Runtime.

(** ** [load_all] *)

(** The text before and after the last dot. *)
Fixpoint rsplit_dot (s : string) : option (string * string) :=
  match s with
  | EmptyString => None
  | String a s =>
      match rsplit_dot s with
      | Some (before, after) => Some (String a before, after)
      | None => if Ascii.eqb a "."%char then Some (EmptyString, s) else None
      end
  end.

(** [Path::file_stem] and [Path::extension] of a file name. *)
Definition split_name (name : string) : string * option string :=
  match rsplit_dot name with
  | Some (EmptyString, _) | None => (name, None)
  | Some (before, after) => (before, Some after)
  end.

Fixpoint insert_name (x : string) (l : list string) : list string :=
  match l with
  | [] => [x]
  | y :: l' => if String.leb x y then x :: l else y :: insert_name x l'
  end.

(** [paths.sort()] on the names of one directory. *)
Definition sort_names (l : list string) : list string := foldr insert_name [] l.

Section load_all.
  Context `{RecordCodec} (root : Path) (envs : string → StoreEnv).

(** One path of the listing: it must be a regular file and still hold its
    record. *)
Definition load_path (d : Dir) (name : string) : Dir * Result ComputerRecord :=
  match meta_answer (envs name), entries d !! name with
  | MetaErr e, _ => (d, io e)
  | _, None => (d, io not_found)
  | MetaNotRegular, Some _ =>
      (d, Err (CErr.Config ("sandbox record is not a regular file: "
                              +:+ path_display root name)))
  | MetaOk, Some _ =>
      match load_unlocked root (envs name) d (fst (split_name name)) with
      | (d, Err e) => (d, Err e)
      | (d, Ok (Some record)) => (d, Ok record)
      | (d, Ok None) =>
          (d, Err (CErr.Other ("sandbox record disappeared while loading: "
                                 +:+ path_display root name)))
      end
  end.

Fixpoint load_paths (d : Dir) (names : list string)
    : Dir * Result (list ComputerRecord) :=
  match names with
  | [] => (d, Ok [])
  | name :: names =>
      match load_path d name with
      | (d, Err e) => (d, Err e)
      | (d, Ok record) =>
          match load_paths d names with
          | (d, Err e) => (d, Err e)
          | (d, Ok records) => (d, Ok (record :: records))
          end
      end
  end.

Definition json_names (d : Dir) : list string :=
  filter (λ name, snd (split_name name) = Some "json")
    (sort_names (fst <$> map_to_list (entries d))).

(** [env] answers the lock and the listing itself. *)
Definition load_all (env : StoreEnv) (on_read_dir : option IoError) (d : Dir)
    : Dir * Result (list ComputerRecord) :=
  match lock env, on_read_dir with
  | Err e, _ => (d, Err e)
  | Ok _, Some e => (d, io e)
  | Ok _, None => load_paths d (json_names d)
  end.

End load_all.

(** ** Rebuilding a computer *)

Inductive Seeded := Fresh | Recovered (phase : PersistPhase) | Adopted.

(** The event [ComputerActor::new] seeds its machine with. *)
Definition seeded_event (s : Seeded) : option Event :=
  match s with
  | Fresh => None
  | Recovered phase => Some (Ev.Recovered phase)
  | Adopted => Some Ev.Adopted
  end.

Definition AGENT_RESTART_ERROR : string :=
  "sandbox runtime was cleaned after agent restart".

Section normalize.
  Context `{Resources} `{RecordCodec}.

Record AdoptedComputer := {
  ad_handle : VmHandle;
  ad_lease : option NetworkLease;
  ad_identity : option NetworkIdentity;
  ad_cow_handle : option CowHandle;
  ad_pool_slot_id : option string;
  ad_net_invariant : bool
}.

Record SweptRuntime := MkSwept {
  swept : gset string;
  adopted : gmap string AdoptedComputer;
  skipped : gset string
}.

Record RecoveredComputer := MkRecovered {
  runtime : ComputerRuntime;
  seeded : Seeded
}.

Definition reinstated (rt : ComputerRuntime) : RecoveredComputer :=
  MkRecovered rt (Recovered (phase_of (rt_state rt))).

Definition inactive_instance (record : ComputerRecord) (state : ComputerState)
    (data_dir : Path) (now : DateTime) : ComputerRuntime :=
  let i := new_with_generation (rec_id record) (effective_spec record) None
             (data_dir ++ ["sandboxes"; rec_id record]) (generation record) now in
  let i := i <| rt_state := state |> <| rt_created_at := created_at record |>
             <| rt_error := error record |> <| rt_ttl_deadline := ttl_deadline record |> in
  if decide (state = CState.Paused)
  then i <| rt_pause_snapshot_id := pause_snapshot_id record |>
         <| rt_paused_at := paused_at record |>
  else i.

Definition adopted_instance (record : ComputerRecord) (state : ComputerState)
    (data_dir : Path) (now : DateTime) (a : AdoptedComputer) : ComputerRuntime :=
  (inactive_instance record state data_dir now)
    <| rt_handle := Some (ad_handle a) |> <| network := ad_lease a |>
    <| net_identity := ad_identity a |> <| cow_handle := ad_cow_handle a |>
    <| pool_slot_id := ad_pool_slot_id a |> <| net_invariant := ad_net_invariant a |>.

(** What the sweep knows of one record's resources. *)
Definition evidence_for (sweep : option SweptRuntime) (ad : gmap string AdoptedComputer)
    (id : string) : JournalEvidence :=
  match sweep with
  | None => Evidence.Unchecked
  | Some s =>
      if bool_decide (is_Some (ad !! id)) then Evidence.Adopted
      else if bool_decide (id ∈ swept s) then Evidence.Swept
      else if bool_decide (id ∈ skipped s) then Evidence.Unchecked
      else Evidence.Unjournaled
  end.

(** What the loop threads: the store, the reclaimed computers nobody has taken
    yet, the computers built. *)
Record NormState := MkNorm {
  n_dir : Dir;
  n_adopted : gmap string AdoptedComputer;
  n_built : list RecoveredComputer
}.

Section loop.
  Context (root : Path) (data_dir : Path) (sweep : option SweptRuntime).
  Context (envs : string → StoreEnv).

Definition normalize_one (st : NormState) (record : ComputerRecord)
    : NormState * Result unit :=
  let env := envs (rec_id record) in
  let id := rec_id record in
  match plan (phase record) (evidence_for sweep (n_adopted st) id) with
  | LeaveResumable => (st, Ok tt)
  | RefuseUnjournaled =>
      (st, Err (CErr.Unavailable ("sandbox " +:+ id +:+ " is "
             +:+ as_str (phase record) +:+ " but has no cleanup journal")))
  | RefuseAdopted =>
      (st, Err (CErr.Unavailable ("sandbox " +:+ id +:+ " is "
             +:+ as_str (phase record) +:+ ", a phase the startup sweep must not adopt")))
  | Fail =>
      let (d, res) := transition root env (n_dir st) id (generation record)
                        (Tr.Failed AGENT_RESTART_ERROR) in
      match (let? c := res in confirmed c "sandbox restart normalization") with
      | Err e => (MkNorm d (n_adopted st) (n_built st), Err e)
      | Ok record =>
          (MkNorm d (n_adopted st)
             (n_built st ++ [reinstated (inactive_instance record CState.Failed
                                           data_dir (clock env))]), Ok tt)
      end
  | Reinstate state =>
      match n_adopted st !! id with
      | Some reclaimed =>
          (MkNorm (n_dir st) (delete id (n_adopted st))
             (n_built st ++ [MkRecovered
                (adopted_instance record state data_dir (clock env) reclaimed) Adopted]),
           Ok tt)
      | None =>
          (MkNorm (n_dir st) (n_adopted st)
             (n_built st ++ [reinstated (inactive_instance record state data_dir
                                           (clock env))]), Ok tt)
      end
  | FinishRemove =>
      let (d, res) := finish_remove root env (n_dir st) id (generation record) in
      (MkNorm d (n_adopted st) (n_built st),
       let? c := res in confirmed c "sandbox removal recovery")
  end.

Fixpoint normalize_records (st : NormState) (records : list ComputerRecord)
    : NormState * Result unit :=
  match records with
  | [] => (st, Ok tt)
  | record :: records =>
      match normalize_one st record with
      | (st, Err e) => (st, Err e)
      | (st, Ok _) => normalize_records st records
      end
  end.

(** With [None] for the sweep nothing was adopted. *)
Definition normalize_durable_records (env : StoreEnv) (on_read_dir : option IoError)
    (d : Dir) : NormState * Result unit :=
  let ad := match sweep with Some s => adopted s | None => ∅ end in
  match load_all root envs env on_read_dir d with
  | (d, Err e) => (MkNorm d ad [], Err e)
  | (d, Ok records) => normalize_records (MkNorm d ad []) records
  end.

End loop.
End normalize.

(** ** Loading everything *)

Lemma rsplit_dot_record id : rsplit_dot (record_path id) = Some (id, "json").
Proof.
  unfold record_path. induction id as [|a id IH]; [done|].
  rewrite string_app_cons. simpl. by rewrite IH.
Qed.

Lemma split_record_path id : id ≠ "" → split_name (record_path id) = (id, Some "json").
Proof. intros Hne. unfold split_name. rewrite rsplit_dot_record. by destruct id. Qed.

Lemma insert_name_perm x l : insert_name x l ≡ₚ x :: l.
Proof.
  induction l as [|y l IH]; simpl; [done|]. case_match; [done|].
  rewrite IH. apply Permutation_swap.
Qed.

Lemma sort_names_perm l : sort_names l ≡ₚ l.
Proof.
  unfold sort_names. induction l as [|x l IH]; simpl; [done|].
  by rewrite insert_name_perm, IH.
Qed.

Lemma validate_id_nonempty kind id : validate_id kind id = Ok tt → id ≠ "".
Proof. by intros H ->. Qed.

Section load_all_lemmas.
Context `{RecordCodec} (root : Path) (envs : string → StoreEnv).
Context (Hquiet : ∀ name, env_quiet (envs name)).

(** Only record files carry the extension. *)
Definition only_records (d : Dir) : Prop :=
  ∀ name, is_Some (entries d !! name) → snd (split_name name) = Some "json" →
    ∃ id, name = record_path id ∧ validate_id "sandbox id" id = Ok tt.

Lemma shown_entry d id :
  store_ok d → is_Some (shown d id) ↔ is_Some (entries d !! record_path id).
Proof.
  intros Hok. split.
  - unfold shown, visible. destruct (entries d !! record_path id); [by eexists|].
    by intros [].
  - intros [ino He]. pose proof (ok_wf _ Hok) as [Hw _]%Forall_cons.
    destruct (Hw _ _ He) as [_ [f Hf]].
    assert (visible d (record_path id) = Some f) as Hv by (unfold visible; by rewrite He).
    destruct (shown_file d id f Hok Hv) as (r & _ & _ & ->). by eexists.
Qed.

Lemma load_path_ok d id :
  store_ok d → validate_id "sandbox id" id = Ok tt →
  is_Some (entries d !! record_path id) →
  ∃ d1 r, load_path root envs d (record_path id) = (d1, Ok r) ∧ same_contents d d1 ∧
          shown d id = Some r ∧ rec_id r = id.
Proof.
  intros Hok Hid [ino He]. unfold load_path.
  rewrite (quiet_meta _ (Hquiet _)), He, split_record_path by (by eapply validate_id_nonempty).
  simpl. destruct (quiet_load root (envs (record_path id)) d id) as (d1 & -> & Hs); [done..|].
  assert (is_Some (shown d id)) as [r Hr] by (apply shown_entry; [done|by eexists]).
  rewrite Hr. exists d1, r. split_and!; [done..|]. by eapply wf_id, shown_wf.
Qed.

Lemma load_paths_ok d names :
  store_ok d →
  Forall (λ name, ∃ id, name = record_path id ∧ validate_id "sandbox id" id = Ok tt ∧
                        is_Some (entries d !! name)) names →
  ∃ d1 rs, load_paths root envs d names = (d1, Ok rs) ∧ same_contents d d1 ∧
    names = record_path ∘ rec_id <$> rs ∧ Forall (λ r, shown d (rec_id r) = Some r) rs.
Proof.
  revert d. induction names as [|name names IH]; intros d Hok Hall; simpl.
  { exists d, []. split_and!; eauto using same_contents_refl. }
  apply Forall_cons in Hall as [(id & -> & Hid & Hin) Hall].
  destruct (load_path_ok d id Hok Hid Hin) as (d1 & r & -> & Hs & Hr & <-).
  destruct (IH d1) as (d2 & rs & -> & Hs2 & -> & Hrs).
  { eauto using same_contents_ok. }
  { by rewrite (same_entries _ _ Hs). }
  exists d2, (r :: rs). split_and!; [done|by eapply same_contents_trans|done|].
  constructor; [done|]. eapply Forall_impl; [exact Hrs|].
  intros x Hx. by rewrite <- (same_contents_shown d d1).
Qed.

(** On a good store the listing answers with every record, once. *)
Lemma load_all_ok env d :
  env_quiet env → store_ok d → only_records d →
  ∃ d1 rs, load_all root envs env None d = (d1, Ok rs) ∧ same_contents d d1 ∧
    NoDup (rec_id <$> rs) ∧ (∀ r, r ∈ rs ↔ shown d (rec_id r) = Some r).
Proof.
  intros Hq Hok Honly. unfold load_all, lock. rewrite (quiet_lock _ Hq).
  set (names := fst <$> map_to_list (entries d)).
  assert (∀ name, name ∈ names ↔ is_Some (entries d !! name)) as Hnames.
  { intros name. subst names. rewrite list_elem_of_fmap. split.
    - intros ([k v] & -> & Hkv%elem_of_map_to_list). by eexists.
    - intros [v Hv]. exists (name, v). split; [done|]. by apply elem_of_map_to_list. }
  assert (∀ name, name ∈ json_names d ↔
            is_Some (entries d !! name) ∧ snd (split_name name) = Some "json") as Hjson.
  { intros name. unfold json_names. rewrite list_elem_of_filter, sort_names_perm.
    fold names. rewrite Hnames. naive_solver. }
  destruct (load_paths_ok d (json_names d) Hok) as (d1 & rs & -> & Hs & Hn & Hrs).
  { apply Forall_forall. intros name [Hin Hext]%Hjson.
    destruct (Honly name Hin Hext) as (id & -> & ?). eauto. }
  exists d1, rs. split_and!; [done|done| |].
  - assert (NoDup (json_names d)) as Hnd.
    { unfold json_names. apply NoDup_filter. rewrite sort_names_perm.
      apply NoDup_fst_map_to_list. }
    rewrite Hn in Hnd. rewrite list_fmap_compose in Hnd. by eapply NoDup_fmap_1.
  - rewrite Forall_forall in Hrs. intros r. split; [by apply Hrs|]. intros Hr.
    assert (record_path (rec_id r) ∈ json_names d) as Hin.
    { apply Hjson. split; [apply shown_entry; [done|by eexists]|].
      rewrite split_record_path; [done|].
      by eapply validate_id_nonempty, wf_id_ok, shown_wf. }
    rewrite Hn in Hin. apply list_elem_of_fmap in Hin as (r' & Heq & Hr').
    simpl in Heq. apply record_path_inj in Heq.
    specialize (Hrs r' Hr'). rewrite <- Heq, Hr in Hrs. by injection Hrs as ->.
Qed.
End load_all_lemmas.

(** ** Normalisation *)

Section normalize_lemmas.
Context `{Resources} `{RecordCodec}.
Context (root data_dir : Path) (sweep : option SweptRuntime).
Context (envs : string → StoreEnv) (Hhonest : ∀ id, env_honest (envs id)).

(** A rebuilt computer agrees with the record left for its id: the machine it
    seeds sits, without effects, in a state that projects to the record's
    phase and to the public state its runtime carries. *)
Definition built_ok (d : Dir) (id : string) (c : RecoveredComputer) : Prop :=
  rt_id (runtime c) = id ∧
  ∃ e r, seeded_event (seeded c) = Some e ∧ shown d id = Some r ∧
    record_generation (runtime c) = Some (generation r) ∧
    snd (handle initial e) = [] ∧
    durable (fst (handle initial e)) = Some (phase r) ∧
    to_public (fst (handle initial e)) = rt_state (runtime c).

(** What one turn of the loop guarantees. *)
Record turn_ok (st : NormState) (r : ComputerRecord) (st' : NormState) : Prop := {
  turn_store : store_ok (n_dir st') ∧ temp_clean (n_dir st');
  turn_other : ∀ id, id ≠ rec_id r →
    shown (n_dir st') id = shown (n_dir st) id ∧ n_adopted st' !! id = n_adopted st !! id;
  turn_verdict : Some (phase <$> shown (n_dir st') (rec_id r)) =
    verdict_phase (phase r) (plan (phase r) (evidence_for sweep (n_adopted st) (rec_id r)));
  turn_built : ∃ new, n_built st' = n_built st ++ new ∧
    Forall (built_ok (n_dir st') (rec_id r)) new ∧
    (∀ a, n_adopted st !! rec_id r = Some a →
       ∃ c, c ∈ new ∧ rt_handle (runtime c) = Some (ad_handle a)) ∧
    n_adopted st' !! rec_id r = None
}.

Lemma inactive_fields r s now :
  let i := inactive_instance r s data_dir now in
  rt_id i = rec_id r ∧ rt_state i = s ∧ record_generation i = Some (generation r).
Proof. unfold inactive_instance. by case_decide. Qed.

Lemma adopted_fields r s now a :
  let i := adopted_instance r s data_dir now a in
  rt_id i = rec_id r ∧ rt_state i = s ∧ record_generation i = Some (generation r) ∧
  rt_handle i = Some (ad_handle a).
Proof. unfold adopted_instance, inactive_instance. by case_decide. Qed.

Lemma not_adopted_None st id :
  (sweep = None → n_adopted st = ∅) →
  evidence_for sweep (n_adopted st) id ≠ Evidence.Adopted → n_adopted st !! id = None.
Proof.
  unfold evidence_for. destruct sweep as [s|]; [|by intros ->].
  intros _. case_bool_decide as Hs; [done|]. intros _. by apply eq_None_not_Some.
Qed.

Lemma normalize_fail st r st' :
  store_ok (n_dir st) → temp_clean (n_dir st) → (sweep = None → n_adopted st = ∅) →
  shown (n_dir st) (rec_id r) = Some r →
  plan (phase r) (evidence_for sweep (n_adopted st) (rec_id r)) = Fail →
  normalize_one root data_dir sweep envs st r = (st', Ok tt) → turn_ok st r st'.
Proof.
  intros Hok Hc Hsw Hsh Hplan. unfold normalize_one. rewrite Hplan.
  destruct (transition _ _ _ _ _ _) as [d [c|e]] eqn:Ht; [|done].
  simpl. destruct (confirmed c _) as [r'|e] eqn:Hconf; [|done]. intros [= <-].
  assert (value c = r') as <-.
  { unfold confirmed in Hconf. destruct (durability_error c); congruence. }
  pose proof (exec_touches root (envs (rec_id r)) (n_dir st)
    (OpTransition (rec_id r) (generation r) (Tr.Failed AGENT_RESTART_ERROR)) Hok
    (temp_clean_fresh _ _ Hc)) as [Hok' Ho]. simpl in Hok', Ho. rewrite Ht in Hok', Ho.
  destruct (transition_ok root _ _ _ _ _ _ _ Hok (Hhonest _) (temp_clean_fresh _ _ Hc) Ht)
    as (r0 & Hr0 & Hg & Ha & Hsh' & _).
  rewrite Hsh in Hr0. injection Hr0 as <-.
  destruct (apply_inv _ _ _ _ Ha) as (Hp & _ & Hid & Hg' & _).
  assert (n_adopted st !! rec_id r = None) as Hna.
  { apply not_adopted_None; [done|]. intros He. rewrite He in Hplan.
    by destruct (phase r). }
  destruct (inactive_fields (value c) CState.Failed (clock (envs (rec_id r))))
    as (Hi1 & Hi2 & Hi3).
  split; simpl.
  - split; [done|]. eapply transition_clean; [exact Hok|exact Hc|exact Ht].
  - intros id Hne. split; [by apply Ho|done].
  - by rewrite Hsh', Hplan; simpl; rewrite Hp.
  - eexists. split; [done|]. split_and!; [|by rewrite Hna|done].
    apply Forall_singleton. unfold reinstated, built_ok; simpl.
    rewrite ?Hi1, ?Hi2, ?Hi3, Hid. split; [done|].
    exists (Ev.Recovered Phase.Failed), (value c). split_and!; try done.
    simpl. by rewrite Hp.
Qed.

Lemma normalize_reinstate st r st' s :
  store_ok (n_dir st) → temp_clean (n_dir st) → (sweep = None → n_adopted st = ∅) →
  shown (n_dir st) (rec_id r) = Some r →
  plan (phase r) (evidence_for sweep (n_adopted st) (rec_id r)) = Reinstate s →
  normalize_one root data_dir sweep envs st r = (st', Ok tt) → turn_ok st r st'.
Proof.
  intros Hok Hc Hsw Hsh Hplan. unfold normalize_one. rewrite Hplan.
  destruct (n_adopted st !! rec_id r) as [a|] eqn:Had; intros [= <-].
  - assert (evidence_for sweep (n_adopted st) (rec_id r) = Evidence.Adopted) as He.
    { unfold evidence_for. destruct sweep as [sw|]; [|by rewrite Hsw in Had].
      by rewrite bool_decide_true by (by rewrite Had; eexists). }
    rewrite He in Hplan. assert (phase r = Phase.Ready ∧ s = CState.Ready) as [Hp ->].
    { destruct (phase r); by simplify_eq/=. }
    destruct (adopted_fields r CState.Ready (clock (envs (rec_id r))) a)
      as (Hi1 & Hi2 & Hi3 & Hi4).
    split; simpl.
    + done.
    + intros id Hne. by rewrite lookup_delete_ne.
    + rewrite Hsh, He. simpl. by rewrite Hp.
    + eexists. split; [done|]. split_and!.
      * apply Forall_singleton. unfold built_ok; simpl. rewrite ?Hi1, ?Hi2, ?Hi3.
        split; [done|]. exists Ev.Adopted, r. split_and!; try done. by rewrite Hp.
      * intros a' Ha'. rewrite Had in Ha'. injection Ha' as <-.
        eexists. split; [left|done].
      * apply lookup_delete_eq.
  - assert (evidence_for sweep (n_adopted st) (rec_id r) ≠ Evidence.Adopted) as He.
    { unfold evidence_for. destruct sweep as [sw|]; [|done].
      rewrite bool_decide_false by (by rewrite Had; intros []). by repeat case_match. }
    destruct (inactive_fields r s (clock (envs (rec_id r)))) as (Hi1 & Hi2 & Hi3).
    split; simpl.
    + done.
    + done.
    + by rewrite Hsh, Hplan.
    + eexists. split; [done|]. split_and!; [|by intros a; rewrite Had|done].
      apply Forall_singleton. unfold reinstated, built_ok; simpl.
      rewrite ?Hi1, ?Hi2, ?Hi3. split; [done|].
      exists (Ev.Recovered (phase_of s)), r.
      destruct (evidence_for sweep (n_adopted st) (rec_id r)), (phase r);
        simplify_eq/=; by split_and!.
Qed.

Lemma normalize_finish_remove st r st' :
  store_ok (n_dir st) → temp_clean (n_dir st) → (sweep = None → n_adopted st = ∅) →
  shown (n_dir st) (rec_id r) = Some r →
  plan (phase r) (evidence_for sweep (n_adopted st) (rec_id r)) = FinishRemove →
  normalize_one root data_dir sweep envs st r = (st', Ok tt) → turn_ok st r st'.
Proof.
  intros Hok Hc Hsw Hsh Hplan. unfold normalize_one. rewrite Hplan.
  destruct (finish_remove _ _ _ _ _) as [d [c|e]] eqn:Hf; [|done].
  simpl. destruct (confirmed c _) as [u|e]; [|done]. intros [= <- _].
  destruct (delete_record_touches root (envs (rec_id r)) (n_dir st) (rec_id r)
    (generation r) Phase.Removing Hok) as [Hok' Ho].
  unfold finish_remove in Hf. rewrite Hf in Hok', Ho.
  destruct (delete_record_ok root _ _ _ _ _ _ _ Hok (Hhonest _) Hf) as (Hnone & _ & _).
  assert (n_adopted st !! rec_id r = None) as Hna.
  { apply not_adopted_None; [done|]. intros He. rewrite He in Hplan.
    by destruct (phase r). }
  split; simpl.
  - split; [done|]. eapply delete_record_clean; [exact Hc|exact Hf].
  - intros id Hne. split; [by apply Ho|done].
  - by rewrite Hnone, Hplan.
  - exists []. rewrite app_nil_r. split_and!; [done..|by rewrite Hna|done].
Qed.

Lemma normalize_leave st r st' :
  store_ok (n_dir st) → temp_clean (n_dir st) → (sweep = None → n_adopted st = ∅) →
  shown (n_dir st) (rec_id r) = Some r →
  plan (phase r) (evidence_for sweep (n_adopted st) (rec_id r)) = LeaveResumable →
  normalize_one root data_dir sweep envs st r = (st', Ok tt) → turn_ok st r st'.
Proof.
  intros Hok Hc Hsw Hsh Hplan. unfold normalize_one. rewrite Hplan. intros [= <-].
  assert (n_adopted st !! rec_id r = None) as Hna.
  { apply not_adopted_None; [done|]. intros He. rewrite He in Hplan.
    by destruct (phase r). }
  split; [done|done|by rewrite Hsh, Hplan|].
  exists []. rewrite app_nil_r. split_and!; [done..|by rewrite Hna|done].
Qed.

Lemma normalize_one_ok st r st' :
  store_ok (n_dir st) → temp_clean (n_dir st) → (sweep = None → n_adopted st = ∅) →
  shown (n_dir st) (rec_id r) = Some r →
  normalize_one root data_dir sweep envs st r = (st', Ok tt) → turn_ok st r st'.
Proof.
  intros Hok Hc Hsw Hsh Hone.
  destruct (plan (phase r) (evidence_for sweep (n_adopted st) (rec_id r))) eqn:Hplan.
  - by apply normalize_leave.
  - by apply normalize_fail.
  - by eapply normalize_reinstate.
  - by apply normalize_finish_remove.
  - unfold normalize_one in Hone. by rewrite Hplan in Hone.
  - unfold normalize_one in Hone. by rewrite Hplan in Hone.
Qed.

Lemma evidence_other st st' id :
  n_adopted st' !! id = n_adopted st !! id →
  evidence_for sweep (n_adopted st') id = evidence_for sweep (n_adopted st) id.
Proof. unfold evidence_for. by intros ->. Qed.

(** What a completed loop guarantees of the records it was given. *)
Record loop_ok (st : NormState) (rs : list ComputerRecord) (st' : NormState) : Prop := {
  loop_other : ∀ id, id ∉ (rec_id <$> rs) →
    shown (n_dir st') id = shown (n_dir st) id ∧ n_adopted st' !! id = n_adopted st !! id;
  loop_verdict : ∀ r, r ∈ rs → Some (phase <$> shown (n_dir st') (rec_id r)) =
    verdict_phase (phase r) (plan (phase r) (evidence_for sweep (n_adopted st) (rec_id r)));
  loop_built : ∃ new, n_built st' = n_built st ++ new ∧
    (∀ c, c ∈ new → built_ok (n_dir st') (rt_id (runtime c)) c ∧
                    rt_id (runtime c) ∈ (rec_id <$> rs)) ∧
    (∀ r a, r ∈ rs → n_adopted st !! rec_id r = Some a →
       ∃ c, c ∈ new ∧ rt_id (runtime c) = rec_id r ∧
            rt_handle (runtime c) = Some (ad_handle a));
  loop_adopted : ∀ r, r ∈ rs → n_adopted st' !! rec_id r = None
}.

Lemma built_ok_ext d d' id c : shown d' id = shown d id → built_ok d id c → built_ok d' id c.
Proof. unfold built_ok. by intros ->. Qed.

Lemma loop_cons st r st1 rs st' :
  NoDup (rec_id <$> r :: rs) → turn_ok st r st1 → loop_ok st1 rs st' →
  loop_ok st (r :: rs) st'.
Proof.
  intros [Hr Hnd]%NoDup_cons [_ Ho Hv (new1 & Hb1 & Hbo1 & Had1 & Hna1)]
    [Lo Lv (new2 & Hb2 & Hbo2 & Had2) La]. fold (rec_id <$> rs) in *.
  assert (∀ x, x ∈ rs → rec_id x ≠ rec_id r) as Hne.
  { intros x Hx Heq. apply Hr. rewrite <- Heq. by apply list_elem_of_fmap_2. }
  destruct (Lo _ Hr) as [Hsr Har]. split.
  - intros id [Hn1 Hn2]%not_elem_of_cons. destruct (Lo id Hn2) as [-> ->].
    by apply Ho.
  - intros x [->|Hx]%elem_of_cons; [by rewrite Hsr|].
    rewrite (Lv x Hx). f_equal. f_equal. apply evidence_other, Ho, Hne, Hx.
  - exists (new1 ++ new2). split; [by rewrite Hb2, Hb1, app_assoc|]. split.
    + intros c [Hc|Hc]%elem_of_app.
      * rewrite Forall_forall in Hbo1. specialize (Hbo1 c Hc) as Hok.
        pose proof (proj1 Hok) as Hid. rewrite Hid. split; [by eapply built_ok_ext|left].
      * destruct (Hbo2 c Hc) as [? ?]. split; [done|by right].
    + intros x a [->|Hx]%elem_of_cons Ha.
      * destruct (Had1 a Ha) as (c & Hc & Hh). exists c. split; [set_solver|].
        rewrite Forall_forall in Hbo1. destruct (Hbo1 c Hc) as [-> _]. done.
      * rewrite <- (proj2 (Ho _ (Hne x Hx))) in Ha.
        destruct (Had2 x a Hx Ha) as (c & Hc & ?). exists c. split; [set_solver|done].
  - intros x [->|Hx]%elem_of_cons; [by rewrite Har|by apply La].
Qed.

Lemma normalize_records_ok st rs st' :
  store_ok (n_dir st) → temp_clean (n_dir st) → (sweep = None → n_adopted st = ∅) →
  NoDup (rec_id <$> rs) → Forall (λ r, shown (n_dir st) (rec_id r) = Some r) rs →
  normalize_records root data_dir sweep envs st rs = (st', Ok tt) → loop_ok st rs st'.
Proof.
  revert st. induction rs as [|r rs IH]; intros st Hok Hc Hsw Hnd Hall; simpl.
  { intros [= <-]. split; [done|by intros ? ?%elem_of_nil| |by intros ? ?%elem_of_nil].
    exists []. rewrite app_nil_r.
    split_and!; [done|by intros ? ?%elem_of_nil|by intros ? ? ?%elem_of_nil]. }
  apply Forall_cons in Hall as [Hr Hall].
  destruct (normalize_one _ _ _ _ st r) as [st1 [[]|e]] eqn:Hone; [|done]. intros Hloop.
  pose proof (normalize_one_ok st r st1 Hok Hc Hsw Hr Hone) as Hturn.
  pose proof Hturn as [[Hok1 Hc1] Ho _ (_ & _ & _ & _ & Hna)].
  apply (loop_cons st r st1 rs st'); [done|done|].
  apply NoDup_cons in Hnd as [Hnr Hnd]. apply IH; try done.
  - intros Hs. apply map_empty. intros id. destruct (decide (id = rec_id r)) as [->|Hne].
    + done.
    + rewrite (proj2 (Ho id Hne)), Hsw by done. apply lookup_empty.
  - apply Forall_forall. intros x Hx. rewrite Forall_forall in Hall.
    rewrite (proj1 (Ho (rec_id x) ltac:(intros Heq; apply Hnr; rewrite <- Heq;
      by apply list_elem_of_fmap_2))). by apply Hall.
Qed.
End normalize_lemmas.

(** ** Properties *)


#[export] Instance unit_resources : Resources := {|
  PreparedVm := unit; VmHandle := unit; NetworkLease := unit;
  NetworkIdentity := unit |}.

Lemma ex_store_entries : entries ex_store = {[record_path "box" := 0%Z]}.
Proof. vm_compute. reflexivity. Qed.

Lemma ex_store_clean : temp_clean ex_store.
Proof.
  intros uuid. rewrite ex_store_entries. apply lookup_singleton_ne.
  apply record_path_not_temp.
Qed.

Lemma ex_store_only : only_records ex_store.
Proof.
  intros name [ino Hino] _. rewrite ex_store_entries in Hino.
  apply lookup_singleton_Some in Hino as [<- _]. by exists "box".
Qed.

