(* ===== verification/Actor.v ===== *)
(** * The lifecycle actor

    [src/computer/arcbox-computer-runtime/src/lifecycle/actor/]: the task that
    owns one computer. It feeds the machine of [Lifecycle] with commands,
    sub-task completions and expired timers, executes the effects a transition
    asks for against the record store, the crash journal, the event bus and the
    sub-tasks, and answers its callers.

    A reply channel is a token; what is sent on it, the sub-tasks spawned and
    aborted, the journal cleared and the registry entry dropped are recorded in
    the actor's [trace], which also keeps the completions taken from the
    sub-tasks' channel. What the actor waits for inline — a record write, a
    handoff, a join, the handover's port call — is answered by the [World] of
    the call, and [world] gives every call its own, so a failure of any of them
    at any point is a value of [world]. *)

From stdpp Require Import base list gmap strings pretty.
From Stdlib Require Import ZArith Lia.
From S2P Require Import Prelude Types RecordPhase Lifecycle Policy Events AtomicFile RecordStore RecordPort Runtime Recovery.

(** ** Constants *)

Definition HANDOFF_TIMEOUT : Duration := from_secs 10.
Definition DETACH_TIMEOUT : Duration := from_secs 5.
Definition RETRY_INITIAL : Duration := from_millis 250.
Definition RETRY_MAX : Duration := from_secs 5.

(** [pause::reason::RESUME]. *)
Definition RESUME : string := "resume".

(** ** What callers and sub-tasks say *)

(** A parked caller's channel. *)
Abbreviation Reply := nat (only parsing).

Record CaptureSpec := MkCaptureSpec {
  cap_name : string;
  cap_labels : gmap string string
}.

Record CheckpointInfo := MkCheckpointInfo {
  snapshot_id : string;
  snapshot_dir : string;
  ckpt_created_at : string
}.

Inductive WorkloadOutcome := WExited (status : ExitStatus) | WBroke (error : string).

Module Cmd.
Inductive Command :=
| Provision (provision : Provision) (outcome : ComputerProvisionOutcome) (reply : Reply)
| Checkpoint (spec : CaptureSpec) (reply : Reply)
| Pause (reason : PauseReason) (reply : Reply)
| Resume (reason : string) (reply : Reply)
| Stop (budget : Duration) (reply : Reply)
| Remove (force : bool) (reply : Reply)
| Detach (reply : Reply)
| ClaimWorkload (claim : WorkloadClaim) (reply : Reply)
| WorkloadExited (outcome : WorkloadOutcome)
| ReleaseWorkload
| SetLifecycle (update : LifecycleUpdate) (reply : Reply)
| VmExited.
End Cmd.
Abbreviation Command := Cmd.Command.

Record Deadlines := MkDeadlines {
  dl_ttl : option DateTime;
  dl_idle_timeout_seconds : Z;
  dl_on_idle : IdleAction
}.

#[export] Instance eta_Deadlines : Eta Deadlines := {|
  eta d := MkDeadlines (dl_ttl d) (dl_idle_timeout_seconds d) (dl_on_idle d);
  eta_ok := ltac:(by intros [])
|}.

(** A sub-task's failure: the error and the class the machine branches on. The
    event is private in the source and only the three constructors build one,
    so the class is an enumeration of them. *)
Inductive FailureClass := Recoverable | Frozen | Stranded.

Record TaskFailure := MkFailure { tf_class : FailureClass; into_error : ComputerError }.

Definition recoverable (e : ComputerError) : TaskFailure := MkFailure Recoverable e.
Definition frozen (e : ComputerError) : TaskFailure := MkFailure Frozen e.
Definition stranded (e : ComputerError) : TaskFailure := MkFailure Stranded e.

Definition failure_event (f : TaskFailure) : Event :=
  match tf_class f with
  | Recoverable => Ev.Failure
  | Frozen => Ev.Frozen
  | Stranded => Ev.Stranded
  end.

Definition message (f : TaskFailure) : string := error_to_string (into_error f).

Inductive Drain := DrainNo | DrainUntil (since : option DateTime).

(** The sub-task an effect spawns, with the arguments it is given. *)
Inductive Task :=
| TBoot (warm : bool)
| TGate
| TRestore (origin : RestoreOrigin)
| TCheckpoint (hold : bool) (spec : option CaptureSpec)
| TResume
| TStop (budget : Duration) (drain : Drain)
| TRelease (scope : ReleaseScope).

Inductive Handoff := Awaited | Abortable | JoinOnly.

(** [Preemptible]: the task behind the join handle is named by its epoch. *)
Record Preemptible := MkPreemptible {
  task_epoch : Z;
  task : Task;
  task_handoff : Handoff
}.

Inductive StalledStep := SHandoff | SRecord (e : RecordEnd).

Record Stalled := MkStalled {
  stalled_retry : StalledStep;
  stalled_state : State;
  stalled_effects : list Effect
}.

(** Whether the effect drain may continue. *)
Inductive Drained := Continue | StalledFlow | Refused.

(** ** What the world answers *)

Inductive HandoffAnswer := Signalled | ProducerEnded | HandoffElapsed.
Inductive JoinAnswer :=
| Joined | Cancelled | Panicked (error : string) | JoinElapsed.

Record World := {
  w_store : StoreEnv;                               (* a record store call *)
  w_now : DateTime;                                 (* Utc::now *)
  w_handoff : HandoffAnswer;                        (* timeout(.., signal) *)
  w_join : JoinAnswer;                              (* timeout(.., handle) *)
  w_signalled : bool;                               (* signal.try_recv() *)
  w_detach : option (result TaskFailure unit);      (* None: elapsed *)
  w_journal : result string unit                    (* clear_state_record *)
}.

Section actor.
Context `{Resources} `{RecordPort} {GuestAgent : Type}.

(** What a read of a computer sees. *)
Record ComputerSnapshot := MkSnapshot {
  sn_state : ComputerState;
  sn_agent : option GuestAgent;
  sn_handle : option VmHandle;
  sn_error : option string;
  sn_labels : gmap string string;
  sn_vcpus : Z;
  sn_memory_mib : Z;
  sn_lease : option NetworkLease;
  sn_vm_dir : Path;
  sn_created_at : DateTime;
  sn_ready_at : option DateTime;
  sn_last_exited_at : option DateTime;
  sn_last_exit_status : option ExitStatus;
  sn_paused_at : option DateTime;
  sn_pause_snapshot_id : option string;
  sn_cow_file : option Path;
  sn_bind_mounts : bool;
  sn_deadlines : Deadlines
}.

#[export] Instance eta_ComputerSnapshot : Eta ComputerSnapshot := {|
  eta s := MkSnapshot (sn_state s) (sn_agent s) (sn_handle s) (sn_error s)
    (sn_labels s) (sn_vcpus s) (sn_memory_mib s) (sn_lease s) (sn_vm_dir s)
    (sn_created_at s) (sn_ready_at s) (sn_last_exited_at s) (sn_last_exit_status s)
    (sn_paused_at s) (sn_pause_snapshot_id s) (sn_cow_file s) (sn_bind_mounts s)
    (sn_deadlines s);
  eta_ok := ltac:(by intros [])
|}.

Definition project (rt : ComputerRuntime) (state : ComputerState)
    (deadlines : Deadlines) : ComputerSnapshot :=
  MkSnapshot state None (rt_handle rt) (rt_error rt) (rt_labels rt)
    (spec_vcpus (rt_spec rt)) (spec_memory_mib (rt_spec rt)) (network rt) (vm_dir rt)
    (rt_created_at rt) (ready_at rt) (last_exited_at rt) (last_exit_status rt)
    (rt_paused_at rt) (rt_pause_snapshot_id rt) (cow_file <$> cow_handle rt)
    (negb (bool_decide (spec_mounts (rt_spec rt) = []))) deadlines.

Inductive TaskReport :=
| Booted (agent : GuestAgent)
| RestoredBy (agent : GuestAgent) (outcome : ComputerProvisionOutcome)
| ResumedBy (agent : GuestAgent)
| GatedOk
| Captured (info : CheckpointInfo)
| ReleasedAll (scope : ReleaseScope)
| StoppedOk
| FailedBy (failure : TaskFailure).

Record Completion := MkCompletion { c_epoch : Z; c_report : TaskReport }.

(** What the actor did to the outside. *)
Inductive Obs :=
| Replied (reply : Reply) (r : Result unit)
| RepliedCapture (reply : Reply) (r : Result CheckpointInfo)
| SpawnedTask (epoch : Z) (t : Task)
| AbortedTask (t : Preemptible)
| TookCompletion (epoch : Z)
| JournalCleared (dir : Path) (r : result string unit)
| Unregistered.

Record ComputerActor := MkActor {
  act_id : ComputerId;
  act_runtime : ComputerRuntime;
  act_generation : option Z;
  act_vm_dir : Path;
  act_records : Store;
  act_bus : EventBus;
  act_snapshot : ComputerSnapshot;
  act_queued : list Event;
  act_waiters : list (Answer * Reply);
  act_capture_reply : option Reply;
  act_pending_stop : option Duration;
  act_inflight : option Preemptible;
  act_epoch : Z;
  act_stalled : option Stalled;
  act_stalled_on : StalledStep;
  act_retry_backoff : Duration;
  act_error : option string;
  act_pause_snapshot_id : option string;
  act_capture : option CaptureSpec;
  act_outcome : ComputerProvisionOutcome;
  act_pause_reason : PauseReason;
  act_resume_reason : string;
  act_exit : option WorkloadOutcome;
  act_unconfirmed : option string;
  act_answer_error : option string;
  act_unwinding : option ComputerError;
  act_clear_journal_after_release : bool;
  act_journal_blocked : bool;
  act_deadlines : Deadlines;
  act_ttl : option Duration;
  act_idle : option Duration;
  act_retry : option Duration;
  act_timers_enabled : bool;
  act_tick : nat;
  act_trace : list Obs
}.

#[export] Instance eta_ComputerActor : Eta ComputerActor := {|
  eta a := MkActor (act_id a) (act_runtime a) (act_generation a) (act_vm_dir a)
    (act_records a) (act_bus a) (act_snapshot a) (act_queued a) (act_waiters a) (act_capture_reply a)
    (act_pending_stop a) (act_inflight a) (act_epoch a) (act_stalled a)
    (act_stalled_on a) (act_retry_backoff a) (act_error a) (act_pause_snapshot_id a)
    (act_capture a) (act_outcome a) (act_pause_reason a) (act_resume_reason a)
    (act_exit a) (act_unconfirmed a) (act_answer_error a) (act_unwinding a)
    (act_clear_journal_after_release a) (act_journal_blocked a) (act_deadlines a)
    (act_ttl a) (act_idle a) (act_retry a) (act_timers_enabled a) (act_tick a)
    (act_trace a);
  eta_ok := ltac:(by intros [])
|}.

Abbreviation Actor := ComputerActor (only parsing).

Context (world : nat → World).

(** The world of the next call. *)
Definition next_world (a : Actor) : World := world (act_tick a).
Definition ticked (a : Actor) : Actor := a <| act_tick := S (act_tick a) |>.

Definition observe (a : Actor) (o : Obs) : Actor :=
  a <| act_trace := act_trace a ++ [o] |>.

Definition send (a : Actor) (reply : Reply) (r : Result unit) : Actor :=
  observe a (Replied reply r).

Definition public (a : Actor) : ComputerState := sn_state (act_snapshot a).

Definition wrong_state (a : Actor) (expected : string) : ComputerError :=
  CErr.WrongState (act_id a) expected (ComputerState_to_string (public a)).

(** ** Publishing ([effects.rs]) *)

(** [publish_state]: mirror the state into the runtime, re-project the
    snapshot and keep the agent. *)
Definition publish_state (a : Actor) (state : State) : Actor :=
  let pub := to_public state in
  let rt := (act_runtime a) <| rt_state := pub |> in
  let agent := sn_agent (act_snapshot a) in
  a <| act_runtime := rt |>
    <| act_snapshot := (project rt pub (act_deadlines a)) <| sn_agent := agent |> |>.

Definition publish_agent (a : Actor) (agent : GuestAgent) : Actor :=
  a <| act_snapshot := (act_snapshot a) <| sn_agent := Some agent |> |>.

Definition forget_agent (a : Actor) : Actor :=
  a <| act_snapshot := (act_snapshot a) <| sn_agent := None |> |>.

Definition notify_action (n : Notify) : string :=
  match n with
  | Ntf.Created => CREATED
  | Ntf.Ready => READY
  | Ntf.Running => RUNNING
  | Ntf.Idle => IDLE
  | Ntf.Stopping => STOPPING
  | Ntf.Stopped => STOPPED
  | Ntf.Failed => FAILED
  | Ntf.Removed => REMOVED
  | Ntf.Pausing => PAUSING
  | Ntf.Paused => PAUSED
  | Ntf.Resumed => RESUMED
  end.

(** The attributes of an IDLE event. *)
Definition idle_attrs (e : ComputerEvent) (exit : option WorkloadOutcome) : ComputerEvent :=
  match exit with
  | Some (WExited status) =>
      let e := with_attr e "exit_code" (pretty (conventional_code status)) in
      match status with
      | Signaled signal => with_attr e "signal" (pretty signal)
      | Code _ => e
      end
  | Some (WBroke error) => with_attr e "error" error
  | None => e
  end.

Definition publish_event (a : Actor) (notify : Notify) : Actor :=
  let event := new_event (act_id a) (notify_action notify) (w_now (next_world a)) in
  let a := ticked a in
  let '(a, event) :=
    match notify with
    | Ntf.Failed =>
        let error := default "" (act_error a) in
        (a <| act_runtime := (act_runtime a) <| rt_error := Some error |> |>
           <| act_snapshot := (act_snapshot a) <| sn_error := Some error |> |>,
         with_attr event "error" error)
    | Ntf.Pausing => (a, with_attr event "reason" (PauseReason_as_str (act_pause_reason a)))
    | Ntf.Resumed => (a, with_attr event "reason" (act_resume_reason a))
    | Ntf.Idle => (a <| act_exit := None |>, idle_attrs event (act_exit a))
    | _ => (a, event)
    end in
  a <| act_bus := bus_publish (act_bus a) event |>.

(** ** Timers *)

Definition arm (a : Actor) (timer : Timer) (state : State) : Actor :=
  if negb (act_timers_enabled a) then a else
  let pub := to_public state in
  match timer with
  | Ttl =>
      let now := w_now (next_world a) in
      (ticked a) <| act_ttl := (λ deadline, remaining deadline now)
                      <$> ttl_due pub (dl_ttl (act_deadlines a)) |>
  | Idle =>
      a <| act_idle := idle_due pub (dl_idle_timeout_seconds (act_deadlines a)) |>
  end.

Definition rearm (a : Actor) (state : State) : Actor :=
  arm (arm a Ttl state) Idle state.

(** ** Callers ([commands.rs]) *)

(** Parks a caller, unless a failure nobody was there to hear is its answer. *)
Definition park (a : Actor) (ans : Answer) (reply : Reply) : Actor :=
  match act_answer_error a with
  | Some detail => send (a <| act_answer_error := None |>) reply (Err (CErr.Unavailable detail))
  | None => a <| act_waiters := act_waiters a ++ [(ans, reply)] |>
  end.

Definition verdict (a : Actor) (failed unconfirmed : option string) : Result unit :=
  match failed, unconfirmed with
  | Some detail, _ => Err (CErr.Unavailable detail)
  | None, Some detail => Err (CErr.AckUnconfirmed (act_id a) detail)
  | None, None => Ok tt
  end.

(** One pass over the parked callers: those [due] are sent [r], in order, the
    rest stay parked. [r] is given the number already sent to. *)
Fixpoint settle_waiters (a : Actor) (due : Answer → bool) (r : nat → Result unit)
    (n : nat) (l : list (Answer * Reply)) : Actor * list (Answer * Reply) * nat :=
  match l with
  | [] => (a, [], n)
  | (parked, reply) :: l =>
      if due parked then settle_waiters (send a reply (r n)) due r (S n) l
      else
        let '(a, remaining, n) := settle_waiters a due r n l in
        (a, (parked, reply) :: remaining, n)
  end.

Definition answer (a : Actor) (ans : Answer) : Actor :=
  let unconfirmed := act_unconfirmed a in
  let failed := act_answer_error a in
  let a := a <| act_unconfirmed := None |> <| act_answer_error := None |> in
  let '(a, remaining, _) :=
    settle_waiters a (λ parked, bool_decide (parked = ans))
      (λ _, verdict a failed unconfirmed) 0 (act_waiters a) in
  a <| act_waiters := remaining |>.

Definition acknowledged (a : Actor) : Actor * Result unit :=
  match act_answer_error a with
  | Some detail => (a <| act_answer_error := None |>, Err (CErr.Unavailable detail))
  | None =>
      (a <| act_unconfirmed := None |>, verdict a None (act_unconfirmed a))
  end.

(** The typed error goes to the first caller, its text to the others. *)
Definition fail_parked (a : Actor) (error : ComputerError) (removals_too : bool)
    : Actor * nat :=
  let '(a, remaining, answered) :=
    settle_waiters a (λ parked, negb (bool_decide (parked = Ans.Removed)) || removals_too)
      (λ n, Err (match n with O => error | S _ => CErr.Other (error_to_string error) end))
      0 (act_waiters a) in
  (a <| act_waiters := remaining |>, answered).

Definition fail_waiters (a : Actor) (error : ComputerError) : Actor * nat :=
  fail_parked a error false.

Definition fail_every_waiter (a : Actor) (error : ComputerError) : Actor * nat :=
  fail_parked a error true.

(** ** The durable record and the crash journal ([effects.rs]) *)

(** A write the flow cannot continue without. *)
Definition fail_write (a : Actor) (detail : string) : Actor * Drained :=
  let message := "computer " +:+ act_id a +:+ " " +:+ detail in
  let error := CErr.Unavailable message in
  let a := a <| act_error := Some (error_to_string error) |> in
  let (a, heard) := fail_every_waiter a error in
  let a := if heard =? 0 then a <| act_answer_error := Some message |> else a in
  (a <| act_queued := act_queued a ++ [Ev.Failure] |>, Refused).

Definition unconfirmed_detail (error : string) : string :=
  "state is visible, but durability is unconfirmed: " +:+ error.

(** [commit], with the revert of an unconfirmed [Resuming] write as an argument. *)
Definition commit_reverting (revert : Actor → Actor * Drained) (a : Actor)
    (phase : PersistPhase) (t : ComputerTransition) (durability : Durability)
    : Actor * Drained :=
  match act_generation a with
  | None => (a, Continue)
  | Some gen =>
      let env := w_store (next_world a) in
      let (d, r) := port_transition env (act_records a) (act_id a) gen t in
      let a := (ticked a) <| act_records := d |> in
      match r with
      | Err error =>
          match durability with
          | GateJournal => (a <| act_journal_blocked := true |>, Continue)
          | _ => fail_write a ("recording " +:+ as_str phase +:+ " failed: "
                                 +:+ error_to_string error)
          end
      | Ok c =>
          match durability_error c with
          | None => (a, Continue)
          | Some error =>
              match durability with
              | Warn => (a, Continue)
              | GateJournal => (a <| act_journal_blocked := true |>, Continue)
              | Report Ack => (a <| act_unconfirmed := Some error |>, Continue)
              | Report Unavailable => fail_write a (unconfirmed_detail error)
              | Report RevertToPaused =>
                  match revert a with
                  | (a, Refused) => (a, Refused)
                  | (a, _) => fail_write a (unconfirmed_detail error)
                  end
              end
          end
      end
  end.

(** The inner commit is a [Warn], which reverts nothing. *)
Definition commit (a : Actor) (phase : PersistPhase) (t : ComputerTransition)
    (durability : Durability) : Actor * Drained :=
  commit_reverting
    (λ a, commit_reverting (λ a, (a, Refused)) a Phase.Paused
            (Tr.Paused (default "" (act_pause_snapshot_id a))) Warn)
    a phase t durability.

Definition persist_phase (a : Actor) (phase : PersistPhase) (durability : Durability)
    : Actor * Drained :=
  match phase with
  | Phase.Starting => commit a phase (Tr.Starting (act_outcome a)) durability
  | Phase.Ready => commit a phase Tr.Ready durability
  | Phase.Stopping => commit a phase Tr.Stopping durability
  | Phase.Stopped => commit a phase Tr.Stopped durability
  | Phase.Failed => commit a phase (Tr.Failed (default "" (act_error a))) durability
  | Phase.Removing => commit a phase Tr.Removing durability
  | Phase.Pausing => commit a phase Tr.Pausing durability
  | Phase.Paused =>
      let rt := act_runtime a in
      let rt := rt <| rt_paused_at := Some (default (w_now (next_world a)) (rt_paused_at rt)) |>
                   <| rt_pause_snapshot_id := act_pause_snapshot_id a |> in
      let a := (ticked a) <| act_runtime := rt |> in
      commit a phase (Tr.Paused (default "" (act_pause_snapshot_id a))) durability
  | Phase.Resuming => commit a phase Tr.Resuming durability
  | Phase.Creating => (a, Continue)
  end.

Definition unregister (a : Actor) : Actor := observe a Unregistered.

Definition schedule_retry (a : Actor) : Actor :=
  a <| act_retry := Some (act_retry_backoff a) |>
    <| act_retry_backoff := Z.min (2 * act_retry_backoff a) RETRY_MAX |>.

Definition forget (a : Actor) (e : RecordEnd) : Actor * Drained :=
  match act_generation a with
  | None => (unregister a, Continue)
  | Some gen =>
      let env := w_store (next_world a) in
      let (d, r) :=
        match e with
        | Aborted => port_abort_provision env (act_records a) (act_id a) gen
        | Removed => port_finish_remove env (act_records a) (act_id a) gen
        end in
      let a := (ticked a) <| act_records := d |> in
      match r with
      | Ok c =>
          let a := match durability_error c with
                   | Some error => a <| act_unconfirmed := Some error |>
                   | None => a
                   end in
          ((unregister a) <| act_retry_backoff := RETRY_INITIAL |>
             <| act_answer_error := None |>, Continue)
      | Err error =>
          let a := a <| act_answer_error := Some ("computer " +:+ act_id a
                          +:+ ": the record would not delete: "
                          +:+ error_to_string error) |>
                     <| act_stalled_on := SRecord e |> in
          (schedule_retry a, StalledFlow)
      end
  end.

Definition persist_lifecycle (a : Actor) : Actor * Result unit :=
  match act_generation a with
  | None => (a, Ok tt)
  | Some gen =>
      let env := w_store (next_world a) in
      let dl := act_deadlines a in
      let (d, r) := port_update_lifecycle env (act_records a) (act_id a) gen
                      (dl_ttl dl) (dl_idle_timeout_seconds dl) (dl_on_idle dl) in
      ((ticked a) <| act_records := d |>,
       let? c := r in confirmed c "computer lifecycle update")
  end.

Definition unblock_journal (a : Actor) : Actor := a <| act_journal_blocked := false |>.

Definition clear_journal (a : Actor) : Actor :=
  if act_journal_blocked a then a <| act_journal_blocked := false |>
  else
    let r := w_journal (next_world a) in
    observe (ticked a) (JournalCleared (act_vm_dir a) r).

(** Re-confirms a computer that is already stopped ([finish_stop]). *)
Definition finish_stop (a : Actor) : Actor * Result unit :=
  match act_generation a with
  | None => (a, Ok tt)
  | Some gen =>
      let env := w_store (next_world a) in
      let (d, r) := port_transition env (act_records a) (act_id a) gen Tr.Stopped in
      let a := (ticked a) <| act_records := d |> in
      match (let? c := r in confirmed c "computer stop retry") with
      | Err e => (a, Err e)
      | Ok _ => (clear_journal (unblock_journal a), Ok tt)
      end
  end.

(** ** The in-flight sub-task ([inflight.rs]) *)

Definition abandon_capture (a : Actor) : Actor :=
  match act_capture_reply a with
  | Some reply =>
      observe (a <| act_capture_reply := None |>)
        (RepliedCapture reply (Err (CErr.Unavailable
           ("computer " +:+ act_id a
              +:+ ": the checkpoint was preempted by another operation"))))
  | None => a
  end.

Definition spawn_task (a : Actor) (handoff : Handoff) (t : Task) : Actor :=
  let a := match act_inflight a with
           | Some previous =>
               abandon_capture (observe (a <| act_inflight := None |>)
                                  (AbortedTask previous))
           | None => a
           end in
  let epoch := (act_epoch a + 1)%Z in
  (observe a (SpawnedTask epoch t))
    <| act_epoch := epoch |>
    <| act_inflight := Some (MkPreemptible epoch t handoff) |>.

Definition stall (a : Actor) (t : Preemptible) : Actor * Drained :=
  (schedule_retry (a <| act_inflight := Some t |> <| act_stalled_on := SHandoff |>),
   StalledFlow).

(** The wait for the task itself, once it may be cut short or is unwinding. *)
Definition join_inflight (a : Actor) (t : Preemptible) : Actor * Drained :=
  let join := w_join (next_world a) in
  let a := ticked a in
  match join with
  | JoinElapsed => stall a t
  | Panicked error =>
      let (a, _) := fail_every_waiter a (CErr.Process
                      ("computer " +:+ act_id a +:+ " sub-task panicked: " +:+ error)) in
      (a <| act_epoch := (act_epoch a + 1)%Z |>, StalledFlow)
  | Joined | Cancelled =>
      (abandon_capture (a <| act_epoch := (act_epoch a + 1)%Z |>
                          <| act_retry_backoff := RETRY_INITIAL |>), Continue)
  end.

Definition abort_inflight (a : Actor) : Actor * Drained :=
  match act_inflight a with
  | None => (a <| act_epoch := (act_epoch a + 1)%Z |>, Continue)
  | Some t =>
      let a := a <| act_inflight := None |> in
      let with_handoff h := MkPreemptible (task_epoch t) (task t) h in
      let cut a := observe a (AbortedTask (with_handoff Abortable)) in
      match task_handoff t with
      | Awaited =>
          let handoff := w_handoff (next_world a) in
          let a := ticked a in
          match handoff with
          | Signalled => join_inflight (cut a) (with_handoff Abortable)
          | ProducerEnded => join_inflight a (with_handoff JoinOnly)
          | HandoffElapsed => stall a (with_handoff Awaited)
          end
      | Abortable => join_inflight (cut a) (with_handoff Abortable)
      | JoinOnly => join_inflight a (with_handoff JoinOnly)
      end
  end.

Definition park_stalled (a : Actor) (state : State) (fx : list Effect) : Actor :=
  a <| act_stalled := Some (MkStalled (act_stalled_on a) state fx) |>
    <| act_stalled_on := SHandoff |>.

(** ** Executing effects ([effects.rs], [apply]) *)

(** The handover's port call; an elapsed wait is a failed handover. *)
Definition handover (a : Actor) (r : option (result TaskFailure unit))
    : result TaskFailure unit :=
  match r with
  | Some r => r
  | None => Err (recoverable (CErr.Process
                   ("handing computer " +:+ act_id a +:+ " over did not finish within "
                      +:+ pretty (DETACH_TIMEOUT / 1000000000)%Z +:+ "s")))
  end.

Definition apply_effect (a : Actor) (effect : Effect) (state : State) : Actor * Drained :=
  match effect with
  | Fx.PersistPhase phase durability => persist_phase a phase durability
  | Fx.CommitRestored durability =>
      commit a Phase.Ready (Tr.ReadyWithOutcome (act_outcome a)) durability
  | Fx.ForgetRecord e => forget a e
  | Fx.ClearJournal =>
      (match act_inflight a with
       | Some _ => a <| act_clear_journal_after_release := true |>
       | None => clear_journal a
       end, Continue)
  | Fx.SpawnBoot warm => (spawn_task a Awaited (TBoot warm), Continue)
  | Fx.SpawnGate => (spawn_task a Abortable TGate, Continue)
  | Fx.SpawnRestore origin => (spawn_task a JoinOnly (TRestore origin), Continue)
  | Fx.SpawnCheckpoint hold =>
      let spec := act_capture a in
      (spawn_task (a <| act_capture := None |>) Abortable (TCheckpoint hold spec), Continue)
  | Fx.SpawnResume => (spawn_task a JoinOnly TResume, Continue)
  | Fx.SpawnStop budget_ms drain =>
      let drain := if drain then DrainUntil (last_exited_at (act_runtime a)) else DrainNo in
      (spawn_task (forget_agent a) Abortable (TStop (from_millis budget_ms) drain), Continue)
  | Fx.SpawnRelease scope =>
      (spawn_task (forget_agent a) Abortable (TRelease scope), Continue)
  | Fx.Detach =>
      let agent := sn_agent (act_snapshot a) in
      let a := forget_agent a in
      let r := handover a (w_detach (next_world a)) in
      let a := ticked a in
      (match r with
       | Ok _ => a <| act_queued := act_queued a ++ [Ev.Detached] |>
       | Err failure =>
           let a := match agent with Some agent => publish_agent a agent | None => a end in
           fst (fail_waiters a (into_error failure))
       end, Continue)
  | Fx.AbortInflight => abort_inflight a
  | Fx.Publish notify => (publish_event a notify, Continue)
  | Fx.ArmTimer timer => (arm a timer state, Continue)
  | Fx.CancelTimer Ttl => (a <| act_ttl := None |>, Continue)
  | Fx.CancelTimer Idle => (a <| act_idle := None |>, Continue)
  | Fx.Answer ans =>
      let a := match ans, act_unwinding a with
               | Ans.Removed, Some error => fst (fail_waiters (a <| act_unwinding := None |>) error)
               | _, _ => a
               end in
      (answer a ans, Continue)
  end.

(** The effect loop [dispatch], [restart_teardown] and [resume_stalled] share:
    a stall parks the rest, a refusal drops it. *)
Fixpoint drain_effects (a : Actor) (state : State) (fx : list Effect) : Actor :=
  match fx with
  | [] => a
  | effect :: fx =>
      match apply_effect a effect state with
      | (a, Continue) => drain_effects a state fx
      | (a, StalledFlow) => park_stalled a state fx
      | (a, Refused) => a
      end
  end.

(** ** Dispatch ([mod.rs]) *)

(** One event: the transition, its effects, the published state, and whether
    the machine acted. *)
Definition dispatch_one (s : State) (a : Actor) (e : Event) : State * Actor * bool :=
  let (after, fx) := handle s e in
  let acted := negb (bool_decide (length fx = 0)) || negb (bool_decide (s = after)) in
  let a := publish_state a after in
  let a := drain_effects a after fx in
  (after, publish_state a after, acted).

(** The events the effects asked for, in order. A dispatch drains the queue
    before it returns, so the nested dispatches of the source are this loop;
    [fuel] bounds it. *)
Fixpoint dispatch_queued (fuel : nat) (s : State) (a : Actor) : State * Actor :=
  match fuel with
  | O => (s, a)
  | S fuel =>
      match act_queued a with
      | [] => (s, a)
      | e :: queued =>
          let '(s, a, _) := dispatch_one s (a <| act_queued := queued |>) e in
          dispatch_queued fuel s a
      end
  end.

(** Enough for a queue of any length: an event of the queue moves the machine
    towards a state where no further failure asks for a refusable write. *)
Definition dispatch_fuel (a : Actor) : nat := length (act_queued a) + 1.

Definition dispatch (s : State) (a : Actor) (e : Event) : State * Actor * bool :=
  let '(s, a, acted) := dispatch_one s a e in
  let '(s, a) := dispatch_queued (dispatch_fuel a) s a in
  (s, a, acted).

(** [launching]: the states whose launch is still in flight. *)
Definition launch_in_flight (s : State) : bool :=
  match s with
  | St.Provisioning | St.Staging | St.Booting | St.Restoring _ | St.Gating _ _
  | St.Resuming => true
  | _ => false
  end.

(** ** Stalled teardowns ([inflight.rs]) *)

Definition resume_stalled (a : Actor) : Actor :=
  match act_stalled a with
  | None => a
  | Some stalled =>
      let a := a <| act_stalled := None |> in
      let '(a, retried) :=
        match stalled_retry stalled with
        | SHandoff => abort_inflight a
        | SRecord e => forget a e
        end in
      match retried with
      | StalledFlow => a <| act_stalled := Some stalled |>
      | _ => drain_effects a (stalled_state stalled) (stalled_effects stalled)
      end
  end.

Definition restart_teardown (a : Actor) (state : State) : Actor :=
  match act_stalled a with
  | Some _ => resume_stalled a
  | None => drain_effects a state (removal [])
  end.

(** ** Commands ([commands.rs]) *)

(** [u64::try_from(budget.as_millis()).unwrap_or(u64::MAX)]. *)
Definition budget_millis (budget : Duration) : Z :=
  let ms := (budget / 1000000)%Z in
  if (ms <? u64_bound)%Z then ms else (u64_bound - 1)%Z.

Definition refuse_handed_over (a : Actor) (command : Command) : Actor :=
  let refused := wrong_state a "a computer this process still owns" in
  match command with
  | Cmd.Provision _ _ reply | Cmd.Pause _ reply | Cmd.Resume _ reply
  | Cmd.Stop _ reply | Cmd.Remove _ reply | Cmd.ClaimWorkload _ reply
  | Cmd.SetLifecycle _ reply | Cmd.Detach reply => send a reply (Err refused)
  | Cmd.Checkpoint _ reply => observe a (RepliedCapture reply (Err refused))
  | Cmd.WorkloadExited _ | Cmd.ReleaseWorkload | Cmd.VmExited => a
  end.

(** Answers the caller parked last. *)
Definition answer_last (a : Actor) (r : Result unit) : Actor :=
  match last (act_waiters a) with
  | Some (_, reply) =>
      send (a <| act_waiters := removelast (act_waiters a) |>) reply r
  | None => a
  end.

(** The deadlines an update leaves ([None] means unchanged). *)
Definition updated_deadlines (dl : Deadlines) (update : LifecycleUpdate) (now : DateTime)
    : Deadlines :=
  let dl := match upd_ttl_seconds update with
            | Some ttl => dl <| dl_ttl := if (0 <? ttl)%Z
                                          then Some (now + from_secs ttl)%Z else None |>
            | None => dl
            end in
  let dl := match upd_idle_timeout_seconds update with
            | Some idle => dl <| dl_idle_timeout_seconds := idle |>
            | None => dl
            end in
  match upd_on_idle update with
  | Some policy => dl <| dl_on_idle := policy |>
  | None => dl
  end.

Definition set_lifecycle (s : State) (a : Actor) (update : LifecycleUpdate) (reply : Reply)
    : Actor :=
  match public a with
  | CState.Stopping | CState.Stopped | CState.Failed =>
      send a reply (Err (wrong_state a "a live computer (not stopping, stopped, or failed)"))
  | _ =>
      let dl := updated_deadlines (act_deadlines a) update (w_now (next_world a)) in
      let rt := act_runtime a in
      let rt := rt <| rt_ttl_deadline := dl_ttl dl |>
                   <| rt_spec := (rt_spec rt)
                        <| spec_idle_timeout_seconds := dl_idle_timeout_seconds dl |>
                        <| spec_on_idle := dl_on_idle dl |> |> in
      let a := (ticked a) <| act_deadlines := dl |> <| act_runtime := rt |> in
      let (a, persisted) := persist_lifecycle a in
      send (publish_state (rearm a s) s) reply persisted
  end.

(** [Detach] when the machine had nothing to do: a computer with no guest to
    lose is handed over, the rest is refused. *)
Definition nothing_to_hand_over (s : State) : bool :=
  match s with
  | St.Provisioning | St.Paused | St.Stopped | St.Failed | St.Gone | St.Detached => true
  | _ => false
  end.

Definition on_command (s : State) (a : Actor) (command : Command) : State * Actor :=
  if bool_decide (s = St.Detached)
     && negb (match command with Cmd.Detach _ => true | _ => false end)
  then (s, refuse_handed_over a command)
  else
  match command with
  | Cmd.Provision provision outcome reply =>
      let a := a <| act_outcome := outcome |> in
      let restore := match provision with Prov.Restore _ => true | _ => false end in
      let '(s, a, acted) := dispatch s a (Ev.Provision provision) in
      (s, if negb acted then send a reply (Err (wrong_state a "a fresh computer"))
          else if restore then park a Ans.Ready reply
          else let (a, r) := acknowledged a in send a reply r)
  | Cmd.Checkpoint spec reply =>
      let '(s, a, acted) := dispatch s (a <| act_capture := Some spec |>) Ev.Checkpoint in
      (s, if acted then a <| act_capture_reply := Some reply |>
          else observe (a <| act_capture := None |>)
                 (RepliedCapture reply (Err (wrong_state a "Ready"))))
  | Cmd.Pause reason reply =>
      let '(s, a, acted) := dispatch s (a <| act_pause_reason := reason |>) (Ev.Pause reason) in
      (s, if acted then park a Ans.Paused reply
          else send a reply (match public a with
                             | CState.Paused => Ok tt
                             | _ => Err (wrong_state a "Ready")
                             end))
  | Cmd.Resume reason reply =>
      let '(s, a, acted) := dispatch s (a <| act_resume_reason := reason |>) Ev.Resume in
      (s, if acted then park a Ans.Resumed reply
          else send a reply (match public a with
                             | CState.Ready | CState.Running => Ok tt
                             | _ => Err (wrong_state a "Paused")
                             end))
  | Cmd.Stop budget reply =>
      let '(s, a, acted) := dispatch s a (Ev.Stop (budget_millis budget)) in
      (s, if acted then park a Ans.Stopped reply
          else if launch_in_flight s then
            a <| act_pending_stop := Some (default budget (act_pending_stop a)) |>
              <| act_waiters := act_waiters a ++ [(Ans.Stopped, reply)] |>
          else match public a with
               | CState.Stopping => park a Ans.Stopped reply
               | CState.Stopped => let (a, r) := finish_stop a in send a reply r
               | _ => send a reply (Err (wrong_state a "Ready, Running, or Stopping"))
               end)
  | Cmd.Remove force reply =>
      let a := a <| act_waiters := act_waiters a ++ [(Ans.Removed, reply)] |> in
      let '(s, a, acted) := dispatch s a (Ev.Remove force) in
      (s, if acted then a
          else match s with
               | St.Removing =>
                   match act_inflight a, act_retry a with
                   | None, None => restart_teardown a s
                   | _, _ => a
                   end
               | St.Gone =>
                   match act_stalled a, act_retry a with
                   | Some _, None => resume_stalled a
                   | Some _, Some _ => a
                   | None, _ => answer a Ans.Removed
                   end
               | _ => answer_last a
                        (Err (wrong_state a "non-running (pass force=true to override)"))
               end)
  | Cmd.Detach reply =>
      let a := a <| act_answer_error := None |> <| act_unconfirmed := None |> in
      let a := a <| act_waiters := act_waiters a ++ [(Ans.Detached, reply)] |> in
      let '(s, a, acted) := dispatch s a Ev.Detach in
      (s, if acted then a
          else answer_last a
            (if nothing_to_hand_over s then Ok tt
             else Err (wrong_state a
                         "a computer with no launch, capture, or teardown in flight")))
  | Cmd.ClaimWorkload claim reply =>
      let '(s, a, taken) := dispatch s a (Ev.ClaimWorkload claim) in
      (s, send a reply (if taken then Ok tt
                        else Err (wrong_state a match claim with
                                                | Api => "Ready"
                                                | Initial => "Starting or Ready"
                                                end)))
  | Cmd.WorkloadExited outcome =>
      let rt := act_runtime a in
      let rt := match outcome with
                | WExited status => rt <| last_exit_status := Some status |>
                | WBroke _ => rt
                end in
      let rt := rt <| last_exited_at := Some (w_now (next_world a)) |> in
      let a := (ticked a) <| act_runtime := rt |> <| act_exit := Some outcome |> in
      fst (dispatch s a Ev.WorkloadExited)
  | Cmd.ReleaseWorkload => fst (dispatch s a Ev.WorkloadReleased)
  | Cmd.SetLifecycle update reply => (s, set_lifecycle s a update reply)
  | Cmd.VmExited =>
      let detail := "computer " +:+ act_id a +:+ " exited unexpectedly" in
      fst (dispatch s (a <| act_error := Some (default detail (act_error a)) |>) Ev.VmExited)
  end.

(** ** Completions ([inflight.rs]) *)

(** A stop that waited for a launch, now that the launch has resolved. *)
Definition serve_pending_stop (s : State) (a : Actor) : State * Actor :=
  match act_pending_stop a with
  | None => (s, a)
  | Some budget =>
      if launch_in_flight s then (s, a)
      else
        let a := a <| act_pending_stop := None |> in
        match public a with
        | CState.Ready | CState.Running =>
            fst (dispatch s a (Ev.Stop (budget_millis budget)))
        | _ => (s, answer a Ans.Stopped)
        end
  end.

(** The failed sub-task's arm of [on_completion]. *)
Definition take_failure (s : State) (a : Actor) (failure : TaskFailure) : Actor :=
  let a := a <| act_error := Some (message failure) |> in
  let error := into_error failure in
  let '(a, error) :=
    match act_capture_reply a with
    | Some reply =>
        (observe (a <| act_capture_reply := None |>) (RepliedCapture reply (Err error)),
         CErr.Other (error_to_string error))
    | None => (a, error)
    end in
  let a := match act_pending_stop a with
           | Some _ => answer (a <| act_pending_stop := None |>) Ans.Stopped
           | None => a
           end in
  match s with
  | St.Removing =>
      let error := match act_unwinding a with
                   | Some cause => CErr.Unavailable (error_to_string cause
                       +:+ "; teardown incomplete: " +:+ error_to_string error)
                   | None => error
                   end in
      fst (fail_every_waiter (a <| act_unwinding := None |>) error)
  | _ => a <| act_unwinding := Some error |>
  end.

(** What a report makes of the actor, and the event it drives the machine
    with. *)
Definition take_report (s : State) (a : Actor) (report : TaskReport) : Actor * option Event :=
  match report with
  | Booted agent => (publish_agent a agent, Some Ev.AgentReady)
  | RestoredBy agent outcome =>
      (publish_agent (a <| act_outcome := outcome |>) agent, Some Ev.Restored)
  | ResumedBy agent => (publish_agent a agent, Some Ev.Restored)
  | GatedOk => (a, Some Ev.Gated)
  | Captured info =>
      let a := match act_capture_reply a with
               | Some reply =>
                   observe (a <| act_capture_reply := None |>) (RepliedCapture reply (Ok info))
               | None => a
               end in
      (a <| act_pause_snapshot_id := Some (snapshot_id info) |>,
       Some (Ev.CaptureDone (snapshot_id info)))
  | ReleasedAll Full => (a, Some Ev.RemoveDone)
  | ReleasedAll KeepDisk => (a, Some Ev.ReleasedForPause)
  | ReleasedAll Runtime => (a, None)
  | StoppedOk => (a, Some Ev.StopDone)
  | FailedBy failure => (take_failure s a failure, Some (failure_event failure))
  end.

(** A failure the machine did not unwind with a removal answers now. *)
Definition deliver_unwinding (s : State) (a : Actor) : Actor :=
  match act_unwinding a, s with
  | Some error, St.Removing => a
  | Some error, _ => fst (fail_waiters (a <| act_unwinding := None |>) error)
  | None, _ => a
  end.

(** [on_completion] after its epoch check and before the deferred stop. *)
Definition take_completion (s : State) (a : Actor) (c : Completion) : State * Actor :=
  let taken := act_inflight a in
  let a := a <| act_inflight := None |> in
  let '(handed_off, a) :=
    match task_handoff <$> taken with
    | Some Awaited => (w_signalled (next_world a), ticked a)
    | _ => (false, a)
    end in
  let '(s, a) := if handed_off : bool then fst (dispatch s a Ev.ResourcesHandedOff) else (s, a) in
  let owed := act_clear_journal_after_release a in
  let a := a <| act_clear_journal_after_release := false |> in
  let a := match c_report c with
           | ReleasedAll _ => if owed : bool then clear_journal a else a
           | _ => a
           end in
  let '(a, event) := take_report s a (c_report c) in
  match event with
  | Some event =>
      let '(s, a, _) := dispatch s a event in (s, deliver_unwinding s a)
  | None => (s, publish_state a s)
  end.

Definition on_completion (s : State) (a : Actor) (c : Completion) : State * Actor :=
  if negb (c_epoch c =? act_epoch a)%Z then (s, a)
  else let '(s, a) := take_completion s a c in serve_pending_stop s a.

(** ** The actor's life ([mod.rs], [new] and [run]) *)

(** [ComputerActor::new]; the snapshot is the watch channel's current value. *)
Definition new_actor (id : ComputerId) (rt : ComputerRuntime) (gen : option Z) (dir : Path)
    (records : Store) (bus : EventBus) (snapshot : ComputerSnapshot)
    (deadlines : Deadlines) (timers_enabled : bool) : Actor :=
  MkActor id rt gen dir records bus snapshot [] [] None None None 0 None SHandoff
    RETRY_INITIAL None (rt_pause_snapshot_id rt) None default_outcome Requested RESUME
    None None None None false false deadlines None None None timers_enabled 0 [].

(** [run] up to its loop; [adopted] is [tasks.adopted_agent()]. *)
Definition start (a : Actor) (seed : Seeded) (adopted : option GuestAgent) : State * Actor :=
  let s := initial in
  let a := publish_state a s in
  let '(s, a) :=
    match seed with
    | Fresh => (s, a)
    | Recovered phase => fst (dispatch s a (Ev.Recovered phase))
    | Adopted =>
        let a := match adopted with Some agent => publish_agent a agent | None => a end in
        fst (dispatch s a Ev.Adopted)
    end in
  (s, rearm a s).

(** What the loop's [select!] takes next. The last two are the other writers of
    what the actor shares: its sub-tasks write the runtime, other computers
    publish on the bus. *)
Inductive Input :=
| InCommand (c : Command)
| InCompletion (c : Completion)
| InHandoff (landed : bool)
| InTtl
| InIdle
| InRetry
| InTimers (enabled : bool)
| InRuntime (rt : ComputerRuntime)
| InPeer (e : ComputerEvent).

(** What the wrapper of a spawned task can send: its own report or a failure. *)
Definition report_fits (t : Task) (r : TaskReport) : bool :=
  match t, r with
  | _, FailedBy _ => true
  | TBoot _, Booted _ => true
  | TGate, GatedOk => true
  | TRestore _, RestoredBy _ _ => true
  | TCheckpoint _ _, Captured _ => true
  | TResume, ResumedBy _ => true
  | TStop _ _, StoppedOk => true
  | TRelease scope, ReleasedAll scope' => bool_decide (scope = scope')
  | _, _ => false
  end.

(** The completion channel: a task sends once, under the epoch it was spawned
    with. *)
Definition sent_by_task (a : Actor) (c : Completion) : bool :=
  existsb (λ o, match o with
                | SpawnedTask epoch t => (epoch =? c_epoch c)%Z && report_fits t (c_report c)
                | _ => false
                end) (act_trace a)
  && negb (existsb (λ o, match o with
                         | TookCompletion epoch => (epoch =? c_epoch c)%Z
                         | _ => false
                         end) (act_trace a)).

(** A branch of the [select!]; [None] when it is not enabled. *)
Definition select (s : State) (a : Actor) (i : Input) : option (State * Actor) :=
  match i with
  | InCommand c => Some (on_command s a c)
  | InCompletion c =>
      if sent_by_task a c
      then Some (on_completion s (observe a (TookCompletion (c_epoch c))) c)
      else None
  | InHandoff landed =>
      match act_inflight a with
      | Some t =>
          match task_handoff t with
          | Awaited =>
              let h := if landed : bool then Abortable else JoinOnly in
              let a := a <| act_inflight := Some (MkPreemptible (task_epoch t) (task t) h) |> in
              Some (if landed then fst (dispatch s a Ev.ResourcesHandedOff) else (s, a))
          | _ => None
          end
      | None => None
      end
  | InTtl =>
      match act_ttl a with
      | Some _ => Some (fst (dispatch s (a <| act_ttl := None |>) Ev.TtlExpired))
      | None => None
      end
  | InIdle =>
      match act_idle a with
      | Some _ =>
          let action := dl_on_idle (act_deadlines a) in
          let a := a <| act_idle := None |> in
          let a := match action with
                   | Types.Pause => a <| act_pause_reason := IdleTimeout |>
                   | Kill => a
                   end in
          Some (fst (dispatch s a (Ev.IdleExpired action)))
      | None => None
      end
  | InRetry =>
      match act_retry a with
      | Some _ => Some (s, resume_stalled (a <| act_retry := None |>))
      | None => None
      end
  | InTimers enabled => Some (s, rearm (a <| act_timers_enabled := enabled |>) s)
  | InRuntime rt => Some (s, a <| act_runtime := rt |>)
  | InPeer e => Some (s, a <| act_bus := bus_publish (act_bus a) e |>)
  end.

(** Whether the loop ends after a branch: a computer whose record would not
    delete is not gone yet. *)
Definition ended (s : State) (a : Actor) : bool :=
  bool_decide (s = St.Gone) && match act_stalled a with None => true | Some _ => false end.

(** Turns of the loop on a sequence of inputs; [None] when one of them is not
    enabled or comes after the end. *)
Fixpoint turns (s : State) (a : Actor) (inputs : list Input) : option (State * Actor) :=
  match inputs with
  | [] => Some (s, a)
  | i :: inputs =>
      if ended s a then None
      else match select s a i with
           | Some (s, a) => turns s a inputs
           | None => None
           end
  end.

(** [run]: the start, then turns of the loop. *)
Definition run_actor (a : Actor) (seed : Seeded) (adopted : option GuestAgent) (inputs : list Input)
    : option (State * Actor) :=
  let '(s, a) := start a seed adopted in turns s a inputs.

(** After the loop: the task is cut, the registry entry dropped and every
    caller still parked is told the computer is gone. *)
Definition finish (a : Actor) : Actor :=
  let a := match act_inflight a with
           | Some t => observe (a <| act_inflight := None |>) (AbortedTask t)
           | None => a
           end in
  let a := unregister a in
  let '(a, _, _) := settle_waiters a (λ _, true)
                      (λ _, Err (CErr.NotFound (act_id a))) 0 (act_waiters a) in
  let a := a <| act_waiters := [] |> in
  match act_capture_reply a with
  | Some reply =>
      observe (a <| act_capture_reply := None |>)
        (RepliedCapture reply (Err (CErr.NotFound (act_id a))))
  | None => a
  end.
End actor.
