(* ===== verification/ActorKey.v ===== *)
(** * The actor's sub-task discipline

    What the lifecycle actor of [Actor] does to its in-flight sub-task, to a
    stalled teardown, to the event queue and to a parked capture, as a small
    relation on the part of the actor those live in. Every operation of the
    actor is shown to follow it, whatever the world answers; the invariants of
    the actor are then proved on the relation. *)

From stdpp Require Import base list gmap strings pretty.
From Stdlib Require Import ZArith Lia.
From S2P Require Import Prelude Types RecordPhase Lifecycle Policy Events AtomicFile RecordStore RecordPort Runtime Recovery Actor.

(** The sub-task part of the trace. *)
Inductive TaskObs :=
| LSpawned (epoch : Z) (t : Task)
| LCut (p : Preemptible)
| LTook (epoch : Z).

Record Key := MkKey {
  k_inflight : option Preemptible;
  k_epoch : Z;
  k_capture : option nat;
  k_stalled : option Stalled;
  k_stalled_on : StalledStep;
  k_queued : list Event;
  k_log : list TaskObs
}.

#[export] Instance eta_Key : Eta Key := {|
  eta k := MkKey (k_inflight k) (k_epoch k) (k_capture k) (k_stalled k)
    (k_stalled_on k) (k_queued k) (k_log k);
  eta_ok := ltac:(by intros [])
|}.

(** ** What an effect may do *)

Definition push_event (k : Key) (e : Event) : Key :=
  k <| k_queued := k_queued k ++ [e] |>.
Definition log_task (k : Key) (o : TaskObs) : Key := k <| k_log := k_log k ++ [o] |>.
Definition bump (k : Key) : Key := k <| k_epoch := (k_epoch k + 1)%Z |>.

Definition spawn_key (k : Key) (h : Handoff) (t : Task) : Key :=
  let k := match k_inflight k with
           | Some p => (log_task k (LCut p)) <| k_inflight := None |> <| k_capture := None |>
           | None => k
           end in
  let e := (k_epoch k + 1)%Z in
  (log_task k (LSpawned e t)) <| k_epoch := e |> <| k_inflight := Some (MkPreemptible e t h) |>.

(** The handoff and the task an effect spawns. *)
Definition spawn_for (fx : Effect) (h : Handoff) (t : Task) : Prop :=
  match fx with
  | Fx.SpawnBoot warm => h = Awaited ∧ t = TBoot warm
  | Fx.SpawnGate => h = Abortable ∧ t = TGate
  | Fx.SpawnRestore origin => h = JoinOnly ∧ t = TRestore origin
  | Fx.SpawnCheckpoint hold => h = Abortable ∧ ∃ spec, t = TCheckpoint hold spec
  | Fx.SpawnResume => h = JoinOnly ∧ t = TResume
  | Fx.SpawnStop _ _ => h = Abortable ∧ ∃ budget drain, t = TStop budget drain
  | Fx.SpawnRelease scope => h = Abortable ∧ t = TRelease scope
  | _ => False
  end.

(** The writes whose refusal fails the flow. *)
Definition refusable (fx : Effect) : bool :=
  match fx with
  | Fx.PersistPhase p d => negb (bool_decide (d = GateJournal)) && negb (bool_decide (p = Phase.Creating))
  | Fx.CommitRestored d => negb (bool_decide (d = GateJournal))
  | _ => false
  end.

Definition quiet_effect (fx : Effect) : bool :=
  match fx with
  | Fx.PersistPhase _ _ | Fx.CommitRestored _ | Fx.ForgetRecord _ | Fx.Detach
  | Fx.Publish _ | Fx.ArmTimer _ | Fx.CancelTimer _ | Fx.Answer _ | Fx.ClearJournal => true
  | _ => false
  end.

Definition with_handoff (p : Preemptible) (h : Handoff) : Preemptible :=
  MkPreemptible (task_epoch p) (task p) h.

(** The ways a wait on the in-flight task may go: cut once it may be, waited
    for otherwise; [None] when it could not be taken. *)
Definition preempted (p : Preemptible) (cut : bool) (p' : Preemptible) : Prop :=
  match task_handoff p with
  | Abortable => cut = true ∧ p' = with_handoff p Abortable
  | JoinOnly => cut = false ∧ p' = with_handoff p JoinOnly
  | Awaited => (cut = true ∧ p' = with_handoff p Abortable) ∨
               (cut = false ∧ (p' = with_handoff p JoinOnly ∨ p' = with_handoff p Awaited))
  end.

Definition cut_key (k : Key) (cut : bool) (p : Preemptible) : Key :=
  if cut then log_task k (LCut p) else k.

Inductive abort_key (k : Key) : Key → Drained → Prop :=
| AK_none : k_inflight k = None → abort_key k (bump k) Continue
| AK_done p cut p' :
    k_inflight k = Some p → preempted p cut p' → task_handoff p' ≠ Awaited →
    abort_key k
      ((bump (cut_key k cut p')) <| k_inflight := None |> <| k_capture := None |>) Continue
| AK_panicked p cut p' :
    k_inflight k = Some p → preempted p cut p' → task_handoff p' ≠ Awaited →
    abort_key k ((bump (cut_key k cut p')) <| k_inflight := None |>) StalledFlow
| AK_stalled p cut p' :
    k_inflight k = Some p → preempted p cut p' →
    abort_key k ((cut_key k cut p') <| k_inflight := Some p' |> <| k_stalled_on := SHandoff |>)
      StalledFlow.

Inductive effect_key (k : Key) : Effect → Key → Drained → Prop :=
| EK_quiet fx : quiet_effect fx = true → effect_key k fx k Continue
| EK_refused fx : refusable fx = true → effect_key k fx (push_event k Ev.Failure) Refused
| EK_forget e :
    effect_key k (Fx.ForgetRecord e) (k <| k_stalled_on := SRecord e |>) StalledFlow
| EK_detached : effect_key k Fx.Detach (push_event k Ev.Detached) Continue
| EK_spawn fx h t : spawn_for fx h t → effect_key k fx (spawn_key k h t) Continue
| EK_abort k' fl : abort_key k k' fl → effect_key k Fx.AbortInflight k' fl.

Definition park_key (k : Key) (s : State) (fx : list Effect) : Key :=
  k <| k_stalled := Some (MkStalled (k_stalled_on k) s fx) |> <| k_stalled_on := SHandoff |>.

Inductive drain_key (s : State) : Key → list Effect → Key → Prop :=
| DK_nil k : drain_key s k [] k
| DK_cons k fx k1 rest k2 :
    effect_key k fx k1 Continue → drain_key s k1 rest k2 → drain_key s k (fx :: rest) k2
| DK_stalled k fx k1 rest :
    effect_key k fx k1 StalledFlow → drain_key s k (fx :: rest) (park_key k1 s rest)
| DK_refused k fx k1 rest :
    effect_key k fx k1 Refused → drain_key s k (fx :: rest) k1.

(** ** The actor follows it *)

Section follows.
Context `{Resources} `{RecordPort} {GuestAgent : Type} (world : nat → World).
Abbreviation Actor := (ComputerActor (GuestAgent := GuestAgent)) (only parsing).

Definition task_obs (o : Obs) : option TaskObs :=
  match o with
  | SpawnedTask epoch t => Some (LSpawned epoch t)
  | AbortedTask p => Some (LCut p)
  | TookCompletion epoch => Some (LTook epoch)
  | _ => None
  end.

Definition key (a : Actor) : Key :=
  MkKey (act_inflight a) (act_epoch a) (act_capture_reply a) (act_stalled a)
    (act_stalled_on a) (act_queued a) (omap task_obs (act_trace a)).

Definition reply_of (o : Obs) : option nat :=
  match o with Replied r _ | RepliedCapture r _ => Some r | _ => None end.

(** The parked callers a pass settles hear exactly once, the others stay. *)
Lemma settle_waiters_spec (a : Actor) due r n l :
  ∃ sent, settle_waiters a due r n l =
      (a <| act_trace := act_trace a ++ sent |>,
       filter (λ w, due (fst w) = false) l, n + length sent) ∧
    omap reply_of sent ++ (filter (λ w, due (fst w) = false) l).*2 ≡ₚ l.*2 ∧
    omap task_obs sent = [].
Proof.
  revert a n. induction l as [|[parked reply] l IH]; intros a n; simpl.
  { exists []. rewrite app_nil_r, Nat.add_0_r. by destruct a. }
  destruct (due parked) eqn:Hd.
  - destruct (IH (send a reply (r n)) (S n)) as (sent & -> & Hp & Ht).
    exists (Replied reply (r n) :: sent). simpl. rewrite filter_cons_False by (simpl; congruence).
    split_and!; [|by rewrite Hp|done].
    rewrite <- Nat.add_succ_comm. destruct a; cbv [send observe upd]; simpl.
    by rewrite <- app_assoc.
  - destruct (IH a n) as (sent & -> & Hp & Ht). exists sent.
    rewrite filter_cons_True by done. split_and!; [done| |done].
    simpl. by rewrite <- Permutation_middle, Hp.
Qed.

Lemma key_log_app (a : Actor) obs :
  omap task_obs obs = [] → key (a <| act_trace := act_trace a ++ obs |>) = key a.
Proof.
  intros Ho. destruct a. unfold key. cbv [upd]; simpl. by rewrite omap_app, Ho, app_nil_r.
Qed.

Lemma key_observe (a : Actor) o : task_obs o = None → key (observe a o) = key a.
Proof. intros Ho. apply key_log_app. simpl. by rewrite Ho. Qed.

Lemma key_send (a : Actor) reply r : key (send a reply r) = key a.
Proof. by apply key_observe. Qed.

Lemma key_publish_state (a : Actor) s : key (publish_state a s) = key a.
Proof. done. Qed.

Lemma key_publish_agent (a : Actor) agent : key (publish_agent a agent) = key a.
Proof. done. Qed.

Lemma key_forget_agent (a : Actor) : key (forget_agent a) = key a.
Proof. done. Qed.

Lemma key_publish_event (a : Actor) n : key (publish_event world a n) = key a.
Proof. by destruct n. Qed.

Lemma key_arm (a : Actor) t s : key (arm world a t s) = key a.
Proof. unfold arm. destruct (act_timers_enabled a); [|done]. by destruct t. Qed.

Lemma key_rearm (a : Actor) s : key (rearm world a s) = key a.
Proof. unfold rearm. by rewrite !key_arm. Qed.

Lemma key_park (a : Actor) ans reply : key (park a ans reply) = key a.
Proof. unfold park. destruct (act_answer_error a); [by rewrite key_send|done]. Qed.

Lemma key_settle (a : Actor) due r n l :
  key (fst (fst (settle_waiters a due r n l))) = key a.
Proof.
  destruct (settle_waiters_spec a due r n l) as (sent & -> & _ & Ht).
  by apply key_log_app.
Qed.

Lemma key_answer (a : Actor) ans : key (answer a ans) = key a.
Proof.
  unfold answer. match goal with |- context [settle_waiters ?b ?d ?r ?n ?l] =>
    pose proof (key_settle b d r n l) as Hk; destruct (settle_waiters b d r n l) as [[a' rem] m]
  end. exact Hk.
Qed.

Lemma key_fail_parked (a : Actor) e b : key (fst (fail_parked a e b)) = key a.
Proof.
  unfold fail_parked. match goal with |- context [settle_waiters ?b ?d ?r ?n ?l] =>
    pose proof (key_settle b d r n l) as Hk; destruct (settle_waiters b d r n l) as [[a' rem] m]
  end. exact Hk.
Qed.

Lemma key_clear_journal (a : Actor) : key (clear_journal world a) = key a.
Proof. unfold clear_journal. destruct (act_journal_blocked a); [done|]. by rewrite key_observe. Qed.

Lemma key_fail_write (a : Actor) d :
  key (fst (fail_write a d)) = push_event (key a) Ev.Failure ∧
  snd (fail_write a d) = Refused.
Proof.
  unfold fail_write, fail_every_waiter.
  match goal with |- context [fail_parked ?b ?e true] =>
    pose proof (key_fail_parked b e true) as Hk; destruct (fail_parked b e true) as [a' n] end.
  simpl in *. split; [|done].
  change (key a' = key a) in Hk. rewrite <- Hk. by destruct (n =? 0).
Qed.

(** A write that goes through or is let through changes nothing of the key;
    one that must go through and does not queues the failure. *)
Definition written (k : Key) (d : Durability) (k' : Key) (fl : Drained) : Prop :=
  (k' = k ∧ fl = Continue) ∨ (k' = push_event k Ev.Failure ∧ fl = Refused ∧ d ≠ GateJournal).

Lemma written_fail_write (a : Actor) k d detail :
  key a = k → d ≠ GateJournal →
  written k d (key (fst (fail_write a detail))) (snd (fail_write a detail)).
Proof. intros <- Hd. destruct (key_fail_write a detail) as [-> ->]. by right. Qed.

Lemma commit_reverting_key revert (a : Actor) p t d :
  (d = Report RevertToPaused → ∀ a1 : Actor, key a1 = key a →
     written (key a) Warn (key (fst (revert a1))) (snd (revert a1))) →
  let r := commit_reverting world revert a p t d in
  written (key a) d (key (fst r)) (snd r).
Proof.
  intros Hr. unfold commit_reverting. simpl.
  destruct (act_generation a) as [gen|]; [|by left].
  destruct (port_transition _ _ _ _ _) as [st [c|e]].
  - destruct (durability_error c) as [err|]; [|by left].
    destruct d as [| |[]]; try by left.
    + by apply written_fail_write.
    + match goal with |- context [revert ?b] =>
        specialize (Hr eq_refl b eq_refl); destruct (revert b) as [a2 fl] end.
      simpl in Hr.
      destruct Hr as [[Hk ->]|(Hk & -> & _)]; [by apply written_fail_write|by right].
  - destruct d as [| |u]; [|by left|]; by apply written_fail_write.
Qed.

Lemma commit_key (a : Actor) p t d :
  let r := commit world a p t d in written (key a) d (key (fst r)) (snd r).
Proof.
  apply commit_reverting_key. intros -> a1 Hk. rewrite <- Hk.
  by apply commit_reverting_key.
Qed.

Lemma persist_key (a : Actor) p d :
  let r := persist_phase world a p d in
  written (key a) d (key (fst r)) (snd r) ∧ (p = Phase.Creating → snd r = Continue).
Proof.
  destruct p; (split; [|done]); try apply commit_key; [by left|].
  unfold persist_phase.
  match goal with |- context [commit world ?b ?q ?t ?d] => apply (commit_key b q t d) end.
Qed.

Lemma forget_key (a : Actor) e :
  let r := forget world a e in
  (key (fst r) = key a ∧ snd r = Continue) ∨
  (key (fst r) = (key a) <| k_stalled_on := SRecord e |> ∧ snd r = StalledFlow).
Proof.
  unfold forget. destruct (act_generation a) as [gen|];
    [|left; split; [by apply (key_observe a Unregistered)|done]].
  match goal with |- context [let (_, _) := ?x in _] => destruct x as [st [c|err]] end;
    [left|by right].
  split; [|done].
  match goal with |- context [unregister ?b] => transitivity (key (unregister b)); [done|] end.
  unfold unregister. rewrite key_observe by done. by destruct (durability_error c).
Qed.

Lemma key_abandon (a : Actor) :
  key (abandon_capture a) = (key a) <| k_capture := None |>.
Proof.
  unfold abandon_capture. destruct (act_capture_reply a) as [r|] eqn:Hc.
  - by rewrite key_observe.
  - unfold key. rewrite Hc. done.
Qed.

Lemma key_log (a : Actor) o x :
  task_obs o = Some x → key (observe a o) = log_task (key a) x.
Proof.
  intros Ho. destruct a. unfold key, observe, log_task. cbv [upd]; simpl.
  rewrite omap_app. simpl. by rewrite Ho.
Qed.

Lemma key_spawned (a : Actor) h t :
  key ((observe a (SpawnedTask (act_epoch a + 1) t)) <| act_epoch := (act_epoch a + 1)%Z |>
         <| act_inflight := Some (MkPreemptible (act_epoch a + 1) t h) |>) =
  (log_task (key a) (LSpawned (k_epoch (key a) + 1) t))
    <| k_epoch := (k_epoch (key a) + 1)%Z |>
    <| k_inflight := Some (MkPreemptible (k_epoch (key a) + 1) t h) |>.
Proof. by rewrite <- (key_log a (SpawnedTask (act_epoch a + 1) t)). Qed.

Lemma key_spawn (a : Actor) h t : key (spawn_task a h t) = spawn_key (key a) h t.
Proof.
  unfold spawn_task, spawn_key.
  change (k_inflight (key a)) with (act_inflight a).
  destruct (act_inflight a) as [p|] eqn:Hi; [|by rewrite key_spawned].
  by rewrite key_spawned, key_abandon, (key_log _ _ (LCut p)).
Qed.

Lemma join_key (a : Actor) p :
  k_inflight (key a) = None →
  let r := join_inflight world a p in
  (key (fst r) = (bump (key a)) <| k_capture := None |> ∧ snd r = Continue) ∨
  (key (fst r) = bump (key a) ∧ snd r = StalledFlow) ∨
  (key (fst r) = (key a) <| k_inflight := Some p |> <| k_stalled_on := SHandoff |> ∧
   snd r = StalledFlow).
Proof.
  intros Hi. unfold join_inflight. destruct (w_join _) as [| |e|].
  - left. cbn [fst snd]. by rewrite key_abandon.
  - left. cbn [fst snd]. by rewrite key_abandon.
  - right. left. unfold fail_every_waiter.
    match goal with |- context [fail_parked ?b ?e true] =>
      pose proof (key_fail_parked b e true) as Hk; destruct (fail_parked b e true) as [a' n] end.
    simpl in *. split; [|done]. change (key a' = key a) in Hk. by rewrite <- Hk.
  - right. right. done.
Qed.

(** The join, after what the handoff decided. *)
Lemma join_abort_key (a a0 : Actor) p cut p' :
  act_inflight a0 = Some p → preempted p cut p' → task_handoff p' ≠ Awaited →
  key a = (cut_key (key a0) cut p') <| k_inflight := None |> →
  let r := join_inflight world a p' in abort_key (key a0) (key (fst r)) (snd r).
Proof.
  intros Hi Hp Hh Hk. assert (k_inflight (key a) = None) as Hn by by rewrite Hk.
  cbv zeta. destruct (join_key a p' Hn) as [[-> ->]|[[-> ->]|[-> ->]]]; rewrite ?Hk.
  - by apply (AK_done _ p cut p').
  - by apply (AK_panicked _ p cut p').
  - by apply (AK_stalled _ p cut p').
Qed.

Lemma abort_inflight_key (a : Actor) :
  let r := abort_inflight world a in abort_key (key a) (key (fst r)) (snd r).
Proof.
  unfold abort_inflight. destruct (act_inflight a) as [p|] eqn:Hi; [|by apply AK_none].
  unfold preempted. destruct (task_handoff p) eqn:Hh.
  - destruct (w_handoff _).
    + eapply (join_abort_key _ a p true); [done| |done|by erewrite key_log].
      unfold preempted. rewrite Hh. by left.
    + eapply (join_abort_key _ a p false); [done| |done|done].
      unfold preempted. rewrite Hh. right. by split; [|left].
    + apply (AK_stalled (key a) p false (with_handoff p Awaited)); [done|]. unfold preempted. rewrite Hh. right. by split; [|right].
  - eapply (join_abort_key _ a p true); [done| |done|by erewrite key_log].
    unfold preempted. by rewrite Hh.
  - eapply (join_abort_key _ a p false); [done| |done|done].
    unfold preempted. by rewrite Hh.
Qed.

Lemma apply_effect_key (a : Actor) fx s :
  let r := apply_effect world a fx s in effect_key (key a) fx (key (fst r)) (snd r).
Proof.
  destruct fx as [p d|d|e|w|o| |h| |b dr|sc| | |n|t|t|ans| ]; simpl;
    try (rewrite key_spawn; apply EK_spawn; simpl; by eauto 6).
  - destruct (persist_key a p d) as [[[-> ->]|(-> & -> & Hd)] Hc]; [by apply EK_quiet|].
    apply EK_refused. simpl. rewrite !bool_decide_false; [done| |done].
    intros Hp. by specialize (Hc Hp).
  - destruct (commit_key a Phase.Ready (Tr.ReadyWithOutcome (act_outcome a)) d)
      as [[-> ->]|(-> & -> & Hd)]; [by apply EK_quiet|].
    apply EK_refused. simpl. by rewrite bool_decide_false.
  - destruct (forget_key a e) as [[-> ->]|[-> ->]]; [by apply EK_quiet|by apply EK_forget].
  - destruct (handover _ _) as [u|f]; [by apply EK_detached|].
    unfold fail_waiters. rewrite key_fail_parked. destruct (sn_agent _); by apply EK_quiet.
  - apply EK_abort, abort_inflight_key.
  - rewrite key_publish_event. by apply EK_quiet.
  - rewrite key_arm. by apply EK_quiet.
  - destruct t; by apply EK_quiet.
  - rewrite key_answer. unfold fail_waiters.
    destruct ans; try by apply EK_quiet.
    destruct (act_unwinding a); [rewrite key_fail_parked|]; by apply EK_quiet.
  - destruct (act_inflight a); [|rewrite key_clear_journal]; by apply EK_quiet.
Qed.

Lemma drain_effects_key (a : Actor) s fx :
  drain_key s (key a) fx (key (drain_effects world a s fx)).
Proof.
  revert a. induction fx as [|x fx IH]; intros a; simpl; [constructor|].
  pose proof (apply_effect_key a x s) as Hk. simpl in Hk.
  destruct (apply_effect world a x s) as [a1 []]; simpl in Hk.
  - by eapply DK_cons.
  - by apply (DK_stalled s _ _ (key a1)).
  - by eapply DK_refused.
Qed.

End follows.
