(* ===== verification/ActorInv.v ===== *)
(** * Invariants of the actor's sub-task discipline

    On the relation of [ActorKey]: which sub-task may be in flight in which
    state, where a teardown may be parked, what may sit in the queue, and that
    every dispatch drains it. *)

From stdpp Require Import base list gmap strings pretty.
From Stdlib Require Import ZArith Lia.
From S2P Require Import Prelude Types RecordPhase Lifecycle Policy Events AtomicFile RecordStore RecordPort Runtime Recovery Actor ActorKey.

(** The flow a sub-task carries out, and the preemption it was spawned with. *)
Definition flow_of (t : Task) : Flow :=
  match t with
  | TBoot _ => FBoot
  | TGate => FGate
  | TRestore _ => FRestore
  | TCheckpoint hold _ => FCapture hold
  | TResume => FResume
  | TStop _ _ => FStop
  | TRelease scope => FRelease scope
  end.

Definition handoff_shape (p : Preemptible) : Prop :=
  match task p with
  | TBoot _ => True
  | TRestore _ | TResume => task_handoff p = JoinOnly
  | _ => task_handoff p = Abortable
  end.

(** A stop of a computer mid-capture whose [Stopping] write was refused: the
    capture is still in flight, and the queued failure supersedes it. *)
Definition stop_refused (s : State) (k : Key) : Prop :=
  s = St.Stopping ∧ k_queued k = [Ev.Failure] ∧
  ∃ p, k_inflight k = Some p ∧ flow_of (task p) = FCapture false.

(** A parked teardown: the removal waiting for the in-flight task, or the last
    step of one waiting for its record to delete. *)
Definition stalled_shape (s : State) (k : Key) (st : Stalled) : Prop :=
  (s = St.Removing ∧ st = MkStalled SHandoff St.Removing (drop 1 (removal [])) ∧
   ∀ p, k_inflight k = Some p → task p ≠ TRelease Full) ∨
  (s = St.Gone ∧ k_inflight k = None ∧
   (st = MkStalled (SRecord Removed) St.Gone [Fx.Publish Ntf.Removed; Fx.Answer Ans.Removed] ∨
    st = MkStalled (SRecord Aborted) St.Gone [])).

(** The log against the epoch: epochs only grow, and the task of the current
    one is in flight until its completion is taken. *)
Record log_ok (k : Key) : Prop := {
  lo_old : ∀ e t, LSpawned e t ∈ k_log k → (e ≤ k_epoch k)%Z;
  lo_inflight : ∀ p, k_inflight k = Some p → task_epoch p = k_epoch k;
  lo_current : ∀ t, LSpawned (k_epoch k) t ∈ k_log k → LTook (k_epoch k) ∉ k_log k →
    ∃ h, k_inflight k = Some (MkPreemptible (k_epoch k) t h)
}.

(** Only tasks that may be cut short were. *)
Definition cuts_ok (k : Key) : Prop :=
  ∀ p, LCut p ∈ k_log k → task_handoff p = Abortable ∧ handoff_shape p.

Definition dying (s : State) : bool :=
  match s with St.Removing | St.Gone => true | _ => false end.

(** The invariant within a dispatch. [calm] is whether no guest has died on its
    own, in which case no task that must be waited for is ever cut. *)
Record key_mid (calm : bool) (s : State) (k : Key) : Prop := {
  km_log : log_ok k;
  km_shape : ∀ p, k_inflight k = Some p → handoff_shape p;
  km_flow : ∀ p, k_inflight k = Some p →
    s = St.Removing ∨ awaits s = Some (flow_of (task p)) ∨ stop_refused s k;
  km_capture : is_Some (k_capture k) →
    (s = St.Checkpointing ∧ is_Some (k_inflight k)) ∨ dying s = true ∨ stop_refused s k;
  km_stalled : ∀ st, k_stalled k = Some st → stalled_shape s k st;
  km_stalled_on : s ≠ St.Gone → k_stalled_on k = SHandoff;
  km_queue : Forall (λ e, e = Ev.Failure ∨ e = Ev.Detached) (k_queued k);
  km_pending : k_queued k ≠ [] →
    dying s = true ∨ k_inflight k = None ∨ stop_refused s k;
  km_single : dying s = false → length (k_queued k) ≤ 1;
  km_cuts : calm = true → cuts_ok k
}.

(** Between turns only a dying computer, which ignores them, has events queued. *)
Record key_inv (calm : bool) (s : State) (k : Key) : Prop := {
  ki_mid : key_mid calm s k;
  ki_queue : k_queued k ≠ [] → dying s = true
}.

(** ** Steps on the key *)

(** Reduce the projections of an updated key. *)
Ltac key_simpl :=
  repeat match goal with k : Key |- _ => destruct k as [?inf ?ep ?cap ?st ?on ?q ?lg] end;
  cbv [spawn_key cut_key bump log_task push_event park_key with_handoff upd] in *; simpl in *.

Lemma log_ok_spawn k h t : log_ok k → log_ok (spawn_key k h t).
Proof.
  intros [Hold Hin Hcur]. key_simpl.
  assert (∀ log, (∀ e t', LSpawned e t' ∈ log → (e ≤ ep)%Z) →
    log_ok (MkKey (Some (MkPreemptible (ep + 1) t h)) (ep + 1) cap
      st on q (log ++ [LSpawned (ep + 1) t]))) as Hok.
  { intros log Hlog. split; simpl.
    - intros e t'. rewrite elem_of_app, list_elem_of_singleton.
      intros [Hx|[= -> _]]; [apply Hlog in Hx|]; lia.
    - by intros p [= <-].
    - intros t'. rewrite elem_of_app, list_elem_of_singleton.
      intros [Hx%Hlog|[= ->]]; [lia|by eexists]. }
  destruct inf as [p|]; simpl.
  - destruct (Hok (lg ++ [LCut p])) as [H1 H2 H3].
    { intros e t'. rewrite elem_of_app, list_elem_of_singleton. intros [|]; [eauto|done]. }
    by split.
  - by apply Hok.
Qed.

Lemma log_ok_cut k p : log_ok k → log_ok (log_task k (LCut p)).
Proof.
  intros [Hold Hin Hcur]. key_simpl. split; simpl; [|done|].
  - intros e t. rewrite elem_of_app, list_elem_of_singleton. intros [|]; [eauto|done].
  - intros t. rewrite !elem_of_app, !list_elem_of_singleton.
    intros [Hx|]; [|done]. intros Hn. apply (Hcur t Hx). naive_solver.
Qed.

Lemma log_ok_cut_key k cut p : log_ok k → log_ok (cut_key k cut p).
Proof. intros Hk. destruct cut; [by apply log_ok_cut|done]. Qed.

(** A bump leaves no task of the current epoch. *)
Lemma log_ok_bump k k' :
  log_ok k → k_log k' = k_log k → k_epoch k' = (k_epoch k + 1)%Z → k_inflight k' = None →
  log_ok k'.
Proof.
  intros [Hold _ _] Hl He Hi. split; rewrite ?Hl, ?He.
  - intros e t Hx%Hold. lia.
  - by rewrite Hi.
  - intros t Hx%Hold. lia.
Qed.

Lemma log_ok_same k k' :
  log_ok k → k_log k' = k_log k → k_epoch k' = k_epoch k → k_inflight k' = k_inflight k →
  log_ok k'.
Proof. intros [] Hl He Hi. by split; rewrite ?Hl, ?He, ?Hi. Qed.

Lemma log_ok_rehand k k' p p' :
  log_ok k → k_log k' = k_log k → k_epoch k' = k_epoch k →
  k_inflight k = Some p → k_inflight k' = Some p' →
  task_epoch p' = task_epoch p → task p' = task p → log_ok k'.
Proof.
  intros [Hold Hin Hcur] Hl He Hi Hi' Hep Ht. split; rewrite ?Hl, ?He.
  - done.
  - rewrite Hi'. intros p0 [= <-]. rewrite Hep. by apply Hin.
  - intros t Hx Hn. destruct (Hcur t Hx Hn) as [h Hh]. rewrite Hi in Hh.
    injection Hh as ->. simpl in *. exists (task_handoff p').
    rewrite Hi'. f_equal. destruct p'; simpl in *; congruence.
Qed.

Lemma cuts_ok_cut k p : cuts_ok k → task_handoff p = Abortable → handoff_shape p →
  cuts_ok (log_task k (LCut p)).
Proof.
  intros Hc Hp Hs q. unfold log_task. key_simpl.
  rewrite elem_of_app, list_elem_of_singleton. intros [Hx|[= ->]]; [by apply Hc|done].
Qed.

Lemma cuts_ok_spawn k h t :
  cuts_ok k → (∀ p, k_inflight k = Some p → task_handoff p = Abortable ∧ handoff_shape p) →
  cuts_ok (spawn_key k h t).
Proof.
  intros Hc Hp q Hq. unfold cuts_ok in Hc. key_simpl. destruct inf as [p|]; simpl in Hq;
    rewrite ?elem_of_app, !list_elem_of_singleton in Hq; naive_solver.
Qed.

(** What survives between a live state and whatever follows it. *)
Record key_base (calm : bool) (k : Key) : Prop := {
  kb_log : log_ok k;
  kb_shape : ∀ p, k_inflight k = Some p → handoff_shape p;
  kb_stalled : k_stalled k = None;
  kb_stalled_on : k_stalled_on k = SHandoff;
  kb_cuts : calm = true → cuts_ok k
}.

Lemma base_of_mid calm s k : key_mid calm s k → dying s = false → key_base calm k.
Proof.
  intros [] Hd. split; try done.
  - destruct (k_stalled k) as [st|]; [|done].
    destruct (km_stalled0 st eq_refl) as [(-> & _)|(-> & _)]; done.
  - apply km_stalled_on0. by intros ->.
Qed.

Section base.
Context (calm : bool) (k : Key) (Hb : key_base calm k) (Hq : k_queued k = []).

Lemma mid_carry s :
  (∀ p, k_inflight k = Some p → awaits s = Some (flow_of (task p))) →
  k_capture k = None → key_mid calm s k.
Proof.
  intros Hf Hc. destruct Hb. split; rewrite ?Hq, ?Hc; try done.
  - intros p Hp. right. left. by apply Hf.
  - intros st. congruence.
  - simpl. lia.
Qed.

Lemma mid_pushed s e :
  e = Ev.Failure ∨ e = Ev.Detached →
  k_inflight k = None → k_capture k = None → key_mid calm s (push_event k e).
Proof.
  intros He Hi Hc. destruct Hb as [Hl Hs Hst Ho Hk].
  split; change (k_inflight (push_event k e)) with (k_inflight k);
    change (k_capture (push_event k e)) with (k_capture k);
    change (k_stalled (push_event k e)) with (k_stalled k); rewrite ?Hi, ?Hc, ?Hst; try done.
  - by eapply log_ok_same.
  - unfold push_event. change (k_queued (k <| k_queued := ?l |>)) with l.
    rewrite Hq. by apply Forall_singleton.
  - intros _. right. by left.
  - intros _. unfold push_event. change (k_queued (k <| k_queued := ?l |>)) with l. by rewrite Hq.
Qed.

Lemma mid_stop_refused :
  (∀ p, k_inflight k = Some p → flow_of (task p) = FCapture false) →
  (is_Some (k_capture k) → is_Some (k_inflight k)) →
  key_mid calm St.Stopping (push_event k Ev.Failure).
Proof.
  intros Hf Hc. destruct Hb as [Hl Hs Hst Ho Hk].
  assert (k_queued (push_event k Ev.Failure) = [Ev.Failure]) as Hq'.
  { unfold push_event. change (k_queued (k <| k_queued := ?l |>)) with l. by rewrite Hq. }
  assert (∀ p, k_inflight k = Some p → stop_refused St.Stopping (push_event k Ev.Failure)) as Hr.
  { intros p Hp. split_and!; [done|done|]. exists p. split; [exact Hp|by apply Hf]. }
  split; change (k_inflight (push_event k Ev.Failure)) with (k_inflight k);
    change (k_capture (push_event k Ev.Failure)) with (k_capture k);
    change (k_stalled (push_event k Ev.Failure)) with (k_stalled k); rewrite ?Hst; try done.
  - by eapply log_ok_same.
  - intros p Hp. right. right. by eapply Hr.
  - intros [p Hp]%Hc. right. right. by eapply Hr.
  - rewrite Hq'. apply Forall_singleton. by left.
  - intros _. right. destruct (k_inflight k) as [p|] eqn:Hp; [right; by eapply Hr|by left].
  - by rewrite Hq'.
Qed.
End base.

Lemma mid_spawn calm k s h t :
  key_base calm k → (k_queued k = [] ∨ s = St.Removing) →
  Forall (λ e, e = Ev.Failure ∨ e = Ev.Detached) (k_queued k) →
  (s = St.Removing ∨ awaits s = Some (flow_of t)) →
  handoff_shape (MkPreemptible 0 t h) →
  (is_Some (k_capture k) → is_Some (k_inflight k) ∨ s = St.Removing) →
  (calm = true → ∀ p, k_inflight k = Some p → task_handoff p = Abortable) →
  key_mid calm s (spawn_key k h t).
Proof.
  intros [Hl Hs Hst Ho Hk] Hq HF Hf Hh Hc Hcut.
  assert (k_stalled (spawn_key k h t) = None) as Hst'.
  { unfold spawn_key. by destruct (k_inflight k). }
  assert (k_queued (spawn_key k h t) = k_queued k) as Hq'.
  { unfold spawn_key. by destruct (k_inflight k). }
  split.
  - by apply log_ok_spawn.
  - intros p [= <-]. done.
  - intros p [= <-]. destruct Hf; auto.
  - intros Hs'. destruct Hc as [[p Hp]|].
    + unfold spawn_key in Hs'. destruct (k_inflight k); [by destruct Hs'|done].
    + unfold spawn_key in Hs'. rewrite Hp in Hs'. by destruct Hs'.
    + subst s. by right; left.
  - by rewrite Hst'.
  - intros _. unfold spawn_key. by destruct (k_inflight k).
  - by rewrite Hq'.
  - rewrite Hq'. destruct Hq as [->| ->]; [done|by left].
  - rewrite Hq'. destruct Hq as [->| ->]; simpl; [lia|done].
  - intros Hcalm. apply cuts_ok_spawn; auto.
Qed.

(** Walk a drain over a known list of effects. *)
Ltac spawned_by H :=
  cbn [spawn_for] in H;
  lazymatch type of H with
  | False => destruct H
  | _ ∧ (∃ _ _, _) => destruct H as (-> & ? & ? & ->)
  | _ ∧ (∃ _, _) => destruct H as (-> & ? & ->)
  | _ ∧ _ => destruct H as [-> ->]
  end.

(** Effects that leave the key alone. *)
Definition inert (fx : Effect) : bool :=
  match fx with
  | Fx.Publish _ | Fx.ArmTimer _ | Fx.CancelTimer _ | Fx.Answer _ | Fx.ClearJournal => true
  | Fx.PersistPhase _ GateJournal => true
  | _ => false
  end.

Definition spawning (fx : Effect) : bool :=
  match fx with
  | Fx.SpawnBoot _ | Fx.SpawnGate | Fx.SpawnRestore _ | Fx.SpawnCheckpoint _
  | Fx.SpawnResume | Fx.SpawnStop _ _ | Fx.SpawnRelease _ => true
  | _ => false
  end.

Lemma drain_inert s k fx rest k' :
  inert fx = true → drain_key s k (fx :: rest) k' → drain_key s k rest k'.
Proof.
  assert (∀ k1 fl, inert fx = true → effect_key k fx k1 fl → k1 = k ∧ fl = Continue) as He.
  { intros k1 fl Hi Hx. destruct Hx as [|fx Hr| | |fx h t Hs|]; try done.
    - by destruct fx as [? []|[]| | | | | | | | | | | | | | | ].
    - by destruct fx. }
  intros Hi Hd. inversion Hd as [|? ? k1 ? ? Hx Hr|? ? k1 ? Hx|? ? k1 ? Hx]; subst;
    by destruct (He _ _ Hi Hx) as [-> ?].
Qed.

Lemma drain_write s k fx rest k' :
  refusable fx = true → drain_key s k (fx :: rest) k' →
  k' = push_event k Ev.Failure ∨ drain_key s k rest k'.
Proof.
  assert (∀ k1 fl, refusable fx = true → effect_key k fx k1 fl →
    (k1 = k ∧ fl = Continue) ∨ (k1 = push_event k Ev.Failure ∧ fl = Refused)) as He.
  { intros k1 fl Hi Hx. destruct Hx as [|fx Hr| | |fx h t Hs|]; try done; [by left|by right|].
    by destruct fx. }
  intros Hi Hd. inversion Hd as [|? ? k1 ? ? Hx Hr|? ? k1 ? Hx|? ? k1 ? Hx]; subst;
    destruct (He _ _ Hi Hx) as [[-> ?]|[-> ?]]; auto; done.
Qed.

Lemma drain_spawn s k fx rest k' :
  spawning fx = true → drain_key s k (fx :: rest) k' →
  ∃ h t, spawn_for fx h t ∧ drain_key s (spawn_key k h t) rest k'.
Proof.
  assert (∀ k1 fl, spawning fx = true → effect_key k fx k1 fl →
    fl = Continue ∧ ∃ h t, spawn_for fx h t ∧ k1 = spawn_key k h t) as He.
  { intros k1 fl Hi Hx. destruct Hx as [fx Hr|fx Hr| | |fx h t Hs|]; try done; [| |by eauto].
    - by destruct fx.
    - by destruct fx. }
  intros Hi Hd. inversion Hd as [|? ? k1 ? ? Hx Hr|? ? k1 ? Hx|? ? k1 ? Hx]; subst;
    destruct (He _ _ Hi Hx) as (? & h & t & ? & ->); try done. by exists h, t.
Qed.

Ltac drains :=
  repeat match goal with
  | H : drain_key _ _ (?x :: _) _ |- _ =>
      first
        [ apply (drain_inert _ _ x _ _ eq_refl) in H
        | apply (drain_write _ _ x _ _ eq_refl) in H as [->|H]
        | let Hs := fresh in
          apply (drain_spawn _ _ x _ _ eq_refl) in H as (? & ? & Hs & H); spawned_by Hs
        | inversion H; clear H; subst ]
  | H : drain_key _ _ [] _ |- _ => inversion H; clear H; subst
  | H : effect_key _ _ _ _ |- _ => inversion H; clear H; subst
  | H : quiet_effect _ = true |- _ => first [discriminate H | clear H]
  | H : refusable _ = true |- _ => first [discriminate H | clear H]
  | H : spawn_for _ _ _ |- _ => spawned_by H
  end.

(** The drain of a removal: it waits for the task in flight, or stops at a
    refused [Removing] write, or ends with the full release in flight. *)
Lemma drain_removal k k' :
  drain_key St.Removing k (removal []) k' →
  ∃ k1, (abort_key k k1 StalledFlow ∧ k' = park_key k1 St.Removing (drop 1 (removal []))) ∨
        (abort_key k k1 Continue ∧
          (k' = push_event k1 Ev.Failure ∨ k' = spawn_key k1 Abortable (TRelease Full))).
Proof.
  intros H. cbv [removal emit persist release app] in H.
  drains; eauto 7.
  all: match goal with H : abort_key _ _ Refused |- _ => inversion H end.
Qed.

Lemma preempted_task p cut p' :
  preempted p cut p' → handoff_shape p →
  task_epoch p' = task_epoch p ∧ task p' = task p ∧ handoff_shape p' ∧
  (cut = true → task_handoff p' = Abortable).
Proof.
  unfold preempted, handoff_shape. intros Hp Hs.
  destruct (task_handoff p) eqn:Hh, (task p) eqn:Ht; destruct_and?; destruct_or?; destruct_and?;
    destruct_or?; subst; simpl; rewrite ?Ht; naive_solver.
Qed.

(** What waiting for the task in flight leaves: the task, when the wait stalls,
    and no task otherwise. *)
Lemma abort_key_base calm k k' fl :
  key_base calm k → abort_key k k' fl →
  log_ok k' ∧ (∀ p, k_inflight k' = Some p → handoff_shape p) ∧
  k_stalled k' = None ∧ k_stalled_on k' = SHandoff ∧ (calm = true → cuts_ok k').
Proof.
  intros [Hl Hs Hst Ho Hk] Ha. destruct Ha as [Hi|p cut p' Hi Hp Hh|p cut p' Hi Hp Hh|p cut p' Hi Hp].
  - split_and!; try done. by apply (log_ok_bump k).
  - destruct (preempted_task _ _ _ Hp (Hs _ Hi)) as (_ & _ & Hsh & Hcut).
    split_and!; try done; try (by destruct cut).
    + by eapply log_ok_bump; [apply (log_ok_cut_key k cut p' Hl)|..].
    + intros Hc. destruct cut; [|by apply Hk]. apply cuts_ok_cut; auto.
  - destruct (preempted_task _ _ _ Hp (Hs _ Hi)) as (_ & _ & Hsh & Hcut).
    split_and!; try done; try (by destruct cut).
    + by eapply log_ok_bump; [apply (log_ok_cut_key k cut p' Hl)|..].
    + intros Hc. destruct cut; [|by apply Hk]. apply cuts_ok_cut; auto.
  - destruct (preempted_task _ _ _ Hp (Hs _ Hi)) as (He & Ht & Hsh & Hcut).
    split_and!; try done; try (by destruct cut).
    + eapply log_ok_rehand; [apply (log_ok_cut_key k cut p' Hl)|by destruct cut|by destruct cut
        | |done|done|done]. by destruct cut.
    + by intros q [= <-].
    + intros Hc. destruct cut; [|by apply Hk]. apply cuts_ok_cut; auto.
Qed.

Lemma abort_key_task k k' fl :
  abort_key k k' fl →
  k_queued k' = k_queued k ∧ fl ≠ Refused ∧ (fl = Continue → k_inflight k' = None) ∧
  (∀ p, k_inflight k' = Some p → ∃ q, k_inflight k = Some q ∧ task p = task q).
Proof.
  intros Ha. destruct Ha as [Hi|p cut p' Hi Hp Hh|p cut p' Hi Hp Hh|p cut p' Hi Hp].
  - split_and!; try done. intros q. simpl. eauto.
  - split_and!; try done. by destruct cut.
  - split_and!; try done. by destruct cut.
  - split_and!; try done; [by destruct cut|]. intros q [= <-]. exists p. split; [done|].
    unfold preempted in Hp. destruct (task_handoff p); naive_solver.
Qed.

Lemma mid_removal calm k k' :
  key_base calm k → Forall (λ e, e = Ev.Failure ∨ e = Ev.Detached) (k_queued k) →
  (∀ p, k_inflight k = Some p → task p ≠ TRelease Full) →
  drain_key St.Removing k (removal []) k' → key_mid calm St.Removing k'.
Proof.
  intros Hb HF Hnf (k1 & [[Ha ->]|[Ha Hk']])%drain_removal;
    destruct (abort_key_base _ _ _ _ Hb Ha) as (Hl & Hs & Hst & Ho & Hc);
    destruct (abort_key_task _ _ _ Ha) as (Hq & _ & Hn & Ht).
  - split; try done; try (by left); try (by right; left).
    + by eapply log_ok_same.
    + intros st [= <-]. left. rewrite Ho. split_and!; [done..|].
      intros p (q & Hi & ->)%Ht. by apply Hnf.
    + change (k_queued (park_key k1 _ _)) with (k_queued k1). by rewrite Hq.
  - specialize (Hn eq_refl). destruct Hk' as [->| ->].
    + split; try done; try (by left); try (by right; left).
      * by eapply log_ok_same.
      * change (k_stalled (push_event k1 _)) with (k_stalled k1). by rewrite Hst.
      * change (k_queued (push_event k1 ?e)) with (k_queued k1 ++ [e]).
        rewrite Hq. apply Forall_app. split; [done|]. apply Forall_singleton. by left.
    + apply mid_spawn; try done; try (by rewrite Hq); try (by left); try (by right).
      intros _ p. by rewrite Hn.
Qed.

(** ** Dispatch *)

(** The events a sub-task's end drives the machine with: none is in flight by
    then. *)
Definition completes (e : Event) : bool :=
  match e with
  | Ev.AgentReady | Ev.Restored | Ev.Gated | Ev.CaptureDone _ | Ev.ReleasedForPause
  | Ev.StopDone | Ev.RemoveDone | Ev.Failure | Ev.Frozen | Ev.Stranded | Ev.Detached
  | Ev.Recovered _ | Ev.Adopted => true
  | _ => false
  end.

(** What a live state is left with when an event reaches it. *)
Record live_key (s : State) (e : Event) (k : Key) : Prop := {
  lk_flow : ∀ p, k_inflight k = Some p →
    awaits s = Some (flow_of (task p)) ∨
    (s = St.Stopping ∧ e = Ev.Failure ∧ flow_of (task p) = FCapture false);
  lk_capture : is_Some (k_capture k) →
    is_Some (k_inflight k) ∧ (s = St.Checkpointing ∨ (s = St.Stopping ∧ e = Ev.Failure));
  lk_completes : completes e = true → k_inflight k = None ∨ (s = St.Stopping ∧ e = Ev.Failure)
}.

Lemma live_no_flow s e k :
  live_key s e k → awaits s = None → k_inflight k = None.
Proof.
  intros [Hf _ _] Ha. destruct (k_inflight k) as [p|]; [|done].
  destruct (Hf p eq_refl) as [|(-> & _)]; [congruence|done].
Qed.

Lemma live_no_capture s e k :
  live_key s e k → s ≠ St.Checkpointing → s ≠ St.Stopping → k_capture k = None.
Proof.
  intros [_ Hc _] Hs1 Hs2. destruct (k_capture k) as [r|]; [|done].
  destruct Hc as (_ & [|(? & _)]); [by eexists|done..].
Qed.

Lemma live_capture_none s e k : live_key s e k → k_inflight k = None → k_capture k = None.
Proof.
  intros [_ Hc _] Hi. destruct (k_capture k) as [r|]; [|done].
  destruct Hc as [[p Hp] _]; [by eexists|congruence].
Qed.

(** Nothing is in flight: the state waits for nothing, or what it waited for
    has just ended. *)
Ltac none_in_flight Hl :=
  first [ exact (live_no_flow _ _ _ Hl eq_refl)
        | let H := fresh in
          let H' := fresh in
          destruct (lk_completes _ _ _ Hl eq_refl) as [H|[H H']];
          [exact H|first [discriminate H|discriminate H']] ].

Ltac no_capture Hl :=
  first [ apply (live_capture_none _ _ _ Hl); none_in_flight Hl
        | apply (live_no_capture _ _ _ Hl); discriminate ].

(** The task in flight is the one the state waits for. *)
Ltac same_flow Hl :=
  let p := fresh in let Hp := fresh in let Hn := fresh in
  intros p Hp;
  first [ assert (k_inflight _ = None) as Hn by none_in_flight Hl; congruence
        | destruct (lk_flow _ _ _ Hl p Hp) as [?|[? _]]; [done|done] ].

Lemma mid_forget_aborted calm k :
  key_base calm k → k_queued k = [] → k_inflight k = None → k_capture k = None →
  key_mid calm St.Gone (park_key (k <| k_stalled_on := SRecord Aborted |>) St.Gone []).
Proof.
  intros [Hl Hs Hst Ho Hk] Hq Hi Hc.
  set (k' := park_key _ _ _). assert (k_inflight k' = None) as Hi' by done.
  assert (k_queued k' = []) as Hq' by done. split; rewrite ?Hi', ?Hq'; try done.
  - by eapply log_ok_same.
  - intros _. by right; left.
  - intros st [= <-]. right. split_and!; [done|done|by right].
Qed.

(** A capture is what a stop, or the failure of a refused one, supersedes. *)
Lemma capture_abortable calm s e k p :
  key_base calm k → live_key s e k →
  s = St.Checkpointing ∨ (s = St.Stopping ∧ e = Ev.Failure) →
  k_inflight k = Some p → task_handoff p = Abortable.
Proof.
  intros Hb Hl Hs Hp. pose proof (kb_shape _ _ Hb p Hp) as Hsh. unfold handoff_shape in Hsh.
  destruct (lk_flow _ _ _ Hl p Hp) as [Hf|(_ & _ & Hf)];
    [destruct Hs as [->|[-> _]]|]; by destruct (task p).
Qed.

(** A live state's dispatch keeps the discipline. *)
Lemma live_dispatch calm s e k k' :
  key_base calm k → k_queued k = [] → live_key s e k → dying s = false →
  (calm = true → e ≠ Ev.VmExited) → (handle s e = (s, []) → key_mid calm s k) →
  drain_key (fst (handle s e)) k (snd (handle s e)) k' →
  key_mid calm (fst (handle s e)) k'.
Proof.
  intros Hb Hq Hl Hd Hcalm Hstay. revert Hl Hd Hcalm Hstay.
  by_table s e; intros Hl Hd Hcalm Hstay; try discriminate Hd;
  match goal with |- drain_key (fst ?h) _ _ _ → _ =>
    let h' := eval vm_compute in h in change h with h' in *; cbn [fst snd] in * end;
  try (intros Hdr; inversion Hdr; subst; exact (Hstay eq_refl)); clear Hstay;
  try (apply mid_removal; [done|by rewrite Hq; constructor|];
       intros p Hp Ht; destruct (lk_flow _ _ _ Hl p Hp) as [Hf|(_ & _ & Hf)];
       rewrite Ht in Hf; discriminate Hf).
  all: intros Hdr; drains.
  all: try (apply mid_pushed; [done|done|by auto|none_in_flight Hl|no_capture Hl]).
  all: try (apply mid_carry; [done|done|same_flow Hl|no_capture Hl]).
  all: try (apply mid_spawn; [done|by left|by rewrite Hq; constructor|by right|done
    |intros Hc; left; by apply (lk_capture _ _ _ Hl)
    |intros Hcl p Hp; try (by destruct (Hcalm Hcl));
     first [ assert (k_inflight k = None) as Hn by none_in_flight Hl; congruence
           | eapply capture_abortable; [exact Hb|exact Hl|by auto|exact Hp] ] ]).
  - apply mid_forget_aborted; [done|done|none_in_flight Hl|no_capture Hl].
  - apply mid_stop_refused; [done|done| |].
    + intros p Hp. destruct (lk_flow _ _ _ Hl p Hp) as [Hf|[Hf _]]; [|discriminate Hf].
      by injection Hf.
    + intros Hc. by apply (lk_capture _ _ _ Hl).
Qed.

(** A dying computer ignores everything but the end of its own release. *)
Lemma dying_handle s e :
  dying s = true →
  handle s e = (s, []) ∨
  (s = St.Removing ∧ e = Ev.RemoveDone ∧
   handle s e = (St.Gone, [Fx.ForgetRecord Removed; Fx.Publish Ntf.Removed;
                           Fx.Answer Ans.Removed])).
Proof. by_table s e; intros Hd; try discriminate Hd; auto. Qed.

Lemma dying_dispatch calm s e k k' :
  key_mid calm s k → dying s = true →
  (e = Ev.RemoveDone → s = St.Removing → k_inflight k = None ∧ k_stalled k = None) →
  drain_key (fst (handle s e)) k (snd (handle s e)) k' →
  key_mid calm (fst (handle s e)) k' ∧ dying (fst (handle s e)) = true ∧
  k_queued k' = k_queued k.
Proof.
  intros Hm Hd Hr. destruct (dying_handle s e Hd) as [->|(-> & -> & ->)]; simpl.
  { intros Hdr. by inversion Hdr; subst. }
  destruct (Hr eq_refl eq_refl) as [Hi Hst]. intros Hdr.
  inversion Hdr as [|? ? k1 ? ? Hx Hrest|? ? k1 ? Hx|? ? k1 ? Hx]; subst; clear Hdr.
  - drains. destruct Hm. split_and!; [|done|done]. split; try done.
    + intros p. congruence.
    + intros _. by right; left.
    + intros st. congruence.
    + intros _. by left.
  - assert (k1 = k <| k_stalled_on := SRecord Removed |>) as -> by by inversion Hx.
    destruct Hm. split_and!; [|done|done]. split; try done.
    + by eapply log_ok_same.
    + intros p Hp. change (k_inflight k = Some p) in Hp. congruence.
    + intros _. by right; left.
    + intros st [= <-]. right. split_and!; [done|exact Hi|by left].
    + intros _. by left.
  - inversion Hx; subst; discriminate.
Qed.

(** ** The queue drains *)

(** The refusable writes a failure can still ask for. *)
Definition pushes_left (s : State) : nat :=
  match s with
  | St.Restoring _ | St.Gating true _ | St.Capturing | St.Resuming => 1
  | _ => 0
  end.

(** A queued event in a live state pushes at most what its state had left. *)
Lemma queued_pushes s e k k' :
  dying s = false → e = Ev.Failure ∨ e = Ev.Detached →
  drain_key (fst (handle s e)) k (snd (handle s e)) k' →
  length (k_queued k') + pushes_left (fst (handle s e)) ≤ length (k_queued k) + pushes_left s.
Proof.
  assert (∀ k h t, k_queued (spawn_key k h t) = k_queued k) as Hsp.
  { intros k0 h t. unfold spawn_key. by destruct (k_inflight k0). }
  assert (∀ k e, length (k_queued (push_event k e)) = S (length (k_queued k))) as Hpu.
  { intros k0 e0. unfold push_event. change (k_queued (k0 <| k_queued := ?l |>)) with l.
    rewrite length_app. simpl. lia. }
  intros Hd He. destruct s as [| | |[]|[] []| | | | | | | | | | | | |]; try discriminate Hd;
    destruct He as [->| ->];
  match goal with |- drain_key (fst ?h) _ _ _ → _ =>
    let h' := eval vm_compute in h in change h with h' in *; cbn [fst snd] in * end;
  intros Hdr;
  try (apply drain_removal in Hdr as (k1 & [[(Hq & _)%abort_key_task ->]
        |[(Hq & _)%abort_key_task [->| ->]]]);
       [change (k_queued (park_key k1 _ _)) with (k_queued k1)|rewrite Hpu|rewrite Hsp];
       rewrite Hq; simpl; lia).
  all: drains; rewrite ?Hpu, ?Hsp; simpl; try lia.
Qed.
