(* ===== verification/ActorRun.v ===== *)
(** * The actor keeps its discipline

    The invariant of [ActorInv] along every turn of the actor's loop: dispatch,
    commands, completions, handoffs, timers and retries. *)

From stdpp Require Import base list gmap strings pretty relations.
From Stdlib Require Import ZArith Lia.
From S2P Require Import Prelude Types RecordPhase Lifecycle Policy Events AtomicFile RecordStore RecordPort Runtime Recovery Actor ActorKey ActorInv.

Lemma drain_nil s k k' : drain_key s k [] k' → k' = k.
Proof. by inversion 1. Qed.

Lemma drain_all_inert s k fx k' : forallb inert fx = true → drain_key s k fx k' → k' = k.
Proof.
  revert k. induction fx as [|x fx IH]; intros k; simpl; [by intros _ ?%drain_nil|].
  intros [Hx Hfx]%andb_true_iff Hd%drain_inert; auto.
Qed.

(** Name the result of the dispatch in the goal. *)
Ltac dispatched Hd :=
  match goal with |- context [dispatch ?w ?s ?a ?e] =>
    let s1 := fresh "s" in let a1 := fresh "a" in let acted := fresh "acted" in
    destruct (dispatch w s a e) as [[s1 a1] acted] eqn:Hd end.

Section run.
Context `{Resources} `{RecordPort} {GuestAgent : Type} (world : nat → World).
Abbreviation Actor := (ComputerActor (GuestAgent := GuestAgent)) (only parsing).
Context (calm : bool).

Lemma dispatch_one_key (s : State) (a : Actor) e s' a' acted :
  dispatch_one world s a e = (s', a', acted) →
  s' = fst (handle s e) ∧ drain_key s' (key a) (snd (handle s e)) (key a').
Proof.
  unfold dispatch_one. destruct (handle s e) as [after fx]. intros [= <- <- _].
  split; [done|]. rewrite key_publish_state. apply (drain_effects_key world (publish_state a after)).
Qed.

(** The key an event leaves a live state with, once it is off the queue. *)
Lemma popped_live s k e q :
  key_mid calm s k → dying s = false → k_queued k = e :: q →
  let k' := k <| k_queued := [] |> in
  q = [] ∧ (e = Ev.Failure ∨ e = Ev.Detached) ∧ key_base calm k' ∧ live_key s e k' ∧
  (handle s e = (s, []) → key_mid calm s k').
Proof.
  intros Hm Hd Hq k'. pose proof (base_of_mid _ _ _ Hm Hd) as Hb.
  destruct Hm as [_ _ Hf Hc _ _ HF Hp H1 _]. rewrite Hq in *.
  assert (q = []) as -> by (specialize (H1 Hd); destruct q; simpl in *; [done|lia]).
  rewrite Forall_singleton in HF.
  assert (key_base calm k') as Hb' by (destruct Hb; split; by eauto using log_ok_same).
  specialize (Hp ltac:(done)). destruct Hp as [?|[Hi|Hr]]; [congruence| |].
  - assert (k_capture k = None) as Hn.
    { destruct (k_capture k) as [r|]; [|done].
      destruct Hc as [[_ [p ?]]|[?|(_ & _ & p & ? & _)]]; [by eexists|congruence..]. }
    split_and!; try done.
    + split; intros; change (k_inflight k') with (k_inflight k) in *;
        change (k_capture k') with (k_capture k) in *; rewrite ?Hi, ?Hn in *;
        [done|by destruct H2|by left].
    + intros _. apply mid_carry; [done|done| |done].
      intros p Hp. change (k_inflight k = Some p) in Hp. congruence.
  - pose proof Hr as (-> & Hqs & p & Hi & Hfl). rewrite Hq in Hqs. injection Hqs as ->.
    split_and!; try done.
    split; change (k_inflight k') with (k_inflight k); change (k_capture k') with (k_capture k).
    + intros p' Hp'. right. split_and!; [done|done|congruence].
    + intros _. split; [by eexists|by right].
    + intros _. by right.
Qed.

Lemma dispatch_queued_ok fuel (s : State) (a : Actor) s' a' :
  key_mid calm s (key a) → length (act_queued a) + pushes_left s ≤ fuel →
  dispatch_queued world fuel s a = (s', a') →
  key_mid calm s' (key a') ∧ act_queued a' = [].
Proof.
  revert s a. induction fuel as [|fuel IH]; intros s a Hm Hf; simpl.
  { intros [= <- <-]. split; [done|]. destruct (act_queued a); [done|simpl in Hf; lia]. }
  destruct (act_queued a) as [|e q] eqn:Hq; [by intros [= <- <-]|].
  destruct (dispatch_one world s _ e) as [[s1 a1] acted] eqn:H1.
  apply dispatch_one_key in H1 as [-> Hdr].
  change (key (a <| act_queued := q |>)) with ((key a) <| k_queued := q |>) in Hdr.
  destruct (dying s) eqn:Hd.
  - pose proof (km_queue _ _ _ Hm) as HF. change (k_queued (key a)) with (act_queued a) in HF.
    rewrite Hq, Forall_cons in HF. destruct HF as [He HF].
    assert (handle s e = (s, [])) as Hh.
    { destruct (dying_handle s e Hd) as [|(_ & -> & _)]; [done|naive_solver]. }
    rewrite Hh in *. cbn [fst snd] in *. apply drain_nil in Hdr as Hk.
    assert (act_queued a1 = q) as Hq1.
    { change (act_queued a1) with (k_queued (key a1)). by rewrite Hk. }
    intros Hrun. apply (IH s a1); [|rewrite Hq1; simpl in Hf; lia|done].
    rewrite Hk. destruct Hm. split; try done.
    + by eapply log_ok_same.
    + intros p Hp. destruct (km_flow p Hp) as [?|[?|(-> & _)]]; auto. discriminate Hd.
    + intros Hc. auto.
    + auto.
    + congruence.
  - destruct (popped_live s (key a) e q Hm Hd Hq) as (-> & He & Hb & Hl & Hstay).
    pose proof (queued_pushes s e _ _ Hd He Hdr) as Hp.
    apply live_dispatch with (calm := calm) in Hdr; [|done..|by intros _; naive_solver|done].
    intros Hrun. eapply IH; [exact Hdr| |exact Hrun].
    change (k_queued (key a1)) with (act_queued a1) in Hp. simpl in *. lia.
Qed.
(** When an event may be dispatched. *)
Definition entering (s : State) (k : Key) (e : Event) : Prop :=
  (calm = true → e ≠ Ev.VmExited) ∧
  ((dying s = false ∧ key_base calm k ∧ k_queued k = [] ∧ live_key s e k ∧
    (handle s e = (s, []) → key_mid calm s k)) ∨
   (dying s = true ∧ key_mid calm s k ∧
    (e = Ev.RemoveDone → s = St.Removing → k_inflight k = None ∧ k_stalled k = None))).

Lemma dispatch_ok (s : State) (a : Actor) e s' a' acted :
  entering s (key a) e → dispatch world s a e = (s', a', acted) →
  key_mid calm s' (key a') ∧ act_queued a' = [].
Proof.
  intros [Hcalm He]. unfold dispatch.
  destruct (dispatch_one world s a e) as [[s1 a1] acted1] eqn:H1.
  apply dispatch_one_key in H1 as [-> Hdr].
  destruct (dispatch_queued world _ _ _) as [s2 a2] eqn:H2. intros [= <- <- _].
  eapply dispatch_queued_ok; [| |exact H2].
  - destruct He as [(Hd & Hb & Hq & Hl & Hstay)|(Hd & Hm & Hr)].
    + by eapply live_dispatch.
    + by eapply dying_dispatch.
  - unfold dispatch_fuel. destruct (fst (handle s e)) as [| | |[]|[] []| | | | | | | | | | | | |];
      simpl; lia.
Qed.

(** A command, a handoff or a timer of a computer in order. *)
Lemma entering_command s k e :
  key_inv calm s k → completes e = false → (calm = true → e ≠ Ev.VmExited) →
  entering s k e.
Proof.
  intros [Hm Hq] Hc Hcalm. split; [done|]. destruct (dying s) eqn:Hd.
  { right. split_and!; [done|done|]. intros ->. done. }
  left. assert (k_queued k = []) as Hn by (destruct (k_queued k); [done|by discriminate Hq]).
  split_and!; [done|by eapply base_of_mid|done| |done].
  assert (¬ stop_refused s k) as Hns by (intros (_ & ? & _); congruence).
  split; [| |congruence].
  - intros p Hp. destruct (km_flow _ _ _ Hm p Hp) as [->|[|]]; [done|by left|done].
  - intros Hs. destruct (km_capture _ _ _ Hm Hs) as [[-> ?]|[|]]; [by auto|congruence|done].
Qed.

(** A sub-task's end: nothing is in flight, and the caller of a capture has
    been answered. *)
Lemma entering_completion s k e :
  key_mid calm s k → k_inflight k = None →
  (dying s = false → k_queued k = []) →
  (e = Ev.RemoveDone → s = St.Removing → k_stalled k = None) →
  (calm = true → e ≠ Ev.VmExited) → entering s k e.
Proof.
  intros Hm Hi Hq Hr Hcalm. split; [done|]. destruct (dying s) eqn:Hd.
  { right. split_and!; auto. }
  left. split_and!; [done|by eapply base_of_mid|by auto| |done].
  split.
  - intros p. congruence.
  - intros Hs. destruct (km_capture _ _ _ Hm Hs) as [[_ [p ?]]|[|(_ & _ & p & ? & _)]]; congruence.
  - by left.
Qed.

Lemma inv_of_mid s (a : Actor) :
  key_mid calm s (key a) ∧ act_queued a = [] → key_inv calm s (key a).
Proof. intros [Hm Hq]. split; [done|]. change (k_queued (key a)) with (act_queued a). by rewrite Hq. Qed.

Lemma dispatch_command (s : State) (a : Actor) e s' a' acted :
  key_inv calm s (key a) → completes e = false → (calm = true → e ≠ Ev.VmExited) →
  dispatch world s a e = (s', a', acted) → key_inv calm s' (key a').
Proof. intros. eapply inv_of_mid, dispatch_ok; [|done]. by apply entering_command. Qed.
(** ** Stalled teardowns *)

(** The rest of a removal, once nothing is in flight. *)
Lemma drain_rest k k' :
  drain_key St.Removing k (drop 1 (removal [])) k' →
  k' = push_event k Ev.Failure ∨ k' = spawn_key k Abortable (TRelease Full).
Proof.
  intros Hd. cbv [removal emit persist release app drop] in Hd. drains; auto.
Qed.

Lemma rest_mid k k' :
  key_base calm k → Forall (λ e, e = Ev.Failure ∨ e = Ev.Detached) (k_queued k) →
  k_inflight k = None → drain_key St.Removing k (drop 1 (removal [])) k' →
  key_mid calm St.Removing k'.
Proof.
  intros Hb HF Hi [->| ->]%drain_rest.
  - destruct Hb as [Hl Hs Hst Ho Hc]. split; try done; try (by left); try (by right; left).
    + by eapply log_ok_same.
    + change (k_stalled (push_event k _)) with (k_stalled k). by rewrite Hst.
    + change (k_queued (push_event k ?e)) with (k_queued k ++ [e]).
      apply Forall_app. split; [done|]. apply Forall_singleton. by left.
  - apply mid_spawn; try done; try (by left); try (by right). intros _ p. by rewrite Hi.
Qed.

Lemma inv_dying s k : dying s = true → key_mid calm s k → key_inv calm s k.
Proof. by split. Qed.

Lemma resume_stalled_ok s (a : Actor) :
  key_inv calm s (key a) → key_inv calm s (key (resume_stalled world a)).
Proof.
  intros Hinv. unfold resume_stalled. destruct (act_stalled a) as [st|] eqn:Hst; [|done].
  destruct Hinv as [Hm _]. pose proof (km_stalled _ _ _ Hm st Hst) as Hsh.
  set (a0 := a <| act_stalled := None |>).
  destruct Hsh as [(-> & -> & Hnf)|(-> & Hi & Hst')]; cbn [stalled_retry stalled_state stalled_effects].
  - assert (key_base calm (key a0)) as Hb.
    { destruct Hm. split; try done; [by eapply log_ok_same|by apply km_stalled_on]. }
    pose proof (abort_inflight_key world a0) as Ha. cbv zeta in Ha.
    destruct (abort_inflight world a0) as [a1 fl]. cbn [fst snd] in Ha.
    destruct (abort_key_base _ _ _ _ Hb Ha) as (Hl & Hs & Hst1 & Ho & Hc).
    destruct (abort_key_task _ _ _ Ha) as (Hq & Hr & Hn & Ht).
    apply inv_dying; [done|]. destruct fl; [| |done].
    + eapply rest_mid; [by split| |by apply Hn|apply drain_effects_key].
      rewrite Hq. apply (km_queue _ _ _ Hm).
    + split; try done; try (by left); try (by right; left).
      * by eapply log_ok_same.
      * intros st [= <-]. left. split_and!; [done..|]. intros p (q & Hq1 & ->)%Ht. by apply Hnf.
      * change (k_queued (key (a1 <| act_stalled := _ |>))) with (k_queued (key a1)).
        rewrite Hq. apply (km_queue _ _ _ Hm).
  - apply inv_dying; [done|].
    assert (∃ e, stalled_retry st = SRecord e ∧ stalled_state st = St.Gone ∧
      (stalled_effects st = [Fx.Publish Ntf.Removed; Fx.Answer Ans.Removed] ∨
       stalled_effects st = [])) as (e & -> & -> & Heff) by naive_solver.
    pose proof (forget_key world a0 e) as Hf. cbv zeta in Hf.
    destruct (forget world a0 e) as [a1 fl]. cbn [fst snd] in Hf.
    assert (key_mid calm St.Gone ((key a) <| k_stalled := None |>)) as Hm0.
    { destruct Hm. split; try done. by eapply log_ok_same. }
    destruct Hf as [[Hk ->]|[Hk ->]].
    + assert (key (drain_effects world a1 St.Gone (stalled_effects st)) = key a1) as ->.
      { pose proof (drain_effects_key world a1 St.Gone (stalled_effects st)) as Hd.
        apply drain_all_inert in Hd; [done|]. by destruct Heff as [-> | ->]. }
      by rewrite Hk.
    + change (key (a1 <| act_stalled := Some st |>)) with ((key a1) <| k_stalled := Some st |>).
      rewrite Hk. destruct Hm. split; try done; [by eapply log_ok_same|].
      intros st' [= <-]. right. split_and!; done.
Qed.

Lemma restart_teardown_ok (a : Actor) :
  key_inv calm St.Removing (key a) → act_inflight a = None →
  key_inv calm St.Removing (key (restart_teardown world a St.Removing)).
Proof.
  intros Hinv Hi. unfold restart_teardown. destruct (act_stalled a) as [st|] eqn:Hst.
  { by apply resume_stalled_ok. }
  destruct Hinv as [Hm _]. apply inv_dying; [done|].
  eapply mid_removal; [|apply (km_queue _ _ _ Hm)| |apply drain_effects_key].
  - destruct Hm. split; try done. by apply km_stalled_on.
  - intros p Hp. change (act_inflight a = Some p) in Hp. congruence.
Qed.
(** ** Commands *)

Lemma key_refuse (a : Actor) c : key (refuse_handed_over a c) = key a.
Proof. destruct c; try apply key_send; try done. by apply key_observe. Qed.

Lemma key_acknowledged (a : Actor) : key (fst (acknowledged a)) = key a.
Proof. unfold acknowledged. by destruct (act_answer_error a). Qed.

Lemma key_answer_last (a : Actor) r : key (answer_last a r) = key a.
Proof. unfold answer_last. destruct (last (act_waiters a)) as [[ans reply]|]; [|done]. by rewrite key_send. Qed.

Lemma key_finish_stop (a : Actor) : key (fst (finish_stop world a)) = key a.
Proof.
  unfold finish_stop. destruct (act_generation a) as [gen|]; [|done].
  destruct (port_transition _ _ _ _ _) as [d r].
  destruct (match r with Ok c => _ | Err e => _ end) as [rec|e]; [|done].
  cbn [fst]. by rewrite key_clear_journal.
Qed.

Lemma key_set_lifecycle s (a : Actor) u reply :
  key (set_lifecycle world s a u reply) = key a.
Proof.
  assert (∀ b : Actor, key (fst (persist_lifecycle world b)) = key b) as Hp.
  { intros b. unfold persist_lifecycle. destruct (act_generation b); [|done].
    by destruct (port_update_lifecycle _ _ _ _ _ _ _). }
  unfold set_lifecycle.
  destruct (public a); try apply key_send;
    match goal with |- context [persist_lifecycle world ?b] =>
      specialize (Hp b); destruct (persist_lifecycle world b) as [a1 r] end;
    rewrite key_send, key_publish_state, key_rearm; exact Hp.
Qed.

Lemma checkpoint_acts s (a : Actor) s' a' :
  key_inv calm s (key a) → dispatch world s a Ev.Checkpoint = (s', a', true) →
  s' = St.Checkpointing ∧ is_Some (act_inflight a') ∧ act_capture_reply a' = None.
Proof.
  intros [Hm Hq]. unfold dispatch, dispatch_one.
  destruct (handle s Ev.Checkpoint) as [after fx] eqn:Hh.
  set (a1 := drain_effects _ _ _ _). intros Hd.
  assert (s = St.Ready) as ->.
  { destruct s as [| | |[]|[] []| | | | | | | | | | | | |]; try done; vm_compute in Hh;
      injection Hh as <- <-; destruct (dispatch_queued _ _ _ _); by injection Hd. }
  vm_compute in Hh. injection Hh as <- <-.
  assert (k_queued (key a) = []) as Hn.
  { destruct (k_queued (key a)); [done|by discriminate Hq]. }
  pose proof (drain_effects_key world (publish_state a St.Checkpointing) St.Checkpointing
    [Fx.CancelTimer Idle; Fx.SpawnCheckpoint false]) as Hdr.
  fold a1 in Hdr. revert Hd Hdr. generalize a1. clear a1. intros a1 Hd Hdr.
  apply drain_inert in Hdr; [|done].
  apply drain_spawn in Hdr as (h & t & _ & Hdr); [|done]. apply drain_nil in Hdr.
  assert (act_queued a1 = []) as Hq1.
  { change (act_queued a1) with (k_queued (key a1)). rewrite Hdr. unfold spawn_key.
    rewrite key_publish_state. by destruct (k_inflight (key a)). }
  assert (is_Some (act_inflight a1)) as Hi1.
  { change (act_inflight a1) with (k_inflight (key a1)). rewrite Hdr. by eexists. }
  assert (act_capture_reply a1 = None) as Hc1.
  { change (act_capture_reply a1) with (k_capture (key a1)). rewrite Hdr. unfold spawn_key.
    rewrite key_publish_state. destruct (k_inflight (key a)); [done|].
    destruct (k_capture (key a)) as [r|] eqn:Hc; [|done].
    destruct (km_capture _ _ _ Hm) as [[? _]|[?|(? & _)]]; [by eexists|done..]. }
  unfold dispatch_fuel in Hd. change (act_queued (publish_state a1 _)) with (act_queued a1) in Hd.
  rewrite Hq1 in Hd. simpl in Hd. change (act_queued (publish_state a1 _)) with (act_queued a1) in Hd.
  rewrite Hq1 in Hd. by injection Hd as <- <-.
Qed.
(** An inert touch-up after a dispatch. *)
Lemma inv_same s (a a' : Actor) :
  key a' = key a → key_inv calm s (key a) → key_inv calm s (key a').
Proof. by intros ->. Qed.

(** A parked capture: its task is in flight. *)
Lemma inv_capture (a : Actor) r :
  key_inv calm St.Checkpointing (key a) → is_Some (act_inflight a) →
  key_inv calm St.Checkpointing (key (a <| act_capture_reply := Some r |>)).
Proof.
  intros [[] Hq] Hi. split; [|done]. split; try done; [by eapply log_ok_same|].
  intros _. by left.
Qed.

Lemma remove_command_ok s (a : Actor) force reply :
  key_inv calm s (key a) →
  key_inv calm (fst (on_command world s a (Cmd.Remove force reply)))
    (key (snd (on_command world s a (Cmd.Remove force reply)))).
Proof.
  intros Hinv. unfold on_command. destruct (bool_decide (s = St.Detached)); simpl.
  { by rewrite key_send. }
  dispatched Hd. assert (key_inv calm s0 (key a0)) as Hinv0.
  { by eapply dispatch_command; [| | |exact Hd]. }
  destruct acted; [done|]. cbn [fst snd].
  destruct s0; try (by rewrite key_answer_last).
  - destruct (act_inflight a0) eqn:Hi; [done|]. destruct (act_retry a0); [done|].
    by apply restart_teardown_ok.
  - destruct (act_stalled a0); [destruct (act_retry a0); [done|]|].
    + by apply resume_stalled_ok.
    + by rewrite key_answer.
Qed.

Lemma on_command_ok s (a : Actor) c :
  key_inv calm s (key a) → (calm = true → c ≠ Cmd.VmExited) →
  key_inv calm (fst (on_command world s a c)) (key (snd (on_command world s a c))).
Proof.
  intros Hinv Hc.
  assert (∀ e (b : Actor) s1 (a1 : Actor) acted, completes e = false → (calm = true → e ≠ Ev.VmExited) →
    key b = key a → dispatch world s b e = (s1, a1, acted) → key_inv calm s1 (key a1)) as Hdis.
  { intros e b s1 a1 acted He Hve Hk Hd. eapply dispatch_command; [|exact He|exact Hve|exact Hd].
    by rewrite Hk. }
  destruct (bool_decide (s = St.Detached) &&
    negb match c with Cmd.Detach _ => true | _ => false end) eqn:Hrefuse.
  { unfold on_command. rewrite Hrefuse. cbn [fst snd]. by rewrite key_refuse. }
  destruct c; try (by apply remove_command_ok); unfold on_command; rewrite Hrefuse.
  2: { dispatched Hd. destruct acted; cbn [fst snd].
       - assert (key_inv calm s (key (a <| act_capture := Some spec |>))) as Hinv' by done.
         destruct (checkpoint_acts _ _ _ _ Hinv' Hd) as (-> & Hi & _).
         apply inv_capture; [by eapply Hdis; [| | |exact Hd]|done].
       - eapply Hdis in Hd; [|done..]. by rewrite key_observe. }
  all: try (dispatched Hd; eapply Hdis in Hd; [|done|done|done]); cbn [fst snd]; try done.
  - destruct acted; cbn [negb]; [|by rewrite key_send].
    destruct provision; [|by rewrite key_park].
    pose proof (key_acknowledged a0) as Hk. destruct (acknowledged a0) as [a1 r]. cbn [fst] in Hk.
    by rewrite key_send, Hk.
  - destruct acted; by rewrite ?key_park, ?key_send.
  - destruct acted; by rewrite ?key_park, ?key_send.
  - destruct acted; [by rewrite key_park|]. destruct (launch_in_flight s0); [done|].
    destruct (public a0); rewrite ?key_park, ?key_send; try done.
    pose proof (key_finish_stop a0) as Hk. destruct (finish_stop world a0) as [a1 r].
    cbn [fst] in Hk. by rewrite key_send, Hk.
  - destruct acted; [done|]. by rewrite key_answer_last.
  - by rewrite key_send.
  - by rewrite key_set_lifecycle.
  - dispatched Hd. apply Hdis in Hd; [done|done| |done]. intros Hcl. by destruct (Hc Hcl).
Qed.
(** ** Completions *)

Lemma serve_pending_ok s (a : Actor) :
  key_inv calm s (key a) →
  key_inv calm (fst (serve_pending_stop world s a)) (key (snd (serve_pending_stop world s a))).
Proof.
  intros Hinv. unfold serve_pending_stop. destruct (act_pending_stop a) as [b|]; [|done].
  destruct (launch_in_flight s); [done|].
  destruct (public _); cbn [fst snd]; rewrite ?key_answer; try done;
    dispatched Hd; by eapply dispatch_command in Hd.
Qed.

Lemma key_deliver s (a : Actor) : key (deliver_unwinding s a) = key a.
Proof.
  unfold deliver_unwinding, fail_waiters. destruct (act_unwinding a); [|done].
  destruct s; by rewrite ?key_fail_parked.
Qed.

(** The sender of a completion under the current epoch is the task in flight. *)
Lemma current_sender (a : Actor) c :
  log_ok (key a) → sent_by_task a c = true → c_epoch c = act_epoch a →
  ∃ t h, act_inflight a = Some (MkPreemptible (act_epoch a) t h) ∧
    report_fits t (c_report c) = true.
Proof.
  intros Hlo Hs He. unfold sent_by_task in Hs. apply andb_true_iff in Hs as [Hs Hn].
  apply existsb_exists in Hs as (o & Ho & Hfit). apply list_elem_of_In in Ho.
  destruct o as [| |ep t| | | |]; try discriminate Hfit.
  apply andb_true_iff in Hfit as [->%Z.eqb_eq Hfit]. rewrite He in *.
  destruct (lo_current _ Hlo t) as [h Hh].
  - apply list_elem_of_omap. by exists (SpawnedTask (act_epoch a) t).
  - intros (o & Ho' & Heq)%list_elem_of_omap. destruct o; try discriminate Heq.
    injection Heq as ->. apply negb_true_iff in Hn.
    apply list_elem_of_In in Ho'. rewrite (proj2 (existsb_exists _ _)) in Hn; [done|].
    eexists. split; [exact Ho'|]. simpl. by apply Z.eqb_eq.
  - by exists t, h.
Qed.

(** The key once a completion is off the channel. *)
Definition took (k : Key) (e : Z) : Key :=
  (log_task k (LTook e)) <| k_inflight := None |>.

Lemma log_ok_took k : log_ok k → log_ok (took k (k_epoch k)).
Proof.
  intros [Hold Hin Hcur]. split.
  - intros e t. change (k_log (took k (k_epoch k))) with (k_log k ++ [LTook (k_epoch k)]).
    rewrite elem_of_app, list_elem_of_singleton. intros [|]; [by eapply Hold|done].
  - done.
  - intros t _ Hn. destruct Hn. change (k_log (took k (k_epoch k))) with (k_log k ++ [LTook (k_epoch k)]).
    rewrite elem_of_app, list_elem_of_singleton. by right.
Qed.

Lemma log_ok_stale k e : log_ok k → e ≠ k_epoch k → log_ok (log_task k (LTook e)).
Proof.
  intros [Hold Hin Hcur] He. split.
  - intros e' t. change (k_log (log_task k (LTook e))) with (k_log k ++ [LTook e]).
    rewrite elem_of_app, list_elem_of_singleton. intros [|]; [by eapply Hold|done].
  - done.
  - intros t. change (k_log (log_task k (LTook e))) with (k_log k ++ [LTook e]).
    rewrite !elem_of_app, !list_elem_of_singleton. intros [Hx|]; [|done].
    intros Hn. apply (Hcur t Hx). naive_solver.
Qed.

Lemma cuts_ok_took k e : cuts_ok k → cuts_ok (log_task k (LTook e)).
Proof.
  intros Hc p. change (k_log (log_task k (LTook e))) with (k_log k ++ [LTook e]).
  rewrite elem_of_app, list_elem_of_singleton. intros [|]; [by apply Hc|done].
Qed.

Lemma inv_stale s k e : key_inv calm s k → e ≠ k_epoch k → key_inv calm s (log_task k (LTook e)).
Proof.
  intros [[] Hq] He. split; [|done]. split; try done; [by apply log_ok_stale|].
  intros Hc. by apply cuts_ok_took, km_cuts.
Qed.

Lemma took_mid s k cap :
  key_inv calm s k → cap = None ∨ (cap = k_capture k ∧ s ≠ St.Checkpointing) →
  key_mid calm s ((took k (k_epoch k)) <| k_capture := cap |>).
Proof.
  intros [[] Hq] Hcap. split; try done.
  - by eapply log_ok_same; [apply log_ok_took|..].
  - change (is_Some cap →
      (s = St.Checkpointing ∧ is_Some (None : option Preemptible)) ∨ dying s = true ∨
      stop_refused s ((took k (k_epoch k)) <| k_capture := cap |>)).
    intros Hs. destruct Hcap as [->|[-> Hns]]; [by destruct Hs|].
    destruct (km_capture Hs) as [[? _]|[?|(_ & Hr & _)]]; [done|auto|].
    right. left. apply Hq. by rewrite Hr.
  - intros st Hst. destruct (km_stalled st Hst) as [(-> & -> & _)|(-> & _ & Hst')].
    + left. by split_and!.
    + right. by split_and!.
  - intros _. right. by left.
  - intros Hc. by apply cuts_ok_took, km_cuts.
Qed.

(** Queued events of a dying computer change nothing. *)
Lemma dispatch_queued_dying fuel s (a : Actor) :
  dying s = true → Forall (λ e, e = Ev.Failure ∨ e = Ev.Detached) (act_queued a) →
  fst (dispatch_queued world fuel s a) = s ∧
  ∃ q, key (snd (dispatch_queued world fuel s a)) = (key a) <| k_queued := q |>.
Proof.
  revert a. induction fuel as [|fuel IH]; intros a Hd HF; simpl.
  { split; [done|]. by exists (act_queued a). }
  destruct (act_queued a) as [|e q] eqn:Hq.
  { split; [done|]. by exists (act_queued a). }
  rewrite Forall_cons in HF. destruct HF as [He HF].
  destruct (dispatch_one world s _ e) as [[s1 a1] acted] eqn:H1.
  apply dispatch_one_key in H1 as [-> Hdr].
  assert (handle s e = (s, [])) as Hh.
  { destruct (dying_handle s e Hd) as [|(_ & -> & _)]; [done|naive_solver]. }
  rewrite Hh in *. cbn [fst snd] in *. apply drain_nil in Hdr as Hk.
  change (key (a <| act_queued := q |>)) with ((key a) <| k_queued := q |>) in Hk.
  destruct (IH a1) as [Hs [q' Hk']]; [done| |].
  { change (act_queued a1) with (k_queued (key a1)). by rewrite Hk. }
  split; [done|]. exists q'. by rewrite Hk', Hk.
Qed.
(** The key after a failure is taken: the capture's caller has heard. *)
Lemma take_failure_key s (a : Actor) f :
  key (take_failure s a f) = (key a) <| k_capture := None |>.
Proof.
  unfold take_failure.
  match goal with |- context [let '(_, _) := ?x in _] => set (cap := x) end.
  assert (key (fst cap) = (key a) <| k_capture := None |>) as Hk.
  { unfold cap. change (act_capture_reply (a <| act_error := _ |>)) with (act_capture_reply a).
    destruct (act_capture_reply a) eqn:Hc; cbn [fst]; [by rewrite key_observe|].
    unfold key. rewrite <- Hc. done. }
  destruct cap as [a1 err]. cbn [fst] in Hk.
  set (a2 := match act_pending_stop a1 with Some _ => _ | None => _ end).
  assert (key a2 = key a1) as Hk2.
  { unfold a2. destruct (act_pending_stop a1); [|done]. by rewrite key_answer. }
  unfold fail_every_waiter. destruct s; rewrite ?key_fail_parked; rewrite <- Hk, <- Hk2; done.
Qed.

Lemma take_report_key s (a : Actor) r :
  key (fst (take_report s a r)) =
    match r with
    | Captured _ | FailedBy _ => (key a) <| k_capture := None |>
    | _ => key a
    end.
Proof.
  destruct r as [ag|ag o|ag| |info|[]| |f]; try done; [|apply take_failure_key].
  unfold take_report. cbn [fst].
  match goal with |- key (?b <| act_pause_snapshot_id := _ |>) = _ =>
    transitivity (key b); [done|] end.
  destruct (act_capture_reply a) eqn:Hc; [by rewrite key_observe|].
  unfold key. rewrite <- Hc. done.
Qed.
(** What holds once the completion of [t] is off the channel and a handoff it
    carried has been delivered. *)
Record taken (s : State) (k : Key) (t : Task) : Prop := {
  tk_mid : ∀ cap, cap = None ∨ (cap = k_capture k ∧ s ≠ St.Checkpointing) →
    key_mid calm s (k <| k_capture := cap |>);
  tk_inflight : k_inflight k = None;
  tk_queue : dying s = false → k_queued k = [];
  tk_stalled : t = TRelease Full → k_stalled k = None;
  tk_capture : s = St.Checkpointing → ∃ hold spec, t = TCheckpoint hold spec
}.

Lemma inv_live_queue s k : key_inv calm s k → dying s = false → k_queued k = [].
Proof. intros [_ Hq] Hd. destruct (k_queued k); [done|]. rewrite Hq in Hd; done. Qed.

Lemma taken_start s k t h :
  key_inv calm s k → k_inflight k = Some (MkPreemptible (k_epoch k) t h) →
  taken s (took k (k_epoch k)) t.
Proof.
  intros Hinv Hi. pose proof Hinv as [Hm _]. split.
  - intros cap Hcap. by apply took_mid.
  - done.
  - intros Hd. by apply (inv_live_queue s k).
  - intros ->. change (k_stalled (took k (k_epoch k))) with (k_stalled k).
    destruct (k_stalled k) as [st|] eqn:Hst; [|done].
    destruct (km_stalled _ _ _ Hm st Hst) as [(_ & _ & Hn)|(_ & Hn & _)].
    + by destruct (Hn _ Hi).
    + congruence.
  - intros ->. destruct (km_flow _ _ _ Hm _ Hi) as [|[Hf|(? & _)]]; [done| |done].
    destruct t; try discriminate Hf. eauto.
Qed.

Lemma taken_dying s k t :
  taken s k t → dying s = true → taken s (k <| k_queued := [] |>) t.
Proof.
  intros [Hm Hi _ Hst _] Hd. split; try done; [|by intros ->].
  intros cap Hcap. destruct (Hm cap Hcap). split; try done.
  - by eapply log_ok_same.
  - intros p Hp. change (k_inflight k = Some p) in Hp. congruence.
  - intros _. right. by left.
  - congruence.
Qed.

(** A boot's handoff that lands with its completion. *)
Lemma taken_handoff s k (a : Actor) w h s' a' acted :
  key_inv calm s k → k_inflight k = Some (MkPreemptible (k_epoch k) (TBoot w) h) →
  key a = took k (k_epoch k) →
  dispatch world s a Ev.ResourcesHandedOff = (s', a', acted) → taken s' (key a') (TBoot w).
Proof.
  intros Hinv Hi Hk. pose proof Hinv as [Hm _].
  pose proof (taken_start s k (TBoot w) h Hinv Hi) as Htk. rewrite <- Hk in Htk.
  assert (s ≠ St.Checkpointing) as Hns.
  { intros ->. destruct (km_flow _ _ _ Hm _ Hi) as [|[|(? & _)]]; done. }
  assert (key_mid calm s (key a)) as Hma.
  { exact (tk_mid _ _ _ Htk (k_capture (key a)) (or_intror (conj eq_refl Hns))). }
  unfold dispatch, dispatch_one. destruct (dying s) eqn:Hd.
  - assert (handle s Ev.ResourcesHandedOff = (s, [])) as ->.
    { by destruct (dying_handle s Ev.ResourcesHandedOff Hd) as [|(_ & ? & _)]. }
    cbn [drain_effects]. set (b := publish_state _ _).
    destruct (dispatch_queued world (dispatch_fuel b) s b) as [s2 a2] eqn:Hdq.
    intros [= <- <- _].
    destruct (dispatch_queued_dying (dispatch_fuel b) s b Hd (km_queue _ _ _ Hma)) as [Hs [q Hq]].
    apply dispatch_queued_ok in Hdq as Hok; [|exact Hma|unfold dispatch_fuel; by destruct s; simpl; try lia].
    rewrite Hdq in Hs, Hq. cbn [fst snd] in *. subst s2.
    assert (key a2 = (key a) <| k_queued := [] |>) as ->.
    { destruct Hok as [_ Hq0]. change (act_queued a2) with (k_queued (key a2)) in Hq0.
      rewrite Hq in *. simpl in Hq0. change (q = []) in Hq0. by subst q. }
    by apply taken_dying.
  - assert (handle s Ev.ResourcesHandedOff = (St.Booting, [])) as ->.
    { destruct (km_flow _ _ _ Hm _ Hi) as [->|[Hf|(_ & _ & p & ? & Hf)]]; [done| |].
      - by destruct s.
      - simplify_eq. }
    cbn [drain_effects]. set (b := publish_state _ _).
    assert (act_queued b = []) as Hq by exact (tk_queue _ _ _ Htk Hd).
    unfold dispatch_fuel. rewrite Hq. cbn [length Nat.add dispatch_queued].
    rewrite Hq. intros [= <- <- _].
    change (taken St.Booting (key a) (TBoot w)).
    destruct Htk as [Htm Hti Htq Hts Htc]. split; try done.
    intros cap Hcap. apply mid_carry; [|exact (Htq Hd)| |].
    + destruct (base_of_mid _ _ _ Hma Hd). split; try done. by eapply log_ok_same.
    + intros p Hp. change (k_inflight (key a) = Some p) in Hp. congruence.
    + change (cap = None). destruct Hcap as [|[-> _]]; [done|].
      destruct (k_capture (key a)) as [r|] eqn:Hc; [|done].
      destruct (km_capture _ _ _ Hma) as [[? _]|[?|(_ & _ & p & Hp & _)]]; [by eexists|done|congruence|].
      congruence.
Qed.
(** A report that fits its task names a full release only of one. *)
Lemma report_event_ok s (a : Actor) t r e :
  report_fits t r = true → snd (take_report s a r) = Some e →
  (e = Ev.RemoveDone → t = TRelease Full) ∧ e ≠ Ev.VmExited.
Proof.
  destruct r as [ag|ag o|ag| |info|[]| |[[] err]]; intros Hf [= <-]; (split; [|done]); try done.
  intros _. destruct t as [| | | | | |[]]; try done.
Qed.

(** The report of a task that was taken, and the event it is dispatched as. *)
Lemma report_taken_ok s (a : Actor) t r :
  taken s (key a) t → report_fits t r = true →
  let '(a, event) := take_report s a r in
  let sa := match event with
            | Some event => let '(s, a, _) := dispatch world s a event in (s, deliver_unwinding s a)
            | None => (s, publish_state a s)
            end in
  key_inv calm (fst sa) (key (snd sa)).
Proof.
  intros Htk Hfit. pose proof (take_report_key s a r) as Hk5.
  pose proof (λ e, report_event_ok s a t r e Hfit) as Hev.
  destruct (take_report s a r) as [a5 event]. cbn [fst snd] in *.
  assert (key_mid calm s (key a5) ∧ k_inflight (key a5) = None ∧
    k_queued (key a5) = k_queued (key a) ∧ k_stalled (key a5) = k_stalled (key a))
    as (Hm5 & Hi5 & Hq5 & Hst5).
  { destruct Htk as [Htm Hti Htq Hts Htc]. rewrite Hk5.
    destruct r as [ag|ag o|ag| |info|sc| |f]; split_and!; try done;
      try (apply Htm; by left); apply (Htm (k_capture (key a))); right; (split; [done|]);
      intros ->; destruct Htc as (hold & spec & ->); done. }
  destruct event as [e|].
  - destruct (Hev e eq_refl) as [Hrd Hvm].
    destruct (dispatch world s a5 e) as [[s6 a6] acted] eqn:Hd.
    cbn [fst snd]. rewrite key_deliver. eapply inv_of_mid, dispatch_ok; [|exact Hd].
    apply entering_completion; try done.
    + rewrite Hq5. apply (tk_queue _ _ _ Htk).
    + intros He' _. rewrite Hst5. apply (tk_stalled _ _ _ Htk). auto.
  - cbn [fst snd]. rewrite key_publish_state. split; [done|].
    rewrite Hq5. intros Hq. destruct (dying s) eqn:Hd; [done|].
    by rewrite (tk_queue _ _ _ Htk Hd) in Hq.
Qed.

Lemma take_completion_ok s (a : Actor) c :
  key_inv calm s (key a) → sent_by_task a c = true → c_epoch c = act_epoch a →
  let r := take_completion world s (observe a (TookCompletion (c_epoch c))) c in
  key_inv calm (fst r) (key (snd r)).
Proof.
  intros Hinv Hsent He r. unfold r, take_completion.
  set (a0 := observe a (TookCompletion (c_epoch c))).
  assert (key a0 = log_task (key a) (LTook (c_epoch c))) as Hk0 by by apply key_log.
  destruct (current_sender a c (km_log _ _ _ (ki_mid _ _ _ Hinv)) Hsent He) as (t & h & Hi & Hfit).
  change (act_inflight a0) with (act_inflight a). rewrite Hi. cbn [fmap option_fmap option_map task_handoff].
  set (a1 := a0 <| act_inflight := None |>).
  assert (key a1 = took (key a) (k_epoch (key a))) as Hk1.
  { change (key a1) with ((key a0) <| k_inflight := None |>). by rewrite Hk0, He. }
  match goal with |- context [let '(_, _) := ?x in let '(_, _) := _ in _] => set (sig := x) end.
  assert (key (snd sig) = key a1 ∧ (fst sig = true → ∃ w, t = TBoot w)) as [Hks Hboot].
  { unfold sig. pose proof (km_shape _ _ _ (ki_mid _ _ _ Hinv) _ Hi) as Hsh.
    unfold handoff_shape in Hsh. cbn [task task_handoff] in Hsh.
    destruct h; (split; [done|]); try done. intros _. destruct t; eauto; done. }
  destruct sig as [handed a2]. cbn [fst snd] in *.
  match goal with |- context [let '(_, _) := (if handed then ?x else ?y) in _] =>
    set (st := if handed then x else y) end.
  assert (taken (fst st) (key (snd st)) t) as Htk.
  { unfold st. destruct handed.
    - destruct (Hboot eq_refl) as [w ->].
      destruct (dispatch world s a2 Ev.ResourcesHandedOff) as [[s3 a3] acted] eqn:Hd.
      by eapply taken_handoff; [exact Hinv|exact Hi|rewrite Hks, Hk1|exact Hd].
    - cbn [fst snd]. rewrite Hks, Hk1. by eapply taken_start. }
  clearbody st. clear Hks Hk1 Hboot. destruct st as [s3 a3]. cbn [fst snd] in Htk.
  match goal with |- context [take_report s3 ?b (c_report c)] => set (a4 := b) end.
  assert (key a4 = key a3) as Hk4.
  { unfold a4. destruct (c_report c); try done.
    destruct (act_clear_journal_after_release a3); [by rewrite key_clear_journal|done]. }
  rewrite <- Hk4 in Htk. pose proof (report_taken_ok s3 a4 t (c_report c) Htk Hfit) as Hok.
  by destruct (take_report s3 a4 (c_report c)).
Qed.

Lemma on_completion_ok s (a : Actor) c :
  key_inv calm s (key a) → sent_by_task a c = true →
  let r := on_completion world s (observe a (TookCompletion (c_epoch c))) c in
  key_inv calm (fst r) (key (snd r)).
Proof.
  intros Hinv Hsent r. unfold r, on_completion.
  set (a0 := observe a (TookCompletion (c_epoch c))).
  change (act_epoch a0) with (act_epoch a).
  destruct (Z.eqb_spec (c_epoch c) (act_epoch a)) as [He|He]; cbn [negb].
  - pose proof (take_completion_ok s a c Hinv Hsent He) as Hok. cbv zeta in Hok. fold a0 in Hok.
    destruct (take_completion world s a0 c). by apply serve_pending_ok.
  - cbn [fst snd]. assert (key a0 = log_task (key a) (LTook (c_epoch c))) as -> by by apply key_log.
    by apply inv_stale.
Qed.

(** ** Turns *)

Definition input_calm (i : Input (GuestAgent := GuestAgent)) : Prop :=
  i ≠ InCommand Cmd.VmExited.

Lemma inv_rehand s (a : Actor) t h :
  key_inv calm s (key a) → act_inflight a = Some t → task_handoff t = Awaited →
  key_inv calm s (key (a <| act_inflight := Some (MkPreemptible (task_epoch t) (task t) h) |>)).
Proof.
  intros [Hm Hq] Hi Hh. split; [|done].
  pose proof (km_shape _ _ _ Hm t Hi) as Hsh. unfold handoff_shape in Hsh. rewrite Hh in Hsh.
  assert (flow_of (task t) = FBoot) as Hf by by destruct (task t).
  destruct Hm. split; try done.
  - by eapply log_ok_rehand.
  - intros p [= <-]. unfold handoff_shape. cbn [task]. by destruct (task t).
  - intros p [= <-]. cbn [task]. destruct (km_flow t Hi) as [|[|(-> & Hr & _)]]; [auto..|].
    by rewrite Hr in Hq; discriminate Hq.
  - intros Hc. destruct (km_capture Hc) as [[-> _]|[|(_ & Hr & _)]]; [left; split; [done|by eexists]|auto|].
    right. left. apply Hq. by rewrite Hr.
  - intros st Hst. destruct (km_stalled st Hst) as [(-> & -> & Hn)|(_ & Hn & _)].
    + left. split_and!; [done..|]. intros p [= <-]. cbn [task]. by apply (Hn t).
    + change (act_inflight a = None) in Hn. congruence.
  - intros Hne. left. by apply Hq.
Qed.

Lemma select_ok s (a : Actor) i s' a' :
  key_inv calm s (key a) → (calm = true → input_calm i) →
  select world s a i = Some (s', a') → key_inv calm s' (key a').
Proof.
  intros Hinv Hcalm. destruct i as [c|c|landed| | | |en|rt|e]; simpl.
  - intros [= Hs]. pose proof (on_command_ok s a c Hinv) as Hok. rewrite Hs in Hok.
    apply Hok. intros Hc ->. by apply (Hcalm Hc).
  - destruct (sent_by_task a c) eqn:Hsent; [|done]. intros [= Hs].
    pose proof (on_completion_ok s a c Hinv Hsent) as Hok. cbv zeta in Hok. by rewrite Hs in Hok.
  - destruct (act_inflight a) as [t|] eqn:Hi; [|done].
    destruct (task_handoff t) eqn:Hh; [|done..]. destruct landed; intros [= Hs].
    + destruct (dispatch world s _ _) as [[s1 a1] acted] eqn:Hd. injection Hs as <- <-.
      eapply dispatch_command in Hd; [exact Hd| |done|done]. by apply inv_rehand.
    + subst. by apply inv_rehand.
  - destruct (act_ttl a); [|done]. intros [= Hs].
    destruct (dispatch world s _ _) as [[s1 a1] acted] eqn:Hd. injection Hs as <- <-.
    by eapply dispatch_command in Hd.
  - destruct (act_idle a); [|done]. intros [= Hs].
    destruct (dispatch world s _ _) as [[s1 a1] acted] eqn:Hd. injection Hs as <- <-.
    eapply dispatch_command in Hd; [exact Hd| |done|done]. by destruct (dl_on_idle (act_deadlines a)).
  - destruct (act_retry a); [|done]. intros [= <- <-]. by apply resume_stalled_ok.
  - intros [= <- <-]. by rewrite key_rearm.
  - by intros [= <- <-].
  - by intros [= <- <-].
Qed.
End run.
