(* ===== verification/ActorProps.v ===== *)
(** * What the lifecycle actor guarantees

    The sub-task discipline, the callers' answers and the handover, over every
    life of an actor: any seed, any sequence of enabled inputs, and any answers
    of the world to its waits, its writes and its port calls. *)

From stdpp Require Import base list gmap strings pretty relations.
From Stdlib Require Import ZArith Lia.
From S2P Require Import Prelude Types RecordPhase Lifecycle Policy Events AtomicFile RecordStore RecordPort Runtime Recovery Actor ActorKey ActorInv ActorRun.

(** The channel an input brings. *)
Definition command_replies (c : Command) : list nat :=
  match c with
  | Cmd.Provision _ _ r | Cmd.Checkpoint _ r | Cmd.Pause _ r | Cmd.Resume _ r
  | Cmd.Stop _ r | Cmd.Remove _ r | Cmd.Detach r | Cmd.ClaimWorkload _ r
  | Cmd.SetLifecycle _ r => [r]
  | Cmd.WorkloadExited _ | Cmd.ReleaseWorkload | Cmd.VmExited => []
  end.

Section props.
Context `{Resources} `{RecordPort} {GuestAgent : Type} (world : nat → World).
Abbreviation Actor := (ComputerActor (GuestAgent := GuestAgent)) (only parsing).

Definition replies_of (i : Input (GuestAgent := GuestAgent)) : list nat :=
  match i with InCommand c => command_replies c | _ => [] end.

(** ** The invariant from the start *)

Lemma start_inv calm (a : Actor) seed adopted :
  key a = MkKey None 0 None None SHandoff [] [] →
  key_inv calm (fst (start world a seed adopted)) (key (snd (start world a seed adopted))).
Proof.
  intros Hk.
  assert (∀ b : Actor, key b = key a → key_inv calm initial (key b)) as Hinit.
  { intros b ->. rewrite Hk. split; [|done]. split; try done; simpl; try lia.
    - split; [by intros ? ? ?%elem_of_nil|done|by intros ? ?%elem_of_nil].
    - by intros [].
    - by intros _ p ?%elem_of_nil. }
  assert (∀ (b : Actor) e, key b = key a → e ≠ Ev.RemoveDone → e ≠ Ev.VmExited →
    key_inv calm (fst (fst (dispatch world initial b e)))
      (key (snd (fst (dispatch world initial b e))))) as Hdis.
  { intros b e Hb He1 He2.
    destruct (dispatch world initial b e) as [[s' a'] acted] eqn:Hd.
    eapply inv_of_mid, dispatch_ok; [|exact Hd].
    apply entering_completion; [by apply Hinit| | |done|done]; by rewrite Hb, Hk. }
  unfold start. destruct seed as [|phase|].
  - cbn [fst snd]. rewrite key_rearm. by apply Hinit.
  - specialize (Hdis (publish_state a initial) (Ev.Recovered phase) eq_refl ltac:(done) ltac:(done)).
    destruct (dispatch world initial _ _) as [[s' a'] acted]. cbn [fst snd] in *. by rewrite key_rearm.
  - match goal with |- context [dispatch world initial ?b Ev.Adopted] =>
      assert (key b = key a) as Hb by (by destruct adopted);
      specialize (Hdis b Ev.Adopted Hb ltac:(done) ltac:(done)) end.
    destruct (dispatch world initial _ _) as [[s' a'] acted]. cbn [fst snd] in *. by rewrite key_rearm.
Qed.

Lemma turns_inv calm s (a : Actor) ins s' a' :
  key_inv calm s (key a) → (calm = true → Forall input_calm ins) →
  turns world s a ins = Some (s', a') → key_inv calm s' (key a').
Proof.
  revert s a. induction ins as [|i ins IH]; intros s a Hinv Hc; simpl; [by intros [= <- <-]|].
  destruct (ended s a); [done|]. destruct (select world s a i) as [[s1 a1]|] eqn:Hs; [|done].
  apply IH.
  - eapply select_ok; [exact Hinv| |exact Hs]. intros Hcl. specialize (Hc Hcl).
    rewrite Forall_cons in Hc. by destruct Hc.
  - intros Hcl. specialize (Hc Hcl). rewrite Forall_cons in Hc. by destruct Hc.
Qed.
(** ** Callers *)

(** Every caller the actor has heard of: those answered, those parked. *)
Definition callers (a : Actor) : list nat :=
  omap reply_of (act_trace a) ++ (act_waiters a).*2 ++ option_list (act_capture_reply a).

Lemma callers_trace (a : Actor) obs :
  callers (a <| act_trace := act_trace a ++ obs |>) ≡ₚ omap reply_of obs ++ callers a.
Proof.
  destruct a. unfold callers. cbv [upd]; simpl.
  by rewrite omap_app, (comm (++) (omap reply_of act_trace)), <- app_assoc.
Qed.

Lemma callers_observe (a : Actor) o : reply_of o = None → callers (observe a o) ≡ₚ callers a.
Proof. intros Ho. unfold observe. rewrite callers_trace. simpl. by rewrite Ho. Qed.

Lemma callers_answered (a : Actor) o r :
  reply_of o = Some r → callers (observe a o) ≡ₚ r :: callers a.
Proof. intros Ho. unfold observe. rewrite callers_trace. simpl. by rewrite Ho. Qed.

Lemma callers_send (a : Actor) reply r : callers (send a reply r) ≡ₚ reply :: callers a.
Proof. by apply callers_answered. Qed.

Lemma callers_waiter (a : Actor) ans reply :
  callers (a <| act_waiters := act_waiters a ++ [(ans, reply)] |>) ≡ₚ reply :: callers a.
Proof.
  destruct a. unfold callers. cbv [upd]; simpl. rewrite fmap_app, <- app_assoc. simpl.
  by rewrite <- !Permutation_middle.
Qed.

(** A stop behind a launch: its budget and its caller. *)
Lemma callers_pending_waiter (a : Actor) budget ans reply :
  callers (a <| act_pending_stop := budget |> <| act_waiters := act_waiters a ++ [(ans, reply)] |>)
    ≡ₚ reply :: callers a.
Proof. rewrite <- (callers_waiter a ans reply). by destruct a. Qed.

Lemma callers_park (a : Actor) ans reply : callers (park a ans reply) ≡ₚ reply :: callers a.
Proof. unfold park. destruct (act_answer_error a); [by rewrite callers_send|apply callers_waiter]. Qed.

Lemma callers_settle (a : Actor) due r n :
  let '(a', rest, _) := settle_waiters a due r n (act_waiters a) in
  callers (a' <| act_waiters := rest |>) ≡ₚ callers a.
Proof.
  destruct (settle_waiters_spec a due r n (act_waiters a)) as (sent & -> & Hp & _).
  revert Hp. destruct a. unfold callers. cbv [upd]; simpl. intros Hp.
  by rewrite omap_app, <- !app_assoc, (assoc (++) (omap reply_of sent)), Hp.
Qed.

Lemma callers_answer (a : Actor) ans : callers (answer a ans) ≡ₚ callers a.
Proof.
  unfold answer. match goal with |- context [settle_waiters ?b ?d ?r ?n ?l] =>
    pose proof (callers_settle b d r n) as Hc; destruct (settle_waiters b d r n l) as [[a' rem] m] end.
  exact Hc.
Qed.

Lemma callers_fail_parked (a : Actor) e b : callers (fst (fail_parked a e b)) ≡ₚ callers a.
Proof.
  unfold fail_parked. match goal with |- context [settle_waiters ?b ?d ?r ?n ?l] =>
    pose proof (callers_settle b d r n) as Hc; destruct (settle_waiters b d r n l) as [[a' rem] m] end.
  exact Hc.
Qed.

Lemma callers_uncapture (a : Actor) reply :
  act_capture_reply a = Some reply →
  callers a ≡ₚ reply :: callers (a <| act_capture_reply := None |>).
Proof.
  destruct a. unfold callers. cbv [upd]; simpl. intros ->. simpl.
  by rewrite app_nil_r, app_assoc, (comm (++) _ [reply]).
Qed.

Lemma callers_capture (a : Actor) reply :
  act_capture_reply a = None →
  callers (a <| act_capture_reply := Some reply |>) ≡ₚ reply :: callers a.
Proof.
  destruct a. unfold callers. cbv [upd]; simpl. intros ->. simpl.
  by rewrite app_nil_r, app_assoc, (comm (++) _ [reply]).
Qed.

(** The capture's caller is answered. *)
Lemma callers_take_capture (a : Actor) reply r :
  act_capture_reply a = Some reply →
  callers (observe (a <| act_capture_reply := None |>) (RepliedCapture reply r)) ≡ₚ callers a.
Proof.
  intros Hc. rewrite (callers_answered _ _ reply) by done. by rewrite <- callers_uncapture.
Qed.
Lemma callers_abandon (a : Actor) : callers (abandon_capture a) ≡ₚ callers a.
Proof.
  unfold abandon_capture. destruct (act_capture_reply a) eqn:Hc; [|done].
  by apply callers_take_capture.
Qed.

Lemma callers_spawn (a : Actor) h t : callers (spawn_task a h t) ≡ₚ callers a.
Proof.
  unfold spawn_task.
  match goal with |- callers ((observe ?b ?o) <| act_epoch := _ |> <| act_inflight := _ |>) ≡ₚ _ =>
    transitivity (callers (observe b o)); [done|]; rewrite callers_observe by done end.
  destruct (act_inflight a); [|done].
  by rewrite callers_abandon, callers_observe.
Qed.

Lemma callers_publish_event (a : Actor) n : callers (publish_event world a n) ≡ₚ callers a.
Proof. by destruct n. Qed.

Lemma callers_arm (a : Actor) t s : callers (arm world a t s) ≡ₚ callers a.
Proof. unfold arm. destruct (act_timers_enabled a); [|done]. by destruct t. Qed.

Lemma callers_rearm (a : Actor) s : callers (rearm world a s) ≡ₚ callers a.
Proof. unfold rearm. by rewrite !callers_arm. Qed.

Lemma callers_clear_journal (a : Actor) : callers (clear_journal world a) ≡ₚ callers a.
Proof.
  unfold clear_journal. destruct (act_journal_blocked a); [done|]. by rewrite callers_observe.
Qed.

Lemma callers_fail_write (a : Actor) d : callers (fst (fail_write a d)) ≡ₚ callers a.
Proof.
  unfold fail_write, fail_every_waiter.
  match goal with |- context [fail_parked ?b ?e true] =>
    pose proof (callers_fail_parked b e true) as Hc; destruct (fail_parked b e true) as [a' n] end.
  cbn [fst snd] in *. rewrite <- Hc. by destruct (n =? 0).
Qed.

Lemma callers_commit_reverting revert (a : Actor) p t d :
  (∀ b, callers (fst (revert b)) ≡ₚ callers b) →
  callers (fst (commit_reverting world revert a p t d)) ≡ₚ callers a.
Proof.
  intros Hr. unfold commit_reverting. destruct (act_generation a); [|done].
  destruct (port_transition _ _ _ _ _) as [st [c|e]].
  - destruct (durability_error c) as [err|]; [|done].
    destruct d as [| |[]]; try done; [by rewrite callers_fail_write|].
    match goal with |- context [revert ?b] => specialize (Hr b); destruct (revert b) as [a2 fl] end.
    cbn [fst] in Hr. destruct fl; rewrite ?callers_fail_write; exact Hr.
  - destruct d as [| |u]; [|done|]; by rewrite callers_fail_write.
Qed.

Lemma callers_commit (a : Actor) p t d : callers (fst (commit world a p t d)) ≡ₚ callers a.
Proof. apply callers_commit_reverting. intros b. by apply callers_commit_reverting. Qed.

Lemma callers_persist (a : Actor) p d : callers (fst (persist_phase world a p d)) ≡ₚ callers a.
Proof. destruct p; unfold persist_phase; rewrite ?callers_commit; done. Qed.

Lemma callers_forget (a : Actor) e : callers (fst (forget world a e)) ≡ₚ callers a.
Proof.
  unfold forget, unregister. destruct (act_generation a);
    [|by apply (callers_observe a Unregistered)].
  match goal with |- context [let (_, _) := ?x in _] => destruct x as [st [c|err]] end; [|done].
  cbn [fst].
  match goal with |- context [observe ?b Unregistered] =>
    transitivity (callers (observe b Unregistered)); [done|] end.
  rewrite callers_observe by done. by destruct (durability_error c).
Qed.

Lemma callers_join (a : Actor) p : callers (fst (join_inflight world a p)) ≡ₚ callers a.
Proof.
  unfold join_inflight. destruct (w_join _); cbn [fst]; rewrite ?callers_abandon; try done.
  unfold fail_every_waiter.
  match goal with |- context [fail_parked ?b ?e true] =>
    pose proof (callers_fail_parked b e true) as Hc; destruct (fail_parked b e true) as [a' n] end.
  exact Hc.
Qed.

Lemma callers_abort (a : Actor) : callers (fst (abort_inflight world a)) ≡ₚ callers a.
Proof.
  unfold abort_inflight. destruct (act_inflight a) as [t|]; [|done].
  destruct (task_handoff t); [destruct (w_handoff _)|..];
    rewrite ?callers_join; rewrite ?callers_observe by done; done.
Qed.

Lemma callers_apply_effect (a : Actor) fx s :
  callers (fst (apply_effect world a fx s)) ≡ₚ callers a.
Proof.
  destruct fx as [p d|d|e|w|o| |h| |b dr|sc| | |n|t|t|ans| ]; cbn [apply_effect fst];
    rewrite ?callers_spawn; try done.
  - apply callers_persist.
  - apply callers_commit.
  - apply callers_forget.
  - destruct (handover _ _) as [u|f]; [done|]. unfold fail_waiters.
    rewrite callers_fail_parked. by destruct (sn_agent _).
  - apply callers_abort.
  - apply callers_publish_event.
  - apply callers_arm.
  - by destruct t.
  - rewrite callers_answer. unfold fail_waiters.
    destruct ans; try done. destruct (act_unwinding a); [|done]. by rewrite callers_fail_parked.
  - destruct (act_inflight a); [done|]. apply callers_clear_journal.
Qed.

Lemma callers_drain (a : Actor) s fx : callers (drain_effects world a s fx) ≡ₚ callers a.
Proof.
  revert a. induction fx as [|x fx IH]; intros a; simpl; [done|].
  pose proof (callers_apply_effect a x s) as Hc.
  destruct (apply_effect world a x s) as [a1 []]; cbn [fst] in Hc; [by rewrite IH|done|done].
Qed.

Lemma callers_dispatch s (a : Actor) e :
  callers (snd (fst (dispatch world s a e))) ≡ₚ callers a.
Proof.
  assert (∀ s (b : Actor) e, callers (snd (fst (dispatch_one world s b e))) ≡ₚ callers b) as H1.
  { intros s0 b e0. unfold dispatch_one. destruct (handle s0 e0) as [after fx]. cbn [fst snd].
    transitivity (callers (drain_effects world (publish_state b after) after fx)); [done|].
    by rewrite callers_drain. }
  assert (∀ fuel s (b : Actor), callers (snd (dispatch_queued world fuel s b)) ≡ₚ callers b) as Hq.
  { induction fuel as [|fuel IH]; intros s0 b; simpl; [done|].
    destruct (act_queued b) as [|e0 q]; [done|].
    specialize (H1 s0 (b <| act_queued := q |>) e0).
    destruct (dispatch_one world s0 _ e0) as [[s1 a1] acted]. cbn [fst snd] in H1.
    by rewrite IH, H1. }
  unfold dispatch. specialize (H1 s a e).
  destruct (dispatch_one world s a e) as [[s1 a1] acted]. cbn [fst snd] in H1.
  specialize (Hq (dispatch_fuel a1) s1 a1).
  destruct (dispatch_queued world _ s1 a1) as [s2 a2]. cbn [fst snd] in *. by rewrite Hq.
Qed.
Lemma callers_dispatched s (a : Actor) e s' a' acted :
  dispatch world s a e = (s', a', acted) → callers a' ≡ₚ callers a.
Proof. intros Hd. pose proof (callers_dispatch s a e) as Hc. by rewrite Hd in Hc. Qed.

Lemma callers_resume (a : Actor) : callers (resume_stalled world a) ≡ₚ callers a.
Proof.
  unfold resume_stalled. destruct (act_stalled a) as [st|]; [|done].
  match goal with |- context [let '(_, _) := ?x in _] =>
    assert (callers (fst x) ≡ₚ callers a) as Hx
      by (destruct (stalled_retry st); rewrite ?callers_abort, ?callers_forget; done);
    destruct x as [a1 []] end; cbn [fst] in Hx; rewrite ?callers_drain; exact Hx.
Qed.

Lemma callers_restart (a : Actor) s : callers (restart_teardown world a s) ≡ₚ callers a.
Proof.
  unfold restart_teardown. destruct (act_stalled a); [apply callers_resume|apply callers_drain].
Qed.

Lemma callers_answer_last (a : Actor) r : callers (answer_last a r) ≡ₚ callers a.
Proof.
  unfold answer_last. destruct (last (act_waiters a)) as [[ans reply]|] eqn:Hl; [|done].
  rewrite callers_send. apply last_Some in Hl as [l Hl].
  destruct a. unfold callers. cbv [upd]; simpl in *. rewrite Hl.
  rewrite removelast_last, fmap_app, <- app_assoc. simpl. by rewrite <- !Permutation_middle.
Qed.

Lemma callers_finish_stop (a : Actor) : callers (fst (finish_stop world a)) ≡ₚ callers a.
Proof.
  unfold finish_stop. destruct (act_generation a); [|done].
  destruct (port_transition _ _ _ _ _) as [d r].
  destruct (match r with Ok c => _ | Err e => _ end) as [rec|e]; [|done].
  cbn [fst]. by rewrite callers_clear_journal.
Qed.

Lemma callers_set_lifecycle s (a : Actor) u reply :
  callers (set_lifecycle world s a u reply) ≡ₚ reply :: callers a.
Proof.
  assert (∀ b : Actor, callers (fst (persist_lifecycle world b)) ≡ₚ callers b) as Hp.
  { intros b. unfold persist_lifecycle. destruct (act_generation b); [|done].
    by destruct (port_update_lifecycle _ _ _ _ _ _ _). }
  unfold set_lifecycle. destruct (public a); try apply callers_send;
    match goal with |- context [persist_lifecycle world ?b] =>
      specialize (Hp b); destruct (persist_lifecycle world b) as [a1 r] end;
    rewrite callers_send; f_equiv; cbn [fst] in Hp; rewrite <- (callers_rearm a1 s) in Hp; exact Hp.
Qed.

Lemma callers_refuse (a : Actor) c :
  callers (refuse_handed_over a c) ≡ₚ command_replies c ++ callers a.
Proof. destruct c; simpl; rewrite ?callers_send; try done. by rewrite (callers_answered _ _ reply). Qed.

Lemma callers_acknowledged (a : Actor) : callers (fst (acknowledged a)) ≡ₚ callers a.
Proof. unfold acknowledged. by destruct (act_answer_error a). Qed.

(** A remove parks its caller before anything else. *)
Lemma callers_remove s (a : Actor) force reply :
  callers (snd (on_command world s a (Cmd.Remove force reply))) ≡ₚ reply :: callers a.
Proof.
  unfold on_command. destruct (bool_decide (s = St.Detached)); cbn [andb negb snd];
    [by apply (callers_refuse a (Cmd.Remove force reply))|].
  dispatched Hd. apply callers_dispatched in Hd. rewrite callers_waiter in Hd.
  destruct acted; cbn [snd]; [done|].
  destruct s0; rewrite ?callers_answer_last; try done.
  - destruct (act_inflight a0), (act_retry a0); rewrite ?callers_restart; done.
  - destruct (act_stalled a0), (act_retry a0); rewrite ?callers_resume, ?callers_answer; done.
Qed.

Lemma callers_command s (a : Actor) c :
  key_inv false s (key a) →
  callers (snd (on_command world s a c)) ≡ₚ command_replies c ++ callers a.
Proof.
  intros Hinv.
  destruct (bool_decide (s = St.Detached) &&
    negb match c with Cmd.Detach _ => true | _ => false end) eqn:Hrefuse.
  { unfold on_command. rewrite Hrefuse. apply callers_refuse. }
  destruct c; try (by apply callers_remove); unfold on_command; rewrite Hrefuse;
    cbn [command_replies app snd]; try (by apply callers_set_lifecycle);
    dispatched Hd; pose proof Hd as Hc; apply callers_dispatched in Hc; cbn [snd fst]; try done.
  - rewrite <- (Hc : callers a0 ≡ₚ callers a). destruct acted; cbn [negb]; [|apply callers_send].
    destruct provision; [|apply callers_park].
    pose proof (callers_acknowledged a0) as Ha. destruct (acknowledged a0) as [a1 r].
    by rewrite callers_send, Ha.
  - rewrite <- (Hc : callers a0 ≡ₚ callers a).
    destruct acted; [|by rewrite (callers_answered _ _ reply)].
    assert (key_inv false s (key (a <| act_capture := Some spec |>))) as Hinv' by done.
    destruct (checkpoint_acts world false _ _ _ _ Hinv' Hd) as (_ & _ & Hn).
    by apply callers_capture.
  - rewrite <- (Hc : callers a0 ≡ₚ callers a).
    destruct acted; [apply callers_park|apply callers_send].
  - rewrite <- (Hc : callers a0 ≡ₚ callers a).
    destruct acted; [apply callers_park|apply callers_send].
  - rewrite <- (Hc : callers a0 ≡ₚ callers a). destruct acted; [apply callers_park|].
    destruct (launch_in_flight s0).
    { by rewrite callers_pending_waiter. }
    destruct (public a0); try apply callers_send; [apply callers_park|].
    pose proof (callers_finish_stop a0) as Ha. destruct (finish_stop world a0) as [a1 r].
    by rewrite callers_send, Ha.
  - rewrite callers_waiter in Hc. destruct acted; rewrite ?callers_answer_last; exact Hc.
  - rewrite callers_send. by rewrite Hc.
Qed.

Lemma callers_take_failure s (a : Actor) f : callers (take_failure s a f) ≡ₚ callers a.
Proof.
  unfold take_failure, fail_every_waiter.
  match goal with |- context [let '(_, _) := ?x in _] =>
    assert (callers (fst x) ≡ₚ callers a) as Hx end.
  { change (act_capture_reply (a <| act_error := _ |>)) with (act_capture_reply a).
    destruct (act_capture_reply a) eqn:Hc; cbn [fst]; [|done].
    by rewrite callers_take_capture. }
  match goal with |- context [let '(_, _) := ?x in _] => destruct x as [a1 err] end.
  cbn [fst] in Hx. rewrite <- Hx.
  assert (∀ b, b = match act_pending_stop a1 with
                   | Some _ => answer (a1 <| act_pending_stop := None |>) Ans.Stopped
                   | None => a1 end → callers b ≡ₚ callers a1) as Hb.
  { intros b ->. destruct (act_pending_stop a1); [|done]. by rewrite callers_answer. }
  destruct s; rewrite ?callers_fail_parked; by rewrite <- (Hb _ eq_refl).
Qed.

Lemma callers_take_report s (a : Actor) r : callers (fst (take_report s a r)) ≡ₚ callers a.
Proof.
  destruct r as [ag|ag o|ag| |info|[]| |f]; try done; [|apply callers_take_failure].
  unfold take_report. cbn [fst].
  match goal with |- callers (?b <| act_pause_snapshot_id := _ |>) ≡ₚ _ =>
    transitivity (callers b); [done|] end.
  destruct (act_capture_reply a) eqn:Hc; [by apply callers_take_capture|done].
Qed.

Lemma callers_serve s (a : Actor) : callers (snd (serve_pending_stop world s a)) ≡ₚ callers a.
Proof.
  unfold serve_pending_stop. destruct (act_pending_stop a) as [b|]; [|done].
  destruct (launch_in_flight s); [done|].
  destruct (public _); cbn [snd]; rewrite ?callers_answer; try done; by rewrite callers_dispatch.
Qed.

Lemma callers_deliver s (a : Actor) : callers (deliver_unwinding s a) ≡ₚ callers a.
Proof.
  unfold deliver_unwinding, fail_waiters. destruct (act_unwinding a); [|done].
  destruct s; by rewrite ?callers_fail_parked.
Qed.

Lemma callers_take_completion s (a : Actor) c :
  callers (snd (take_completion world s a c)) ≡ₚ callers a.
Proof.
  unfold take_completion.
  match goal with |- context [let '(_, _) := ?x in let '(_, _) := _ in _] =>
    assert (callers (snd x) ≡ₚ callers a) as Hc by (by destruct (act_inflight a) as [[? ? []]|]);
    destruct x as [handed a1] end.
  cbn [snd] in Hc. rewrite <- Hc. clear Hc.
  match goal with |- context [let '(_, _) := (if handed then ?x else ?y) in _] =>
    assert (callers (snd (if handed then x else y)) ≡ₚ callers a1) as Hc
      by (destruct handed; [apply callers_dispatch|done]);
    destruct (if handed then x else y) as [s2 a2] end.
  cbn [snd] in Hc. rewrite <- Hc. clear Hc.
  match goal with |- context [take_report s2 ?b (c_report c)] =>
    assert (callers b ≡ₚ callers a2) as Hc;
    [destruct (c_report c); try done;
     destruct (act_clear_journal_after_release a2); [by rewrite callers_clear_journal|done]
    |rewrite <- (callers_take_report s2 _ (c_report c)) in Hc; destruct (take_report s2 b (c_report c)) as [a3 [e|]]] end;
    cbn [fst] in Hc; rewrite <- Hc.
  - pose proof (callers_dispatch s2 a3 e) as Hd. destruct (dispatch world s2 a3 e) as [[s4 a4] acted].
    cbn [snd]. by rewrite callers_deliver.
  - done.
Qed.

Lemma callers_on_completion s (a : Actor) c :
  callers (snd (on_completion world s a c)) ≡ₚ callers a.
Proof.
  unfold on_completion. destruct (negb _); [done|].
  rewrite <- (callers_take_completion s a c). destruct (take_completion world s a c).
  apply callers_serve.
Qed.

Lemma callers_dispatch_fst s (a : Actor) e s' a' :
  fst (dispatch world s a e) = (s', a') → callers a' ≡ₚ callers a.
Proof. intros Hd. pose proof (callers_dispatch s a e) as Hc. by rewrite Hd in Hc. Qed.

Lemma callers_select s (a : Actor) i s' a' :
  key_inv false s (key a) → select world s a i = Some (s', a') →
  callers a' ≡ₚ replies_of i ++ callers a.
Proof.
  intros Hinv. destruct i as [c|c|landed| | | |en|rt|e]; cbn [select replies_of app].
  - intros [= Hs]. rewrite <- (callers_command s a c Hinv). by rewrite Hs.
  - destruct (sent_by_task a c); [|done]. intros [= Hs].
    pose proof (callers_on_completion s (observe a (TookCompletion (c_epoch c))) c) as Hc.
    rewrite Hs in Hc. rewrite callers_observe in Hc by done. exact Hc.
  - destruct (act_inflight a) as [t|]; [|done]. destruct (task_handoff t); [|done..].
    destruct landed; intros [= Hs]; [|by subst].
    by apply callers_dispatch_fst in Hs.
  - destruct (act_ttl a); [|done]. intros [= Hs].
    by apply callers_dispatch_fst in Hs.
  - destruct (act_idle a); [|done]. intros [= Hs].
    apply callers_dispatch_fst in Hs. rewrite Hs. by destruct (dl_on_idle (act_deadlines a)).
  - destruct (act_retry a); [|done]. intros [= <- <-]. by rewrite callers_resume.
  - intros [= <- <-]. by rewrite callers_rearm.
  - by intros [= <- <-].
  - by intros [= <- <-].
Qed.

Lemma callers_turns s (a : Actor) ins s' a' :
  key_inv false s (key a) → turns world s a ins = Some (s', a') →
  callers a' ≡ₚ mjoin (replies_of <$> ins) ++ callers a.
Proof.
  revert s a. induction ins as [|i ins IH]; intros s a Hinv; cbn [turns]; [by intros [= <- <-]|].
  destruct (ended s a); [done|]. destruct (select world s a i) as [[s1 a1]|] eqn:Hs; [|done].
  intros Ht. rewrite (IH s1 a1); [|by eapply select_ok|done].
  rewrite (callers_select s a i s1 a1) by done. cbn. solve_Permutation.
Qed.

Lemma all_due (l : list (Answer * nat)) : filter (λ w, true = false) l = [].
Proof. induction l as [|w l IH]; [done|]. by rewrite filter_cons_False. Qed.

(** After the loop nobody is left waiting. *)
Lemma callers_finish (a : Actor) :
  omap reply_of (act_trace (finish a)) ≡ₚ callers a.
Proof.
  assert (∀ b : Actor, act_waiters b = [] → act_capture_reply b = None →
    omap reply_of (act_trace b) = callers b) as Hdone.
  { intros b Hw Hc. unfold callers. rewrite Hw, Hc. by rewrite !app_nil_r. }
  unfold finish.
  match goal with |- context [unregister ?b] =>
    assert (callers (unregister b) ≡ₚ callers a) as Hu end.
  { unfold unregister. rewrite callers_observe by done. destruct (act_inflight a); [|done].
    by rewrite callers_observe. }
  match goal with |- context [unregister ?b] => set (u := unregister b) in * end. clearbody u.
  match goal with |- context [settle_waiters u (λ _, true) ?r ?n _] =>
    pose proof (callers_settle u (λ _, true) r n) as Hs;
    destruct (settle_waiters_spec u (λ _, true) r n (act_waiters u)) as (sent & Heq & _) end.
  rewrite Heq in Hs |- *. rewrite (all_due (act_waiters u)) in Hs.
  match goal with |- context [act_capture_reply ?b] => set (v := b) in * end.
  rewrite <- Hu, <- Hs.
  destruct (act_capture_reply v) as [reply|] eqn:Hc; [|by rewrite Hdone].
  rewrite Hdone by done. by apply callers_take_capture.
Qed.

(** ** Handed over *)

Lemma detached_handle e : handle St.Detached e = (St.Detached, []).
Proof. by destruct e. Qed.

(** What the successor owns: the records and the deadlines in them, and the
    sub-tasks that work on the computer. *)
Definition estate (a : Actor) : Store * Deadlines * option Preemptible * Z :=
  (act_records a, act_deadlines a, act_inflight a, act_epoch a).

Lemma detached_dispatch (a : Actor) e :
  act_queued a = [] →
  ∃ a', dispatch world St.Detached a e = (St.Detached, a', false) ∧ estate a' = estate a.
Proof.
  intros Hq. unfold dispatch, dispatch_one. rewrite detached_handle. cbn [drain_effects].
  set (b := publish_state _ _).
  assert (act_queued b = []) as Hb by exact Hq.
  unfold dispatch_fuel. rewrite Hb. cbn [length Nat.add dispatch_queued]. rewrite Hb.
  by exists b.
Qed.

Lemma estate_send (a : Actor) reply r : estate (send a reply r) = estate a.
Proof. done. Qed.

Lemma estate_answer_last (a : Actor) r : estate (answer_last a r) = estate a.
Proof. unfold answer_last. by destruct (last (act_waiters a)) as [[]|]. Qed.

Lemma estate_rearm (a : Actor) s : estate (rearm world a s) = estate a.
Proof.
  assert (∀ (b : Actor) k, estate (arm world b k s) = estate b) as Harm.
  { intros b k. unfold arm. destruct (act_timers_enabled b); [|done]. by destruct k. }
  unfold rearm. by rewrite !Harm.
Qed.

Lemma detached_command (a : Actor) c :
  act_queued a = [] →
  let r := on_command world St.Detached a c in fst r = St.Detached ∧ estate (snd r) = estate a.
Proof.
  intros Hq r. unfold r. destruct c; try done. unfold on_command.
  rewrite andb_false_r. cbn iota.
  match goal with |- context [dispatch world St.Detached ?b Ev.Detach] =>
    destruct (detached_dispatch b Ev.Detach Hq) as (a' & -> & He) end.
  cbn [fst snd]. rewrite estate_answer_last. by rewrite He.
Qed.

(** A computer handed over has nothing queued, in flight or stalled. *)
Lemma detached_at_rest (a : Actor) :
  key_inv false St.Detached (key a) →
  act_queued a = [] ∧ act_inflight a = None ∧ act_stalled a = None.
Proof.
  intros [Hm Hq]. split_and!.
  - change (k_queued (key a) = []). destruct (k_queued (key a)); [done|]. by specialize (Hq ltac:(done)).
  - change (k_inflight (key a) = None). destruct (k_inflight (key a)) as [p|] eqn:Hi; [|done].
    by destruct (km_flow _ _ _ Hm p Hi) as [|[|[? _]]].
  - change (k_stalled (key a) = None). destruct (k_stalled (key a)) as [st|] eqn:Hi; [|done].
    by destruct (km_stalled _ _ _ Hm st Hi) as [[? _]|[? _]].
Qed.

Lemma detached_fst (a : Actor) e s' a' :
  act_queued a = [] → fst (dispatch world St.Detached a e) = (s', a') →
  s' = St.Detached ∧ estate a' = estate a.
Proof. intros Hq. destruct (detached_dispatch a e Hq) as (b & -> & He). by intros [= <- <-]. Qed.

Lemma detached_select (a : Actor) i s' a' :
  key_inv false St.Detached (key a) → select world St.Detached a i = Some (s', a') →
  s' = St.Detached ∧ estate a' = estate a.
Proof.
  intros Hinv. destruct (detached_at_rest a Hinv) as (Hq & Hi & Hst).
  destruct i as [c|c|landed| | | |en|rt|e]; cbn [select]; rewrite ?Hi; try done.
  - intros [= Hs]. destruct (detached_command a c Hq) as [H1 H2]. by rewrite Hs in H1, H2.
  - destruct (sent_by_task a c) eqn:Hsent; [|done]. unfold on_completion.
    change (act_epoch (observe a _)) with (act_epoch a).
    destruct (Z.eqb_spec (c_epoch c) (act_epoch a)) as [He|He]; [|by intros [= <- <-]].
    destruct (current_sender a c (km_log _ _ _ (ki_mid _ _ _ Hinv)) Hsent He) as (t & h & Hf & _).
    by rewrite Hi in Hf.
  - destruct (act_ttl a); [|done]. intros [= Hs]. by apply detached_fst in Hs.
  - destruct (act_idle a); [|done]. intros [= Hs]. apply detached_fst in Hs as [-> ->];
      by destruct (dl_on_idle (act_deadlines a)).
  - destruct (act_retry a); [|done]. intros [= <- <-]. split; [done|].
    unfold resume_stalled. change (act_stalled (a <| act_retry := None |>)) with (act_stalled a).
    by rewrite Hst.
  - intros [= <- <-]. by rewrite estate_rearm.
  - by intros [= <- <-].
  - by intros [= <- <-].
Qed.

Lemma detached_turns (a : Actor) ins s' a' :
  key_inv false St.Detached (key a) → turns world St.Detached a ins = Some (s', a') →
  s' = St.Detached ∧ estate a' = estate a.
Proof.
  revert a. induction ins as [|i ins IH]; intros a Hinv; cbn [turns]; [by intros [= <- <-]|].
  destruct (ended St.Detached a); [done|].
  destruct (select world St.Detached a i) as [[s1 a1]|] eqn:Hs; [|done].
  destruct (detached_select a i s1 a1 Hinv Hs) as [-> He]. intros Ht.
  destruct (IH a1) as [-> ->]; [by eapply select_ok|done..].
Qed.

(** ** Whole lives *)

Lemma new_actor_key id rt gen dir records bus snap dl te :
  key (new_actor (GuestAgent := GuestAgent) id rt gen dir records bus snap dl te)
    = MkKey None 0 None None SHandoff [] [].
Proof. done. Qed.

Lemma callers_start (a : Actor) seed adopted :
  callers (snd (start world a seed adopted)) ≡ₚ callers a.
Proof.
  unfold start. destruct seed as [|phase|].
  - cbn [snd]. by rewrite callers_rearm.
  - pose proof (callers_dispatch initial (publish_state a initial) (Ev.Recovered phase)) as Hc.
    destruct (dispatch world initial _ _) as [[s' a'] acted]. cbn [fst snd] in *.
    rewrite callers_rearm. exact Hc.
  - match goal with |- context [dispatch world initial ?b Ev.Adopted] =>
      assert (callers b = callers a) as Hb by (by destruct adopted);
      pose proof (callers_dispatch initial b Ev.Adopted) as Hc; rewrite Hb in Hc end.
    destruct (dispatch world initial _ _) as [[s' a'] acted]. cbn [fst snd] in *.
    by rewrite callers_rearm.
Qed.

(** The invariant over a life. *)
Lemma run_actor_inv calm (a0 : Actor) seed adopted ins s a :
  key a0 = MkKey None 0 None None SHandoff [] [] → (calm = true → Forall input_calm ins) →
  run_actor world a0 seed adopted ins = Some (s, a) → key_inv calm s (key a).
Proof.
  intros Hk Hc. pose proof (start_inv calm a0 seed adopted Hk) as Hs. unfold run_actor.
  destruct (start world a0 seed adopted) as [s1 a1]. by apply turns_inv.
Qed.

Lemma run_actor_callers id rt gen dir records bus snap dl te seed adopted ins s (a : Actor) :
  run_actor world (new_actor id rt gen dir records bus snap dl te) seed adopted ins = Some (s, a) →
  callers a ≡ₚ mjoin (replies_of <$> ins).
Proof.
  set (a0 := new_actor id rt gen dir records bus snap dl te).
  pose proof (start_inv false a0 seed adopted eq_refl) as Hs.
  pose proof (callers_start a0 seed adopted) as Hc. unfold run_actor.
  destruct (start world a0 seed adopted) as [s1 a1]. cbn [fst snd] in *. intros Ht.
  rewrite (callers_turns s1 a1 ins s a) by done. rewrite Hc. by rewrite app_nil_r.
Qed.
End props.
