(* ===== verification/ActorProgress.v ===== *)
(** * The lifecycle actor never waits for nothing

    A state that waits for a sub-task has that sub-task in flight after every
    turn of the actor, whatever the world answered: no refused write, failed
    task or dropped completion leaves a computer in the middle of a flow with
    nobody working on it. *)

From stdpp Require Import base list gmap strings pretty relations.
From Stdlib Require Import ZArith Lia.
From S2P Require Import Prelude Types RecordPhase Lifecycle Policy Events AtomicFile RecordStore RecordPort Runtime Recovery Actor ActorKey ActorInv ActorRun ActorProps.

(** The states in the middle of a flow. A failed computer is at rest once its
    release ends, and a removal may wait for a retry. *)
Definition busy (s : State) : bool :=
  match s with
  | St.Failed | St.Removing => false
  | _ => match awaits s with Some _ => true | None => false end
  end.

(** The effects that neither cut a task nor park the flow. *)
Definition plain (fx : Effect) : bool :=
  match fx with Fx.AbortInflight | Fx.ForgetRecord _ => false | _ => true end.

(** ** The transition table *)

Lemma busy_command s e :
  completes e = false → busy (fst (handle s e)) = true →
  forallb plain (snd (handle s e)) = true ∧ (spawns (snd (handle s e)) ≠ [] ∨ busy s = true).
Proof. intros He. by_table s e; try discriminate He; vm_compute; intuition discriminate. Qed.

Lemma busy_seed e : seeding e = true → busy (fst (handle initial e)) = false.
Proof. destruct e as [| | | | | | | | | | | | | | | | | | | | | | | | |p|]; try done. by destruct p. Qed.

Lemma busy_failure s : busy (fst (handle s Ev.Failure)) = false.
Proof. by destruct s as [| | |[]|[] []| | | | | | | | | | | | |]. Qed.

Lemma busy_detached s :
  busy (fst (handle s Ev.Detached)) = true → handle s Ev.Detached = (s, []).
Proof. by destruct s as [| | |[]|[] []| | | | | | | | | | | | |]. Qed.

(** The events a flow ends with. *)
Definition answers (f : Flow) (e : Event) : bool :=
  match e, f with
  | (Ev.Failure | Ev.Frozen | Ev.Stranded), _ => true
  | Ev.AgentReady, FBoot | Ev.Restored, (FRestore | FResume) | Ev.Gated, FGate
  | Ev.CaptureDone _, FCapture _ | Ev.ReleasedForPause, FRelease KeepDisk
  | Ev.StopDone, FStop | Ev.RemoveDone, FRelease Full => true
  | _, _ => false
  end.

(** A flow that ends while the next state waits has spawned the next one. Only
    the boot's signal leaves [staging], so it must come before its report. *)
Lemma busy_completion s f e :
  s = St.Removing ∨ awaits s = Some f → answers f e = true →
  (s = St.Staging → e ≠ Ev.AgentReady) → busy (fst (handle s e)) = true →
  forallb plain (snd (handle s e)) = true ∧ spawns (snd (handle s e)) ≠ [].
Proof.
  intros [->|Hs] He Hst.
  - destruct (dying_handle St.Removing e eq_refl) as [->|(_ & -> & ->)]; done.
  - by_table s e; simpl in Hs; try discriminate Hs; injection Hs as <-; try discriminate He;
      first [by destruct (Hst eq_refl)|vm_compute; intuition discriminate].
Qed.

(** ** Drains *)

Definition queueable (e : Event) : Prop := e = Ev.Failure ∨ e = Ev.Detached.

(** Within a dispatch a failure may still be queued for the flow. *)
Definition served (k : Key) : Prop := is_Some (k_inflight k) ∨ Ev.Failure ∈ k_queued k.

Record underway (s : State) (k : Key) : Prop := {
  uw_queue : Forall queueable (k_queued k);
  uw_served : busy s = true → served k
}.

Lemma effect_queue k fx k' fl :
  effect_key k fx k' fl → Forall queueable (k_queued k) → Forall queueable (k_queued k').
Proof.
  intros Hk HF. destruct Hk as [| | | |fx h t _|k' fl Ha]; try done.
  - simpl. apply Forall_app. split; [done|]. by repeat constructor.
  - simpl. apply Forall_app. split; [done|]. apply Forall_singleton. by right.
  - unfold spawn_key. by destruct (k_inflight k).
  - by destruct Ha as [|? [] ?|? [] ?|? [] ?].
Qed.

Lemma drain_queue s k fx k' :
  drain_key s k fx k' → Forall queueable (k_queued k) → Forall queueable (k_queued k').
Proof.
  induction 1 as [k|k fx k1 rest k2 He _ IH|k fx k1 rest He|k fx k1 rest He]; intros HF; [done| | |].
  - by eapply IH, effect_queue.
  - by eapply (effect_queue _ _ _ _ He).
  - by eapply effect_queue.
Qed.

Lemma effect_served k fx k' :
  effect_key k fx k' Continue → plain fx = true → served k ∨ spawned fx ≠ [] → served k'.
Proof.
  intros Hk Hp. remember Continue as fl eqn:Hfl.
  destruct Hk as [fx Hq| | | |fx h t Hs|k' fl Ha]; try done.
  - intros [|Hn]; [done|]. by destruct fx.
  - intros [[|Hf]|]; [by left| |done]. right. simpl. apply elem_of_app. by left.
  - intros _. left. by eexists.
Qed.

Lemma drain_served s k fx k' :
  drain_key s k fx k' → forallb plain fx = true → served k ∨ spawns fx ≠ [] → served k'.
Proof.
  induction 1 as [k|k fx k1 rest k2 He _ IH|k fx k1 rest He|k fx k1 rest He]; simpl;
    [by intros _ [|]| | |]; intros [Hp Hr]%andb_true_iff Hs.
  - apply IH; [done|]. destruct (decide (spawns rest = [])) as [Hn|]; [|by right]. left.
    eapply effect_served; [exact He|done|]. destruct Hs as [|Hs]; [by left|right].
    intros Hf. apply Hs. unfold spawns in *. simpl. by rewrite Hf.
  - inversion He; subst; done.
  - inversion He; subst; [|done]. right. simpl. apply elem_of_app. right. by left.
Qed.

(** ** Dispatches *)

Section progress.
Context `{Resources} `{RecordPort} {GuestAgent : Type} (world : nat → World).
Abbreviation Actor := (ComputerActor (GuestAgent := GuestAgent)) (only parsing).

(** A boot signals its handoff before it completes: a completed boot's signal
    has either been taken, or is there to take. *)
Definition boot_signalled (s : State) (a : Actor) (i : Input (GuestAgent := GuestAgent)) : bool :=
  match i with
  | InCompletion c =>
      match c_report c, s with
      | Booted _, St.Staging =>
          negb (c_epoch c =? act_epoch a)%Z ||
          match task_handoff <$> act_inflight a with
          | Some Awaited => w_signalled (next_world world a)
          | _ => false
          end
      | _, _ => true
      end
  | _ => true
  end.

Fixpoint signals_first (s : State) (a : Actor) (ins : list (Input (GuestAgent := GuestAgent)))
    : bool :=
  match ins with
  | [] => true
  | i :: ins =>
      boot_signalled s a i &&
      match select world s a i with Some (s, a) => signals_first s a ins | None => true end
  end.

Lemma dispatch_one_underway s (a : Actor) e s' a' acted :
  dispatch_one world s a e = (s', a', acted) → Forall queueable (act_queued a) →
  (busy (fst (handle s e)) = true → forallb plain (snd (handle s e)) = true ∧
    (served (key a) ∨ spawns (snd (handle s e)) ≠ [])) →
  s' = fst (handle s e) ∧ underway s' (key a').
Proof.
  intros [-> Hdr]%dispatch_one_key HF Hb. split; [done|]. split; [by eapply drain_queue|].
  intros [Hp Hs]%Hb. by eapply drain_served.
Qed.

Lemma dispatch_queued_underway fuel s (a : Actor) s' a' :
  dispatch_queued world fuel s a = (s', a') → underway s (key a) → underway s' (key a').
Proof.
  revert s a. induction fuel as [|fuel IH]; intros s a; simpl; [by intros [= <- <-]|].
  destruct (act_queued a) as [|e q] eqn:Hq; [by intros [= <- <-]|].
  destruct (dispatch_one world s _ e) as [[s1 a1] acted] eqn:H1. intros Hrun [HF Hs].
  change (k_queued (key a)) with (act_queued a) in HF. rewrite Hq, Forall_cons in HF.
  destruct HF as [He HF]. apply (IH s1 a1 Hrun).
  eapply dispatch_one_underway in H1 as [_ Hu]; [exact Hu|exact HF|].
  destruct He as [->| ->]; [by rewrite busy_failure|].
  intros Hb. pose proof (busy_detached s Hb) as Hh. rewrite Hh in *. split; [done|left].
  destruct (Hs Hb) as [|Hf]; [by left|right].
  change (k_queued (key a)) with (act_queued a) in Hf. rewrite Hq in Hf.
  apply elem_of_cons in Hf as [|]; done.
Qed.

Lemma dispatch_underway s (a : Actor) e s' a' acted :
  dispatch world s a e = (s', a', acted) → Forall queueable (act_queued a) →
  (busy (fst (handle s e)) = true → forallb plain (snd (handle s e)) = true ∧
    (served (key a) ∨ spawns (snd (handle s e)) ≠ [])) →
  underway s' (key a').
Proof.
  unfold dispatch. destruct (dispatch_one world s a e) as [[s1 a1] acted1] eqn:H1.
  destruct (dispatch_queued world _ s1 a1) as [s2 a2] eqn:H2. intros [= <- <- _] HF Hb.
  eapply dispatch_queued_underway; [exact H2|].
  by apply (dispatch_one_underway s a e s1 a1 acted1 H1 HF Hb).
Qed.

Lemma dispatch_queueable s (a : Actor) e s' a' acted :
  dispatch world s a e = (s', a', acted) → Forall queueable (act_queued a) →
  Forall queueable (act_queued a').
Proof.
  assert (∀ (b : Actor) s1 x s2 b' ac, dispatch_one world s1 b x = (s2, b', ac) →
    Forall queueable (act_queued b) → Forall queueable (act_queued b')) as Hone.
  { intros b s1 x s2 b' ac [_ Hdr]%dispatch_one_key HF. by apply (drain_queue _ _ _ _ Hdr). }
  assert (∀ fuel s1 (b : Actor), Forall queueable (act_queued b) →
    Forall queueable (act_queued (snd (dispatch_queued world fuel s1 b)))) as Hrest.
  { induction fuel as [|fuel IH]; intros s1 b HF; simpl; [done|].
    destruct (act_queued b) as [|x q] eqn:Hq; [by simpl; rewrite Hq|].
    destruct (dispatch_one world s1 _ x) as [[s2 b2] ac] eqn:H1. apply IH.
    eapply Hone; [exact H1|]. rewrite Forall_cons in HF. by destruct HF. }
  unfold dispatch. destruct (dispatch_one world s a e) as [[s1 a1] acted1] eqn:H1.
  intros Hd HF. specialize (Hrest (dispatch_fuel a1) s1 a1 (Hone _ _ _ _ _ _ H1 HF)).
  destruct (dispatch_queued world _ s1 a1) as [s2 a2]. by injection Hd as <- <- <-.
Qed.

(** What is left once the queue is drained. *)
Definition attended (s : State) (k : Key) : Prop := busy s = true → is_Some (k_inflight k).

Lemma settled s k : key_inv false s k → underway s k → attended s k.
Proof.
  intros [_ Hq] [_ Hs] Hb. destruct (Hs Hb) as [|Hf]; [done|].
  destruct (k_queued k) as [|e q]; [by apply elem_of_nil in Hf|].
  specialize (Hq ltac:(done)). by destruct s.
Qed.

Lemma attended_underway s k : key_inv false s k → attended s k → underway s k.
Proof. intros [Hm _] Ha. split; [apply (km_queue _ _ _ Hm)|]. intros Hb. left. by apply Ha. Qed.

Lemma dispatch_attended s (a : Actor) e s' a' acted :
  key_inv false s (key a) → attended s (key a) → completes e = false →
  dispatch world s a e = (s', a', acted) → attended s' (key a').
Proof.
  intros Hinv Ha He Hd. apply settled; [by eapply dispatch_command in Hd|].
  eapply dispatch_underway; [exact Hd|apply (km_queue _ _ _ (ki_mid _ _ _ Hinv))|].
  intros Hb. destruct (busy_command s e He Hb) as [Hp [|Hbs]]; split; auto.
  left. left. by apply Ha.
Qed.

(** ** Turns *)

Lemma remove_attended s (a : Actor) force reply :
  key_inv false s (key a) → attended s (key a) →
  let r := on_command world s a (Cmd.Remove force reply) in attended (fst r) (key (snd r)).
Proof.
  intros Hinv Ha. unfold on_command. destruct (bool_decide (s = St.Detached)); simpl.
  { by rewrite key_send. }
  dispatched Hd. assert (attended s0 (key a0)) as Ha0.
  { by eapply dispatch_attended; [| | |exact Hd]. }
  destruct acted; [done|]. cbn [fst snd].
  destruct s0; try (by rewrite key_answer_last); done.
Qed.

Lemma command_attended s (a : Actor) c :
  key_inv false s (key a) → attended s (key a) →
  attended (fst (on_command world s a c)) (key (snd (on_command world s a c))).
Proof.
  intros Hinv Ha.
  assert (∀ e (b : Actor) s1 (a1 : Actor) acted, completes e = false → key b = key a →
    dispatch world s b e = (s1, a1, acted) → attended s1 (key a1)) as Hdis.
  { intros e b s1 a1 acted He Hk Hd. eapply dispatch_attended; [| |exact He|exact Hd]; by rewrite Hk. }
  destruct (bool_decide (s = St.Detached) &&
    negb match c with Cmd.Detach _ => true | _ => false end) eqn:Hrefuse.
  { unfold on_command. rewrite Hrefuse. cbn [fst snd]. by rewrite key_refuse. }
  destruct c; try (by apply remove_attended); unfold on_command; rewrite Hrefuse;
    try (dispatched Hd; eapply Hdis in Hd; [|done|done]); cbn [fst snd]; try done.
  - destruct acted; cbn [negb]; [|by rewrite key_send].
    destruct provision; [|by rewrite key_park].
    pose proof (key_acknowledged a0) as Hk. destruct (acknowledged a0) as [a1 r]. cbn [fst] in Hk.
    by rewrite key_send, Hk.
  - destruct acted; [exact Hd|by rewrite key_observe].
  - destruct acted; by rewrite ?key_park, ?key_send.
  - destruct acted; by rewrite ?key_park, ?key_send.
  - destruct acted; [by rewrite key_park|]. destruct (launch_in_flight s0); [done|].
    destruct (public a0); rewrite ?key_park, ?key_send; try done.
    pose proof (key_finish_stop world a0) as Hk. destruct (finish_stop world a0) as [a1 r].
    cbn [fst] in Hk. by rewrite key_send, Hk.
  - destruct acted; [done|]. by rewrite key_answer_last.
  - by rewrite key_set_lifecycle.
Qed.

Lemma serve_attended s (a : Actor) :
  key_inv false s (key a) → attended s (key a) →
  attended (fst (serve_pending_stop world s a)) (key (snd (serve_pending_stop world s a))).
Proof.
  intros Hinv Ha. unfold serve_pending_stop. destruct (act_pending_stop a) as [b|]; [|done].
  destruct (launch_in_flight s); [done|].
  destruct (public _); cbn [fst snd]; rewrite ?key_answer; try done;
    dispatched Hd; by eapply dispatch_attended in Hd.
Qed.

(** A report drives the machine with an event its flow ends with. *)
Lemma report_answers s (a : Actor) t r e :
  report_fits t r = true → snd (take_report s a r) = Some e → answers (flow_of t) e = true.
Proof.
  destruct r as [ag|ag o|ag| |info|[]| |[[] err]]; intros Hf [= <-];
    destruct t as [| | | | | |[]]; done.
Qed.

(** The signal of a boot reaches the machine in [booting]. *)
Lemma handoff_state s (a : Actor) :
  Forall queueable (act_queued a) → (dying s = false → act_queued a = []) →
  s = St.Removing ∨ awaits s = Some FBoot →
  let s' := fst (fst (dispatch world s a Ev.ResourcesHandedOff)) in
  s' = St.Removing ∨ s' = St.Booting.
Proof.
  intros HF Hq Hs. unfold dispatch, dispatch_one. destruct Hs as [->|Hs].
  - assert (handle St.Removing Ev.ResourcesHandedOff = (St.Removing, [])) as -> by done.
    cbn [drain_effects]. set (b := publish_state _ _).
    destruct (dispatch_queued_dying world (dispatch_fuel b) St.Removing b eq_refl HF) as [Hst _].
    destruct (dispatch_queued world _ _ b) as [s2 a2]. cbn [fst snd] in *. by left.
  - assert (handle s Ev.ResourcesHandedOff = (St.Booting, [])) as -> by by destruct s.
    cbn [drain_effects]. set (b := publish_state _ _).
    assert (act_queued b = []) as Hb by (apply Hq; by destruct s).
    unfold dispatch_fuel. rewrite Hb. cbn [length Nat.add dispatch_queued]. rewrite Hb. by right.
Qed.

(** The report of the task in flight, once its signal has been delivered. *)
Lemma report_underway s (a : Actor) t c (a' : Actor) e :
  take_report s a (c_report c) = (a', Some e) → report_fits t (c_report c) = true →
  Forall queueable (act_queued a) → s = St.Removing ∨ awaits s = Some (flow_of t) →
  (s = St.Staging → e ≠ Ev.AgentReady) →
  ∀ s' a'' acted, dispatch world s a' e = (s', a'', acted) → underway s' (key a'').
Proof.
  intros Ht Hfit HF Hs Hst s' a'' acted Hd. pose proof (take_report_key s a (c_report c)) as Hk.
  rewrite Ht in Hk. cbn [fst] in Hk.
  eapply dispatch_underway; [exact Hd| |].
  - change (act_queued a') with (k_queued (key a')). rewrite Hk. by destruct (c_report c).
  - intros Hb. destruct (busy_completion s (flow_of t) e) as [Hp Hn]; try done; [|by auto].
    eapply report_answers; [exact Hfit|]. by rewrite Ht.
Qed.

(** A boot that waits for its signal is what [staging] or [booting] waits for. *)
Lemma awaited_boot s k t h :
  key_inv false s k → k_inflight k = Some (MkPreemptible (k_epoch k) t h) →
  (s = St.Removing ∨ awaits s = Some (flow_of t)) ∧
  (h = Awaited → flow_of t = FBoot) ∧ (dying s = false → k_queued k = []).
Proof.
  intros Hinv Hi. pose proof Hinv as [Hm Hq]. split_and!.
  - destruct (km_flow _ _ _ Hm _ Hi) as [|[|(-> & Hr & _)]]; auto.
    rewrite Hr in Hq. by specialize (Hq ltac:(done)).
  - intros ->. pose proof (km_shape _ _ _ Hm _ Hi) as Hs. unfold handoff_shape in Hs.
    by destruct t.
  - intros Hd. by eapply inv_live_queue.
Qed.

Lemma handoff_taken s (a : Actor) c :
  Forall queueable (act_queued a) → (dying s = false → act_queued a = []) →
  s = St.Removing ∨ awaits s = Some FBoot →
  let r := fst (dispatch world s a Ev.ResourcesHandedOff) in
  Forall queueable (act_queued (snd r)) ∧ (fst r = St.Removing ∨ awaits (fst r) = Some FBoot) ∧
  (fst r = St.Staging → ∀ ag : GuestAgent, c_report c ≠ Booted ag).
Proof.
  intros HF Hq Hs r. pose proof (handoff_state s a HF Hq Hs) as Hst. unfold r. clear r.
  dispatched Hd. cbn [fst snd] in *. split; [by eapply dispatch_queueable|].
  split; [|by destruct Hst as [->| ->]]. destruct Hst as [->| ->]; auto.
Qed.

(** The release of a failed computer's runtime leaves nothing to wait for. *)
Lemma release_underway s (a : Actor) t r (a' : Actor) :
  take_report s a r = (a', None) → report_fits t r = true →
  Forall queueable (act_queued a) → s = St.Removing ∨ awaits s = Some (flow_of t) →
  underway s (key a').
Proof.
  intros Ht Hfit HF Hs.
  destruct r as [ag|ag o|ag| |info|[]| |[[] err]]; try done. injection Ht as <-.
  split; [exact HF|]. destruct t as [| | | | | |[]]; try done.
  destruct Hs as [->|Hs]; [done|]. by destruct s.
Qed.

(** A retry only drives a computer on its way out. *)
Lemma retry_attended s (a : Actor) :
  key_inv false s (key a) → attended s (key a) →
  attended s (key (resume_stalled world (a <| act_retry := None |>))).
Proof.
  intros Hinv Ha. unfold resume_stalled.
  change (act_stalled (a <| act_retry := None |>)) with (act_stalled a).
  destruct (act_stalled a) as [st|] eqn:Hst; [|done].
  by destruct (km_stalled _ _ _ (ki_mid _ _ _ Hinv) st Hst) as [(-> & _)|(-> & _)].
Qed.

Lemma completion_attended s (a : Actor) c :
  key_inv false s (key a) → sent_by_task a c = true → c_epoch c = act_epoch a →
  boot_signalled s a (InCompletion c) = true →
  let r := take_completion world s (observe a (TookCompletion (c_epoch c))) c in
  attended (fst r) (key (snd r)).
Proof.
  intros Hinv Hsent He Hsig r.
  apply settled; [by apply (take_completion_ok world false s a c)|]. unfold r, take_completion.
  set (a0 := observe a (TookCompletion (c_epoch c))).
  destruct (current_sender a c (km_log _ _ _ (ki_mid _ _ _ Hinv)) Hsent He) as (t & h & Hi & Hfit).
  destruct (awaited_boot s (key a) t h Hinv Hi) as (Hs & Hboot & Hq).
  pose proof (km_queue _ _ _ (ki_mid _ _ _ Hinv)) as HF.
  change (k_queued (key a)) with (act_queued a) in Hq, HF.
  change (act_inflight a0) with (act_inflight a). rewrite Hi.
  cbn [fmap option_fmap option_map task_handoff].
  match goal with |- context [let '(_, _) := ?x in let '(_, _) := _ in _] => set (sig := x) end.
  assert (act_queued (snd sig) = act_queued a ∧ (fst sig = true → flow_of t = FBoot)) as [Hqs Hfs].
  { unfold sig. destruct h; (split; [done|]); try done. intros _. by apply Hboot. }
  assert (fst sig = false → s = St.Staging → ∀ ag, c_report c ≠ Booted ag) as Hst.
  { intros Hf -> ag Hr. unfold boot_signalled in Hsig. rewrite Hr, He, Z.eqb_refl, Hi in Hsig.
    simpl in Hsig. destruct h; try done. unfold sig in Hf. simpl in Hf.
    change (w_signalled (next_world world a) = false) in Hf. congruence. }
  destruct sig as [handed a2]. cbn [fst snd] in *.
  match goal with |- context [let '(_, _) := (if handed then ?x else ?y) in _] =>
    set (st := if handed then x else y) end.
  assert (Forall queueable (act_queued (snd st)) ∧
    (fst st = St.Removing ∨ awaits (fst st) = Some (flow_of t)) ∧
    (fst st = St.Staging → ∀ ag, c_report c ≠ Booted ag)) as (HF3 & Hs3 & Hst3).
  { unfold st. destruct handed; [|cbn [fst snd]; rewrite Hqs; auto].
    rewrite (Hfs eq_refl) in *. rewrite <- Hqs in HF, Hq. by apply handoff_taken. }
  clearbody st. destruct st as [s3 a3]. cbn [fst snd] in *.
  match goal with |- context [take_report s3 ?b (c_report c)] => set (a4 := b) end.
  assert (act_queued a4 = act_queued a3) as Hq4.
  { unfold a4. destruct (c_report c); try done.
    destruct (act_clear_journal_after_release a3); [|done].
    exact (f_equal k_queued (key_clear_journal world (a3 <| act_clear_journal_after_release := false |>))). }
  rewrite <- Hq4 in HF3. clearbody a4.
  destruct (take_report s3 a4 (c_report c)) as [a5 [e|]] eqn:Ht.
  - dispatched Hd. cbn [fst snd]. rewrite key_deliver. 
    eapply report_underway; [exact Ht|exact Hfit|exact HF3|exact Hs3| |exact Hd].
    intros Hs' ->. destruct (c_report c) as [ag|ag o|ag| |info|[]| |[[] err]] eqn:Hr; try done.
    by apply (Hst3 Hs' ag).
  - cbn [fst snd]. rewrite key_publish_state. by eapply release_underway.
Qed.

Lemma select_attended s (a : Actor) i s' a' :
  key_inv false s (key a) → attended s (key a) → boot_signalled s a i = true →
  select world s a i = Some (s', a') → attended s' (key a').
Proof.
  intros Hinv Ha Hsig. destruct i as [c|c|landed| | | |en|rt|e]; cbn [select].
  - intros [= Hs]. pose proof (command_attended s a c Hinv Ha) as Hok. by rewrite Hs in Hok.
  - destruct (sent_by_task a c) eqn:Hsent; [|done]. unfold on_completion.
    change (act_epoch (observe a _)) with (act_epoch a).
    destruct (Z.eqb_spec (c_epoch c) (act_epoch a)) as [He|He]; cbn [negb].
    2: { by intros [= <- <-]. }
    pose proof (completion_attended s a c Hinv Hsent He Hsig) as Hc.
    pose proof (take_completion_ok world false s a c Hinv Hsent He) as Hk. cbv zeta in Hc, Hk.
    destruct (take_completion world s _ c) as [s1 a1]. intros [= Hs].
    pose proof (serve_attended s1 a1 Hk Hc) as Hok. by rewrite Hs in Hok.
  - destruct (act_inflight a) as [t|] eqn:Hi; [|done].
    destruct (task_handoff t) eqn:Hh; [|done..].
    destruct landed; intros [= Hs]; [|subst; by intros _; eexists].
    destruct (dispatch world s _ _) as [[s1 a1] acted] eqn:Hd. injection Hs as <- <-.
    eapply dispatch_attended in Hd; [exact Hd|by apply inv_rehand|intros _; by eexists|done].
  - destruct (act_ttl a); [|done]. intros [= Hs].
    destruct (dispatch world s _ _) as [[s1 a1] acted] eqn:Hd. injection Hs as <- <-.
    by eapply dispatch_attended in Hd.
  - destruct (act_idle a); [|done]. intros [= Hs].
    destruct (dispatch world s _ _) as [[s1 a1] acted] eqn:Hd. injection Hs as <- <-.
    eapply dispatch_attended in Hd; [exact Hd|..]; try done; by destruct (dl_on_idle (act_deadlines a)).
  - destruct (act_retry a); [|done]. intros [= <- <-]. by apply retry_attended.
  - intros [= <- <-]. by rewrite key_rearm.
  - by intros [= <- <-].
  - by intros [= <- <-].
Qed.

Lemma turns_attended s (a : Actor) ins s' a' :
  key_inv false s (key a) → attended s (key a) → signals_first s a ins = true →
  turns world s a ins = Some (s', a') → attended s' (key a').
Proof.
  revert s a. induction ins as [|i ins IH]; intros s a Hinv Ha; simpl; [by intros _ [= <- <-]|].
  intros [Hsig Hrest]%andb_true_iff. destruct (ended s a); [done|].
  destruct (select world s a i) as [[s1 a1]|] eqn:Hs; [|done].
  apply IH; [by eapply select_ok|by eapply select_attended|done].
Qed.

Lemma start_attended (a : Actor) seed adopted :
  key a = MkKey None 0 None None SHandoff [] [] →
  attended (fst (start world a seed adopted)) (key (snd (start world a seed adopted))).
Proof.
  intros Hk. apply settled; [by apply start_inv|].
  assert (∀ (b : Actor) e, key b = key a → seeding e = true →
    underway (fst (fst (dispatch world initial b e)))
      (key (snd (fst (dispatch world initial b e))))) as Hdis.
  { intros b e Hb He. dispatched Hd. eapply dispatch_underway; [exact Hd| |].
    - change (act_queued b) with (k_queued (key b)). by rewrite Hb, Hk.
    - by rewrite busy_seed. }
  unfold start. destruct seed as [|phase|].
  - cbn [fst snd]. rewrite key_rearm. split; [|done].
    change (Forall queueable (k_queued (key a))). by rewrite Hk.
  - specialize (Hdis (publish_state a initial) (Ev.Recovered phase) eq_refl eq_refl).
    dispatched Hd. cbn [fst snd] in *. by rewrite key_rearm.
  - match goal with |- context [dispatch world initial ?b Ev.Adopted] =>
      assert (key b = key a) as Hb by (by destruct adopted);
      specialize (Hdis b Ev.Adopted Hb eq_refl) end.
    dispatched Hd. cbn [fst snd] in *. by rewrite key_rearm.
Qed.

(** Boots signal first throughout a life. *)
Definition run_signals (a : Actor) (seed : Seeded) (adopted : option GuestAgent)
    (ins : list (Input (GuestAgent := GuestAgent))) : bool :=
  let '(s, a) := start world a seed adopted in signals_first s a ins.

Lemma run_attended (a0 : Actor) seed adopted ins s a :
  key a0 = MkKey None 0 None None SHandoff [] [] → run_signals a0 seed adopted ins = true →
  run_actor world a0 seed adopted ins = Some (s, a) → attended s (key a).
Proof.
  intros Hk. pose proof (start_inv world false a0 seed adopted Hk) as Hi.
  pose proof (start_attended a0 seed adopted Hk) as Ha. unfold run_signals, run_actor.
  destruct (start world a0 seed adopted) as [s1 a1]. by apply turns_attended.
Qed.
End progress.
