(* ===== verification/ActorRecord.v ===== *)
(** * The actor's record is the machine's durable projection

    When nothing fails underneath the record store, the phase on record is,
    after every turn of the actor, the durable projection of the state machine:
    the actor refines the machine whose effects it performs, and a restart
    finds what the machine meant to leave. While a removal waits for a sub-task
    the record lags behind by exactly the effects the removal has parked. *)

From stdpp Require Import base list gmap strings pretty relations.
From Stdlib Require Import ZArith Lia.
From S2P Require Import Prelude Types RecordPhase Lifecycle Policy Events AtomicFile RecordStore RecordPort Runtime Recovery Actor ActorKey ActorInv ActorRun ActorProps ActorProgress.

(** The machine writes [Starting] on an intent only, so the outcome it records
    is the record's first. *)
Definition tracked_write (cur : option PersistPhase) (fx : Effect) : option (option PersistPhase) :=
  match fx with
  | Fx.PersistPhase Phase.Starting _ =>
      if bool_decide (cur = Some Phase.Creating) then Some (Some Phase.Starting) else None
  | Fx.PersistPhase Phase.Creating _ => None
  | _ => durable_write cur fx
  end.

Lemma tracked_dispatch s e :
  seeding e = false →
  foldM tracked_write (durable s) (snd (handle s e)) = Some (durable (fst (handle s e))).
Proof. intros H. by_table s e; row. Qed.

(** A seed writes nothing. *)
Lemma tracked_seed e cur :
  seeding e = true → foldM tracked_write cur (snd (handle initial e)) = Some cur.
Proof. destruct e as [| | | | | | | | | | | | | | | | | | | | | | | | |p|]; try done. by destruct p. Qed.

Lemma tracked_removal : foldM tracked_write (Some Phase.Removing) (removal []) = Some (Some Phase.Removing).
Proof. done. Qed.

(** The state a seed starts the machine in. *)
Definition seeded_state (seed : Seeded) : State :=
  match seed with
  | Fresh => initial
  | Recovered phase => fst (handle initial (Ev.Recovered phase))
  | Adopted => fst (handle initial Ev.Adopted)
  end.

Section record.
Context `{Resources} `{RecordPort} {GuestAgent : Type} (world : nat → World).
Abbreviation Actor := (ComputerActor (GuestAgent := GuestAgent)) (only parsing).

(** ** What the record depends on *)

Record Ledger := MkLedger {
  l_id : ComputerId;
  l_generation : option Z;
  l_records : Store;
  l_stalled : option Stalled;
  l_public : ComputerState
}.

Definition ledger (a : Actor) : Ledger :=
  MkLedger (act_id a) (act_generation a) (act_records a) (act_stalled a) (public a).

Lemma ledger_observe (a : Actor) o : ledger (observe a o) = ledger a.
Proof. done. Qed.

Lemma ledger_send (a : Actor) reply r : ledger (send a reply r) = ledger a.
Proof. done. Qed.

Lemma ledger_settle (a : Actor) due r n l :
  ledger (fst (fst (settle_waiters a due r n l))) = ledger a.
Proof. by destruct (settle_waiters_spec a due r n l) as (sent & -> & _). Qed.

Lemma ledger_answer (a : Actor) ans : ledger (answer a ans) = ledger a.
Proof.
  unfold answer. match goal with |- context [settle_waiters ?b ?d ?r ?n ?l] =>
    pose proof (ledger_settle b d r n l) as Hk; destruct (settle_waiters b d r n l) as [[a' rem] m]
  end. exact Hk.
Qed.

Lemma ledger_fail_parked (a : Actor) e b : ledger (fst (fail_parked a e b)) = ledger a.
Proof.
  unfold fail_parked. match goal with |- context [settle_waiters ?b ?d ?r ?n ?l] =>
    pose proof (ledger_settle b d r n l) as Hk; destruct (settle_waiters b d r n l) as [[a' rem] m]
  end. exact Hk.
Qed.

Lemma ledger_park (a : Actor) ans reply : ledger (park a ans reply) = ledger a.
Proof. unfold park. by destruct (act_answer_error a). Qed.

Lemma ledger_arm (a : Actor) t s : ledger (arm world a t s) = ledger a.
Proof. unfold arm. destruct (act_timers_enabled a); [|done]. by destruct t. Qed.

Lemma ledger_rearm (a : Actor) s : ledger (rearm world a s) = ledger a.
Proof. unfold rearm. by rewrite !ledger_arm. Qed.

Lemma ledger_publish_event (a : Actor) n : ledger (publish_event world a n) = ledger a.
Proof. by destruct n. Qed.

Lemma ledger_clear_journal (a : Actor) : ledger (clear_journal world a) = ledger a.
Proof. unfold clear_journal. by destruct (act_journal_blocked a). Qed.

Lemma ledger_abandon (a : Actor) : ledger (abandon_capture a) = ledger a.
Proof. unfold abandon_capture. by destruct (act_capture_reply a). Qed.

Lemma ledger_spawn (a : Actor) h t : ledger (spawn_task a h t) = ledger a.
Proof.
  unfold spawn_task.
  transitivity (ledger match act_inflight a with
    | Some previous => abandon_capture (observe (a <| act_inflight := None |>) (AbortedTask previous))
    | None => a end); [done|].
  destruct (act_inflight a); [|done]. by rewrite ledger_abandon.
Qed.

Lemma ledger_join (a : Actor) t : ledger (fst (join_inflight world a t)) = ledger a.
Proof.
  unfold join_inflight. destruct (w_join (next_world world a)) as [| |error|]; cbn [fst]; try done.
  - by rewrite ledger_abandon.
  - by rewrite ledger_abandon.
  - unfold fail_every_waiter. match goal with |- context [fail_parked ?b ?e ?f] =>
      pose proof (ledger_fail_parked b e f) as Hk; destruct (fail_parked b e f) as [a' n] end.
    exact Hk.
Qed.

Lemma ledger_abort (a : Actor) : ledger (fst (abort_inflight world a)) = ledger a.
Proof.
  unfold abort_inflight. destruct (act_inflight a) as [t|]; [|done].
  destruct (task_handoff t); [destruct (w_handoff _)|..]; rewrite ?ledger_join; done.
Qed.

(** ** Writes in a quiet world *)

Context (Hquiet : ∀ n, env_quiet (w_store (world n))) (gen : Z).

(** The phase on record. *)
Definition recorded (l : Ledger) : option PersistPhase :=
  phase <$> port_shown (l_records l) (l_id l).

(** The store is in order and the record is this actor's generation. *)
Record sound (l : Ledger) : Prop := {
  so_ok : port_ok (l_records l);
  so_generation : l_generation l = Some gen;
  so_record : ∀ r, port_shown (l_records l) (l_id l) = Some r → generation r = gen
}.

(** One step on the record: now at [cur], and nothing else moved. *)
Definition wrote (l l' : Ledger) (cur : option PersistPhase) : Prop :=
  sound l' ∧ recorded l' = cur ∧ l_stalled l' = l_stalled l ∧ l_public l' = l_public l.

Lemma wrote_same (a a' : Actor) cur :
  sound (ledger a) → recorded (ledger a) = cur → ledger a' = ledger a → wrote (ledger a) (ledger a') cur.
Proof. intros Hs Hr ->. by repeat split; try apply Hs. Qed.

Lemma commit_quiet (a : Actor) p t d r :
  sound (ledger a) → port_shown (act_records a) (act_id a) = Some r → legal_move r t →
  ∃ a', commit world a p t d = (a', Continue) ∧
    wrote (ledger a) (ledger a') (Some (transition_phase t)).
Proof.
  intros [Hok Hg Hr] Hs Hl. set (now := clock (w_store (next_world world a))).
  destruct (proj1 (is_ok_true _) (proj2 (apply_ok_legal r t now) Hl)) as [r' Ha].
  destruct (apply_inv _ _ _ _ Ha) as (Hp & _ & _ & Hgen & _). unfold commit, commit_reverting.
  change (act_generation a = Some gen) in Hg. rewrite Hg.
  destruct (port_transition_law (w_store (next_world world a)) (act_records a) (act_id a) gen t r r')
    as (d' & -> & Hok' & Hs'); [apply Hquiet|done|done|by apply Hr|done|].
  cbn [durability_error]. eexists. split; [done|].
  split; [|split; [|done]].
  - split; [exact Hok'|exact Hg|]. intros r1. change (port_shown d' (act_id a) = Some r1 → generation r1 = gen).
    rewrite Hs'. intros [= <-]. rewrite Hgen. by apply Hr.
  - change (phase <$> port_shown d' (act_id a) = Some (transition_phase t)). by rewrite Hs', <- Hp.
Qed.

(** A write the machine may ask for goes through. *)
Lemma persist_quiet (a : Actor) p d c :
  sound (ledger a) → tracked_write (recorded (ledger a)) (Fx.PersistPhase p d) = Some c →
  ∃ a', persist_phase world a p d = (a', Continue) ∧ wrote (ledger a) (ledger a') c.
Proof.
  intros Hso Hw. unfold recorded in Hw.
  change (port_shown (l_records (ledger a)) (l_id (ledger a)))
    with (port_shown (act_records a) (act_id a)) in Hw.
  destruct (port_shown (act_records a) (act_id a)) as [r|] eqn:Hs; [|by destruct p].
  pose proof (wf_creating _ _ (port_wf _ _ _ (so_ok _ Hso) Hs)) as Hcr.
  assert (∀ t, transition_phase t = p → can_transition_to (phase r) p = true →
    match t with Tr.Starting _ | Tr.ReadyWithOutcome _ => False | _ => True end → legal_move r t)
    as Hl.
  { intros t <- He Ht. split; [by left|]. by intros o [-> | ->]. }
  cbn [tracked_write durable_write fmap option_fmap option_map] in Hw.
  destruct p; try (destruct (can_transition_to (phase r) _) eqn:He; [|done]; injection Hw as <-);
    try done; unfold persist_phase;
    try (match goal with |- context [commit world ?b ?p ?t d] =>
      exact (commit_quiet b p t d r Hso Hs (Hl t eq_refl eq_refl I)) end).
  - case_bool_decide as He; [|done]. injection Hw as <-. injection He as He.
    apply (commit_quiet a _ (Tr.Starting (act_outcome a)) d r Hso Hs).
    split; [left; by rewrite He|]. intros o _. by left; apply Hcr.
Qed.

(** The restore's single hop from an intent to [Ready]. *)
Lemma restored_quiet (a : Actor) d c :
  sound (ledger a) → tracked_write (recorded (ledger a)) (Fx.CommitRestored d) = Some c →
  ∃ a', commit world a Phase.Ready (Tr.ReadyWithOutcome (act_outcome a)) d = (a', Continue) ∧
    wrote (ledger a) (ledger a') c.
Proof.
  intros Hso. cbn [tracked_write durable_write]. case_bool_decide as He; [|done]. intros [= <-].
  unfold recorded in He. destruct (port_shown _ _) as [r|] eqn:Hs; [|done]. injection He as He.
  pose proof (wf_creating _ _ (port_wf _ _ _ (so_ok _ Hso) Hs) He) as Hcr.
  apply (commit_quiet a _ (Tr.ReadyWithOutcome (act_outcome a)) d r Hso Hs). split; [right; by eauto|]. intros o _. by left.
Qed.

Lemma forget_quiet (a : Actor) e c :
  sound (ledger a) → tracked_write (recorded (ledger a)) (Fx.ForgetRecord e) = Some c →
  ∃ a', forget world a e = (a', Continue) ∧ wrote (ledger a) (ledger a') c.
Proof.
  intros Hso Hw. pose proof Hso as [Hok Hg Hr]. unfold forget.
  change (act_generation a = Some gen) in Hg. rewrite Hg. unfold recorded in Hw.
  change (port_shown (l_records (ledger a)) (l_id (ledger a)))
    with (port_shown (act_records a) (act_id a)) in Hw.
  assert (∃ d', match e with
      | Aborted => port_abort_provision (w_store (next_world world a)) (act_records a) (act_id a) gen
      | Removed => port_finish_remove (w_store (next_world world a)) (act_records a) (act_id a) gen
      end = (d', Ok (MkCommit tt None)) ∧ port_ok d' ∧ port_shown d' (act_id a) = None ∧ c = None)
    as (d' & -> & Hok' & Hs' & ->).
  { destruct e; cbn [tracked_write durable_write] in Hw; case_bool_decide as He; try done;
      injection Hw as <-; destruct (port_shown _ _) as [r|] eqn:Hs; try done; injection He as He.
    - destruct (port_abort_law (w_store (next_world world a)) (act_records a) (act_id a) gen r)
        as (d' & ? & ? & ?); eauto.
    - destruct (port_finish_law (w_store (next_world world a)) (act_records a) (act_id a) gen r)
        as (d' & ? & ? & ?); eauto. }
  eexists. split; [done|]. split; [|split; [|done]].
  - split; [exact Hok'|exact Hg|]. intros r1.
    change (port_shown d' (act_id a) = Some r1 → generation r1 = gen). by rewrite Hs'.
  - change (phase <$> port_shown d' (act_id a) = None). by rewrite Hs'.
Qed.

Lemma abort_never_refuses (a a' : Actor) : abort_inflight world a ≠ (a', Refused).
Proof.
  unfold abort_inflight, join_inflight. destruct (act_inflight a) as [t|]; [|done].
  destruct (task_handoff t); [destruct (w_handoff _)|..]; try done;
    destruct (w_join _); try done; unfold fail_every_waiter;
    by match goal with |- context [fail_parked ?b ?e ?f] => destruct (fail_parked b e f) end.
Qed.

Lemma apply_quiet (a : Actor) fx s c :
  sound (ledger a) → tracked_write (recorded (ledger a)) fx = Some c →
  let r := apply_effect world a fx s in
  (snd r = Continue ∧ wrote (ledger a) (ledger (fst r)) c) ∨
  (snd r = StalledFlow ∧ fx = Fx.AbortInflight ∧ ledger (fst r) = ledger a).
Proof.
  intros Hso Hw r. unfold r. clear r.
  destruct fx as [p d|d|e|w|o| |h| |b dr|sc| | |n|t|t|ans| ]; cbn [apply_effect fst snd];
    try (injection Hw as <-; left; split; [done|]; by apply wrote_same; rewrite ?ledger_spawn).
  - destruct (persist_quiet a p d c Hso Hw) as (a' & -> & ?). by left.
  - destruct (restored_quiet a d c Hso Hw) as (a' & -> & ?). by left.
  - destruct (forget_quiet a e c Hso Hw) as (a' & -> & ?). by left.
  - injection Hw as <-. left. split; [done|]. apply wrote_same; [done..|].
    by destruct (handover _ _) as [[]|f]; [|destruct (sn_agent (act_snapshot a));
      unfold fail_waiters; rewrite ledger_fail_parked].
  - injection Hw as <-. pose proof (ledger_abort a) as Hl.
    destruct (abort_inflight world a) as [a' fl] eqn:Ha. cbn [fst snd] in *.
    destruct fl; [left; split; [done|]; by apply wrote_same|by right|].
    by destruct (abort_never_refuses a a' Ha).
  - injection Hw as <-. left. split; [done|]. apply wrote_same; [done..|]. apply ledger_publish_event.
  - injection Hw as <-. left. split; [done|]. apply wrote_same; [done..|]. apply ledger_arm.
  - injection Hw as <-. left. by destruct t; (split; [done|]); apply wrote_same.
  - injection Hw as <-. left. split; [done|]. apply wrote_same; [done..|].
    rewrite ledger_answer. unfold fail_waiters.
    destruct ans, (act_unwinding a); rewrite ?ledger_fail_parked; done.
  - injection Hw as <-. left. split; [done|]. apply wrote_same; [done..|].
    destruct (act_inflight a); [done|apply ledger_clear_journal].
Qed.

(** ** Dispatches *)

Definition with_stalled (l : Ledger) (st : option Stalled) : Ledger :=
  MkLedger (l_id l) (l_generation l) (l_records l) st (l_public l).

Lemma ledger_parked (a : Actor) s fx :
  ledger (park_stalled a s fx) =
    with_stalled (ledger a) (Some (MkStalled (act_stalled_on a) s fx)).
Proof. done. Qed.

Definition with_public (l : Ledger) (pub : ComputerState) : Ledger :=
  MkLedger (l_id l) (l_generation l) (l_records l) (l_stalled l) pub.

Lemma ledger_publish_state (a : Actor) s :
  ledger (publish_state a s) = with_public (ledger a) (to_public s).
Proof. done. Qed.

Lemma drain_quiet (a : Actor) s fx fin :
  sound (ledger a) → foldM tracked_write (recorded (ledger a)) fx = Some fin →
  act_stalled a = None →
  let l := ledger (drain_effects world a s fx) in
  sound l ∧ l_public l = public a ∧
  ((l_stalled l = None ∧ recorded l = fin) ∨
   ∃ st, l_stalled l = Some st ∧ Fx.AbortInflight ∈ fx ∧
     foldM tracked_write (recorded l) (stalled_effects st) = Some fin).
Proof.
  revert a. induction fx as [|x fx IH]; intros a Hso Hf Hst l.
  { injection Hf as <-. split_and!; auto. }
  unfold l. clear l. cbn [foldM drain_effects] in *.
  destruct (tracked_write (recorded (ledger a)) x) as [c|] eqn:Hw; [|done].
  pose proof (apply_quiet a x s c Hso Hw) as Ha. cbv zeta in Ha.
  destruct (apply_effect world a x s) as [a1 fl]. cbn [fst snd] in Ha.
  destruct Ha as [(-> & Hso1 & Hr1 & Hst1 & Hp1)|(-> & -> & Hl)].
  - destruct (IH a1 Hso1) as (Hso2 & Hp2 & Hr2); [by rewrite Hr1|exact (eq_trans Hst1 Hst)|].
    split; [done|]. split; [exact (eq_trans Hp2 Hp1)|].
    destruct Hr2 as [|(st & ? & ? & ?)]; [by left|]. right. exists st. split_and!; try done. by right.
  - rewrite ledger_parked, Hl. injection Hw as <-. split; [by destruct Hso|]. split; [done|]. right.
    eexists. split; [done|]. split; [by left|]. exact Hf.
Qed.

(** Only a removal waits for the task in flight. *)
Lemma abort_removes s e : Fx.AbortInflight ∈ snd (handle s e) → fst (handle s e) = St.Removing.
Proof.
  intros Hin%list_elem_of_In.
  assert (existsb (λ fx, match fx with Fx.AbortInflight => true | _ => false end)
    (snd (handle s e)) = true) as Hw by (apply existsb_exists; eauto).
  clear Hin. revert Hw. by_table s e; vm_compute; first [reflexivity|discriminate].
Qed.

(** The record against the state. *)
Record tracks (s : State) (l : Ledger) : Prop := {
  tr_sound : sound l;
  tr_public : l_public l = to_public s;
  tr_record : match l_stalled l with
              | None => recorded l = durable s
              | Some st => s = St.Removing ∧
                  foldM tracked_write (recorded l) (stalled_effects st) = Some (durable s)
              end
}.

Lemma drain_tracks (a : Actor) s fx :
  sound (ledger a) → act_stalled a = None → public a = to_public s →
  foldM tracked_write (recorded (ledger a)) fx = Some (durable s) →
  (Fx.AbortInflight ∈ fx → s = St.Removing) →
  tracks s (ledger (drain_effects world a s fx)).
Proof.
  intros Hso Hst Hp Hf Hab. destruct (drain_quiet a s fx _ Hso Hf Hst) as (Hso' & Hp' & Hr).
  split; [done|by rewrite Hp'|]. destruct Hr as [[-> ->]|(st & -> & Hin & Hr)]; auto.
Qed.

Lemma publish_tracks s (a : Actor) : tracks s (ledger a) → tracks s (ledger (publish_state a s)).
Proof. intros [[] ? ?]. rewrite ledger_publish_state. by repeat split. Qed.

Lemma dispatch_one_tracks s (a : Actor) e s' a' acted :
  tracks s (ledger a) → seeding e = false → act_stalled a = None ∨ handle s e = (s, []) →
  dispatch_one world s a e = (s', a', acted) → tracks s' (ledger a').
Proof.
  intros Ht He Hst. unfold dispatch_one.
  pose proof (tracked_dispatch s e He) as Hf. pose proof (abort_removes s e) as Hab.
  destruct (handle s e) as [after fx]. cbn [fst snd] in *. intros [= <- <- _].
  destruct Hst as [Hst|[= -> ->]].
  - apply publish_tracks, drain_tracks; [by destruct Ht as [[]]|done..| |done].
    destruct Ht as [_ _ Hr]. change (l_stalled (ledger a)) with (act_stalled a) in Hr.
    rewrite Hst in Hr. rewrite <- Hf, <- Hr. done.
  - by apply publish_tracks, publish_tracks.
Qed.

(** A parked removal ignores every event but its own completion. *)
Lemma stalled_ignores s (a : Actor) e :
  tracks s (ledger a) → (is_Some (act_stalled a) → e ≠ Ev.RemoveDone) →
  act_stalled a = None ∨ handle s e = (s, []).
Proof.
  intros [_ _ Hr] He. change (l_stalled (ledger a)) with (act_stalled a) in Hr.
  destruct (act_stalled a) as [st|]; [right|by left]. destruct Hr as [-> _].
  destruct (dying_handle St.Removing e eq_refl) as [|(_ & -> & _)]; [done|]. by destruct He.
Qed.

Lemma dispatch_queued_tracks fuel s (a : Actor) s' a' :
  tracks s (ledger a) → Forall queueable (act_queued a) →
  dispatch_queued world fuel s a = (s', a') → tracks s' (ledger a').
Proof.
  revert s a. induction fuel as [|fuel IH]; intros s a Ht HF; simpl; [by intros [= <- <-]|].
  destruct (act_queued a) as [|e q] eqn:Hq; [by intros [= <- <-]|].
  destruct (dispatch_one world s _ e) as [[s1 a1] acted] eqn:H1.
  rewrite Forall_cons in HF. destruct HF as [He HF].
  assert (seeding e = false ∧ e ≠ Ev.RemoveDone) as [Hse Hne] by (by destruct He as [-> | ->]).
  apply IH.
  - eapply dispatch_one_tracks; [| | |exact H1]; [done..|]. by apply stalled_ignores.
  - apply dispatch_one_key in H1 as [_ Hdr]. by apply (drain_queue _ _ _ _ Hdr).
Qed.

Lemma dispatch_tracks s (a : Actor) e s' a' acted :
  tracks s (ledger a) → Forall queueable (act_queued a) → seeding e = false →
  (is_Some (act_stalled a) → e ≠ Ev.RemoveDone) →
  dispatch world s a e = (s', a', acted) → tracks s' (ledger a').
Proof.
  intros Ht HF Hse Hne. unfold dispatch.
  destruct (dispatch_one world s a e) as [[s1 a1] acted1] eqn:H1.
  destruct (dispatch_queued world _ s1 a1) as [s2 a2] eqn:H2. intros [= <- <- _].
  eapply dispatch_queued_tracks; [| |exact H2].
  - eapply dispatch_one_tracks; [| | |exact H1]; [done..|]. by apply stalled_ignores.
  - apply dispatch_one_key in H1 as [_ Hdr]. by apply (drain_queue _ _ _ _ Hdr).
Qed.

(** ** Teardowns *)

Lemma resume_tracks s (a : Actor) :
  key_inv false s (key a) → tracks s (ledger a) → tracks s (ledger (resume_stalled world a)).
Proof.
  intros Hinv Ht. unfold resume_stalled. destruct (act_stalled a) as [st|] eqn:Hst; [|done].
  pose proof Ht as [Hso Hp Hr]. change (l_stalled (ledger a)) with (act_stalled a) in Hr.
  rewrite Hst in Hr. destruct Hr as [-> Hf].
  destruct (km_stalled _ _ _ (ki_mid _ _ _ Hinv) st Hst) as [(_ & Hsh & _)|(? & _)]; [|done].
  rewrite Hsh in *. cbn [stalled_retry stalled_state stalled_effects] in *.
  match goal with |- context [abort_inflight world ?b] =>
    pose proof (ledger_abort b) as Hl; pose proof (abort_never_refuses b) as Hn;
    destruct (abort_inflight world b) as [a1 fl] end.
  cbn [fst] in Hl. change (ledger (a <| act_stalled := None |>)) with (with_stalled (ledger a) None) in Hl.
  destruct fl; [| |by destruct (Hn a1)].
  - apply drain_tracks; [by rewrite Hl; destruct Hso| | | |done].
    + change (l_stalled (ledger a1) = None). by rewrite Hl.
    + change (l_public (ledger a1) = to_public St.Removing). by rewrite Hl.
    + rewrite Hl. exact Hf.
  - change (ledger (a1 <| act_stalled := Some ?x |>)) with (with_stalled (ledger a1) (Some x)).
    rewrite Hl. split; [by destruct Hso|done|]. split; [done|exact Hf].
Qed.

Lemma restart_tracks (a : Actor) :
  key_inv false St.Removing (key a) → tracks St.Removing (ledger a) →
  tracks St.Removing (ledger (restart_teardown world a St.Removing)).
Proof.
  intros Hinv Ht. unfold restart_teardown. destruct (act_stalled a) as [st|] eqn:Hst.
  { by apply resume_tracks. }
  destruct Ht as [Hso Hp Hr]. change (l_stalled (ledger a)) with (act_stalled a) in Hr.
  rewrite Hst in Hr. apply drain_tracks; try done.
  rewrite Hr. exact tracked_removal.
Qed.

(** ** Commands *)

Lemma tracks_same s (a a' : Actor) : ledger a' = ledger a → tracks s (ledger a) → tracks s (ledger a').
Proof. by intros ->. Qed.

(** The record of a computer that is neither gone nor on its way out. *)
Lemma tracks_shown s (a : Actor) :
  tracks s (ledger a) → s ≠ St.Gone → s ≠ St.Removing →
  act_stalled a = None ∧
  ∃ r, port_shown (act_records a) (act_id a) = Some r ∧ generation r = gen ∧
    durable s = Some (phase r).
Proof.
  intros [Hso _ Hr] Hg Hn. change (l_stalled (ledger a)) with (act_stalled a) in Hr.
  destruct (act_stalled a); [by destruct Hr|]. split; [done|].
  unfold recorded in Hr.
  change (phase <$> port_shown (act_records a) (act_id a) = durable s) in Hr.
  destruct (port_shown (act_records a) (act_id a)) as [r|] eqn:Hs.
  - exists r. split_and!; [done|by apply (so_record _ Hso)|by rewrite <- Hr].
  - by destruct s as [| | |[]|[] []| | | | | | | | | | | | |].
Qed.

(** Confirming a stop again writes what is already on record. *)
Lemma finish_stop_tracks (a : Actor) :
  tracks St.Stopped (ledger a) → tracks St.Stopped (ledger (fst (finish_stop world a))).
Proof.
  intros Ht. destruct (tracks_shown _ _ Ht) as (Hst & r & Hs & Hg & Hp); [done..|].
  injection Hp as Hp. pose proof Ht as [[Hok Hgen Hr] Hpub _]. unfold finish_stop.
  change (act_generation a = Some gen) in Hgen. rewrite Hgen.
  assert (legal_move r Tr.Stopped) as Hl.
  { split; [left; by rewrite <- Hp|]. by intros o [|]. }
  set (now := clock (w_store (next_world world a))).
  destruct (proj1 (is_ok_true _) (proj2 (apply_ok_legal r _ now) Hl)) as [r' Ha].
  destruct (apply_inv _ _ _ _ Ha) as (Hp' & _ & _ & Hg' & _).
  destruct (port_transition_law (w_store (next_world world a)) (act_records a) (act_id a) gen
    Tr.Stopped r r') as (d' & -> & Hok' & Hs'); [apply Hquiet|done..|].
  cbn [fst confirmed durability_error]. rewrite ledger_clear_journal. split; [|exact Hpub|].
  - split; [exact Hok'|exact Hgen|]. intros r1.
    change (port_shown d' (act_id a) = Some r1 → generation r1 = gen). rewrite Hs'.
    intros [= <-]. congruence.
  - change (l_stalled (ledger _)) with (act_stalled a). rewrite Hst.
    change (phase <$> port_shown d' (act_id a) = Some Phase.Stopped). rewrite Hs'. simpl. by f_equal.
Qed.

Lemma set_lifecycle_tracks s (a : Actor) u reply :
  tracks s (ledger a) → s ≠ St.Gone → tracks s (ledger (set_lifecycle world s a u reply)).
Proof.
  intros Ht Hng. unfold set_lifecycle. pose proof Ht as [[Hok Hgen Hr] Hpub Hrec].
  assert (public a ≠ CState.Stopping → ∀ b : Actor, ledger b = ledger a →
    tracks s (ledger (publish_state (rearm world (fst (persist_lifecycle world b)) s) s))) as Hgo.
  { intros Hns b Hb. apply publish_tracks. rewrite ledger_rearm.
    destruct (tracks_shown _ _ Ht) as (Hst & r & Hs & Hg & Hp); [done| |].
    { intros ->. by apply Hns. }
    unfold persist_lifecycle. injection Hb as Hid Hbg Hbr Hbst Hbp. rewrite Hbg.
    change (act_generation a = Some gen) in Hgen. rewrite Hgen, Hbr, Hid.
    destruct (port_update_law (w_store (next_world world b)) (act_records a) (act_id a) gen
      (dl_ttl (act_deadlines b)) (dl_idle_timeout_seconds (act_deadlines b))
      (dl_on_idle (act_deadlines b)) r) as (d' & -> & Hok' & Hs'); [apply Hquiet|done..|].
    cbn [fst]. split.
    - split; [exact Hok'|exact (eq_trans Hbg Hgen)|]. intros r1.
      change (port_shown d' (act_id b) = Some r1 → generation r1 = gen). rewrite Hid, Hs'.
      by intros [= <-].
    - exact (eq_trans Hbp Hpub).
    - change (l_stalled (ledger _)) with (act_stalled b). rewrite Hbst, Hst.
      change (phase <$> port_shown d' (act_id b) = durable s). by rewrite Hid, Hs', Hp. }
  destruct (public a) eqn:Hp; try exact Ht;
    match goal with |- context [persist_lifecycle world ?b] =>
      specialize (Hgo ltac:(discriminate) b eq_refl);
      destruct (persist_lifecycle world b) as [a1 res] end; exact Hgo.
Qed.

(** An event the machine does not act on leaves the state. *)
Lemma idle_dispatch s (a : Actor) e s' a' :
  key_inv false s (key a) → dispatch world s a e = (s', a', false) → s' = s.
Proof.
  intros Hinv. unfold dispatch, dispatch_one. destruct (handle s e) as [after fx] eqn:Hh.
  destruct (dispatch_queued world _ _ _) as [s2 a2] eqn:H2. intros [= <- _ Hact].
  apply orb_false_iff in Hact as [Hfx Hs]. apply negb_false_iff, bool_decide_eq_true in Hfx, Hs.
  apply nil_length_inv in Hfx as ->. subst after. cbn [drain_effects] in H2.
  destruct (dying s) eqn:Hd.
  - match type of H2 with dispatch_queued world ?f s ?b = _ =>
      destruct (dispatch_queued_dying world f s b Hd (km_queue _ _ _ (ki_mid _ _ _ Hinv))) as [Hst _] end.
    by rewrite H2 in Hst.
  - pose proof (inv_live_queue _ _ _ Hinv Hd) as Hq. change (act_queued a = []) in Hq.
    match type of H2 with dispatch_queued world ?f s ?b = _ => assert (act_queued b = []) as Hb by exact Hq end.
    unfold dispatch_fuel in H2. rewrite Hb in H2. cbn [length Nat.add dispatch_queued] in H2.
    rewrite Hb in H2. by injection H2.
Qed.

Lemma remove_tracks s (a : Actor) force reply :
  key_inv false s (key a) → tracks s (ledger a) →
  let r := on_command world s a (Cmd.Remove force reply) in tracks (fst r) (ledger (snd r)).
Proof.
  intros Hinv Ht. unfold on_command. destruct (bool_decide (s = St.Detached)); simpl; [done|].
  dispatched Hd.
  assert (key_inv false s0 (key a0) ∧ tracks s0 (ledger a0)) as [Hinv0 Ht0].
  { split; [by eapply dispatch_command; [| | |exact Hd]|].
    eapply dispatch_tracks; [| | | |exact Hd]; try done. apply (km_queue _ _ _ (ki_mid _ _ _ Hinv)). }
  destruct acted; [done|]. cbn [fst snd].
  assert (∀ r, ledger (answer_last a0 r) = ledger a0) as Hla.
  { intros r. unfold answer_last. by destruct (last (act_waiters a0)) as [[]|]. }
  destruct s0; rewrite ?Hla; try done.
  - destruct (act_inflight a0); [done|]. destruct (act_retry a0); [done|]. by apply restart_tracks.
  - destruct (act_stalled a0); [|by rewrite ledger_answer].
    destruct (act_retry a0); [done|]. by apply resume_tracks.
Qed.

Lemma command_tracks s (a : Actor) c :
  key_inv false s (key a) → tracks s (ledger a) → s ≠ St.Gone →
  tracks (fst (on_command world s a c)) (ledger (snd (on_command world s a c))).
Proof.
  intros Hinv Ht Hng.
  assert (∀ e (b : Actor) s1 (a1 : Actor) acted, seeding e = false → e ≠ Ev.RemoveDone →
    ledger b = ledger a → act_queued b = act_queued a →
    dispatch world s b e = (s1, a1, acted) → tracks s1 (ledger a1)) as Hdis.
  { intros e b s1 a1 acted He Hne Hl Hq Hd. eapply dispatch_tracks; [| | | |exact Hd]; try done.
    - by rewrite Hl.
    - rewrite Hq. apply (km_queue _ _ _ (ki_mid _ _ _ Hinv)). }
  destruct (bool_decide (s = St.Detached) &&
    negb match c with Cmd.Detach _ => true | _ => false end) eqn:Hrefuse.
  { unfold on_command. rewrite Hrefuse. cbn [fst snd]. by destruct c. }
  destruct c; try (by apply remove_tracks); unfold on_command; rewrite Hrefuse;
    try (dispatched Hd; pose proof Hd as Ht0; eapply Hdis in Ht0; [|done..]); cbn [fst snd]; try done.
  - destruct acted; cbn [negb]; [|done]. destruct provision; [|by rewrite ledger_park].
    unfold acknowledged. by destruct (act_answer_error a0).
  - destruct acted; exact Ht0.
  - destruct acted; by rewrite ?ledger_park.
  - destruct acted; by rewrite ?ledger_park.
  - destruct acted; [by rewrite ledger_park|]. destruct (launch_in_flight s0); [done|].
    destruct (public a0) eqn:Hp; try exact Ht0; [by rewrite ledger_park|].
    assert (s0 = s) as -> by (by eapply idle_dispatch in Hd).
    pose proof (tr_public _ _ Ht0) as Hpub. change (public a0 = to_public s) in Hpub.
    assert (s = St.Stopped) as -> by (rewrite Hp in Hpub; by destruct s as [| | |[]|[] []| | | | | | | | | | | | |]).
    pose proof (finish_stop_tracks a0 Ht0) as Hf. by destruct (finish_stop world a0).
  - destruct acted; [done|]. unfold answer_last. by destruct (last (act_waiters a0)) as [[]|].
  - by apply set_lifecycle_tracks.
Qed.

(** ** Completions *)

Lemma serve_tracks s (a : Actor) :
  key_inv false s (key a) → tracks s (ledger a) →
  tracks (fst (serve_pending_stop world s a)) (ledger (snd (serve_pending_stop world s a))).
Proof.
  intros Hinv Ht. unfold serve_pending_stop. destruct (act_pending_stop a) as [b|]; [|done].
  destruct (launch_in_flight s); [done|].
  destruct (public _); cbn [fst snd]; rewrite ?ledger_answer; try done;
    dispatched Hd; eapply dispatch_tracks in Hd; try done;
    apply (km_queue _ _ _ (ki_mid _ _ _ Hinv)).
Qed.

Lemma ledger_take_report s (a : Actor) r : ledger (fst (take_report s a r)) = ledger a.
Proof.
  destruct r as [ag|ag o|ag| |info|[]| |f]; try done.
  - unfold take_report. cbn [fst]. by destruct (act_capture_reply a).
  - unfold take_report, take_failure, fail_every_waiter. cbn [fst].
    match goal with |- context [let '(_, _) := ?x in _] =>
      assert (ledger (fst x) = ledger a) as Hx
        by (by destruct (act_capture_reply (a <| act_error := Some (message f) |>)));
      destruct x as [a1 err] end.
    cbn [fst] in Hx. rewrite <- Hx.
    match goal with |- context [act_pending_stop a1] =>
      assert (∀ b, b = match act_pending_stop a1 with
                       | Some _ => answer (a1 <| act_pending_stop := None |>) Ans.Stopped
                       | None => a1 end → ledger b = ledger a1) as Hb end.
    { intros b ->. destruct (act_pending_stop a1); [|done]. by rewrite ledger_answer. }
    rewrite <- (Hb _ eq_refl). clear Hb. by destruct s; rewrite ?ledger_fail_parked.
Qed.

Lemma ledger_deliver s (a : Actor) : ledger (deliver_unwinding s a) = ledger a.
Proof.
  unfold deliver_unwinding, fail_waiters. destruct (act_unwinding a); [|done].
  destruct s; by rewrite ?ledger_fail_parked.
Qed.

(** The report of the task in flight, once its signal has been delivered. *)
Lemma report_tracks s (a : Actor) t c :
  report_fits t (c_report c) = true → tracks s (ledger a) → Forall queueable (act_queued a) →
  (is_Some (act_stalled a) → t ≠ TRelease Full) →
  let r := let '(a, event) := take_report s a (c_report c) in
           match event with
           | Some event =>
               let '(s, a, _) := dispatch world s a event in (s, deliver_unwinding s a)
           | None => (s, publish_state a s)
           end in
  tracks (fst r) (ledger (snd r)).
Proof.
  intros Hfit Ht HF Hst r. unfold r. clear r.
  pose proof (ledger_take_report s a (c_report c)) as Hl.
  pose proof (take_report_key s a (c_report c)) as Hk.
  pose proof (λ e, report_event_ok s a t (c_report c) e Hfit) as Hev.
  pose proof (λ e, report_answers s a t (c_report c) e Hfit) as Hans.
  destruct (take_report s a (c_report c)) as [a5 event]. cbn [fst snd] in *.
  assert (act_queued a5 = act_queued a) as Hq.
  { change (act_queued a5) with (k_queued (key a5)). rewrite Hk. by destruct (c_report c). }
  rewrite <- Hl in Ht. rewrite <- Hq in HF.
  destruct event as [e|]; [|by apply publish_tracks].
  dispatched Hd. cbn [fst snd]. rewrite ledger_deliver. eapply dispatch_tracks in Hd; try done.
  - specialize (Hans e eq_refl). by destruct e, t as [| | | | | |[]].
  - change (act_stalled a5) with (l_stalled (ledger a5)). rewrite Hl. intros Hs ->.
    by apply (Hst Hs), (Hev _ eq_refl).
Qed.

Lemma completion_tracks s (a : Actor) c :
  key_inv false s (key a) → tracks s (ledger a) → sent_by_task a c = true → c_epoch c = act_epoch a →
  let r := take_completion world s (observe a (TookCompletion (c_epoch c))) c in
  tracks (fst r) (ledger (snd r)).
Proof.
  intros Hinv Ht Hsent He r. unfold r, take_completion.
  set (a0 := observe a (TookCompletion (c_epoch c))).
  destruct (current_sender a c (km_log _ _ _ (ki_mid _ _ _ Hinv)) Hsent He) as (t & h & Hi & Hfit).
  assert (is_Some (act_stalled a) → t ≠ TRelease Full) as Hst.
  { intros [st Hst] ->.
    destruct (km_stalled _ _ _ (ki_mid _ _ _ Hinv) st Hst) as [(_ & _ & Hn)|(_ & Hn & _)].
    - by destruct (Hn _ Hi).
    - change (act_inflight a = None) in Hn. congruence. }
  destruct (awaited_boot s (key a) t h Hinv Hi) as (_ & Hboot & _).
  pose proof (km_queue _ _ _ (ki_mid _ _ _ Hinv) : Forall queueable (act_queued a)) as HF.
  change (act_inflight a0) with (act_inflight a). rewrite Hi.
  cbn [fmap option_fmap option_map task_handoff].
  match goal with |- context [let '(_, _) := ?x in let '(_, _) := _ in _] => set (sig := x) end.
  assert (ledger (snd sig) = ledger a ∧ act_queued (snd sig) = act_queued a ∧
    (fst sig = true → flow_of t = FBoot)) as (Hls & Hqs & Hfs).
  { unfold sig. destruct h; split_and!; try done. intros _. by apply Hboot. }
  destruct sig as [handed a2]. cbn [fst snd] in *.
  match goal with |- context [let '(_, _) := (if handed then ?x else ?y) in _] =>
    set (st := if handed then x else y) end.
  assert (tracks (fst st) (ledger (snd st)) ∧ Forall queueable (act_queued (snd st)) ∧
    (is_Some (act_stalled (snd st)) → t ≠ TRelease Full)) as (Ht3 & HF3 & Hst3).
  { unfold st. rewrite <- Hls in Ht. rewrite <- Hqs in HF. destruct handed.
    - dispatched Hd. cbn [fst snd]. split_and!; [by eapply dispatch_tracks in Hd|
        by eapply dispatch_queueable|]. intros _ ->. by specialize (Hfs eq_refl).
    - cbn [fst snd]. split_and!; try done. change (act_stalled a2) with (l_stalled (ledger a2)).
      rewrite Hls. exact Hst. }
  clearbody st. destruct st as [s3 a3]. cbn [fst snd] in *.
  match goal with |- context [take_report s3 ?b (c_report c)] => set (a4 := b) end.
  assert (ledger a4 = ledger a3 ∧ act_queued a4 = act_queued a3) as [Hl4 Hq4].
  { unfold a4. destruct (c_report c); try done.
    destruct (act_clear_journal_after_release a3); [|done]. split; [by rewrite ledger_clear_journal|].
    exact (f_equal k_queued (key_clear_journal world (a3 <| act_clear_journal_after_release := false |>))). }
  rewrite <- Hl4 in Ht3. rewrite <- Hq4 in HF3. apply (report_tracks s3 a4 t); try done.
  change (act_stalled a4) with (l_stalled (ledger a4)). by rewrite Hl4.
Qed.

(** ** Turns *)

Lemma select_tracks s (a : Actor) i s' a' :
  key_inv false s (key a) → tracks s (ledger a) → s ≠ St.Gone →
  select world s a i = Some (s', a') → tracks s' (ledger a').
Proof.
  intros Hinv Ht Hng. pose proof (km_queue _ _ _ (ki_mid _ _ _ Hinv)) as HF.
  destruct i as [c|c|landed| | | |en|rt|e]; cbn [select].
  - intros [= Hs]. pose proof (command_tracks s a c Hinv Ht Hng) as Hok. by rewrite Hs in Hok.
  - destruct (sent_by_task a c) eqn:Hsent; [|done]. unfold on_completion.
    change (act_epoch (observe a _)) with (act_epoch a).
    destruct (Z.eqb_spec (c_epoch c) (act_epoch a)) as [He|He]; cbn [negb].
    2: { by intros [= <- <-]. }
    pose proof (completion_tracks s a c Hinv Ht Hsent He) as Hc.
    pose proof (take_completion_ok world false s a c Hinv Hsent He) as Hk. cbv zeta in Hc, Hk.
    destruct (take_completion world s _ c) as [s1 a1]. intros [= Hs].
    pose proof (serve_tracks s1 a1 Hk Hc) as Hok. by rewrite Hs in Hok.
  - destruct (act_inflight a) as [t|] eqn:Hi; [|done].
    destruct (task_handoff t) eqn:Hh; [|done..].
    destruct landed; intros [= Hs]; [|by subst].
    destruct (dispatch world s _ _) as [[s1 a1] acted] eqn:Hd. injection Hs as <- <-.
    by eapply dispatch_tracks in Hd.
  - destruct (act_ttl a); [|done]. intros [= Hs].
    destruct (dispatch world s _ _) as [[s1 a1] acted] eqn:Hd. injection Hs as <- <-.
    by eapply dispatch_tracks in Hd.
  - destruct (act_idle a); [|done]. intros [= Hs].
    destruct (dispatch world s _ _) as [[s1 a1] acted] eqn:Hd. injection Hs as <- <-.
    eapply dispatch_tracks in Hd; [exact Hd|..]; by destruct (dl_on_idle (act_deadlines a)).
  - destruct (act_retry a); [|done]. intros [= <- <-]. by apply resume_tracks.
  - intros [= <- <-]. by rewrite ledger_rearm.
  - by intros [= <- <-].
  - by intros [= <- <-].
Qed.

(** The loop ends where the record does. *)
Lemma ended_gone s (a : Actor) : tracks s (ledger a) → ended s a = false → s ≠ St.Gone.
Proof.
  intros [_ _ Hr] He ->. unfold ended in He. change (l_stalled (ledger a)) with (act_stalled a) in Hr.
  destruct (act_stalled a); [by destruct Hr|done].
Qed.

Lemma turns_tracks s (a : Actor) ins s' a' :
  key_inv false s (key a) → tracks s (ledger a) →
  turns world s a ins = Some (s', a') → tracks s' (ledger a').
Proof.
  revert s a. induction ins as [|i ins IH]; intros s a Hinv Ht; simpl; [by intros [= <- <-]|].
  destruct (ended s a) eqn:He; [done|].
  destruct (select world s a i) as [[s1 a1]|] eqn:Hs; [|done].
  apply IH; [by eapply select_ok|]. eapply select_tracks; [done..| |exact Hs]. by eapply ended_gone.
Qed.

(** ** Whole lives *)

Lemma seed_tracks (a : Actor) e s' a' acted :
  sound (ledger a) → act_stalled a = None → act_queued a = [] → seeding e = true →
  recorded (ledger a) = durable (fst (handle initial e)) →
  dispatch world initial a e = (s', a', acted) → tracks s' (ledger a').
Proof.
  intros Hso Hst Hq He Hr. unfold dispatch.
  destruct (dispatch_one world initial a e) as [[s1 a1] acted1] eqn:H1.
  destruct (dispatch_queued world _ s1 a1) as [s2 a2] eqn:H2. intros [= <- <- _].
  eapply dispatch_queued_tracks; [| |exact H2].
  - pose proof (tracked_seed e (recorded (ledger a)) He) as Hf. pose proof (abort_removes initial e) as Hab.
    unfold dispatch_one in H1. destruct (handle initial e) as [after fx]. cbn [fst snd] in *.
    injection H1 as <- <- _. apply publish_tracks, drain_tracks; [by destruct Hso|done..| |done].
    rewrite <- Hr. exact Hf.
  - apply dispatch_one_key in H1 as [_ Hdr]. apply (drain_queue _ _ _ _ Hdr).
    change (Forall queueable (act_queued a)). by rewrite Hq.
Qed.

Lemma start_tracks (a : Actor) seed adopted :
  sound (ledger a) → act_stalled a = None → act_queued a = [] →
  recorded (ledger a) = durable (seeded_state seed) →
  tracks (fst (start world a seed adopted)) (ledger (snd (start world a seed adopted))).
Proof.
  intros Hso Hst Hq Hr. unfold start. destruct seed as [|phase|]; cbn [seeded_state] in Hr.
  - cbn [fst snd]. rewrite ledger_rearm. split; [by destruct Hso|done|].
    change (l_stalled (ledger _)) with (act_stalled a). by rewrite Hst.
  - dispatched Hd. cbn [fst snd]. rewrite ledger_rearm.
    eapply seed_tracks in Hd; [exact Hd|by destruct Hso|done..].
  - dispatched Hd. cbn [fst snd]. rewrite ledger_rearm.
    eapply seed_tracks in Hd; [exact Hd|..]; by destruct Hso, adopted.
Qed.

Lemma run_tracks (a0 : Actor) seed adopted ins s a :
  key a0 = MkKey None 0 None None SHandoff [] [] → sound (ledger a0) →
  recorded (ledger a0) = durable (seeded_state seed) →
  run_actor world a0 seed adopted ins = Some (s, a) → tracks s (ledger a).
Proof.
  intros Hk Hso Hr. pose proof (start_inv world false a0 seed adopted Hk) as Hi.
  assert (tracks (fst (start world a0 seed adopted)) (ledger (snd (start world a0 seed adopted)))) as Ht.
  { apply start_tracks; try done; [exact (f_equal k_stalled Hk)|exact (f_equal k_queued Hk)]. }
  unfold run_actor. destruct (start world a0 seed adopted) as [s1 a1]. by apply turns_tracks.
Qed.
End record.
