(* ===== verification/ActorClaims.v ===== *)
(** * What a life of the actor guarantees

    The lifecycle actor's guarantees over whole lives: any seed, any sequence
    of enabled inputs and any answers of the world to its waits, its writes and
    its port calls; and one such life, run. *)

From stdpp Require Import base list gmap strings pretty relations.
From Stdlib Require Import ZArith Lia.
From S2P Require Import Prelude Types RecordPhase Lifecycle Policy Events AtomicFile RecordStore RecordPort Runtime Recovery Actor ActorKey ActorInv ActorRun ActorProps ActorProgress ActorRecord.

(** ** A life *)

(** A world where nothing fails. *)
Definition ex_world (n : nat) : World := {|
  w_store := quiet_env "1" 9 0; w_now := 9%Z; w_handoff := Signalled; w_join := Joined;
  w_signalled := true; w_detach := Some (Ok tt); w_journal := Ok tt
|}.

Definition ex_runtime : ComputerRuntime :=
  MkRuntime _ "box" None ∅ ex_spec CState.Starting None None None None ["run"; "box"] 1%Z
    None None None None None None false None None None.

Definition ex_deadlines : Deadlines := MkDeadlines None 0 Types.Pause.

Definition ex_port : RecordPort := store_port ["data"].
#[local] Existing Instance ex_port.

(** A computer of this process alone, without a record. *)
Definition ex_actor : ComputerActor (GuestAgent := unit) :=
  new_actor "box" ex_runtime None ["run"; "box"] empty_dir new_bus
    (project ex_runtime CState.Starting ex_deadlines) ex_deadlines true.

Definition ex_capture : CaptureSpec := MkCaptureSpec "snap" ∅.

(** A boot, a stop that waits for it, a capture it refuses, and a removal that
    cuts the stop; the boot's report is still on its way. *)
Definition ex_inputs : list (Input (GuestAgent := unit)) := [
  InCommand (Cmd.Provision (Prov.Boot false) ex_outcome 0);
  InHandoff true;
  InCompletion (MkCompletion 1 (Booted tt));
  InCommand (Cmd.Stop (from_secs 5) 1);
  InCompletion (MkCompletion 2 GatedOk);
  InCommand (Cmd.Checkpoint ex_capture 2);
  InCommand (Cmd.Remove true 3)
].

(** A boot handed to the next process. *)
Definition ex_handover : list (Input (GuestAgent := unit)) :=
  take 3 ex_inputs ++
  [InCompletion (MkCompletion 2 GatedOk); InCommand (Cmd.Detach 1)].

(** The end of a life, when there is one. *)
Ltac runs ins :=
  match goal with |- context [run_actor ?w ?a ?seed ?ad ins] =>
    let Hs := fresh in
    assert (match run_actor w a seed ad ins with Some _ => true | None => false end = true)
      as Hs by (vm_compute; reflexivity);
    let s := fresh "s" in let b := fresh "b" in let Hr := fresh "Hr" in
    destruct (run_actor w a seed ad ins) as [[s b]|] eqn:Hr; [clear Hs|discriminate Hs];
    exists s, b; split; [reflexivity|]
  end.

Section claims.
Context `{Resources} `{RecordPort} {GuestAgent : Type} (world : nat → World).
Abbreviation Actor := (ComputerActor (GuestAgent := GuestAgent)) (only parsing).

Lemma new_run_inv id rt gen dir records bus snap dl te seed adopted ins s (a : Actor) :
  run_actor world (new_actor id rt gen dir records bus snap dl te) seed adopted ins = Some (s, a) →
  key_inv false s (key a).
Proof. by apply run_actor_inv. Qed.

(** C38: every caller is answered, once. Over any life of an actor, once its
    loop has ended the replies it sent are, up to order, exactly the replies
    its commands asked for: no caller is left waiting and none is answered
    twice, whether its command was refused, acted on, superseded, failed, or
    outlived by the computer. *)
Theorem every_caller_answered_once id rt gen dir records bus snap dl te seed adopted ins s (a : Actor)
    (Hrun : run_actor world (new_actor id rt gen dir records bus snap dl te) seed adopted ins
              = Some (s, a)) :
  omap reply_of (act_trace (finish a)) ≡ₚ mjoin (replies_of <$> ins).
Proof. rewrite callers_finish. by eapply run_actor_callers. Qed.

(** C40: one sub-task at a time, and the right one. After any turns the task in
    flight carries the current epoch and is the one the state waits for, unless
    a removal is waiting it out; a capture's caller is parked, a teardown is
    stalled and an event is left queued only where the state says so. *)
Theorem one_task_the_right_one id rt gen dir records bus snap dl te seed adopted ins s (a : Actor)
    (Hrun : run_actor world (new_actor id rt gen dir records bus snap dl te) seed adopted ins
              = Some (s, a)) :
  (∀ p, act_inflight a = Some p → task_epoch p = act_epoch a ∧
     (s = St.Removing ∨ awaits s = Some (flow_of (task p)))) ∧
  (is_Some (act_capture_reply a) → s = St.Checkpointing ∨ dying s = true) ∧
  (is_Some (act_stalled a) → dying s = true) ∧
  (act_queued a ≠ [] → dying s = true).
Proof.
  destruct (new_run_inv _ _ _ _ _ _ _ _ _ _ _ _ _ _ Hrun) as [Hm Hq].
  assert (¬ stop_refused s (key a)) as Hn.
  { intros (-> & Hr & _). rewrite Hr in Hq. by specialize (Hq ltac:(done)). }
  split_and!.
  - intros p Hp. split; [by apply (lo_inflight _ (km_log _ _ _ Hm))|].
    destruct (km_flow _ _ _ Hm p Hp) as [|[|]]; by auto.
  - intros Hc. destruct (km_capture _ _ _ Hm Hc) as [[]|[|]]; auto.
  - intros [st Hst]. by destruct (km_stalled _ _ _ Hm st Hst) as [(-> & _)|(-> & _)].
  - exact Hq.
Qed.

(** A completion moves the computer only if it is the current task's. One
    under the current epoch comes from the task in flight, and reports what
    that task does; any other is dropped, whatever it reports. *)
Theorem stale_completions_dropped id rt gen dir records bus snap dl te seed adopted ins s (a : Actor) c
    (Hrun : run_actor world (new_actor id rt gen dir records bus snap dl te) seed adopted ins
              = Some (s, a))
    (Hsent : sent_by_task a c = true) :
  (c_epoch c = act_epoch a → ∃ t h, act_inflight a = Some (MkPreemptible (c_epoch c) t h) ∧
     report_fits t (c_report c) = true) ∧
  (c_epoch c ≠ act_epoch a →
     select world s a (InCompletion c) = Some (s, observe a (TookCompletion (c_epoch c)))).
Proof.
  destruct (new_run_inv _ _ _ _ _ _ _ _ _ _ _ _ _ _ Hrun) as [Hm Hq]. split.
  - intros He. rewrite He. exact (current_sender a c (km_log _ _ _ Hm) Hsent He).
  - intros He. simpl. rewrite Hsent. unfold on_completion.
    change (act_epoch (observe a _)) with (act_epoch a). by rewrite (proj2 (Z.eqb_neq _ _) He).
Qed.

(** No resource is stranded. As long as no guest is reported dead on its
    own, a task is cut only when the computer owns everything the task
    allocated: never a boot before its handoff, and never a restore or a
    resume, which keep theirs to themselves. *)
Theorem only_abortable_tasks_cut id rt gen dir records bus snap dl te seed adopted ins s (a : Actor)
    (Hcalm : Forall input_calm ins)
    (Hrun : run_actor world (new_actor id rt gen dir records bus snap dl te) seed adopted ins
              = Some (s, a)) p :
  AbortedTask p ∈ act_trace a →
  task_handoff p = Abortable ∧
  match task p with TRestore _ | TResume => False | _ => True end.
Proof.
  intros Hp. destruct (run_actor_inv world true _ _ _ _ _ _ (new_actor_key _ _ _ _ _ _ _ _ _)
    (λ _, Hcalm) Hrun) as [Hm _].
  destruct (km_cuts _ _ _ Hm eq_refl p) as [Ha Hs].
  { apply list_elem_of_omap. by exists (AbortedTask p). }
  split; [done|]. unfold handoff_shape in Hs. rewrite Ha in Hs. by destruct (task p).
Qed.

(** C39: no flow is left with nobody working on it. If boots signal their
    handoff before they complete, then after any turns a computer in the middle
    of a launch, capture, release, resume or stop has that flow's sub-task in
    flight, so its completion or failure moves it on. *)
Theorem flows_are_attended id rt gen dir records bus snap dl te seed adopted ins s (a : Actor)
    (Hsignals : run_signals world (new_actor id rt gen dir records bus snap dl te) seed adopted ins
                  = true)
    (Hrun : run_actor world (new_actor id rt gen dir records bus snap dl te) seed adopted ins
              = Some (s, a)) :
  busy s = true → ∃ p, act_inflight a = Some p ∧ task_epoch p = act_epoch a ∧
    awaits s = Some (flow_of (task p)).
Proof.
  intros Hb. destruct (run_attended world _ _ _ _ _ _ (new_actor_key _ _ _ _ _ _ _ _ _)
    Hsignals Hrun Hb) as [p Hp].
  destruct (new_run_inv _ _ _ _ _ _ _ _ _ _ _ _ _ _ Hrun) as [Hm Hq].
  exists p. split; [done|]. split; [by apply (lo_inflight _ (km_log _ _ _ Hm))|].
  destruct (km_flow _ _ _ Hm p Hp) as [->|[|(-> & Hr & _)]]; [done..|].
  rewrite Hr in Hq. by specialize (Hq ltac:(done)).
Qed.

(** A handover is final. Once a life has reached [detached], whatever
    comes next (commands, late completions, timers) leaves the state, the
    records, the deadlines and the sub-tasks as they were handed over. *)
Theorem handed_over_untouched id rt gen dir records bus snap dl te seed adopted ins (a : Actor)
    (Hrun : run_actor world (new_actor id rt gen dir records bus snap dl te) seed adopted ins
              = Some (St.Detached, a)) later s' a' :
  turns world St.Detached a later = Some (s', a') →
  s' = St.Detached ∧ act_records a' = act_records a ∧ act_deadlines a' = act_deadlines a ∧
  act_inflight a' = None ∧ act_epoch a' = act_epoch a.
Proof.
  intros Ht. pose proof (new_run_inv _ _ _ _ _ _ _ _ _ _ _ _ _ _ Hrun) as Hinv.
  destruct (detached_turns world a later s' a' Hinv Ht) as [-> He]. injection He as -> -> -> ->.
  split_and!; try done. by apply detached_at_rest.
Qed.

(** C37: the actor refines the machine. When nothing fails underneath the record
    store, the phase on record after any turns is the durable projection of
    the state the machine is in, so a restart at that point recovers what the
    machine meant to leave. The exception is a removal that still waits for
    the task in flight: its writes are parked, and performing them from the
    phase on record ends in [Removing]. *)
Theorem record_refines_machine id rt g dir records bus snap dl te seed adopted ins s (a : Actor) r
    (Hquiet : ∀ n, env_quiet (w_store (world n)))
    (Hok : port_ok records) (Hshown : port_shown records id = Some r) (Hgen : generation r = g)
    (Hseed : durable (seeded_state seed) = Some (phase r))
    (Hrun : run_actor world (new_actor id rt (Some g) dir records bus snap dl te) seed adopted ins
              = Some (s, a)) :
  port_ok (act_records a) ∧
  match act_stalled a with
  | None => phase <$> port_shown (act_records a) (act_id a) = durable s
  | Some parked => s = St.Removing ∧
      foldM tracked_write (phase <$> port_shown (act_records a) (act_id a))
        (stalled_effects parked) = Some (durable s)
  end.
Proof.
  eapply (run_tracks world Hquiet g) in Hrun as [[Hok' _ _] _ Htr]; [by split|done| |].
  - split; [done|done|]. intros r1 Hr1. change (port_shown records id = Some r1) in Hr1. by simplify_eq.
  - change (phase <$> port_shown records id = durable (seeded_state seed)). by rewrite Hshown, Hseed.
Qed.
End claims.

Lemma every_caller_answered_once_witness :
  ∃ s a, run_actor ex_world ex_actor Fresh None ex_inputs = Some (s, a) ∧
    omap reply_of (act_trace (finish a)) ≡ₚ [0; 1; 2; 3].
Proof.
  runs ex_inputs. exact (every_caller_answered_once ex_world _ _ _ _ _ _ _ _ _ _ _ _ _ _ Hr).
Defined.

Lemma one_task_the_right_one_witness :
  ∃ s a, run_actor ex_world ex_actor Fresh None ex_inputs = Some (s, a) ∧
    (is_Some (act_stalled a) → dying s = true).
Proof.
  runs ex_inputs. exact (proj1 (proj2 (proj2
    (one_task_the_right_one ex_world _ _ _ _ _ _ _ _ _ _ _ _ _ _ Hr)))).
Defined.

(** The stop the removal cut still reports, and is not heard. *)
Lemma stale_completions_dropped_witness :
  ∃ s a, run_actor ex_world ex_actor Fresh None ex_inputs = Some (s, a) ∧
    select ex_world s a (InCompletion (MkCompletion 3 StoppedOk))
      = Some (s, observe a (TookCompletion 3)).
Proof.
  assert ((λ r, (sent_by_task (snd r) (MkCompletion 3 StoppedOk), act_epoch (snd r)))
    <$> run_actor ex_world ex_actor Fresh None ex_inputs = Some (true, 5%Z)) as Hs
    by (vm_compute; reflexivity).
  runs ex_inputs. injection Hs as Hsent He.
  apply (proj2 (stale_completions_dropped ex_world _ _ _ _ _ _ _ _ _ _ _ _ _ _ _ Hr Hsent)).
  rewrite He. discriminate.
Defined.

Lemma only_abortable_tasks_cut_witness :
  ∃ s a, run_actor ex_world ex_actor Fresh None ex_inputs = Some (s, a) ∧
    ∃ p, AbortedTask p ∈ act_trace a ∧ task_handoff p = Abortable.
Proof.
  assert ((λ r, existsb (λ o, match o with AbortedTask _ => true | _ => false end)
      (act_trace (snd r)))
    <$> run_actor ex_world ex_actor Fresh None ex_inputs = Some true) as Hs
    by (vm_compute; reflexivity).
  runs ex_inputs. injection Hs as Hcut. apply existsb_exists in Hcut as (o & Ho & Hcut).
  apply list_elem_of_In in Ho. destruct o as [| | |p| | |]; try discriminate Hcut.
  exists p. split; [done|].
  apply (only_abortable_tasks_cut ex_world _ _ _ _ _ _ _ _ _ _ _ ex_inputs s b
    ltac:(repeat constructor; discriminate) Hr p Ho).
Defined.

Lemma flows_are_attended_witness :
  ∃ s a, run_actor ex_world ex_actor Fresh None (take 5 ex_inputs) = Some (s, a) ∧
    s = St.Stopping ∧ ∃ p, act_inflight a = Some p ∧ Some FStop = Some (flow_of (task p)).
Proof.
  assert (fst <$> run_actor ex_world ex_actor Fresh None (take 5 ex_inputs) = Some St.Stopping)
    as Hs by (vm_compute; reflexivity).
  assert (run_signals ex_world ex_actor Fresh None (take 5 ex_inputs) = true) as Hsig
    by (vm_compute; reflexivity).
  runs (take 5 ex_inputs). injection Hs as ->. split; [done|].
  destruct (flows_are_attended ex_world _ _ _ _ _ _ _ _ _ _ _ (take 5 ex_inputs) _ b
    Hsig Hr eq_refl) as (p & Hp & _ & Hf). exists p. split; [exact Hp|exact Hf].
Defined.

Lemma handed_over_untouched_witness :
  ∃ s a, run_actor ex_world ex_actor Fresh None ex_handover = Some (s, a) ∧
    s = St.Detached ∧
    ∃ a', turns ex_world s a [InCommand (Cmd.Remove true 2)] = Some (St.Detached, a') ∧
      act_inflight a' = None.
Proof.
  assert (fst <$> run_actor ex_world ex_actor Fresh None ex_handover = Some St.Detached)
    as Hs by (vm_compute; reflexivity).
  runs ex_handover. injection Hs as ->. split; [done|].
  destruct (turns ex_world St.Detached b [InCommand (Cmd.Remove true 2)]) as [[s' a']|] eqn:Ht;
    [|discriminate Ht].
  destruct (handed_over_untouched ex_world _ _ _ _ _ _ _ _ _ _ _ _ _ Hr _ _ _ Ht)
    as (-> & _ & _ & Hi & _). exists a'. split; [reflexivity|exact Hi].
Defined.

(** A recorded computer, from its intent to its last release. *)
Definition ex_recorded : ComputerActor (GuestAgent := unit) :=
  new_actor "box" ex_runtime (Some 77%Z) ["run"; "box"] ex_store new_bus
    (project ex_runtime CState.Starting ex_deadlines) ex_deadlines true.

Definition ex_paused_life : list (Input (GuestAgent := unit)) :=
  take 3 ex_inputs ++
  [InCompletion (MkCompletion 2 GatedOk); InCommand (Cmd.Pause Requested 1)].

Lemma record_refines_machine_witness :
  ∃ s a, run_actor ex_world ex_recorded Fresh None ex_paused_life = Some (s, a) ∧
    s = St.Capturing ∧ phase <$> shown (act_records a) (act_id a) = Some Phase.Pausing.
Proof.
  assert ((λ r, (fst r, act_stalled (snd r)))
    <$> run_actor ex_world ex_recorded Fresh None ex_paused_life = Some (St.Capturing, None)) as Hs
    by (vm_compute; reflexivity).
  runs ex_paused_life. injection Hs as -> Hst. split; [reflexivity|].
  pose proof (record_refines_machine ex_world _ _ _ _ _ _ _ _ _ Fresh _ _ _ _ ex_new
    (λ _, quiet_env_quiet _ _ _) (conj ex_store_ok ex_store_clean) ex_store_shown eq_refl eq_refl Hr)
    as [_ Ht].
  rewrite Hst in Ht. exact Ht.
Defined.
