(* ===== verification/Bits.v ===== *)
(** * Masks and halves of machine words

    The bit patterns the device model uses: the low and high half of a word,
    alignment masks, and the complement of a mask at its width, as arithmetic. *)

From Stdlib Require Import ZArith Lia.
From stdpp Require Import base numbers.
From S2P Require Import Prelude.

Open Scope Z_scope.

(** [as u8], [as u32], and [!x] on [u32] and [u64]. *)
Definition wrap8 (z : Z) : Z := z mod u8_bound.
Definition wrap32 (z : Z) : Z := z mod u32_bound.
Definition wrap64 (z : Z) : Z := z mod u64_bound.
Definition not32 (z : Z) : Z := u32_bound - 1 - z.
Definition not64 (z : Z) : Z := u64_bound - 1 - z.

Definition in_u8 (z : Z) : Prop := 0 ≤ z < u8_bound.

#[export] Instance in_u8_dec z : Decision (in_u8 z).
Proof. unfold in_u8. apply _. Defined.
Lemma in_u8_wrap z : in_u8 (wrap8 z).
Proof. by apply Z.mod_pos_bound. Qed.

Lemma in_u32_wrap z : in_u32 (wrap32 z).
Proof. by apply Z.mod_pos_bound. Qed.

Lemma in_u64_wrap z : in_u64 (wrap64 z).
Proof. by apply Z.mod_pos_bound. Qed.

#[export] Hint Resolve in_u8_wrap in_u32_wrap in_u64_wrap : width.

Lemma testbit_high a n i : 0 ≤ a < 2 ^ n → n ≤ i → Z.testbit a i = false.
Proof.
  intros Ha Hi. destruct (decide (a = 0)) as [->|Hn]; [apply Z.bits_0|].
  apply Z.bits_above_log2; [lia|]. apply Z.lt_le_trans with n; [|done].
  apply Z.log2_lt_pow2; lia.
Qed.

(** A high part and a low part side by side. *)
Lemma lor_add a n v : 0 ≤ n → 0 ≤ v < 2 ^ n → Z.lor (a * 2 ^ n) v = a * 2 ^ n + v.
Proof.
  intros Hn Hv. assert (Z.land (a * 2 ^ n) v = 0) as Hl.
  { apply Z.bits_inj_0. intros i. rewrite Z.land_spec. destruct (Z.lt_ge_cases i n).
    - by rewrite Z.mul_pow2_bits_low.
    - rewrite (testbit_high v n i) by done. apply andb_false_r. }
  by rewrite <- Z.lxor_lor, <- Z.add_nocarry_lxor.
Qed.

(** Clearing the low [n] bits of a [w]-bit word. *)
Lemma land_high x n w : 0 ≤ n ≤ w → 0 ≤ x < 2 ^ w → Z.land x (2 ^ w - 2 ^ n) = x / 2 ^ n * 2 ^ n.
Proof.
  intros Hn Hx. replace (2 ^ w - 2 ^ n) with (Z.ones (w - n) * 2 ^ n).
  2: { rewrite Z.ones_equiv. replace w with ((w - n) + n) at 2 by lia.
       rewrite Z.pow_add_r by lia. lia. }
  apply Z.bits_inj'. intros i Hi. rewrite Z.land_spec. destruct (Z.lt_ge_cases i n).
  { by rewrite !Z.mul_pow2_bits_low, andb_false_r. }
  rewrite !Z.mul_pow2_bits by lia. rewrite Z.div_pow2_bits by lia.
  replace (i - n + n) with i by lia. destruct (Z.lt_ge_cases i w).
  - rewrite Z.ones_spec_low by lia. apply andb_true_r.
  - by rewrite (testbit_high x w i).
Qed.

Lemma land_low x n : 0 ≤ n → Z.land x (2 ^ n - 1) = x mod 2 ^ n.
Proof.
  intros Hn. rewrite <- Z.land_ones by done. f_equal. rewrite Z.ones_equiv. lia.
Qed.

(** Clearing a mask. *)
Lemma land_not32 x v : in_u32 x → in_u32 v → Z.land x (not32 v) = Z.ldiff x v.
Proof.
  unfold in_u32, not32, u32_bound. intros Hx Hv.
  replace (2 ^ 32 - 1 - v) with (Z.lxor (Z.ones 32) v).
  2: { assert (Z.land v (Z.lxor (Z.ones 32) v) = 0) as Hz.
       { apply Z.bits_inj_0. intros i. rewrite Z.land_spec, Z.lxor_spec.
         destruct (Z.lt_ge_cases i 0) as [Hi|Hi]; [by rewrite !Z.testbit_neg_r|].
         destruct (Z.lt_ge_cases i 32).
         - rewrite Z.ones_spec_low by lia. by destruct (Z.testbit v i).
         - by rewrite (testbit_high v 32 i). }
       pose proof (Z.add_nocarry_lxor _ _ Hz) as Ha.
       assert (Z.lxor v (Z.lxor (Z.ones 32) v) = Z.ones 32) as Hx'.
       { by rewrite (Z.lxor_comm (Z.ones 32)), <- Z.lxor_assoc, Z.lxor_nilpotent, Z.lxor_0_l. }
       rewrite Hx' in Ha. change (Z.ones 32) with (2 ^ 32 - 1) in *. lia. }
  apply Z.bits_inj'. intros i Hi. rewrite Z.land_spec, Z.ldiff_spec, Z.lxor_spec.
  destruct (Z.lt_ge_cases i 32).
  - by rewrite Z.ones_spec_low by lia.
  - by rewrite (testbit_high x 32 i).
Qed.

(** ** Halves of a 64-bit word *)

(** [(x & 0xFFFF_FFFF_0000_0000) | v] and [(x & 0x0000_0000_FFFF_FFFF) | (v << 32)]. *)
Definition set_low32 (x v : Z) : Z := Z.lor (Z.land x 18446744069414584320) v.
Definition set_high32 (x v : Z) : Z := Z.lor (Z.land x 4294967295) (Z.shiftl v 32).

Lemma set_low32_eq x v : in_u64 x → in_u32 v → set_low32 x v = x / u32_bound * u32_bound + v.
Proof.
  intros Hx Hv. unfold set_low32. change 18446744069414584320 with (2 ^ 64 - 2 ^ 32).
  rewrite land_high by (unfold in_u64, u64_bound in Hx; lia). by apply lor_add.
Qed.

Lemma set_high32_eq x v : in_u32 v → set_high32 x v = v * u32_bound + x mod u32_bound.
Proof.
  intros Hv. unfold set_high32. change 4294967295 with (2 ^ 32 - 1).
  rewrite land_low, Z.lor_comm, Z.shiftl_mul_pow2 by lia.
  apply lor_add; [lia|]. by apply Z.mod_pos_bound.
Qed.

Lemma set_low32_range x v : in_u64 x → in_u32 v → in_u64 (set_low32 x v).
Proof.
  intros Hx Hv. rewrite set_low32_eq by done. unfold in_u64, in_u32, u64_bound, u32_bound in *.
  pose proof (Z.div_pos x (2 ^ 32)). assert (x / 2 ^ 32 < 2 ^ 32) by (apply Z.div_lt_upper_bound; lia). lia.
Qed.

Lemma set_high32_range x v : in_u32 v → in_u64 (set_high32 x v).
Proof.
  intros Hv. rewrite set_high32_eq by done. unfold in_u64, in_u32, u64_bound, u32_bound in *.
  pose proof (Z.mod_pos_bound x (2 ^ 32)). lia.
Qed.

(** Both halves written, in either order. *)
Lemma set_halves x lo hi :
  in_u64 x → in_u32 lo → in_u32 hi → set_high32 (set_low32 x lo) hi = hi * u32_bound + lo.
Proof.
  intros Hx Hl Hh. rewrite set_high32_eq, set_low32_eq by done.
  rewrite (Z.add_comm (_ * _) lo), Z.mod_add, Z.mod_small by done. done.
Qed.

Lemma set_halves_rev x lo hi :
  in_u64 x → in_u32 lo → in_u32 hi → set_low32 (set_high32 x hi) lo = hi * u32_bound + lo.
Proof.
  intros Hx Hl Hh. rewrite set_low32_eq, set_high32_eq by (done || by apply set_high32_range).
  rewrite (Z.add_comm (hi * _)), Z.div_add, Z.div_small by (done || by apply Z.mod_pos_bound). lia.
Qed.

(** ** Widths *)

Lemma land_u32 a b : in_u32 a → 0 ≤ b → in_u32 (Z.land a b).
Proof.
  unfold in_u32, u32_bound. intros Ha Hb. split; [apply Z.land_nonneg; lia|].
  destruct (decide (Z.land a b = 0)) as [->|Hn]; [lia|].
  apply Z.log2_lt_pow2; [pose proof (proj2 (Z.land_nonneg a b)); lia|].
  apply Z.le_lt_trans with (Z.min (Z.log2 a) (Z.log2 b)); [apply Z.log2_land; lia|].
  destruct (decide (a = 0)) as [->|]; [by rewrite Z.land_0_l in Hn|].
  pose proof (proj1 (Z.log2_lt_pow2 a 32 ltac:(lia)) ltac:(lia)). lia.
Qed.

Lemma lor_u32 a b : in_u32 a → in_u32 b → in_u32 (Z.lor a b).
Proof.
  unfold in_u32, u32_bound. intros Ha Hb. split; [apply Z.lor_nonneg; lia|].
  destruct (decide (Z.lor a b = 0)) as [->|Hn]; [lia|].
  assert (0 ≤ Z.lor a b) by (apply Z.lor_nonneg; lia).
  apply Z.log2_lt_pow2; [lia|]. rewrite Z.log2_lor by lia.
  assert (∀ c, 0 ≤ c < 2 ^ 32 → Z.log2 c < 32) as Hl.
  { intros c Hc. destruct (decide (c = 0)) as [->|]; [done|]. apply Z.log2_lt_pow2; lia. }
  pose proof (Hl a Ha). pose proof (Hl b Hb). lia.
Qed.
