(* ===== verification/BTree.v ===== *)
(** * [BTreeMap] with integer keys

    The standard library's ordered map, as the list of its entries in key
    order: what iteration visits, [insert], [get] and the last entry of
    [range(..=key)]. *)

From Stdlib Require Import ZArith Lia.
From stdpp Require Import base numbers list sets sorting.
From S2P Require Import Prelude.

Open Scope Z_scope.

Section btree.
Context {V : Type}.
Implicit Types m : list (Z * V).

Fixpoint bt_insert (k : Z) (v : V) m : list (Z * V) :=
  match m with
  | [] => [(k, v)]
  | (k', v') :: m' =>
      if k <? k' then (k, v) :: m
      else if k =? k' then (k, v) :: m'
      else (k', v') :: bt_insert k v m'
  end.

Fixpoint bt_get (k : Z) m : option V :=
  match m with
  | [] => None
  | (k', v) :: m => if k =? k' then Some v else bt_get k m
  end.

(** [range(..=k).next_back()]. *)
Fixpoint bt_floor (k : Z) m : option (Z * V) :=
  match m with
  | [] => None
  | (k', v) :: m =>
      if k' <=? k then match bt_floor k m with Some e => Some e | None => Some (k', v) end
      else None
  end.

(** Keys strictly ascending. *)
Definition bt_sorted m : Prop := StronglySorted Z.lt m.*1.

Lemma bt_sorted_cons k v m :
  bt_sorted ((k, v) :: m) ↔ bt_sorted m ∧ Forall (λ e, k < fst e) m.
Proof.
  unfold bt_sorted. simpl. split.
  - intros Hs. inversion Hs as [|? ? Hs' Hf]; subst. split; [done|]. by rewrite Forall_fmap in Hf.
  - intros [Hs Hf]. constructor; [done|]. by rewrite Forall_fmap.
Qed.

Lemma bt_insert_elem k v m e :
  bt_sorted m → e ∈ bt_insert k v m ↔ e = (k, v) ∨ (e ∈ m ∧ fst e ≠ k).
Proof.
  induction m as [|[k' v'] m IH]; intros Hs; cbn [bt_insert].
  { rewrite elem_of_cons. set_solver. }
  apply bt_sorted_cons in Hs as [Hs Hf]. rewrite list.Forall_forall in Hf.
  destruct (Z.ltb_spec k k'); [|destruct (Z.eqb_spec k k') as [->|Hne]].
  - rewrite !elem_of_cons. split; [|set_solver].
    intros [->|[->|Hin]]; [by left|right; split; [by left|simpl; lia]|].
    right. split; [by right|]. specialize (Hf e Hin). lia.
  - rewrite !elem_of_cons. split.
    + intros [->|Hin]; [by left|]. right. split; [by right|]. specialize (Hf e Hin). lia.
    + intros [->|[[->|Hin] Hk]]; [by left|done|by right].
  - rewrite !elem_of_cons, IH by done. split.
    + intros [->|[->|[Hin Hk]]]; [right; split; [by left|simpl; lia]|by left|]. right. split; [by right|done].
    + intros [->|[[->|Hin] Hk]]; [right; by left|by left|]. right. by right.
Qed.

Lemma bt_insert_sorted k v m : bt_sorted m → bt_sorted (bt_insert k v m).
Proof.
  induction m as [|[k' v'] m IH]; intros Hs; cbn [bt_insert]; [by repeat constructor|].
  pose proof Hs as Hs0. apply bt_sorted_cons in Hs as [Hs Hf].
  destruct (Z.ltb_spec k k'); [|destruct (Z.eqb_spec k k') as [->|Hne]].
  - apply bt_sorted_cons. split; [done|]. constructor; [done|].
    eapply Forall_impl; [exact Hf|]. simpl. lia.
  - apply bt_sorted_cons. by split.
  - apply bt_sorted_cons. split; [by apply IH|]. apply list.Forall_forall. intros e He.
    apply bt_insert_elem in He as [->|[He _]]; [simpl; lia| |done].
    by rewrite list.Forall_forall in Hf; apply Hf.
Qed.

Lemma bt_sorted_unique m k v v' : bt_sorted m → (k, v) ∈ m → (k, v') ∈ m → v = v'.
Proof.
  induction m as [|[k0 v0] m IH]; intros Hs H1 H2; [by apply elem_of_nil in H1|].
  apply bt_sorted_cons in Hs as [Hs Hf]. rewrite list.Forall_forall in Hf.
  apply elem_of_cons in H1 as [H1|H1], H2 as [H2|H2]; simplify_eq; [done| | |by apply IH].
  - specialize (Hf _ H2). simpl in Hf. lia.
  - specialize (Hf _ H1). simpl in Hf. lia.
Qed.

Lemma bt_floor_None m k : bt_sorted m → bt_floor k m = None → ∀ e, e ∈ m → k < fst e.
Proof.
  induction m as [|[k0 v0] m IH]; intros Hs Hn e He; [by apply elem_of_nil in He|].
  apply bt_sorted_cons in Hs as [Hs Hf]. rewrite list.Forall_forall in Hf. cbn [bt_floor] in Hn.
  destruct (Z.leb_spec k0 k) as [|Hgt]; [by destruct (bt_floor k m)|].
  apply elem_of_cons in He as [->|He]; [done|]. specialize (Hf _ He). simpl in Hf. lia.
Qed.

(** The floor is the entry with the greatest key not above [k]. *)
Lemma bt_floor_Some m k k' v :
  bt_sorted m →
  bt_floor k m = Some (k', v) ↔ (k', v) ∈ m ∧ k' ≤ k ∧ ∀ e, e ∈ m → fst e ≤ k → fst e ≤ k'.
Proof.
  revert k' v. induction m as [|[k0 v0] m IH]; intros k' v Hs; cbn [bt_floor].
  { split; [done|]. intros [Hin _]. by apply elem_of_nil in Hin. }
  apply bt_sorted_cons in Hs as [Hs Hf]. rewrite list.Forall_forall in Hf.
  destruct (Z.leb_spec k0 k) as [Hle|Hgt].
  2: { split; [done|]. intros (Hin & Hk & _). apply elem_of_cons in Hin as [[= -> ->]|Hin]; [lia|].
       specialize (Hf _ Hin). simpl in Hf. lia. }
  destruct (bt_floor k m) as [[k1 v1]|] eqn:Hfl.
  - destruct (proj1 (IH k1 v1 Hs) eq_refl) as (Hin1 & Hk1 & Hm1). pose proof (Hf _ Hin1) as Hlt. simpl in Hlt.
    split.
    + intros [= <- <-]. split; [by right|]. split; [done|]. intros e He Hek.
      apply elem_of_cons in He as [->|He]; [simpl; lia|by apply Hm1].
    + intros (Hin & Hk & Hm). apply elem_of_cons in Hin as [[= -> ->]|Hin].
      * specialize (Hm (k1, v1) (list_elem_of_further _ _ _ Hin1) Hk1). simpl in Hm. lia.
      * assert (k1 = k') as <-.
        { pose proof (Hm1 _ Hin Hk). pose proof (Hm (k1, v1) (list_elem_of_further _ _ _ Hin1) Hk1).
          simpl in *. lia. }
        by rewrite (bt_sorted_unique m k1 v1 v).
  - pose proof (bt_floor_None m k Hs Hfl) as Hno.
    split.
    + intros [= <- <-]. split; [by left|]. split; [done|]. intros e He Hek.
      apply elem_of_cons in He as [->|He]; [done|]. specialize (Hno e He). lia.
    + intros (Hin & Hk & _). apply elem_of_cons in Hin as [[= -> ->]|Hin]; [done|].
      specialize (Hno _ Hin). simpl in Hno. lia.
Qed.
End btree.
