(* ===== verification/RingSpec.v ===== *)
(** * What a virtqueue promises its device

    The contract of the two queue implementations of
    [src/virt/arcbox-virtio-core]: heads leave in the order the guest posts
    them, completions stay in the order the device makes them, whatever way
    the two sides interleave. [DeviceQueue] is the interface; [SplitQueue] and
    [VirtQueue] are its instances. *)

From Stdlib Require Import ZArith Lia.
From stdpp Require Import base list numbers.
From S2P Require Import Prelude.

Open Scope Z_scope.

(** ** Ring indices *)

(** The ring sizes of the VIRTIO specification. *)
Definition ring_size (n : Z) : Prop := ∃ k, 0 ≤ k ≤ 15 ∧ n = 2 ^ k.

Lemma ring_size_bounds n : ring_size n → 0 < n ≤ 32768 ∧ (n | u16_bound).
Proof.
  intros (k & Hk & ->). split; [split|].
  - apply Z.pow_pos_nonneg; lia.
  - change 32768 with (2 ^ 15). apply Z.pow_le_mono_r; lia.
  - exists (2 ^ (16 - k)). unfold u16_bound. rewrite <- Z.pow_add_r by lia. f_equal. lia.
Qed.

(** A wrapped index falls in the slot of the unwrapped one. *)
Lemma ring_slot_wrap n i : ring_size n → wrap16 i mod n = i mod n.
Proof. intros Hn. by apply Z.mod_mod_divide, ring_size_bounds. Qed.

(** Distinct indices of one ring's worth have distinct slots. *)
Lemma ring_slot_distinct n i j : 0 < n → i < j → j < i + n → i mod n ≠ j mod n.
Proof.
  intros Hn Hlt Hgt He.
  assert ((j - i) mod n = 0) as Hz by (rewrite Zminus_mod, He, Z.sub_diag; done).
  rewrite Z.mod_small in Hz by lia. lia.
Qed.

(** Two indices less than 2^16 apart wrap to different values. *)
Lemma wrap16_inj a b : wrap16 a = wrap16 b → -u16_bound < a - b < u16_bound → a = b.
Proof.
  unfold wrap16. intros Hw Hb.
  assert ((a - b) mod u16_bound = 0) as Hz.
  { rewrite Zminus_mod, Hw, Z.sub_diag. done. }
  apply Z.mod_divide in Hz as [k Hk]; [|done]. unfold u16_bound in *. nia.
Qed.

Lemma wrapping_add16_wrap a b : wrapping_add16 (wrap16 a) b = wrap16 (a + b).
Proof. unfold wrapping_add16, wrap16. by rewrite Zplus_mod_idemp_l. Qed.

(** ** The contract *)

(** Heads posted, how many of them were taken, completions made. *)
Record Ring := MkRing {
  posted : list Z;
  taken : nat;
  completed : list (Z * Z)
}.

Definition ring_take (r : Ring) : option Z * Ring :=
  match posted r !! taken r with
  | Some head => (Some head, MkRing (posted r) (S (taken r)) (completed r))
  | None => (None, r)
  end.

Definition ring_complete (r : Ring) (cs : list (Z * Z)) : Ring :=
  MkRing (posted r) (taken r) (completed r ++ cs).

Definition ring_post (r : Ring) (new : list Z) : Ring :=
  MkRing (posted r ++ new) (taken r) (completed r).

(** A completion fits the used ring's element. *)
Definition completion_ok (c : Z * Z) : Prop := in_u16 (fst c) ∧ in_u32 (snd c).

(** A queue a device drives: [None] is a panic, [dq_guest] what the guest may
    do to the queue while the device does not look. *)
Class DeviceQueue (Q : Type) := {
  dq_holds : Q → Ring → Prop;
  dq_take : Q → option (option Z * Q);
  dq_complete : Q → list (Z * Z) → option (bool * Q);
  dq_guest : Q → Ring → list Z → Q → Prop;
  dq_take_ok q r :
    dq_holds q r →
    ∃ q', dq_take q = Some (fst (ring_take r), q') ∧ dq_holds q' (snd (ring_take r));
  dq_complete_ok q r cs :
    dq_holds q r → Forall completion_ok cs →
    ∃ notify q', dq_complete q cs = Some (notify, q') ∧ dq_holds q' (ring_complete r cs);
  dq_guest_ok q r new q' :
    dq_holds q r → dq_guest q r new q' → dq_holds q' (ring_post r new)
}.

Section run.
Context `{DeviceQueue Q}.

Inductive QOp :=
| OpTake
| OpComplete (completions : list (Z * Z))
| OpGuest (q' : Q) (new : list Z).

Definition device_step (q : Q) (op : QOp) : option (option Z * Q) :=
  match op with
  | OpTake => dq_take q
  | OpComplete cs =>
      match dq_complete q cs with
      | Some (_, q) => Some (None, q)
      | None => None
      end
  | OpGuest q' _ => Some (None, q')
  end.

Definition ring_step (r : Ring) (op : QOp) : option Z * Ring :=
  match op with
  | OpTake => ring_take r
  | OpComplete cs => (None, ring_complete r cs)
  | OpGuest _ new => (None, ring_post r new)
  end.

(** What each side owes the other. *)
Definition op_ok (q : Q) (r : Ring) (op : QOp) : Prop :=
  match op with
  | OpTake => True
  | OpComplete cs => Forall completion_ok cs
  | OpGuest q' new => dq_guest q r new q'
  end.

Fixpoint device_run (q : Q) (ops : list QOp) : option (list (option Z) * Q) :=
  match ops with
  | [] => Some ([], q)
  | op :: ops =>
      match device_step q op with
      | Some (out, q) =>
          match device_run q ops with
          | Some (outs, q) => Some (out :: outs, q)
          | None => None
          end
      | None => None
      end
  end.

Fixpoint ring_run (r : Ring) (ops : list QOp) : list (option Z) * Ring :=
  match ops with
  | [] => ([], r)
  | op :: ops =>
      let '(out, r) := ring_step r op in
      let '(outs, r) := ring_run r ops in
      (out :: outs, r)
  end.

Fixpoint ops_ok (q : Q) (r : Ring) (ops : list QOp) : Prop :=
  match ops with
  | [] => True
  | op :: ops =>
      op_ok q r op ∧
      match device_step q op with
      | Some (_, q) => ops_ok q (snd (ring_step r op)) ops
      | None => True
      end
  end.

Lemma device_step_refines q r op :
  dq_holds q r → op_ok q r op →
  ∃ q', device_step q op = Some (fst (ring_step r op), q') ∧ dq_holds q' (snd (ring_step r op)).
Proof.
  intros Hh Hop. destruct op as [|cs|q' new]; cbn [device_step ring_step fst snd].
  - by apply dq_take_ok.
  - destruct (dq_complete_ok q r cs Hh Hop) as (n & q' & -> & Hh'). by exists q'.
  - exists q'. split; [done|]. by apply (dq_guest_ok q).
Qed.

Lemma device_run_refines q r ops :
  dq_holds q r → ops_ok q r ops →
  ∃ q', device_run q ops = Some (fst (ring_run r ops), q') ∧ dq_holds q' (snd (ring_run r ops)).
Proof.
  revert q r. induction ops as [|op ops IH]; intros q r Hh Hok; [by exists q|].
  destruct Hok as [Hop Hok]. destruct (device_step_refines q r op Hh Hop) as (q1 & Hs & Hh1).
  cbn [device_run ring_run]. rewrite Hs in Hok |- *. destruct (ring_step r op) as [out r1].
  destruct (IH q1 r1 Hh1 Hok) as (q2 & -> & Hh2). exists q2.
  by destruct (ring_run r1 ops).
Qed.
End run.

(** ** What the contract means for the heads *)

(** Takes answer the posted heads from the first one not yet taken, in order. *)
Lemma ring_run_fifo {Q} (r : Ring) (ops : list (@QOp Q)) :
  (taken r ≤ length (posted r))%nat →
  let '(outs, r') := ring_run r ops in
  (taken r' ≤ length (posted r'))%nat ∧
  take (taken r') (posted r') = take (taken r) (posted r) ++ omap id outs.
Proof.
  revert r. induction ops as [|op ops IH]; intros r Hr; cbn [ring_run].
  { simpl. by rewrite app_nil_r. }
  destruct (ring_step r op) as [out r1] eqn:Hs.
  assert ((taken r1 ≤ length (posted r1))%nat ∧
    take (taken r1) (posted r1) = take (taken r) (posted r) ++ option_list out) as [H1 H2].
  { destruct op; cbn in Hs; simplify_eq; cbn [option_list taken posted ring_post ring_complete];
      rewrite ?app_nil_r; [|done|].
    - unfold ring_take in Hs. destruct (posted r !! taken r) eqn:Hl; simplify_eq; simpl.
      + apply lookup_lt_Some in Hl as Hlt. split; [lia|]. by apply take_S_r.
      + by rewrite app_nil_r.
    - rewrite length_app. split; [lia|]. by rewrite take_app_le. }
  specialize (IH r1 H1). destruct (ring_run r1 ops) as [outs r2]. destruct IH as [H3 H4].
  split; [done|]. rewrite H4, H2, <- (assoc_L (++)). by destruct out.
Qed.
