(* ===== verification/GuestMem.v ===== *)
(** * Guest memory

    The accessor every device and worker reaches guest RAM through
    ([src/virt/arcbox-virtio-core/src/guest_mem.rs], [GuestMemWriter]). The
    mapping is a list of bytes; an address the guest supplies is any [usize],
    and each access is translated and bounds-checked once, in
    [gpa_to_offset]. *)

From stdpp Require Import base list.
From Stdlib Require Import ZArith Lia.
From S2P Require Import Prelude.

Open Scope Z_scope.

(** A [usize] of the 64-bit hosts the program runs on. The release profile of
    the workspace leaves overflow checks off, so [+] wraps. *)
Definition usize_add (a b : Z) : Z := (a + b) mod u64_bound.

Record GuestMem := MkGuestMem {
  ram : list Z;
  gpa_base : Z
}.

#[export] Instance eta_GuestMem : Eta GuestMem := {|
  eta m := MkGuestMem (ram m) (gpa_base m);
  eta_ok := ltac:(by intros [])
|}.

Definition mem_len (m : GuestMem) : Z := Z.of_nat (length (ram m)).

(** [gpa_to_offset]: [checked_sub] of the base, [checked_add] of the length. *)
Definition gpa_to_offset (m : GuestMem) (gpa access_len : Z) : option Z :=
  if gpa <? gpa_base m then None
  else let off := gpa - gpa_base m in
       if u64_bound <=? off + access_len then None
       else if mem_len m <? off + access_len then None
       else Some off.

(** [slice]: the bytes of a range. *)
Definition mem_slice (m : GuestMem) (gpa len : Z) : option (list Z) :=
  (λ off, take (Z.to_nat len) (drop (Z.to_nat off) (ram m))) <$> gpa_to_offset m gpa len.

Definition read_le (m : GuestMem) (n : nat) (gpa : Z) : Z :=
  match mem_slice m gpa (Z.of_nat n) with
  | Some bs => le_value bs
  | None => 0
  end.

Definition read_u16 (m : GuestMem) (gpa : Z) : Z := read_le m 2 gpa.
Definition read_u32 (m : GuestMem) (gpa : Z) : Z := read_le m 4 gpa.
Definition read_u64 (m : GuestMem) (gpa : Z) : Z := read_le m 8 gpa.

(** Stores bytes at a guest address; nothing happens out of range. *)
Definition write_bytes (m : GuestMem) (gpa : Z) (bs : list Z) : GuestMem :=
  match gpa_to_offset m gpa (Z.of_nat (length bs)) with
  | Some off => m <| ram := list_inserts (Z.to_nat off) bs (ram m) |>
  | None => m
  end.

Definition write_u16 (m : GuestMem) (gpa val : Z) : GuestMem := write_bytes m gpa (le_bytes 2 val).
Definition write_u32 (m : GuestMem) (gpa val : Z) : GuestMem := write_bytes m gpa (le_bytes 4 val).
Definition write_byte (m : GuestMem) (gpa val : Z) : GuestMem := write_bytes m gpa [val].

(** ** Well-formed memory *)

Record mem_ok (m : GuestMem) : Prop := {
  mo_bytes : Forall (λ b, 0 ≤ b < 256) (ram m);
  mo_base : 0 ≤ gpa_base m;
  mo_fits : gpa_base m + mem_len m < u64_bound
}.

(** A range of guest addresses inside the mapping. *)
Definition in_range (m : GuestMem) (gpa len : Z) : Prop :=
  gpa_base m ≤ gpa ∧ 0 ≤ len ∧ gpa + len ≤ gpa_base m + mem_len m.

Definition in_rangeb (m : GuestMem) (gpa len : Z) : bool :=
  (gpa_base m <=? gpa) && (0 <=? len) && (gpa + len <=? gpa_base m + mem_len m).

Lemma in_rangeb_spec m gpa len : in_rangeb m gpa len = true ↔ in_range m gpa len.
Proof. unfold in_rangeb, in_range. rewrite !andb_true_iff, !Z.leb_le. tauto. Qed.

(** The byte at a guest address. *)
Definition byte_at (m : GuestMem) (gpa : Z) : option Z :=
  if gpa <? gpa_base m then None else ram m !! Z.to_nat (gpa - gpa_base m).

(** ** Bounds *)

Lemma gpa_to_offset_Some m gpa len off :
  mem_ok m → 0 ≤ len → gpa_to_offset m gpa len = Some off →
  in_range m gpa len ∧ off = gpa - gpa_base m ∧ 0 ≤ off ∧ off + len ≤ mem_len m.
Proof.
  intros [_ Hb Hf] Hl. unfold gpa_to_offset, in_range.
  destruct (Z.ltb_spec gpa (gpa_base m)); [done|].
  destruct (Z.leb_spec u64_bound (gpa - gpa_base m + len)); [done|].
  destruct (Z.ltb_spec (mem_len m) (gpa - gpa_base m + len)); [done|].
  intros [= <-]. lia.
Qed.

Lemma gpa_to_offset_in m gpa len :
  mem_ok m → in_range m gpa len → gpa_to_offset m gpa len = Some (gpa - gpa_base m).
Proof.
  intros [_ Hb Hf] (H1 & H2 & H3). unfold gpa_to_offset.
  rewrite (proj2 (Z.ltb_ge _ _)) by lia. rewrite (proj2 (Z.leb_gt _ _)) by lia.
  by rewrite (proj2 (Z.ltb_ge _ _)) by lia.
Qed.

Lemma gpa_to_offset_out m gpa len :
  mem_ok m → 0 ≤ len → ¬ in_range m gpa len → gpa_to_offset m gpa len = None.
Proof.
  intros Hm Hl Hn. destruct (gpa_to_offset m gpa len) as [off|] eqn:Ho; [|done].
  by destruct (gpa_to_offset_Some _ _ _ _ Hm Hl Ho).
Qed.

(** ** Bytes of a write *)

Lemma write_bytes_len m gpa bs : mem_len (write_bytes m gpa bs) = mem_len m.
Proof.
  unfold write_bytes, mem_len. destruct (gpa_to_offset _ _ _); [|done].
  destruct m. cbv [upd]; simpl. by rewrite length_inserts.
Qed.

Lemma write_bytes_base m gpa bs : gpa_base (write_bytes m gpa bs) = gpa_base m.
Proof. unfold write_bytes. by destruct (gpa_to_offset _ _ _). Qed.

Lemma write_bytes_ok m gpa bs :
  mem_ok m → Forall (λ b, 0 ≤ b < 256) bs → mem_ok (write_bytes m gpa bs).
Proof.
  intros [Hb Hbase Hf] Hbs. split; rewrite ?write_bytes_len, ?write_bytes_base; [|done..].
  unfold write_bytes. destruct (gpa_to_offset _ _ _); [|done].
  change (Forall (λ b, 0 ≤ b < 256) (list_inserts (Z.to_nat z) bs (ram m))).
  apply Forall_lookup. intros j y [[_ Hy]|(_ & _ & Hy)]%list_lookup_inserts_Some;
    [exact (Forall_lookup_1 _ _ _ _ Hb Hy)|exact (Forall_lookup_1 _ _ _ _ Hbs Hy)].
Qed.

Lemma in_range_write m gpa bs a len :
  in_range (write_bytes m gpa bs) a len ↔ in_range m a len.
Proof. unfold in_range. by rewrite write_bytes_len, write_bytes_base. Qed.

Lemma byte_at_lookup m a :
  gpa_base m ≤ a → byte_at m a = ram m !! Z.to_nat (a - gpa_base m).
Proof. intros Ha. unfold byte_at. by rewrite (proj2 (Z.ltb_ge _ _)) by lia. Qed.

(** A write stores its bytes and leaves every other one. *)
Lemma write_bytes_at m gpa bs a :
  mem_ok m → in_range m gpa (Z.of_nat (length bs)) →
  byte_at (write_bytes m gpa bs) a =
    if (gpa <=? a) && (a <? gpa + Z.of_nat (length bs)) then bs !! Z.to_nat (a - gpa)
    else byte_at m a.
Proof.
  intros Hm Hr. pose proof Hr as (H1 & _ & H2). unfold byte_at. rewrite write_bytes_base.
  destruct (Z.ltb_spec a (gpa_base m)).
  { rewrite (proj2 (Z.leb_gt _ _)) by lia. done. }
  unfold write_bytes. rewrite (gpa_to_offset_in _ _ _ Hm Hr).
  change (ram (m <| ram := ?x |>)) with x. unfold mem_len in H2.
  destruct (Z.leb_spec gpa a), (Z.ltb_spec a (gpa + Z.of_nat (length bs))); simpl.
  - rewrite list_lookup_inserts by lia. f_equal. lia.
  - by rewrite list_lookup_inserts_ge by lia.
  - by rewrite list_lookup_inserts_lt by lia.
  - by rewrite list_lookup_inserts_lt by lia.
Qed.

Lemma write_bytes_out m gpa bs :
  mem_ok m → ¬ in_range m gpa (Z.of_nat (length bs)) → write_bytes m gpa bs = m.
Proof. intros Hm Hn. unfold write_bytes. by rewrite gpa_to_offset_out by (done || lia). Qed.

(** Two memories with the same base and bytes are the same. *)
Lemma mem_ext m m' :
  gpa_base m = gpa_base m' → mem_len m = mem_len m' →
  (∀ a, gpa_base m ≤ a → byte_at m a = byte_at m' a) → m = m'.
Proof.
  destruct m as [r b], m' as [r' b']; unfold mem_len; simpl. intros <- Hl Ha. f_equal.
  apply list_eq. intros i. specialize (Ha (b + Z.of_nat i)).
  rewrite !byte_at_lookup in Ha by (simpl; lia). simpl in Ha.
  replace (Z.to_nat (b + Z.of_nat i - b)) with i in Ha by lia. apply Ha. lia.
Qed.

(** ** Reads *)

Lemma mem_slice_in m gpa len :
  mem_ok m → in_range m gpa len →
  mem_slice m gpa len = Some (take (Z.to_nat len) (drop (Z.to_nat (gpa - gpa_base m)) (ram m))).
Proof. intros Hm Hr. unfold mem_slice. by rewrite (gpa_to_offset_in _ _ _ Hm Hr). Qed.

(** A slice is the bytes of its range. *)
Lemma mem_slice_at m gpa len bs :
  mem_ok m → 0 ≤ len → mem_slice m gpa len = Some bs →
  length bs = Z.to_nat len ∧
  ∀ i, (i < length bs)%nat → bs !! i = byte_at m (gpa + Z.of_nat i).
Proof.
  intros Hm Hl. unfold mem_slice.
  destruct (gpa_to_offset m gpa len) as [off|] eqn:Ho; [|done]. intros [= <-].
  destruct (gpa_to_offset_Some _ _ _ _ Hm Hl Ho) as ((H1 & _ & H2) & -> & H3 & H4).
  unfold mem_len in *. rewrite length_take, length_drop.
  split; [lia|]. intros i Hi. rewrite lookup_take_lt by lia. rewrite lookup_drop.
  rewrite byte_at_lookup by lia. f_equal. lia.
Qed.

(** What a read depends on. *)
Lemma mem_slice_ext m m' gpa len :
  mem_ok m → mem_ok m' → 0 ≤ len → gpa_base m = gpa_base m' → mem_len m = mem_len m' →
  (∀ a, gpa ≤ a < gpa + len → byte_at m a = byte_at m' a) →
  mem_slice m gpa len = mem_slice m' gpa len.
Proof.
  intros Hm Hm' Hl Hb Hn Ha.
  destruct (mem_slice m gpa len) as [bs|] eqn:Hs, (mem_slice m' gpa len) as [bs'|] eqn:Hs'; try done.
  - destruct (mem_slice_at _ _ _ _ Hm Hl Hs) as [L1 B1].
    destruct (mem_slice_at _ _ _ _ Hm' Hl Hs') as [L2 B2]. f_equal.
    apply list_eq_same_length with (n := Z.to_nat len); [done..|].
    intros i x y Hi Hx Hy. rewrite B1 in Hx by lia. rewrite B2 in Hy by lia.
    rewrite Ha in Hx by lia. congruence.
  - unfold mem_slice, gpa_to_offset in *. rewrite <- Hb, <- Hn in Hs'.
    repeat case_match; done.
  - unfold mem_slice, gpa_to_offset in *. rewrite <- Hb, <- Hn in Hs'.
    repeat case_match; done.
Qed.

Lemma read_le_range m n gpa : mem_ok m → 0 ≤ read_le m n gpa < 256 ^ Z.of_nat n.
Proof.
  intros Hm. unfold read_le. destruct (mem_slice m gpa (Z.of_nat n)) as [bs|] eqn:Hs; [|lia].
  destruct (mem_slice_at _ _ _ _ Hm (Zle_0_nat n) Hs) as [Hl _].
  replace n with (length bs) by lia. apply le_value_range.
  unfold mem_slice in Hs. destruct (gpa_to_offset _ _ _); [|done]. injection Hs as <-.
  apply Forall_take, Forall_drop, Hm.
Qed.

(** ** Reads after writes *)

Definition disjoint_ranges (a n b k : Z) : Prop := a + n ≤ b ∨ b + k ≤ a.

Lemma read_write_other m n gpa bs a :
  mem_ok m → Forall (λ b, 0 ≤ b < 256) bs →
  disjoint_ranges gpa (Z.of_nat (length bs)) a (Z.of_nat n) →
  read_le (write_bytes m gpa bs) n a = read_le m n a.
Proof.
  intros Hm Hbs Hd. unfold read_le.
  destruct (decide (in_rangeb m gpa (Z.of_nat (length bs)) = true)) as [Hr%in_rangeb_spec|Hr].
  - rewrite (mem_slice_ext (write_bytes m gpa bs) m); try done; try lia.
    + by apply write_bytes_ok.
    + apply write_bytes_base.
    + apply write_bytes_len.
    + intros b Hb. rewrite write_bytes_at by done. destruct Hd.
      * rewrite (proj2 (Z.ltb_ge b _)) by lia. by rewrite andb_false_r.
      * by rewrite (proj2 (Z.leb_gt _ _)) by lia.
  - rewrite in_rangeb_spec in Hr. by rewrite write_bytes_out.
Qed.

Lemma read_write_same m gpa bs :
  mem_ok m → Forall (λ b, 0 ≤ b < 256) bs → in_range m gpa (Z.of_nat (length bs)) →
  read_le (write_bytes m gpa bs) (length bs) gpa = le_value bs.
Proof.
  intros Hm Hbs Hr. unfold read_le.
  assert (mem_ok (write_bytes m gpa bs)) as Hm' by by apply write_bytes_ok.
  destruct (mem_slice (write_bytes m gpa bs) gpa (Z.of_nat (length bs))) as [bs'|] eqn:Hs.
  - destruct (mem_slice_at _ _ _ _ Hm' (Zle_0_nat _) Hs) as [Hl Hb]. f_equal.
    apply list_eq_same_length with (n := length bs); [done|lia|].
    intros i x y Hi Hx Hy. rewrite Hb in Hx by lia. rewrite write_bytes_at in Hx by done.
    rewrite (proj2 (Z.leb_le _ _)), (proj2 (Z.ltb_lt _ _)) in Hx by lia. simpl in Hx.
    replace (Z.to_nat (gpa + Z.of_nat i - gpa)) with i in Hx by lia. congruence.
  - rewrite mem_slice_in in Hs; [done..|by apply in_range_write].
Qed.

(** ** Frames *)

(** [m'] is [m] after writes that stay in [lo, lo + len). *)
Record writes_within (lo len : Z) (m m' : GuestMem) : Prop := {
  ww_ok : mem_ok m';
  ww_base : gpa_base m' = gpa_base m;
  ww_len : mem_len m' = mem_len m;
  ww_read : ∀ n a, disjoint_ranges lo len a (Z.of_nat n) → read_le m' n a = read_le m n a
}.

Lemma writes_within_refl lo len m : mem_ok m → writes_within lo len m m.
Proof. by split. Qed.

Lemma writes_within_trans lo len m1 m2 m3 :
  writes_within lo len m1 m2 → writes_within lo len m2 m3 → writes_within lo len m1 m3.
Proof.
  intros [_ B1 L1 R1] [O2 B2 L2 R2]. split; [done|congruence|congruence|].
  intros n a Hd. by rewrite R2, R1.
Qed.

Lemma writes_within_mono lo len lo' len' m m' :
  lo' ≤ lo → lo + len ≤ lo' + len' → writes_within lo len m m' → writes_within lo' len' m m'.
Proof.
  intros H1 H2 [O B L R]. split; [done..|]. intros n a Hd. apply R. unfold disjoint_ranges in *. lia.
Qed.

Lemma writes_within_bytes m gpa bs :
  mem_ok m → Forall (λ b, 0 ≤ b < 256) bs →
  writes_within gpa (Z.of_nat (length bs)) m (write_bytes m gpa bs).
Proof.
  intros Hm Hbs. split; [by apply write_bytes_ok|apply write_bytes_base|apply write_bytes_len|].
  intros n a Hd. by apply read_write_other.
Qed.

Lemma writes_within_range lo len m m' a n :
  writes_within lo len m m' → in_range m' a n ↔ in_range m a n.
Proof. intros [_ B L _]. unfold in_range. by rewrite B, L. Qed.

Lemma write_u32_within m gpa v : mem_ok m → writes_within gpa 4 m (write_u32 m gpa v).
Proof. intros Hm. by apply (writes_within_bytes m gpa (le_bytes 4 v)), le_bytes_range. Qed.

Lemma write_u16_within m gpa v : mem_ok m → writes_within gpa 2 m (write_u16 m gpa v).
Proof. intros Hm. by apply (writes_within_bytes m gpa (le_bytes 2 v)), le_bytes_range. Qed.

(** Round trips. *)
Lemma read_write_u32 m gpa v :
  mem_ok m → in_range m gpa 4 → in_u32 v → read_u32 (write_u32 m gpa v) gpa = v.
Proof.
  intros Hm Hr Hv. unfold read_u32, write_u32.
  pose proof (read_write_same m gpa (le_bytes 4 v) Hm (le_bytes_range _ _) Hr) as Hrw.
  rewrite le_bytes_length in Hrw. rewrite Hrw, le_value_bytes. apply Z.mod_small. exact Hv.
Qed.

Lemma read_write_u16 m gpa v :
  mem_ok m → in_range m gpa 2 → in_u16 v → read_u16 (write_u16 m gpa v) gpa = v.
Proof.
  intros Hm Hr Hv. unfold read_u16, write_u16.
  pose proof (read_write_same m gpa (le_bytes 2 v) Hm (le_bytes_range _ _) Hr) as Hrw.
  rewrite le_bytes_length in Hrw. rewrite Hrw, le_value_bytes. apply Z.mod_small. exact Hv.
Qed.

(** ** Writes after writes *)

(** The bytes a write covers: none when its range is not mapped. *)
Definition covers (m : GuestMem) (gpa : Z) (bs : list Z) (a : Z) : bool :=
  in_rangeb m gpa (Z.of_nat (length bs)) && ((gpa <=? a) && (a <? gpa + Z.of_nat (length bs))).

Lemma covers_write m gpa bs gpa' bs' a :
  covers (write_bytes m gpa' bs') gpa bs a = covers m gpa bs a.
Proof. unfold covers, in_rangeb. by rewrite write_bytes_base, write_bytes_len. Qed.

Lemma write_bytes_covers m gpa bs a :
  mem_ok m →
  byte_at (write_bytes m gpa bs) a =
    if covers m gpa bs a then bs !! Z.to_nat (a - gpa) else byte_at m a.
Proof.
  intros Hm. unfold covers.
  destruct (in_rangeb m gpa (Z.of_nat (length bs))) eqn:Hr; simpl.
  - apply in_rangeb_spec in Hr. by apply write_bytes_at.
  - rewrite write_bytes_out; [done|done|]. rewrite <- in_rangeb_spec. by rewrite Hr.
Qed.

Lemma write_bytes_comm m g1 b1 g2 b2 :
  mem_ok m → Forall (λ b, 0 ≤ b < 256) b1 → Forall (λ b, 0 ≤ b < 256) b2 →
  disjoint_ranges g1 (Z.of_nat (length b1)) g2 (Z.of_nat (length b2)) →
  write_bytes (write_bytes m g1 b1) g2 b2 = write_bytes (write_bytes m g2 b2) g1 b1.
Proof.
  intros Hm H1 H2 Hd. apply mem_ext; rewrite ?write_bytes_base, ?write_bytes_len; [done..|].
  intros a _. rewrite !write_bytes_covers, !covers_write by eauto using write_bytes_ok.
  destruct (covers m g1 b1 a) eqn:C1, (covers m g2 b2 a) eqn:C2; try done.
  unfold covers in *. rewrite !andb_true_iff, Z.leb_le, Z.ltb_lt in *.
  unfold disjoint_ranges in Hd. lia.
Qed.

Lemma write_bytes_over m gpa b1 b2 :
  mem_ok m → Forall (λ b, 0 ≤ b < 256) b1 → length b1 = length b2 →
  write_bytes (write_bytes m gpa b1) gpa b2 = write_bytes m gpa b2.
Proof.
  intros Hm H1 Hl. apply mem_ext; rewrite ?write_bytes_base, ?write_bytes_len; [done..|].
  intros a _. rewrite !write_bytes_covers, !covers_write by eauto using write_bytes_ok.
  destruct (covers m gpa b2 a) eqn:C2; [done|]. unfold covers in *. by rewrite Hl, C2.
Qed.

(** ** Guest accesses *)

Lemma read_le_out m n gpa : mem_ok m → ¬ in_range m gpa (Z.of_nat n) → read_le m n gpa = 0.
Proof.
  intros Hm Hn. unfold read_le, mem_slice. by rewrite gpa_to_offset_out by (done || lia).
Qed.

Lemma write_u32_out m gpa v : mem_ok m → ¬ in_range m gpa 4 → write_u32 m gpa v = m.
Proof. intros Hm Hn. by apply (write_bytes_out m gpa (le_bytes 4 v)). Qed.

Lemma write_u16_out m gpa v : mem_ok m → ¬ in_range m gpa 2 → write_u16 m gpa v = m.
Proof. intros Hm Hn. by apply (write_bytes_out m gpa (le_bytes 2 v)). Qed.

Lemma mem_ok_dec m :
  forallb (λ b, (0 <=? b) && (b <? 256)) (ram m) && (0 <=? gpa_base m) &&
    (gpa_base m + mem_len m <? u64_bound) = true →
  mem_ok m.
Proof.
  rewrite !andb_true_iff, Z.leb_le, Z.ltb_lt. intros [[Hb ?] ?]. split; [|done..].
  apply list.Forall_forall. intros b Hin%list_elem_of_In. rewrite forallb_forall in Hb.
  specialize (Hb b Hin). rewrite andb_true_iff, Z.leb_le, Z.ltb_lt in Hb. done.
Qed.

(** A guest address is data from the guest, so any value of it
    is harmless: in the mapping, what is written is read back and no other range
    changes; out of it, a write does nothing and a read gives zero. *)
Theorem guest_access m gpa v :
  mem_ok m → in_u32 v →
  (in_range m gpa 4 →
     read_u32 (write_u32 m gpa v) gpa = v ∧ read_u16 (write_u16 m gpa (wrap16 v)) gpa = wrap16 v) ∧
  (¬ in_range m gpa 4 → write_u32 m gpa v = m ∧ read_u32 m gpa = 0) ∧
  (¬ in_range m gpa 2 → write_u16 m gpa (wrap16 v) = m ∧ read_u16 m gpa = 0) ∧
  (∀ n a, disjoint_ranges gpa 4 a (Z.of_nat n) → read_le (write_u32 m gpa v) n a = read_le m n a) ∧
  (∀ n a, disjoint_ranges gpa 2 a (Z.of_nat n) → read_le (write_u16 m gpa (wrap16 v)) n a = read_le m n a).
Proof.
  intros Hm Hv. repeat split.
  - by apply read_write_u32.
  - apply read_write_u16; [done|unfold in_range in *; lia|by apply Z.mod_pos_bound].
  - by apply write_u32_out.
  - by apply (read_le_out m 4).
  - by apply write_u16_out.
  - by apply (read_le_out m 2).
  - intros n a Hd. by apply (ww_read _ _ _ _ (write_u32_within m gpa v Hm)).
  - intros n a Hd. by apply (ww_read _ _ _ _ (write_u16_within m gpa (wrap16 v) Hm)).
Qed.

Lemma guest_access_witness :
  let m := MkGuestMem [0; 0; 0; 0; 0; 9] 4096 in
  read_u32 (write_u32 m 4097 305419896) 4097 = 305419896 ∧
  write_u32 m 4099 305419896 = m.
Proof.
  intros m. assert (mem_ok m) as Hm by (split; [by repeat constructor|by vm_compute..]).
  split.
  - apply (guest_access m 4097 305419896); [done|by vm_compute|].
    by apply in_rangeb_spec; vm_compute.
  - apply (guest_access m 4099 305419896); [done|by vm_compute|].
    rewrite <- in_rangeb_spec. by vm_compute.
Defined.
