(* ===== verification/SplitQueue.v ===== *)
(** * Split virtqueues over guest memory

    The queue every device drives
    ([src/virt/arcbox-virtio-core/src/split_queue.rs]): the available ring the
    guest fills, the descriptor chains it points at, the used ring the device
    answers on, and the decision to interrupt. A queue borrows guest memory, so
    each operation takes the memory and a write returns it; the memory fences
    of the source order nothing in a sequential model and are left out.

    Descriptor and ring flags come from the [virtio_bindings] crate, which is
    not part of the sources: they are a class. *)

From Stdlib Require Import ZArith Lia.
From stdpp Require Import base list numbers.
From S2P Require Import Prelude RingSpec GuestMem.

Open Scope Z_scope.

(** The ring constants of [virtio_bindings::virtio_ring]. *)
Class VirtioRing := {
  VRING_DESC_F_NEXT : Z;
  VRING_DESC_F_WRITE : Z;
  VRING_DESC_F_INDIRECT : Z;
  VRING_AVAIL_F_NO_INTERRUPT : Z
}.

(** The values of the VIRTIO specification, for the examples. *)
Definition spec_ring : VirtioRing := {|
  VRING_DESC_F_NEXT := 1;
  VRING_DESC_F_WRITE := 2;
  VRING_DESC_F_INDIRECT := 4;
  VRING_AVAIL_F_NO_INTERRUPT := 1
|}.

(** [QueueConfig]: the rings as the guest configured them. *)
Record QueueConfig := MkQueueConfig {
  cfg_desc_addr : Z;
  cfg_avail_addr : Z;
  cfg_used_addr : Z;
  cfg_size : Z;
  cfg_ready : bool;
  cfg_gpa_base : Z
}.

Record VirtqDesc := MkDesc {
  desc_addr : Z;
  desc_len : Z;
  desc_flags : Z;
  desc_next : Z
}.

Record DescChain := MkChain {
  head_idx : Z;
  descriptors : list VirtqDesc
}.

Record SplitQueue := MkQueue {
  queue_idx : Z;
  size : Z;
  desc_gpa : Z;
  avail_gpa : Z;
  used_gpa : Z;
  last_avail_idx : Z;
  used_idx : Z;
  event_idx : bool
}.

#[export] Instance eta_SplitQueue : Eta SplitQueue := {|
  eta q := MkQueue (queue_idx q) (size q) (desc_gpa q) (avail_gpa q) (used_gpa q)
    (last_avail_idx q) (used_idx q) (event_idx q);
  eta_ok := ltac:(by intros [])
|}.

(** [a % b] on unsigned integers: [None] is the panic on a zero divisor. *)
Definition checked_rem (a b : Z) : option Z := if b =? 0 then None else Some (a mod b).

Section queue.
Context `{VirtioRing}.

Definition is_write (d : VirtqDesc) : bool := negb (Z.land (desc_flags d) VRING_DESC_F_WRITE =? 0).
Definition has_next (d : VirtqDesc) : bool := negb (Z.land (desc_flags d) VRING_DESC_F_NEXT =? 0).

(** [SplitQueue::new]. *)
Definition new_queue (m : GuestMem) (idx : Z) (cfg : QueueConfig) (event : bool) : SplitQueue :=
  MkQueue idx (cfg_size cfg) (cfg_desc_addr cfg) (cfg_avail_addr cfg) (cfg_used_addr cfg) 0
    (read_u16 m (usize_add (cfg_used_addr cfg) 2)) event.

Definition set_last_avail_idx (q : SplitQueue) (idx : Z) : SplitQueue := q <| last_avail_idx := idx |>.
Definition set_event_idx (q : SplitQueue) (enabled : bool) : SplitQueue := q <| event_idx := enabled |>.

Definition avail_idx (q : SplitQueue) (m : GuestMem) : Z := read_u16 m (usize_add (avail_gpa q) 2).

Definition avail_ring_entry (q : SplitQueue) (m : GuestMem) (pos : Z) : option Z :=
  (λ slot, read_u16 m (usize_add (usize_add (avail_gpa q) 4) (slot * 2)))
    <$> checked_rem pos (size q).

Definition read_descriptor (q : SplitQueue) (m : GuestMem) (idx : Z) : VirtqDesc :=
  let base := usize_add (desc_gpa q) (idx * 16) in
  MkDesc (read_u64 m base) (read_u32 m (usize_add base 8)) (read_u16 m (usize_add base 12))
    (read_u16 m (usize_add base 14)).

Definition has_avail (q : SplitQueue) (m : GuestMem) : bool :=
  negb (avail_idx q m =? last_avail_idx q).

(** ** Chains ([ChainIter]) *)

Record ChainIter := MkIter { it_idx : Z; it_ttl : Z; it_done : bool }.

Definition chain_iter (q : SplitQueue) (head : Z) : ChainIter := MkIter head (size q) false.

Definition chain_next (q : SplitQueue) (m : GuestMem) (it : ChainIter) : option VirtqDesc * ChainIter :=
  if it_done it || (it_ttl it =? 0) || (size q <=? it_idx it) then (None, it)
  else
    let ttl := it_ttl it - 1 in
    let desc := read_descriptor q m (it_idx it) in
    (Some desc,
     if has_next desc then MkIter (desc_next desc) ttl false else MkIter (it_idx it) ttl true).

(** [collect]: the items up to the first [None], which [fuel] bounds. *)
Fixpoint collect (fuel : nat) (q : SplitQueue) (m : GuestMem) (it : ChainIter) : list VirtqDesc :=
  match fuel with
  | O => []
  | S fuel =>
      match chain_next q m it with
      | (None, _) => []
      | (Some desc, it) => desc :: collect fuel q m it
      end
  end.

(** The walk makes at most [size] steps ([chain_collect]). *)
Definition chain_fuel (q : SplitQueue) : nat := S (Z.to_nat (size q)).

(** ** The available ring *)

(** The outer [option] is the panic of a queue without entries. *)
Definition next_avail_head (q : SplitQueue) (m : GuestMem) : option (option Z * SplitQueue) :=
  if avail_idx q m =? last_avail_idx q then Some (None, q)
  else (λ head, (Some head, q <| last_avail_idx := wrapping_add16 (last_avail_idx q) 1 |>))
         <$> avail_ring_entry q m (last_avail_idx q).

Definition pop_avail (q : SplitQueue) (m : GuestMem) : option (option DescChain * SplitQueue) :=
  match next_avail_head q m with
  | None => None
  | Some (None, q) => Some (None, q)
  | Some (Some head, q) =>
      Some (Some (MkChain head (collect (chain_fuel q) q m (chain_iter q head))), q)
  end.

(** ** The used ring *)

Definition write_used_entry (q : SplitQueue) (m : GuestMem) (head len : Z) : option GuestMem :=
  (λ slot,
     let off := usize_add (usize_add (used_gpa q) 4) (slot * 8) in
     write_u32 (write_u32 m off head) (usize_add off 4) len)
    <$> checked_rem (used_idx q) (size q).

(** [vring_need_event]. *)
Definition vring_need_event (event new old : Z) : bool :=
  wrapping_sub16 (wrapping_sub16 new event) 1 <? wrapping_sub16 new old.

Definition should_notify (q : SplitQueue) (m : GuestMem) (old_used new_used : Z) : bool :=
  if old_used =? new_used then false
  else if event_idx q then
    vring_need_event (read_u16 m (usize_add (usize_add (avail_gpa q) 4) (size q * 2))) new_used old_used
  else Z.land (read_u16 m (avail_gpa q)) VRING_AVAIL_F_NO_INTERRUPT =? 0.

Definition publish_used (q : SplitQueue) (m : GuestMem) : GuestMem :=
  write_u16 m (usize_add (used_gpa q) 2) (used_idx q).

Definition push_used (q : SplitQueue) (m : GuestMem) (head len : Z)
    : option (bool * SplitQueue * GuestMem) :=
  let old_used := used_idx q in
  (λ m,
     let q := q <| used_idx := wrapping_add16 (used_idx q) 1 |> in
     let m := publish_used q m in
     (should_notify q m old_used (used_idx q), q, m))
    <$> write_used_entry q m head len.

(** The entries of a batch. *)
Fixpoint write_used_entries (q : SplitQueue) (m : GuestMem) (completions : list (Z * Z))
    : option (SplitQueue * GuestMem) :=
  match completions with
  | [] => Some (q, m)
  | (head, len) :: completions =>
      match write_used_entry q m head len with
      | Some m =>
          write_used_entries (q <| used_idx := wrapping_add16 (used_idx q) 1 |>) m completions
      | None => None
      end
  end.

Definition push_used_batch (q : SplitQueue) (m : GuestMem) (completions : list (Z * Z))
    : option (bool * SplitQueue * GuestMem) :=
  match completions with
  | [] => Some (false, q, m)
  | _ =>
      let old_used := used_idx q in
      (λ '(q, m),
         let m := publish_used q m in
         (should_notify q m old_used (used_idx q), q, m))
        <$> write_used_entries q m completions
  end.

(** ** Kick suppression *)

Definition avail_event_gpa (q : SplitQueue) : Z :=
  usize_add (usize_add (used_gpa q) 4) (size q * 8).

Definition write_avail_event (q : SplitQueue) (m : GuestMem) : GuestMem :=
  write_u16 m (avail_event_gpa q) (last_avail_idx q).

Definition write_avail_event_current (q : SplitQueue) (m : GuestMem) : GuestMem :=
  write_u16 m (avail_event_gpa q) (avail_idx q m).

(** [enable_notification], reading [avail.idx] again after the write: the guest
    may have moved it in between, so the memory of the second read is given. *)
Definition enable_notification (q : SplitQueue) (m : GuestMem) (later : GuestMem → GuestMem)
    : bool * GuestMem :=
  let m := later (write_avail_event q m) in
  (negb (avail_idx q m =? last_avail_idx q), m).

Definition notify_needed (q : SplitQueue) (m : GuestMem) (old_used new_used : Z) : bool :=
  should_notify q m old_used new_used.

(** ** The chain walk ends *)

(** The walk as the structure it follows: at most [ttl] links from [idx]. *)
Fixpoint walk (q : SplitQueue) (m : GuestMem) (ttl : nat) (idx : Z) : list VirtqDesc :=
  match ttl with
  | O => []
  | S ttl =>
      if size q <=? idx then []
      else let d := read_descriptor q m idx in
           d :: (if has_next d then walk q m ttl (desc_next d) else [])
  end.

Lemma collect_done fuel q m idx ttl : collect fuel q m (MkIter idx ttl true) = [].
Proof. by destruct fuel. Qed.

Lemma collect_walk fuel q m idx ttl :
  0 ≤ ttl → (Z.to_nat ttl < fuel)%nat →
  collect fuel q m (MkIter idx ttl false) = walk q m (Z.to_nat ttl) idx.
Proof.
  revert idx ttl. induction fuel as [|fuel IH]; intros idx ttl H0 Hf; [lia|]. cbn [collect].
  unfold chain_next. cbn [it_done it_ttl it_idx orb].
  destruct (Z.eqb_spec ttl 0) as [->|Hn]; [done|]. cbn [orb].
  replace (Z.to_nat ttl) with (S (Z.to_nat (ttl - 1))) by lia. cbn [walk].
  destruct (size q <=? idx); [done|].
  destruct (has_next _); [by rewrite IH by lia|by rewrite collect_done].
Qed.

(** The fuel [collect] is given in [pop_avail] is enough. *)
Lemma chain_collect q m head :
  0 ≤ size q →
  collect (chain_fuel q) q m (chain_iter q head) = walk q m (Z.to_nat (size q)) head.
Proof. intros Hs. apply collect_walk; unfold chain_fuel; lia. Qed.

Lemma walk_cfg q q' m ttl idx :
  size q = size q' → desc_gpa q = desc_gpa q' → walk q m ttl idx = walk q' m ttl idx.
Proof.
  intros Hs Hd. revert idx. induction ttl as [|ttl IH]; intros idx; [done|]. cbn [walk].
  unfold read_descriptor. rewrite Hs, Hd. destruct (size q' <=? idx); [done|]. f_equal.
  destruct (has_next _); [apply IH|done].
Qed.

Lemma walk_length q m ttl idx : (length (walk q m ttl idx) ≤ ttl)%nat.
Proof.
  revert idx. induction ttl as [|ttl IH]; intros idx; cbn [walk]; [done|].
  destruct (size q <=? idx); [simpl; lia|]. simpl. apply le_n_S.
  destruct (has_next _); [apply IH|simpl; lia].
Qed.

(** Every descriptor of a walk comes from the table. *)
Lemma walk_in_table q m ttl idx :
  Forall (λ d, ∃ i, i < size q ∧ d = read_descriptor q m i) (walk q m ttl idx).
Proof.
  revert idx. induction ttl as [|ttl IH]; intros idx; cbn [walk]; [done|].
  destruct (Z.leb_spec (size q) idx); [done|]. constructor; [by exists idx|].
  destruct (has_next _); [apply IH|done].
Qed.

(** A chain as the guest means it, by the indices it links: it ends at the
    first descriptor without a next one. *)
Inductive chain_at (q : SplitQueue) (m : GuestMem) : Z → list Z → Prop :=
| chain_last idx :
    0 ≤ idx < size q → has_next (read_descriptor q m idx) = false → chain_at q m idx [idx]
| chain_link idx ls :
    0 ≤ idx < size q → has_next (read_descriptor q m idx) = true →
    chain_at q m (desc_next (read_descriptor q m idx)) ls → chain_at q m idx (idx :: ls).

Lemma walk_chain q m ttl idx ls :
  chain_at q m idx ls → (length ls ≤ ttl)%nat → walk q m ttl idx = read_descriptor q m <$> ls.
Proof.
  intros Hc. revert ttl. induction Hc as [idx Hi Hn|idx ls Hi Hn Hc IH]; intros ttl Hl;
    (destruct ttl as [|ttl]; [simpl in Hl; lia|]); cbn [walk];
    rewrite (proj2 (Z.leb_gt _ _)), Hn by lia; [done|].
  by rewrite IH by (simpl in Hl; lia).
Qed.

Lemma chain_at_det q m idx ls ls' : chain_at q m idx ls → chain_at q m idx ls' → ls = ls'.
Proof.
  intros Hc. revert ls'. induction Hc as [idx Hi Hn|idx ls Hi Hn Hc IH]; intros ls' Hc';
    inversion Hc'; subst; try congruence. f_equal. by apply IH.
Qed.

(** Every link of a chain starts a chain. *)
Lemma chain_at_elem q m idx ls i :
  chain_at q m idx ls → i ∈ ls → ∃ ls', chain_at q m i ls' ∧ (length ls' ≤ length ls)%nat.
Proof.
  induction 1 as [idx Hi Hn|idx ls Hi Hn Hc IH]; intros Hin.
  - apply list_elem_of_singleton in Hin as ->. exists [idx]. by split; [constructor|].
  - apply elem_of_cons in Hin as [->|Hin].
    + exists (idx :: ls). by split; [constructor|].
    + destruct (IH Hin) as (ls' & Hc' & Hl). exists ls'. split; [done|]. simpl. lia.
Qed.

(** So a chain that ends visits no descriptor twice, and fits the table. *)
Lemma chain_at_nodup q m idx ls : chain_at q m idx ls → NoDup ls.
Proof.
  induction 1 as [idx Hi Hn|idx ls Hi Hn Hc IH]; [apply NoDup_singleton|].
  apply NoDup_cons_2; [|done]. intros Hin.
  destruct (chain_at_elem q m _ _ idx Hc Hin) as (ls' & Hc' & Hl).
  pose proof (chain_at_det q m idx ls' (idx :: ls) Hc' ltac:(by constructor)) as ->. simpl in Hl. lia.
Qed.

Lemma chain_at_table q m idx ls : chain_at q m idx ls → Forall (λ i, 0 ≤ i < size q) ls.
Proof. induction 1; auto. Qed.

Lemma chain_at_length q m idx ls : chain_at q m idx ls → (length ls ≤ Z.to_nat (size q))%nat.
Proof.
  intros Hc. pose proof (chain_at_table q m idx ls Hc) as Ht. rewrite list.Forall_forall in Ht.
  rewrite <- (length_seqZ 0 (size q)). apply submseteq_length, NoDup_submseteq.
  - by eapply chain_at_nodup.
  - intros i Hi. apply elem_of_seqZ. specialize (Ht i Hi). lia.
Qed.

(** ** The layout of the rings *)

Lemma usize_add_small a b : 0 ≤ a + b < u64_bound → usize_add a b = a + b.
Proof. intros Hb. unfold usize_add. by rewrite Z.mod_small. Qed.

(** Rings of a power-of-two size, inside memory and apart from each other. *)
Record rings_ok (q : SplitQueue) (m : GuestMem) : Prop := {
  ro_mem : mem_ok m;
  ro_size : ring_size (size q);
  ro_avail : in_range m (avail_gpa q) (6 + 2 * size q);
  ro_desc : in_range m (desc_gpa q) (16 * size q);
  ro_used : in_range m (used_gpa q) (6 + 8 * size q);
  ro_avail_used : disjoint_ranges (avail_gpa q) (6 + 2 * size q) (used_gpa q) (6 + 8 * size q);
  ro_desc_used : disjoint_ranges (desc_gpa q) (16 * size q) (used_gpa q) (6 + 8 * size q)
}.

Lemma size_bounds q m : rings_ok q m → 0 < size q ≤ 32768 ∧ (size q | u16_bound).
Proof. intros Hro. apply ring_size_bounds, Hro. Qed.

Lemma slot_bounds q m i : rings_ok q m → 0 ≤ i mod size q < size q.
Proof. intros Hro. apply Z.mod_pos_bound. destruct (size_bounds q m Hro). lia. Qed.

Lemma in_range_addr m gpa len off :
  mem_ok m → in_range m gpa len → 0 ≤ off ≤ len → usize_add gpa off = gpa + off.
Proof. intros [_ Hb Hf] (H1 & _ & H2) Ho. apply usize_add_small. lia. Qed.

Lemma avail_slot_addr q m slot :
  rings_ok q m → 0 ≤ slot ≤ size q →
  usize_add (usize_add (avail_gpa q) 4) (slot * 2) = avail_gpa q + 4 + slot * 2.
Proof.
  intros [Hm _ Hr _ _ _ _] Hs. rewrite (in_range_addr m _ _ 4 Hm Hr) by lia.
  pose proof Hm as [_ Hb Hf]. destruct Hr as (? & _ & ?). apply usize_add_small. lia.
Qed.

Lemma used_slot_addr q m slot :
  rings_ok q m → 0 ≤ slot ≤ size q →
  usize_add (usize_add (used_gpa q) 4) (slot * 8) = used_gpa q + 4 + slot * 8.
Proof.
  intros [Hm _ _ _ Hr _ _] Hs. rewrite (in_range_addr m _ _ 4 Hm Hr) by lia.
  pose proof Hm as [_ Hb Hf]. destruct Hr as (? & _ & ?). apply usize_add_small. lia.
Qed.

(** ** What the rings hold *)

(** The heads the guest has posted since the queue was set up, of which the
    device has taken [consumed]: at most a ring's worth is outstanding. *)
Record avail_holds (q : SplitQueue) (m : GuestMem) (posted : list Z) (consumed : nat) : Prop := {
  ah_window : (consumed ≤ length posted)%nat ∧ Z.of_nat (length posted) ≤ Z.of_nat consumed + size q;
  ah_idx : avail_idx q m = wrap16 (Z.of_nat (length posted));
  ah_last : last_avail_idx q = wrap16 (Z.of_nat consumed);
  ah_ring : ∀ i head, (consumed ≤ i)%nat → posted !! i = Some head →
    read_u16 m (avail_gpa q + 4 + (Z.of_nat i mod size q) * 2) = head
}.

(** The device takes the heads in the order they were posted. *)
Lemma next_head_fifo q m posted consumed :
  rings_ok q m → avail_holds q m posted consumed →
  ∃ q', next_avail_head q m = Some (posted !! consumed, q') ∧
    (q' = q ∧ posted !! consumed = None ∨
     q' = q <| last_avail_idx := wrap16 (Z.of_nat (S consumed)) |> ∧ is_Some (posted !! consumed) ∧
     avail_holds q' m posted (S consumed)).
Proof.
  intros Hro [[Hw1 Hw2] Hi Hl Hr]. destruct (size_bounds q m Hro) as [Hs _].
  unfold next_avail_head. destruct (Z.eqb_spec (avail_idx q m) (last_avail_idx q)) as [He|He].
  - rewrite Hi, Hl in He. apply wrap16_inj in He; [|unfold u16_bound; lia].
    exists q. rewrite (lookup_ge_None_2 posted consumed) by lia. by split; [|left].
  - destruct (decide (consumed < length posted)%nat) as [Hlt|Hge].
    2: { destruct He. rewrite Hi, Hl. do 2 f_equal. lia. }
    destruct (lookup_lt_is_Some_2 posted consumed Hlt) as [head Hh]. rewrite Hh.
    unfold avail_ring_entry, checked_rem. rewrite (proj2 (Z.eqb_neq (size q) 0)) by lia.
    cbn [fmap option_fmap option_map]. rewrite Hl, (ring_slot_wrap _ _ (ro_size _ _ Hro)).
    rewrite (avail_slot_addr q m _ Hro) by (pose proof (slot_bounds q m (Z.of_nat consumed) Hro); lia).
    rewrite (Hr consumed head) by done.
    exists (q <| last_avail_idx := wrap16 (Z.of_nat (S consumed)) |>).
    rewrite wrapping_add16_wrap. replace (Z.of_nat consumed + 1) with (Z.of_nat (S consumed)) by lia.
    split; [done|]. right. split; [done|]. split; [by eexists|].
    split; [split; [lia|change (Z.of_nat (length posted) ≤ Z.of_nat (S consumed) + size q); lia]|done|done|].
    intros i h' Hi' Hp. apply Hr; [lia|done].
Qed.

(** ** Completions *)

(** The last ring's worth of completions, in their slots. *)
Definition used_entries (q : SplitQueue) (m : GuestMem) (completed : list (Z * Z)) : Prop :=
  ∀ i head len, Z.of_nat (length completed) ≤ Z.of_nat i + size q →
    completed !! i = Some (head, len) →
    read_u32 m (used_gpa q + 4 + (Z.of_nat i mod size q) * 8) = head ∧
    read_u32 m (used_gpa q + 4 + (Z.of_nat i mod size q) * 8 + 4) = len.

(** The rings under writes to the used ring's entries and index. *)
Lemma rings_ok_writes q m m' :
  rings_ok q m → writes_within (used_gpa q) (6 + 8 * size q) m m' → rings_ok q m'.
Proof.
  intros [Hm Hs Ha Hd Hu Hau Hdu] Hw. pose proof (ww_ok _ _ _ _ Hw).
  split; try done; by eapply writes_within_range.
Qed.

Lemma avail_holds_writes q m m' posted consumed :
  rings_ok q m → writes_within (used_gpa q) (6 + 8 * size q) m m' →
  avail_holds q m posted consumed → avail_holds q m' posted consumed.
Proof.
  intros Hro Hw [Hwin Hi Hl Hr]. pose proof Hro as [Hm _ Ha _ _ Hau _].
  destruct (size_bounds q m Hro) as [Hs _]. split; [done| |done|].
  - unfold avail_idx in *. rewrite (in_range_addr m _ _ 2 Hm Ha) in * by lia.
    rewrite <- Hi. apply (ww_read _ _ _ _ Hw). unfold disjoint_ranges in *. lia.
  - intros i head Hge Hp. rewrite <- (Hr i head Hge Hp).
    pose proof (slot_bounds q m (Z.of_nat i) Hro).
    apply (ww_read _ _ _ _ Hw). unfold disjoint_ranges in *. lia.
Qed.

(** The address of the entry the next completion goes to. *)
Definition used_slot (q : SplitQueue) (i : Z) : Z := used_gpa q + 4 + (i mod size q) * 8.

Lemma used_slot_range q m i : rings_ok q m → in_range m (used_slot q i) 8.
Proof.
  intros Hro. pose proof (slot_bounds q m i Hro). destruct Hro as [_ _ _ _ Hur _ _].
  unfold in_range, used_slot in *. lia.
Qed.

Lemma write_used_entry_eq q m head len :
  rings_ok q m →
  write_used_entry q m head len =
    Some (write_u32 (write_u32 m (used_slot q (used_idx q)) head) (used_slot q (used_idx q) + 4) len).
Proof.
  intros Hro. destruct (size_bounds q m Hro) as [Hs _].
  pose proof (slot_bounds q m (used_idx q) Hro).
  unfold write_used_entry, checked_rem. rewrite (proj2 (Z.eqb_neq (size q) 0)) by lia.
  cbn [fmap option_fmap option_map]. rewrite (used_slot_addr q m) by (done || lia).
  fold (used_slot q (used_idx q)).
  by rewrite (in_range_addr m _ 8 4) by (apply Hro || (by apply used_slot_range) || lia).
Qed.

Lemma used_entry_within q m head len m' :
  rings_ok q m → write_used_entry q m head len = Some m' →
  writes_within (used_slot q (used_idx q)) 8 m m'.
Proof.
  intros Hro. rewrite write_used_entry_eq by done. intros [= <-].
  set (off := used_slot q (used_idx q)).
  pose proof (write_u32_within m off head (ro_mem _ _ Hro)) as W1.
  pose proof (write_u32_within _ (off + 4) len (ww_ok _ _ _ _ W1)) as W2.
  eapply writes_within_trans; [eapply writes_within_mono; [| |exact W1]|
    eapply writes_within_mono; [| |exact W2]]; lia.
Qed.

Lemma used_slot_within q m i m' :
  rings_ok q m → writes_within (used_slot q i) 8 m m' →
  writes_within (used_gpa q + 4) (8 * size q) m m'.
Proof.
  intros Hro. pose proof (slot_bounds q m i Hro). unfold used_slot.
  apply writes_within_mono; lia.
Qed.

Lemma write_used_entry_spec q m completed head len :
  rings_ok q m → used_idx q = wrap16 (Z.of_nat (length completed)) →
  used_entries q m completed → in_u32 head → in_u32 len →
  ∃ m', write_used_entry q m head len = Some m' ∧
    writes_within (used_gpa q + 4) (8 * size q) m m' ∧
    used_entries q m' (completed ++ [(head, len)]).
Proof.
  intros Hro Hu He Hh Hl. set (n := Z.of_nat (length completed)) in *.
  assert (used_slot q (used_idx q) = used_slot q n) as Hsl.
  { unfold used_slot. by rewrite Hu, (ring_slot_wrap (size q)) by apply Hro. }
  pose proof (used_slot_range q m n Hro) as Hoff.
  pose proof (write_used_entry_eq q m head len Hro) as Hw.
  pose proof (used_entry_within _ _ _ _ _ Hro Hw) as W. rewrite Hsl in Hw, W. eexists. split; [exact Hw|].
  split; [by eapply used_slot_within|].
  intros i h l Hi Hlk. rewrite length_app in Hi. simpl in Hi. apply lookup_app_Some in Hlk as [Hlk|[Hge Hlk]].
  - assert (i < length completed)%nat as Hlt by by eapply lookup_lt_Some.
    destruct (He i h l) as [Hr1 Hr2]; [lia|done|]. rewrite <- Hr1, <- Hr2.
    destruct (size_bounds q m Hro) as [Hs _].
    pose proof (ring_slot_distinct (size q) (Z.of_nat i) n ltac:(lia) ltac:(lia) ltac:(lia)).
    pose proof (slot_bounds q m (Z.of_nat i) Hro).
    split; apply (ww_read _ _ _ _ W); unfold disjoint_ranges, used_slot; lia.
  - apply list_lookup_singleton_Some in Hlk as [Hi0 [= -> ->]].
    replace (Z.of_nat i) with n by lia. fold (used_slot q n).
    pose proof (write_u32_within m (used_slot q n) h (ro_mem _ _ Hro)) as W1.
    pose proof (write_u32_within _ (used_slot q n + 4) l (ww_ok _ _ _ _ W1)) as W2. split.
    + transitivity (read_u32 (write_u32 m (used_slot q n) h) (used_slot q n)).
      * apply (ww_read _ _ _ _ W2). unfold disjoint_ranges. lia.
      * apply read_write_u32; [apply Hro|unfold in_range in *; lia|done].
    + apply read_write_u32; [apply W1| |done]. eapply writes_within_range; [exact W1|].
      unfold in_range in *. lia.
Qed.

(** The used ring after every completion so far. *)
Record used_holds (q : SplitQueue) (m : GuestMem) (completed : list (Z * Z)) : Prop := {
  uh_idx : used_idx q = wrap16 (Z.of_nat (length completed));
  uh_published : read_u16 m (used_gpa q + 2) = used_idx q;
  uh_entries : used_entries q m completed
}.

(** Publishing the index completes the entries written. *)
Lemma publish_used_spec q m completed :
  rings_ok q m → used_idx q = wrap16 (Z.of_nat (length completed)) → used_entries q m completed →
  writes_within (used_gpa q + 2) 2 m (publish_used q m) ∧ used_holds q (publish_used q m) completed.
Proof.
  intros Hro Hu He. pose proof Hro as [Hm _ _ _ Hur _ _]. destruct (size_bounds q m Hro) as [Hs _].
  unfold publish_used. rewrite (in_range_addr m _ _ 2 Hm Hur) by lia.
  pose proof (write_u16_within m (used_gpa q + 2) (used_idx q) Hm) as W. split; [done|]. split; [done| |].
  - apply read_write_u16; [done| |rewrite Hu; apply in_u16_wrap].
    unfold in_range in *. lia.
  - intros i h l Hi Hlk. destruct (He i h l Hi Hlk) as [<- <-].
    pose proof (slot_bounds q m (Z.of_nat i) Hro).
    split; apply (ww_read _ _ _ _ W); unfold disjoint_ranges; lia.
Qed.

(** ** The queue against its rings *)

(** A queue and the memory its rings are in hold what the ring says. *)
Record holds (q : SplitQueue) (m : GuestMem) (r : Ring) : Prop := {
  h_rings : rings_ok q m;
  h_avail : avail_holds q m (posted r) (taken r);
  h_used : used_holds q m (completed r)
}.

Lemma pop_avail_refines q m r :
  holds q m r →
  ∃ out q', pop_avail q m = Some (out, q') ∧ head_idx <$> out = fst (ring_take r) ∧
    holds q' m (snd (ring_take r)) ∧
    ∀ c, out = Some c → descriptors c = walk q m (Z.to_nat (size q)) (head_idx c).
Proof.
  intros [Hro Ha [U1 U2 U3]]. destruct (size_bounds q m Hro) as [Hs _].
  destruct (next_head_fifo q m _ _ Hro Ha) as (q' & Hn & Hc). unfold pop_avail, ring_take. rewrite Hn.
  destruct Hc as [[-> Hp]|(-> & [head Hp] & Ha')]; rewrite Hp.
  - exists None, q. split; [done|]. split; [done|]. by split.
  - rewrite chain_collect by (change (0 ≤ size q); lia). do 2 eexists. split; [done|]. split; [done|]. split; [split; [|exact Ha'|]|].
    + by destruct Hro.
    + by split.
    + intros c Hc. injection Hc as <-. by apply walk_cfg.
Qed.

(** A batch of entries, before the index is published. *)
Lemma write_used_entries_spec q m done cs :
  rings_ok q m → used_idx q = wrap16 (Z.of_nat (length done)) → used_entries q m done →
  Forall completion_ok cs →
  ∃ m', write_used_entries q m cs =
      Some (q <| used_idx := wrap16 (Z.of_nat (length (done ++ cs))) |>, m') ∧
    writes_within (used_gpa q + 4) (8 * size q) m m' ∧
    used_entries q m' (done ++ cs).
Proof.
  intros Hro Hu He Hcs. revert q m done Hro Hu He.
  induction Hcs as [|[h l] cs [Hh Hl] Hcs IH]; intros q m done Hro Hu He; cbn [write_used_entries].
  - exists m. rewrite app_nil_r, <- Hu. destruct Hro, q. by split; [|split; [apply writes_within_refl|]].
  - destruct (write_used_entry_spec q m done h l Hro Hu He) as (m1 & -> & W1 & E1).
    { unfold in_u32, in_u16, u32_bound, u16_bound in *. simpl in Hh. lia. }
    { done. }
    destruct (size_bounds q m Hro) as [Hs _].
    assert (rings_ok q m1) as Hro1.
    { eapply rings_ok_writes; [done|]. eapply writes_within_mono; [| |exact W1]; lia. }
    assert (wrapping_add16 (used_idx q) 1 = wrap16 (Z.of_nat (length (done ++ [(h, l)])))) as Hu1.
    { rewrite Hu, wrapping_add16_wrap, length_app. f_equal. simpl. lia. }
    destruct (IH (q <| used_idx := wrapping_add16 (used_idx q) 1 |>) m1 (done ++ [(h, l)]))
      as (m2 & Hw & W2 & E2); [by destruct Hro1|done|done|].
    exists m2. rewrite Hw, <- !(assoc_L (++)). cbn [app]. split; [done|].
    split; [by eapply writes_within_trans|]. rewrite <- (assoc_L (++)) in E2. exact E2.
Qed.

Lemma push_used_batch_nonempty q m c cs :
  push_used_batch q m (c :: cs) =
    (λ '(q', m'), (should_notify q' (publish_used q' m') (used_idx q) (used_idx q'), q',
                   publish_used q' m')) <$> write_used_entries q m (c :: cs).
Proof. unfold push_used_batch. by destruct (write_used_entries _ _ _) as [[]|]. Qed.

Lemma push_used_batch_refines q m r cs :
  holds q m r → Forall completion_ok cs →
  ∃ notify q' m', push_used_batch q m cs = Some (notify, q', m') ∧
    holds q' m' (ring_complete r cs) ∧ writes_within (used_gpa q) (6 + 8 * size q) m m'.
Proof.
  intros [Hro Ha [U1 U2 U3]] Hcs. destruct (size_bounds q m Hro) as [Hs _].
  destruct cs as [|c cs].
  { exists false, q, m. split; [done|]. unfold ring_complete. rewrite app_nil_r.
    split; [by split|]. apply writes_within_refl, Hro. }
  rewrite push_used_batch_nonempty.
  destruct (write_used_entries_spec q m _ _ Hro U1 U3 Hcs) as (m1 & -> & W1 & E1).
  set (q1 := q <| used_idx := _ |>) in *.
  assert (writes_within (used_gpa q) (6 + 8 * size q) m m1) as W1'.
  { eapply writes_within_mono; [| |exact W1]; lia. }
  pose proof (rings_ok_writes q m m1 Hro W1') as Hro1.
  assert (rings_ok q1 m1) as Hroq1 by by destruct Hro1.
  destruct (publish_used_spec q1 m1 (completed r ++ c :: cs) Hroq1 eq_refl E1) as [W2 Uh].
  assert (writes_within (used_gpa q) (6 + 8 * size q) m1 (publish_used q1 m1)) as W2'.
  { change (used_gpa q1) with (used_gpa q) in W2. eapply writes_within_mono; [| |exact W2]; lia. }
  do 3 eexists. split; [done|]. split; [split|by eapply writes_within_trans].
  - by eapply (rings_ok_writes q1).
  - assert (avail_holds q (publish_used q1 m1) (posted r) (taken r)) as [].
    { eapply (avail_holds_writes q m1), (avail_holds_writes q m); done. }
    by split.
  - exact Uh.
Qed.

(** A single completion is a batch of one. *)
Lemma push_used_batch_one q m head len : push_used_batch q m [(head, len)] = push_used q m head len.
Proof.
  unfold push_used_batch, push_used. cbn [write_used_entries].
  by destruct (write_used_entry q m head len).
Qed.
End queue.
