(* ===== verification/QueueSpec.v ===== *)
(** * What a split queue promises its device

    Traces of device operations interleaved with the guest refine a FIFO ring,
    a batch of completions is the loop of single ones, the interrupt window of
    EVENT_IDX, and the re-arm handshake that leaves no posted entry behind. *)

From Stdlib Require Import ZArith Lia.
From stdpp Require Import base list numbers.
From S2P Require Import Prelude RingSpec GuestMem SplitQueue.

Open Scope Z_scope.

Section spec.
Context `{VirtioRing}.

(** ** A device and its guest, step by step *)

(** The guest writes anything but the used ring. *)
Record guest_writes (q : SplitQueue) (m m' : GuestMem) : Prop := {
  gw_ok : mem_ok m';
  gw_base : gpa_base m' = gpa_base m;
  gw_len : mem_len m' = mem_len m;
  gw_used : ∀ n a, used_gpa q ≤ a → a + Z.of_nat n ≤ used_gpa q + 6 + 8 * size q →
    read_le m' n a = read_le m n a
}.

Lemma holds_guest q m r m' new :
  holds q m r → guest_writes q m m' → avail_holds q m' (posted r ++ new) (taken r) →
  holds q m' (ring_post r new).
Proof.
  intros [Hro Ha [U1 U2 U3]] [G1 G2 G3 G4] Ha'. destruct (size_bounds q m Hro) as [Hs _].
  pose proof Hro as [R1 R2 R3 R4 R5 R6 R7]. split.
  - split; try done; unfold in_range in *; rewrite G2, G3; lia.
  - done.
  - split; [done|rewrite <- U2; apply G4; lia|].
    intros i h l Hi Hl. pose proof (slot_bounds q m (Z.of_nat i) Hro).
    destruct (U3 i h l Hi Hl) as [<- <-]. split; apply G4; lia.
Qed.

Lemma split_take_ok q m r :
  holds q m r →
  ∃ q', match pop_avail q m with
        | Some (chain, q') => Some (head_idx <$> chain, (q', m))
        | None => None
        end = Some (fst (ring_take r), q') ∧ holds (fst q') (snd q') (snd (ring_take r)).
Proof.
  intros Hh. destruct (pop_avail_refines q m r Hh) as (out & q' & -> & <- & Hh' & _).
  by exists (q', m).
Qed.

Lemma split_complete_ok q m r cs :
  holds q m r → Forall completion_ok cs →
  ∃ notify q', match push_used_batch q m cs with
               | Some (notify, q', m') => Some (notify, (q', m'))
               | None => None
               end = Some (notify, q') ∧ holds (fst q') (snd q') (ring_complete r cs).
Proof.
  intros Hh Hcs. destruct (push_used_batch_refines q m r cs Hh Hcs) as (n & q' & m' & -> & Hh' & _).
  by exists n, (q', m').
Qed.

(** A queue in guest memory, against a guest that leaves the used ring alone
    and never has more than a ring's worth outstanding. *)
#[export] Instance split_device_queue : DeviceQueue (SplitQueue * GuestMem) := {|
  dq_holds q r := holds (fst q) (snd q) r;
  dq_take q :=
    match pop_avail (fst q) (snd q) with
    | Some (chain, q') => Some (head_idx <$> chain, (q', snd q))
    | None => None
    end;
  dq_complete q cs :=
    match push_used_batch (fst q) (snd q) cs with
    | Some (notify, q', m') => Some (notify, (q', m'))
    | None => None
    end;
  dq_guest q r new q' :=
    fst q' = fst q ∧ guest_writes (fst q) (snd q) (snd q') ∧
    avail_holds (fst q) (snd q') (posted r ++ new) (taken r);
  dq_take_ok q r := split_take_ok (fst q) (snd q) r;
  dq_complete_ok q r cs := split_complete_ok (fst q) (snd q) r cs;
  dq_guest_ok q r new q' Hh '(conj Hq (conj Hg Ha)) :=
    eq_ind_r (λ p, holds p (snd q') (ring_post r new))
      (holds_guest (fst q) (snd q) r (snd q') new Hh Hg Ha) Hq
|}.

(** ** The interrupt window *)

(** [event] lies [d] entries past [old], counted modulo 2^16. *)
Definition entries_past (old event : Z) : Z := wrapping_sub16 event old.

Lemma need_event_window event new old :
  vring_need_event event new old = (entries_past old event <? entries_past old new).
Proof.
  unfold vring_need_event, entries_past, wrapping_sub16, wrap16.
  unfold u16_bound. apply eq_bool_prop_intro. rewrite !Is_true_true, !Z.ltb_lt.
  Z.to_euclidean_division_equations; lia.
Qed.

(** The window of two consecutive stretches is the union of theirs. *)
Lemma need_event_join event old n k :
  0 ≤ n → 0 ≤ k → n + k < u16_bound →
  vring_need_event event (wrap16 (old + n + k)) (wrap16 old) =
    vring_need_event event (wrap16 (old + n)) (wrap16 old) ||
    vring_need_event event (wrap16 (old + n + k)) (wrap16 (old + n)).
Proof.
  intros Hn Hk Hb. rewrite !need_event_window.
  unfold entries_past, wrapping_sub16, wrap16, u16_bound in *.
  apply eq_bool_prop_intro. rewrite orb_True, !Is_true_true, !Z.ltb_lt.
  Z.to_euclidean_division_equations; lia.
Qed.

(** The decision reads the available ring only. *)
Lemma should_notify_frame q m m' old new :
  rings_ok q m → writes_within (used_gpa q) (6 + 8 * size q) m m' →
  should_notify q m' old new = should_notify q m old new.
Proof.
  intros Hro W. destruct (size_bounds q m Hro) as [Hs _]. unfold should_notify.
  rewrite !(avail_slot_addr q m (size q)) by (done || lia). pose proof (ro_avail_used _ _ Hro).
  assert (∀ a, avail_gpa q ≤ a → a + 2 ≤ avail_gpa q + 6 + 2 * size q → read_u16 m' a = read_u16 m a) as Hr.
  { intros a H1 H2. apply (ww_read _ _ _ _ W). unfold disjoint_ranges in *. lia. }
  by rewrite !Hr by lia.
Qed.

Lemma should_notify_cfg q q' m old new :
  size q = size q' → avail_gpa q = avail_gpa q' → event_idx q = event_idx q' →
  should_notify q m old new = should_notify q' m old new.
Proof. unfold should_notify. by intros -> -> ->. Qed.

Lemma wrap16_add_ne old n : 0 < n < u16_bound → (wrap16 old =? wrap16 (old + n)) = false.
Proof.
  intros Hn. apply Z.eqb_neq. intros He%wrap16_inj; unfold u16_bound in *; lia.
Qed.

Lemma should_notify_join q m old n k :
  0 < n → 0 < k → n + k < u16_bound →
  should_notify q m (wrap16 old) (wrap16 (old + n + k)) =
    should_notify q m (wrap16 old) (wrap16 (old + n)) ||
    should_notify q m (wrap16 (old + n)) (wrap16 (old + n + k)).
Proof.
  intros Hn Hk Hb. unfold should_notify.
  rewrite (wrap16_add_ne old n), (wrap16_add_ne (old + n) k) by lia.
  assert ((wrap16 old =? wrap16 (old + n + k)) = false) as ->.
  { rewrite <- Z.add_assoc. apply wrap16_add_ne. lia. }
  destruct (event_idx q); [by apply need_event_join; lia|by rewrite orb_diag].
Qed.

(** ** A batch is its completions one by one *)

Fixpoint push_each (q : SplitQueue) (m : GuestMem) (cs : list (Z * Z))
    : option (bool * SplitQueue * GuestMem) :=
  match cs with
  | [] => Some (false, q, m)
  | (head, len) :: cs =>
      match push_used q m head len with
      | Some (notify, q, m) =>
          (λ '(notify', q, m), (notify || notify', q, m)) <$> push_each q m cs
      | None => None
      end
  end.

Lemma publish_used_eq q m :
  rings_ok q m → publish_used q m = write_u16 m (used_gpa q + 2) (used_idx q).
Proof.
  intros Hro. destruct (size_bounds q m Hro) as [Hs _]. unfold publish_used.
  by rewrite (in_range_addr m _ _ 2 (ro_mem _ _ Hro) (ro_used _ _ Hro)) by lia.
Qed.

Lemma publish_within q m :
  rings_ok q m → writes_within (used_gpa q) (6 + 8 * size q) m (publish_used q m).
Proof.
  intros Hro. destruct (size_bounds q m Hro) as [Hs _]. rewrite publish_used_eq by done.
  eapply writes_within_mono; [| |apply write_u16_within, Hro]; lia.
Qed.

(** An entry and the index are apart. *)
Lemma write_used_entry_index q m v head len :
  rings_ok q m →
  write_used_entry q (write_u16 m (used_gpa q + 2) v) head len =
    (λ m', write_u16 m' (used_gpa q + 2) v) <$> write_used_entry q m head len.
Proof.
  intros Hro. destruct (size_bounds q m Hro) as [Hs _].
  pose proof (write_u16_within m (used_gpa q + 2) v (ro_mem _ _ Hro)) as W.
  rewrite !write_used_entry_eq; [|done|].
  2: { eapply rings_ok_writes; [done|]. eapply writes_within_mono; [| |exact W]; lia. }
  cbn [fmap option_fmap option_map]. f_equal. pose proof (slot_bounds q m (used_idx q) Hro).
  unfold write_u16, write_u32. rewrite !(write_bytes_comm _ (used_gpa q + 2) (le_bytes 2 v));
    rewrite ?le_bytes_length; try apply le_bytes_range; try apply write_bytes_ok;
    try apply le_bytes_range; try apply Hro; try done;
    left; unfold used_slot; lia.
Qed.

(** The rings do not move with the cursors. *)
Lemma rings_ok_used q m i : rings_ok q m → rings_ok (q <| used_idx := i |>) m.
Proof. by intros []. Qed.

Lemma used_entry_frame q m head len m' :
  rings_ok q m → write_used_entry q m head len = Some m' →
  writes_within (used_gpa q) (6 + 8 * size q) m m'.
Proof.
  intros Hro Hw%used_entry_within; [|done]. destruct (size_bounds q m Hro) as [Hs _].
  eapply writes_within_mono; [| |by eapply used_slot_within]; lia.
Qed.

Lemma write_used_entries_index q m v cs :
  rings_ok q m →
  write_used_entries q (write_u16 m (used_gpa q + 2) v) cs =
    (λ '(q', m'), (q', write_u16 m' (used_gpa q + 2) v)) <$> write_used_entries q m cs.
Proof.
  revert q m. induction cs as [|[h l] cs IH]; intros q m Hro; cbn [write_used_entries]; [done|].
  rewrite write_used_entry_index by done.
  destruct (write_used_entry q m h l) as [m1|] eqn:Hw; [|done]. cbn [fmap option_fmap option_map].
  set (q1 := q <| used_idx := wrapping_add16 (used_idx q) 1 |>).
  change (used_gpa q) with (used_gpa q1). apply IH, rings_ok_used.
  eapply rings_ok_writes; [done|by eapply used_entry_frame].
Qed.

Lemma write_used_entries_total q m u cs :
  rings_ok q m → used_idx q = wrap16 u →
  ∃ m', write_used_entries q m cs = Some (q <| used_idx := wrap16 (u + Z.of_nat (length cs)) |>, m') ∧
    writes_within (used_gpa q) (6 + 8 * size q) m m'.
Proof.
  revert q m u. induction cs as [|[h l] cs IH]; intros q m u Hro Hu; cbn [write_used_entries].
  - exists m. rewrite Z.add_0_r, <- Hu. destruct Hro, q. by split; [|apply writes_within_refl].
  - pose proof (write_used_entry_eq q m h l Hro) as Hw. pose proof (used_entry_frame _ _ _ _ _ Hro Hw) as W.
    rewrite Hw. set (m1 := write_u32 _ _ _) in *.
    destruct (IH (q <| used_idx := wrapping_add16 (used_idx q) 1 |>) m1 (u + 1)) as (m2 & -> & W2).
    + eapply rings_ok_used, rings_ok_writes; done.
    + rewrite Hu. apply wrapping_add16_wrap.
    + exists m2. split; [|by eapply writes_within_trans].
      replace (u + Z.of_nat (length ((h, l) :: cs))) with (u + 1 + Z.of_nat (length cs)); [done|].
      simpl length. lia.
Qed.

(** The index of the batch overwrites the ones in between. *)
Lemma publish_over q q' m :
  rings_ok q m → size q' = size q → used_gpa q' = used_gpa q →
  ∀ v, publish_used q' (write_u16 m (used_gpa q + 2) v) = publish_used q' m.
Proof.
  intros Hro Hs Hg v. unfold publish_used. destruct (size_bounds q m Hro) as [Hb _].
  rewrite Hg, (in_range_addr m _ _ 2 (ro_mem _ _ Hro) (ro_used _ _ Hro)) by lia.
  apply write_bytes_over; [apply Hro|apply le_bytes_range|by rewrite !le_bytes_length].
Qed.

(** The first interrupt decision and the later ones make the batch's. *)
Lemma notify_split q m m1 m2 u n :
  rings_ok q m → writes_within (used_gpa q) (6 + 8 * size q) m m1 →
  writes_within (used_gpa q) (6 + 8 * size q) m m2 → 0 < n → 1 + n < u16_bound →
  should_notify q m1 (wrap16 u) (wrap16 (u + 1)) ||
    should_notify q m2 (wrap16 (u + 1)) (wrap16 (u + 1 + n)) =
  should_notify q m2 (wrap16 u) (wrap16 (u + 1 + n)).
Proof.
  intros Hro W1 W2 Hn Hb. rewrite should_notify_join by lia.
  by rewrite !(should_notify_frame q m m1), !(should_notify_frame q m m2).
Qed.

Lemma push_each_batch q m u cs :
  rings_ok q m → used_idx q = wrap16 u → Z.of_nat (length cs) < u16_bound →
  push_each q m cs = push_used_batch q m cs.
Proof.
  revert q m u. induction cs as [|[h l] cs IH]; intros q m u Hro Hu Hl; [done|].
  cbn [push_each]. rewrite <- push_used_batch_one. simpl length in Hl.
  rewrite !push_used_batch_nonempty. cbn [write_used_entries].
  pose proof (write_used_entry_eq q m h l Hro) as Hw. pose proof (used_entry_frame _ _ _ _ _ Hro Hw) as W.
  rewrite Hw. set (m1 := write_u32 _ _ _) in *.
  set (q1 := q <| used_idx := wrapping_add16 (used_idx q) 1 |>).
  assert (rings_ok q1 m1) as Hro1 by (eapply rings_ok_used, rings_ok_writes; done).
  assert (used_idx q1 = wrap16 (u + 1)) as Hu1 by (rewrite <- wrapping_add16_wrap, <- Hu; done).
  cbn [fmap option_fmap option_map].
  assert (rings_ok q1 (publish_used q1 m1)) as Hro1' by (eapply rings_ok_writes, publish_within; done).
  rewrite (IH q1 _ (u + 1) Hro1' Hu1) by lia.
  destruct cs as [|c cs]; [cbn; by rewrite orb_false_r|].
  rewrite push_used_batch_nonempty, (publish_used_eq q1 m1) by done.
  rewrite write_used_entries_index by done.
  destruct (write_used_entries_total q1 m1 (u + 1) (c :: cs) Hro1 Hu1) as (m2 & -> & W2).
  set (q2 := q1 <| used_idx := _ |>).
  pose proof (rings_ok_writes q1 m1 m2 Hro1 W2) as Hro12.
  assert (rings_ok q2 m2) as Hro2 by by apply rings_ok_used.
  cbn [fmap option_fmap option_map]. rewrite (publish_over q1 q2 m2) by done.
  do 3 f_equal. rewrite <- publish_used_eq, Hu, Hu1 by done.
  apply (notify_split q1 m1); [done|by apply publish_within| |simpl in *; lia..].
  eapply writes_within_trans; [exact W2|exact (publish_within q2 m2 Hro2)].
Qed.

(** ** Re-arming *)

Lemma avail_event_eq q m :
  rings_ok q m → avail_event_gpa q = used_gpa q + 4 + size q * 8.
Proof. intros Hro. apply (used_slot_addr q m); [done|]. destruct (size_bounds q m Hro). lia. Qed.

Lemma write_avail_event_spec q m :
  rings_ok q m → in_u16 (last_avail_idx q) →
  writes_within (used_gpa q) (6 + 8 * size q) m (write_avail_event q m) ∧
  read_u16 (write_avail_event q m) (avail_event_gpa q) = last_avail_idx q.
Proof.
  intros Hro Hl. destruct (size_bounds q m Hro) as [Hs _].
  unfold write_avail_event. rewrite (avail_event_eq q m Hro). split.
  - eapply writes_within_mono; [| |apply write_u16_within, Hro]; lia.
  - pose proof Hro as [Hm _ _ _ Hu _ _]. apply read_write_u16; [done| |done].
    unfold in_range in *. lia.
Qed.

(** ** Panics *)

Lemma next_head_panics q m :
  next_avail_head q m = None ↔ size q = 0 ∧ has_avail q m = true.
Proof.
  unfold next_avail_head, has_avail, avail_ring_entry, checked_rem.
  destruct (Z.eqb_spec (avail_idx q m) (last_avail_idx q)); simpl; [naive_solver|].
  destruct (Z.eqb_spec (size q) 0); simpl; naive_solver.
Qed.

Lemma pop_avail_panics q m : pop_avail q m = None ↔ size q = 0 ∧ has_avail q m = true.
Proof.
  rewrite <- next_head_panics. unfold pop_avail.
  by destruct (next_avail_head q m) as [[[]]|].
Qed.

Lemma push_used_panics q m head len : push_used q m head len = None ↔ size q = 0.
Proof.
  unfold push_used, write_used_entry, checked_rem. destruct (Z.eqb_spec (size q) 0); naive_solver.
Qed.

Lemma write_used_entries_panics q m cs :
  write_used_entries q m cs = None ↔ size q = 0 ∧ cs ≠ [].
Proof.
  revert q m. induction cs as [|[h l] cs IH]; intros q m; cbn [write_used_entries]; [naive_solver|].
  unfold write_used_entry, checked_rem. destruct (Z.eqb_spec (size q) 0) as [Hz|Hz]; [naive_solver|].
  cbn [fmap option_fmap option_map]. rewrite IH. change (size (q <| used_idx := ?x |>)) with (size q). naive_solver.
Qed.

(** ** Claims *)

(** C4: (refinement) However taking, completing and the guest's own writes
    interleave, the queue hands out the heads the guest posted, each once and in
    order, and the used ring holds the device's completions in theirs, as long as
    the guest posts at most a ring's worth and leaves the used ring alone. The
    device never panics. *)
Theorem queue_refines_ring q m r ops :
  holds q m r → ops_ok (q, m) r ops →
  ∃ q' m', device_run (q, m) ops = Some (fst (ring_run r ops), (q', m')) ∧
    holds q' m' (snd (ring_run r ops)) ∧
    take (taken (snd (ring_run r ops))) (posted (snd (ring_run r ops))) =
      take (taken r) (posted r) ++ omap id (fst (ring_run r ops)).
Proof.
  intros Hh Hok. pose proof (ah_window _ _ _ _ (h_avail _ _ _ Hh)) as [Hw _].
  pose proof (ring_run_fifo r ops Hw) as Hf. destruct (ring_run r ops) as [outs r'] eqn:Hr.
  assert (dq_holds (q, m) r) as Hq by exact Hh.
  destruct (device_run_refines (q, m) r ops Hq Hok) as ([q' m'] & Hd & Hh').
  rewrite Hr in Hd, Hh'. exists q', m'. by destruct Hf.
Qed.


(** Publishing a batch with one index update and one interrupt
    decision leaves the queue and guest memory as the single completions one
    after the other do, and interrupts when one of them would have. *)
Theorem batch_is_its_completions q m cs :
  rings_ok q m → in_u16 (used_idx q) → Z.of_nat (length cs) < u16_bound →
  push_used_batch q m cs = push_each q m cs.
Proof.
  intros Hro Hu Hl. symmetry. apply (push_each_batch q m (used_idx q)); [done| |done].
  symmetry. by apply Z.mod_small.
Qed.

(** (functional) With EVENT_IDX the guest is interrupted exactly when
    [used_event] names one of the entries published: [old] included, [new]
    excluded, modulo 2^16. *)
Theorem notify_window q m old n :
  event_idx q = true → in_u16 old → 0 ≤ n < u16_bound →
  let event := read_u16 m (usize_add (usize_add (avail_gpa q) 4) (size q * 2)) in
  should_notify q m old (wrapping_add16 old n) = true ↔
    ∃ k, 0 ≤ k < n ∧ wrapping_add16 old k = wrap16 event.
Proof.
  intros He Ho Hn event. unfold should_notify. rewrite He. fold event.
  rewrite need_event_window. unfold entries_past, wrapping_sub16, wrapping_add16, wrap16, in_u16, u16_bound in *.
  split.
  - destruct (Z.eqb_spec old ((old + n) mod 2 ^ 16)); [done|]. rewrite Z.ltb_lt. intros Hlt.
    exists ((event - old) mod 2 ^ 16). Z.to_euclidean_division_equations; lia.
  - intros (k & Hk & Hw). destruct (Z.eqb_spec old ((old + n) mod 2 ^ 16)).
    + Z.to_euclidean_division_equations; lia.
    + apply Z.ltb_lt. Z.to_euclidean_division_equations; lia.
Qed.

(** C6: (safety) Re-arming loses no entry. What the guest has posted by the
    second look at the ring is reported; when nothing is, the guest sees an
    [avail_event] that makes it kick for whatever it posts next. *)
Theorem rearm_loses_nothing q m later r new :
  holds q m r → guest_writes q (write_avail_event q m) (later (write_avail_event q m)) →
  avail_holds q (later (write_avail_event q m)) (posted r ++ new) (taken r) →
  let '(more, m') := enable_notification q m later in
  more = bool_decide (is_Some ((posted r ++ new) !! taken r)) ∧
  (more = false → ∀ n, 0 < n < u16_bound →
     let sent := Z.of_nat (length (posted r ++ new)) in
     vring_need_event (read_u16 m' (avail_event_gpa q)) (wrap16 (sent + n)) (wrap16 sent) = true).
Proof.
  intros [Hro Ha Hu] Hg Ha'. unfold enable_notification. set (m1 := write_avail_event q m) in *.
  pose proof Ha' as [[Hw1 Hw2] Hi Hl _]. destruct (size_bounds q m Hro) as [Hs _].
  destruct (write_avail_event_spec q m Hro) as [W Hev]; [rewrite Hl; apply in_u16_wrap|].
  fold m1 in W, Hev. rewrite Hi. set (all := posted r ++ new) in *.
  assert (Hmore : negb (wrap16 (Z.of_nat (length all)) =? last_avail_idx q) =
    bool_decide (is_Some (all !! taken r))).
  { rewrite Hl. apply eq_bool_prop_intro. rewrite negb_True, bool_decide_spec, lookup_lt_is_Some, Is_true_true, Z.eqb_eq.
    split; [intros Hne; destruct (decide (taken r = length all)) as [He|]; [by rewrite He in Hne|lia]|].
    intros Hlt He%wrap16_inj; unfold u16_bound in *; lia. }
  split; [done|]. rewrite Hmore. intros Hf%bool_decide_eq_false n Hn.
  rewrite lookup_lt_is_Some in Hf. replace (length all) with (taken r) by lia.
  rewrite (avail_event_eq q m Hro) in *. unfold read_u16. rewrite (gw_used _ _ _ Hg) by lia.
  fold (read_u16 m1 (used_gpa q + 4 + size q * 8)). rewrite Hev, Hl, need_event_window.
  apply Z.ltb_lt. unfold entries_past, wrapping_sub16, wrap16, u16_bound in *.
  Z.to_euclidean_division_equations; lia.
Qed.

(** A queue panics on nothing but a size of zero: taking does so
    only when the guest has posted an entry, completing always. *)
Theorem queue_panics_on_zero_size q m :
  (pop_avail q m = None ↔ size q = 0 ∧ has_avail q m = true) ∧
  (∀ head len, push_used q m head len = None ↔ size q = 0) ∧
  (∀ cs, push_used_batch q m cs = None ↔ size q = 0 ∧ cs ≠ []).
Proof.
  split; [apply pop_avail_panics|]. split; [intros; apply push_used_panics|].
  intros cs. destruct cs as [|c cs]; [cbn; naive_solver|]. rewrite push_used_batch_nonempty, fmap_None.
  apply write_used_entries_panics.
Qed.
End spec.

(** ** Examples *)

#[local] Existing Instance spec_ring.

(** Four entries: the table at 4096, the available ring at 4160, the used ring
    at 4176. Descriptor 0 links to descriptor 2. *)
Definition ex_mem : GuestMem :=
  write_u16 (write_u16 (MkGuestMem (replicate 256 0) 4096) (4096 + 12) 1) (4096 + 14) 2.

Definition ex_queue : SplitQueue :=
  new_queue ex_mem 0 (MkQueueConfig 4096 4160 4176 4 true 4096) true.

(** The guest posts head 0. *)
Definition ex_posted : GuestMem := write_u16 (write_u16 ex_mem (4160 + 4) 0) (4160 + 2) 1.

Lemma ex_rings : rings_ok ex_queue ex_mem.
Proof.
  split; try (apply in_rangeb_spec; vm_compute; done).
  - by apply mem_ok_dec.
  - by exists 2.
  - left. vm_compute. discriminate.
  - left. vm_compute. discriminate.
Qed.

Lemma ex_holds : holds ex_queue ex_mem (MkRing [] 0 []).
Proof.
  split; [apply ex_rings| |].
  - split; [simpl; vm_compute; split; discriminate || lia|by vm_compute..|done].
  - split; [by vm_compute..|]. done.
Qed.

Lemma guest_writes_within q m m' lo len :
  writes_within lo len m m' → disjoint_ranges lo len (used_gpa q) (6 + 8 * size q) →
  guest_writes q m m'.
Proof.
  intros [O B L R] Hd. split; [done..|]. intros n a H1 H2. apply R.
  unfold disjoint_ranges in *. lia.
Qed.

Lemma ex_guest m : mem_ok m →
  guest_writes ex_queue m (write_u16 (write_u16 m (4160 + 4) 0) (4160 + 2) 1).
Proof.
  intros Hm. pose proof (write_u16_within m (4160 + 4) 0 Hm) as W1.
  apply (guest_writes_within _ _ _ 4162 4); [|left; vm_compute; discriminate].
  pose proof (write_u16_within _ (4160 + 2) 1 (ww_ok _ _ _ _ W1)) as W2.
  eapply writes_within_trans; [eapply writes_within_mono; [| |exact W1]|
    eapply writes_within_mono; [| |exact W2]]; lia.
Qed.

Lemma ex_avail : avail_holds ex_queue ex_posted ([] ++ [0]) 0.
Proof.
  split; [simpl; vm_compute; split; [lia|discriminate]|by vm_compute..|].
  intros [|i] h _ Hp; [|done]. injection Hp as <-. by vm_compute.
Qed.

Definition ex_ops : list QOp :=
  [OpGuest (ex_queue, ex_posted) [0]; OpTake; OpComplete [(0, 12)]; OpTake].

Lemma queue_refines_ring_witness :
  ∃ q' m', device_run (ex_queue, ex_mem) ex_ops = Some ([None; Some 0; None; None], (q', m')) ∧
    holds q' m' (MkRing [0] 1 [(0, 12)]) ∧ [0] = [] ++ [0].
Proof.
  apply (queue_refines_ring ex_queue ex_mem (MkRing [] 0 []) ex_ops); [exact ex_holds|].
  split; [split; [done|split; [apply ex_guest, ex_rings|exact ex_avail]]|]. cbn [device_step].
  split; [done|]. destruct (device_step _ _) as [[??]|]; [|done].
  split; [by repeat constructor|]. destruct (device_step _ _) as [[??]|]; [|done].
  split; [done|]. by destruct (device_step _ _) as [[??]|].
Defined.


Lemma batch_is_its_completions_witness :
  push_used_batch ex_queue ex_mem [(0, 12); (2, 0)] = push_each ex_queue ex_mem [(0, 12); (2, 0)] ∧
  (λ '(notify, q, _), (notify, used_idx q)) <$> push_each ex_queue ex_mem [(0, 12); (2, 0)] =
    Some (true, 2).
Proof.
  split; [|by vm_compute].
  apply (batch_is_its_completions ex_queue ex_mem [(0, 12); (2, 0)]); [exact ex_rings|by vm_compute|done].
Defined.

Lemma notify_window_witness :
  should_notify ex_queue ex_mem 65535 (wrapping_add16 65535 2) = true ↔
    ∃ k, 0 ≤ k < 2 ∧ wrapping_add16 65535 k = 0.
Proof. apply (notify_window ex_queue ex_mem 65535 2); by vm_compute. Defined.

(** The guest posts between the two looks. *)
Definition ex_later (m : GuestMem) : GuestMem :=
  write_u16 (write_u16 m (4160 + 4) 0) (4160 + 2) 1.

Lemma rearm_loses_nothing_witness : fst (enable_notification ex_queue ex_mem ex_later) = true.
Proof.
  assert (mem_ok (write_avail_event ex_queue ex_mem)) as Hm by by apply mem_ok_dec.
  destruct (rearm_loses_nothing ex_queue ex_mem ex_later (MkRing [] 0 []) [0]) as [Hmore _].
  - exact ex_holds.
  - by apply ex_guest.
  - split; [simpl; vm_compute; split; [lia|discriminate]|by vm_compute..|].
    intros [|i] h _ Hp; [|done]. injection Hp as <-. by vm_compute.
  - exact Hmore.
Defined.
