(* ===== verification/VirtQueue.v ===== *)
(** * The in-process virtqueue

    [src/virt/arcbox-virtio-core/src/queue.rs]: a virtqueue whose descriptor
    table and rings are vectors of the host, driven the way [SplitQueue] drives
    the rings of guest memory. Indexing a vector out of range panics, which is
    the [None] of an outer [option]. *)

From Stdlib Require Import ZArith Lia.
From stdpp Require Import base list numbers strings.
From S2P Require Import Prelude RingSpec GuestMem SplitQueue.

Open Scope Z_scope.

Module VQ.

(** The variant of [VirtioError] the queue returns. *)
Inductive VirtioError := InvalidQueue (msg : string).

Record Descriptor := MkDescriptor { addr : Z; len : Z; flags : Z; next : Z }.

Record AvailRing := MkAvail { av_flags : Z; av_idx : Z; av_ring : list Z; used_event : Z }.

Record UsedElement := MkUsedElement { ue_id : Z; ue_len : Z }.

Record UsedRing := MkUsed { us_flags : Z; us_idx : Z; us_ring : list UsedElement; avail_event : Z }.

Record VirtQueue := MkVirtQueue {
  vsize : Z;
  desc_table : list Descriptor;
  avail : AvailRing;
  used : UsedRing;
  last_avail : Z;
  ready : bool;
  event_idx_enabled : bool
}.

#[export] Instance eta_AvailRing : Eta AvailRing := {|
  eta r := MkAvail (av_flags r) (av_idx r) (av_ring r) (used_event r);
  eta_ok := ltac:(by intros [])
|}.
#[export] Instance eta_UsedRing : Eta UsedRing := {|
  eta r := MkUsed (us_flags r) (us_idx r) (us_ring r) (avail_event r);
  eta_ok := ltac:(by intros [])
|}.
#[export] Instance eta_VirtQueue : Eta VirtQueue := {|
  eta q := MkVirtQueue (vsize q) (desc_table q) (avail q) (used q) (last_avail q) (ready q)
    (event_idx_enabled q);
  eta_ok := ltac:(by intros [])
|}.

(** [v[i] = x] and [v[i]] on a [Vec]. *)
Definition vec_set {A} (v : list A) (i : Z) (x : A) : option (list A) :=
  if i <? Z.of_nat (length v) then Some (<[Z.to_nat i := x]> v) else None.

Definition vec_get {A} (v : list A) (i : Z) : option A := v !! Z.to_nat i.

(** [u16::is_power_of_two], on a size that is not zero. *)
Definition is_power_of_two (n : Z) : bool := Z.land n (n - 1) =? 0.

Section virtqueue.
Context `{VirtioRing}.

Definition desc_has_next (d : Descriptor) : bool := negb (Z.land (flags d) VRING_DESC_F_NEXT =? 0).
Definition is_write_only (d : Descriptor) : bool := negb (Z.land (flags d) VRING_DESC_F_WRITE =? 0).
Definition is_indirect (d : Descriptor) : bool := negb (Z.land (flags d) VRING_DESC_F_INDIRECT =? 0).

Definition new_avail (size : Z) : AvailRing := MkAvail 0 0 (replicate (Z.to_nat size) 0) 0.
Definition new_used (size : Z) : UsedRing :=
  MkUsed 0 0 (replicate (Z.to_nat size) (MkUsedElement 0 0)) 0.

(** [VirtQueue::new]. *)
Definition new_virtqueue (size : Z) : result VirtioError VirtQueue :=
  if (size =? 0) || negb (is_power_of_two size) then Err (InvalidQueue "size must be a power of 2")
  else if 32768 <? size then Err (InvalidQueue "size must not exceed 32768")
  else Ok (MkVirtQueue size (replicate (Z.to_nat size) (MkDescriptor 0 0 0 0))
         (new_avail size) (new_used size) 0 false false).

Definition set_ready (q : VirtQueue) (r : bool) : VirtQueue := q <| ready := r |>.
Definition vq_set_event_idx (q : VirtQueue) (enabled : bool) : VirtQueue :=
  q <| event_idx_enabled := enabled |>.

Definition set_descriptor (q : VirtQueue) (idx : Z) (d : Descriptor)
    : option (result VirtioError VirtQueue) :=
  if vsize q <=? idx then Some (Err (InvalidQueue "descriptor index out of bounds"))
  else (λ table, Ok (q <| desc_table := table |>)) <$> vec_set (desc_table q) idx d.

Definition add_avail (q : VirtQueue) (head : Z) : option (result VirtioError VirtQueue) :=
  if vsize q <=? head then Some (Err (InvalidQueue "available index out of bounds"))
  else
    match checked_rem (av_idx (avail q)) (vsize q) with
    | None => None
    | Some slot =>
        (λ ring, Ok (q <| avail := (avail q) <| av_ring := ring |>
                           <| av_idx := wrapping_add16 (av_idx (avail q)) 1 |> |>))
          <$> vec_set (av_ring (avail q)) slot head
    end.

Definition has_available (q : VirtQueue) : bool := negb (av_idx (avail q) =? last_avail q).

(** [DescriptorChain] and its [next]. *)
Record DescriptorChain := MkChainIter { current : option Z; ttl : Z }.

Definition get_descriptor (q : VirtQueue) (idx : Z) : option Descriptor := vec_get (desc_table q) idx.

Definition vchain_next (q : VirtQueue) (c : DescriptorChain) : option (Descriptor * DescriptorChain) :=
  if ttl c =? 0 then None
  else
    match current c with
    | None => None
    | Some idx =>
        match get_descriptor q idx with
        | None => None
        | Some d => Some (d, MkChainIter (if desc_has_next d then Some (next d) else None) (ttl c - 1))
        end
    end.

Definition vq_pop_avail (q : VirtQueue) : option (option (Z * DescriptorChain) * VirtQueue) :=
  if negb (has_available q) then Some (None, q)
  else
    match checked_rem (last_avail q) (vsize q) with
    | None => None
    | Some slot =>
        match vec_get (av_ring (avail q)) slot with
        | None => None
        | Some head =>
            Some (Some (head, MkChainIter (Some head) (vsize q)),
                  q <| last_avail := wrapping_add16 (last_avail q) 1 |>)
        end
    end.

(** [needs_notification] and [should_notify]. *)
Definition needs_notification (old_idx new_idx event : Z) : bool :=
  wrapping_sub16 (wrapping_sub16 new_idx event) 1 <? wrapping_sub16 new_idx old_idx.

Definition vq_should_notify (q : VirtQueue) (old_idx : Z) : bool :=
  if event_idx_enabled q then
    needs_notification old_idx (us_idx (used q)) (used_event (avail q))
  else Z.land (av_flags (avail q)) VRING_AVAIL_F_NO_INTERRUPT =? 0.

(** One element of the used ring, and the index past it. *)
Definition put_used (q : VirtQueue) (head len : Z) : option VirtQueue :=
  match checked_rem (us_idx (used q)) (vsize q) with
  | None => None
  | Some slot =>
      (λ ring, q <| used := (used q) <| us_ring := ring |>
                      <| us_idx := wrapping_add16 (us_idx (used q)) 1 |> |>)
        <$> vec_set (us_ring (used q)) slot (MkUsedElement head len)
  end.

Definition vq_push_used (q : VirtQueue) (head len : Z) : option (bool * VirtQueue) :=
  let old_idx := us_idx (used q) in
  (λ q, (vq_should_notify q old_idx, q)) <$> put_used q head len.

Fixpoint put_all (q : VirtQueue) (completions : list (Z * Z)) : option VirtQueue :=
  match completions with
  | [] => Some q
  | (head, len) :: completions =>
      match put_used q head len with
      | Some q => put_all q completions
      | None => None
      end
  end.

Definition vq_push_used_batch (q : VirtQueue) (completions : list (Z * Z))
    : option (bool * VirtQueue) :=
  match completions with
  | [] => Some (false, q)
  | _ =>
      let old_idx := us_idx (used q) in
      (λ q, (vq_should_notify q old_idx, q)) <$> put_all q completions
  end.

Definition set_avail_event (q : VirtQueue) (event : Z) : VirtQueue :=
  q <| used := (used q) <| avail_event := event |> |>.

(** ** The sizes [new] accepts *)

Lemma power_of_two_ring n : 0 < n ≤ 32768 → is_power_of_two n = true → ring_size n.
Proof.
  intros Hn Hp. apply Z.eqb_eq in Hp. exists (Z.log2 n).
  assert (Z.log2 n ≤ 15) as Hl.
  { change 15 with (Z.log2 32768). apply Z.log2_le_mono. lia. }
  split; [pose proof (Z.log2_nonneg n); lia|].
  pose proof (Z.log2_spec n ltac:(lia)) as [H1 H2].
  destruct (decide (n = 2 ^ Z.log2 n)) as [|Hne]; [done|]. exfalso.
  assert (Z.log2 (n - 1) = Z.log2 n) as Hb.
  { apply Z.log2_unique; [apply Z.log2_nonneg|lia]. }
  assert (Z.testbit (Z.land n (n - 1)) (Z.log2 n) = true) as Hbit.
  { rewrite Z.land_spec, Z.bit_log2 by lia. rewrite <- Hb. apply Z.bit_log2.
    pose proof (Z.pow_pos_nonneg 2 (Z.log2 n)). pose proof (Z.log2_nonneg n). lia. }
  rewrite Hp, Z.bits_0 in Hbit. done.
Qed.

(** ** What the queue holds *)

(** Vectors of the queue's size. *)
Record vq_ok (q : VirtQueue) : Prop := {
  vo_size : ring_size (vsize q);
  vo_table : Z.of_nat (length (desc_table q)) = vsize q;
  vo_avail : Z.of_nat (length (av_ring (avail q))) = vsize q;
  vo_used : Z.of_nat (length (us_ring (used q))) = vsize q
}.

Record vq_holds (q : VirtQueue) (r : Ring) : Prop := {
  vh_ok : vq_ok q;
  vh_window : (taken r ≤ length (posted r))%nat ∧
    Z.of_nat (length (posted r)) ≤ Z.of_nat (taken r) + vsize q;
  vh_heads : Forall (λ head, 0 ≤ head < vsize q) (posted r);
  vh_avail : av_idx (avail q) = wrap16 (Z.of_nat (length (posted r)));
  vh_last : last_avail q = wrap16 (Z.of_nat (taken r));
  vh_posted : ∀ i head, (taken r ≤ i)%nat → posted r !! i = Some head →
    vec_get (av_ring (avail q)) (Z.of_nat i mod vsize q) = Some head;
  vh_used : us_idx (used q) = wrap16 (Z.of_nat (length (completed r)));
  vh_completed : ∀ i head len, Z.of_nat (length (completed r)) ≤ Z.of_nat i + vsize q →
    completed r !! i = Some (head, len) →
    vec_get (us_ring (used q)) (Z.of_nat i mod vsize q) = Some (MkUsedElement head len)
}.

Lemma checked_slot n i : ring_size n → checked_rem (wrap16 i) n = Some (i mod n).
Proof.
  intros Hn. destruct (ring_size_bounds n Hn) as [Hb _]. unfold checked_rem.
  rewrite (proj2 (Z.eqb_neq n 0)) by lia. by rewrite ring_slot_wrap.
Qed.

Lemma slot_pos n i : ring_size n → 0 ≤ i mod n < n.
Proof. intros Hn. apply Z.mod_pos_bound. destruct (ring_size_bounds n Hn). lia. Qed.

Lemma vec_set_in {A} (v : list A) i x :
  0 ≤ i < Z.of_nat (length v) → vec_set v i x = Some (<[Z.to_nat i := x]> v).
Proof. intros Hi. unfold vec_set. by rewrite (proj2 (Z.ltb_lt _ _)) by lia. Qed.

(** A ring slot written for index [n] leaves the slots of the indices before it. *)
Lemma vec_get_slot {A} (v : list A) size n x i :
  ring_size size → Z.of_nat (length v) = size → n < i + size → i ≤ n →
  vec_get (<[Z.to_nat (n mod size) := x]> v) (i mod size) =
    if i =? n then Some x else vec_get v (i mod size).
Proof.
  intros Hs Hl Hw Hle. pose proof (slot_pos size n Hs). pose proof (slot_pos size i Hs).
  unfold vec_get. destruct (Z.eqb_spec i n) as [->|Hne].
  - apply list_lookup_insert_eq. lia.
  - apply list_lookup_insert_ne. intros He.
    apply (ring_slot_distinct size i n); [destruct (ring_size_bounds size Hs); lia|lia|lia|lia].
Qed.

(** A new queue is an empty ring. *)
Lemma new_virtqueue_holds size q :
  0 ≤ size → new_virtqueue size = Ok q → vsize q = size ∧ vq_holds q (MkRing [] 0 []).
Proof.
  unfold new_virtqueue. intros Hs. destruct (Z.eqb_spec size 0); simpl; [done|].
  destruct (is_power_of_two size) eqn:Hp; simpl; [|done].
  destruct (Z.ltb_spec 32768 size); [done|]. intros [= <-]. split; [done|].
  assert (ring_size size) as Hr by (apply power_of_two_ring; [lia|done]).
  split; try done. split; simpl; rewrite ?length_replicate; [done|lia..].
Qed.

(** ** The operations on it *)

(** The guest's side: posting while the ring has room. *)
Lemma add_avail_holds q r head :
  vq_holds q r → 0 ≤ head < vsize q →
  Z.of_nat (length (posted r)) < Z.of_nat (taken r) + vsize q →
  ∃ q', add_avail q head = Some (Ok q') ∧ vsize q' = vsize q ∧ vq_holds q' (ring_post r [head]).
Proof.
  intros [[O1 O2 O3 O4] [W1 W2] Hh Ha Hl Hp Hu Hc] Hhead Hroom.
  pose proof (slot_pos (vsize q) (Z.of_nat (length (posted r))) O1) as Hsl.
  unfold add_avail. rewrite (proj2 (Z.leb_gt _ _)) by lia.
  rewrite Ha, (checked_slot _ _ O1), vec_set_in by lia. cbn [fmap option_fmap option_map].
  eexists. split; [done|]. split; [done|]. split; try done.
  - split; try done. change (Z.of_nat (length (<[Z.to_nat (Z.of_nat (length (posted r)) mod vsize q) := head]>
      (av_ring (avail q)))) = vsize q). by rewrite length_insert.
  - simpl. rewrite length_app. simpl. change (vsize (q <| avail := _ |>)) with (vsize q). lia.
  - apply Forall_app. split; [done|]. constructor; [exact Hhead|done].
  - simpl. rewrite length_app. change (wrapping_add16 (wrap16 (Z.of_nat (length (posted r)))) 1 =
      wrap16 (Z.of_nat (length (posted r) + 1))). rewrite wrapping_add16_wrap. f_equal. lia.
  - intros i h Hi Hlk. cbn [posted taken ring_post] in *.
    change (vec_get (<[Z.to_nat (Z.of_nat (length (posted r)) mod vsize q) := head]> (av_ring (avail q)))
      (Z.of_nat i mod vsize q) = Some h).
    apply lookup_lt_Some in Hlk as Hlt. rewrite length_app in Hlt. simpl in Hlt.
    rewrite (vec_get_slot _ (vsize q)) by (done || lia).
    destruct (Z.eqb_spec (Z.of_nat i) (Z.of_nat (length (posted r)))) as [He|Hne].
    + rewrite lookup_app_r in Hlk by lia. replace (i - length (posted r))%nat with 0%nat in Hlk by lia. done.
    + apply Hp; [done|]. by rewrite lookup_app_l in Hlk by lia.
Qed.

Lemma vq_pop_holds q r :
  vq_holds q r →
  ∃ out q', vq_pop_avail q = Some (out, q') ∧ fst <$> out = fst (ring_take r) ∧
    vq_holds q' (snd (ring_take r)).
Proof.
  intros Hq. pose proof Hq as [[O1 O2 O3 O4] [W1 W2] Hh Ha Hl Hp Hu Hc].
  unfold vq_pop_avail, has_available, ring_take. rewrite negb_involutive.
  destruct (ring_size_bounds _ O1) as [Hs _].
  destruct (Z.eqb_spec (av_idx (avail q)) (last_avail q)) as [He|He].
  - rewrite Ha, Hl in He. apply wrap16_inj in He; [|unfold u16_bound; lia].
    rewrite (lookup_ge_None_2 (posted r)) by lia. exists None, q. done.
  - assert (taken r < length (posted r))%nat as Hlt.
    { destruct (decide (taken r = length (posted r))) as [Heq|]; [|lia].
      destruct He. by rewrite Ha, Hl, Heq. }
    destruct (lookup_lt_is_Some_2 _ _ Hlt) as [head Hhead]. rewrite Hhead, Hl, (checked_slot _ _ O1).
    rewrite (Hp (taken r) head) by done.
    do 2 eexists. split; [done|]. split; [done|]. split; try done.
    + split; [exact Hlt|]. simpl. change (vsize (q <| last_avail := _ |>)) with (vsize q). lia.
    + simpl. change (wrapping_add16 (wrap16 (Z.of_nat (taken r))) 1 = wrap16 (Z.of_nat (S (taken r)))).
      rewrite wrapping_add16_wrap. f_equal. lia.
    + intros i h Hi Hlk. apply Hp; [simpl in Hi; lia|done].
Qed.

Lemma put_used_holds q r head len :
  vq_holds q r →
  ∃ q', put_used q head len = Some q' ∧ vsize q' = vsize q ∧
    vq_holds q' (ring_complete r [(head, len)]).
Proof.
  intros [[O1 O2 O3 O4] Hw Hh Ha Hl Hp Hu Hc].
  pose proof (slot_pos (vsize q) (Z.of_nat (length (completed r))) O1) as Hsl.
  unfold put_used. rewrite Hu, (checked_slot _ _ O1), vec_set_in by lia.
  cbn [fmap option_fmap option_map]. eexists. split; [done|]. split; [done|]. split; try done.
  - split; try done. change (Z.of_nat (length (<[Z.to_nat (Z.of_nat (length (completed r)) mod vsize q) :=
      MkUsedElement head len]> (us_ring (used q)))) = vsize q). by rewrite length_insert.
  - simpl. rewrite length_app. change (wrapping_add16 (wrap16 (Z.of_nat (length (completed r)))) 1 =
      wrap16 (Z.of_nat (length (completed r) + 1))). rewrite wrapping_add16_wrap. f_equal. lia.
  - intros i h l Hi Hlk. cbn [completed ring_complete] in *. rewrite length_app in Hi. simpl in Hi.
    change (Z.of_nat (length (completed r) + 1) ≤ Z.of_nat i + vsize q) in Hi.
    change (vec_get (<[Z.to_nat (Z.of_nat (length (completed r)) mod vsize q) := MkUsedElement head len]>
      (us_ring (used q))) (Z.of_nat i mod vsize q) = Some (MkUsedElement h l)).
    apply lookup_lt_Some in Hlk as Hlt. rewrite length_app in Hlt. simpl in Hlt.
    rewrite (vec_get_slot _ (vsize q)) by (done || lia).
    destruct (Z.eqb_spec (Z.of_nat i) (Z.of_nat (length (completed r)))) as [He|Hne].
    + rewrite lookup_app_r in Hlk by lia.
      replace (i - length (completed r))%nat with 0%nat in Hlk by lia. by injection Hlk as -> ->.
    + apply Hc; [lia|]. by rewrite lookup_app_l in Hlk by lia.
Qed.

Lemma put_all_holds q r cs :
  vq_holds q r → ∃ q', put_all q cs = Some q' ∧ vq_holds q' (ring_complete r cs).
Proof.
  revert q r. induction cs as [|[h l] cs IH]; intros q r Hq; cbn [put_all].
  - exists q. split; [done|]. destruct r. unfold ring_complete. simpl. by rewrite app_nil_r.
  - destruct (put_used_holds q r h l Hq) as (q1 & -> & _ & Hq1).
    destruct (IH q1 _ Hq1) as (q2 & -> & Hq2). exists q2. split; [done|].
    unfold ring_complete in *. simpl in Hq2. by rewrite <- (assoc_L (++)) in Hq2.
Qed.

Lemma vq_batch_holds q r cs :
  vq_holds q r →
  ∃ notify q', vq_push_used_batch q cs = Some (notify, q') ∧ vq_holds q' (ring_complete r cs).
Proof.
  intros Hq. destruct (put_all_holds q r cs Hq) as (q' & Hp & Hq').
  unfold vq_push_used_batch. destruct cs as [|c cs].
  - simplify_eq/=. eauto.
  - rewrite Hp. eauto.
Qed.

(** The guest posts heads through [add_avail]. *)
Fixpoint add_all (q : VirtQueue) (heads : list Z) : option (result VirtioError VirtQueue) :=
  match heads with
  | [] => Some (Ok q)
  | head :: heads =>
      match add_avail q head with
      | Some (Ok q) => add_all q heads
      | r => r
      end
  end.

Definition vq_posts (q : VirtQueue) (r : Ring) (heads : list Z) (q' : VirtQueue) : Prop :=
  add_all q heads = Some (Ok q') ∧ Forall (λ head, 0 ≤ head) heads ∧
  Z.of_nat (length (posted r ++ heads)) ≤ Z.of_nat (taken r) + vsize q.

Lemma vq_posts_holds q r heads q' :
  vq_holds q r → vq_posts q r heads q' → vq_holds q' (ring_post r heads).
Proof.
  intros Hq (Ha & Hpos & Hroom). revert q r Hq Ha Hroom.
  induction Hpos as [|head heads Hhead _ IH]; intros q r Hq Ha Hroom; cbn [add_all] in Ha.
  - injection Ha as <-. destruct r. unfold ring_post. simpl. by rewrite app_nil_r.
  - rewrite length_app in Hroom. simpl in Hroom.
    destruct (decide (vsize q ≤ head)) as [Hbig|Hsmall].
    { unfold add_avail in Ha. by rewrite (proj2 (Z.leb_le _ _)) in Ha by lia. }
    destruct (add_avail_holds q r head Hq) as (q1 & Hadd & Hsz & Hq1); [lia..|].
    rewrite Hadd in Ha. specialize (IH q1 _ Hq1 Ha). unfold ring_post in *. simpl in IH.
    rewrite <- (assoc_L (++)) in IH. apply IH. rewrite Hsz, !length_app. simpl. lia.
Qed.

Lemma vq_take_ok q r :
  vq_holds q r →
  ∃ q', match vq_pop_avail q with
        | Some (chain, q') => Some (fst <$> chain, q')
        | None => None
        end = Some (fst (ring_take r), q') ∧ vq_holds q' (snd (ring_take r)).
Proof. intros Hq. destruct (vq_pop_holds q r Hq) as (out & q' & -> & <- & Hq'). by exists q'. Qed.

#[export] Instance vq_device_queue : DeviceQueue VirtQueue := {|
  dq_holds := vq_holds;
  dq_take q :=
    match vq_pop_avail q with
    | Some (chain, q') => Some (fst <$> chain, q')
    | None => None
    end;
  dq_complete := vq_push_used_batch;
  dq_guest := vq_posts;
  dq_take_ok := vq_take_ok;
  dq_complete_ok q r cs Hq _ := vq_batch_holds q r cs Hq;
  dq_guest_ok := vq_posts_holds
|}.

(** ** The chain walk *)

Fixpoint vcollect (fuel : nat) (q : VirtQueue) (c : DescriptorChain) : list Descriptor :=
  match fuel with
  | O => []
  | S fuel =>
      match vchain_next q c with
      | Some (d, c) => d :: vcollect fuel q c
      | None => []
      end
  end.

Lemma vcollect_bounded fuel q c :
  0 ≤ ttl c → Z.of_nat (length (vcollect fuel q c)) ≤ ttl c.
Proof.
  revert c. induction fuel as [|fuel IH]; intros c Ht; cbn [vcollect]; [simpl; lia|].
  unfold vchain_next. destruct (Z.eqb_spec (ttl c) 0); [simpl; lia|].
  destruct (current c) as [idx|]; [|simpl; lia].
  destruct (get_descriptor q idx) as [d|]; [|simpl; lia].
  specialize (IH (MkChainIter (if desc_has_next d then Some (next d) else None) (ttl c - 1))).
  simpl in *. lia.
Qed.

(** More fuel than [ttl] changes nothing. *)
Lemma vcollect_stable fuel fuel' q c :
  0 ≤ ttl c → (Z.to_nat (ttl c) < fuel)%nat → (Z.to_nat (ttl c) < fuel')%nat →
  vcollect fuel q c = vcollect fuel' q c.
Proof.
  revert fuel' c. induction fuel as [|fuel IH]; intros [|fuel'] c Ht Hf Hf'; [lia..|]. cbn [vcollect].
  unfold vchain_next. destruct (Z.eqb_spec (ttl c) 0); [done|].
  destruct (current c) as [idx|]; [|done]. destruct (get_descriptor q idx) as [d|]; [|done].
  f_equal. apply IH; simpl; lia.
Qed.

(** ** Claims *)

(** C7: (refinement) A queue of any size [new] accepts behaves, over every
    interleaving of posts within its capacity, takes and completions, as a FIFO
    of heads with a log of completions; a taken chain yields at most [size]
    descriptors, and nothing panics. *)
Theorem virtqueue_refines_ring size q ops :
  0 ≤ size → new_virtqueue size = Ok q → ops_ok q (MkRing [] 0 []) ops →
  let '(outs, r) := ring_run (MkRing [] 0 []) ops in
  ∃ q', device_run q ops = Some (outs, q') ∧ vq_holds q' r ∧
    take (taken r) (posted r) = omap id outs ∧
    ∀ head chain q'', vq_pop_avail q' = Some (Some (head, chain), q'') →
      ∀ fuel, Z.of_nat (length (vcollect fuel q'' chain)) ≤ vsize q'.
Proof.
  intros Hs Hn Hok. destruct (new_virtqueue_holds size q Hs Hn) as [_ Hq].
  pose proof (ring_run_fifo (MkRing [] 0 []) ops (le_n 0)) as Hf.
  assert (dq_holds q (MkRing [] 0 [])) as Hd by exact Hq.
  destruct (device_run_refines q _ ops Hd Hok) as (q' & Hr & Hh).
  destruct (ring_run (MkRing [] 0 []) ops) as [outs r]. exists q'. split; [done|]. split; [done|].
  split; [by destruct Hf|]. intros head chain q'' Hp fuel.
  destruct (ring_size_bounds _ (vo_size _ (vh_ok _ _ Hh))) as [Hb _].
  unfold vq_pop_avail in Hp. repeat case_match; simplify_eq. apply vcollect_bounded. simpl. lia.
Qed.
End virtqueue.

#[local] Existing Instance spec_ring.

Definition ex_virtqueue : VirtQueue :=
  match new_virtqueue 4 with
  | Ok q => q
  | Err _ => MkVirtQueue 0 [] (new_avail 0) (new_used 0) 0 false false
  end.

Definition ex_filled : VirtQueue :=
  match add_all ex_virtqueue [2; 3] with
  | Some (Ok q) => q
  | _ => ex_virtqueue
  end.

Lemma virtqueue_refines_ring_witness :
  ∃ q', device_run ex_virtqueue [OpGuest ex_filled [2; 3]; OpTake; OpComplete [(2, 8)]; OpTake] =
    Some ([None; Some 2; None; Some 3], q') ∧ us_idx (used q') = 1.
Proof.
  destruct (virtqueue_refines_ring 4 ex_virtqueue
    [OpGuest ex_filled [2; 3]; OpTake; OpComplete [(2, 8)]; OpTake]) as (q' & Hr & Hh & _).
  - lia.
  - reflexivity.
  - split; [split; [reflexivity|split; [repeat constructor; lia|vm_compute; discriminate]]|].
    split; [done|]. split; [by repeat constructor|]. by split.
  - exists q'. split; [exact Hr|]. exact (vh_used _ _ Hh).
Defined.
End VQ.
