(* ===== verification/MmioState.v ===== *)
(** * The virtio-mmio register file

    [src/virt/arcbox-vmm/src/device/mmio_state.rs]: the registers a guest sees
    of one device, and what a read or a write of one does. Register offsets and
    interrupt reasons come from the [virtio_bindings] crate, which is not part
    of the sources: they are a class whose law is that no two registers share
    an offset. *)

From Stdlib Require Import ZArith Lia.
From stdpp Require Import base list numbers.
From S2P Require Import Prelude Bits.

Open Scope Z_scope.

(** [virtio_bindings::virtio_mmio]. *)
Class MmioRegs := {
  MAGIC : Z;
  REG_VERSION : Z;
  DEVICE_ID : Z;
  REG_VENDOR_ID : Z;
  DEVICE_FEATURES : Z;
  DEVICE_FEATURES_SEL : Z;
  DRIVER_FEATURES : Z;
  DRIVER_FEATURES_SEL : Z;
  QUEUE_SEL : Z;
  QUEUE_NUM_MAX : Z;
  QUEUE_NUM : Z;
  QUEUE_READY : Z;
  QUEUE_NOTIFY : Z;
  INTERRUPT_STATUS : Z;
  INTERRUPT_ACK : Z;
  STATUS : Z;
  QUEUE_DESC_LOW : Z;
  QUEUE_DESC_HIGH : Z;
  QUEUE_DRIVER_LOW : Z;
  QUEUE_DRIVER_HIGH : Z;
  QUEUE_DEVICE_LOW : Z;
  QUEUE_DEVICE_HIGH : Z;
  CONFIG_GENERATION : Z;
  CONFIG : Z;
  INT_VRING : Z;
  INT_CONFIG : Z
}.

(** The offsets, those of the shared-memory registers spelled out in the source. *)
Definition reg_offsets `{MmioRegs} : list Z :=
  [MAGIC; REG_VERSION; DEVICE_ID; REG_VENDOR_ID; DEVICE_FEATURES; DEVICE_FEATURES_SEL;
   DRIVER_FEATURES; DRIVER_FEATURES_SEL; QUEUE_SEL; QUEUE_NUM_MAX; QUEUE_NUM; QUEUE_READY;
   QUEUE_NOTIFY; INTERRUPT_STATUS; INTERRUPT_ACK; STATUS; QUEUE_DESC_LOW; QUEUE_DESC_HIGH;
   QUEUE_DRIVER_LOW; QUEUE_DRIVER_HIGH; QUEUE_DEVICE_LOW; QUEUE_DEVICE_HIGH;
   CONFIG_GENERATION; CONFIG; 0x0ac; 0x0b0; 0x0b4; 0x0b8; 0x0bc].

Class MmioRegsOk `{MmioRegs} := {
  regs_distinct : NoDup reg_offsets;
  regs_below_config : Forall (λ r, 0 ≤ r ≤ CONFIG) reg_offsets;
  config_in_window : CONFIG < 0x200;
  int_vring_u32 : 0 < INT_VRING < u32_bound;
  int_config_u32 : 0 < INT_CONFIG < u32_bound
}.

Definition MAGIC_VALUE : Z := 0x74726976.
Definition VERSION : Z := 2.
Definition VENDOR_ID : Z := 0x554D4551.
Definition MMIO_SIZE : Z := 0x200.
Definition MAX_VIRTQUEUES : Z := 64.

Record VirtioMmioState := MkMmio {
  device_id : Z;
  device_features : Z;
  driver_features : Z;
  device_features_sel : Z;
  driver_features_sel : Z;
  queue_sel : Z;
  queue_num : list Z;
  queue_ready : list bool;
  queue_desc : list Z;
  queue_driver : list Z;
  queue_device : list Z;
  status : Z;
  interrupt_status : Z;
  config_generation : Z;
  shm_sel : Z;
  shm_regions : list (Z * Z);
  kicks : list Z;
  interrupts : Z
}.

#[export] Instance eta_VirtioMmioState : Eta VirtioMmioState := {|
  eta s := MkMmio (device_id s) (device_features s) (driver_features s) (device_features_sel s)
    (driver_features_sel s) (queue_sel s) (queue_num s) (queue_ready s) (queue_desc s)
    (queue_driver s) (queue_device s) (status s) (interrupt_status s) (config_generation s)
    (shm_sel s) (shm_regions s) (kicks s) (interrupts s);
  eta_ok := ltac:(by intros [])
|}.

(** [[v; MAX_VIRTQUEUES]]. *)
Definition per_queue {A} (v : A) : list A := replicate (Z.to_nat MAX_VIRTQUEUES) v.

Definition new_mmio (id features : Z) : VirtioMmioState :=
  MkMmio id features 0 0 0 0 (per_queue 0) (per_queue false) (per_queue 0) (per_queue 0)
    (per_queue 0) 0 0 0 0 [] (per_queue 0) 0.

(** [v[i]] of an array read inside its bounds. *)
Definition at_queue {A} (d : A) (v : list A) (i : Z) : A := nth (Z.to_nat i) v d.
Definition set_queue {A} (v : list A) (i : Z) (x : A) : list A := <[Z.to_nat i := x]> v.

Definition selected (s : VirtioMmioState) : bool := queue_sel s <? MAX_VIRTQUEUES.

(** The selected shared-memory region, [(0, 0)] out of range. *)
Definition shm_region (s : VirtioMmioState) : Z * Z :=
  default (0, 0) (shm_regions s !! Z.to_nat (shm_sel s)).

Definition high32 (x : Z) : Z := wrap32 (Z.shiftr x 32).

Create HintDb regs discriminated.
#[export] Hint Constants Opaque : regs.

Section registers.
Context `{MmioRegs}.

Definition mmio_read (s : VirtioMmioState) (offset : Z) : Z :=
  if offset =? MAGIC then MAGIC_VALUE
  else if offset =? REG_VERSION then VERSION
  else if offset =? DEVICE_ID then device_id s
  else if offset =? REG_VENDOR_ID then VENDOR_ID
  else if offset =? DEVICE_FEATURES then
    if device_features_sel s =? 0 then wrap32 (device_features s) else high32 (device_features s)
  else if offset =? QUEUE_NUM_MAX then if selected s then 1024 else 0
  else if offset =? QUEUE_READY then
    if selected s then (if at_queue false (queue_ready s) (queue_sel s) then 1 else 0) else 0
  else if offset =? INTERRUPT_STATUS then interrupt_status s
  else if offset =? STATUS then status s
  else if offset =? CONFIG_GENERATION then config_generation s
  else if offset =? 0x0ac then shm_sel s
  else if offset =? 0x0b0 then wrap32 (snd (shm_region s))
  else if offset =? 0x0b4 then high32 (snd (shm_region s))
  else if offset =? 0x0b8 then wrap32 (fst (shm_region s))
  else if offset =? 0x0bc then high32 (fst (shm_region s))
  else 0.

(** The reset a status of zero performs. *)
Definition reset_registers (s : VirtioMmioState) : VirtioMmioState :=
  s <| driver_features := 0 |> <| queue_sel := 0 |> <| queue_num := per_queue 0 |>
    <| queue_ready := per_queue false |> <| interrupt_status := 0 |>.

(** A write to the selected queue's entry of a per-queue register. *)
Definition on_selected (s s' : VirtioMmioState) : VirtioMmioState := if selected s then s' else s.

Definition mmio_write (s : VirtioMmioState) (offset value : Z) : VirtioMmioState :=
  let sel := queue_sel s in
  if offset =? DEVICE_FEATURES_SEL then s <| device_features_sel := value |>
  else if offset =? DRIVER_FEATURES then
    if driver_features_sel s =? 0 then s <| driver_features := set_low32 (driver_features s) value |>
    else s <| driver_features := set_high32 (driver_features s) value |>
  else if offset =? DRIVER_FEATURES_SEL then s <| driver_features_sel := value |>
  else if offset =? QUEUE_SEL then s <| queue_sel := value |>
  else if offset =? 0x0ac then s <| shm_sel := value |>
  else if offset =? QUEUE_NUM then
    on_selected s (s <| queue_num := set_queue (queue_num s) sel (wrap16 value) |>)
  else if offset =? QUEUE_READY then
    on_selected s (s <| queue_ready := set_queue (queue_ready s) sel (negb (value =? 0)) |>)
  else if offset =? QUEUE_NOTIFY then
    if value <? MAX_VIRTQUEUES then
      s <| kicks := set_queue (kicks s) value (wrap64 (at_queue 0 (kicks s) value + 1)) |>
    else s
  else if offset =? INTERRUPT_ACK then
    s <| interrupt_status := Z.land (interrupt_status s) (not32 value) |>
  else if offset =? STATUS then
    let s := s <| status := wrap8 value |> in
    if value =? 0 then reset_registers s else s
  else if offset =? QUEUE_DESC_LOW then
    on_selected s (s <| queue_desc := set_queue (queue_desc s) sel
      (set_low32 (at_queue 0 (queue_desc s) sel) value) |>)
  else if offset =? QUEUE_DESC_HIGH then
    on_selected s (s <| queue_desc := set_queue (queue_desc s) sel
      (set_high32 (at_queue 0 (queue_desc s) sel) value) |>)
  else if offset =? QUEUE_DRIVER_LOW then
    on_selected s (s <| queue_driver := set_queue (queue_driver s) sel
      (set_low32 (at_queue 0 (queue_driver s) sel) value) |>)
  else if offset =? QUEUE_DRIVER_HIGH then
    on_selected s (s <| queue_driver := set_queue (queue_driver s) sel
      (set_high32 (at_queue 0 (queue_driver s) sel) value) |>)
  else if offset =? QUEUE_DEVICE_LOW then
    on_selected s (s <| queue_device := set_queue (queue_device s) sel
      (set_low32 (at_queue 0 (queue_device s) sel) value) |>)
  else if offset =? QUEUE_DEVICE_HIGH then
    on_selected s (s <| queue_device := set_queue (queue_device s) sel
      (set_high32 (at_queue 0 (queue_device s) sel) value) |>)
  else s.

Definition trigger_interrupt (s : VirtioMmioState) (reason : Z) : VirtioMmioState :=
  s <| interrupt_status := Z.lor (interrupt_status s) reason |>
    <| interrupts := wrap64 (interrupts s + 1) |>.

(** ** Well-formed registers *)

(** Every register in its width, every per-queue array of its length. *)
Record mmio_ok (s : VirtioMmioState) : Prop := {
  mk_ids : in_u32 (device_id s) ∧ in_u64 (device_features s) ∧ in_u64 (driver_features s);
  mk_sels : in_u32 (device_features_sel s) ∧ in_u32 (driver_features_sel s) ∧
    in_u32 (queue_sel s) ∧ in_u32 (shm_sel s);
  mk_num : length (queue_num s) = 64%nat ∧ Forall in_u16 (queue_num s);
  mk_ready : length (queue_ready s) = 64%nat;
  mk_desc : length (queue_desc s) = 64%nat ∧ Forall in_u64 (queue_desc s);
  mk_driver : length (queue_driver s) = 64%nat ∧ Forall in_u64 (queue_driver s);
  mk_device : length (queue_device s) = 64%nat ∧ Forall in_u64 (queue_device s);
  mk_status : in_u8 (status s);
  mk_irq : in_u32 (interrupt_status s) ∧ in_u32 (config_generation s);
  mk_shm : Forall (λ r, in_u64 (fst r) ∧ in_u64 (snd r)) (shm_regions s);
  mk_kicks : length (kicks s) = 64%nat ∧ Forall in_u64 (kicks s);
  mk_interrupts : in_u64 (interrupts s)
}.

Lemma set_queue_length {A} (v : list A) i x : length (set_queue v i x) = length v.
Proof. apply length_insert. Qed.

Lemma set_queue_Forall {A} (P : A → Prop) v i x :
  Forall P v → P x → Forall P (set_queue v i x).
Proof. apply Forall_insert. Qed.

Lemma at_queue_u64 v i : Forall in_u64 v → in_u64 (at_queue 0 v i).
Proof.
  intros Hv. unfold at_queue. rewrite nth_lookup. destruct (v !! _) eqn:Hl; [|done].
  exact (Forall_lookup_1 _ _ _ _ Hv Hl).
Qed.

Lemma in_u16_0 : in_u16 0.
Proof. done. Qed.

Lemma in_u32_0 : in_u32 0.
Proof. done. Qed.

Lemma in_u64_0 : in_u64 0.
Proof. done. Qed.

Lemma per_queue_length {A} (v : A) : length (per_queue v) = 64%nat.
Proof. apply length_replicate. Qed.

Lemma per_queue_Forall {A} (P : A → Prop) v : P v → Forall P (per_queue v).
Proof. apply Forall_replicate. Qed.

Hint Resolve set_low32_range set_high32_range set_queue_Forall at_queue_u64 in_u32_wrap
  in_u64_wrap in_u16_wrap land_u32 lor_u32 in_u8_wrap
  in_u16_0 in_u32_0 in_u64_0  per_queue_length per_queue_Forall : regs.

Lemma new_mmio_ok id features : in_u32 id → in_u64 features → mmio_ok (new_mmio id features).
Proof. intros Hi Hf. split; try done; by split; [|apply per_queue_Forall]. Qed.

(** A field updated leaves the others: the shape of every write. *)
Ltac regs_split :=
  split; cbv [upd];
  cbn [device_id device_features driver_features device_features_sel driver_features_sel queue_sel
    queue_num queue_ready queue_desc queue_driver queue_device status interrupt_status
    config_generation shm_sel shm_regions kicks interrupts];
  repeat match goal with |- _ ∧ _ => split end; rewrite ?set_queue_length; eauto with regs.

Lemma reset_registers_ok s : mmio_ok s → mmio_ok (reset_registers s).
Proof.
  intros [(I1 & I2 & I3) (S1 & S2 & S3 & S4) N R D V E St Q Sh K Ni]. split; try done.
  - split; [done|]. apply (per_queue_Forall in_u16 0), in_u16_0.
  - by destruct Q.
Qed.

Lemma mmio_write_ok s offset value : mmio_ok s → in_u32 value → mmio_ok (mmio_write s offset value).
Proof.
  intros [(I1 & I2 & I3) (S1 & S2 & S3 & S4) [N1 N2] R [D1 D2] [V1 V2] [E1 E2] St [Q1 Q2] Sh [K1 K2] Ni] Hv.
  assert (0 ≤ not32 value) by (unfold not32, in_u32 in *; lia).
  unfold mmio_write, on_selected. repeat case_match;
    lazymatch goal with |- mmio_ok (reset_registers _) => apply reset_registers_ok | _ => idtac end; regs_split.
Qed.

Lemma trigger_interrupt_ok s reason : mmio_ok s → in_u32 reason → mmio_ok (trigger_interrupt s reason).
Proof.
  intros [(I1 & I2 & I3) (S1 & S2 & S3 & S4) [N1 N2] R [D1 D2] [V1 V2] [E1 E2] St [Q1 Q2] Sh [K1 K2] Ni] Hv.
  unfold trigger_interrupt. regs_split.
Qed.

Lemma at_queue_set_same {A} (d : A) v i x :
  length v = 64%nat → 0 ≤ i < MAX_VIRTQUEUES → at_queue d (set_queue v i x) i = x.
Proof.
  intros Hl Hi. unfold at_queue, set_queue. rewrite nth_lookup, list_lookup_insert_eq; [done|].
  unfold MAX_VIRTQUEUES in Hi. lia.
Qed.

Lemma at_queue_set_other {A} (d : A) v i j x :
  0 ≤ i → 0 ≤ j → i ≠ j → at_queue d (set_queue v i x) j = at_queue d v j.
Proof.
  intros Hi Hj Hne. unfold at_queue, set_queue. rewrite !nth_lookup, list_lookup_insert_ne; [done|lia].
Qed.
End registers.

(** ** Telling registers apart *)

Lemma nodup_ne {A} (l : list A) i j x y :
  NoDup l → l !! i = Some x → l !! j = Some y → i ≠ j → x ≠ y.
Proof. intros Hn Hi Hj Hne ->. by apply Hne, (NoDup_lookup l i j y). Qed.

Ltac index_of x l :=
  lazymatch l with
  | x :: _ => constr:(0%nat)
  | _ :: ?l' => let n := index_of x l' in constr:(S n)
  end.

(** [reg_simpl] decides the comparisons of two registers in the goal. *)
Ltac reg_simpl :=
  repeat match goal with
  | |- context [?A =? ?A] => rewrite (Z.eqb_refl A)
  | |- context [?A =? ?B] =>
      let l := eval unfold reg_offsets in reg_offsets in
      let i := index_of A l in
      let j := index_of B l in
      rewrite (proj2 (Z.eqb_neq A B)
        (nodup_ne reg_offsets i j A B regs_distinct eq_refl eq_refl ltac:(discriminate)))
  end.

Section writes.
Context `{MmioRegsOk}.

(** What the driver writes to set a queue up, in the order Linux does. *)
Definition queue_setup (q num desc driver device : Z) : list (Z * Z) :=
  [(QUEUE_SEL, q); (QUEUE_NUM, num);
   (QUEUE_DESC_LOW, wrap32 desc); (QUEUE_DESC_HIGH, high32 desc);
   (QUEUE_DRIVER_LOW, wrap32 driver); (QUEUE_DRIVER_HIGH, high32 driver);
   (QUEUE_DEVICE_LOW, wrap32 device); (QUEUE_DEVICE_HIGH, high32 device);
   (QUEUE_READY, 1)].

Definition mmio_writes (s : VirtioMmioState) (ws : list (Z * Z)) : VirtioMmioState :=
  foldl (λ s '(offset, value), mmio_write s offset value) s ws.

(** The registers of one queue. *)
Definition queue_regs (s : VirtioMmioState) (q : Z) : Z * bool * Z * Z * Z :=
  (at_queue 0 (queue_num s) q, at_queue false (queue_ready s) q, at_queue 0 (queue_desc s) q,
   at_queue 0 (queue_driver s) q, at_queue 0 (queue_device s) q).

Lemma halves_join x : in_u64 x → high32 x * u32_bound + wrap32 x = x.
Proof.
  intros Hx. unfold high32, wrap32. rewrite Z.shiftr_div_pow2 by lia.
  unfold in_u64, u64_bound, u32_bound in *.
  rewrite (Z.mod_small (x / _)); [pose proof (Z.div_mod x (2 ^ 32)); lia|].
  split; [apply Z.div_pos; lia|apply Z.div_lt_upper_bound; lia].
Qed.

(** One register at a time. *)
Lemma write_sel s v : mmio_write s QUEUE_SEL v = s <| queue_sel := v |>.
Proof. unfold mmio_write. by reg_simpl. Qed.

Ltac write_reg Hs := unfold mmio_write, on_selected; rewrite Hs; by reg_simpl.

Lemma write_num s v :
  selected s = true →
  mmio_write s QUEUE_NUM v = s <| queue_num := set_queue (queue_num s) (queue_sel s) (wrap16 v) |>.
Proof. intros Hs. write_reg Hs. Qed.

Lemma write_ready s v :
  selected s = true →
  mmio_write s QUEUE_READY v =
    s <| queue_ready := set_queue (queue_ready s) (queue_sel s) (negb (v =? 0)) |>.
Proof. intros Hs. set (b := negb (v =? 0)). write_reg Hs. Qed.

(** The two halves of an address register. *)
Definition set_address (v : list Z) (q x : Z) : list Z :=
  let v' := set_queue v q (set_low32 (at_queue 0 v q) (wrap32 x)) in
  set_queue v' q (set_high32 (at_queue 0 v' q) (high32 x)).

Lemma set_address_eq v q x :
  length v = 64%nat → Forall in_u64 v → 0 ≤ q < MAX_VIRTQUEUES → in_u64 x →
  set_address v q x = set_queue v q x.
Proof.
  intros Hl Hv Hq Hx. unfold set_address. rewrite at_queue_set_same by done.
  rewrite set_halves, halves_join by
    (done || (by apply at_queue_u64) || apply in_u32_wrap). unfold set_queue. apply list_insert_insert_eq.
Qed.

Lemma write_desc_low s v :
  selected s = true →
  mmio_write s QUEUE_DESC_LOW v =
    s <| queue_desc := set_queue (queue_desc s) (queue_sel s)
           (set_low32 (at_queue 0 (queue_desc s) (queue_sel s)) v) |>.
Proof. intros Hs. write_reg Hs. Qed.

Lemma write_desc_high s v :
  selected s = true →
  mmio_write s QUEUE_DESC_HIGH v =
    s <| queue_desc := set_queue (queue_desc s) (queue_sel s)
           (set_high32 (at_queue 0 (queue_desc s) (queue_sel s)) v) |>.
Proof. intros Hs. write_reg Hs. Qed.

Lemma write_driver_low s v :
  selected s = true →
  mmio_write s QUEUE_DRIVER_LOW v =
    s <| queue_driver := set_queue (queue_driver s) (queue_sel s)
           (set_low32 (at_queue 0 (queue_driver s) (queue_sel s)) v) |>.
Proof. intros Hs. write_reg Hs. Qed.

Lemma write_driver_high s v :
  selected s = true →
  mmio_write s QUEUE_DRIVER_HIGH v =
    s <| queue_driver := set_queue (queue_driver s) (queue_sel s)
           (set_high32 (at_queue 0 (queue_driver s) (queue_sel s)) v) |>.
Proof. intros Hs. write_reg Hs. Qed.

Lemma write_device_low s v :
  selected s = true →
  mmio_write s QUEUE_DEVICE_LOW v =
    s <| queue_device := set_queue (queue_device s) (queue_sel s)
           (set_low32 (at_queue 0 (queue_device s) (queue_sel s)) v) |>.
Proof. intros Hs. write_reg Hs. Qed.

Lemma write_device_high s v :
  selected s = true →
  mmio_write s QUEUE_DEVICE_HIGH v =
    s <| queue_device := set_queue (queue_device s) (queue_sel s)
           (set_high32 (at_queue 0 (queue_device s) (queue_sel s)) v) |>.
Proof. intros Hs. write_reg Hs. Qed.

Lemma write_desc s x :
  selected s = true →
  mmio_write (mmio_write s QUEUE_DESC_LOW (wrap32 x)) QUEUE_DESC_HIGH (high32 x) =
    s <| queue_desc := set_address (queue_desc s) (queue_sel s) x |>.
Proof. intros Hs. by rewrite write_desc_low, write_desc_high by exact Hs. Qed.

Lemma write_driver s x :
  selected s = true →
  mmio_write (mmio_write s QUEUE_DRIVER_LOW (wrap32 x)) QUEUE_DRIVER_HIGH (high32 x) =
    s <| queue_driver := set_address (queue_driver s) (queue_sel s) x |>.
Proof. intros Hs. by rewrite write_driver_low, write_driver_high by exact Hs. Qed.

Lemma write_device s x :
  selected s = true →
  mmio_write (mmio_write s QUEUE_DEVICE_LOW (wrap32 x)) QUEUE_DEVICE_HIGH (high32 x) =
    s <| queue_device := set_address (queue_device s) (queue_sel s) x |>.
Proof. intros Hs. by rewrite write_device_low, write_device_high by exact Hs. Qed.

(** The state after the whole set-up. *)
Lemma queue_setup_eq s q num desc driver device :
  mmio_ok s → 0 ≤ q < MAX_VIRTQUEUES → in_u16 num → in_u64 desc → in_u64 driver → in_u64 device →
  mmio_writes s (queue_setup q num desc driver device) =
    s <| queue_sel := q |>
      <| queue_num := set_queue (queue_num s) q num |>
      <| queue_desc := set_queue (queue_desc s) q desc |>
      <| queue_driver := set_queue (queue_driver s) q driver |>
      <| queue_device := set_queue (queue_device s) q device |>
      <| queue_ready := set_queue (queue_ready s) q true |>.
Proof.
  intros Hs Hq Hn Hd Ha Hu.
  assert ((q <? MAX_VIRTQUEUES) = true) as Hsel by (apply Z.ltb_lt; lia).
  destruct Hs as [_ _ [N1 _] R [D1 D2] [V1 V2] [E1 E2] _ _ _ _ _].
  unfold mmio_writes, queue_setup. cbn [foldl].
  rewrite write_sel, write_num, write_desc, write_driver, write_device, write_ready by exact Hsel.
  rewrite <- (set_address_eq (queue_desc s) q desc), <- (set_address_eq (queue_driver s) q driver),
    <- (set_address_eq (queue_device s) q device) by done.
  unfold wrap16. by rewrite (Z.mod_small num).
Qed.

(** The registers of the queue read back, and the interrupt status. *)
Lemma queue_setup_regs s q num desc driver device :
  mmio_ok s → 0 ≤ q < MAX_VIRTQUEUES → in_u16 num → in_u64 desc → in_u64 driver → in_u64 device →
  let s' := mmio_writes s (queue_setup q num desc driver device) in
  queue_regs s' q = (num, true, desc, driver, device) ∧ interrupt_status s' = interrupt_status s.
Proof.
  intros Hs Hq Hn Hd Ha Hu. cbv zeta. rewrite (queue_setup_eq s q num desc driver device) by done.
  destruct Hs as [_ _ [L1 _] L2 [L3 _] [L4 _] [L5 _] _ _ _ _ _]. split; [|done].
  change (queue_regs _ q) with
    (at_queue 0 (set_queue (queue_num s) q num) q, at_queue false (set_queue (queue_ready s) q true) q,
     at_queue 0 (set_queue (queue_desc s) q desc) q, at_queue 0 (set_queue (queue_driver s) q driver) q,
     at_queue 0 (set_queue (queue_device s) q device) q).
  by rewrite !at_queue_set_same.
Qed.
End writes.
