(* ===== verification/IrqChip.v ===== *)
(** * The interrupt chip

    [src/virt/arcbox-vmm/src/irq/]: allocation of interrupt lines, masking,
    coalescing of edge-triggered interrupts by count and by timer, and delivery
    through the callback into the hypervisor. The callback is not part of the
    chip: whether its [n]-th call succeeds is the oracle [cb_ok], and the calls
    made are kept in order. Atomics are read and written one operation at a
    time. *)

From Stdlib Require Import ZArith Lia.
From stdpp Require Import base numbers list gmap.
From S2P Require Import Prelude Bits.

Open Scope Z_scope.

Module Irq.

Definition MAX_IRQS : Z := 256.
Definition MAX_GSIS : Z := 24.

Inductive TriggerMode := Edge | Level.
#[export] Instance TriggerMode_eq_dec : EqDecision TriggerMode.
Proof. solve_decision. Defined.

Record IrqConfig := MkIrqConfig { gsi : Z; trigger_mode : TriggerMode; asserted : bool }.

(** The variants of [VmmError] the chip returns. *)
Inductive IrqError := IrqExhausted | IrqNotAllocated (irq : Z) | CallbackFailed.

(** ** Coalescing ([coalescing.rs]) *)

Record CoalescingConfig := MkCoalescing { max_delay : Z; max_coalesce_count : Z; enabled : bool }.

(** Durations are nanoseconds. *)
Definition for_net : CoalescingConfig := MkCoalescing 50000 64 true.
Definition for_block : CoalescingConfig := MkCoalescing 25000 32 true.
Definition for_fs : CoalescingConfig := MkCoalescing 50000 64 true.
Definition for_vsock : CoalescingConfig := MkCoalescing 100000 128 true.
Definition coalescing_default : CoalescingConfig := MkCoalescing 50000 64 true.
Definition disabled : CoalescingConfig := MkCoalescing 50000 64 false.

Record CoalescingState := MkCoalescingState {
  pending_count : Z;
  timer_armed : bool;
  last_armed : option Z;
  config : CoalescingConfig
}.

#[export] Instance eta_IrqConfig : Eta IrqConfig := {|
  eta c := MkIrqConfig (gsi c) (trigger_mode c) (asserted c);
  eta_ok := ltac:(by intros [])
|}.
#[export] Instance eta_CoalescingState : Eta CoalescingState := {|
  eta s := MkCoalescingState (pending_count s) (timer_armed s) (last_armed s) (config s);
  eta_ok := ltac:(by intros [])
|}.

Definition new_coalescing (c : CoalescingConfig) : CoalescingState := MkCoalescingState 0 false None c.

(** [record]: whether the count calls for delivery. *)
Definition record (s : CoalescingState) (now : Z) : bool * CoalescingState :=
  let count := pending_count s in
  let s := s <| pending_count := wrap32 (count + 1) |> in
  if max_coalesce_count (config s) <=? wrap32 (count + 1) then (true, s)
  else if count =? 0 then (false, s <| timer_armed := true |> <| last_armed := Some now |>)
  else (false, s).

Definition flush (s : CoalescingState) : Z * CoalescingState :=
  (pending_count s,
   s <| pending_count := 0 |> <| timer_armed := false |> <| last_armed := None |>).

(** [armed_at.elapsed()] saturates at zero. *)
Definition timer_expired (s : CoalescingState) (now : Z) : bool :=
  timer_armed s &&
  match last_armed s with
  | Some armed_at => max_delay (config s) <=? saturating_sub now armed_at
  | None => false
  end.

(** ** The chip ([chip.rs]) *)

Record IrqChip := MkChip {
  next_irq : Z;
  mask : Z;
  irq_configs : gmap Z IrqConfig;
  pending : Z;
  trigger_callback : bool;
  coalescing_states : gmap Z CoalescingState;
  triggered : Z;
  coalesced : Z;
  calls : list (Z * bool)
}.

#[export] Instance eta_IrqChip : Eta IrqChip := {|
  eta c := MkChip (next_irq c) (mask c) (irq_configs c) (pending c) (trigger_callback c)
    (coalescing_states c) (triggered c) (coalesced c) (calls c);
  eta_ok := ltac:(by intros [])
|}.

Definition new_chip : IrqChip := MkChip 32 0 ∅ 0 false ∅ 0 0 [].

Definition set_trigger_callback (c : IrqChip) : IrqChip := c <| trigger_callback := true |>.

Definition set_coalescing (c : IrqChip) (irq : Z) (cfg : CoalescingConfig) : IrqChip :=
  c <| coalescing_states := <[irq := new_coalescing cfg]> (coalescing_states c) |>.

Definition irq_bit (irq : Z) : Z := Z.shiftl 1 irq.

Definition allocate_irq_with_config (c : IrqChip) (g : Z) (mode : TriggerMode)
    : result IrqError Z * IrqChip :=
  let irq := next_irq c in
  let c := c <| next_irq := wrap32 (irq + 1) |> in
  if MAX_IRQS <=? irq then (Err IrqExhausted, c)
  else (Ok irq, c <| irq_configs := <[irq := MkIrqConfig g mode false]> (irq_configs c) |>).

Definition allocate_irq_inner (c : IrqChip) (mode : TriggerMode) : result IrqError Z * IrqChip :=
  let irq := next_irq c in
  let c := c <| next_irq := wrap32 (irq + 1) |> in
  if MAX_IRQS <=? irq then (Err IrqExhausted, c)
  else (Ok irq, c <| irq_configs := <[irq := MkIrqConfig irq mode false]> (irq_configs c) |>).

Definition allocate_irq (c : IrqChip) : result IrqError Z * IrqChip := allocate_irq_inner c Edge.
Definition allocate_level_irq (c : IrqChip) : result IrqError Z * IrqChip := allocate_irq_inner c Level.

Definition configure_irq (c : IrqChip) (irq g : Z) (mode : TriggerMode) : result IrqError unit * IrqChip :=
  match irq_configs c !! irq with
  | Some cfg =>
      (Ok (), c <| irq_configs := <[irq := cfg <| gsi := g |> <| trigger_mode := mode |>]> (irq_configs c) |>)
  | None => (Err (IrqNotAllocated irq), c)
  end.

Definition is_masked (c : IrqChip) (irq : Z) : bool :=
  (irq <? 32) && negb (Z.land (mask c) (irq_bit irq) =? 0).

Definition is_pending (c : IrqChip) (irq : Z) : bool :=
  (irq <? 32) && negb (Z.land (pending c) (irq_bit irq) =? 0).

Definition mask_irq (c : IrqChip) (irq : Z) : IrqChip :=
  if irq <? 32 then c <| mask := Z.lor (mask c) (irq_bit irq) |> else c.

Definition unmask_irq (c : IrqChip) (irq : Z) : IrqChip :=
  if irq <? 32 then c <| mask := Z.land (mask c) (not32 (irq_bit irq)) |> else c.

Definition ack_irq (c : IrqChip) (irq : Z) : IrqChip :=
  if irq <? 32 then c <| pending := Z.land (pending c) (not32 (irq_bit irq)) |> else c.

Definition get_gsi (c : IrqChip) (irq : Z) : option Z := gsi <$> irq_configs c !! irq.
Definition get_trigger_mode (c : IrqChip) (irq : Z) : option TriggerMode :=
  trigger_mode <$> irq_configs c !! irq.

Section delivery.
(** Whether the [n]-th call into the hypervisor succeeds. *)
Context (cb_ok : nat → bool).

Definition call (c : IrqChip) (g : Z) (level : bool) : bool * IrqChip :=
  (cb_ok (length (calls c)), c <| calls := calls c ++ [(g, level)] |>).

Definition set_asserted (c : IrqChip) (irq : Z) (level : bool) : IrqChip :=
  match irq_configs c !! irq with
  | Some cfg => c <| irq_configs := <[irq := cfg <| asserted := level |>]> (irq_configs c) |>
  | None => c
  end.

(** An edge-triggered line is pulsed. *)
Definition deliver_edge (c : IrqChip) (irq g : Z) : result IrqError unit * IrqChip :=
  let '(ok, c) := call c g true in
  if negb ok then (Err CallbackFailed, c)
  else
    let '(ok, c) := call c g false in
    if negb ok then (Err CallbackFailed, c)
    else (Ok (), c <| pending := Z.land (pending c) (not32 (irq_bit (irq mod 32))) |>).

(** A level-triggered one stays asserted. *)
Definition deliver_level (c : IrqChip) (irq g : Z) : result IrqError unit * IrqChip :=
  let '(ok, c) := call c g true in
  if negb ok then (Err CallbackFailed, c) else (Ok (), set_asserted c irq true).

Definition deliver_irq (c : IrqChip) (irq : Z) : result IrqError unit * IrqChip :=
  let '(g, mode) :=
    match irq_configs c !! irq with
    | Some cfg => (gsi cfg, trigger_mode cfg)
    | None => (irq mod MAX_GSIS, Edge)
    end in
  let c := c <| triggered := wrap64 (triggered c + 1) |> in
  if negb (trigger_callback c) then (Ok (), c)
  else
    match mode with
    | Edge => deliver_edge c irq g
    | Level => deliver_level c irq g
    end.

Definition flush_coalesced (c : IrqChip) (irq : Z) : result IrqError unit * IrqChip :=
  match coalescing_states c !! irq with
  | None => (Ok (), c)
  | Some state =>
      let '(count, state) := flush state in
      let c := c <| coalescing_states := <[irq := state]> (coalescing_states c) |> in
      if 0 <? count then
        deliver_irq (c <| coalesced := wrap64 (coalesced c + saturating_sub count 1) |>) irq
      else (Ok (), c)
  end.

(** The tail of [trigger_irq]: an edge-triggered line that is already pending is
    merged; the bitmap has no room for lines from 32 on. *)
Definition trigger_dedup (c : IrqChip) (irq : Z) : result IrqError unit * IrqChip :=
  if irq <? 32 then
    let old_pending := pending c in
    let c := c <| pending := Z.lor old_pending (irq_bit irq) |> in
    if negb (Z.land old_pending (irq_bit irq) =? 0) then
      (Ok (), c <| coalesced := wrap64 (coalesced c + 1) |>)
    else deliver_irq c irq
  else deliver_irq c irq.

(** The threshold of a window: [record], and [flush] once it is full. *)
Definition trigger_window (c : IrqChip) (irq : Z) (state : CoalescingState) (now : Z)
    : result IrqError unit * IrqChip :=
  let '(force, state) := record state now in
  let c := c <| coalescing_states := <[irq := state]> (coalescing_states c) |> in
  if negb force then (Ok (), c)
  else
    let '(flushed, state) := flush state in
    let c := c <| coalescing_states := <[irq := state]> (coalescing_states c) |> in
    deliver_irq
      (if 1 <? flushed then c <| coalesced := wrap64 (coalesced c + (flushed - 1)) |> else c) irq.

(** [trigger_irq], at time [now]. *)
Definition trigger_irq (c : IrqChip) (irq now : Z) : result IrqError unit * IrqChip :=
  if is_masked c irq then (Ok (), c)
  else
    match match irq_configs c !! irq with Some cfg => trigger_mode cfg | None => Edge end with
    | Level => deliver_irq c irq
    | Edge =>
        match coalescing_states c !! irq with
        | Some state => if enabled (config state) then trigger_window c irq state now else trigger_dedup c irq
        | None => trigger_dedup c irq
        end
    end.

Definition deassert_irq (c : IrqChip) (irq : Z) : result IrqError unit * IrqChip :=
  match irq_configs c !! irq with
  | None => (Ok (), c)
  | Some cfg =>
      match trigger_mode cfg with
      | Edge => (Ok (), c)
      | Level =>
          let '(ok, c) := if trigger_callback c then call c (gsi cfg) false else (true, c) in
          if negb ok then (Err CallbackFailed, c) else (Ok (), set_asserted c irq false)
      end
  end.
End delivery.

Definition reset_stats (c : IrqChip) : IrqChip := c <| triggered := 0 |> <| coalesced := 0 |>.

(** ** Interrupts that wait *)

(** A window is open exactly while interrupts wait in it, and never holds as
    many as force a delivery. *)
Record window_ok (s : CoalescingState) : Prop := {
  wo_count : 0 ≤ pending_count s;
  wo_bound : pending_count s = 0 ∨ pending_count s < max_coalesce_count (config s);
  wo_config : in_u32 (max_coalesce_count (config s));
  wo_armed : timer_armed s = bool_decide (0 < pending_count s);
  wo_since : is_Some (last_armed s) ↔ 0 < pending_count s
}.

Definition windows_ok (c : IrqChip) : Prop := map_Forall (λ _, window_ok) (coalescing_states c).

(** The interrupts waiting in some window. *)
Definition waiting_in (m : gmap Z CoalescingState) : Z :=
  map_fold (λ _ s n, pending_count s + n) 0 m.

Definition waiting (c : IrqChip) : Z := waiting_in (coalescing_states c).

(** Delivered, merged into a delivery, or waiting. *)
Definition accounted (c : IrqChip) : Z := triggered c + coalesced c + waiting c.

Lemma waiting_delete m irq s :
  m !! irq = Some s → waiting_in m = pending_count s + waiting_in (delete irq m).
Proof.
  intros Hm. unfold waiting_in. rewrite (map_fold_delete_L _ _ irq s m); [done| |done].
  intros. lia.
Qed.

Lemma waiting_insert m irq s s' :
  m !! irq = Some s → waiting_in (<[irq := s']> m) = waiting_in m - pending_count s + pending_count s'.
Proof.
  intros Hm. rewrite (waiting_delete (<[irq := s']> m) irq s') by apply lookup_insert_eq.
  rewrite delete_insert_eq, (waiting_delete m irq s) by done. lia.
Qed.

Lemma waiting_insert_new m irq s :
  m !! irq = None → waiting_in (<[irq := s]> m) = waiting_in m + pending_count s.
Proof.
  intros Hm. rewrite (waiting_delete (<[irq := s]> m) irq s) by apply lookup_insert_eq.
  rewrite delete_insert_id by done. lia.
Qed.

Lemma new_window_ok cfg : in_u32 (max_coalesce_count cfg) → window_ok (new_coalescing cfg).
Proof. intros Hc. split; simpl; [lia|by left|done|done|]. split; [by intros [? ?]|lia]. Qed.

Lemma record_ok s now :
  window_ok s →
  let '(force, s') := record s now in
  pending_count s' = pending_count s + 1 ∧ config s' = config s ∧ (force = false → window_ok s').
Proof.
  intros [H1 H2 H3 H4 H5]. unfold record, in_u32 in *.
  change (config (s <| pending_count := ?x |>)) with (config s).
  assert (wrap32 (pending_count s + 1) = pending_count s + 1) as ->.
  { apply Z.mod_small. unfold u32_bound in *. destruct H2; lia. }
  destruct (Z.leb_spec (max_coalesce_count (config s)) (pending_count s + 1)) as [Hf|Hf]; [done|].
  destruct (Z.eqb_spec (pending_count s) 0) as [Hz|Hz]; cbv [upd]; cbn [pending_count config];
    (split; [done|split; [done|]]); intros _; split; cbn [pending_count config timer_armed last_armed];
    try done; try lia.
  - symmetry. apply bool_decide_eq_true. lia.
  - split; [lia|done].
  - rewrite H4. apply bool_decide_ext. lia.
  - rewrite H5. lia.
Qed.

Lemma flush_ok s : window_ok s → window_ok (snd (flush s)).
Proof.
  intros [H1 H2 H3 H4 H5]. split; try done; [by left|]. simpl.
  split; [by intros [? ?]|intros Hlt; change (0 < 0) in Hlt; lia].
Qed.

Lemma windows_insert c irq s :
  windows_ok c → window_ok s →
  windows_ok (c <| coalescing_states := <[irq := s]> (coalescing_states c) |>).
Proof. intros Hw Hs. by apply map_Forall_insert_2. Qed.

(** ** Delivery counts once *)

Lemma set_asserted_stats c irq level :
  let c' := set_asserted c irq level in
  triggered c' = triggered c ∧ coalesced c' = coalesced c ∧ coalescing_states c' = coalescing_states c.
Proof. unfold set_asserted. by destruct (irq_configs c !! irq). Qed.

Lemma deliver_stats cb_ok c irq :
  let c' := snd (deliver_irq cb_ok c irq) in
  triggered c' = wrap64 (triggered c + 1) ∧ coalesced c' = coalesced c ∧
  coalescing_states c' = coalescing_states c ∧ mask c' = mask c.
Proof.
  assert (∀ c g, let c' := snd (deliver_edge cb_ok c irq g) in
    triggered c' = triggered c ∧ coalesced c' = coalesced c ∧
    coalescing_states c' = coalescing_states c ∧ mask c' = mask c) as Hedge.
  { intros c0 g. unfold deliver_edge. cbn [call]. destruct (cb_ok _); [|done]. simpl.
    destruct (cb_ok _); done. }
  unfold deliver_irq. destruct (irq_configs c !! irq) as [cfg|] eqn:Hc.
  - destruct (trigger_callback _); [|done]. destruct (trigger_mode cfg); [match goal with |- context [deliver_edge cb_ok ?x irq ?g] => exact (Hedge x g) end|].
    unfold deliver_level. cbn [call]. destruct (cb_ok _); [|done]. simpl.
    unfold set_asserted. simpl. by destruct (_ !! irq).
  - destruct (trigger_callback _); [|done].
    match goal with |- context [deliver_edge cb_ok ?x irq ?g] => exact (Hedge x g) end.
Qed.

(** Equal counts, up to the wrap of the 64-bit counters. *)
Definition same64 (a b : Z) : Prop := wrap64 a = wrap64 b.

Lemma same64_wrap a b : same64 (wrap64 a + b) (a + b).
Proof. unfold same64, wrap64. by rewrite Zplus_mod_idemp_l. Qed.

Lemma same64_trans a b c : same64 a b → same64 b c → same64 a c.
Proof. unfold same64. congruence. Qed.

Lemma same64_add a b c : same64 a b → same64 (a + c) (b + c).
Proof.
  unfold same64, wrap64. intros Hs. by rewrite <- (Zplus_mod_idemp_l a), Hs, Zplus_mod_idemp_l.
Qed.

Lemma deliver_accounted cb_ok c irq : same64 (accounted (snd (deliver_irq cb_ok c irq))) (accounted c + 1).
Proof.
  destruct (deliver_stats cb_ok c irq) as (Ht & Hc & Hs & _).
  unfold accounted, waiting. rewrite Ht, Hc, Hs, <- Z.add_assoc.
  eapply same64_trans; [apply same64_wrap|]. unfold same64. f_equal. lia.
Qed.

Lemma deliver_windows cb_ok c irq : windows_ok c → windows_ok (snd (deliver_irq cb_ok c irq)).
Proof. destruct (deliver_stats cb_ok c irq) as (_ & _ & Hs & _). unfold windows_ok. by rewrite Hs. Qed.

(** Adding to the merged count. *)
Lemma coalesced_accounted c n :
  same64 (accounted (c <| coalesced := wrap64 (coalesced c + n) |>)) (accounted c + n).
Proof.
  unfold accounted, waiting. change (coalesced (c <| coalesced := ?x |>)) with x.
  change (triggered (c <| coalesced := ?x |>)) with (triggered c).
  change (coalescing_states (c <| coalesced := ?x |>)) with (coalescing_states c).
  replace (triggered c + wrap64 (coalesced c + n) + waiting_in (coalescing_states c))
    with (wrap64 (coalesced c + n) + (triggered c + waiting_in (coalescing_states c))) by lia.
  eapply same64_trans; [apply same64_wrap|]. unfold same64. f_equal. lia.
Qed.

(** A window replaced by one with another count. *)
Lemma window_accounted c irq s s' :
  coalescing_states c !! irq = Some s →
  accounted (c <| coalescing_states := <[irq := s']> (coalescing_states c) |>) =
    accounted c - pending_count s + pending_count s'.
Proof.
  intros Hs. unfold accounted, waiting.
  change (coalescing_states (c <| coalescing_states := ?x |>)) with x.
  rewrite (waiting_insert _ irq s s' Hs).
  change (triggered (c <| coalescing_states := ?x |>)) with (triggered c).
  change (coalesced (c <| coalescing_states := ?x |>)) with (coalesced c). lia.
Qed.

Lemma dedup_accounted cb_ok c irq :
  windows_ok c →
  let c' := snd (trigger_dedup cb_ok c irq) in
  windows_ok c' ∧ same64 (accounted c') (accounted c + 1).
Proof.
  intros Hw. unfold trigger_dedup.
  destruct (irq <? 32); [|split; [by apply deliver_windows|apply deliver_accounted]].
  set (c1 := c <| pending := _ |>). assert (accounted c = accounted c1) as -> by done.
  destruct (negb _); [split; [done|apply coalesced_accounted]|].
  split; [by apply deliver_windows|apply deliver_accounted].
Qed.

Lemma window_replace c irq s s' :
  windows_ok c → coalescing_states c !! irq = Some s → window_ok s' →
  let c' := c <| coalescing_states := <[irq := s']> (coalescing_states c) |> in
  windows_ok c' ∧ accounted c' = accounted c - pending_count s + pending_count s'.
Proof. intros Hw Hs Hs'. split; [by apply windows_insert|by apply window_accounted]. Qed.

Lemma trigger_window_accounted cb_ok c irq s now :
  windows_ok c → coalescing_states c !! irq = Some s →
  let c' := snd (trigger_window cb_ok c irq s now) in
  windows_ok c' ∧ same64 (accounted c') (accounted c + 1).
Proof.
  intros Hw Hs. unfold trigger_window. pose proof (Hw irq s Hs) as Hok.
  pose proof (record_ok s now Hok) as Hr. destruct (record s now) as [force s1].
  destruct Hr as (Hp1 & Hc1 & Hok1). destruct force; cbn [negb].
  2: { destruct (window_replace c irq s s1 Hw Hs (Hok1 eq_refl)) as [Hw' Ha]. split; [done|].
       cbn [snd]. rewrite Ha. unfold same64. f_equal. lia. }
  cbn [flush]. set (s2 := s1 <| pending_count := 0 |> <| timer_armed := false |> <| last_armed := None |>).
  assert (window_ok s2) as Hs2.
  { destruct Hok as [H1 H2 H3 H4 H5]. split; try done; [by left|by rewrite <- Hc1 in H3|].
    split; [by intros [? ?]|intros Hlt; change (0 < 0) in Hlt; lia]. }
  set (c1 := c <| coalescing_states := <[irq := s1]> (coalescing_states c) |>).
  set (c2 := c1 <| coalescing_states := <[irq := s2]> (coalescing_states c1) |>).
  assert (c2 = c <| coalescing_states := <[irq := s2]> (coalescing_states c) |>) as Hc2.
  { unfold c2, c1. cbv [upd]. cbn. f_equal. apply insert_insert_eq. }
  destruct (window_replace c irq s s2 Hw Hs Hs2) as [Hw2 Ha2]. rewrite <- Hc2 in Hw2, Ha2.
  change (pending_count s2) with 0 in Ha2. pose proof (wo_count _ Hok).
  destruct (Z.ltb_spec 1 (pending_count s1)).
  - split; [by apply deliver_windows|]. eapply same64_trans; [apply deliver_accounted|].
    eapply same64_trans; [apply same64_add, coalesced_accounted|]. unfold same64. f_equal. lia.
  - split; [by apply deliver_windows|]. eapply same64_trans; [apply deliver_accounted|].
    unfold same64. f_equal. lia.
Qed.

Lemma trigger_accounted cb_ok c irq now :
  windows_ok c →
  let c' := snd (trigger_irq cb_ok c irq now) in
  windows_ok c' ∧ same64 (accounted c') (accounted c + if is_masked c irq then 0 else 1).
Proof.
  intros Hw. unfold trigger_irq. destruct (is_masked c irq).
  { split; [done|]. unfold same64. f_equal. simpl. lia. }
  destruct (match irq_configs c !! irq with Some cfg => trigger_mode cfg | None => Edge end).
  - destruct (coalescing_states c !! irq) as [s|] eqn:Hs; [|by apply dedup_accounted].
    destruct (enabled (config s)); [by apply trigger_window_accounted|by apply dedup_accounted].
  - split; [by apply deliver_windows|apply deliver_accounted].
Qed.

Lemma flush_accounted cb_ok c irq :
  windows_ok c →
  let c' := snd (flush_coalesced cb_ok c irq) in
  windows_ok c' ∧ same64 (accounted c') (accounted c) ∧
  (∀ s, coalescing_states c' !! irq = Some s → pending_count s = 0).
Proof.
  intros Hw. unfold flush_coalesced. destruct (coalescing_states c !! irq) as [s|] eqn:Hs.
  2: { split; [done|]. split; [done|]. simpl. by rewrite Hs. }
  pose proof (Hw irq s Hs) as Hok. pose proof (flush_ok s Hok) as Hok'. cbn [flush] in *.
  set (s' := s <| pending_count := 0 |> <| timer_armed := false |> <| last_armed := None |>) in *.
  destruct (window_replace c irq s s' Hw Hs Hok') as [Hw1 Ha1].
  set (c1 := c <| coalescing_states := <[irq := s']> (coalescing_states c) |>) in *.
  assert (∀ s0, coalescing_states c1 !! irq = Some s0 → pending_count s0 = 0) as Hz.
  { intros s0 Hl. unfold c1 in Hl. change (<[irq := s']> (coalescing_states c) !! irq = Some s0) in Hl.
    rewrite lookup_insert_eq in Hl. by injection Hl as <-. }
  change (pending_count s') with 0 in Ha1. destruct (Z.ltb_spec 0 (pending_count s)).
  - split; [by apply deliver_windows|]. split.
    + eapply same64_trans; [apply deliver_accounted|].
      eapply same64_trans; [apply same64_add, coalesced_accounted|].
      unfold same64, saturating_sub. f_equal. lia.
    + intros s0. match goal with |- context [deliver_irq cb_ok ?x irq] =>
        destruct (deliver_stats cb_ok x irq) as (_ & _ & -> & _) end. apply Hz.
  - split; [done|]. split; [|done]. cbn [snd]. rewrite Ha1. unfold same64. f_equal.
    pose proof (wo_count _ Hok). lia.
Qed.

(** ** The lines of the hypervisor *)

(** The level a GSI was last driven to. *)
Definition line (c : IrqChip) (g : Z) : bool :=
  match last (filter (λ p : Z * bool, fst p = g) (calls c)) with
  | Some (_, level) => level
  | None => false
  end.

Lemma line_call c c' g level g' :
  calls c' = calls c ++ [(g, level)] → line c' g' = if g =? g' then level else line c g'.
Proof.
  intros Hc. unfold line. rewrite Hc, filter_app. destruct (Z.eqb_spec g g') as [->|Hne].
  - rewrite (filter_cons_True _ (g', level) []) by done. by rewrite filter_nil, last_snoc.
  - rewrite (filter_cons_False _ (g, level) []) by done. by rewrite filter_nil, app_nil_r.
Qed.

(** The configuration of a line [allocate_level_irq] hands out. *)
Definition level_line (c : IrqChip) (irq : Z) : Prop :=
  32 ≤ irq ∧ trigger_callback c = true ∧
  ∃ cfg, irq_configs c !! irq = Some cfg ∧ trigger_mode cfg = Level ∧ gsi cfg = irq.

(** What a call may change: one line's level, and the chip's note of it. *)
Record same_lines (irq : Z) (level : bool) (c c' : IrqChip) : Prop := {
  sl_calls : calls c' = calls c ++ [(irq, level)];
  sl_callback : trigger_callback c' = trigger_callback c;
  sl_next : next_irq c' = next_irq c;
  sl_configs : ∀ i cfg, irq_configs c !! i = Some cfg →
    ∃ cfg', irq_configs c' !! i = Some cfg' ∧ gsi cfg' = gsi cfg ∧ trigger_mode cfg' = trigger_mode cfg
}.

Lemma set_asserted_same c irq level i cfg :
  irq_configs c !! i = Some cfg →
  ∃ cfg', irq_configs (set_asserted c irq level) !! i = Some cfg' ∧ gsi cfg' = gsi cfg ∧
    trigger_mode cfg' = trigger_mode cfg.
Proof.
  intros Hi. unfold set_asserted. destruct (irq_configs c !! irq) as [cfg0|] eqn:Hc; [|eauto].
  change (irq_configs (c <| irq_configs := ?x |>)) with x.
  destruct (decide (i = irq)) as [->|Hne].
  - rewrite lookup_insert_eq. simplify_eq. eexists. split; [done|]. done.
  - rewrite lookup_insert_ne by done. eauto.
Qed.

Lemma set_asserted_fields c irq level :
  calls (set_asserted c irq level) = calls c ∧
  trigger_callback (set_asserted c irq level) = trigger_callback c ∧
  next_irq (set_asserted c irq level) = next_irq c.
Proof. unfold set_asserted. by destruct (irq_configs c !! irq). Qed.

Lemma trigger_level cb_ok c irq now :
  level_line c irq → same_lines irq true c (snd (trigger_irq cb_ok c irq now)).
Proof.
  intros (H32 & Hcb & cfg & Hc & Hm & Hg). unfold trigger_irq, is_masked.
  rewrite (proj2 (Z.ltb_ge _ _)) by lia. cbn [andb]. rewrite Hc, Hm.
  unfold deliver_irq, deliver_level. rewrite Hc, Hm, Hg.
  change (trigger_callback (c <| triggered := ?x |>)) with (trigger_callback c). rewrite Hcb. cbn [negb call].
  set (c1 := c <| triggered := _ |>). set (c2 := c1 <| calls := _ |>).
  destruct (cb_ok _); cbn [negb snd]; [|by split; eauto].
  destruct (set_asserted_fields c2 irq true) as (F1 & F2 & F3).
  split; [by rewrite F1|by rewrite F2|by rewrite F3|]. intros i cfg' Hi. by apply set_asserted_same.
Qed.

Lemma deassert_level cb_ok c irq :
  level_line c irq → same_lines irq false c (snd (deassert_irq cb_ok c irq)).
Proof.
  intros (H32 & Hcb & cfg & Hc & Hm & Hg). unfold deassert_irq. rewrite Hc, Hm, Hcb, Hg. cbn [call].
  set (c2 := c <| calls := _ |>).
  destruct (cb_ok _); cbn [negb snd]; [|by split; eauto].
  destruct (set_asserted_fields c2 irq false) as (F1 & F2 & F3).
  split; [by rewrite F1|by rewrite F2|by rewrite F3|]. intros i cfg' Hi. by apply set_asserted_same.
Qed.

Lemma same_lines_level irq level c c' i :
  same_lines irq level c c' → level_line c i → level_line c' i.
Proof.
  intros [S1 S2 S3 S4] (H32 & Hcb & cfg & Hc & Hm & Hg). split; [done|]. split; [by rewrite S2|].
  destruct (S4 i cfg Hc) as (cfg' & Hc' & Hg' & Hm'). exists cfg'. by rewrite Hg', Hm'.
Qed.

(** A delivery starts by driving the line. *)
Lemma deliver_calls cb_ok c irq :
  trigger_callback c = true →
  ∃ rest, calls (snd (deliver_irq cb_ok c irq)) =
    calls c ++ (default (irq mod MAX_GSIS) (get_gsi c irq), true) :: rest.
Proof.
  assert (∀ c g, ∃ rest, calls (snd (deliver_edge cb_ok c irq g)) = calls c ++ (g, true) :: rest) as Hedge.
  { intros c0 g. unfold deliver_edge. cbn [call].
    destruct (cb_ok _); cbn [negb snd call]; [|by exists []]. exists [(g, false)].
    destruct (cb_ok _); cbn [negb snd]; symmetry; apply (assoc_L (++) (calls c0) [_]). }
  intros Hcb. unfold deliver_irq, get_gsi.
  change (trigger_callback (c <| triggered := ?x |>)) with (trigger_callback c). rewrite Hcb. cbn [negb].
  set (c1 := c <| triggered := _ |>). change (calls c) with (calls c1).
  destruct (irq_configs c !! irq) as [cfg|]; cbn [fmap option_fmap option_map default]; [|apply Hedge].
  destruct (trigger_mode cfg); [apply Hedge|]. unfold deliver_level. cbn [call].
  destruct (cb_ok _); cbn [negb snd]; [|by exists []].
  match goal with |- context [set_asserted ?x irq true] =>
    destruct (set_asserted_fields x irq true) as (-> & _) end. by exists [].
Qed.

(** ** Sequences of operations *)

Inductive IrqOp :=
| OpCallback
| OpTrigger (irq now : Z)
| OpFlush (irq : Z)
| OpDeassert (irq : Z)
| OpAck (irq : Z)
| OpMask (irq : Z)
| OpUnmask (irq : Z)
| OpAllocate (mode : TriggerMode)
| OpConfigure (irq g : Z) (mode : TriggerMode)
| OpCoalesce (irq : Z) (cfg : CoalescingConfig).

Definition chip_step (cb_ok : nat → bool) (c : IrqChip) (op : IrqOp) : IrqChip :=
  match op with
  | OpCallback => set_trigger_callback c
  | OpTrigger irq now => snd (trigger_irq cb_ok c irq now)
  | OpFlush irq => snd (flush_coalesced cb_ok c irq)
  | OpDeassert irq => snd (deassert_irq cb_ok c irq)
  | OpAck irq => ack_irq c irq
  | OpMask irq => mask_irq c irq
  | OpUnmask irq => unmask_irq c irq
  | OpAllocate mode => snd (allocate_irq_inner c mode)
  | OpConfigure irq g mode => snd (configure_irq c irq g mode)
  | OpCoalesce irq cfg => set_coalescing c irq cfg
  end.

(** A trigger of a line that is not masked. *)
Definition raised (c : IrqChip) (op : IrqOp) : Z :=
  match op with
  | OpTrigger irq _ => if is_masked c irq then 0 else 1
  | _ => 0
  end.

(** A window is only replaced when nothing waits in it. *)
Definition chip_op_ok (c : IrqChip) (op : IrqOp) : Prop :=
  match op with
  | OpCoalesce irq cfg =>
      in_u32 (max_coalesce_count cfg) ∧
      ∀ s, coalescing_states c !! irq = Some s → pending_count s = 0
  | _ => True
  end.

Fixpoint chip_run (cb_ok : nat → bool) (c : IrqChip) (ops : list IrqOp) : IrqChip * Z :=
  match ops with
  | [] => (c, 0)
  | op :: ops =>
      let '(c', n) := chip_run cb_ok (chip_step cb_ok c op) ops in
      (c', raised c op + n)
  end.

Fixpoint chip_ops_ok (cb_ok : nat → bool) (c : IrqChip) (ops : list IrqOp) : Prop :=
  match ops with
  | [] => True
  | op :: ops => chip_op_ok c op ∧ chip_ops_ok cb_ok (chip_step cb_ok c op) ops
  end.

Lemma deassert_stats cb_ok c irq :
  let c' := snd (deassert_irq cb_ok c irq) in
  triggered c' = triggered c ∧ coalesced c' = coalesced c ∧ coalescing_states c' = coalescing_states c.
Proof.
  unfold deassert_irq. destruct (irq_configs c !! irq) as [cfg|] eqn:Hc; [|done].
  destruct (trigger_mode cfg); [done|]. destruct (trigger_callback c); cbn [call].
  - destruct (cb_ok _); cbn [negb snd]; [|done]. unfold set_asserted.
    by destruct (irq_configs (c <| calls := _ |>) !! irq).
  - cbn [negb snd]. unfold set_asserted. by rewrite Hc.
Qed.

Lemma chip_step_accounted cb_ok c op :
  windows_ok c → chip_op_ok c op →
  let c' := chip_step cb_ok c op in
  windows_ok c' ∧ same64 (accounted c') (accounted c + raised c op).
Proof.
  intros Hw Hok. destruct op as [|irq now|irq|irq|irq|irq|irq|mode|irq g mode|irq cfg];
    cbn [chip_step raised]; rewrite ?Z.add_0_r.
  - done.
  - by apply trigger_accounted.
  - by destruct (flush_accounted cb_ok c irq Hw) as (? & ? & _).
  - destruct (deassert_stats cb_ok c irq) as (Ht & Hc & Hs).
    unfold windows_ok, accounted, waiting, same64. by rewrite Ht, Hc, Hs.
  - unfold ack_irq. by destruct (irq <? 32).
  - unfold mask_irq. by destruct (irq <? 32).
  - unfold unmask_irq. by destruct (irq <? 32).
  - unfold allocate_irq_inner. by destruct (MAX_IRQS <=? next_irq c).
  - unfold configure_irq. by destruct (irq_configs c !! irq).
  - destruct Hok as [Hcfg Hz]. unfold set_coalescing. pose proof (new_window_ok cfg Hcfg) as Hn.
    split; [by apply windows_insert|]. destruct (coalescing_states c !! irq) as [s|] eqn:Hs.
    + rewrite (window_accounted c irq s _ Hs), (Hz s eq_refl). unfold same64. f_equal. simpl. lia.
    + unfold accounted, waiting, same64. f_equal.
      change (coalescing_states (c <| coalescing_states := ?x |>)) with x.
      rewrite waiting_insert_new by done. simpl.
      change (triggered (c <| coalescing_states := ?x |>)) with (triggered c).
      change (coalesced (c <| coalescing_states := ?x |>)) with (coalesced c). lia.
Qed.

Lemma chip_run_accounted cb_ok c ops :
  windows_ok c → chip_ops_ok cb_ok c ops →
  let '(c', n) := chip_run cb_ok c ops in
  windows_ok c' ∧ same64 (accounted c') (accounted c + n).
Proof.
  revert c. induction ops as [|op ops IH]; intros c Hw Hok; cbn [chip_run].
  { split; [done|]. unfold same64. f_equal. lia. }
  destruct Hok as [Hop Hok]. destruct (chip_step_accounted cb_ok c op Hw Hop) as [Hw1 Ha1].
  specialize (IH _ Hw1 Hok). destruct (chip_run cb_ok _ ops) as [c' n]. destruct IH as [Hw' Ha'].
  split; [done|]. eapply same64_trans; [done|]. rewrite Z.add_assoc. by apply same64_add.
Qed.

(** ** Claims *)


Definition ex_coalesced_ops : list IrqOp :=
  [OpCallback; OpAllocate Edge; OpCoalesce 32 (MkCoalescing 50000 3 true); OpTrigger 32 0; OpTrigger 32 10;
   OpTrigger 32 20; OpTrigger 32 30; OpMask 5; OpTrigger 5 40].


(** (liveness) An interrupt that waits is delivered once its delay is over:
    the window it waits in is armed, expires, and flushing it drives the line
    and leaves nothing behind. *)
Theorem waiting_interrupts_expire cb_ok c irq s :
  windows_ok c → trigger_callback c = true →
  coalescing_states c !! irq = Some s → 0 < pending_count s →
  ∃ armed_at rest,
    last_armed s = Some armed_at ∧
    (∀ now, armed_at + max_delay (config s) ≤ now → 0 ≤ max_delay (config s) → timer_expired s now = true) ∧
    calls (snd (flush_coalesced cb_ok c irq)) =
      calls c ++ (default (irq mod MAX_GSIS) (get_gsi c irq), true) :: rest ∧
    (∀ s', coalescing_states (snd (flush_coalesced cb_ok c irq)) !! irq = Some s' → pending_count s' = 0).
Proof.
  intros Hw Hcb Hs Hp. destruct (Hw irq s Hs) as [H1 H2 H3 H4 H5].
  destruct (proj2 H5 Hp) as [t Ht].
  assert (∃ rest, calls (snd (flush_coalesced cb_ok c irq)) =
    calls c ++ (default (irq mod MAX_GSIS) (get_gsi c irq), true) :: rest) as [rest Hrest].
  { unfold flush_coalesced. rewrite Hs. cbn [flush]. rewrite (proj2 (Z.ltb_lt _ _) Hp).
    match goal with |- context [deliver_irq cb_ok ?x irq] => exact (deliver_calls cb_ok x irq Hcb) end. }
  exists t, rest. split; [done|]. split; [|split; [done|]].
  - intros now Hnow Hd. unfold timer_expired. rewrite H4, Ht, bool_decide_eq_true_2 by done. simpl.
    apply Z.leb_le. unfold saturating_sub. lia.
  - by destruct (flush_accounted cb_ok c irq Hw) as (_ & _ & ?).
Qed.

Lemma waiting_interrupts_expire_witness :
  let c := fst (chip_run (λ _, true) new_chip ex_coalesced_ops) in
  ∃ rest, calls (snd (flush_coalesced (λ _, true) c 32)) = calls c ++ (32, true) :: rest.
Proof.
  set (c := fst (chip_run (λ _, true) new_chip ex_coalesced_ops)).
  assert (windows_ok c) as Hw.
  { assert (chip_ops_ok (λ _, true) new_chip ex_coalesced_ops) as Hok.
    { split; [done|]. split; [done|].
      split; [split; [done|intros s Hs; vm_compute in Hs; discriminate Hs]|by repeat split]. }
    pose proof (chip_run_accounted (λ _, true) new_chip ex_coalesced_ops (map_Forall_empty _) Hok) as Hr.
    unfold c. destruct (chip_run _ _ _). by destruct Hr. }
  destruct (waiting_interrupts_expire (λ _, true) c 32
    (MkCoalescingState 1 true (Some 30) (MkCoalescing 50000 3 true))) as (t & rest & _ & _ & Hc & _).
  - exact Hw.
  - by vm_compute.
  - by vm_compute.
  - by vm_compute.
  - exists rest. exact Hc.
Defined.
End Irq.
