(* ===== verification/VmmMemory.v ===== *)
(** * Guest address space

    [src/virt/arcbox-vmm/src/memory.rs]: the table of guest memory regions and
    the allocator of MMIO slots. Addresses are [u64] and [+] wraps, as in a
    release build. *)

From Stdlib Require Import ZArith Lia.
From stdpp Require Import base numbers list strings.
From S2P Require Import Prelude Bits BTree.

Open Scope Z_scope.

Module Mem.

Inductive MemoryRegionType := Ram | Rom | Mmio | Reserved.

Record MemoryRegionInfo := MkRegion {
  guest_addr : Z;
  region_len : Z;
  region_type : MemoryRegionType;
  region_name : string;
  host_addr : option Z
}.

(** [arcbox_hypervisor::MemoryRegion]. *)
Record MemoryRegion := MkMemoryRegion {
  mr_guest_addr : Z;
  mr_size : Z;
  mr_host_addr : option Z;
  mr_read_only : bool
}.

Record MmioAllocator := MkAllocator { alloc_base : Z; alloc_size : Z; alloc_next : Z }.

Record MemoryManager := MkManager {
  regions : list (Z * MemoryRegionInfo);
  total_ram : Z;
  mmio_allocator : MmioAllocator;
  initialized : bool
}.

(** The variants of [VmmError::Memory]. *)
Inductive MemError := AlreadyInitialized | MmioExhausted | Overlaps (addr : Z) (existing : string).

#[export] Instance eta_MmioAllocator : Eta MmioAllocator := {|
  eta a := MkAllocator (alloc_base a) (alloc_size a) (alloc_next a);
  eta_ok := ltac:(by intros [])
|}.
#[export] Instance eta_MemoryManager : Eta MemoryManager := {|
  eta m := MkManager (regions m) (total_ram m) (mmio_allocator m) (initialized m);
  eta_ok := ltac:(by intros [])
|}.

Definition u64_add (a b : Z) : Z := wrap64 (a + b).

(** [(size + 0xFFF) & !0xFFF]. *)
Definition page_align (size : Z) : Z := Z.land (u64_add size 0xFFF) (not64 0xFFF).

Definition new_allocator (base size : Z) : MmioAllocator := MkAllocator base size base.

Definition allocate (a : MmioAllocator) (size : Z) : option (Z * MmioAllocator) :=
  let aligned := page_align size in
  if u64_add (alloc_base a) (alloc_size a) <? u64_add (alloc_next a) aligned then None
  else Some (alloc_next a, a <| alloc_next := u64_add (alloc_next a) aligned |>).

Definition with_mmio_base (base size : Z) : MemoryManager :=
  MkManager [] 0 (new_allocator base size) false.

(** [MemoryManager::new]: the MMIO window is [3 GiB, 4 GiB). *)
Definition new_manager : MemoryManager := with_mmio_base (3 * 1024 * 1024 * 1024) (1024 * 1024 * 1024).

Definition initialize (m : MemoryManager) (ram_size : Z) : result MemError MemoryManager :=
  if initialized m then Err AlreadyInitialized
  else Ok (m <| regions := bt_insert 0 (MkRegion 0 ram_size Ram "ram" None) (regions m) |>
             <| total_ram := ram_size |> <| initialized := true |>).

Definition allocate_mmio (m : MemoryManager) (size : Z) (name : string)
    : result MemError (Z * MemoryManager) :=
  match allocate (mmio_allocator m) size with
  | None => Err MmioExhausted
  | Some (addr, a) =>
      Ok (addr, m <| mmio_allocator := a |>
                  <| regions := bt_insert addr (MkRegion addr (page_align size) Mmio name None) (regions m) |>)
  end.

(** The first existing region that overlaps [addr, end). *)
Definition overlapping (rs : list (Z * MemoryRegionInfo)) (addr end_ : Z) : option MemoryRegionInfo :=
  snd <$> List.find (λ e, (addr <? u64_add (fst e) (region_len (snd e))) && (fst e <? end_)) rs.

Section regions.
(** [format!("region_{addr:#x}")]. *)
Context (region_label : Z → string).

Definition add_region (m : MemoryManager) (region : MemoryRegion) : result MemError MemoryManager :=
  let addr := mr_guest_addr region in
  let end_ := u64_add addr (mr_size region) in
  match overlapping (regions m) addr end_ with
  | Some existing => Err (Overlaps addr (region_name existing))
  | None =>
      Ok (m <| regions := bt_insert addr
             (MkRegion addr (mr_size region) (if mr_read_only region then Rom else Ram)
                (region_label addr) (mr_host_addr region)) (regions m) |>)
  end.

Definition find_region (m : MemoryManager) (addr : Z) : option MemoryRegionInfo :=
  match bt_floor addr (regions m) with
  | Some (_, r) => if addr <? u64_add (guest_addr r) (region_len r) then Some r else None
  | None => None
  end.

Definition memory_layout (m : MemoryManager) : list (Z * Z) :=
  (λ e, (guest_addr (snd e), region_len (snd e))) <$>
    List.filter (λ e, match region_type (snd e) with Ram => true | _ => false end) (regions m).

End regions.

(** ** Disjoint regions *)

Definition apart (a n b k : Z) : Prop := a + n ≤ b ∨ b + k ≤ a.

(** Regions are not empty, do not wrap and do not overlap; none reaches into
    what the MMIO window has left. *)
Record mem_ok (m : MemoryManager) : Prop := {
  mm_sorted : bt_sorted (regions m);
  mm_keys : ∀ k r, (k, r) ∈ regions m →
    guest_addr r = k ∧ 0 ≤ k ∧ 0 < region_len r ∧ k + region_len r < u64_bound;
  mm_apart : ∀ k r k' r', (k, r) ∈ regions m → (k', r') ∈ regions m → k ≠ k' →
    apart k (region_len r) k' (region_len r');
  mm_window : 0 ≤ alloc_base (mmio_allocator m) ∧
    alloc_base (mmio_allocator m) ≤ alloc_next (mmio_allocator m) ≤
      alloc_base (mmio_allocator m) + alloc_size (mmio_allocator m) ∧
    alloc_base (mmio_allocator m) + alloc_size (mmio_allocator m) < u64_bound;
  mm_reserved : ∀ k r, (k, r) ∈ regions m →
    apart k (region_len r) (alloc_next (mmio_allocator m))
      (alloc_base (mmio_allocator m) + alloc_size (mmio_allocator m) - alloc_next (mmio_allocator m))
}.

Lemma u64_add_small a b : 0 ≤ a + b < u64_bound → u64_add a b = a + b.
Proof. apply Z.mod_small. Qed.

(** Rounding up to a page. *)
Lemma page_align_eq size :
  0 ≤ size → size + 0xFFF < u64_bound → page_align size = (size + 0xFFF) / 4096 * 4096.
Proof.
  intros H0 Hb. unfold page_align. rewrite u64_add_small by lia.
  change (not64 0xFFF) with (2 ^ 64 - 2 ^ 12). apply (land_high _ 12 64); [lia|].
  unfold u64_bound in Hb. lia.
Qed.

Lemma page_align_bounds size :
  0 ≤ size → size + 0xFFF < u64_bound → size ≤ page_align size ∧ page_align size mod 4096 = 0.
Proof.
  intros H0 Hb. rewrite page_align_eq by done. split; [|apply Z.mod_mul; lia].
  pose proof (Z.div_mod (size + 0xFFF) 4096). pose proof (Z.mod_pos_bound (size + 0xFFF) 4096). lia.
Qed.

(** A region apart from all the others, and from what the window has left. *)
Lemma insert_region_ok m addr r a :
  mem_ok m → guest_addr r = addr → 0 ≤ addr → 0 < region_len r → addr + region_len r < u64_bound →
  (∀ k' r', (k', r') ∈ regions m → apart addr (region_len r) k' (region_len r')) →
  alloc_base a = alloc_base (mmio_allocator m) → alloc_size a = alloc_size (mmio_allocator m) →
  alloc_next (mmio_allocator m) ≤ alloc_next a ≤ alloc_base a + alloc_size a →
  apart addr (region_len r) (alloc_next a) (alloc_base a + alloc_size a - alloc_next a) →
  mem_ok (m <| mmio_allocator := a |> <| regions := bt_insert addr r (regions m) |>).
Proof.
  intros [S K A W R] Hk H0 Hl Hb Hap Hbase Hsize Hnext Hres.
  assert (∀ k' r', (k', r') ∈ bt_insert addr r (regions m) →
    (k' = addr ∧ r' = r) ∨ (k', r') ∈ regions m) as Hin.
  { intros k' r' Hin. apply bt_insert_elem in Hin as [[= -> ->]|[Hin _]]; [by left|by right|done]. }
  split; cbn.
  - by apply bt_insert_sorted.
  - intros k' r' [[-> ->]|Hr]%Hin; [done|by apply K].
  - intros k1 r1 k2 r2 [[-> ->]|H1]%Hin [[-> ->]|H2]%Hin Hne; [done|by apply Hap| |by apply (A _ _ _ _ H1 H2)].
    specialize (Hap _ _ H1). unfold apart in *. lia.
  - change (0 ≤ alloc_base a ∧ alloc_base a ≤ alloc_next a ≤ alloc_base a + alloc_size a ∧
      alloc_base a + alloc_size a < u64_bound). lia.
  - intros k' r' [[-> ->]|Hr]%Hin; [exact Hres|]. specialize (R _ _ Hr).
    change (apart k' (region_len r') (alloc_next a) (alloc_base a + alloc_size a - alloc_next a)).
    rewrite Hbase, Hsize in *. unfold apart in *. lia.
Qed.

Lemma allocate_mmio_ok m size name addr m' :
  mem_ok m → 0 < size → size + 0xFFF < u64_bound →
  alloc_next (mmio_allocator m) + page_align size < u64_bound →
  allocate_mmio m size name = Ok (addr, m') →
  mem_ok m' ∧ addr = alloc_next (mmio_allocator m) ∧
  alloc_next (mmio_allocator m') = addr + page_align size ∧
  alloc_base (mmio_allocator m') = alloc_base (mmio_allocator m) ∧
  alloc_size (mmio_allocator m') = alloc_size (mmio_allocator m) ∧
  addr + page_align size ≤ alloc_base (mmio_allocator m) + alloc_size (mmio_allocator m).
Proof.
  intros Hm Hs Hb Hnw. pose proof Hm as [S K A W R].
  destruct (page_align_bounds size) as [Hal _]; [lia..|].
  unfold allocate_mmio, allocate. rewrite !u64_add_small by lia.
  destruct (Z.ltb_spec (alloc_base (mmio_allocator m) + alloc_size (mmio_allocator m))
    (alloc_next (mmio_allocator m) + page_align size)) as [|Hfit]; [done|].
  intros [= <- <-]. split; [|done].
  apply insert_region_ok; try done; cbn; try lia.
  - intros k' r' Hr. specialize (R _ _ Hr). specialize (K _ _ Hr). unfold apart in *. lia.
  - change (alloc_next (mmio_allocator m) ≤ alloc_next (mmio_allocator m) + page_align size ≤
      alloc_base (mmio_allocator m) + alloc_size (mmio_allocator m)). lia.
  - left. simpl. change (alloc_next (mmio_allocator m) + page_align size ≤
      alloc_next (mmio_allocator m) + page_align size). lia.
Qed.

Lemma overlapping_None rs addr end_ :
  overlapping rs addr end_ = None → ∀ k r, (k, r) ∈ rs →
  u64_add k (region_len r) ≤ addr ∨ end_ ≤ k.
Proof.
  unfold overlapping. intros Hn%fmap_None k r Hin.
  pose proof (find_none _ _ Hn (k, r) (proj1 (list_elem_of_In _ _) Hin)) as Hf. simpl in Hf.
  apply andb_false_iff in Hf as [Hf|Hf]; rewrite Z.ltb_ge in Hf; lia.
Qed.

Lemma add_region_ok label m region m' :
  mem_ok m → 0 ≤ mr_guest_addr region → 0 < mr_size region →
  mr_guest_addr region + mr_size region < u64_bound →
  apart (mr_guest_addr region) (mr_size region) (alloc_next (mmio_allocator m))
    (alloc_base (mmio_allocator m) + alloc_size (mmio_allocator m) - alloc_next (mmio_allocator m)) →
  add_region label m region = Ok m' → mem_ok m'.
Proof.
  intros Hm H0 Hs Hb Hw. unfold add_region. rewrite u64_add_small by lia.
  destruct (overlapping _ _ _) eqn:Ho; [done|]. intros [= <-].
  pose proof Hm as [S K A W R].
  apply (insert_region_ok m (mr_guest_addr region) _ (mmio_allocator m)); try done; [|lia].
  intros k' r' Hr. destruct (K _ _ Hr) as (_ & Hk & Hl & Hkb).
  destruct (overlapping_None _ _ _ Ho k' r' Hr) as [Hlo|Hlo]; unfold apart; cbn [region_len]; [|lia].
  rewrite u64_add_small in Hlo by lia. lia.
Qed.

Lemma initialize_ok m ram m' :
  mem_ok m → regions m = [] → 0 < ram → ram ≤ alloc_next (mmio_allocator m) →
  initialize m ram = Ok m' → mem_ok m'.
Proof.
  intros Hm He H0 Hr. unfold initialize. destruct (initialized m); [done|]. intros [= <-].
  pose proof Hm as [S K A W R].
  assert (mem_ok (m <| mmio_allocator := mmio_allocator m |>
    <| regions := bt_insert 0 (MkRegion 0 ram Ram "ram" None) (regions m) |>)) as [].
  { apply insert_region_ok; try done; cbn; try lia.
    - rewrite He. intros k' r' Hin. by apply elem_of_nil in Hin.
    - left. lia. }
  by split.
Qed.

Lemma with_mmio_base_ok base size :
  0 ≤ base → 0 ≤ size → base + size < u64_bound → mem_ok (with_mmio_base base size).
Proof.
  intros Hb Hs Hf. split; try (intros ? ? Hin; by apply elem_of_nil in Hin); [constructor| |].
  - intros ? ? ? ? Hin. by apply elem_of_nil in Hin.
  - simpl. lia.
Qed.

(** ** Claims *)

(** What an address space goes through. *)
Inductive MemOp :=
| OpAllocate (size : Z) (name : string)
| OpAdd (region : MemoryRegion).

Definition mem_step (label : Z → string) (m : MemoryManager) (op : MemOp) : MemoryManager :=
  match op with
  | OpAllocate size name => match allocate_mmio m size name with Ok (_, m') => m' | Err _ => m end
  | OpAdd region => match add_region label m region with Ok m' => m' | Err _ => m end
  end.

(** Sizes that do not wrap, and added regions outside the MMIO window. *)
Definition mem_op_ok (base size : Z) (op : MemOp) : Prop :=
  match op with
  | OpAllocate n _ => 0 < n < 2 ^ 62
  | OpAdd r => 0 ≤ mr_guest_addr r ∧ 0 < mr_size r ∧ mr_guest_addr r + mr_size r < u64_bound ∧
      apart (mr_guest_addr r) (mr_size r) base size
  end.

Lemma mem_step_ok label base size m op :
  mem_ok m → alloc_base (mmio_allocator m) = base → alloc_size (mmio_allocator m) = size →
  base + size < 2 ^ 63 → mem_op_ok base size op →
  let m' := mem_step label m op in
  mem_ok m' ∧ alloc_base (mmio_allocator m') = base ∧ alloc_size (mmio_allocator m') = size.
Proof.
  intros Hm Hb Hs Hf Hop. destruct op as [n name|r]; cbn [mem_step].
  - destruct (allocate_mmio m n name) as [[addr m']|] eqn:Ha; [|done]. simpl in Hop.
    pose proof Hm as [_ _ _ W _]. destruct (page_align_bounds n) as [Hal _]; [unfold u64_bound; lia..|].
    assert (page_align n ≤ n + 0xFFF) as Hup.
    { rewrite page_align_eq by (unfold u64_bound; lia).
      pose proof (Z.div_mod (n + 0xFFF) 4096). pose proof (Z.mod_pos_bound (n + 0xFFF) 4096). lia. }
    destruct (allocate_mmio_ok m n name addr m') as (? & _ & _ & Hb' & Hs' & _);
      [done|lia|unfold u64_bound; lia|unfold u64_bound; lia|done|].
    by rewrite Hb', Hs'.
  - destruct (add_region label m r) as [m'|] eqn:Ha; [|done].
    destruct Hop as (H0 & Hl & Hw & Hap). split.
    + eapply add_region_ok; try done. pose proof (mm_window _ Hm). unfold apart in *. lia.
    + unfold add_region in Ha. destruct (overlapping _ _ _); [done|]. injection Ha as <-. done.
Qed.

Lemma mem_run_ok label base size m ops :
  mem_ok m → alloc_base (mmio_allocator m) = base → alloc_size (mmio_allocator m) = size →
  base + size < 2 ^ 63 → Forall (mem_op_ok base size) ops →
  mem_ok (foldl (mem_step label) m ops).
Proof.
  intros Hm Hb Hs Hf Hops. revert m Hm Hb Hs.
  induction Hops as [|op ops Hop _ IH]; intros m Hm Hb Hs; [done|]. cbn [foldl].
  destruct (mem_step_ok label base size m op Hm Hb Hs Hf Hop) as (? & ? & ?). by apply IH.
Qed.

(** In such a table a lookup finds the region of an address. *)
Lemma find_region_mem m addr r :
  mem_ok m → find_region m addr = Some r ↔
  ∃ k, (k, r) ∈ regions m ∧ k ≤ addr < k + region_len r.
Proof.
  intros [S K A W R]. unfold find_region. split.
  - destruct (bt_floor addr (regions m)) as [[k r']|] eqn:Hf; [|done].
    apply bt_floor_Some in Hf as (Hin & Hk & _); [|done]. destruct (K _ _ Hin) as (Hg & H0 & Hl & Hb).
    rewrite Hg, u64_add_small by lia. destruct (Z.ltb_spec addr (k + region_len r')); [|done].
    intros [= <-]. by exists k.
  - intros (k & Hin & Hk). destruct (K _ _ Hin) as (Hg & H0 & Hl & Hb).
    assert (bt_floor addr (regions m) = Some (k, r)) as ->.
    { apply bt_floor_Some; [done|]. split; [done|]. split; [lia|]. intros [k' r'] Hin' Hk'. simpl in *.
      destruct (decide (k = k')) as [->|Hne]; [lia|]. destruct (K _ _ Hin') as (_ & _ & Hl' & _).
      specialize (A _ _ _ _ Hin Hin' Hne). unfold apart in A. lia. }
    rewrite Hg, u64_add_small by lia. by rewrite (proj2 (Z.ltb_lt _ _)) by lia.
Qed.


End Mem.
