(* ===== verification/DeviceManager.v ===== *)
(** * The device manager

    [src/virt/arcbox-vmm/src/device/]: the registry of virtio-mmio devices,
    the dispatch of guest accesses to register files and devices, and the
    interrupt line of each device. The devices themselves implement the
    [VirtioDevice] trait, here a class; a typed handle to a NIC shares the
    registered device, so it is the identifier it was registered under.

    The manager's interrupt callback drives the interrupt chip
    ([src/virt/arcbox-vmm/src/vmm/darwin_hv/setup.rs]), so the chip is part of
    the state. Locks are uncontended: one access runs at a time. *)

From Stdlib Require Import ZArith Lia.
From stdpp Require Import base numbers list gmap strings pretty.
From S2P Require Import Prelude Bits BTree GuestMem SplitQueue MmioState IrqChip VmmMemory.

Open Scope Z_scope.

Module Dm.
Import Irq Mem.

(** [virtio_bindings::virtio_config]: the bits of the device status. *)
Class DeviceStatusBits := { DRIVER_OK : Z; FEATURES_OK : Z }.

(** The [VirtioDevice] trait, and the transmit path of [VirtioNet]. *)
Class VirtioDevice (Dev E : Type) := {
  dev_id : Dev → Z;
  dev_features : Dev → Z;
  ack_features : Dev → Z → Dev;
  read_config : Dev → Z → list Z → list Z;
  write_config : Dev → Z → list Z → Dev;
  activate : Dev → result E unit * Dev;
  reset : Dev → Dev;
  process_queue : Dev → Z → GuestMem → QueueConfig → result E (list (Z * Z)) * Dev * GuestMem;
  drain_tx_queue : Dev → GuestMem → QueueConfig → bool * Dev * GuestMem
}.

Inductive DeviceType :=
| Serial | VirtioBlock | VirtioNet | VirtioConsole | VirtioFs | VirtioVsock | VirtioRng
| VirtioBalloon | Other.
#[export] Instance DeviceType_eq_dec : EqDecision DeviceType.
Proof. solve_decision. Defined.

Record DeviceInfo := MkInfo {
  info_id : Z;
  device_type : DeviceType;
  device_name : string;
  mmio_base : option Z;
  mmio_size : Z;
  irq : option Z
}.

Record DeviceTreeEntry := MkTreeEntry {
  reg_base : Z;
  reg_size : Z;
  entry_irq : Z
}.

Section manager.
Context {Dev E : Type} `{MmioRegs} `{DeviceStatusBits} `{VirtioDevice Dev E}.

Record RegisteredDevice := MkDevice {
  info : DeviceInfo;
  mmio_state : option VirtioMmioState;
  virtio_device : option Dev
}.

(** [guest_mem] is the guest RAM mapping; [doorbells] and [net_spawns] are the
    block workers rung and the receive workers started, in order. *)
Record DeviceManager := MkDm {
  devices : gmap Z RegisteredDevice;
  next_id : Z;
  mmio_map : gmap Z Z;
  guest_mem : option GuestMem;
  irq_callback : bool;
  primary_net_device_id : option Z;
  primary_net : option Z;
  bridge_net_device_id : option Z;
  bridge_net : option Z;
  blk_workers : gset Z;
  chip : IrqChip;
  doorbells : list (Z * Z);
  net_spawns : list Z
}.

Inductive DmError :=
| NoDeviceAt (addr : Z)
| DeviceNotFound (id : Z)
| ActivateFailed (e : E)
| MemoryFailed (e : MemError)
| IrqFailed (e : IrqError).

#[export] Instance eta_RegisteredDevice : Eta RegisteredDevice := {|
  eta d := MkDevice (info d) (mmio_state d) (virtio_device d);
  eta_ok := ltac:(by intros [])
|}.
#[export] Instance eta_DeviceManager : Eta DeviceManager := {|
  eta d := MkDm (devices d) (next_id d) (mmio_map d) (guest_mem d) (irq_callback d)
    (primary_net_device_id d) (primary_net d) (bridge_net_device_id d) (bridge_net d)
    (blk_workers d) (chip d) (doorbells d) (net_spawns d);
  eta_ok := ltac:(by intros [])
|}.

(** [DeviceManager::new], next to a chip. *)
Definition new_manager (c : IrqChip) : DeviceManager :=
  MkDm ∅ 0 ∅ None false None None None None ∅ c [] [].

Definition set_guest_memory (d : DeviceManager) (m : GuestMem) : DeviceManager := d <| guest_mem := Some m |>.
Definition set_irq_callback (d : DeviceManager) : DeviceManager := d <| irq_callback := true |>.

(** [set_primary_net] and [set_bridge_net] register the handle and the identifier. *)
Definition set_primary_net (d : DeviceManager) (id : Z) : DeviceManager :=
  d <| primary_net_device_id := Some id |> <| primary_net := Some id |>.
Definition set_bridge_net (d : DeviceManager) (id : Z) : DeviceManager :=
  d <| bridge_net_device_id := Some id |> <| bridge_net := Some id |>.

Definition set_blk_worker (d : DeviceManager) (id : Z) : DeviceManager :=
  d <| blk_workers := {[ id ]} ∪ blk_workers d |>.
Definition clear_blk_workers (d : DeviceManager) : DeviceManager := d <| blk_workers := ∅ |>.

(** ** Registration *)

Definition register (d : DeviceManager) (ty : DeviceType) (name : string) : Z * DeviceManager :=
  let id := next_id d in
  (id, d <| next_id := wrap32 (id + 1) |>
         <| devices := <[id := MkDevice (MkInfo id ty name None 0 None) None None]> (devices d) |>).

(** The slot and the line of a virtio-mmio device, and its entry in the
    registry; [name] of the entry is [label], the region is named [name]. *)
Definition register_at (d : DeviceManager) (mm : MemoryManager) (ty : DeviceType) (name label : string)
    (virtio_id features : Z) (dev : option Dev) : result DmError Z * DeviceManager * MemoryManager :=
  let id := next_id d in
  let d := d <| next_id := wrap32 (id + 1) |> in
  match allocate_mmio mm MMIO_SIZE name with
  | Err e => (Err (MemoryFailed e), d, mm)
  | Ok (base, mm) =>
      let '(allocated, c) := allocate_level_irq (chip d) in
      let d := d <| chip := c |> in
      match allocated with
      | Err e => (Err (IrqFailed e), d, mm)
      | Ok line =>
          let info := MkInfo id ty label (Some base) MMIO_SIZE (Some line) in
          (Ok id,
           d <| mmio_map := <[base := id]> (mmio_map d) |>
             <| devices := <[id := MkDevice info (Some (new_mmio virtio_id features)) dev]> (devices d) |>,
           mm)
      end
  end.

(** [register_virtio] names the device after its identifier. *)
Definition register_virtio (d : DeviceManager) (mm : MemoryManager) (ty : DeviceType) (name : string)
    (virtio_id features : Z) : result DmError Z * DeviceManager * MemoryManager :=
  register_at d mm ty name (pretty (next_id d)) virtio_id features None.

Definition register_virtio_device (d : DeviceManager) (mm : MemoryManager) (ty : DeviceType)
    (name : string) (dev : Dev) : result DmError Z * DeviceManager * MemoryManager :=
  register_at d mm ty name name (dev_id dev) (dev_features dev) (Some dev).

(** ** Interrupt lines *)

Section lines.
(** Whether a call into the hypervisor succeeds, and the time it is made. *)
Context (cb_ok : nat → bool) (clock : nat → Z).

(** The interrupt callback; its result is dropped everywhere. *)
Definition drive_line (d : DeviceManager) (line : Z) (level : bool) : DeviceManager :=
  if irq_callback d then
    d <| chip := if level then snd (trigger_irq cb_ok (chip d) line (clock (length (calls (chip d)))))
                 else snd (deassert_irq cb_ok (chip d) line) |>
  else d.

Definition put_mmio (d : DeviceManager) (id : Z) (s : VirtioMmioState) : DeviceManager :=
  match devices d !! id with
  | Some dev => d <| devices := <[id := dev <| mmio_state := Some s |>]> (devices d) |>
  | None => d
  end.

Definition put_device (d : DeviceManager) (id : Z) (v : Dev) : DeviceManager :=
  match devices d !! id with
  | Some dev => d <| devices := <[id := dev <| virtio_device := Some v |>]> (devices d) |>
  | None => d
  end.

Definition driver_ok (s : VirtioMmioState) : bool := negb (Z.land (status s) DRIVER_OK =? 0).

Definition sync_irq_level (d : DeviceManager) (id : Z) : DeviceManager :=
  match devices d !! id with
  | None => d
  | Some dev =>
      match irq (info dev), mmio_state dev with
      | Some line, Some s =>
          if driver_ok s then drive_line d line (negb (interrupt_status s =? 0)) else d
      | _, _ => d
      end
  end.

(** [trigger_irq_callback]: some activated device owns the line. *)
Definition owns_ready (line : Z) (dev : RegisteredDevice) : bool :=
  bool_decide (irq (info dev) = Some line) &&
  match mmio_state dev with Some s => driver_ok s | None => false end.

Definition trigger_irq_callback (d : DeviceManager) (line : Z) (level : bool) : DeviceManager :=
  if bool_decide (map_Exists (λ _ dev, owns_ready line dev = true) (devices d))
  then drive_line d line level else d.

Definition manager_trigger_interrupt (d : DeviceManager) (id reason : Z) : result DmError DeviceManager :=
  match devices d !! id with
  | None => Err (DeviceNotFound id)
  | Some dev =>
      match mmio_state dev with
      | Some s => Ok (put_mmio d id (trigger_interrupt s reason))
      | None => Ok d
      end
  end.

Definition raise_interrupt_for_device (d : DeviceManager) (id reason : Z) : DeviceManager :=
  match devices d !! id with
  | None => d
  | Some dev =>
      let d := match mmio_state dev with
               | Some s => put_mmio d id (trigger_interrupt s reason)
               | None => d
               end in
      sync_irq_level d id
  end.

(** [raise_interrupt_for]: the first device of the type, in the order
    [order] the registry is iterated in. *)
Definition raise_interrupt_for (order : gmap Z RegisteredDevice → list (Z * RegisteredDevice))
    (d : DeviceManager) (ty : DeviceType) (reason : Z) : DeviceManager :=
  match List.find (λ '(_, dev), bool_decide (device_type (info dev) = ty)) (order (devices d)) with
  | Some (id, dev) =>
      let d := match mmio_state dev with
               | Some s => put_mmio d id (trigger_interrupt s reason)
               | None => d
               end in
      sync_irq_level d id
  | None => d
  end.

(** A checkpoint restore drives every line afresh ([restore_phases]). *)
Definition sync_all (order : gmap Z RegisteredDevice → list (Z * RegisteredDevice))
    (d : DeviceManager) : DeviceManager :=
  foldl (λ d '(id, _), sync_irq_level d id) d (order (devices d)).

(** [IoCompletion::raise] for a device with a line and registers. *)
Definition completion_raise (d : DeviceManager) (id line reason : Z) : DeviceManager :=
  let d := match devices d !! id with
           | Some dev =>
               match mmio_state dev with
               | Some s => put_mmio d id (trigger_interrupt s reason)
               | None => d
               end
           | None => d
           end in
  drive_line d line true.

(** ** Guest accesses ([dispatch.rs]) *)

(** The order a [HashMap] is iterated in is not specified. *)
Context (iter : gmap Z Z → list (Z * Z)).

Definition find_by_mmio (d : DeviceManager) (addr : Z) : option Z :=
  snd <$> List.find (λ '(base, id),
    match devices d !! id with
    | Some dev => (base <=? addr) && (addr <? u64_add base (mmio_size (info dev)))
    | None => false
    end) (iter (mmio_map d)).

(** The bytes of a config access as an integer: sizes 1, 2, 4 and 8. *)
Definition config_size (size : Z) : bool := (size =? 1) || (size =? 2) || (size =? 4) || (size =? 8).

Definition handle_mmio_read (d : DeviceManager) (addr size : Z) : result DmError Z :=
  match find_by_mmio d addr with
  | None => Err (NoDeviceAt addr)
  | Some id =>
      match devices d !! id with
      | None => Err (DeviceNotFound id)
      | Some dev =>
          let offset := wrap64 (addr - default 0 (mmio_base (info dev))) in
          match mmio_state dev with
          | None => Ok 0
          | Some s =>
              if CONFIG <=? offset then
                match virtio_device dev with
                | Some v =>
                    let data := read_config v (offset - CONFIG) (replicate (Z.to_nat size) 0) in
                    Ok (if config_size size then le_value data else 0)
                | None => Ok 0
                end
              else
                let value := mmio_read s offset in
                Ok (if size =? 1 then wrap8 value else if size =? 2 then wrap16 value else value)
          end
      end
  end.

(** The configuration of a queue in the register file. *)
Definition queue_config (s : VirtioMmioState) (qi gpa : Z) : QueueConfig :=
  if qi <? MAX_VIRTQUEUES then
    MkQueueConfig (at_queue 0 (queue_desc s) qi) (at_queue 0 (queue_driver s) qi)
      (at_queue 0 (queue_device s) qi) (at_queue 0 (queue_num s) qi)
      (at_queue false (queue_ready s) qi) gpa
  else MkQueueConfig 0 0 0 0 false 0.

Definition maybe_spawn_net_rx_worker (d : DeviceManager) (id : Z) : DeviceManager :=
  if bool_decide (primary_net_device_id d = Some id) then
    match devices d !! id with
    | Some dev =>
        if bool_decide (device_type (info dev) = VirtioNet) && bool_decide (is_Some (irq (info dev)))
             && bool_decide (is_Some (guest_mem d))
        then d <| net_spawns := net_spawns d ++ [id] |> else d
    | None => d
    end
  else d.

Definition has_bit (s bit : Z) : bool := negb (Z.land s bit =? 0).

(** What follows a write of the status register. *)
Definition on_status (d : DeviceManager) (id old_status value32 : Z) : result DmError unit * DeviceManager :=
  let new_status := wrap8 value32 in
  let d :=
    if has_bit new_status FEATURES_OK && negb (has_bit old_status FEATURES_OK) then
      match devices d !! id with
      | Some (MkDevice _ (Some s) (Some v)) => put_device d id (ack_features v (driver_features s))
      | _ => d
      end
    else d in
  let '(activated, d) :=
    if has_bit new_status DRIVER_OK && negb (has_bit old_status DRIVER_OK) then
      let '(activated, d) :=
        match devices d !! id with
        | Some (MkDevice _ _ (Some v)) =>
            let '(r, v) := activate v in
            (match r with Ok _ => Ok () | Err e => Err (ActivateFailed e) end, put_device d id v)
        | _ => (Ok (), d)
        end in
      match activated with
      | Ok _ => (Ok (), maybe_spawn_net_rx_worker d id)
      | Err e => (Err e, d)
      end
    else (Ok (), d) in
  match activated with
  | Err e => (Err e, d)
  | Ok _ =>
      if new_status =? 0 then
        match devices d !! id with
        | Some (MkDevice _ _ (Some v)) => (Ok (), put_device d id (reset v))
        | _ => (Ok (), d)
        end
      else (Ok (), d)
  end.

(** The used-buffer interrupt after completions. *)
Definition signal_used (d : DeviceManager) (id : Z) : DeviceManager :=
  match devices d !! id with
  | Some (MkDevice _ (Some s) _) => sync_irq_level (put_mmio d id (trigger_interrupt s INT_VRING)) id
  | _ => d
  end.

(** The transmit path of a NIC: the handle is the bridge's for the bridge, the
    primary's for any other. *)
Definition notify_net (d : DeviceManager) (id : Z) (dev : RegisteredDevice) (qcfg : QueueConfig) (m : GuestMem)
    : DeviceManager :=
  let typed := if bool_decide (bridge_net_device_id d = Some id) then bridge_net d else primary_net d in
  match typed with
  | Some owner =>
      match devices d !! owner with
      | Some (MkDevice _ _ (Some v)) =>
          let '(notify, v, m) := drain_tx_queue v m qcfg in
          let d := (put_device d owner v) <| guest_mem := Some m |> in
          if notify && bool_decide (is_Some (irq (info dev))) then signal_used d id else d
      | _ => d
      end
  | None => d
  end.

(** Every other device processes the queue on the spot. *)
Definition notify_generic (d : DeviceManager) (id : Z) (dev : RegisteredDevice) (v : Dev) (queue_idx : Z)
    (qcfg : QueueConfig) (m : GuestMem) : DeviceManager :=
  let '(r, v, m) := process_queue v queue_idx m qcfg in
  let d := (put_device d id v) <| guest_mem := Some m |> in
  match r with
  | Ok (_ :: _) =>
      if bool_decide (device_type (info dev) = VirtioConsole) && (queue_idx =? 1) then d
      else signal_used d id
  | _ => d
  end.

(** What follows a write of the notify register. *)
Definition on_notify (d : DeviceManager) (id value32 : Z) : DeviceManager :=
  let queue_idx := wrap16 value32 in
  match devices d !! id with
  | Some (MkDevice i (Some s) (Some v) as dev) =>
      match guest_mem d with
      | None => d
      | Some m =>
          let qcfg := queue_config s queue_idx (gpa_base m) in
          if bool_decide (device_type i = VirtioBlock) then
            if bool_decide (id ∈ blk_workers d) then
              d <| doorbells := doorbells d ++ [(id, queue_idx)] |>
            else d
          else if bool_decide (device_type i = VirtioNet) && (queue_idx =? 1)
               && (bool_decide (is_Some (primary_net d)) || bool_decide (is_Some (bridge_net d)))
          then notify_net d id dev qcfg m
          else notify_generic d id dev v queue_idx qcfg m
      end
  | _ => d
  end.

(** The bytes of a write to the config space, little-endian. *)
Definition config_bytes (size value : Z) : list Z := le_bytes (Z.to_nat size) value.

(** The value of a register write of [size] bytes. *)
Definition truncate (size value : Z) : Z :=
  if size =? 1 then Z.land (wrap32 value) 0xFF
  else if size =? 2 then Z.land (wrap32 value) 0xFFFF
  else wrap32 value.

(** A register write, and what its register calls for. *)
Definition write_register (d : DeviceManager) (id : Z) (s : VirtioMmioState) (offset value32 : Z)
    : result DmError unit * DeviceManager :=
  let old_status := status s in
  let d := put_mmio d id (mmio_write s offset value32) in
  if offset =? STATUS then on_status d id old_status value32
  else if offset =? QUEUE_NOTIFY then (Ok (), on_notify d id value32)
  else if offset =? INTERRUPT_ACK then (Ok (), sync_irq_level d id)
  else (Ok (), d).

Definition handle_mmio_write (d : DeviceManager) (addr size value : Z) : result DmError unit * DeviceManager :=
  match find_by_mmio d addr with
  | None => (Err (NoDeviceAt addr), d)
  | Some id =>
      match devices d !! id with
      | None => (Err (DeviceNotFound id), d)
      | Some dev =>
          let offset := wrap64 (addr - default 0 (mmio_base (info dev))) in
          match mmio_state dev with
          | None => (Ok (), d)
          | Some s =>
              if CONFIG <=? offset then
                match virtio_device dev with
                | Some v =>
                    if config_size size
                    then (Ok (), put_device d id (write_config v (offset - CONFIG) (config_bytes size value)))
                    else (Ok (), d)
                | None => (Ok (), d)
                end
              else write_register d id s offset (truncate size value)
          end
      end
  end.

(** ** The device tree ([tree.rs]) *)

(** Entries in the order of their base address, which no two devices share. *)
Definition device_tree_entries (d : DeviceManager) : list DeviceTreeEntry :=
  snd <$> map_fold (λ _ dev m,
    match mmio_base (info dev), irq (info dev) with
    | Some base, Some line => bt_insert base (MkTreeEntry base (mmio_size (info dev)) line) m
    | _, _ => m
    end) [] (devices d).
End lines.
End manager.
End Dm.
