(* ===== verification/DeviceProps.v ===== *)
(** * Routing of guest accesses

    Registered devices have disjoint MMIO slots and lines of their own, so a
    guest access reaches the device whose slot it falls in whatever order the
    registry is searched, and a queue the driver sets up is the queue the
    device is told to process. *)

From Stdlib Require Import ZArith Lia.
From stdpp Require Import base numbers list gmap strings.
From S2P Require Import Prelude Bits BTree GuestMem SplitQueue MmioState IrqChip VmmMemory DeviceManager.

Open Scope Z_scope.

Module DmProps.
Import Irq Mem Dm.

Section props.
Context {Dev E : Type} `{HR : MmioRegs} `{HO : !MmioRegsOk} `{HB : DeviceStatusBits} `{HV : VirtioDevice Dev E}.
Notation DeviceManager := (@DeviceManager Dev).
Notation RegisteredDevice := (@RegisteredDevice Dev).
Implicit Types (d : DeviceManager) (dev : RegisteredDevice).

(** Reads of updated fields. *)
Ltac proj :=
  cbv [upd] in *;
  cbn [devices next_id mmio_map guest_mem irq_callback primary_net_device_id primary_net
    bridge_net_device_id bridge_net blk_workers chip doorbells net_spawns
    info mmio_state virtio_device] in *.

(** ** A consistent registry *)

Record dm_ok d : Prop := {
  do_ids : ∀ id dev, devices d !! id = Some dev → 0 ≤ id < next_id d;
  do_slot : ∀ id dev b, devices d !! id = Some dev → mmio_base (info dev) = Some b →
    mmio_map d !! b = Some id ∧ mmio_size (info dev) = MMIO_SIZE ∧ 0 ≤ b ∧ b + MMIO_SIZE < u64_bound;
  do_map : ∀ b id, mmio_map d !! b = Some id →
    ∃ dev, devices d !! id = Some dev ∧ mmio_base (info dev) = Some b;
  do_apart : ∀ id id' dev dev' b b', devices d !! id = Some dev → devices d !! id' = Some dev' →
    mmio_base (info dev) = Some b → mmio_base (info dev') = Some b' → id ≠ id' →
    b + MMIO_SIZE ≤ b' ∨ b' + MMIO_SIZE ≤ b;
  do_lines : ∀ id dev line, devices d !! id = Some dev → irq (info dev) = Some line →
    level_line (chip d) line;
  do_distinct : ∀ id id' dev dev' line, devices d !! id = Some dev → devices d !! id' = Some dev' →
    irq (info dev) = Some line → irq (info dev') = Some line → id = id';
  do_regs : ∀ id dev s, devices d !! id = Some dev → mmio_state dev = Some s → mmio_ok s
}.

Lemma dm_ok_rest d d' :
  devices d' = devices d → mmio_map d' = mmio_map d → next_id d' = next_id d → chip d' = chip d →
  dm_ok d → dm_ok d'.
Proof. intros H1 H2 H3 H4 [D1 D2 D3 D4 D5 D6 D7]. split; rewrite ?H1, ?H2, ?H3, ?H4; done. Qed.

(** The registry next to the address space it allocates from. *)
Record reg_ok d (mm : MemoryManager) : Prop := {
  ro_dm : dm_ok d;
  ro_mem : mem_ok mm;
  ro_window : alloc_base (mmio_allocator mm) + alloc_size (mmio_allocator mm) < 2 ^ 63;
  ro_bases : ∀ id dev b, devices d !! id = Some dev → mmio_base (info dev) = Some b →
    b + MMIO_SIZE ≤ alloc_next (mmio_allocator mm);
  ro_irqs : ∀ id dev line, devices d !! id = Some dev → irq (info dev) = Some line →
    line < next_irq (chip d);
  ro_next : 0 ≤ next_id d ∧ 32 ≤ next_irq (chip d);
  ro_callback : trigger_callback (chip d) = true
}.

(** Identifiers and lines left for [k] more registrations. *)
Definition room d (k : Z) : Prop := next_id d + k < u32_bound ∧ next_irq (chip d) + k < u32_bound.

Lemma allocate_level_spec c :
  32 ≤ next_irq c → next_irq c + 1 < u32_bound → trigger_callback c = true →
  let '(r, c') := allocate_level_irq c in
  next_irq c' = next_irq c + 1 ∧ trigger_callback c' = true ∧
  (∀ line, line < next_irq c → level_line c line → level_line c' line) ∧
  (∀ line, r = Ok line → line = next_irq c ∧ level_line c' line).
Proof.
  intros H32 Hb Hcb. unfold allocate_level_irq, allocate_irq_inner.
  assert (wrap32 (next_irq c + 1) = next_irq c + 1) as Hw by (apply Z.mod_small; lia).
  destruct (Z.leb_spec MAX_IRQS (next_irq c)).
  - split; [exact Hw|]. split; [done|]. split; [|done]. intros line _ Hl. exact Hl.
  - split; [exact Hw|]. split; [done|]. split.
    + intros line Hlt (H1 & H2 & cfg & H3 & H4). split; [done|]. split; [done|]. exists cfg.
      split; [|done]. etransitivity; [apply lookup_insert_ne; lia|exact H3].
    + intros line [= <-]. split; [done|]. split; [done|]. split; [done|].
      exists (MkIrqConfig (next_irq c) Level false). split; [|done]. apply lookup_insert_eq.
Qed.

Lemma mmio_slot_size : page_align MMIO_SIZE = 0x1000.
Proof. reflexivity. Qed.

(** Only the registry's counters and the chip change. *)
Lemma reg_ok_chip d mm mm' c id :
  reg_ok d mm → mem_ok mm' → alloc_next (mmio_allocator mm) ≤ alloc_next (mmio_allocator mm') →
  alloc_base (mmio_allocator mm') + alloc_size (mmio_allocator mm') < 2 ^ 63 →
  next_id d ≤ id → next_irq (chip d) ≤ next_irq c → trigger_callback c = true →
  (∀ line, line < next_irq (chip d) → level_line (chip d) line → level_line c line) →
  reg_ok (d <| next_id := id |> <| chip := c |>) mm'.
Proof.
  intros [[D1 D2 D3 D4 D5 D6 D7] Hm Hw Hb Hi [Hn1 Hn2] Hcb] Hm' Hnext Hw' Hid Hirq Hcb' Hl.
  split; [|done|done| | |proj; lia|done].
  - split; [|done|done|done| |done|done].
    + intros i dev Hd. specialize (D1 i dev Hd). proj. lia.
    + intros i dev line Hd Hline. apply Hl; [by eapply Hi|by eapply D5].
  - intros i dev b Hd Hbase. specialize (Hb i dev b Hd Hbase). lia.
  - intros i dev line Hd Hline. specialize (Hi i dev line Hd Hline). proj. lia.
Qed.

(** A device in a slot and on a line of its own. *)
Lemma reg_ok_insert d mm dev b line :
  reg_ok d mm → mmio_base (info dev) = Some b → mmio_size (info dev) = MMIO_SIZE →
  irq (info dev) = Some line → (∀ s, mmio_state dev = Some s → mmio_ok s) →
  (∀ id' dev' b', devices d !! id' = Some dev' → mmio_base (info dev') = Some b' → b' + MMIO_SIZE ≤ b) →
  0 ≤ b → b + MMIO_SIZE ≤ alloc_next (mmio_allocator mm) →
  (∀ id' dev', devices d !! id' = Some dev' → irq (info dev') ≠ Some line) →
  level_line (chip d) line → line < next_irq (chip d) →
  ∀ id, 0 ≤ id < next_id d → devices d !! id = None →
  reg_ok (d <| mmio_map := <[b := id]> (mmio_map d) |> <| devices := <[id := dev]> (devices d) |>) mm.
Proof.
  intros [[D1 D2 D3 D4 D5 D6 D7] Hm Hw Hb Hi Hn Hcb] Hbase Hsize Hirq Hs Hlow H0 Hfit Hline Hlev Hlt id Hid Hnone.
  pose proof (mm_window _ Hm) as Hwin.
  assert (∀ i dv, <[id := dev]> (devices d) !! i = Some dv →
    (i = id ∧ dv = dev) ∨ (i ≠ id ∧ devices d !! i = Some dv)) as Hlk.
  { intros i dv Hl. apply lookup_insert_Some in Hl as [[-> ->]|[? ?]]; [by left|by right]. }
  split; [|done|done| | |done|done].
  - split.
    + intros i dv [[-> ->]|[_ Hd]]%Hlk; [done|by eapply D1].
    + intros i dv b' [[-> ->]|[Hne Hd]]%Hlk Hb'.
      * rewrite Hbase in Hb'. injection Hb' as <-. split; [apply lookup_insert_eq|].
        split; [done|]. unfold u64_bound in *. lia.
      * destruct (D2 i dv b' Hd Hb') as (Hmap & ? & ?). split; [|done].
        etransitivity; [apply lookup_insert_ne|exact Hmap]. specialize (Hlow i dv b' Hd Hb').
        unfold MMIO_SIZE in Hlow. lia.
    + intros b' i Hmap. proj. apply lookup_insert_Some in Hmap as [[<- <-]|[Hne Hmap]].
      * exists dev. split; [apply lookup_insert_eq|done].
      * destruct (D3 b' i Hmap) as (dv & Hd & Hb'). exists dv. split; [|done].
        etransitivity; [apply lookup_insert_ne|exact Hd]. congruence.
    + intros i i' dv dv' b1 b2 [[-> ->]|[Hne Hd]]%Hlk [[-> ->]|[Hne' Hd']]%Hlk Hb1 Hb2 Hii; [done| | |exact (D4 i i' dv dv' b1 b2 Hd Hd' Hb1 Hb2 Hii)].
      * rewrite Hbase in Hb1. injection Hb1 as <-. right. by eapply Hlow.
      * rewrite Hbase in Hb2. injection Hb2 as <-. left. by eapply Hlow.
    + intros i dv l [[-> ->]|[_ Hd]]%Hlk Hl; [|by eapply D5]. rewrite Hirq in Hl. by injection Hl as <-.
    + intros i i' dv dv' l [[-> ->]|[Hne Hd]]%Hlk [[-> ->]|[Hne' Hd']]%Hlk Hl Hl'; [done| | |exact (D6 i i' dv dv' l Hd Hd' Hl Hl')].
      * rewrite Hirq in Hl. injection Hl as <-. by destruct (Hline _ _ Hd').
      * rewrite Hirq in Hl'. injection Hl' as <-. by destruct (Hline _ _ Hd).
    + intros i dv s [[-> ->]|[_ Hd]]%Hlk Hst; [by apply Hs|by eapply D7].
  - intros i dv b' [[-> ->]|[_ Hd]]%Hlk Hb'; [|by eapply Hb]. rewrite Hbase in Hb'. by injection Hb' as <-.
  - intros i dv l [[-> ->]|[_ Hd]]%Hlk Hl; [|by eapply Hi]. rewrite Hirq in Hl. by injection Hl as <-.
Qed.

Lemma register_at_ok d mm ty name label vid features dv :
  reg_ok d mm → room d 1 → in_u32 vid → in_u64 features →
  let '(r, d', mm') := register_at (E := E) d mm ty name label vid features dv in
  reg_ok d' mm' ∧ next_id d' = next_id d + 1 ∧ next_irq (chip d') ≤ next_irq (chip d) + 1.
Proof.
  intros Hok [Hr1 Hr2] Hvid Hfeat. pose proof Hok as [Hd Hm Hw Hb Hi [Hn1 Hn2] Hcb].
  assert (wrap32 (next_id d + 1) = next_id d + 1) as Hid by (apply Z.mod_small; lia).
  unfold register_at. rewrite Hid. set (d1 := d <| next_id := next_id d + 1 |>).
  assert (d1 = d1 <| chip := chip d |>) as Hd1 by (unfold d1; by destruct d).
  destruct (allocate_mmio mm MMIO_SIZE name) as [[b mm1]|e] eqn:Ha.
  2: { split; [|split; [done|unfold d1; proj; lia]]. rewrite Hd1.
       apply (reg_ok_chip d mm mm (chip d)); try done; lia. }
  pose proof (mm_window _ Hm) as Hwin.
  destruct (allocate_mmio_ok mm MMIO_SIZE name b mm1) as (Hm1 & Hbeq & Hnext & Hbase & Hsize & Hfit);
    [done|done|done| |done|]; rewrite mmio_slot_size in *; [unfold u64_bound; lia|].
  change (chip d1) with (chip d).
  pose proof (allocate_level_spec (chip d) Hn2 Hr2 Hcb) as Hal.
  destruct (allocate_level_irq (chip d)) as [al c]. destruct Hal as (Hnirq & Hcb' & Hkeep & Hnew).
  assert (reg_ok (d1 <| chip := c |>) mm1) as Hok1.
  { apply (reg_ok_chip d mm mm1 c); try done; try lia. }
  destruct al as [line|e]; [|split; [done|]; split; [done|]; proj; lia].
  destruct (Hnew line eq_refl) as [-> Hlev].
  split; [|split; [done|proj; lia]].
  apply (reg_ok_insert (d1 <| chip := c |>) mm1 _ b (next_irq (chip d))); try done.
  - intros s [= <-]. by apply new_mmio_ok.
  - intros id' dev' b' Hd' Hb'. rewrite Hbeq. by apply (Hb id' dev').
  - lia.
  - unfold MMIO_SIZE. lia.
  - intros id' dev' Hd' Hl. specialize (Hi id' dev' _ Hd' Hl). lia.
  - change (next_irq (chip d) < next_irq c). lia.
  - change (0 ≤ next_id d < next_id d + 1). lia.
  - change (devices d !! next_id d = None). destruct (devices d !! next_id d) eqn:Hl; [|done].
    pose proof (do_ids _ Hd _ _ Hl). lia.
Qed.

Lemma register_ok d mm ty name :
  reg_ok d mm → room d 1 →
  let '(id, d') := register d ty name in
  reg_ok d' mm ∧ next_id d' = next_id d + 1 ∧ chip d' = chip d.
Proof.
  intros Hok [Hr1 Hr2]. pose proof Hok as [[D1 D2 D3 D4 D5 D6 D7] Hm Hw Hb Hi [Hn1 Hn2] Hcb].
  assert (wrap32 (next_id d + 1) = next_id d + 1) as Hid by (apply Z.mod_small; lia).
  unfold register. rewrite Hid. split; [|done].
  assert (devices d !! next_id d = None) as Hnone.
  { destruct (devices d !! next_id d) eqn:Hl; [|done]. specialize (D1 _ _ Hl). lia. }
  set (dv := MkDevice _ _ _).
  assert (∀ i dev, <[next_id d := dv]> (devices d) !! i = Some dev →
    dev = dv ∨ devices d !! i = Some dev) as Hlk.
  { intros i dev Hl. apply lookup_insert_Some in Hl as [[_ ->]|[_ ?]]; auto. }
  split; [|done|done| | |proj; lia|done].
  - split.
    + intros i dev Hl. proj. apply lookup_insert_Some in Hl as [[<- _]|[_ Hl]]; [lia|]. specialize (D1 _ _ Hl). lia.
    + intros i dev b [->|Hd]%Hlk Hb'; [done|by apply (D2 i dev)].
    + intros b i Hmap. destruct (D3 b i Hmap) as (dev & Hd & Hb'). exists dev. split; [|done].
      etransitivity; [apply lookup_insert_ne|exact Hd]. intros <-. congruence.
    + intros i i' dev dev' b b' [->|Hd]%Hlk [->|Hd']%Hlk Hb1 Hb2; [done..|]. by apply (D4 i i' dev dev').
    + intros i dev l [->|Hd]%Hlk Hl; [done|]. by apply (D5 i dev).
    + intros i i' dev dev' l [->|Hd]%Hlk [->|Hd']%Hlk Hl Hl'; [done..|]. by apply (D6 i i' dev dev' l).
    + intros i dev s [->|Hd]%Hlk Hs; [done|]. by apply (D7 i dev).
  - intros i dev b [->|Hd]%Hlk Hb'; [done|]. by apply (Hb i dev).
  - intros i dev l [->|Hd]%Hlk Hl; [done|]. by apply (Hi i dev).
Qed.

(** ** Sequences of registrations *)

Inductive RegOp :=
| RegPlain (ty : DeviceType) (name : string)
| RegVirtio (ty : DeviceType) (name : string) (virtio_id features : Z)
| RegDevice (ty : DeviceType) (name : string) (dev : Dev).

Definition reg_step (st : DeviceManager * MemoryManager) (op : RegOp) : DeviceManager * MemoryManager :=
  let '(d, mm) := st in
  match op with
  | RegPlain ty name => (snd (register d ty name), mm)
  | RegVirtio ty name vid features =>
      let '(_, d, mm) := register_virtio (E := E) d mm ty name vid features in (d, mm)
  | RegDevice ty name dev =>
      let '(_, d, mm) := register_virtio_device d mm ty name dev in (d, mm)
  end.

(** Device identifiers and feature words in their widths. *)
Definition reg_op_ok (op : RegOp) : Prop :=
  match op with
  | RegPlain _ _ => True
  | RegVirtio _ _ vid features => in_u32 vid ∧ in_u64 features
  | RegDevice _ _ dev => in_u32 (dev_id dev) ∧ in_u64 (dev_features dev)
  end.

Lemma reg_run_ok d mm ops :
  reg_ok d mm → room d (Z.of_nat (length ops)) → Forall reg_op_ok ops →
  let '(d', mm') := foldl reg_step (d, mm) ops in reg_ok d' mm'.
Proof.
  intros Hok Hroom Hops. revert d mm Hok Hroom.
  induction Hops as [|op ops Hop _ IH]; intros d mm Hok Hroom; [done|]. cbn [foldl].
  simpl length in Hroom. unfold room in *.
  destruct op as [ty name|ty name vid features|ty name dev]; cbn [reg_step].
  - pose proof (register_ok d mm ty name Hok ltac:(unfold room; lia)) as Hr.
    destruct (register d ty name) as [id d'] eqn:Hreg. destruct Hr as (Hok' & Hid & Hc).
    apply IH; [done|]. cbn [snd]. rewrite Hid, Hc. lia.
  - destruct Hop as [Hv Hf]. unfold register_virtio.
    pose proof (register_at_ok d mm ty name (pretty.pretty (next_id d)) vid features None Hok ltac:(unfold room; lia) Hv Hf) as Hr.
    destruct (register_at _ _ _ _ _ _ _ _) as [[r d'] mm']. destruct Hr as (Hok' & Hid & Hc).
    apply IH; [done|]. rewrite Hid. lia.
  - destruct Hop as [Hv Hf]. unfold register_virtio_device.
    pose proof (register_at_ok d mm ty name name (dev_id dev) (dev_features dev) (Some dev) Hok ltac:(unfold room; lia) Hv Hf) as Hr.
    destruct (register_at _ _ _ _ _ _ _ _) as [[r d'] mm']. destruct Hr as (Hok' & Hid & Hc).
    apply IH; [done|]. rewrite Hid. lia.
Qed.

(** A fresh machine: an empty registry, a chip with its callback, a window. *)
Lemma new_reg_ok base size :
  0 ≤ base → 0 ≤ size → base + size < 2 ^ 63 →
  reg_ok (Dm.new_manager (set_trigger_callback new_chip)) (with_mmio_base base size).
Proof.
  intros Hb Hs Hf. split; try done.
  apply with_mmio_base_ok; unfold u64_bound; lia.
Qed.

(** ** What an access may change *)

Definition info_of d (i : Z) : option DeviceInfo := info <$> devices d !! i.
Definition regs_of d (i : Z) : option VirtioMmioState := devices d !! i ≫= mmio_state.

(** Every register file well formed. *)
Definition regs_fine d : Prop := ∀ i s, regs_of d i = Some s → mmio_ok s.

(** The registry keeps its shape; of the registers only those of [id], of the
    lines only the one of [id]. *)
Record touches (id : Z) d d' : Prop := {
  t_info : ∀ i, info_of d' i = info_of d i;
  t_map : mmio_map d' = mmio_map d;
  t_next : next_id d' = next_id d;
  t_callback : irq_callback d' = irq_callback d;
  t_regs : ∀ i, i ≠ id → regs_of d' i = regs_of d i;
  t_fine : regs_fine d → regs_fine d';
  t_level : ∀ l, level_line (chip d) l → level_line (chip d') l;
  t_line : ∀ l, (info_of d id ≫= irq) ≠ Some l → line (chip d') l = line (chip d) l
}.

Lemma touches_refl id d : touches id d d.
Proof. by split. Qed.

Lemma touches_trans id d1 d2 d3 : touches id d1 d2 → touches id d2 d3 → touches id d1 d3.
Proof.
  intros [A1 A2 A3 A4 A5 A8 A6 A7] [B1 B2 B3 B4 B5 B8 B6 B7]. split.
  - intros i. by rewrite B1.
  - congruence.
  - congruence.
  - congruence.
  - intros i Hi. by rewrite B5, A5.
  - auto.
  - auto.
  - intros l Hl. rewrite B7, A7; [done|done|by rewrite A1].
Qed.

(** Parts of the manager that neither the registry nor the lines depend on. *)
Lemma touches_rest id d d' :
  devices d' = devices d → mmio_map d' = mmio_map d → next_id d' = next_id d →
  irq_callback d' = irq_callback d → chip d' = chip d → touches id d d'.
Proof. intros H1 H2 H3 H4 H5. split; unfold regs_fine, info_of, regs_of; by rewrite ?H1, ?H5. Qed.

Lemma put_mmio_regs id d s i :
  is_Some (devices d !! id) →
  regs_of (put_mmio d id s) i = if decide (i = id) then Some s else regs_of d i.
Proof.
  intros [dev Hd]. unfold put_mmio, regs_of. rewrite Hd. proj.
  destruct (decide (i = id)) as [->|]; [by rewrite lookup_insert_eq|by rewrite lookup_insert_ne].
Qed.

Lemma put_mmio_touches id d s : (regs_fine d → mmio_ok s) → touches id d (put_mmio d id s).
Proof.
  intros Hs. destruct (devices d !! id) as [dev|] eqn:Hd.
  2: { unfold put_mmio. rewrite Hd. apply touches_refl. }
  assert (∀ i, info_of (put_mmio d id s) i = info_of d i) as Hi.
  { intros i. unfold put_mmio, info_of. rewrite Hd. proj.
    destruct (decide (i = id)) as [->|]; [by rewrite lookup_insert_eq, Hd|by rewrite lookup_insert_ne]. }
  split; [done| | | | | | |]; try (unfold put_mmio; by rewrite Hd).
  - intros i Hne. rewrite put_mmio_regs by eauto. by rewrite decide_False.
  - intros Hf i s'. rewrite put_mmio_regs by eauto. case_decide; [|apply Hf]. intros [= <-]. auto.
Qed.

Lemma put_device_regs d o v i : regs_of (put_device d o v) i = regs_of d i.
Proof.
  unfold put_device, regs_of. destruct (devices d !! o) as [dev|] eqn:Hd; [|done]. proj.
  destruct (decide (i = o)) as [->|]; [by rewrite lookup_insert_eq, Hd|by rewrite lookup_insert_ne].
Qed.

Lemma put_device_touches id d o v : touches id d (put_device d o v).
Proof.
  split; try (unfold put_device; by case_match).
  - unfold put_device, info_of. destruct (devices d !! o) as [dev|] eqn:Hd; [|done]. intros i. proj.
    destruct (decide (i = o)) as [->|]; [by rewrite lookup_insert_eq, Hd|by rewrite lookup_insert_ne].
  - intros i _. apply put_device_regs.
  - intros Hf i s. rewrite put_device_regs. apply Hf.
Qed.

Section driving.
Context (cb_ok : nat → bool) (clock : nat → Z).

Lemma drive_line_devices d l level : devices (drive_line cb_ok clock d l level) = devices d.
Proof. unfold drive_line. by destruct (irq_callback d). Qed.

Lemma drive_line_touches id d l level :
  info_of d id ≫= irq = Some l → level_line (chip d) l →
  touches id d (drive_line cb_ok clock d l level).
Proof.
  intros Hid Hl. unfold drive_line. destruct (irq_callback d) eqn:Hcb; [|apply touches_refl].
  assert (same_lines l level (chip d)
    (if level then snd (trigger_irq cb_ok (chip d) l (clock (length (calls (chip d)))))
     else snd (deassert_irq cb_ok (chip d) l))) as Hs.
  { destruct level; [by apply trigger_level|by apply deassert_level]. }
  split; try done; cbn; proj.
  - intros l'. by apply (same_lines_level _ _ _ _ _ Hs).
  - intros l' Hl'. rewrite (line_call _ _ _ _ _ (sl_calls _ _ _ _ Hs)).
    destruct (Z.eqb_spec l l'); [|done]. congruence.
Qed.

Lemma drive_line_level d l level :
  level_line (chip d) l → irq_callback d = true →
  line (chip (drive_line cb_ok clock d l level)) l = level.
Proof.
  intros Hl Hcb. unfold drive_line. rewrite Hcb. proj.
  destruct level; [pose proof (trigger_level cb_ok _ _ (clock (length (calls (chip d)))) Hl) as Hs
    |pose proof (deassert_level cb_ok _ _ Hl) as Hs];
    by rewrite (line_call _ _ _ _ _ (sl_calls _ _ _ _ Hs)), Z.eqb_refl.
Qed.

(** Every registered device's line is a level line. *)
Definition lines_ok d : Prop := ∀ i l, info_of d i ≫= irq = Some l → level_line (chip d) l.

Lemma touches_lines id d d' : touches id d d' → lines_ok d → lines_ok d'.
Proof. intros Ht Hl i l Hi. apply (t_level _ _ _ Ht), (Hl i). by rewrite <- (t_info _ _ _ Ht). Qed.

Lemma sync_level_touches id d : lines_ok d → touches id d (sync_irq_level cb_ok clock d id).
Proof.
  intros Hl. unfold sync_irq_level. specialize (Hl id). unfold info_of in Hl.
  destruct (devices d !! id) as [dev|] eqn:Hd; [|apply touches_refl].
  destruct (irq (info dev)) as [l|] eqn:Hi; [|apply touches_refl].
  destruct (mmio_state dev) as [s|]; [|apply touches_refl].
  destruct (driver_ok s); [|apply touches_refl].
  apply drive_line_touches; [unfold info_of; by rewrite Hd|]. apply Hl. by rewrite <- Hi.
Qed.

Lemma sync_devices id d : devices (sync_irq_level cb_ok clock d id) = devices d.
Proof. unfold sync_irq_level. repeat case_match; try done. apply drive_line_devices. Qed.
End driving.
(** ** Finding the device of an access *)

Section search.
Context (iter : gmap Z Z → list (Z * Z)).
Context (iter_perm : ∀ m, iter m ≡ₚ map_to_list m).

Lemma find_by_mmio_spec d addr id :
  dm_ok d → find_by_mmio iter d addr = Some id ↔
  ∃ dev b, devices d !! id = Some dev ∧ mmio_base (info dev) = Some b ∧ b ≤ addr < b + MMIO_SIZE.
Proof.
  intros Hd. unfold find_by_mmio.
  assert (∀ b i, (b, i) ∈ iter (mmio_map d) ↔ mmio_map d !! b = Some i) as Hit.
  { intros b i. by rewrite iter_perm, elem_of_map_to_list. }
  split.
  - destruct (List.find _ _) as [[b i]|] eqn:Hf; [|done]. intros [= <-].
    apply find_some in Hf as [Hin Hp]. rewrite <- list_elem_of_In, Hit in Hin.
    destruct (do_map _ Hd b i Hin) as (dev & Hdev & Hb). rewrite Hdev in Hp.
    destruct (do_slot _ Hd i dev b Hdev Hb) as (_ & Hsz & H0 & Hw). rewrite Hsz in Hp.
    rewrite u64_add_small in Hp by (unfold MMIO_SIZE in *; lia).
    rewrite andb_true_iff, Z.leb_le, Z.ltb_lt in Hp. by exists dev, b.
  - intros (dev & b & Hdev & Hb & Hr). destruct (do_slot _ Hd id dev b Hdev Hb) as (Hmap & Hsz & H0 & Hw).
    destruct (List.find _ _) as [[b' i']|] eqn:Hf.
    + apply find_some in Hf as [Hin Hp]. rewrite <- list_elem_of_In, Hit in Hin.
      destruct (do_map _ Hd b' i' Hin) as (dev' & Hdev' & Hb'). rewrite Hdev' in Hp.
      destruct (do_slot _ Hd i' dev' b' Hdev' Hb') as (_ & Hsz' & H0' & Hw'). rewrite Hsz' in Hp.
      rewrite u64_add_small in Hp by (unfold MMIO_SIZE in *; lia).
      rewrite andb_true_iff, Z.leb_le, Z.ltb_lt in Hp. simpl. f_equal.
      destruct (decide (i' = id)) as [|Hne]; [done|].
      destruct (do_apart _ Hd i' id dev' dev b' b Hdev' Hdev Hb' Hb Hne); lia.
    + pose proof (find_none _ _ Hf (b, id)) as Hn. rewrite <- list_elem_of_In, Hit in Hn.
      specialize (Hn Hmap). simpl in Hn. rewrite Hdev, Hsz in Hn.
      rewrite u64_add_small in Hn by (unfold MMIO_SIZE in *; lia).
      rewrite (proj2 (Z.leb_le _ _)), (proj2 (Z.ltb_lt _ _)) in Hn by lia. done.
Qed.

(** ** An access touches the device it is routed to *)

Section access.
Context (cb_ok : nat → bool) (clock : nat → Z).
Notation sync := (sync_irq_level cb_ok clock).

Lemma signal_used_touches id d : lines_ok d → touches id d (signal_used cb_ok clock d id).
Proof.
  intros Hl. unfold signal_used. destruct (devices d !! id) as [[i [s|] v]|] eqn:Hd; try apply touches_refl.
  assert (touches id d (put_mmio d id (trigger_interrupt s INT_VRING))) as Hp.
  { apply put_mmio_touches. intros Hf. apply trigger_interrupt_ok.
    - apply (Hf id). unfold regs_of. by rewrite Hd.
    - pose proof int_vring_u32. unfold in_u32. lia. }
  eapply touches_trans; [exact Hp|]. apply sync_level_touches. by eapply touches_lines.
Qed.

Lemma spawn_touches id d i : touches id d (maybe_spawn_net_rx_worker d i).
Proof. unfold maybe_spawn_net_rx_worker. repeat case_match; try apply touches_refl. by apply touches_rest. Qed.

Lemma on_status_touches id d old v : touches id d (snd (on_status (E := E) d id old v)).
Proof.
  unfold on_status. repeat case_match; simplify_eq/=;
    repeat first
      [ eapply touches_refl
      | match goal with
        | |- touches _ _ (put_device _ _ _) => eapply touches_trans; [|apply put_device_touches]
        | |- touches _ _ (maybe_spawn_net_rx_worker _ _) => eapply touches_trans; [|apply spawn_touches]
        end ].
Qed.

(** Work done in a device and in guest memory. *)
Lemma work_touches id d o v (m : GuestMem) : touches id d ((put_device d o v) <| guest_mem := Some m |>).
Proof. eapply touches_trans; [apply (put_device_touches id d o v)|]. by apply touches_rest. Qed.

Lemma notify_net_touches id d dev qcfg m :
  lines_ok d → touches id d (notify_net cb_ok clock d id dev qcfg m).
Proof.
  intros Hl. unfold notify_net. destruct (if bool_decide _ then _ else _) as [o|]; [|apply touches_refl].
  destruct (devices d !! o) as [[i s [v|]]|]; try apply touches_refl.
  destruct (drain_tx_queue v m qcfg) as [[n v'] m'].
  pose proof (work_touches id d o v' m') as Hw. case_match; [|done].
  eapply touches_trans; [exact Hw|]. apply signal_used_touches. by eapply touches_lines.
Qed.

Lemma notify_generic_touches id d dev v q qcfg m :
  lines_ok d → touches id d (notify_generic cb_ok clock d id dev v q qcfg m).
Proof.
  intros Hl. unfold notify_generic. destruct (process_queue v q m qcfg) as [[r v'] m'].
  pose proof (work_touches id d id v' m') as Hw. destruct r as [[|c cs]|e]; [done| |done].
  case_match; [done|]. eapply touches_trans; [exact Hw|]. apply signal_used_touches. by eapply touches_lines.
Qed.

Lemma on_notify_touches id d v : lines_ok d → touches id d (on_notify cb_ok clock d id v).
Proof.
  intros Hl. unfold on_notify. destruct (devices d !! id) as [[i [s|] [dv|]]|]; try apply touches_refl.
  destruct (guest_mem d) as [m|]; [|apply touches_refl].
  case_match; [case_match; [by apply touches_rest|apply touches_refl]|].
  case_match; [by apply notify_net_touches|by apply notify_generic_touches].
Qed.

Lemma write_register_touches id d s offset v :
  lines_ok d → regs_of d id = Some s → in_u32 v → touches id d (snd (write_register (E := E) cb_ok clock d id s offset v)).
Proof.
  intros Hl Hs Hv. unfold write_register.
  assert (touches id d (put_mmio d id (mmio_write s offset v))) as Hp.
  { apply put_mmio_touches. intros Hf. apply mmio_write_ok; [by apply (Hf id)|done]. }
  assert (lines_ok (put_mmio d id (mmio_write s offset v))) as Hl' by (by eapply touches_lines).
  eapply touches_trans; [exact Hp|]. case_match; [apply on_status_touches|].
  case_match; [by apply on_notify_touches|]. case_match; [by apply sync_level_touches|apply touches_refl].
Qed.

Lemma truncate_u32 size v : in_u32 (truncate size v).
Proof.
  unfold truncate. repeat case_match; try apply in_u32_wrap;
    [change 0xFF with (Z.ones 8)|change 0xFFFF with (Z.ones 16)];
    rewrite Z.land_ones by lia; unfold in_u32, u32_bound;
    match goal with |- 0 ≤ ?x mod ?y < _ => pose proof (Z.mod_pos_bound x y); lia end.
Qed.

Lemma write_touches d addr size value id :
  lines_ok d → find_by_mmio iter d addr = Some id →
  touches id d (snd (handle_mmio_write (E := E) cb_ok clock iter d addr size value)).
Proof.
  intros Hl Hf. unfold handle_mmio_write. rewrite Hf.
  destruct (devices d !! id) as [dev|] eqn:Hd; [|apply touches_refl].
  destruct (mmio_state dev) as [s|] eqn:Hs; [|apply touches_refl].
  case_match; [|apply write_register_touches; [done|unfold regs_of; by rewrite Hd|apply truncate_u32]].
  destruct (virtio_device dev); [|apply touches_refl].
  case_match; [apply put_device_touches|apply touches_refl].
Qed.

Lemma write_unrouted d addr size value :
  find_by_mmio iter d addr = None →
  handle_mmio_write (E := E) cb_ok clock iter d addr size value = (Err (NoDeviceAt addr), d).
Proof. intros Hf. unfold handle_mmio_write. by rewrite Hf. Qed.

(** The registry stays consistent. *)
Lemma touches_dm_ok id d d' : dm_ok d → touches id d d' → dm_ok d'.
Proof.
  intros Hd Ht. pose proof Ht as [T1 T2 T3 T4 T5 T6 T7 T8].
  assert (∀ i dev', devices d' !! i = Some dev' →
    ∃ dev, devices d !! i = Some dev ∧ info dev = info dev') as Hback.
  { intros i dev' Hi. specialize (T1 i). unfold info_of in T1. rewrite Hi in T1.
    destruct (devices d !! i) as [dev|]; [|done]. exists dev. split; [done|]. by injection T1. }
  destruct Hd as [D1 D2 D3 D4 D5 D6 D7]. split.
  - intros i dev' (dev & Hi & _)%Hback. rewrite T3. by apply (D1 i dev).
  - intros i dev' b (dev & Hi & <-)%Hback Hb. rewrite T2. by apply (D2 i dev).
  - intros b i Hm. rewrite T2 in Hm. destruct (D3 b i Hm) as (dev & Hi & Hb).
    specialize (T1 i). unfold info_of in T1. rewrite Hi in T1.
    destruct (devices d' !! i) as [dev'|]; [|done]. exists dev'. split; [done|].
    injection T1 as ->. done.
  - intros i i' dev1 dev2 b b' (e1 & H1 & <-)%Hback (e2 & H2 & <-)%Hback. by apply (D4 i i' e1 e2).
  - intros i dev' l (dev & Hi & <-)%Hback Hl. apply T7. by apply (D5 i dev).
  - intros i i' dev1 dev2 l (e1 & H1 & <-)%Hback (e2 & H2 & <-)%Hback. by apply (D6 i i' e1 e2).
  - intros i dev' s Hi Hs. apply (T6 ltac:(intros j sj Hj; unfold regs_of in Hj;
      destruct (devices d !! j) eqn:He; [by apply (D7 j r)|done]) i). unfold regs_of. by rewrite Hi.
Qed.

Lemma dm_ok_lines d : dm_ok d → lines_ok d.
Proof.
  intros Hd i l. unfold info_of. destruct (devices d !! i) as [dev|] eqn:Hi; [|done].
  intros Hl. by apply (do_lines _ Hd i dev).
Qed.

(** The guest's accesses, one after the other. *)
Definition guest_write d (w : Z * Z * Z) : DeviceManager :=
  let '(addr, size, value) := w in snd (handle_mmio_write (E := E) cb_ok clock iter d addr size value).

Lemma guest_write_ok d w : dm_ok d → dm_ok (guest_write d w).
Proof.
  intros Hd. destruct w as [[addr size] value]. unfold guest_write.
  destruct (find_by_mmio iter d addr) as [id|] eqn:Hf.
  - eapply (touches_dm_ok id); [done|]. apply write_touches; [by apply dm_ok_lines|done].
  - by rewrite write_unrouted.
Qed.

Lemma guest_writes_ok d ws : dm_ok d → dm_ok (foldl guest_write d ws).
Proof. revert d. induction ws as [|w ws IH]; intros d Hd; [done|]. by apply IH, guest_write_ok. Qed.

(** ** A queue set up and kicked *)

(** The register writes of a driver for the device at [b]. *)
Definition at_device (b : Z) (ws : list (Z * Z)) : list (Z * Z * Z) :=
  (λ '(offset, value), (b + offset, 4, value)) <$> ws.

Lemma truncate_word v : in_u32 v → truncate 4 v = v.
Proof. intros Hv. unfold truncate. simpl. by apply Z.mod_small. Qed.

(** A word written to a register of the device at [b]. *)
Lemma write_at d id dev b s offset v :
  dm_ok d → devices d !! id = Some dev → mmio_base (info dev) = Some b → mmio_state dev = Some s →
  0 ≤ offset < CONFIG → in_u32 v →
  guest_write d (b + offset, 4, v) = snd (write_register (E := E) cb_ok clock d id s offset v).
Proof.
  intros Hok Hd Hb Hs Ho Hv. unfold guest_write, handle_mmio_write.
  pose proof config_in_window as Hc. destruct (do_slot _ Hok id dev b Hd Hb) as (_ & _ & H0 & Hw).
  rewrite (proj2 (find_by_mmio_spec d (b + offset) id Hok)).
  2: { exists dev, b. unfold MMIO_SIZE. repeat split; [done|done|lia..]. }
  rewrite Hd, Hb, Hs. change (default 0 (Some b)) with b.
  assert (wrap64 (b + offset - b) = offset) as ->.
  { unfold wrap64. replace (b + offset - b) with offset by lia. apply Z.mod_small.
    unfold u64_bound in *. unfold MMIO_SIZE in *. lia. }
  rewrite (proj2 (Z.leb_gt _ _)) by lia. by rewrite truncate_word.
Qed.

(** The registers whose write is only a register write. *)
Definition plain_reg (offset : Z) : bool :=
  negb (offset =? STATUS) && negb (offset =? QUEUE_NOTIFY) && negb (offset =? INTERRUPT_ACK).

Definition plain_write (w : Z * Z) : Prop :=
  plain_reg (fst w) = true ∧ 0 ≤ fst w < CONFIG ∧ in_u32 (snd w).

Lemma put_mmio_twice d id s s' : put_mmio (put_mmio d id s) id s' = put_mmio d id s'.
Proof.
  unfold put_mmio. destruct (devices d !! id) as [dev|] eqn:Hd; [|by rewrite Hd].
  proj. rewrite lookup_insert_eq. by rewrite insert_insert_eq.
Qed.

Lemma put_mmio_lookup d id i s0 s v :
  devices d !! id = Some (MkDevice i s0 v) →
  devices (put_mmio d id s) !! id = Some (MkDevice i (Some s) v).
Proof. intros Hd. unfold put_mmio. rewrite Hd. apply lookup_insert_eq. Qed.

Lemma put_mmio_same d id dev s :
  devices d !! id = Some dev → mmio_state dev = Some s → put_mmio d id s = d.
Proof.
  intros Hd Hs. unfold put_mmio. rewrite Hd. destruct d, dev. proj. subst. by rewrite insert_id.
Qed.

Lemma plain_writes_at d id dev b s ws :
  dm_ok d → devices d !! id = Some dev → mmio_base (info dev) = Some b → mmio_state dev = Some s →
  Forall plain_write ws →
  foldl guest_write d (at_device b ws) = put_mmio d id (mmio_writes s ws).
Proof.
  intros Hok Hd Hb Hs Hws. revert d dev s Hok Hd Hb Hs.
  induction Hws as [|[o v] ws (Hp & Ho & Hv) _ IH]; intros d dev s Hok Hd Hb Hs.
  { symmetry. by eapply put_mmio_same. }
  cbn [fst snd] in *. unfold plain_reg in Hp. rewrite !andb_true_iff, !negb_true_iff in Hp.
  destruct Hp as [[P1 P2] P3].
  assert (guest_write d (b + o, 4, v) = put_mmio d id (mmio_write s o v)) as Hw.
  { rewrite (write_at d id dev b s) by done. unfold write_register. by rewrite P1, P2, P3. }
  change (foldl guest_write (guest_write d (b + o, 4, v)) (at_device b ws) =
    put_mmio d id (mmio_writes (mmio_write s o v) ws)).
  assert (dm_ok (put_mmio d id (mmio_write s o v))) as Hok' by (rewrite <- Hw; by apply guest_write_ok).
  rewrite Hw, <- (put_mmio_twice d id (mmio_write s o v) (mmio_writes _ _)).
  eapply IH; [done| | |].
  - unfold put_mmio. rewrite Hd. apply lookup_insert_eq.
  - done.
  - done.
Qed.

Lemma setup_plain q num desc driver device :
  0 ≤ q < MAX_VIRTQUEUES → in_u16 num → Forall plain_write (queue_setup q num desc driver device).
Proof.
  intros Hq Hn. unfold queue_setup.
  assert (in_u32 q) by (unfold in_u32, u32_bound, MAX_VIRTQUEUES in *; lia).
  assert (in_u32 num) by (unfold in_u32, u32_bound, in_u16, u16_bound in *; lia).
  assert (in_u32 1) by done.
  assert (∀ r, r ∈ reg_offsets → r ≠ CONFIG → 0 ≤ r < CONFIG) as Hr.
  { intros r Hr Hne. pose proof (proj1 (list.Forall_forall _ _) regs_below_config r Hr). simpl in *. lia. }
  repeat (apply list.Forall_cons; split); try apply list.Forall_nil_2;
    (split; cbn [fst snd]; [unfold plain_reg; by reg_simpl|]);
    (split; [apply Hr; [rewrite list_elem_of_In; simpl; tauto|apply Z.eqb_neq; by reg_simpl]|]);
    first [done|apply in_u32_wrap].
Qed.

(** The queues a device processes on the spot. *)
Definition on_the_spot d (i : DeviceInfo) (q : Z) : Prop :=
  device_type i ≠ VirtioBlock ∧
  (device_type i = VirtioNet → q = 1 → primary_net d = None ∧ bridge_net d = None).

(** The completions a device reports are signalled, console output apart. *)
Definition signals (i : DeviceInfo) (q : Z) (r : result E (list (Z * Z))) : bool :=
  match r with
  | Ok (_ :: _) => negb (bool_decide (device_type i = VirtioConsole) && (q =? 1))
  | _ => false
  end.

Lemma sync_keeps id d :
  devices (sync_irq_level cb_ok clock d id) = devices d ∧
  guest_mem (sync_irq_level cb_ok clock d id) = guest_mem d.
Proof. unfold sync_irq_level, drive_line. by repeat case_match. Qed.

Lemma notify_generic_result d id i s v v0 q qcfg m :
  devices d !! id = Some (MkDevice i (Some s) (Some v0)) →
  let '(r, v', m') := process_queue v q m qcfg in
  let d' := notify_generic cb_ok clock d id (MkDevice i (Some s) (Some v0)) v q qcfg m in
  devices d' !! id = Some (MkDevice i
    (Some (if signals i q r then trigger_interrupt s INT_VRING else s)) (Some v')) ∧
  guest_mem d' = Some m'.
Proof.
  intros Hd. unfold notify_generic. destruct (process_queue v q m qcfg) as [[r v'] m'].
  set (d1 := (put_device d id v') <| guest_mem := Some m' |>).
  assert (devices d1 !! id = Some (MkDevice i (Some s) (Some v'))) as Hd1.
  { unfold d1, put_device. rewrite Hd. proj. apply lookup_insert_eq. }
  cbn [info]. unfold signals. destruct r as [[|c cs]|e]; [done| |done].
  destruct (_ && _); cbn [negb]; [done|]. unfold signal_used. rewrite Hd1.
  match goal with |- context [sync_irq_level _ _ ?d2 id] => destruct (sync_keeps id d2) as [-> ->] end.
  unfold put_mmio. rewrite Hd1. proj. rewrite lookup_insert_eq. done.
Qed.

Lemma notify_keeps_status s q : interrupt_status (mmio_write s QUEUE_NOTIFY q) = interrupt_status s.
Proof. unfold mmio_write. reg_simpl. destruct (q <? MAX_VIRTQUEUES); done. Qed.

Lemma kick_at d id i s v b m q :
  dm_ok d → devices d !! id = Some (MkDevice i (Some s) (Some v)) → mmio_base i = Some b →
  guest_mem d = Some m → 0 ≤ q < MAX_VIRTQUEUES → on_the_spot d i q →
  let '(r, v', m') := process_queue v q m (queue_config s q (gpa_base m)) in
  let d' := guest_write d (b + QUEUE_NOTIFY, 4, q) in
  let s' := mmio_write s QUEUE_NOTIFY q in
  devices d' !! id = Some (MkDevice i
    (Some (if signals i q r then trigger_interrupt s' INT_VRING else s')) (Some v')) ∧
  guest_mem d' = Some m'.
Proof.
  intros Hok Hd Hb Hm Hq [Hblk Hnet].
  assert (in_u32 q) as Hq32 by (unfold in_u32, u32_bound, MAX_VIRTQUEUES in *; lia).
  assert (0 ≤ QUEUE_NOTIFY < CONFIG) as Hn.
  { pose proof (proj1 (list.Forall_forall _ _) regs_below_config QUEUE_NOTIFY) as Hr. simpl in Hr.
    assert (QUEUE_NOTIFY ≠ CONFIG) by (apply Z.eqb_neq; by reg_simpl).
    assert (QUEUE_NOTIFY ∈ reg_offsets) as Hin by (rewrite list_elem_of_In; simpl; tauto).
    specialize (Hr Hin). lia. }
  rewrite (write_at d id _ b s) by done. unfold write_register. reg_simpl. cbn [snd].
  set (s' := mmio_write s QUEUE_NOTIFY q). unfold on_notify.
  assert (devices (put_mmio d id s') !! id = Some (MkDevice i (Some s') (Some v))) as Hd'
    by (by eapply put_mmio_lookup).
  assert (guest_mem (put_mmio d id s') = Some m) as Hm' by (unfold put_mmio; by rewrite Hd).
  assert (primary_net (put_mmio d id s') = primary_net d ∧ bridge_net (put_mmio d id s') = bridge_net d)
    as [Hp Hbr] by (unfold put_mmio; by rewrite Hd).
  assert (wrap16 q = q) as -> by (apply Z.mod_small; unfold MAX_VIRTQUEUES, u16_bound in *; lia).
  assert (queue_config s' q (gpa_base m) = queue_config s q (gpa_base m)) as Hqc.
  { unfold s', mmio_write. reg_simpl. by case_match. }
  rewrite Hd', Hm', Hp, Hbr, Hqc. rewrite bool_decide_false by done.
  assert (bool_decide (device_type i = VirtioNet) && (q =? 1)
    && (bool_decide (is_Some (primary_net d)) || bool_decide (is_Some (bridge_net d))) = false) as ->.
  { case_bool_decide as Ht; [|done]. destruct (Z.eqb_spec q 1) as [Hq1|]; [|done].
    destruct (Hnet Ht Hq1) as [-> ->]. done. }
  by apply notify_generic_result.
Qed.
End access.
End search.

Lemma mmio_read_u32 s offset : mmio_ok s → in_u32 (mmio_read s offset).
Proof.
  intros [(I1 & I2 & I3) (S1 & S2 & S3 & S4) N R D V Ev St [Q1 Q2] Sh K Ni].
  assert (in_u32 (status s)) by (unfold in_u8, in_u32, u8_bound, u32_bound in *; lia).
  unfold mmio_read, high32. repeat case_match; first [done | auto with width].
Qed.

(** A machine: devices registered, then guest accesses. *)
Definition machine (iter : gmap Z Z → list (Z * Z)) (cb_ok : nat → bool) (clock : nat → Z)
    (base size : Z) (ops : list RegOp) (ws : list (Z * Z * Z)) : DeviceManager :=
  foldl (guest_write iter cb_ok clock)
    (fst (foldl reg_step (Dm.new_manager (set_trigger_callback new_chip), with_mmio_base base size) ops)) ws.

Lemma machine_ok iter cb_ok clock base size ops ws :
  (∀ m, iter m ≡ₚ map_to_list m) → 0 ≤ base → 0 ≤ size → base + size < 2 ^ 63 →
  Z.of_nat (length ops) < 2 ^ 31 → Forall reg_op_ok ops →
  dm_ok (machine iter cb_ok clock base size ops ws).
Proof.
  intros Hiter Hb Hs Hf Hlen Hops. unfold machine. apply guest_writes_ok.
  pose proof (reg_run_ok _ _ ops (new_reg_ok base size Hb Hs Hf)) as Hr.
  destruct (foldl reg_step _ ops) as [d mm]. apply (ro_dm _ mm), Hr; [|done].
  unfold room, u32_bound. simpl. lia.
Qed.



(** A queue the driver sets up through its registers and kicks is the one
    the device is told to process: the device gets the addresses and the size
    the driver wrote, the 64-bit ones put together from their halves, and the
    used-buffer interrupt is pending after it when it reports completions. *)
Theorem kicked_queue_is_the_one_set_up iter cb_ok clock d id i s v b m q num desc driver device :
  (∀ m, iter m ≡ₚ map_to_list m) → dm_ok d →
  devices d !! id = Some (MkDevice i (Some s) (Some v)) → mmio_base i = Some b →
  guest_mem d = Some m → on_the_spot d i q →
  0 ≤ q < MAX_VIRTQUEUES → in_u16 num → in_u64 desc → in_u64 driver → in_u64 device →
  let d' := foldl (guest_write iter cb_ok clock) d
    (at_device b (queue_setup q num desc driver device ++ [(QUEUE_NOTIFY, q)])) in
  let '(r, v', m') := process_queue v q m (MkQueueConfig desc driver device num true (gpa_base m)) in
  guest_mem d' = Some m' ∧
  ∃ s', devices d' !! id = Some (MkDevice i (Some s') (Some v')) ∧
    interrupt_status s' =
      if signals i q r then Z.lor (interrupt_status s) INT_VRING else interrupt_status s.
Proof.
  intros Hiter Hok Hd Hb Hm Hspot Hq Hn Hde Hdr Hdv d'.
  set (s1 := mmio_writes s (queue_setup q num desc driver device)).
  assert (mmio_ok s) as Hs by (by apply (do_regs _ Hok id _ s Hd)).
  destruct (queue_setup_regs s q num desc driver device Hs Hq Hn Hde Hdr Hdv) as [Hs1 Hint]. fold s1 in Hs1, Hint.
  pose proof (plain_writes_at iter Hiter cb_ok clock d id _ b s _ Hok Hd Hb eq_refl
    (setup_plain q num desc driver device Hq Hn)) as Hd1. fold s1 in Hd1.
  assert (dm_ok (put_mmio d id s1)) as Hok1 by (rewrite <- Hd1; by apply guest_writes_ok).
  assert (devices (put_mmio d id s1) !! id = Some (MkDevice i (Some s1) (Some v))) as Hdev1
    by (by eapply put_mmio_lookup).
  assert (queue_config s1 q (gpa_base m) = MkQueueConfig desc driver device num true (gpa_base m)) as Hqc.
  { unfold queue_config. rewrite (proj2 (Z.ltb_lt q MAX_VIRTQUEUES)) by lia.
    unfold queue_regs in Hs1. by injection Hs1 as -> -> -> -> ->. }
  assert (on_the_spot (put_mmio d id s1) i q ∧ guest_mem (put_mmio d id s1) = Some m) as [Hspot1 Hm1].
  { unfold on_the_spot, put_mmio in *. by rewrite Hd. }
  assert (d' = guest_write iter cb_ok clock (put_mmio d id s1) (b + QUEUE_NOTIFY, 4, q)) as Hd'.
  { unfold d', at_device. rewrite fmap_app, foldl_app. unfold at_device in Hd1. by rewrite Hd1. }
  pose proof (kick_at iter Hiter cb_ok clock _ id i s1 v b m q Hok1 Hdev1 Hb Hm1 Hq Hspot1) as Hk.
  rewrite Hqc in Hk. destruct (process_queue v q m _) as [[r v'] m']. rewrite <- Hd' in Hk.
  destruct Hk as [Hk ->]. split; [done|]. eexists. split; [exact Hk|].
  assert (interrupt_status (mmio_write s1 QUEUE_NOTIFY q) = interrupt_status s) as <-
    by (by rewrite notify_keeps_status).
  by destruct (signals i q r).
Qed.
End props.

(** ** A concrete machine *)

(** The register layout of the virtio specification. *)
Definition spec_regs : MmioRegs := {|
  MAGIC := 0x000; REG_VERSION := 0x004; DEVICE_ID := 0x008; REG_VENDOR_ID := 0x00c;
  DEVICE_FEATURES := 0x010; DEVICE_FEATURES_SEL := 0x014; DRIVER_FEATURES := 0x020;
  DRIVER_FEATURES_SEL := 0x024; QUEUE_SEL := 0x030; QUEUE_NUM_MAX := 0x034; QUEUE_NUM := 0x038;
  QUEUE_READY := 0x044; QUEUE_NOTIFY := 0x050; INTERRUPT_STATUS := 0x060; INTERRUPT_ACK := 0x064;
  STATUS := 0x070; QUEUE_DESC_LOW := 0x080; QUEUE_DESC_HIGH := 0x084; QUEUE_DRIVER_LOW := 0x090;
  QUEUE_DRIVER_HIGH := 0x094; QUEUE_DEVICE_LOW := 0x0a0; QUEUE_DEVICE_HIGH := 0x0a4;
  CONFIG_GENERATION := 0x0fc; CONFIG := 0x100; INT_VRING := 1; INT_CONFIG := 2
|}.

Definition spec_bits : DeviceStatusBits := {| DRIVER_OK := 4; FEATURES_OK := 8 |}.

Lemma spec_regs_ok : @MmioRegsOk spec_regs.
Proof. split; [vm_compute; by apply (bool_decide_unpack _)|by apply (bool_decide_unpack _)|done..]. Qed.

(** A device that counts the queues it processed. *)
Definition counter_device : VirtioDevice Z unit := {|
  dev_id := λ _, 4; dev_features := λ _, 0; ack_features := λ n _, n;
  read_config := λ _ _ data, data; write_config := λ n _ _, n;
  activate := λ n, (Ok (), n); reset := λ _, 0;
  process_queue := λ n q m cfg, (Ok [(q, cfg_size cfg)], n + 1, m);
  drain_tx_queue := λ n m cfg, (false, n, m)
|}.

#[local] Existing Instance spec_regs.
#[local] Existing Instance spec_regs_ok.
#[local] Existing Instance spec_bits.
#[local] Existing Instance counter_device.

Definition ex_ops : list (@RegOp Z) :=
  [RegDevice VirtioRng "rng" 0; RegPlain Serial "uart"; RegDevice VirtioVsock "vsock" 10].

Definition ex_base : Z := 0x0C000000.
Definition ex_machine : @DeviceManager Z :=
  machine map_to_list (λ _, true) (λ _, 0) ex_base 0x100000 ex_ops [].

Lemma ex_ops_ok : Forall reg_op_ok ex_ops.
Proof. unfold ex_ops. repeat constructor; vm_compute; done. Qed.

Lemma ex_machine_ok : dm_ok ex_machine.
Proof. apply machine_ok; [done|done|done|done|done|apply ex_ops_ok]. Qed.



Definition ex_ram : GuestMem := MkGuestMem (replicate 64 0) 0x40000000.
Definition ex_booted : @DeviceManager Z := set_guest_memory (set_irq_callback ex_machine) ex_ram.

Lemma ex_booted_ok : dm_ok ex_booted.
Proof. by apply (dm_ok_rest ex_machine); [..|apply ex_machine_ok]. Qed.

(** The first queue of the entropy source, 16 entries, at scattered addresses. *)
Definition ex_kick : list (Z * Z) :=
  queue_setup 0 16 0x140000000 0x40001000 0x40002000 ++ [(QUEUE_NOTIFY, 0)].

Definition ex_rng : DeviceInfo := MkInfo 0 VirtioRng "rng" (Some ex_base) MMIO_SIZE (Some 32).

Lemma kicked_queue_is_the_one_set_up_witness :
  ∃ s', devices (foldl (guest_write map_to_list (λ _, true) (λ _, 0)) ex_booted (at_device ex_base ex_kick)) !! 0 =
      Some (MkDevice ex_rng (Some s') (Some 1)) ∧ interrupt_status s' = INT_VRING.
Proof.
  unshelve epose proof (kicked_queue_is_the_one_set_up map_to_list (λ _, true) (λ _, 0) ex_booted 0 ex_rng
    (new_mmio 4 0) 0 ex_base ex_ram 0 16 0x140000000 0x40001000 0x40002000 _ _ _ _ _ _ _ _ _ _ _) as [_ Hk];
    [done|apply ex_booted_ok|vm_compute; reflexivity|reflexivity|reflexivity
    |split; [discriminate|intros [=]]|done|done|done|done|done|exact Hk].
Defined.
End DmProps.
