(* ===== verification/DeviceIrq.v ===== *)
(** * Interrupt lines follow the interrupt status

    A level-triggered line of a running device is high exactly while the
    device's interrupt status register is not zero: after guest accesses,
    after interrupts raised by the polling loops and by worker threads, and
    after a checkpoint restore. *)

From Stdlib Require Import ZArith Lia.
From stdpp Require Import base numbers list gmap strings.
From S2P Require Import Prelude Bits BTree GuestMem SplitQueue MmioState IrqChip VmmMemory DeviceManager DeviceProps.

Open Scope Z_scope.

Module DmIrq.
Import Irq Mem Dm DmProps.

Section lines.
Context {Dev E : Type} `{HR : MmioRegs} `{HO : !MmioRegsOk} `{HB : DeviceStatusBits} `{HV : VirtioDevice Dev E}.
Context (cb_ok : nat → bool) (clock : nat → Z).
Context (iter : gmap Z Z → list (Z * Z)).
Context (order : gmap Z (@RegisteredDevice Dev) → list (Z * @RegisteredDevice Dev)).
Notation DeviceManager := (@DeviceManager Dev).
Implicit Types d : DeviceManager.
Notation sync := (sync_irq_level cb_ok clock).

(** ** Operations *)

(** What raises or lowers interrupts: guest accesses, the polling loops, the
    worker threads, and the restore of a checkpoint. *)
Inductive IrqOp :=
| OpGuest (addr size value : Z)
| OpRaise (id reason : Z)
| OpRaiseType (ty : DeviceType) (reason : Z)
| OpComplete (id line reason : Z)
| OpRestore.

Definition irq_step d (op : IrqOp) : DeviceManager :=
  match op with
  | OpGuest addr size value => snd (handle_mmio_write (E := E) cb_ok clock iter d addr size value)
  | OpRaise id reason => raise_interrupt_for_device cb_ok clock d id reason
  | OpRaiseType ty reason => raise_interrupt_for cb_ok clock order d ty reason
  | OpComplete id line reason => completion_raise cb_ok clock d id line reason
  | OpRestore => sync_all cb_ok clock order d
  end.

(** ** Agreement of a line with its register *)

Definition in_agreement d (id : Z) : Prop :=
  ∀ s l, regs_of d id = Some s → info_of d id ≫= irq = Some l →
  line (chip d) l = negb (interrupt_status s =? 0).

(** Of a device whose driver is running. *)
Definition agree d (id : Z) : Prop :=
  ∀ s, regs_of d id = Some s → driver_ok s = true → in_agreement d id.

Definition synced d : Prop := ∀ id, agree d id.

(** Whether the driver of [id] is running. *)
Definition running d (id : Z) : bool := match regs_of d id with Some s => driver_ok s | None => false end.

(** A worker raises a nonzero reason on its own device's line, and a driver
    that starts finds the line of its device in agreement. *)
Definition irq_op_ok d (op : IrqOp) : Prop :=
  match op with
  | OpGuest addr size value =>
      ∀ id, find_by_mmio iter d addr = Some id → running d id = false →
        running (irq_step d op) id = true → in_agreement d id
  | OpRaise _ reason | OpRaiseType _ reason => in_u32 reason
  | OpComplete id line reason => info_of d id ≫= irq = Some line ∧ is_Some (regs_of d id) ∧ 0 < reason < u32_bound
  | OpRestore => True
  end.

Fixpoint irq_ops_ok d (ops : list IrqOp) : Prop :=
  match ops with
  | [] => True
  | op :: ops => irq_op_ok d op ∧ irq_ops_ok (irq_step d op) ops
  end.

(** ** Preservation *)

Lemma agree_ext d d' id :
  regs_of d' id = regs_of d id → info_of d' id = info_of d id → chip d' = chip d →
  agree d id → agree d' id.
Proof. unfold agree, in_agreement. by intros -> -> ->. Qed.

Lemma touches_synced id d d' :
  dm_ok d → touches id d d' → synced d → agree d' id → synced d'.
Proof.
  intros Hok Ht Hs Ha i. destruct (decide (i = id)) as [->|Hne]; [done|].
  intros s Hs1 Hr s' l Hs2 Hl. rewrite (t_regs _ _ _ Ht) in Hs1, Hs2 by done.
  rewrite (t_info _ _ _ Ht) in Hl. rewrite (t_line _ _ _ Ht); [by apply (Hs i s)|].
  intros Hl'. apply Hne. unfold info_of in Hl, Hl'.
  destruct (devices d !! i) as [dev|] eqn:Hi; [|done].
  destruct (devices d !! id) as [dev'|] eqn:Hid; [|done]. by apply (do_distinct _ Hok i id dev dev' l).
Qed.

(** Synchronising a device brings its line in agreement. *)
Lemma sync_agree d id : lines_ok d → irq_callback d = true → agree (sync d id) id.
Proof.
  intros Hl Hcb s Hs Hr s' l Hs' Hi. rewrite Hs in Hs'. injection Hs' as <-.
  rewrite (t_info _ _ _ (sync_level_touches cb_ok clock id d Hl)) in Hi. unfold regs_of in Hs.
  rewrite sync_devices in Hs. unfold sync_irq_level, info_of in *.
  destruct (devices d !! id) as [dev|] eqn:Hd; [|done]. simpl in Hs, Hi. rewrite Hi, Hs, Hr.
  apply drive_line_level; [|done]. apply (Hl id). unfold info_of. by rewrite Hd.
Qed.

Lemma sync_synced d id : dm_ok d → irq_callback d = true → synced d → synced (sync d id).
Proof.
  intros Hok Hcb Hs. pose proof (dm_ok_lines _ Hok) as Hl.
  apply (touches_synced id d); [done|by apply sync_level_touches|done|by apply sync_agree].
Qed.

(** An interrupt raised: the register, then the line. *)
Lemma raise_agree d id s :
  dm_ok d → irq_callback d = true → mmio_ok s →
  touches id d (sync (put_mmio d id s) id) ∧ agree (sync (put_mmio d id s) id) id.
Proof.
  intros Hok Hcb Hs. assert (touches id d (put_mmio d id s)) as Hp by (by apply put_mmio_touches).
  assert (lines_ok (put_mmio d id s)) as Hl by (eapply touches_lines; [done|by apply dm_ok_lines]).
  split.
  - eapply touches_trans; [done|by apply sync_level_touches].
  - apply sync_agree; [done|]. by rewrite (t_callback _ _ _ Hp).
Qed.

Lemma signal_used_agree d id :
  dm_ok d → irq_callback d = true → agree d id → agree (signal_used cb_ok clock d id) id.
Proof.
  intros Hok Hcb Ha. unfold signal_used. destruct (devices d !! id) as [[i [s|] v]|] eqn:Hd; try done.
  apply raise_agree; [done|done|]. apply trigger_interrupt_ok; [by apply (do_regs _ Hok id _ s Hd)|].
  pose proof int_vring_u32. unfold in_u32. lia.
Qed.

(** Steps that change no register and no line. *)
Definition quiet d d' : Prop := chip d' = chip d ∧ ∀ i, regs_of d' i = regs_of d i.

Lemma quiet_trans d1 d2 d3 : quiet d1 d2 → quiet d2 d3 → quiet d1 d3.
Proof. intros [A1 A2] [B1 B2]. split; [congruence|]. intros i. by rewrite B2. Qed.

Lemma put_device_quiet d o v : quiet d (put_device d o v).
Proof. split; [unfold put_device; by case_match|]. intros i. apply put_device_regs. Qed.

Lemma spawn_quiet d id : quiet d (maybe_spawn_net_rx_worker d id).
Proof. unfold maybe_spawn_net_rx_worker. repeat case_match; by split. Qed.

Lemma on_status_quiet d id old v : quiet d (snd (on_status (E := E) d id old v)).
Proof.
  unfold on_status. repeat case_match; simplify_eq/=;
    repeat first
      [ by split
      | match goal with
        | |- quiet _ (put_device _ _ _) => eapply quiet_trans; [|apply put_device_quiet]
        | |- quiet _ (maybe_spawn_net_rx_worker _ _) => eapply quiet_trans; [|apply spawn_quiet]
        end ].
Qed.

Lemma quiet_agree d d' id : touches id d d' → quiet d d' → agree d id → agree d' id.
Proof. intros Ht [Hc Hr]. apply agree_ext; [done|apply (t_info _ _ _ Ht)|done]. Qed.

(** Work done, then perhaps signalled. *)
Lemma work_agree d id o v m (signal : bool) :
  dm_ok d → irq_callback d = true → agree d id →
  let d1 := (put_device d o v) <| guest_mem := Some m |> in
  agree (if signal then signal_used cb_ok clock d1 id else d1) id.
Proof.
  intros Hok Hcb Ha d1. assert (touches id d d1) as Ht by apply work_touches.
  assert (agree d1 id) as Ha1.
  { apply (quiet_agree d); [done| |done]. eapply quiet_trans; [apply (put_device_quiet d o v)|]. by split. }
  destruct signal; [|done]. apply signal_used_agree; [by eapply touches_dm_ok| |done].
  by rewrite (t_callback _ _ _ Ht).
Qed.

Lemma on_notify_agree d id v :
  dm_ok d → irq_callback d = true → agree d id → agree (on_notify cb_ok clock d id v) id.
Proof.
  intros Hok Hcb Ha. unfold on_notify. destruct (devices d !! id) as [[i [s|] [dv|]]|]; try done.
  destruct (guest_mem d) as [m|]; [|done]. case_match; [by case_match|]. case_match.
  - unfold notify_net. destruct (if bool_decide _ then _ else _) as [o|]; [|done].
    destruct (devices d !! o) as [[i' s' [v'|]]|]; try done.
    destruct (drain_tx_queue _ _ _) as [[n v''] m'].
    exact (work_agree d id o v'' m' (n && bool_decide (is_Some (irq i))) Hok Hcb Ha).
  - unfold notify_generic. destruct (process_queue _ _ _ _) as [[r v'] m'].
    destruct r as [[|c cs]|e]; [exact (work_agree d id id v' m' false Hok Hcb Ha)| |exact (work_agree d id id v' m' false Hok Hcb Ha)].
    case_match; [exact (work_agree d id id v' m' false Hok Hcb Ha)|exact (work_agree d id id v' m' true Hok Hcb Ha)].
Qed.

(** Which writes change the status or the interrupt status. *)
Lemma mmio_write_keeps s o v :
  o ≠ STATUS → o ≠ INTERRUPT_ACK →
  status (mmio_write s o v) = status s ∧ interrupt_status (mmio_write s o v) = interrupt_status s.
Proof.
  intros H1%Z.eqb_neq H2%Z.eqb_neq. unfold mmio_write, on_selected. rewrite H1, H2. by repeat case_match.
Qed.

Lemma mmio_write_status s v :
  driver_ok (mmio_write s STATUS v) = true → interrupt_status (mmio_write s STATUS v) = interrupt_status s.
Proof.
  unfold mmio_write. reg_simpl. destruct (Z.eqb_spec v 0) as [->|]; [|done].
  unfold driver_ok. by rewrite Z.land_0_l.
Qed.

Lemma put_mmio_agree d id s s' :
  regs_of d id = Some s → driver_ok s' = driver_ok s → interrupt_status s' = interrupt_status s →
  mmio_ok s' → agree d id → agree (put_mmio d id s') id.
Proof.
  intros Hs Hr Hi Hok Ha s1 Hs1 Hr1 s2 l Hs2 Hl.
  assert (touches id d (put_mmio d id s')) as Ht by (by apply put_mmio_touches).
  assert (is_Some (devices d !! id)) as Hd by (unfold regs_of in Hs; destruct (devices d !! id); eauto; done).
  rewrite put_mmio_regs, decide_True in Hs1, Hs2 by done. injection Hs1 as <-. injection Hs2 as <-.
  rewrite (t_info _ _ _ Ht) in Hl. rewrite Hi.
  assert (chip (put_mmio d id s') = chip d) as -> by (unfold put_mmio; by case_match).
  by apply (Ha s Hs ltac:(congruence)).
Qed.

(** A driver that starts: the status changes, the line must be right already. *)
Lemma start_agree d id s v :
  dm_ok d → regs_of d id = Some s → in_u32 v → agree d id →
  let d' := snd (on_status (E := E) (put_mmio d id (mmio_write s STATUS v)) id (status s) v) in
  (running d id = false → running d' id = true → in_agreement d id) → agree d' id.
Proof.
  intros Hok Hs Hv Ha d' Hstart s1 Hs1 Hr1 s2 l Hs2 Hl. rewrite Hs1 in Hs2. injection Hs2 as <-.
  set (d1 := put_mmio d id (mmio_write s STATUS v)) in *.
  assert (mmio_ok s) as Hsok.
  { unfold regs_of in Hs. destruct (devices d !! id) eqn:Hd; [|done]. by apply (do_regs _ Hok id r). }
  assert (touches id d d1) as Ht by (apply put_mmio_touches; intros _; by apply mmio_write_ok).
  assert (is_Some (devices d !! id)) as Hd by (unfold regs_of in Hs; destruct (devices d !! id); eauto; done).
  destruct (on_status_quiet d1 id (status s) v) as [Hc Hq]. fold d' in Hc, Hq.
  assert (running d' id = true) as Hrun by (unfold running; by rewrite Hs1).
  rewrite Hq in Hs1. unfold d1 in Hs1. rewrite put_mmio_regs, decide_True in Hs1 by done. injection Hs1 as <-.
  assert (info_of d' id = info_of d id) as Hinfo
    by (unfold d'; by rewrite (t_info _ _ _ (on_status_touches id d1 (status s) v)), (t_info _ _ _ Ht)).
  rewrite Hinfo in Hl.
  assert (chip d1 = chip d) as Hc1 by (unfold d1, put_mmio; by case_match).
  rewrite Hc, Hc1, mmio_write_status by done. destruct (driver_ok s) eqn:Hold.
  - by apply (Ha s).
  - apply Hstart; [unfold running; by rewrite Hs|done|done|done].
Qed.

Lemma write_register_agree d id s o v :
  dm_ok d → irq_callback d = true → regs_of d id = Some s → in_u32 v → agree d id →
  let d' := snd (write_register (E := E) cb_ok clock d id s o v) in
  (running d id = false → running d' id = true → in_agreement d id) → agree d' id.
Proof.
  intros Hok Hcb Hs Hv Ha. unfold write_register.
  destruct (Z.eqb_spec o STATUS) as [->|Hst]; [by apply start_agree|]. intros _.
  assert (mmio_ok (mmio_write s o v)) as Hsok.
  { apply mmio_write_ok; [|done]. unfold regs_of in Hs.
    destruct (devices d !! id) eqn:Hd; [|done]. by apply (do_regs _ Hok id r). }
  set (d1 := put_mmio d id (mmio_write s o v)).
  assert (touches id d d1) as Ht by (by apply put_mmio_touches).
  assert (dm_ok d1) as Hok1 by (by eapply touches_dm_ok).
  assert (irq_callback d1 = true) as Hcb1 by (by rewrite (t_callback _ _ _ Ht)).
  destruct (Z.eqb_spec o INTERRUPT_ACK) as [->|Hack].
  - rewrite (proj2 (Z.eqb_neq INTERRUPT_ACK QUEUE_NOTIFY)) by (apply Z.eqb_neq; by reg_simpl).
    cbn [snd]. apply sync_agree; [by apply dm_ok_lines|done].
  - assert (agree d1 id) as Ha1.
    { destruct (mmio_write_keeps s o v Hst Hack) as [K1 K2].
      apply (put_mmio_agree d id s); [done| |done|done|done]. unfold driver_ok. by rewrite K1. }
    destruct (o =? QUEUE_NOTIFY); [by apply on_notify_agree|done].
Qed.

Lemma guest_agree d addr size value id :
  dm_ok d → irq_callback d = true → agree d id → find_by_mmio iter d addr = Some id →
  let d' := snd (handle_mmio_write (E := E) cb_ok clock iter d addr size value) in
  (running d id = false → running d' id = true → in_agreement d id) → agree d' id.
Proof.
  intros Hok Hcb Ha Hf. unfold handle_mmio_write. rewrite Hf.
  destruct (devices d !! id) as [dev|] eqn:Hd; [|done].
  destruct (mmio_state dev) as [s|] eqn:Hs; [|done].
  case_match.
  - destruct (virtio_device dev); [|done]. case_match; [|done]. intros _.
    apply (quiet_agree d); [apply put_device_touches|apply put_device_quiet|done].
  - apply write_register_agree; [done|done|unfold regs_of; by rewrite Hd|apply truncate_u32|done].
Qed.

(** ** Every step *)

(** What an operation leaves: a consistent registry, synchronised lines. *)
Record irq_inv d : Prop := {
  ii_dm : dm_ok d;
  ii_callback : irq_callback d = true;
  ii_synced : synced d
}.

Lemma touches_inv id d d' : irq_inv d → touches id d d' → agree d' id → irq_inv d'.
Proof.
  intros [Hok Hcb Hs] Ht Ha. split; [by eapply touches_dm_ok|by rewrite (t_callback _ _ _ Ht)|].
  by apply (touches_synced id d).
Qed.

Lemma raise_inv d id dev reason :
  irq_inv d → devices d !! id = Some dev → in_u32 reason →
  irq_inv (sync (match mmio_state dev with
                 | Some s => put_mmio d id (trigger_interrupt s reason)
                 | None => d
                 end) id).
Proof.
  intros Hi Hd Hr. pose proof Hi as [Hok Hcb Hs]. destruct (mmio_state dev) as [s|] eqn:Hm.
  - destruct (raise_agree d id (trigger_interrupt s reason)) as [Ht Ha]; [done|done| |].
    { apply trigger_interrupt_ok; [by apply (do_regs _ Hok id dev)|done]. }
    by apply (touches_inv id d).
  - pose proof (dm_ok_lines _ Hok). apply (touches_inv id d); [done|by apply sync_level_touches|by apply sync_agree].
Qed.

Lemma complete_inv d id l reason :
  irq_inv d → irq_op_ok d (OpComplete id l reason) → irq_inv (completion_raise cb_ok clock d id l reason).
Proof.
  intros Hi (Hl & [s Hs] & Hr). pose proof Hi as [Hok Hcb Hsy]. unfold completion_raise.
  assert (is_Some (devices d !! id)) as Hsome by (unfold regs_of in Hs; destruct (devices d !! id); eauto; done).
  unfold regs_of in Hs. destruct (devices d !! id) as [dev|] eqn:Hd; [|done]. simpl in Hs. rewrite Hs.
  assert (mmio_ok (trigger_interrupt s reason)) as Hsok.
  { apply trigger_interrupt_ok; [by apply (do_regs _ Hok id dev)|unfold in_u32; lia]. }
  set (d1 := put_mmio d id (trigger_interrupt s reason)).
  assert (touches id d d1) as Ht by (by apply put_mmio_touches).
  assert (level_line (chip d1) l) as Hlev by (apply (t_level _ _ _ Ht), (dm_ok_lines _ Hok id); done).
  apply (touches_inv id d); [done| |].
  - eapply touches_trans; [exact Ht|]. apply drive_line_touches; [|done]. by rewrite (t_info _ _ _ Ht).
  - intros s1 Hs1 _ s2 l2 Hs2 Hl2. unfold info_of in Hl2. unfold regs_of in Hs2. rewrite drive_line_devices in Hl2, Hs2.
    fold (info_of d1 id) in Hl2. fold (regs_of d1 id) in Hs2. rewrite (t_info _ _ _ Ht), Hl in Hl2.
    injection Hl2 as <-. rewrite drive_line_level; [|done|by rewrite (t_callback _ _ _ Ht)].
    unfold d1 in Hs2. rewrite put_mmio_regs, decide_True in Hs2 by eauto. injection Hs2 as <-.
    symmetry. apply negb_true_iff, Z.eqb_neq. change (Z.lor (interrupt_status s) reason ≠ 0).
    rewrite Z.lor_eq_0_iff. lia.
Qed.

Lemma sync_inv d id : irq_inv d → irq_inv (sync d id).
Proof.
  intros Hi. pose proof Hi as [Hok Hcb Hs]. pose proof (dm_ok_lines _ Hok).
  apply (touches_inv id d); [done|by apply sync_level_touches|by apply sync_agree].
Qed.

Section step.
Context (order_perm : ∀ m, order m ≡ₚ map_to_list m).

Lemma irq_step_inv d op : irq_inv d → irq_op_ok d op → irq_inv (irq_step d op).
Proof.
  intros Hi Hop. pose proof Hi as [Hok Hcb Hs]. destruct op as [addr size value|id reason|ty reason|id l reason|].
  - simpl in *. destruct (find_by_mmio iter d addr) as [id|] eqn:Hf; [|by rewrite write_unrouted].
    apply (touches_inv id d); [done|apply write_touches; [by apply dm_ok_lines|done]|].
    apply guest_agree; [done|done|apply Hs|done|by apply Hop].
  - simpl. unfold raise_interrupt_for_device. destruct (devices d !! id) as [dev|] eqn:Hd; [|done].
    by apply raise_inv.
  - simpl. unfold raise_interrupt_for. destruct (List.find _ _) as [[id dev]|] eqn:Hf; [|done].
    apply find_some in Hf as [Hin _]. rewrite <- list_elem_of_In, order_perm, elem_of_map_to_list in Hin.
    by apply raise_inv.
  - by apply complete_inv.
  - simpl. unfold sync_all. generalize (order (devices d)). intros l. clear Hok Hcb Hs Hop.
    revert d Hi. induction l as [|[id dev] l IH]; intros d Hi; [done|]. by apply IH, sync_inv.
Qed.

Lemma irq_run_inv d ops : irq_inv d → irq_ops_ok d ops → irq_inv (foldl irq_step d ops).
Proof.
  revert d. induction ops as [|op ops IH]; intros d Hi; [done|].
  intros [Hop Hops]. apply IH; [by apply irq_step_inv|done].
Qed.

(** A restore drives every line from its register, whatever the lines were. *)
Lemma sync_all_agree d l id :
  dm_ok d → irq_callback d = true → id ∈ l.*1 → agree (foldl (λ d '(id, _), sync d id) d (l : list (Z * @RegisteredDevice Dev))) id.
Proof.
  revert d. induction l as [|[i dev] l IH]; intros d Hok Hcb Hin; [by apply elem_of_nil in Hin|].
  cbn [foldl]. pose proof (dm_ok_lines _ Hok) as Hl.
  pose proof (sync_level_touches cb_ok clock i d Hl) as Ht.
  assert (dm_ok (sync d i)) as Hok' by (by eapply touches_dm_ok).
  assert (irq_callback (sync d i) = true) as Hcb' by (by rewrite (t_callback _ _ _ Ht)).
  destruct (decide (id ∈ l.*1)) as [|Hout]; [by apply IH|].
  rewrite fmap_cons, elem_of_cons in Hin. destruct Hin as [->|]; [|done]. cbn [fst] in *.
  pose proof (sync_agree d i Hl Hcb) as Ha. revert Hok' Hcb' Ha Hout. clear. generalize (sync d i) as d0.
  induction l as [|[j dev'] l IH]; intros d0 Hok Hcb Ha Hout; [done|]. cbn [foldl].
  rewrite fmap_cons, not_elem_of_cons in Hout. destruct Hout as [Hne Hout]. cbn [fst] in Hne.
  pose proof (sync_level_touches cb_ok clock j d0 (dm_ok_lines _ Hok)) as Ht.
  apply IH; [by eapply touches_dm_ok|by rewrite (t_callback _ _ _ Ht)| |done].
  intros s Hs Hr s' l' Hs' Hl'. rewrite (t_regs _ _ _ Ht) in Hs, Hs' by done. rewrite (t_info _ _ _ Ht) in Hl'.
  rewrite (t_line _ _ _ Ht); [by apply (Ha s)|]. intros Hl2. apply Hne.
  unfold info_of in Hl', Hl2. destruct (devices d0 !! i) as [di|] eqn:Hi; [|done].
  destruct (devices d0 !! j) as [dj|] eqn:Hj; [|done]. by apply (do_distinct _ Hok i j di dj l').
Qed.

Lemma restore_synced d : dm_ok d → irq_callback d = true → synced (sync_all cb_ok clock order d).
Proof.
  intros Hok Hcb id. destruct (devices d !! id) as [dev|] eqn:Hd.
  - apply sync_all_agree; [done|done|]. apply list_elem_of_fmap. exists (id, dev). split; [done|].
    by rewrite order_perm, elem_of_map_to_list.
  - intros s Hs. exfalso. revert Hs. unfold sync_all, regs_of. generalize (order (devices d)). intros l.
    assert (devices (foldl (λ d '(id, _), sync d id) d l) = devices d) as ->; [|by rewrite Hd].
    clear. revert d. induction l as [|[i dev] l IH]; intros d; [done|]. cbn [foldl]. rewrite IH. apply sync_devices.
Qed.

Lemma restore_inv d : dm_ok d → irq_callback d = true → irq_inv (sync_all cb_ok clock order d).
Proof.
  intros Hok Hcb. pose proof (restore_synced d Hok Hcb) as Hsy.
  assert (dm_ok (sync_all cb_ok clock order d) ∧ irq_callback (sync_all cb_ok clock order d) = true) as [H1 H2];
    [|by split].
  clear Hsy. unfold sync_all. generalize (order (devices d)). intros l. revert d Hok Hcb.
  induction l as [|[i dev] l IH]; intros d Hok Hcb; [done|]. cbn [foldl].
  pose proof (sync_level_touches cb_ok clock i d (dm_ok_lines _ Hok)) as Ht.
  apply IH; [by eapply touches_dm_ok|by rewrite (t_callback _ _ _ Ht)].
Qed.

End step.

(** Resetting a device clears its interrupt status and leaves its line as it
    was: a line that was high stays high with nothing pending. *)
Lemma reset_leaves_line d id dev b s :
  (∀ m, iter m ≡ₚ map_to_list m) → dm_ok d → devices d !! id = Some dev → mmio_base (info dev) = Some b →
  mmio_state dev = Some s →
  let d' := guest_write (E := E) iter cb_ok clock d (b + STATUS, 4, 0) in
  chip d' = chip d ∧ ∃ s', regs_of d' id = Some s' ∧ interrupt_status s' = 0 ∧ status s' = 0.
Proof.
  intros Hiter Hok Hd Hb Hs d'. unfold d'.
  assert (STATUS ≠ CONFIG) as Hne by (apply Z.eqb_neq; by reg_simpl).
  assert (0 ≤ STATUS ≤ CONFIG) as Hr.
  { apply (proj1 (list.Forall_forall _ _) regs_below_config). rewrite list_elem_of_In. simpl. tauto. }
  rewrite (write_at iter Hiter cb_ok clock d id dev b s) by (done || lia).
  unfold write_register. rewrite Z.eqb_refl.
  destruct (on_status_quiet (put_mmio d id (mmio_write s STATUS 0)) id (status s) 0) as [Hc Hq].
  rewrite Hc, Hq, put_mmio_regs, decide_True by eauto.
  split; [unfold put_mmio; by case_match|]. eexists. split; [done|].
  unfold mmio_write. by reg_simpl.
Qed.
End lines.

(** ** A concrete run *)

#[local] Existing Instance spec_regs.
#[local] Existing Instance spec_regs_ok.
#[local] Existing Instance spec_bits.
#[local] Existing Instance counter_device.

(** The entropy source comes up, completes a request, is acknowledged, and a
    worker completes another. *)
Definition ex_run : list IrqOp :=
  [OpRestore; OpGuest (ex_base + STATUS) 4 0xF; OpGuest (ex_base + QUEUE_NOTIFY) 4 0;
   OpGuest (ex_base + INTERRUPT_ACK) 4 1; OpRaise 2 1; OpComplete 0 32 1].

Definition ex_after (n : nat) : @DeviceManager Z :=
  foldl (irq_step (λ _, true) (λ _, 0) map_to_list map_to_list) ex_booted (firstn n ex_run).

(** Decides an access of the run: its device, and whether it starts the driver. *)
Ltac run_op :=
  let id := fresh "id" in let Hf := fresh "Hf" in let Hr := fresh "Hr" in let Hr' := fresh "Hr'" in
  intros id Hf Hr Hr'; vm_compute in Hf; injection Hf as <-;
  first [ vm_compute in Hr; discriminate Hr | vm_compute in Hr'; discriminate Hr'
        | let s := fresh "s" in let l := fresh "l" in let Hs := fresh "Hs" in let Hl := fresh "Hl" in
          intros s l Hs Hl; vm_compute in Hs, Hl; injection Hs as <-; injection Hl as <-; vm_compute; reflexivity ].

End DmIrq.
