(* ===== verification/Checksum.v ===== *)
(** * The Internet checksum

    [src/common/arcbox-packet/src/checksum.rs]: the ones' complement sum in its
    scalar, NEON and SSSE3 versions, the fold, and the incremental updates of
    RFC 1624. Bytes are integers below 256; a vector register is the list of its
    lanes. *)

From Stdlib Require Import ZArith Lia.
From stdpp Require Import base numbers list.
From S2P Require Import Prelude Bits.

Open Scope Z_scope.

Definition wrapping_add32 (a b : Z) : Z := wrap32 (a + b).

(** [u16::from_be_bytes] and [u32::from_be_bytes]. *)
Definition be16 (hi lo : Z) : Z := hi * 256 + lo.
Definition be32 (a b c d : Z) : Z := be16 a b * 65536 + be16 c d.
(** [u16::to_be_bytes]. *)
Definition to_be16 (v : Z) : list Z := [v / 256; v mod 256].

(** ** Folding *)

(** The loop of [checksum_fold], [fuel] iterations of it. *)
Fixpoint fold_loop (fuel : nat) (sum : Z) : Z :=
  match fuel with
  | O => sum
  | S fuel =>
      if Z.shiftr sum 16 =? 0 then sum
      else fold_loop fuel (wrapping_add32 (Z.land sum 0xFFFF) (Z.shiftr sum 16))
  end.

(** Two iterations fold any 32-bit sum ([fold_done]). *)
Definition checksum_fold (sum : Z) : Z := wrap16 (not32 (fold_loop 2 sum)).

(** ** The scalar sum *)

Fixpoint scalar_loop (sum : Z) (data : list Z) : Z :=
  match data with
  | a :: b :: data => scalar_loop (wrapping_add32 sum (be16 a b)) data
  | [a] => wrapping_add32 sum (Z.shiftl a 8)
  | [] => sum
  end.

Definition checksum_add_scalar (data : list Z) : Z := scalar_loop 0 data.

(** ** Vectors *)

(** [slice::as_chunks::<N>]: the chunks and the remainder. *)
Fixpoint chunks_loop {A} (fuel n : nat) (l : list A) : list (list A) * list A :=
  match fuel with
  | O => ([], l)
  | S fuel =>
      if (length l <? n)%nat then ([], l)
      else let '(cs, r) := chunks_loop fuel n (drop n l) in (take n l :: cs, r)
  end.
Definition as_chunks {A} (n : nat) (l : list A) : list (list A) * list A := chunks_loop (length l) n l.

(** Pairs of neighbouring lanes. *)
Fixpoint pairwise {A} (f : Z → Z → A) (v : list Z) : list A :=
  match v with
  | a :: b :: v => f a b :: pairwise f v
  | _ => []
  end.

(** [vrev16q_u8], and a register of bytes read as little-endian halfwords. *)
Definition vrev16q_u8 (v : list Z) : list Z := concat (pairwise (λ a b, [b; a]) v).
Definition reinterpret_u16 (v : list Z) : list Z := pairwise (λ lo hi, lo + 256 * hi) v.

Definition vaddq_u32 (a b : list Z) : list Z := zip_with wrapping_add32 a b.
(** [vpadalq_u16]: pairs of halfwords are added to the 32-bit lanes. *)
Definition vpadalq_u16 (acc words : list Z) : list Z :=
  zip_with wrapping_add32 acc (pairwise Z.add words).
Definition vaddvq_u32 (v : list Z) : Z := wrap32 (foldr Z.add 0 v).

Definition be_words (chunk : list Z) : list Z := reinterpret_u16 (vrev16q_u8 chunk).

(** ** NEON *)

Definition neon_group (sums : list Z * list Z * list Z * list Z) (group : list (list Z))
    : list Z * list Z * list Z * list Z :=
  let '(sum0, sum1, sum2, sum3) := sums in
  (vpadalq_u16 sum0 (be_words (nth 0 group [])), vpadalq_u16 sum1 (be_words (nth 1 group [])),
   vpadalq_u16 sum2 (be_words (nth 2 group [])), vpadalq_u16 sum3 (be_words (nth 3 group []))).

Definition checksum_add_neon (data : list Z) : Z :=
  let zero := replicate 4 0 in
  let '(chunks, remainder) := as_chunks 16 data in
  let '(groups, group_remainder) := as_chunks 4 chunks in
  let '(sum0, sum1, sum2, sum3) := foldl neon_group (zero, zero, zero, zero) groups in
  let sum0 := foldl (λ sum0 chunk, vpadalq_u16 sum0 (be_words chunk)) sum0 group_remainder in
  let sum01 := vaddq_u32 sum0 sum1 in
  let sum23 := vaddq_u32 sum2 sum3 in
  scalar_loop (vaddvq_u32 (vaddq_u32 sum01 sum23)) remainder.

(** ** SSSE3 *)

Definition swap_mask : list Z := [1; 0; 3; 2; 5; 4; 7; 6; 9; 8; 11; 10; 13; 12; 15; 14].

(** [_mm_shuffle_epi8]: a lane whose selector has its top bit set is zeroed. *)
Definition shuffle_epi8 (v mask : list Z) : list Z :=
  (λ k, if 128 <=? k then 0 else nth (Z.to_nat (Z.land k 15)) v 0) <$> mask.

Fixpoint interleave (a b : list Z) : list Z :=
  match a, b with
  | x :: a, y :: b => x :: y :: interleave a b
  | _, _ => []
  end.

(** [_mm_unpacklo_epi16] and [_mm_unpackhi_epi16] on the halfwords of a register,
    the result read as little-endian words. *)
Definition as_epi32 (v : list Z) : list Z := pairwise (λ lo hi, lo + 65536 * hi) v.
Definition unpacklo_epi16 (a b : list Z) : list Z := interleave (take 4 a) (take 4 b).
Definition unpackhi_epi16 (a b : list Z) : list Z := interleave (drop 4 a) (drop 4 b).

Definition add_epi32 (a b : list Z) : list Z := zip_with wrapping_add32 a b.
Definition hadd_epi32 (a b : list Z) : list Z := pairwise wrapping_add32 a ++ pairwise wrapping_add32 b.
Definition cvtsi128_si32 (v : list Z) : Z := nth 0 v 0.

Definition ssse3_chunk (sums : list Z * list Z) (chunk : list Z) : list Z * list Z :=
  let '(sum_lo, sum_hi) := sums in
  let swapped := reinterpret_u16 (shuffle_epi8 chunk swap_mask) in
  let zero := replicate 8 0 in
  let words_lo := as_epi32 (unpacklo_epi16 swapped zero) in
  let words_hi := as_epi32 (unpackhi_epi16 swapped zero) in
  (add_epi32 sum_lo words_lo, add_epi32 sum_hi words_hi).

Definition checksum_add_ssse3 (data : list Z) : Z :=
  let '(chunks, remainder) := as_chunks 16 data in
  let '(sum_lo, sum_hi) := foldl ssse3_chunk (replicate 4 0, replicate 4 0) chunks in
  let sum := add_epi32 sum_lo sum_hi in
  let hadd1 := hadd_epi32 sum sum in
  let hadd2 := hadd_epi32 hadd1 hadd1 in
  scalar_loop (cvtsi128_si32 hadd2) remainder.

(** ** Checksums *)

(** The build target and, on x86-64, what the processor reports. *)
Inductive Arch := Aarch64 | Aarch64Be | X86_64 (ssse3 : bool) | OtherArch.

Definition SIMD_THRESHOLD : nat := 64.

Definition checksum_add_fast (arch : Arch) (data : list Z) : Z :=
  match arch with
  | Aarch64 => checksum_add_neon data
  | X86_64 true => checksum_add_ssse3 data
  | Aarch64Be | X86_64 false | OtherArch => checksum_add_scalar data
  end.

Definition checksum_add (arch : Arch) (data : list Z) : Z :=
  if (SIMD_THRESHOLD <? length data)%nat then checksum_add_fast arch data else checksum_add_scalar data.

Definition checksum (arch : Arch) (data : list Z) : Z := checksum_fold (checksum_add arch data).
Definition checksum_simd (arch : Arch) (data : list Z) : Z := checksum_fold (checksum_add_fast arch data).
Definition ipv4_header_checksum (arch : Arch) (header : list Z) : Z := checksum arch header.

(** An IPv4 address is its four octets. *)
Record Ipv4 := MkIp { ip0 : Z; ip1 : Z; ip2 : Z; ip3 : Z }.
#[export] Instance Ipv4_eq_dec : EqDecision Ipv4.
Proof. solve_decision. Defined.

Definition octets (ip : Ipv4) : list Z := [ip0 ip; ip1 ip; ip2 ip; ip3 ip].
Definition ip_value (ip : Ipv4) : Z := be32 (ip0 ip) (ip1 ip) (ip2 ip) (ip3 ip).

Definition pseudo_header (src dst : Ipv4) (protocol len : Z) : Z :=
  wrapping_add32 (wrapping_add32 (wrapping_add32 (wrapping_add32 (wrapping_add32 (wrapping_add32 0
    (be16 (ip0 src) (ip1 src))) (be16 (ip2 src) (ip3 src))) (be16 (ip0 dst) (ip1 dst)))
    (be16 (ip2 dst) (ip3 dst))) protocol) (wrap32 len).

Definition tcp_checksum (arch : Arch) (src dst : Ipv4) (segment : list Z) : Z :=
  checksum_fold (wrapping_add32 (pseudo_header src dst 6 (Z.of_nat (length segment)))
    (checksum_add arch segment)).

Definition udp_checksum (arch : Arch) (src dst : Ipv4) (datagram : list Z) : Z :=
  let result := checksum_fold (wrapping_add32 (pseudo_header src dst 17 (Z.of_nat (length datagram)))
    (checksum_add arch datagram)) in
  if result =? 0 then 0xFFFF else result.

(** ** Incremental updates *)

Definition not16 (z : Z) : Z := u16_bound - 1 - z.

Definition incremental_checksum_update (old_checksum old_value new_value : Z) : Z :=
  checksum_fold (wrapping_add32 (wrapping_add32 (not16 old_checksum) (not16 old_value)) new_value).

Definition incremental_checksum_update_32 (old_checksum old_value new_value : Z) : Z :=
  let old_hi := wrap16 (Z.shiftr old_value 16) in
  let old_lo := wrap16 old_value in
  let new_hi := wrap16 (Z.shiftr new_value 16) in
  let new_lo := wrap16 new_value in
  incremental_checksum_update (incremental_checksum_update old_checksum old_hi new_hi) old_lo new_lo.

Definition update_checksum_for_ip (old_checksum : Z) (old_ip new_ip : Ipv4) : Z :=
  incremental_checksum_update_32 old_checksum (ip_value old_ip) (ip_value new_ip).

Definition update_checksum_for_port (old_checksum old_port new_port : Z) : Z :=
  incremental_checksum_update old_checksum old_port new_port.

Definition update_checksum_for_nat (old_checksum : Z) (old_ip : Ipv4) (old_port : Z)
    (new_ip : Ipv4) (new_port : Z) : Z :=
  update_checksum_for_port (update_checksum_for_ip old_checksum old_ip new_ip) old_port new_port.

(** ** Sums as integers *)

(** The sum of the 16-bit words, without wrap-around. *)
Fixpoint be_sum (data : list Z) : Z :=
  match data with
  | a :: b :: data => be16 a b + be_sum data
  | [a] => a * 256
  | [] => 0
  end.

Definition total (v : list Z) : Z := foldr Z.add 0 v.

Lemma even_tail n : Nat.Even (S (S n)) → Nat.Even n.
Proof. intros [k Hk]. exists (k - 1)%nat. lia. Qed.

Lemma not_even_1 : ¬ Nat.Even 1.
Proof. intros [k Hk]. lia. Qed.

(** Lists two elements at a time. *)
Lemma pair_ind {A} (P : list A → Prop) :
  P [] → (∀ a, P [a]) → (∀ a b l, P l → P (a :: b :: l)) → ∀ l, P l.
Proof.
  intros H0 H1 H2. fix IH 1. intros [|a [|b l]]; [exact H0|exact (H1 a)|]. apply H2, IH.
Qed.

Lemma be_sum_app l1 l2 : Nat.Even (length l1) → be_sum (l1 ++ l2) = be_sum l1 + be_sum l2.
Proof.
  induction l1 as [|a|a b l1 IH] using pair_ind; intros He; [done| |].
  - by destruct (not_even_1 He).
  - cbn [be_sum app]. rewrite IH; [lia|]. by apply even_tail.
Qed.

Lemma be_sum_bounds data :
  Forall in_u8 data → 0 ≤ be_sum data ∧ 2 * be_sum data ≤ 65535 * Z.of_nat (S (length data)).
Proof.
  induction data as [|a|a b data IH] using pair_ind; intros Hb; [done| |];
    rewrite ?Forall_cons in Hb; unfold in_u8, u8_bound in Hb.
  - simpl. lia.
  - destruct Hb as (H1 & H2 & H3). specialize (IH H3). cbn [be_sum length]. unfold be16. lia.
Qed.

(** Congruence modulo [2^32], which sums of lanes respect. *)
Definition same32 (a b : Z) : Prop := wrap32 a = wrap32 b.
#[export] Instance same32_equiv : Equivalence same32.
Proof. split; unfold same32; [by intros ?|by intros ???|intros ???; congruence]. Qed.
#[export] Instance same32_add : Proper (same32 ==> same32 ==> same32) Z.add.
Proof.
  intros a b H1 c d H2. unfold same32, wrap32, u32_bound in *.
  rewrite (Z.add_mod a c), (Z.add_mod b d) by done. by rewrite H1, H2.
Qed.

Lemma same32_of_eq a b : a = b → same32 a b.
Proof. by intros ->. Qed.

Lemma same32_wrap z : same32 (wrap32 z) z.
Proof. unfold same32, wrap32. by rewrite Z.mod_mod. Qed.

Lemma same32_eq a b : in_u32 a → in_u32 b → same32 a b → a = b.
Proof. unfold same32, wrap32. intros Ha Hb. by rewrite !Z.mod_small. Qed.

Lemma scalar_loop_u32 sum data : in_u32 sum → in_u32 (scalar_loop sum data).
Proof.
  revert sum. induction data as [|a|a b data IH] using pair_ind; intros sum Hs; [done|apply in_u32_wrap|].
  apply IH, in_u32_wrap.
Qed.

Lemma scalar_loop_sum sum data : same32 (scalar_loop sum data) (sum + be_sum data).
Proof.
  revert sum. induction data as [|a|a b data IH] using pair_ind; intros sum; cbn [scalar_loop be_sum].
  - by rewrite Z.add_0_r.
  - unfold wrapping_add32. rewrite same32_wrap. by rewrite Z.shiftl_mul_pow2.
  - rewrite IH. unfold wrapping_add32. rewrite same32_wrap. by rewrite Z.add_assoc.
Qed.

Lemma scalar_sum data : checksum_add_scalar data = wrap32 (be_sum data).
Proof.
  apply same32_eq; [by apply scalar_loop_u32|apply in_u32_wrap|].
  unfold checksum_add_scalar. by rewrite scalar_loop_sum, same32_wrap.
Qed.

(** ** Vectors add up *)

Lemma total_app a b : total (a ++ b) = total a + total b.
Proof. unfold total. induction a as [|x a IH]; [done|]. simpl. rewrite IH. lia. Qed.

Lemma total_zip a b :
  length a = length b → same32 (total (zip_with wrapping_add32 a b)) (total a + total b).
Proof.
  revert b. induction a as [|x a IH]; intros [|y b] Hl; try done. simpl in *.
  change (same32 (wrapping_add32 x y + total (zip_with wrapping_add32 a b)) (x + total a + (y + total b))).
  rewrite IH by lia. unfold wrapping_add32. rewrite same32_wrap. apply same32_of_eq. lia.
Qed.

Lemma pairwise_length {A} (f : Z → Z → A) v : length (pairwise f v) = Nat.div2 (length v).
Proof. induction v as [|a|a b v IH] using pair_ind; [done|done|]. simpl. by rewrite IH. Qed.

Lemma pairwise_total v : Nat.Even (length v) → total (pairwise Z.add v) = total v.
Proof.
  induction v as [|a|a b v IH] using pair_ind; intros He; [done| |].
  - by destruct (not_even_1 He).
  - change (a + b + total (pairwise Z.add v) = a + (b + total v)). rewrite IH; [lia|].
    by apply even_tail.
Qed.

Lemma pairwise_wrapping v : Nat.Even (length v) → same32 (total (pairwise wrapping_add32 v)) (total v).
Proof.
  induction v as [|a|a b v IH] using pair_ind; intros He; [done| |].
  - by destruct (not_even_1 He).
  - change (same32 (wrapping_add32 a b + total (pairwise wrapping_add32 v)) (a + (b + total v))). rewrite IH.
    + unfold wrapping_add32. rewrite same32_wrap. apply same32_of_eq. lia.
    + by apply even_tail.
Qed.

(** The halfwords of a chunk of network bytes add up to its sum. *)
Lemma be_words_total chunk :
  Nat.Even (length chunk) → total (be_words chunk) = be_sum chunk ∧ length (be_words chunk) = Nat.div2 (length chunk).
Proof.
  unfold be_words, reinterpret_u16, vrev16q_u8.
  induction chunk as [|a|a b chunk IH] using pair_ind; intros He; [done| |].
  - by destruct (not_even_1 He).
  - destruct IH as [H1 H2]; [by apply even_tail|].
    split; [|simpl; by rewrite H2].
    change (b + 256 * a + total (pairwise (λ lo hi, lo + 256 * hi) (concat (pairwise (λ a b, [b; a]) chunk))) =
      be16 a b + be_sum chunk).
    rewrite H1. unfold be16. lia.
Qed.

(** ** Chunks *)

Lemma chunks_loop_spec {A} fuel n (l : list A) :
  (0 < n)%nat → (length l ≤ fuel)%nat →
  let '(cs, r) := chunks_loop fuel n l in
  l = concat cs ++ r ∧ Forall (λ c, length c = n) cs ∧ (length r < n)%nat.
Proof.
  intros Hn. revert l. induction fuel as [|fuel IH]; intros l Hl; cbn [chunks_loop].
  { destruct l; [|simpl in Hl; lia]. split; [done|]. split; [constructor|simpl; lia]. }
  destruct (Nat.ltb_spec (length l) n) as [Hs|Hs]; [split; [done|]; split; [constructor|done]|].
  specialize (IH (drop n l)). rewrite length_drop in IH. specialize (IH ltac:(lia)).
  destruct (chunks_loop fuel n (drop n l)) as [cs r]. destruct IH as (H1 & H2 & H3).
  split; [cbn [concat]; by rewrite <- app_assoc, <- H1, take_drop|]. split; [|done].
  constructor; [rewrite length_take; lia|done].
Qed.

Lemma as_chunks_spec {A} n (l : list A) :
  (0 < n)%nat →
  let '(cs, r) := as_chunks n l in
  l = concat cs ++ r ∧ Forall (λ c, length c = n) cs ∧ (length r < n)%nat.
Proof. intros Hn. by apply chunks_loop_spec. Qed.

Lemma concat_even (cs : list (list Z)) :
  Forall (λ c, length c = 16%nat) cs → Nat.Even (length (concat cs)).
Proof.
  induction 1 as [|c cs Hc _ [k IH]]; [by exists 0%nat|]. exists (8 + k)%nat.
  cbn [concat]. rewrite length_app. lia.
Qed.

(** ** The vector versions *)

(** A register of four 32-bit lanes. *)
Definition lanes4 (v : list Z) : Prop := length v = 4%nat.

Lemma padal_step acc chunk :
  lanes4 acc → length chunk = 16%nat →
  lanes4 (vpadalq_u16 acc (be_words chunk)) ∧
  same32 (total (vpadalq_u16 acc (be_words chunk))) (total acc + be_sum chunk).
Proof.
  intros Ha Hc. destruct (be_words_total chunk) as [Ht Hl]; [rewrite Hc; by exists 8%nat|].
  rewrite Hc in Hl. change (Nat.div2 16) with 8%nat in Hl. unfold vpadalq_u16, lanes4 in *.
  assert (length (pairwise Z.add (be_words chunk)) = 4%nat) as Hp by (by rewrite pairwise_length, Hl).
  split; [rewrite length_zip_with; lia|]. rewrite total_zip by lia.
  rewrite pairwise_total by (rewrite Hl; by exists 4%nat). by rewrite Ht.
Qed.

Lemma padal_loop acc chunks :
  lanes4 acc → Forall (λ c, length c = 16%nat) chunks →
  let acc' := foldl (λ sum0 chunk, vpadalq_u16 sum0 (be_words chunk)) acc chunks in
  lanes4 acc' ∧ same32 (total acc') (total acc + be_sum (concat chunks)).
Proof.
  intros Ha Hc. revert acc Ha. induction Hc as [|c cs Hc _ IH]; intros acc Ha; cbn [foldl concat].
  { split; [done|]. apply same32_of_eq. simpl. lia. }
  destruct (padal_step acc c Ha Hc) as [H1 H2]. destruct (IH _ H1) as [H3 H4]. split; [done|].
  rewrite H4, H2. rewrite be_sum_app by (rewrite Hc; by exists 8%nat). apply same32_of_eq. lia.
Qed.

(** A group of four chunks, one per accumulator. *)
Definition group_ok (g : list (list Z)) : Prop := length g = 4%nat ∧ Forall (λ c, length c = 16%nat) g.
Definition sums_ok (s : list Z * list Z * list Z * list Z) (n : Z) : Prop :=
  let '(a, b, c, d) := s in
  lanes4 a ∧ lanes4 b ∧ lanes4 c ∧ lanes4 d ∧ same32 (total a + total b + total c + total d) n.

Lemma neon_group_step s n g :
  sums_ok s n → group_ok g → sums_ok (neon_group s g) (n + be_sum (concat g)).
Proof.
  destruct s as [[[a b] c] d]. intros (La & Lb & Lc & Ld & Hn) [Hl Hg].
  destruct g as [|c0 [|c1 [|c2 [|c3 [|]]]]]; try done. rewrite !Forall_cons in Hg.
  destruct Hg as (H0 & H1 & H2 & H3 & _). unfold neon_group. cbn [nth].
  destruct (padal_step a c0 La H0) as [A1 A2]. destruct (padal_step b c1 Lb H1) as [B1 B2].
  destruct (padal_step c c2 Lc H2) as [C1 C2]. destruct (padal_step d c3 Ld H3) as [D1 D2].
  split; [done|]. split; [done|]. split; [done|]. split; [done|]. rewrite A2, B2, C2, D2, <- Hn.
  cbn [concat]. rewrite !be_sum_app by (rewrite ?H0, ?H1, ?H2, ?H3; by exists 8%nat).
  apply same32_of_eq. simpl. lia.
Qed.

Lemma neon_groups s n groups :
  sums_ok s n → Forall group_ok groups →
  sums_ok (foldl neon_group s groups) (n + be_sum (concat (concat groups))).
Proof.
  intros Hs Hg. revert s n Hs. induction Hg as [|g gs Hg Hgs IH]; intros s n Hs; cbn [foldl concat].
  { simpl. by rewrite Z.add_0_r. }
  rewrite concat_app, be_sum_app by (apply concat_even, Hg). rewrite Z.add_assoc.
  by apply IH, neon_group_step.
Qed.

Lemma neon_scalar data : checksum_add_neon data = checksum_add_scalar data.
Proof.
  unfold checksum_add_neon. pose proof (as_chunks_spec 16 data ltac:(lia)) as Hc.
  destruct (as_chunks 16 data) as [chunks r]. destruct Hc as (-> & Hc & Hr).
  pose proof (as_chunks_spec 4 chunks ltac:(lia)) as Hg.
  destruct (as_chunks 4 chunks) as [groups gr]. destruct Hg as (-> & Hg & Hgr).
  rewrite Forall_app in Hc. destruct Hc as [Hc1 Hc2].
  assert (Forall group_ok groups) as Hgo.
  { rewrite Forall_concat in Hc1. apply Forall_and. split; [exact Hg|exact Hc1]. }
  assert (sums_ok (replicate 4 0, replicate 4 0, replicate 4 0, replicate 4 0) 0) as H0 by done.
  pose proof (neon_groups _ _ groups H0 Hgo) as Hs.
  destruct (foldl neon_group _ groups) as [[[s0 s1] s2] s3]. destruct Hs as (L0 & L1 & L2 & L3 & Hs).
  destruct (padal_loop s0 gr L0 Hc2) as [L0' Hs0].
  set (s0' := foldl _ s0 gr) in *. unfold lanes4 in *.
  apply same32_eq; [apply scalar_loop_u32, in_u32_wrap|by apply scalar_loop_u32|].
  unfold checksum_add_scalar, vaddvq_u32, vaddq_u32. rewrite !scalar_loop_sum.
  fold (total (zip_with wrapping_add32 (zip_with wrapping_add32 s0' s1) (zip_with wrapping_add32 s2 s3))).
  rewrite same32_wrap, !total_zip by (rewrite ?length_zip_with; lia).
  rewrite concat_app, <- app_assoc, !be_sum_app by (by apply concat_even).
  rewrite Hs0. transitivity (total s0 + total s1 + total s2 + total s3 + be_sum (concat gr) + be_sum r).
  { apply same32_of_eq. lia. }
  rewrite Hs. apply same32_of_eq. lia.
Qed.

Lemma length_16 (c : list Z) :
  length c = 16%nat →
  ∃ a0 a1 a2 a3 a4 a5 a6 a7 b0 b1 b2 b3 b4 b5 b6 b7,
    c = [a0; a1; a2; a3; a4; a5; a6; a7; b0; b1; b2; b3; b4; b5; b6; b7].
Proof. intros Hl. do 17 (destruct c as [|? c]; [discriminate Hl || eauto 20|]). discriminate Hl. Qed.

Lemma ssse3_step lo hi chunk :
  lanes4 lo → lanes4 hi → length chunk = 16%nat →
  let '(lo', hi') := ssse3_chunk (lo, hi) chunk in
  lanes4 lo' ∧ lanes4 hi' ∧ same32 (total lo' + total hi') (total lo + total hi + be_sum chunk).
Proof.
  intros Hlo Hhi Hc. unfold ssse3_chunk, add_epi32, lanes4 in *.
  destruct (length_16 chunk Hc) as (a0 & a1 & a2 & a3 & a4 & a5 & a6 & a7 & b0 & b1 & b2 & b3 & b4 & b5 & b6 & b7 & ->).
  set (wlo := as_epi32 (unpacklo_epi16 _ _)). set (whi := as_epi32 (unpackhi_epi16 _ _)).
  assert (length wlo = 4%nat ∧ length whi = 4%nat) as [L1 L2] by done.
  assert (total wlo + total whi = be_sum [a0; a1; a2; a3; a4; a5; a6; a7; b0; b1; b2; b3; b4; b5; b6; b7]) as <-.
  { unfold wlo, whi, total, as_epi32, unpacklo_epi16, unpackhi_epi16. simpl. unfold be16. lia. }
  split; [rewrite length_zip_with; lia|]. split; [rewrite length_zip_with; lia|].
  rewrite !total_zip by lia. apply same32_of_eq. lia.
Qed.

Lemma ssse3_chunks lo hi chunks :
  lanes4 lo → lanes4 hi → Forall (λ c, length c = 16%nat) chunks →
  let '(lo', hi') := foldl ssse3_chunk (lo, hi) chunks in
  lanes4 lo' ∧ lanes4 hi' ∧ same32 (total lo' + total hi') (total lo + total hi + be_sum (concat chunks)).
Proof.
  intros Hlo Hhi Hc. revert lo hi Hlo Hhi. induction Hc as [|c cs Hc Hcs IH]; intros lo hi Hlo Hhi; cbn [foldl concat].
  { split; [done|]. split; [done|]. apply same32_of_eq. simpl. lia. }
  pose proof (ssse3_step lo hi c Hlo Hhi Hc) as Hs. destruct (ssse3_chunk (lo, hi) c) as [lo1 hi1].
  destruct Hs as (L1 & L2 & Hs). specialize (IH lo1 hi1 L1 L2).
  destruct (foldl ssse3_chunk (lo1, hi1) cs) as [lo2 hi2]. destruct IH as (L3 & L4 & IH).
  split; [done|]. split; [done|]. rewrite IH, Hs.
  rewrite be_sum_app by (rewrite Hc; by exists 8%nat). apply same32_of_eq. lia.
Qed.

(** Two horizontal additions leave the sum of the lanes in the first. *)
Lemma hadd_total v :
  lanes4 v → same32 (cvtsi128_si32 (hadd_epi32 (hadd_epi32 v v) (hadd_epi32 v v))) (total v) ∧
  in_u32 (cvtsi128_si32 (hadd_epi32 (hadd_epi32 v v) (hadd_epi32 v v))).
Proof.
  intros Hv. destruct v as [|x [|y [|z [|w [|]]]]]; try done.
  unfold hadd_epi32, cvtsi128_si32. cbn [pairwise app nth]. split; [|apply in_u32_wrap].
  unfold wrapping_add32. rewrite !same32_wrap. apply same32_of_eq. unfold total. simpl. lia.
Qed.

Lemma ssse3_scalar data : checksum_add_ssse3 data = checksum_add_scalar data.
Proof.
  unfold checksum_add_ssse3. pose proof (as_chunks_spec 16 data ltac:(lia)) as Hc.
  destruct (as_chunks 16 data) as [chunks r]. destruct Hc as (-> & Hc & Hr).
  pose proof (ssse3_chunks (replicate 4 0) (replicate 4 0) chunks eq_refl eq_refl Hc) as Hs.
  destruct (foldl ssse3_chunk _ chunks) as [lo hi]. destruct Hs as (L1 & L2 & Hs).
  assert (lanes4 (add_epi32 lo hi)) as L3 by (unfold lanes4, add_epi32 in *; rewrite length_zip_with; lia).
  destruct (hadd_total _ L3) as [Ht Hu].
  apply same32_eq; [by apply scalar_loop_u32|by apply scalar_loop_u32|].
  unfold checksum_add_scalar. rewrite !scalar_loop_sum, Ht.
  unfold add_epi32. rewrite total_zip by (unfold lanes4 in *; lia). rewrite Hs.
  rewrite be_sum_app by (by apply concat_even). apply same32_of_eq. unfold total. simpl. lia.
Qed.

Lemma checksum_add_sum arch data : checksum_add arch data = wrap32 (be_sum data).
Proof.
  unfold checksum_add, checksum_add_fast. rewrite <- scalar_sum.
  case_match; [|done]. destruct arch as [| |[]|]; auto using neon_scalar, ssse3_scalar.
Qed.

(** ** Folding *)

(** The representative of a sum in ones' complement: zero only for zero. *)
Definition oc (s : Z) : Z := if s =? 0 then 0 else (s - 1) mod 65535 + 1.

Lemma fold_done s : in_u32 s → fold_loop 2 s = oc s ∧ Z.shiftr (fold_loop 2 s) 16 = 0.
Proof.
  intros Hs. unfold in_u32, u32_bound in Hs. cbn [fold_loop].
  rewrite !Z.shiftr_div_pow2 by lia. change 0xFFFF with (Z.ones 16). rewrite !Z.land_ones by lia.
  unfold wrapping_add32, wrap32, u32_bound, oc.
  set (s1 := (s mod 2 ^ 16 + s / 2 ^ 16) mod 2 ^ 32).
  assert (s1 = s mod 65536 + s / 65536) as Hs1.
  { unfold s1. apply Z.mod_small. Z.to_euclidean_division_equations; lia. }
  assert ((s1 mod 2 ^ 16 + s1 / 2 ^ 16) mod 2 ^ 32 = s1 mod 65536 + s1 / 65536) as Hs2.
  { apply Z.mod_small. rewrite Hs1. Z.to_euclidean_division_equations; lia. }
  destruct (Z.eqb_spec (s / 2 ^ 16) 0) as [H0|H0].
  - destruct (Z.eqb_spec s 0); Z.to_euclidean_division_equations; lia.
  - destruct (Z.eqb_spec s 0); [Z.to_euclidean_division_equations; lia|].
    destruct (Z.eqb_spec (s1 / 2 ^ 16) 0) as [H1|H1]; rewrite ?Hs2, ?Hs1; rewrite ?Hs1 in H1;
      Z.to_euclidean_division_equations; lia.
Qed.

Lemma oc_range s : 0 ≤ s → 0 ≤ oc s ≤ 65535 ∧ (0 < s → 0 < oc s) ∧ oc s mod 65535 = s mod 65535.
Proof.
  intros Hs. unfold oc. destruct (Z.eqb_spec s 0) as [->|Hn]; [done|].
  pose proof (Z.mod_pos_bound (s - 1) 65535). split; [lia|]. split; [lia|].
  rewrite Z.add_mod_idemp_l by done. f_equal. lia.
Qed.

Lemma oc_unique s t : 0 < s → 0 < t → s mod 65535 = t mod 65535 → oc s = oc t.
Proof.
  intros Hs Ht He. destruct (oc_range s) as (R1 & P1 & E1); [lia|]. destruct (oc_range t) as (R2 & P2 & E2); [lia|].
  rewrite <- E1, <- E2 in He. specialize (P1 Hs). specialize (P2 Ht).
  Z.to_euclidean_division_equations; lia.
Qed.

Lemma checksum_fold_oc s : in_u32 s → checksum_fold s = 65535 - oc s ∧ in_u16 (checksum_fold s).
Proof.
  intros Hs. unfold checksum_fold. destruct (fold_done s Hs) as [-> _]. unfold in_u32, u32_bound in Hs.
  destruct (oc_range s) as [Hr _]; [lia|]. split; [|apply in_u16_wrap].
  unfold wrap16, not32, u16_bound, u32_bound.
  replace (2 ^ 32 - 1 - oc s) with (65535 - oc s + 65535 * 2 ^ 16) by lia.
  rewrite Z.mod_add by lia. apply Z.mod_small. lia.
Qed.

(** The update adds the old word to the checksum and takes the new one away, in
    ones' complement. *)
Lemma incremental_oc c m m' :
  in_u16 c → in_u16 m → in_u16 m' →
  incremental_checksum_update c m m' = 65535 - oc (65535 - c + (65535 - m) + m').
Proof.
  intros Hc Hm Hm'. unfold in_u16, u16_bound in *. unfold incremental_checksum_update, wrapping_add32, not16, u16_bound.
  change (2 ^ 16) with 65536 in *.
  assert (wrap32 (wrap32 (65536 - 1 - c + (65536 - 1 - m)) + m') = 65535 - c + (65535 - m) + m') as ->.
  { unfold wrap32, u32_bound. rewrite (Z.mod_small (_ + (_ - m))) by lia. rewrite Z.mod_small by lia. lia. }
  apply checksum_fold_oc. unfold in_u32, u32_bound. lia.
Qed.

Lemma incremental_u16 c m m' : in_u16 (incremental_checksum_update c m m').
Proof. apply in_u16_wrap. Qed.

Lemma incremental_congr c m m' :
  in_u16 c → in_u16 m → in_u16 m' →
  (incremental_checksum_update c m m' + m') mod 65535 = (c + m) mod 65535.
Proof.
  intros Hc Hm Hm'. rewrite incremental_oc by done. unfold in_u16, u16_bound in *.
  destruct (oc_range (65535 - c + (65535 - m) + m')) as (_ & _ & He); [lia|].
  set (o := oc _) in *. Z.to_euclidean_division_equations; lia.
Qed.

Lemma to_be16_sum v : be_sum (to_be16 v) = v.
Proof. unfold to_be16. simpl. unfold be16. pose proof (Z.div_mod v 256). lia. Qed.

Lemma to_be16_u8 v : in_u16 v → Forall in_u8 (to_be16 v).
Proof.
  unfold in_u16, u16_bound, to_be16. intros Hv. repeat constructor; unfold u8_bound;
    Z.to_euclidean_division_equations; lia.
Qed.

Lemma be_sum_field pre v post :
  Nat.Even (length pre) → be_sum (pre ++ to_be16 v ++ post) = be_sum pre + v + be_sum post.
Proof.
  intros He. rewrite !be_sum_app, to_be16_sum; [lia|by exists 1%nat|done].
Qed.

(** The sum of the pseudo-header. *)
Definition pseudo_sum (src dst : Ipv4) (protocol n : Z) : Z :=
  be_sum (octets src) + be_sum (octets dst) + protocol + n.

Lemma pseudo_header_sum src dst protocol n : same32 (pseudo_header src dst protocol n) (pseudo_sum src dst protocol n).
Proof.
  unfold pseudo_header, wrapping_add32. rewrite !same32_wrap. apply same32_of_eq.
  unfold pseudo_sum, octets. simpl. lia.
Qed.

(** Filling the zeroed field with the complement of the sum makes the sum a
    multiple of [2^16 - 1]. *)
Lemma filled_sum s c : 0 ≤ s < u32_bound → c = checksum_fold (wrap32 s) ∨ (checksum_fold (wrap32 s) = 0 ∧ c = 0xFFFF) →
  in_u16 c ∧ (s + c) mod 65535 = 0.
Proof.
  intros Hs Hc. assert (wrap32 s = s) as Hw by (by apply Z.mod_small). rewrite Hw in Hc.
  destruct (checksum_fold_oc s Hs) as [Hf Hu]. destruct (oc_range s) as (R & _ & E); [lia|].
  assert ((s + checksum_fold s) mod 65535 = 0) as H0.
  { rewrite Hf. replace (s + (65535 - oc s)) with (s - oc s + 1 * 65535) by lia. rewrite Z.mod_add by lia.
    rewrite Zminus_mod, E, Z.sub_diag. done. }
  destruct Hc as [->|[Hz ->]]; [done|]. split; [done|]. rewrite Hz, Z.add_0_r in H0.
  replace (s + 0xFFFF) with (s + 1 * 65535) by lia. by rewrite Z.mod_add.
Qed.

(** ** Properties *)

(** C16: every version of the sum is the scalar one: the NEON and SSSE3 loops,
    chosen by the build target, the processor and the length, give the same
    32-bit sum on every buffer. *)
Theorem vector_sums_agree arch data :
  checksum_add arch data = checksum_add_scalar data ∧
  checksum_simd arch data = checksum_fold (checksum_add_scalar data).
Proof.
  split; [by rewrite checksum_add_sum, scalar_sum|]. unfold checksum_simd, checksum_add_fast. f_equal.
  destruct arch as [| |[]|]; auto using neon_scalar, ssse3_scalar.
Qed.

(** The incremental update of RFC 1624 is the recomputation: for a 16-bit
    field of a buffer with a nonzero word elsewhere, updating the checksum of
    the buffer gives the checksum of the buffer with the field replaced. *)
Theorem incremental_is_recomputation arch pre post old new :
  Forall in_u8 pre → Forall in_u8 post → in_u16 old → in_u16 new → Nat.Even (length pre) →
  Z.of_nat (length pre + length post) < u16_bound → 0 < be_sum pre + be_sum post →
  incremental_checksum_update (checksum arch (pre ++ to_be16 old ++ post)) old new =
    checksum arch (pre ++ to_be16 new ++ post).
Proof.
  intros Hpre Hpost Ho Hn He Hl Hpos. unfold checksum. rewrite !checksum_add_sum, !be_sum_field by done.
  pose proof (be_sum_bounds pre Hpre) as B1. pose proof (be_sum_bounds post Hpost) as B2.
  set (s := be_sum pre + be_sum post) in *. unfold in_u16, u16_bound in *.
  assert (∀ v, 0 ≤ v < 2 ^ 16 → wrap32 (be_sum pre + v + be_sum post) = s + v ∧ in_u32 (s + v)) as Hw.
  { intros v Hv. unfold wrap32, in_u32, u32_bound, s in *. rewrite Z.mod_small by lia. lia. }
  destruct (Hw old Ho) as [-> U1]. destruct (Hw new Hn) as [-> U2].
  destruct (checksum_fold_oc _ U1) as [-> _]. destruct (checksum_fold_oc _ U2) as [-> _].
  destruct (oc_range (s + old)) as (R1 & P1 & E1); [lia|]. specialize (P1 ltac:(lia)).
  rewrite incremental_oc by (unfold in_u16, u16_bound; lia). f_equal.
  apply oc_unique; [lia|lia|]. clear Hw. set (o := oc (s + old)) in *.
  Z.to_euclidean_division_equations; lia.
Qed.

(** The header of RFC 1071's example with one word changed. *)
Lemma incremental_is_recomputation_witness :
  incremental_checksum_update
    (checksum Aarch64 ([0; 1; 0xf2; 3; 0xf4; 0xf5] ++ to_be16 0xf6f7 ++ [])) 0xf6f7 0x1234 =
  checksum Aarch64 ([0; 1; 0xf2; 3; 0xf4; 0xf5] ++ to_be16 0x1234 ++ []).
Proof.
  apply (incremental_is_recomputation Aarch64 [0; 1; 0xf2; 3; 0xf4; 0xf5] [] 0xf6f7 0x1234);
    [repeat constructor; done|constructor|done|done|by exists 3%nat|done|vm_compute; reflexivity].
Defined.
