(* ===== verification/Bytes.v ===== *)
(** * Byte slices that panic

    Rust's indexing and [copy_from_slice] on [&[u8]]: an access outside the
    slice panics, which is [None]. *)

From Stdlib Require Import ZArith Lia.
From stdpp Require Import base numbers list countable.
From S2P Require Import Prelude Bits Checksum.

Open Scope Z_scope.

Declare Scope panic_scope.
Notation "'let!' x := a 'in' b" := (match a with Some x => b | None => None end)
  (at level 200, x name, a at level 100, b at level 200) : panic_scope.
Open Scope panic_scope.

Definition len (l : list Z) : Z := Z.of_nat (length l).

(** [l[i]], [l[a..b]] and [l[a..a + n].copy_from_slice(bs)]. *)
Definition byte (l : list Z) (i : Z) : option Z := l !! Z.to_nat i.

Definition range (l : list Z) (a b : Z) : option (list Z) :=
  if (a <=? b) && (b <=? len l) then Some (take (Z.to_nat (b - a)) (drop (Z.to_nat a) l)) else None.

Definition put (l : list Z) (a : Z) (bs : list Z) : option (list Z) :=
  if a + len bs <=? len l
  then Some (take (Z.to_nat a) l ++ bs ++ drop (Z.to_nat (a + len bs)) l) else None.

(** [u16::from_be_bytes([l[i], l[i + 1]])]. *)
Definition get_be16 (l : list Z) (i : Z) : option Z :=
  let! hi := byte l i in let! lo := byte l (i + 1) in Some (be16 hi lo).

Definition to_be32 (v : Z) : list Z := to_be16 (v / 65536) ++ to_be16 (v mod 65536).
Definition get_be32 (l : list Z) (i : Z) : option Z :=
  let! hi := get_be16 l i in let! lo := get_be16 l (i + 2) in Some (hi * 65536 + lo).

Definition get_ip (l : list Z) (i : Z) : option Ipv4 :=
  let! a := byte l i in let! b := byte l (i + 1) in
  let! c := byte l (i + 2) in let! d := byte l (i + 3) in Some (MkIp a b c d).

(** Addresses are keys of finite maps. *)
Definition ip_of (l : list Z) : option Ipv4 :=
  match l with [a; b; c; d] => Some (MkIp a b c d) | _ => None end.
#[export] Instance Ipv4_countable : Countable Ipv4.
Proof. apply (inj_countable octets ip_of). by intros []. Defined.

(** ** Accesses in bounds *)

Lemma byte_Some l i : Forall in_u8 l → 0 ≤ i < len l → ∃ b, byte l i = Some b ∧ in_u8 b.
Proof.
  intros Hl Hi. unfold byte, len in *. destruct (lookup_lt_is_Some_2 l (Z.to_nat i)) as [b Hb]; [lia|].
  exists b. split; [done|]. by apply (Forall_lookup_1 _ _ _ _ Hl Hb).
Qed.

Lemma put_Some l a bs : 0 ≤ a → a + len bs ≤ len l → ∃ l', put l a bs = Some l'.
Proof. intros Ha Hb. unfold put. rewrite (proj2 (Z.leb_le _ _)) by done. eauto. Qed.

Lemma be16_to v : be16 (v / 256) (v mod 256) = v.
Proof. unfold be16. pose proof (Z.div_mod v 256). lia. Qed.

Lemma len_nonneg l : 0 ≤ len l.
Proof. unfold len. lia. Qed.

Lemma put_inv l a bs l' :
  0 ≤ a → put l a bs = Some l' → a + len bs ≤ len l ∧ len l' = len l ∧
  (Forall in_u8 l → Forall in_u8 bs → Forall in_u8 l') ∧
  ∀ i, 0 ≤ i → byte l' i = if (a <=? i) && (i <? a + len bs) then byte bs (i - a) else byte l i.
Proof.
  intros Ha. unfold put. destruct (Z.leb_spec (a + len bs) (len l)) as [Hb|]; [|done]. intros [= <-].
  unfold len in *. split; [done|]. split; [rewrite !length_app, length_take, length_drop; lia|]. split.
  - intros Hl Hbs. apply Forall_app. split; [by apply Forall_take|]. apply Forall_app. split; [done|by apply Forall_drop].
  - intros i Hi. unfold byte. destruct (Z.leb_spec a i); cbn [andb].
    + rewrite lookup_app_r by (rewrite length_take; lia). rewrite length_take.
      replace (Z.to_nat i - _)%nat with (Z.to_nat (i - a)) by lia.
      destruct (Z.ltb_spec i (a + Z.of_nat (length bs))).
      * apply lookup_app_l. lia.
      * rewrite lookup_app_r by lia. rewrite lookup_drop. f_equal. lia.
    + rewrite lookup_app_l by (rewrite length_take; lia). apply lookup_take_lt. lia.
Qed.

Lemma range_Some l a b :
  0 ≤ a ≤ b → b ≤ len l → ∃ bs, range l a b = Some bs ∧ len bs = b - a ∧ (Forall in_u8 l → Forall in_u8 bs).
Proof.
  intros Ha Hb. unfold range. rewrite !(proj2 (Z.leb_le _ _)) by lia. eexists. split; [done|].
  unfold len in *. rewrite length_take, length_drop. split; [lia|]. intros Hl. by apply Forall_take, Forall_drop.
Qed.

Lemma range_app l a : 0 ≤ a ≤ len l → ∃ bs rest, range l 0 a = Some bs ∧ range l a (len l) = Some rest ∧
  len bs = a ∧ l = bs ++ rest.
Proof.
  intros Ha. unfold range. rewrite !(proj2 (Z.leb_le _ _)) by lia. eexists _, _. split; [done|]. split; [done|].
  unfold len in *. rewrite drop_0, length_take. split; [lia|]. rewrite (take_ge (drop _ _)) by (rewrite length_drop; lia).
  replace (a - 0) with a by lia. by rewrite take_drop.
Qed.

(** Writes and reads that stay in the first part of a buffer. *)
Lemma put_app_l l r a bs l' : 0 ≤ a → put l a bs = Some l' → put (l ++ r) a bs = Some (l' ++ r).
Proof.
  intros Ha. unfold put, len. destruct (Z.leb_spec (a + Z.of_nat (length bs)) (Z.of_nat (length l))) as [Hb|]; [|done].
  intros [= <-]. rewrite length_app, (proj2 (Z.leb_le _ _)) by lia.
  rewrite take_app_le, drop_app_le by lia. by rewrite <- !app_assoc.
Qed.

Lemma put_app_r l r bs : len r = len bs → put (l ++ r) (len l) bs = Some (l ++ bs).
Proof.
  unfold put, len. intros Hb. rewrite length_app, (proj2 (Z.leb_le _ _)) by lia. rewrite Nat2Z.id, take_app_length.
  rewrite drop_ge by (rewrite length_app; lia). by rewrite app_nil_r.
Qed.

(** Writing on after what is written, into zeros. *)
Lemma put_zeros a done n bs :
  a = len done → len bs ≤ Z.of_nat n →
  put (done ++ replicate n 0) a bs = Some ((done ++ bs) ++ replicate (n - length bs) 0).
Proof.
  unfold put, len. intros -> Hb. rewrite length_app, length_replicate, (proj2 (Z.leb_le _ _)) by lia.
  rewrite Nat2Z.id, take_app_length, <- app_assoc. do 3 f_equal.
  replace (Z.to_nat (Z.of_nat (length done) + Z.of_nat (length bs))) with (length done + length bs)%nat by lia.
  by rewrite drop_app_add, drop_replicate.
Qed.

Lemma range_app_l l r a b : b ≤ len l → 0 ≤ a → range (l ++ r) a b = range l a b.
Proof.
  unfold range, len. intros Hb Ha. rewrite length_app.
  destruct (Z.leb_spec a b); cbn [andb]; [|done]. rewrite !(proj2 (Z.leb_le _ _)) by lia.
  rewrite drop_app_le, take_app_le; [done|rewrite length_drop; lia|lia].
Qed.

Lemma range_all l r : range (l ++ r) (len l) (len (l ++ r)) = Some r.
Proof.
  unfold range, len. rewrite length_app, !(proj2 (Z.leb_le _ _)) by lia.
  rewrite Nat2Z.id, drop_app_length, take_ge by lia. done.
Qed.

Lemma len_app l r : len (l ++ r) = len l + len r.
Proof. unfold len. rewrite length_app. lia. Qed.

Lemma range_mid l m r : range (l ++ m ++ r) (len l) (len l + len m) = Some m.
Proof.
  rewrite app_assoc, range_app_l by (rewrite ?len_app; unfold len; lia). rewrite <- len_app. apply range_all.
Qed.

Lemma byte_app_l l r i : i < len l → 0 ≤ i → byte (l ++ r) i = byte l i.
Proof. unfold byte, len. intros Hi H0. apply lookup_app_l. lia. Qed.

(** ** Sums of ranges *)

Definition rsum (l : list Z) (a b : Z) : Z := be_sum (take (Z.to_nat (b - a)) (drop (Z.to_nat a) l)).

Lemma range_rsum l a b bs : range l a b = Some bs → be_sum bs = rsum l a b.
Proof. unfold range. case_match; [|done]. by intros [= <-]. Qed.

Lemma rsum_split l a m b :
  0 ≤ a ≤ m → m ≤ b → m ≤ len l → Z.Even (m - a) → rsum l a b = rsum l a m + rsum l m b.
Proof.
  intros Ha Hm Hl [k Hk]. unfold rsum, len in *.
  rewrite <- be_sum_app.
  - f_equal. replace (Z.to_nat m) with (Z.to_nat a + Z.to_nat (m - a))%nat by lia.
    rewrite <- drop_drop. replace (Z.to_nat (b - a)) with (Z.to_nat (m - a) + Z.to_nat (b - m))%nat by lia.
    symmetry. apply take_take_drop.
  - rewrite length_take, length_drop. exists (Z.to_nat k). lia.
Qed.

Lemma rsum_ext l l' a b :
  0 ≤ a → (∀ i, a ≤ i < b → byte l' i = byte l i) → rsum l' a b = rsum l a b.
Proof.
  intros Ha Hi. unfold rsum. f_equal. apply list_eq. intros k.
  destruct (decide (k < Z.to_nat (b - a))%nat) as [Hk|Hk].
  - rewrite !lookup_take_lt, !lookup_drop by done. specialize (Hi (a + Z.of_nat k) ltac:(lia)).
    unfold byte in Hi. by replace (Z.to_nat (a + Z.of_nat k)) with (Z.to_nat a + k)%nat in Hi by lia.
  - by rewrite !lookup_take_ge by lia.
Qed.

Lemma rsum_put_out l p bs l' a b :
  0 ≤ p → 0 ≤ a → put l p bs = Some l' → p + len bs ≤ a ∨ b ≤ p → rsum l' a b = rsum l a b.
Proof.
  intros Hp Ha Hput Hout. destruct (put_inv _ _ _ _ Hp Hput) as (_ & _ & _ & Hb).
  apply rsum_ext; [done|]. intros i Hi. rewrite Hb by lia.
  destruct (Z.leb_spec p i); [|done]. destruct (Z.ltb_spec i (p + len bs)); [|done]. lia.
Qed.

Lemma rsum_put_same l p bs l' : 0 ≤ p → put l p bs = Some l' → rsum l' p (p + len bs) = be_sum bs.
Proof.
  intros Hp Hput. destruct (put_inv _ _ _ _ Hp Hput) as (_ & _ & _ & Hb). unfold rsum. f_equal.
  apply list_eq. intros k. replace (p + len bs - p) with (len bs) by lia. unfold len in *.
  destruct (decide (k < length bs)%nat) as [Hk|Hk].
  - rewrite lookup_take_lt, lookup_drop by lia. specialize (Hb (p + Z.of_nat k) ltac:(lia)).
    rewrite (proj2 (Z.leb_le _ _)), (proj2 (Z.ltb_lt _ _)) in Hb by lia. unfold byte in Hb.
    replace (Z.to_nat (p + Z.of_nat k)) with (Z.to_nat p + k)%nat in Hb by lia.
    replace (Z.to_nat (p + Z.of_nat k - p)) with k in Hb by lia. exact Hb.
  - rewrite lookup_take_ge by lia. symmetry. apply lookup_ge_None_2. lia.
Qed.

(** Replacing a field of a range moves its sum by the field's change. *)
Lemma rsum_put_in l p bs l' a b :
  put l p bs = Some l' → 0 ≤ a ≤ p → p + len bs ≤ b → Z.Even (p - a) → Z.Even (len bs) →
  rsum l' a b = rsum l a b - rsum l p (p + len bs) + be_sum bs.
Proof.
  intros Hput Ha Hb Hpa Hbs. destruct (put_inv l p bs l' ltac:(lia) Hput) as (Hl & Hlen & _ & _).
  assert (0 ≤ len bs) by (unfold len; lia).
  rewrite (rsum_split l' a p b), (rsum_split l a p b) by (done || lia).
  rewrite (rsum_split l' p (p + len bs) b), (rsum_split l p (p + len bs) b)
    by (lia || (by replace (p + len bs - p) with (len bs) by lia)).
  rewrite (rsum_put_out l p bs l' a p), (rsum_put_out l p bs l' (p + len bs) b) by (done || lia).
  rewrite (rsum_put_same l p bs l') by (done || lia). lia.
Qed.

Lemma get_be16_rsum l i v : 0 ≤ i → get_be16 l i = Some v → v = rsum l i (i + 2).
Proof.
  intros Hi. unfold get_be16, byte, rsum. replace (i + 2 - i) with 2 by lia. change (Z.to_nat 2) with 2%nat.
  destruct (l !! Z.to_nat i) as [hi|] eqn:Hh; [|done].
  replace (Z.to_nat (i + 1)) with (S (Z.to_nat i)) by lia.
  destruct (l !! S (Z.to_nat i)) as [lo|] eqn:Hlo; [|done]. intros [= <-].
  rewrite (drop_S _ _ _ Hh), (drop_S _ _ _ Hlo). simpl. lia.
Qed.

Lemma get_be16_Some l i :
  Forall in_u8 l → 0 ≤ i → i + 2 ≤ len l → ∃ v, get_be16 l i = Some v ∧ in_u16 v.
Proof.
  intros Hl Hi Hle. destruct (byte_Some l i) as (hi & H1 & U1); [done|lia|].
  destruct (byte_Some l (i + 1)) as (lo & H2 & U2); [done|lia|].
  unfold get_be16. rewrite H1, H2. eexists. split; [done|].
  unfold in_u16, in_u8, u16_bound, u8_bound, be16 in *. lia.
Qed.

Definition ip_ok (ip : Ipv4) : Prop := in_u8 (ip0 ip) ∧ in_u8 (ip1 ip) ∧ in_u8 (ip2 ip) ∧ in_u8 (ip3 ip).

Lemma get_be32_Some l i : Forall in_u8 l → 0 ≤ i → i + 4 ≤ len l → ∃ v, get_be32 l i = Some v ∧ in_u32 v.
Proof.
  intros Hl Hi Hle. unfold get_be32. destruct (get_be16_Some l i Hl) as (a & -> & Ha); [lia|lia|].
  destruct (get_be16_Some l (i + 2) Hl) as (b & -> & Hb); [lia|lia|]. eexists. split; [done|].
  unfold in_u16, in_u32, u16_bound, u32_bound in *. lia.
Qed.

Lemma octets_u8 ip : ip_ok ip → Forall in_u8 (octets ip).
Proof. intros (H0 & H1 & H2 & H3). unfold octets. by repeat (constructor; [done|]). Qed.


Lemma get_ip_Some l i :
  Forall in_u8 l → 0 ≤ i → i + 4 ≤ len l → ∃ ip, get_ip l i = Some ip ∧ ip_ok ip.
Proof.
  intros Hl Hi Hle.
  destruct (byte_Some l i) as (a & H1 & U1); [done|lia|]. destruct (byte_Some l (i + 1)) as (b & H2 & U2); [done|lia|].
  destruct (byte_Some l (i + 2)) as (c & H3 & U3); [done|lia|]. destruct (byte_Some l (i + 3)) as (d & H4 & U4); [done|lia|].
  unfold get_ip. rewrite H1, H2, H3, H4. eexists. split; [done|]. done.
Qed.

Lemma get_ip_rsum l i ip : 0 ≤ i → get_ip l i = Some ip → rsum l i (i + 4) = be_sum (octets ip).
Proof.
  intros Hi. unfold get_ip, byte, rsum. replace (i + 4 - i) with 4 by lia. change (Z.to_nat 4) with 4%nat.
  replace (Z.to_nat (i + 1)) with (S (Z.to_nat i)) by lia.
  replace (Z.to_nat (i + 2)) with (S (S (Z.to_nat i))) by lia.
  replace (Z.to_nat (i + 3)) with (S (S (S (Z.to_nat i)))) by lia.
  destruct (l !! Z.to_nat i) as [a|] eqn:H1; [|done]. destruct (l !! S (Z.to_nat i)) as [b|] eqn:H2; [|done].
  destruct (l !! S (S (Z.to_nat i))) as [c|] eqn:H3; [|done].
  destruct (l !! S (S (S (Z.to_nat i)))) as [d|] eqn:H4; [|done]. intros [= <-].
  by rewrite (drop_S _ _ _ H1), (drop_S _ _ _ H2), (drop_S _ _ _ H3), (drop_S _ _ _ H4).
Qed.

(** ** Reading back *)

Lemma byte_put_out l p bs l' i :
  0 ≤ p → 0 ≤ i → put l p bs = Some l' → i < p ∨ p + len bs ≤ i → byte l' i = byte l i.
Proof.
  intros Hp Hi Hput Ho. destruct (put_inv _ _ _ _ Hp Hput) as (_ & _ & _ & Hb). rewrite Hb by done.
  destruct (Z.leb_spec p i); [|done]. destruct (Z.ltb_spec i (p + len bs)); [lia|done].
Qed.

Lemma byte_put_in l p bs l' i :
  0 ≤ p ≤ i → i < p + len bs → put l p bs = Some l' → byte l' i = byte bs (i - p).
Proof.
  intros Hp Hi Hput. destruct (put_inv l p bs l' ltac:(lia) Hput) as (_ & _ & _ & Hb). rewrite Hb by lia.
  by rewrite (proj2 (Z.leb_le _ _)), (proj2 (Z.ltb_lt _ _)) by lia.
Qed.

Lemma get_be16_put_out l p bs l' i :
  0 ≤ p → 0 ≤ i → put l p bs = Some l' → i + 2 ≤ p ∨ p + len bs ≤ i → get_be16 l' i = get_be16 l i.
Proof.
  intros Hp Hi Hput Ho. assert (0 ≤ len bs) by (unfold len; lia).
  unfold get_be16. by rewrite !(byte_put_out l p bs l') by (done || lia).
Qed.

Lemma get_ip_put_out l p bs l' i :
  0 ≤ p → 0 ≤ i → put l p bs = Some l' → i + 4 ≤ p ∨ p + len bs ≤ i → get_ip l' i = get_ip l i.
Proof.
  intros Hp Hi Hput Ho. assert (0 ≤ len bs) by (unfold len; lia).
  unfold get_ip. by rewrite !(byte_put_out l p bs l') by (done || lia).
Qed.

Lemma get_be16_put l p v l' : 0 ≤ p → put l p (to_be16 v) = Some l' → get_be16 l' p = Some v.
Proof.
  intros Hp Hput. unfold get_be16. change (len (to_be16 v)) with 2 in *.
  rewrite !(byte_put_in l p (to_be16 v) l') by (done || (change (len (to_be16 v)) with 2; lia)).
  replace (p - p) with 0 by lia. replace (p + 1 - p) with 1 by lia. unfold to_be16, byte. simpl.
  unfold be16. f_equal. pose proof (Z.div_mod v 256). lia.
Qed.

Lemma get_ip_put l p ip l' : 0 ≤ p → put l p (octets ip) = Some l' → get_ip l' p = Some ip.
Proof.
  intros Hp Hput. unfold get_ip.
  rewrite !(byte_put_in l p (octets ip) l') by (done || (change (len (octets ip)) with 4; lia)).
  replace (p - p) with 0 by lia. replace (p + 1 - p) with 1 by lia.
  replace (p + 2 - p) with 2 by lia. replace (p + 3 - p) with 3 by lia. by destruct ip.
Qed.
