(* ===== verification/ConnTrack.v ===== *)
(** * Connection tracking

    [src/common/arcbox-conntrack/src/conntrack.rs]: the table of connections
    behind the NAT, with its reverse map, its direct-mapped cache and its port
    allocator. Entries are shared ([Arc]) between the table, the cache and
    whoever looked them up, and their counters change in place: a reference is an
    address of [heap]. Time is in seconds, given to the operations that read it. *)

From Stdlib Require Import ZArith Lia.
From stdpp Require Import base numbers list gmap.
From S2P Require Import Prelude Bits Checksum Bytes.

Open Scope Z_scope.

Module Ct.

Inductive ConnState := New | Established | FinWait | Closing | TimedOut.

Record ConnTrackKey := MkKey {
  src_ip : Ipv4;
  dst_ip : Ipv4;
  src_port : Z;
  dst_port : Z;
  protocol : Z
}.
#[export] Instance ConnTrackKey_eq_dec : EqDecision ConnTrackKey.
Proof. solve_decision. Defined.

Definition key_list (k : ConnTrackKey) : list Z :=
  octets (src_ip k) ++ octets (dst_ip k) ++ [src_port k; dst_port k; protocol k].
Definition key_of (l : list Z) : option ConnTrackKey :=
  match l with
  | [a; b; c; d; e; f; g; h; s; t; p] => Some (MkKey (MkIp a b c d) (MkIp e f g h) s t p)
  | _ => None
  end.
#[export] Instance ConnTrackKey_countable : Countable ConnTrackKey.
Proof. apply (inj_countable key_list key_of). by intros [[] [] ???]. Defined.

(** An IPv4 socket address. *)
Definition SocketAddrV4 : Type := Ipv4 * Z.

(** [ConnTrackKey::reverse]. *)
Definition reverse_key (k : ConnTrackKey) : ConnTrackKey :=
  MkKey (dst_ip k) (src_ip k) (dst_port k) (src_port k) (protocol k).

(** [fast_hash]: FNV-1a over the addresses, the ports and the protocol. *)
Definition fnv_step (hash x : Z) : Z := wrap64 (Z.lxor hash x * 0x100000001b3).
Definition fast_hash (k : ConnTrackKey) : Z := foldl fnv_step 0xcbf29ce484222325 (key_list k).

Record ConnTrackEntry := MkEntry {
  orig_src : SocketAddrV4;
  orig_dst : SocketAddrV4;
  nat_src : SocketAddrV4;
  nat_dst : SocketAddrV4;
  state : ConnState;
  entry_protocol : Z;
  flags : Z;
  last_seen : Z;
  packets : Z;
  bytes : Z;
  created_at : Z
}.
#[export] Instance eta_ConnTrackEntry : Eta ConnTrackEntry := {|
  eta e := MkEntry (orig_src e) (orig_dst e) (nat_src e) (nat_dst e) (state e) (entry_protocol e)
    (flags e) (last_seen e) (packets e) (bytes e) (created_at e);
  eta_ok := ltac:(by intros [])
|}.

Definition FLAG_SNAT : Z := 1.
Definition FLAG_DNAT : Z := 2.
Definition FLAG_REPLY_SEEN : Z := 4.

Definition new_snat (osrc odst nsrc : SocketAddrV4) (proto now : Z) : ConnTrackEntry :=
  MkEntry osrc odst nsrc odst New proto FLAG_SNAT now 0 0 now.

Definition touch (e : ConnTrackEntry) (now : Z) : ConnTrackEntry := e <| last_seen := now |>.
Definition record_packet (e : ConnTrackEntry) (n now : Z) : ConnTrackEntry :=
  touch (e <| packets := wrap64 (packets e + 1) |> <| bytes := wrap64 (bytes e + n) |>) now.
(** [saturating_sub]. *)
Definition is_expired (e : ConnTrackEntry) (timeout now : Z) : bool :=
  timeout <? Z.max 0 (now - last_seen e).
Definition has_snat (e : ConnTrackEntry) : bool := negb (Z.land (flags e) FLAG_SNAT =? 0).
Definition has_dnat (e : ConnTrackEntry) : bool := negb (Z.land (flags e) FLAG_DNAT =? 0).
Definition reply_seen (e : ConnTrackEntry) : bool := negb (Z.land (flags e) FLAG_REPLY_SEEN =? 0).
Definition mark_reply_seen (e : ConnTrackEntry) : ConnTrackEntry :=
  e <| flags := Z.lor (flags e) FLAG_REPLY_SEEN |> <| state := Established |>.

Record FastCacheEntry := MkFast { key_hash : Z; fast_key : ConnTrackKey; fast_entry : Z; hits : Z }.
Definition new_fast (k : ConnTrackKey) (r : Z) : FastCacheEntry := MkFast (fast_hash k) k r 0.

(** ** Ports *)

Record PortAllocator := MkPorts { current : Z; port_start : Z; port_end : Z }.
#[export] Instance eta_PortAllocator : Eta PortAllocator := {|
  eta p := MkPorts (current p) (port_start p) (port_end p); eta_ok := ltac:(by intros [])
|}.

Definition new_ports (start end_ : Z) : PortAllocator := MkPorts start start end_.

(** The remainder panics on an empty range; the arithmetic on [u16] wraps. *)
Definition allocate_port (p : PortAllocator) : option (Z * PortAllocator) :=
  let span := wrap16 (port_end p - port_start p + 1) in
  if span =? 0 then None
  else Some (wrap16 (port_start p + wrap16 (wrap32 (current p - port_start p) mod span)),
             p <| current := wrap32 (current p + 1) |>).

(** ** The table *)

Record ConnTrackTable := MkTable {
  heap : gmap Z ConnTrackEntry;
  next_ref : Z;
  entries : gmap ConnTrackKey Z;
  reverse : gmap ConnTrackKey ConnTrackKey;
  fast_cache : list (option FastCacheEntry);
  fast_cache_mask : Z;
  port_alloc : PortAllocator;
  external_ip : Ipv4;
  timeout_secs : Z;
  lookups : Z;
  fast_hits : Z;
  slow_lookups : Z;
  created : Z;
  expired : Z
}.
#[export] Instance eta_ConnTrackTable : Eta ConnTrackTable := {|
  eta t := MkTable (heap t) (next_ref t) (entries t) (reverse t) (fast_cache t) (fast_cache_mask t)
    (port_alloc t) (external_ip t) (timeout_secs t) (lookups t) (fast_hits t) (slow_lookups t)
    (created t) (expired t);
  eta_ok := ltac:(by intros [])
|}.

(** [usize::next_power_of_two]. *)
Definition next_power_of_two (n : Z) : Z := if n <=? 1 then 1 else 2 ^ Z.log2_up n.

Definition new_table (ext : Ipv4) (pstart pend cache_size timeout : Z) : ConnTrackTable :=
  let cache_size := next_power_of_two cache_size in
  MkTable ∅ 0 ∅ ∅ (replicate (Z.to_nat cache_size) None) (cache_size - 1) (new_ports pstart pend) ext
    timeout 0 0 0 0 0.

Definition cache_idx (t : ConnTrackTable) (k : ConnTrackKey) : nat :=
  Z.to_nat (Z.land (fast_hash k) (fast_cache_mask t)).

(** An entry of the cache for the key; [None] is the panic of an index out of range. *)
Definition cached (t : ConnTrackTable) (k : ConnTrackKey) : option (option Z) :=
  match fast_cache t !! cache_idx t k with
  | None => None
  | Some (Some c) =>
      Some (if (key_hash c =? fast_hash k) && bool_decide (fast_key c = k) then Some (fast_entry c) else None)
  | Some None => Some None
  end.

Definition fill_cache (t : ConnTrackTable) (k : ConnTrackKey) (r : Z) : ConnTrackTable :=
  t <| fast_cache := <[cache_idx t k := Some (new_fast k r)]> (fast_cache t) |>.

Definition lookup (t : ConnTrackTable) (k : ConnTrackKey) : option (option Z * ConnTrackTable) :=
  let t := t <| lookups := wrap64 (lookups t + 1) |> in
  let! hit := cached t k in
  match hit with
  | Some r => Some (Some r, t <| fast_hits := wrap64 (fast_hits t + 1) |>)
  | None =>
      let t := t <| slow_lookups := wrap64 (slow_lookups t + 1) |> in
      match entries t !! k with
      | Some r => Some (Some r, fill_cache t k r)
      | None => Some (None, t)
      end
  end.

Definition lookup_reverse (t : ConnTrackTable) (nat_key : ConnTrackKey) : option (option Z * ConnTrackTable) :=
  match reverse t !! nat_key with
  | Some k => lookup t k
  | None => Some (None, t)
  end.

(** The key of the replies to a connection translated to [port]. *)
Definition reply_key (t : ConnTrackTable) (k : ConnTrackKey) (port : Z) : ConnTrackKey :=
  MkKey (dst_ip k) (external_ip t) (dst_port k) port (protocol k).

Definition create (t : ConnTrackTable) (k : ConnTrackKey) (now : Z) : option (Z * ConnTrackTable) :=
  match allocate_port (port_alloc t) with
  | None => None
  | Some (port, ports) =>
      let r := next_ref t in
      let e := new_snat (src_ip k, src_port k) (dst_ip k, dst_port k) (external_ip t, port) (protocol k) now in
      let t := t <| port_alloc := ports |> <| heap := <[r := e]> (heap t) |> <| next_ref := r + 1 |>
                 <| reverse := <[reply_key t k port := k]> (reverse t) |>
                 <| entries := <[k := r]> (entries t) |> <| created := wrap64 (created t + 1) |> in
      match fast_cache t !! cache_idx t k with
      | None => None
      | Some _ => Some (r, fill_cache t k r)
      end
  end.

Definition get_or_create (t : ConnTrackTable) (k : ConnTrackKey) (now : Z) : option (Z * ConnTrackTable) :=
  if bool_decide (is_Some (entries t !! k)) then
    match lookup t k with
    | Some (Some r, t) => Some (r, t)
    | _ => None
    end
  else create t k now.

(** The cache forgets a key. *)
Definition invalidate (t : ConnTrackTable) (k : ConnTrackKey) : option ConnTrackTable :=
  let! slot := fast_cache t !! cache_idx t k in
  match slot with
  | Some c =>
      if bool_decide (fast_key c = k)
      then Some (t <| fast_cache := <[cache_idx t k := None]> (fast_cache t) |>)
      else Some t
  | None => Some t
  end.

Definition remove (t : ConnTrackTable) (k : ConnTrackKey) : option ConnTrackTable :=
  match entries t !! k with
  | None => Some t
  | Some r =>
      let t := t <| entries := delete k (entries t) |> in
      let! e := heap t !! r in
      invalidate (t <| reverse := delete (reply_key t k (snd (nat_src e))) (reverse t) |>) k
  end.

Fixpoint remove_all (t : ConnTrackTable) (ks : list ConnTrackKey) : option ConnTrackTable :=
  match ks with
  | [] => Some t
  | k :: ks => let! t := remove t k in remove_all t ks
  end.

Definition entry_expired (t : ConnTrackTable) (now : Z) (p : ConnTrackKey * Z) : bool :=
  match heap t !! snd p with Some e => is_expired e (timeout_secs t) now | None => false end.

(** The keys of the entries that expired, in the order [order] of the map. *)
Definition expired_keys (order : gmap ConnTrackKey Z → list (ConnTrackKey * Z)) (t : ConnTrackTable) (now : Z)
    : list ConnTrackKey :=
  (filter (λ p, entry_expired t now p = true) (order (entries t))).*1.

Definition expire_old (order : gmap ConnTrackKey Z → list (ConnTrackKey * Z)) (t : ConnTrackTable) (now : Z)
    : option (Z * ConnTrackTable) :=
  let ks := expired_keys order t now in
  let! t := remove_all t ks in
  Some (Z.of_nat (length ks), t <| expired := wrap64 (expired t + Z.of_nat (length ks)) |>).

Definition clear (t : ConnTrackTable) : ConnTrackTable :=
  t <| entries := ∅ |> <| reverse := ∅ |> <| fast_cache := (λ _, None) <$> fast_cache t |>.

(** A packet recorded on a shared entry. *)
Definition record_at (t : ConnTrackTable) (r n now : Z) : ConnTrackTable :=
  t <| heap := alter (λ e, record_packet e n now) r (heap t) |>.

Definition table_len (t : ConnTrackTable) : Z := Z.of_nat (size (entries t)).
Definition table_is_empty (t : ConnTrackTable) : bool := bool_decide (entries t = ∅).

(** ** A consistent table *)

#[local] Opaque fast_hash.

(** Reads of updated fields. *)
Ltac fields :=
  cbv [upd] in *;
  cbn [heap next_ref entries reverse fast_cache fast_cache_mask port_alloc external_ip timeout_secs
    lookups fast_hits slow_lookups created expired current port_start port_end] in *.

(** An entry is the one of its key. *)
Definition of_key (t : ConnTrackTable) (k : ConnTrackKey) (e : ConnTrackEntry) : Prop :=
  orig_src e = (src_ip k, src_port k) ∧ orig_dst e = (dst_ip k, dst_port k) ∧
  fst (nat_src e) = external_ip t ∧ entry_protocol e = protocol k.

Record table_ok (t : ConnTrackTable) : Prop := {
  to_mask : ∃ k, 0 ≤ k ∧ fast_cache_mask t = 2 ^ k - 1 ∧ length (fast_cache t) = Z.to_nat (2 ^ k);
  to_cache : ∀ i c, fast_cache t !! i = Some (Some c) →
    key_hash c = fast_hash (fast_key c) ∧ i = cache_idx t (fast_key c) ∧ entries t !! fast_key c = Some (fast_entry c);
  to_refs : ∀ k r, entries t !! k = Some r → r < next_ref t ∧ ∃ e, heap t !! r = Some e ∧ of_key t k e
}.

(** What the lookups leave alone. *)
Record same_map (t t' : ConnTrackTable) : Prop := {
  sm_heap : heap t' = heap t;
  sm_next : next_ref t' = next_ref t;
  sm_entries : entries t' = entries t;
  sm_reverse : reverse t' = reverse t;
  sm_ports : port_alloc t' = port_alloc t;
  sm_ip : external_ip t' = external_ip t;
  sm_timeout : timeout_secs t' = timeout_secs t
}.

Lemma cache_slot t k : table_ok t → is_Some (fast_cache t !! cache_idx t k).
Proof.
  intros [(n & Hn & Hm & Hl) _ _]. apply lookup_lt_is_Some_2. unfold cache_idx. rewrite Hm, Hl.
  replace (2 ^ n - 1) with (Z.ones n) by (rewrite Z.ones_equiv; lia). rewrite Z.land_ones by done.
  pose proof (Z.mod_pos_bound (fast_hash k) (2 ^ n)). assert (0 < 2 ^ n) by lia. lia.
Qed.

Lemma cached_spec t k :
  table_ok t → ∃ hit, cached t k = Some hit ∧ (∀ r, hit = Some r → entries t !! k = Some r).
Proof.
  intros Hok. destruct (cache_slot t k Hok) as [slot Hs]. unfold cached. rewrite Hs.
  destruct slot as [c|]; [|by exists None].
  destruct (to_cache _ Hok _ _ Hs) as (H1 & H2 & H3). eexists. split; [done|].
  intros r. destruct (_ =? _); [|done]. case_bool_decide as Hk; [|done]. cbn [andb]. intros [= <-]. by subst k.
Qed.

Lemma fill_cache_ok t k r : table_ok t → entries t !! k = Some r → table_ok (fill_cache t k r).
Proof.
  intros [(n & Hn & Hm & Hl) Hc Hr] He. split.
  - exists n. split; [done|]. split; [done|]. unfold fill_cache. fields. by rewrite length_insert.
  - intros i c Hi. change (fast_cache (fill_cache t k r)) with
      (<[cache_idx t k := Some (new_fast k r)]> (fast_cache t)) in Hi.
    apply list_lookup_insert_Some in Hi as [(<- & [= <-] & _)|[_ Hi]]; [done|]. by apply Hc.
  - done.
Qed.

Lemma table_ok_stats t t' :
  heap t' = heap t → next_ref t' = next_ref t → entries t' = entries t → fast_cache t' = fast_cache t →
  fast_cache_mask t' = fast_cache_mask t → external_ip t' = external_ip t → table_ok t → table_ok t'.
Proof.
  intros H1 H2 H3 H4 H5 H6 [Hm Hc Hr]. split.
  - by rewrite H5, H4.
  - intros i c. rewrite H4, H3. unfold cache_idx. rewrite H5. apply Hc.
  - intros k r. rewrite H3, H2, H1. unfold of_key. rewrite H6. apply Hr.
Qed.

(** A lookup answers what the table holds, whatever the cache has. *)
Lemma lookup_spec t k :
  table_ok t → ∃ t', lookup t k = Some (entries t !! k, t') ∧ same_map t t' ∧ table_ok t'.
Proof.
  intros Hok. unfold lookup. set (t1 := t <| lookups := _ |>).
  assert (table_ok t1) as Hok1 by (by apply (table_ok_stats t)).
  destruct (cached_spec t1 k Hok1) as (hit & -> & Hhit). destruct hit as [r|].
  - exists (t1 <| fast_hits := wrap64 (fast_hits t1 + 1) |>). change (entries t1) with (entries t) in Hhit.
    rewrite (Hhit r eq_refl). split; [done|]. split; [by split|]. by apply (table_ok_stats t1).
  - set (t2 := t1 <| slow_lookups := _ |>). assert (table_ok t2) as Hok2 by (by apply (table_ok_stats t1)).
    change (entries t2) with (entries t). destruct (entries t !! k) as [r|] eqn:He.
    + exists (fill_cache t2 k r). split; [done|]. split; [by split|]. by apply fill_cache_ok.
    + exists t2. split; [done|]. split; [by split|done].
Qed.

(** ** Ports are in their range, and fresh until the range is used up *)

Definition span (p : PortAllocator) : Z := port_end p - port_start p + 1.

(** A range the [u16] arithmetic does not wrap on. *)
Definition range_ok (p : PortAllocator) : Prop :=
  0 ≤ port_start p ≤ port_end p ∧ port_end p < u16_bound ∧ span p < u16_bound.

Lemma allocate_port_spec p :
  range_ok p → ∃ port, allocate_port p = Some (port, p <| current := wrap32 (current p + 1) |>) ∧
    port_start p ≤ port ≤ port_end p ∧
    (0 ≤ current p - port_start p < span p → port = current p).
Proof.
  intros (H1 & H2 & H3). unfold span in *. unfold allocate_port.
  assert (wrap16 (port_end p - port_start p + 1) = port_end p - port_start p + 1) as ->
    by (apply Z.mod_small; lia).
  rewrite (proj2 (Z.eqb_neq _ _)) by lia. eexists. split; [done|].
  set (off := wrap32 (current p - port_start p) mod (port_end p - port_start p + 1)).
  assert (0 ≤ off < port_end p - port_start p + 1) as Ho by (apply Z.mod_pos_bound; lia).
  unfold u16_bound in *.
  assert (wrap16 (port_start p + wrap16 off) = port_start p + off) as ->.
  { unfold wrap16, u16_bound. rewrite (Z.mod_small off) by lia. apply Z.mod_small. lia. }
  split; [lia|]. intros Hc. assert (off = current p - port_start p); [|lia].
  unfold off, wrap32, u32_bound. rewrite (Z.mod_small (current p - _)) by lia. apply Z.mod_small. lia.
Qed.

(** ** Operations keep the table consistent *)

Lemma create_spec t k now :
  table_ok t → range_ok (port_alloc t) → entries t !! k = None →
  ∃ port t', create t k now = Some (next_ref t, t') ∧ table_ok t' ∧
    allocate_port (port_alloc t) = Some (port, port_alloc t') ∧
    entries t' = <[k := next_ref t]> (entries t) ∧
    heap t' = <[next_ref t := new_snat (src_ip k, src_port k) (dst_ip k, dst_port k)
      (external_ip t, port) (protocol k) now]> (heap t) ∧
    reverse t' = <[reply_key t k port := k]> (reverse t) ∧ external_ip t' = external_ip t.
Proof.
  intros Hok Hr He. unfold create. destruct (allocate_port_spec _ Hr) as (port & Hp & _). rewrite Hp.
  set (e := new_snat _ _ _ _ _). set (t1 := t <| port_alloc := _ |> <| heap := _ |> <| next_ref := _ |>
    <| reverse := _ |> <| entries := _ |> <| created := _ |>).
  assert (table_ok t1) as Hok1.
  { destruct Hok as [Hm Hc Hrf]. split.
    - exact Hm.
    - intros i c Hi. destruct (Hc i c Hi) as (C1 & C2 & C3). split; [done|]. split; [done|].
      change (<[k := next_ref t]> (entries t) !! fast_key c = Some (fast_entry c)).
      rewrite lookup_insert_ne; [done|]. intros ->. congruence.
    - intros k' r Hk. change (<[k := next_ref t]> (entries t) !! k' = Some r) in Hk.
      change (r < next_ref t + 1 ∧ ∃ e', <[next_ref t := e]> (heap t) !! r = Some e' ∧ of_key t k' e').
      apply lookup_insert_Some in Hk as [[<- <-]|[Hne Hk]].
      + split; [lia|]. exists e. by rewrite lookup_insert_eq.
      + destruct (Hrf k' r Hk) as (Hlt & e' & He' & Hof). split; [lia|]. exists e'.
        rewrite lookup_insert_ne by lia. done. }
  destruct (cache_slot t1 k Hok1) as [slot ->]. exists port, (fill_cache t1 k (next_ref t)).
  split; [done|]. split; [|done]. apply fill_cache_ok; [done|]. apply lookup_insert_eq.
Qed.

Lemma invalidate_spec t k :
  is_Some (fast_cache t !! cache_idx t k) →
  ∃ t', invalidate t k = Some t' ∧ same_map t t' ∧ fast_cache_mask t' = fast_cache_mask t ∧
    length (fast_cache t') = length (fast_cache t) ∧
    ∀ i c, fast_cache t' !! i = Some (Some c) →
      fast_cache t !! i = Some (Some c) ∧ (i = cache_idx t k → fast_key c ≠ k).
Proof.
  intros [slot Hs]. unfold invalidate. rewrite Hs. destruct slot as [c'|]; [case_bool_decide as Hk|].
  - eexists. split; [done|]. split; [by split|]. split; [done|]. split; [apply length_insert|].
    intros i c Hi. apply list_lookup_insert_Some in Hi as [(_ & [=] & _)|[Hne Hi]]. done.
  - exists t. do 4 (split; [done|]). intros i c Hi. split; [done|]. intros ->. rewrite Hs in Hi. by injection Hi as ->.
  - exists t. do 4 (split; [done|]). intros i c Hi. split; [done|]. intros ->. congruence.
Qed.

Lemma ct_remove_spec t k :
  table_ok t →
  ∃ t', remove t k = Some t' ∧ table_ok t' ∧ entries t' = delete k (entries t) ∧ heap t' = heap t ∧
    next_ref t' = next_ref t ∧ port_alloc t' = port_alloc t ∧ external_ip t' = external_ip t ∧
    timeout_secs t' = timeout_secs t ∧
    reverse t' = match entries t !! k ≫= (heap t !!.) with
                 | Some e => delete (reply_key t k (snd (nat_src e))) (reverse t)
                 | None => reverse t
                 end.
Proof.
  intros Hok. unfold remove. destruct (entries t !! k) as [r|] eqn:He.
  2: { exists t. split; [done|]. split; [done|]. by rewrite delete_id. }
  destruct (to_refs _ Hok k r He) as (_ & e & Hh & _).
  set (t1 := t <| entries := delete k (entries t) |>). change (heap t1) with (heap t).
  cbn [mbind option_bind]. rewrite Hh. set (t2 := t1 <| reverse := _ |>).
  destruct (invalidate_spec t2 k (cache_slot t k Hok)) as (t' & -> & [S1 S2 S3 S4 S5 S6 S7] & Hmk & Hln & Hc).
  exists t'. split; [done|]. split; [|by rewrite S3, S1, S2, S5, S6, S7, S4].
  destruct Hok as [(n & Hn & Hm & Hl) Hca Hrf]. split.
  - exists n. by rewrite Hmk, Hln.
  - intros i c Hi. destruct (Hc i c Hi) as [Hi' Hne]. destruct (Hca i c Hi') as (C1 & C2 & C3).
    split; [done|]. unfold cache_idx. rewrite Hmk. split; [done|]. rewrite S3.
    change (delete k (entries t) !! fast_key c = Some (fast_entry c)). rewrite lookup_delete_ne; [done|].
    intros Hk. apply Hne; [by rewrite C2, <- Hk|done].
  - intros k' r' Hk. rewrite S3 in Hk. change (delete k (entries t) !! k' = Some r') in Hk.
    apply lookup_delete_Some in Hk as [_ Hk]. rewrite S2, S1. unfold of_key. rewrite S6. by apply Hrf.
Qed.

Lemma clear_ok t : table_ok t → table_ok (clear t).
Proof.
  intros [(n & Hn & Hm & Hl) Hc Hr]. split.
  - exists n. split; [done|]. split; [done|]. unfold clear. fields. by rewrite length_fmap.
  - intros i c Hi. exfalso. change (fast_cache (clear t)) with ((λ _, None) <$> fast_cache t : list (option FastCacheEntry)) in Hi.
    rewrite list_lookup_fmap in Hi. by destruct (fast_cache t !! i).
  - intros k r Hk. change (entries (clear t)) with (∅ : gmap ConnTrackKey Z) in Hk. by rewrite lookup_empty in Hk.
Qed.

Lemma of_key_record t k e n now : of_key t k e → of_key t k (record_packet e n now).
Proof. done. Qed.

Lemma record_at_ok t r n now : table_ok t → table_ok (record_at t r n now).
Proof.
  intros [Hm Hc Hr]. split; [done|done|]. intros k r' Hk. destruct (Hr k r' Hk) as (Hlt & e & He & Hof).
  split; [done|]. change (heap (record_at t r n now)) with (alter (λ e, record_packet e n now) r (heap t)).
  destruct (decide (r = r')) as [->|Hne].
  - exists (record_packet e n now). rewrite lookup_alter_eq, He. done.
  - exists e. by rewrite lookup_alter_ne.
Qed.

Lemma new_table_ok ext pstart pend cache timeout : table_ok (new_table ext pstart pend cache timeout).
Proof.
  split.
  - unfold new_table, next_power_of_two. fields. destruct (Z.leb_spec cache 1).
    + exists 0. done.
    + exists (Z.log2_up cache). split; [apply Z.log2_up_nonneg|]. split; [done|]. apply length_replicate.
  - intros i c Hi. change (replicate (Z.to_nat (next_power_of_two cache)) (None : option FastCacheEntry) !! i = Some (Some c)) in Hi.
    by apply lookup_replicate_1 in Hi as [[=] _].
  - intros k r Hk. change ((∅ : gmap ConnTrackKey Z) !! k = Some r) in Hk. by rewrite lookup_empty in Hk.
Qed.

(** ** The reverse map is exact *)

(** The port a live connection is translated to. *)
Definition nat_port (t : ConnTrackTable) (k : ConnTrackKey) : option Z :=
  e ← (entries t !! k ≫= (heap t !!.)); Some (snd (nat_src e)).

(** After [n] creations, at most as many as there are ports: live connections
    have ports of their own, handed out in order, and the reverse map holds
    exactly the reply keys of the live connections. *)
Record ports_ok (t : ConnTrackTable) (n : Z) : Prop := {
  po_range : range_ok (port_alloc t);
  po_current : current (port_alloc t) = port_start (port_alloc t) + n;
  po_count : 0 ≤ n ≤ span (port_alloc t);
  po_live : ∀ k p, nat_port t k = Some p → port_start (port_alloc t) ≤ p < port_start (port_alloc t) + n;
  po_own : ∀ k k' p, nat_port t k = Some p → nat_port t k' = Some p → k = k';
  po_reverse : ∀ rk k, reverse t !! rk = Some k ↔ ∃ p, nat_port t k = Some p ∧ rk = reply_key t k p
}.

Lemma ports_ok_same t t' n : same_map t t' → ports_ok t n → ports_ok t' n.
Proof.
  intros [S1 S2 S3 S4 S5 S6 S7] [P1 P2 P3 P4 P5 P6].
  assert (∀ k, nat_port t' k = nat_port t k) as Hn by (intros k; unfold nat_port; by rewrite S3, S1).
  split; rewrite ?S5; try done.
  - intros k p. rewrite Hn. apply P4.
  - intros k k' p. rewrite !Hn. apply P5.
  - intros rk k. rewrite S4, Hn. unfold reply_key. rewrite S6. apply P6.
Qed.

Lemma nat_port_live t k p : nat_port t k = Some p → is_Some (entries t !! k).
Proof. unfold nat_port. destruct (entries t !! k); [eauto|done]. Qed.

Lemma create_ports t k now n t' r :
  table_ok t → ports_ok t n → n < span (port_alloc t) → entries t !! k = None →
  create t k now = Some (r, t') → ports_ok t' (n + 1) ∧ nat_port t' k = Some (port_start (port_alloc t) + n).
Proof.
  intros Hok [P1 P2 P3 P4 P5 P6] Hn He Hc.
  destruct (create_spec t k now Hok P1 He) as (port & t1 & Hc1 & Hok1 & Hp & E1 & E2 & E3 & E4).
  rewrite Hc1 in Hc. injection Hc as <- <-. destruct (allocate_port_spec _ P1) as (port' & Hp' & _ & Hcur).
  rewrite Hp' in Hp. injection Hp as <- Hpa. specialize (Hcur ltac:(lia)). subst port'.
  assert (port_start (port_alloc t1) = port_start (port_alloc t) ∧ port_end (port_alloc t1) = port_end (port_alloc t)
    ∧ current (port_alloc t1) = wrap32 (current (port_alloc t) + 1)) as (A1 & A2 & A3) by (by rewrite <- Hpa).
  assert (∀ k', nat_port t1 k' = if decide (k' = k) then Some (current (port_alloc t)) else nat_port t k') as Hnp.
  { intros k'. unfold nat_port. rewrite E1, E2. destruct (decide (k' = k)) as [->|Hne].
    - rewrite lookup_insert_eq. cbn [mbind option_bind]. by rewrite lookup_insert_eq.
    - rewrite lookup_insert_ne by done. destruct (entries t !! k') as [r'|] eqn:Hk'; [|done].
      cbn [mbind option_bind]. destruct (to_refs _ Hok k' r' Hk') as (Hlt & _). by rewrite lookup_insert_ne by lia. }
  assert (nat_port t k = None) as Hnone by (unfold nat_port; by rewrite He).
  destruct P1 as (R1 & R2 & R3). unfold span, u16_bound in *.
  split; [|rewrite Hnp, decide_True by done; by rewrite P2]. split; unfold range_ok, span; rewrite ?A1, ?A2.
  - done.
  - rewrite A3, P2. unfold wrap32, u32_bound. rewrite Z.mod_small by lia. lia.
  - lia.
  - intros k' p. rewrite Hnp. destruct (decide (k' = k)); [intros [= <-]; lia|]. intros Hk. specialize (P4 k' p Hk). lia.
  - intros k1 k2 p. rewrite !Hnp. destruct (decide (k1 = k)) as [->|], (decide (k2 = k)) as [->|]; try done.
    + intros [= <-] H2. specialize (P4 k2 _ H2). lia.
    + intros H1 [= <-]. specialize (P4 k1 _ H1). lia.
    + apply P5.
  - intros rk k'. rewrite E3. unfold reply_key. rewrite E4, Hnp.
    destruct (decide (k' = k)) as [->|Hne]; rewrite lookup_insert_Some.
    + split; [intros [[<- _]|[_ Hrk]]; [by eexists|]|].
      * apply P6 in Hrk as (p & Hp & _). congruence.
      * intros (p & [= <-] & ->). by left.
    + rewrite P6. split; [intros [[_ ->]|[_ H]]; done|]. intros (p & Hp & ->). right. split; [|by eexists].
      intros [= _ _ Hport _]. specialize (P4 k' p Hp). lia.
Qed.

Lemma remove_ports t k n t' :
  table_ok t → ports_ok t n → remove t k = Some t' → ports_ok t' n.
Proof.
  intros Hok [P1 P2 P3 P4 P5 P6] Hr.
  destruct (ct_remove_spec t k Hok) as (t1 & Hr1 & Hok1 & R1 & R2 & R3 & R4 & R5 & R6 & R7).
  rewrite Hr1 in Hr. injection Hr as <-.
  assert (∀ k', nat_port t1 k' = if decide (k' = k) then None else nat_port t k') as Hnp.
  { intros k'. unfold nat_port. rewrite R1, R2. destruct (decide (k' = k)) as [->|Hne].
    - by rewrite lookup_delete_eq.
    - by rewrite lookup_delete_ne. }
  split; rewrite ?R4; try done.
  - intros k' p. rewrite Hnp. destruct (decide (k' = k)); [done|apply P4].
  - intros k1 k2 p. rewrite !Hnp. destruct (decide (k1 = k)), (decide (k2 = k)); try done. apply P5.
  - intros rk k'. unfold reply_key. rewrite R5, R7, Hnp.
    assert (entries t !! k ≫= (heap t !!.) = None → nat_port t k = None) as Hgone by (unfold nat_port; by intros ->).
    assert (∀ e, entries t !! k ≫= (heap t !!.) = Some e → nat_port t k = Some (snd (nat_src e))) as Hlive
      by (intros e; unfold nat_port; by intros ->).
    destruct (entries t !! k ≫= (heap t !!.)) as [e|].
    + specialize (Hlive e eq_refl). rewrite lookup_delete_Some, P6. destruct (decide (k' = k)) as [->|Hne].
      * split; [|by intros (p & ? & _)]. intros (Hrk & p & Hp & ->). rewrite Hlive in Hp. injection Hp as <-. done.
      * split; [intros (_ & H); exact H|]. intros (p & Hp & ->). split; [|by eexists].
        intros [= _ _ Hport _]. apply Hne. apply (P5 k' k p); [done|]. by rewrite Hlive, Hport.
    + rewrite P6. destruct (decide (k' = k)) as [->|Hne]; [|done].
      rewrite (Hgone eq_refl). split; by intros (p & ? & _).
Qed.

Lemma clear_ports t n : ports_ok t n → ports_ok (clear t) n.
Proof.
  intros [P1 P2 P3 P4 P5 P6]. split; try done. intros rk k.
  change (reverse (clear t)) with (∅ : gmap ConnTrackKey ConnTrackKey). rewrite lookup_empty.
  split; [done|]. intros (p & Hp & _). assert (nat_port (clear t) k = None) by done. congruence.
Qed.

Lemma record_ports t r m now n : ports_ok t n → ports_ok (record_at t r m now) n.
Proof.
  intros [P1 P2 P3 P4 P5 P6]. assert (∀ k, nat_port (record_at t r m now) k = nat_port t k) as Hn.
  { intros k. unfold nat_port, record_at. fields. destruct (entries t !! k) as [r'|]; [|done]. cbn [mbind option_bind].
    destruct (decide (r = r')) as [->|Hne]; [|by rewrite lookup_alter_ne].
    rewrite lookup_alter_eq. by destruct (heap t !! r'). }
  split; try done.
  - intros k p. rewrite Hn. apply P4.
  - intros k k' p. rewrite !Hn. apply P5.
  - intros rk k. rewrite Hn. apply P6.
Qed.

Lemma get_or_create_spec t k now :
  table_ok t → range_ok (port_alloc t) →
  ∃ r t', get_or_create t k now = Some (r, t') ∧ table_ok t' ∧ entries t' !! k = Some r ∧
    range_ok (port_alloc t') ∧
    ((entries t !! k = Some r ∧ same_map t t') ∨ (entries t !! k = None ∧ create t k now = Some (r, t'))).
Proof.
  intros Hok Hr. unfold get_or_create. case_bool_decide as He.
  - destruct He as [r He]. destruct (lookup_spec t k Hok) as (t' & -> & Hs & Hok'). rewrite He.
    exists r, t'. split; [done|]. split; [done|]. rewrite (sm_entries _ _ Hs), (sm_ports _ _ Hs). auto.
  - rewrite <- eq_None_not_Some in He.
    destruct (create_spec t k now Hok Hr He) as (port & t' & Hc & Hok' & Hp & E1 & _).
    exists (next_ref t), t'. split; [done|]. split; [done|]. split; [rewrite E1; apply lookup_insert_eq|].
    split; [|auto]. destruct (allocate_port_spec _ Hr) as (port' & Hp' & _). rewrite Hp' in Hp.
    injection Hp as _ Hpa. by rewrite <- Hpa.
Qed.

(** ** Runs *)

Inductive CtOp :=
| OpGet (k : ConnTrackKey) (now : Z)
| OpLookup (k : ConnTrackKey)
| OpReverse (k : ConnTrackKey)
| OpRemove (k : ConnTrackKey)
| OpExpire (now : Z)
| OpClear
| OpRecord (r n now : Z).

Section runs.
Context (order : gmap ConnTrackKey Z → list (ConnTrackKey * Z)).

Definition ct_step (t : ConnTrackTable) (op : CtOp) : option ConnTrackTable :=
  match op with
  | OpGet k now => snd <$> get_or_create t k now
  | OpLookup k => snd <$> lookup t k
  | OpReverse k => snd <$> lookup_reverse t k
  | OpRemove k => remove t k
  | OpExpire now => snd <$> expire_old order t now
  | OpClear => Some (clear t)
  | OpRecord r n now => Some (record_at t r n now)
  end.

Fixpoint ct_run (t : ConnTrackTable) (ops : list CtOp) : option ConnTrackTable :=
  match ops with
  | [] => Some t
  | op :: ops => let! t := ct_step t op in ct_run t ops
  end.

Definition is_get (op : CtOp) : bool := match op with OpGet _ _ => true | _ => false end.
Definition gets (ops : list CtOp) : Z := Z.of_nat (length (List.filter is_get ops)).

(** What every step keeps; the ports as long as there are some left. *)
Definition step_keeps (t t' : ConnTrackTable) (g : Z) : Prop :=
  table_ok t' ∧ range_ok (port_alloc t') ∧ port_start (port_alloc t') = port_start (port_alloc t) ∧
  port_end (port_alloc t') = port_end (port_alloc t) ∧
  ∀ n, ports_ok t n → n + g ≤ span (port_alloc t) → ∃ n', n' ≤ n + g ∧ ports_ok t' n'.

Lemma same_map_keeps t t' g : 0 ≤ g → range_ok (port_alloc t) → same_map t t' → table_ok t' → step_keeps t t' g.
Proof.
  intros Hg Hr Hs Hok. pose proof (sm_ports _ _ Hs) as Hp. split; [done|]. rewrite Hp. do 3 (split; [done|]).
  intros n Hn _. exists n. split; [lia|]. by apply (ports_ok_same t).
Qed.

Lemma remove_keeps t k :
  table_ok t → range_ok (port_alloc t) → ∃ t', remove t k = Some t' ∧ step_keeps t t' 0.
Proof.
  intros Hok Hr. destruct (ct_remove_spec t k Hok) as (t' & He & Hok' & _ & _ & _ & Hp & _).
  exists t'. split; [done|]. split; [done|]. rewrite Hp. do 3 (split; [done|]).
  intros n Hn _. exists n. split; [lia|]. by apply (remove_ports t k).
Qed.

Lemma step_keeps_trans t1 t2 t3 g1 g2 :
  0 ≤ g1 → 0 ≤ g2 → step_keeps t1 t2 g1 → step_keeps t2 t3 g2 → step_keeps t1 t3 (g1 + g2).
Proof.
  intros H1 H2 (A1 & A2 & A3 & A4 & A5) (B1 & B2 & B3 & B4 & B5).
  split; [done|]. split; [done|]. split; [congruence|]. split; [congruence|].
  intros n Hn Hle. destruct (A5 n Hn) as (n1 & L1 & P1); [lia|].
  destruct (B5 n1 P1) as (n2 & L2 & P2); [unfold span in *; rewrite A3, A4; lia|]. exists n2. split; [lia|done].
Qed.

Lemma remove_all_keeps t ks :
  table_ok t → range_ok (port_alloc t) → ∃ t', remove_all t ks = Some t' ∧ step_keeps t t' 0.
Proof.
  revert t. induction ks as [|k ks IH]; intros t Hok Hr; cbn [remove_all].
  { exists t. split; [done|]. by apply same_map_keeps. }
  destruct (remove_keeps t k Hok Hr) as (t1 & -> & Hk). pose proof Hk as (Hok1 & Hr1 & _).
  destruct (IH t1 Hok1 Hr1) as (t2 & -> & Hk2). exists t2. split; [done|].
  by apply (step_keeps_trans t t1 t2 0 0).
Qed.

Lemma ct_step_keeps t op :
  table_ok t → range_ok (port_alloc t) →
  ∃ t', ct_step t op = Some t' ∧ step_keeps t t' (if is_get op then 1 else 0).
Proof.
  intros Hok Hr. destruct op as [k now|k|k|k|now| |r n now]; cbn [ct_step is_get].
  - destruct (get_or_create_spec t k now Hok Hr) as (r & t' & -> & Hok' & He & Hr' & [[_ Hs]|[Hn Hc]]).
    + exists t'. split; [done|]. by apply same_map_keeps.
    + exists t'. split; [done|]. split; [done|]. split; [done|].
      destruct (create_spec t k now Hok Hr Hn) as (port & t1 & Hc1 & _ & Hp & _). rewrite Hc1 in Hc. injection Hc as <- <-.
      destruct (allocate_port_spec _ Hr) as (port' & Hp' & _). rewrite Hp' in Hp. injection Hp as _ Hpa.
      rewrite <- Hpa. split; [done|]. split; [done|]. intros n Hpo Hle. exists (n + 1). split; [lia|].
      eapply (create_ports t k now n t1); [done|done|lia|done|exact Hc1].
  - destruct (lookup_spec t k Hok) as (t' & -> & Hs & Hok'). exists t'. split; [done|]. by apply same_map_keeps.
  - unfold lookup_reverse. destruct (reverse t !! k) as [k'|].
    + destruct (lookup_spec t k' Hok) as (t' & -> & Hs & Hok'). exists t'. split; [done|]. by apply same_map_keeps.
    + exists t. split; [done|]. by apply same_map_keeps.
  - by apply remove_keeps.
  - unfold expire_old. destruct (remove_all_keeps t (expired_keys order t now) Hok Hr) as (t1 & -> & Hk).
    eexists. split; [done|]. pose proof Hk as (Hok1 & Hr1 & _).
    apply (step_keeps_trans t t1 _ 0 0); [done|done|done|]. apply same_map_keeps; [done|done|by split|].
    by apply (table_ok_stats t1).
  - exists (clear t). split; [done|]. split; [by apply clear_ok|]. do 3 (split; [done|]).
    intros n Hn _. exists n. split; [lia|by apply clear_ports].
  - exists (record_at t r n now). split; [done|]. split; [by apply record_at_ok|]. do 3 (split; [done|]).
    intros n' Hn _. exists n'. split; [lia|by apply record_ports].
Qed.

Lemma ct_run_keeps t ops :
  table_ok t → range_ok (port_alloc t) → ∃ t', ct_run t ops = Some t' ∧ step_keeps t t' (gets ops).
Proof.
  revert t. induction ops as [|op ops IH]; intros t Hok Hr; cbn [ct_run].
  { exists t. split; [done|]. by apply same_map_keeps. }
  destruct (ct_step_keeps t op Hok Hr) as (t1 & -> & Hk). pose proof Hk as (Hok1 & Hr1 & _).
  destruct (IH t1 Hok1 Hr1) as (t2 & -> & Hk2). exists t2. split; [done|].
  replace (gets (op :: ops)) with ((if is_get op then 1 else 0) + gets ops).
  - apply (step_keeps_trans t t1 t2); [by destruct (is_get op)|unfold gets; lia|done|done].
  - unfold gets. simpl. destruct (is_get op); [simpl length; lia|done].
Qed.

Definition config_ok (pstart pend : Z) : Prop :=
  0 ≤ pstart ≤ pend ∧ pend < u16_bound ∧ pend - pstart + 1 < u16_bound.

Lemma new_ports_ok ext pstart pend cache timeout :
  config_ok pstart pend → ports_ok (new_table ext pstart pend cache timeout) 0.
Proof.
  intros (H1 & H2 & H3). split; try done.
  - unfold new_table, new_ports. fields. lia.
  - unfold span, new_table, new_ports. fields. lia.
  - intros rk k. change (reverse (new_table ext pstart pend cache timeout)) with (∅ : gmap ConnTrackKey ConnTrackKey).
    rewrite lookup_empty. split; [done|]. by intros (p & ? & _).
Qed.

(** C17: over any run of operations, none of which panics, the cached table
    answers as the plain map of live connections would: a lookup returns the
    entry on record and nothing else, an entry is the one of its key, and asking
    for a connection creates exactly what is missing. *)
Theorem lookups_are_exact ext pstart pend cache timeout ops :
  config_ok pstart pend →
  ∃ t, ct_run (new_table ext pstart pend cache timeout) ops = Some t ∧
    (∀ k, ∃ t', lookup t k = Some (entries t !! k, t') ∧ entries t' = entries t ∧ heap t' = heap t) ∧
    (∀ k r, entries t !! k = Some r → ∃ e, heap t !! r = Some e ∧ of_key t k e) ∧
    (∀ k now, ∃ r t', get_or_create t k now = Some (r, t') ∧
      entries t' = match entries t !! k with Some _ => entries t | None => <[k := r]> (entries t) end ∧
      entries t' !! k = Some r).
Proof.
  intros Hc. destruct (ct_run_keeps (new_table ext pstart pend cache timeout) ops) as (t & Hrun & Hk);
    [apply new_table_ok|exact Hc|]. exists t. split; [done|]. destruct Hk as (Hok & Hr & _).
  split; [|split].
  - intros k. destruct (lookup_spec t k Hok) as (t' & Hl & Hs & _). exists t'. split; [done|].
    split; [apply (sm_entries _ _ Hs)|apply (sm_heap _ _ Hs)].
  - intros k r He. apply (to_refs _ Hok k r He).
  - intros k now. destruct (get_or_create_spec t k now Hok Hr) as (r & t' & Hg & _ & He & _ & Hcase).
    exists r, t'. split; [done|]. split; [|done]. destruct Hcase as [[-> Hs]|[Hn Hcr]]; [apply (sm_entries _ _ Hs)|].
    rewrite Hn. destruct (create_spec t k now Hok Hr Hn) as (port & t1 & Hc1 & _ & _ & E1 & _).
    rewrite Hc1 in Hcr. by injection Hcr as <- <-.
Qed.

End runs.

(** Two guests talk to one server from the same port. *)
Definition ex_server : Ipv4 := MkIp 1 1 1 1.
Definition ex_ext : Ipv4 := MkIp 10 0 0 1.
Definition ex_key (host : Z) : ConnTrackKey := MkKey (MkIp 192 168 64 host) ex_server 5000 443 6.
Definition ex_ct_ops : list CtOp :=
  [OpGet (ex_key 2) 0; OpGet (ex_key 3) 1; OpLookup (ex_key 2); OpGet (ex_key 4) 2; OpRemove (ex_key 4)].

Lemma lookups_are_exact_witness :
  ∃ t, ct_run map_to_list (new_table ex_ext 49152 65535 4 300) ex_ct_ops = Some t ∧
    entries t !! ex_key 2 = Some 0 ∧ ∃ t', lookup t (ex_key 2) = Some (entries t !! ex_key 2, t').
Proof.
  destruct (lookups_are_exact map_to_list ex_ext 49152 65535 4 300 ex_ct_ops) as (t & Hrun & Hl & _); [done|].
  exists t. split; [done|]. split; [|destruct (Hl (ex_key 2)) as (t' & H & _); eauto].
  vm_compute in Hrun. injection Hrun as <-. reflexivity.
Defined.

End Ct.
