(* ===== verification/NatEngine.v ===== *)
(** * Network address translation

    [src/common/arcbox-conntrack/src/translate.rs] and [lib.rs]: the NAT engine
    rewrites Ethernet frames in place, using the connection table and the
    incremental checksums. A frame is a list of bytes; a panic is [None]. *)

From Stdlib Require Import ZArith Lia.
From stdpp Require Import base numbers list gmap.
From S2P Require Import Prelude Bits Checksum Bytes ConnTrack.

Open Scope Z_scope.

Module NatE.
Import Ct.

Record NatEngineConfig := MkNatConfig {
  cfg_external_ip : Ipv4;
  port_range_start : Z;
  port_range_end : Z;
  conntrack_size : Z;
  connection_timeout_secs : Z;
  enable_fast_cache : bool;
  fast_cache_size : Z
}.
#[export] Instance eta_NatEngineConfig : Eta NatEngineConfig := {|
  eta c := MkNatConfig (cfg_external_ip c) (port_range_start c) (port_range_end c) (conntrack_size c)
    (connection_timeout_secs c) (enable_fast_cache c) (fast_cache_size c);
  eta_ok := ltac:(by intros [])
|}.

Definition default_config : NatEngineConfig :=
  MkNatConfig (MkIp 192 168 64 1) 49152 65535 65536 300 true 256.
Definition new_config (ip : Ipv4) : NatEngineConfig := default_config <| cfg_external_ip := ip |>.
Definition with_port_range (c : NatEngineConfig) (start end_ : Z) : NatEngineConfig :=
  c <| port_range_start := start |> <| port_range_end := end_ |>.
Definition with_timeout (c : NatEngineConfig) (secs : Z) : NatEngineConfig :=
  c <| connection_timeout_secs := secs |>.
Definition without_fast_cache (c : NatEngineConfig) : NatEngineConfig := c <| enable_fast_cache := false |>.

Inductive NatDirection := Outbound | Inbound.
Inductive NatResult := Translated | PassThrough | Dropped.
Inductive TranslateError := PacketTooShort | InvalidIpHeader | UnsupportedProtocol | ConnTrackFull.

Record NatEngine := MkNat {
  conntrack : ConnTrackTable;
  nat_external_ip : Ipv4;
  internal_prefix : Ipv4;
  internal_mask : Z
}.
#[export] Instance eta_NatEngine : Eta NatEngine := {|
  eta g := MkNat (conntrack g) (nat_external_ip g) (internal_prefix g) (internal_mask g);
  eta_ok := ltac:(by intros [])
|}.

Definition new_engine (c : NatEngineConfig) : NatEngine :=
  MkNat (new_table (cfg_external_ip c) (port_range_start c) (port_range_end c) (fast_cache_size c)
      (connection_timeout_secs c))
    (cfg_external_ip c) (MkIp 192 168 64 0) 0xFFFFFF00.

Definition with_external_ip (ip : Ipv4) : NatEngine := new_engine (new_config ip).

(** A shift by the width of the type keeps its count modulo the width. *)
Definition set_internal_network (g : NatEngine) (prefix : Ipv4) (prefix_len : Z) : NatEngine :=
  g <| internal_prefix := prefix |>
    <| internal_mask := if 32 <=? prefix_len then 0xFFFFFFFF
                        else not32 (Z.shiftl 1 ((32 - prefix_len) mod 32) - 1) |>.

Definition is_internal (g : NatEngine) (ip : Ipv4) : bool :=
  Z.land (ip_value ip) (internal_mask g) =? Z.land (ip_value (internal_prefix g)) (internal_mask g).

(** ** Headers *)

Record Flow := MkFlow {
  l4_offset : Z;
  flow_src : Ipv4;
  flow_dst : Ipv4;
  flow_sport : Z;
  flow_dport : Z;
  flow_proto : Z
}.

(** What the headers of a frame say: an error, nothing to translate, a flow. *)
Inductive Headers := HErr (e : TranslateError) | HPass | HFlow (f : Flow).

Definition ip_offset : Z := 14.

Definition parse_flow (packet : list Z) (ihl protocol : Z) : option Headers :=
  let! src := get_ip packet (ip_offset + 12) in
  let! dst := get_ip packet (ip_offset + 16) in
  let l4 := ip_offset + ihl in
  if len packet <? l4 + 4 then Some (HErr PacketTooShort)
  else
    let! sport := get_be16 packet l4 in
    let! dport := get_be16 packet (l4 + 2) in
    Some (HFlow (MkFlow l4 src dst sport dport protocol)).

Definition parse_headers (packet : list Z) : option Headers :=
  if len packet <? 42 then Some (HErr PacketTooShort)
  else
    let! ethertype := get_be16 packet 12 in
    if negb (ethertype =? 0x0800) then Some HPass
    else
      let! version_ihl := byte packet ip_offset in
      if negb (Z.shiftr version_ihl 4 =? 4) then Some (HErr InvalidIpHeader)
      else
        let ihl := wrap8 (Z.land version_ihl 0x0F * 4) in
        if (ihl <? 20) || (len packet <? ip_offset + ihl) then Some (HErr InvalidIpHeader)
        else
          let! protocol := byte packet (ip_offset + 9) in
          if negb (protocol =? 6) && negb (protocol =? 17) then Some HPass
          else parse_flow packet ihl protocol.

(** ** Rewriting *)

Definition checksum_offset (f : Flow) : Z :=
  if flow_proto f =? 6 then l4_offset f + 16 else l4_offset f + 6.

(** The checksum of the transport header, when the frame holds it. *)
Definition rewrite_l4_checksum (packet : list Z) (f : Flow) (old_ip : Ipv4) (old_port : Z) (new_ip : Ipv4)
    (new_port : Z) : option (list Z) :=
  let off := checksum_offset f in
  if off + 2 <=? len packet then
    let! old := get_be16 packet off in
    if negb (flow_proto f =? 17) || negb (old =? 0)
    then put packet off (to_be16 (update_checksum_for_nat old old_ip old_port new_ip new_port))
    else Some packet
  else Some packet.

(** An address at [ip_at] of the IP header and a port at [port_at] of the
    transport header, with both checksums. *)
Definition rewrite (packet : list Z) (f : Flow) (ip_at port_at : Z) (old_ip : Ipv4) (old_port : Z)
    (new_ip : Ipv4) (new_port : Z) : option (list Z) :=
  let! packet := put packet (ip_offset + ip_at) (octets new_ip) in
  let! old_ip_checksum := get_be16 packet (ip_offset + 10) in
  let! packet := put packet (ip_offset + 10)
    (to_be16 (update_checksum_for_ip old_ip_checksum old_ip new_ip)) in
  let! packet := put packet (l4_offset f + port_at) (to_be16 new_port) in
  rewrite_l4_checksum packet f old_ip old_port new_ip new_port.

Definition flow_key (f : Flow) : ConnTrackKey :=
  MkKey (flow_src f) (flow_dst f) (flow_sport f) (flow_dport f) (flow_proto f).

Definition translate_outbound (g : NatEngine) (packet : list Z) (f : Flow) (now : Z)
    : option (NatResult * list Z * NatEngine) :=
  if negb (is_internal g (flow_src f)) then Some (PassThrough, packet, g)
  else
    match get_or_create (conntrack g) (flow_key f) now with
    | None => None
    | Some (r, t) =>
        let! e := heap t !! r in
        let! packet := rewrite packet f 12 0 (flow_src f) (flow_sport f) (fst (nat_src e)) (snd (nat_src e)) in
        Some (Translated, packet, g <| conntrack := record_at t r (len packet) now |>)
    end.

Definition translate_inbound (g : NatEngine) (packet : list Z) (f : Flow) (now : Z)
    : option (NatResult * list Z * NatEngine) :=
  if negb (bool_decide (flow_dst f = nat_external_ip g)) then Some (PassThrough, packet, g)
  else
    match lookup_reverse (conntrack g) (flow_key f) with
    | None => None
    | Some (None, t) => Some (Dropped, packet, g <| conntrack := t |>)
    | Some (Some r, t) =>
        let! e := heap t !! r in
        let! packet := rewrite packet f 16 2 (flow_dst f) (flow_dport f) (fst (orig_src e)) (snd (orig_src e)) in
        Some (Translated, packet, g <| conntrack := record_at t r (len packet) now |>)
    end.

Definition translate (g : NatEngine) (packet : list Z) (direction : NatDirection) (now : Z)
    : option (result TranslateError NatResult * list Z * NatEngine) :=
  match parse_headers packet with
  | None => None
  | Some (HErr e) => Some (Err e, packet, g)
  | Some HPass => Some (Ok PassThrough, packet, g)
  | Some (HFlow f) =>
      match match direction with
            | Outbound => translate_outbound g packet f now
            | Inbound => translate_inbound g packet f now
            end with
      | None => None
      | Some (r, packet, g) => Some (Ok r, packet, g)
      end
  end.

Definition expire_connections (order : gmap ConnTrackKey Z → list (ConnTrackKey * Z)) (g : NatEngine) (now : Z)
    : option (Z * NatEngine) :=
  match expire_old order (conntrack g) now with
  | None => None
  | Some (n, t) => Some (n, g <| conntrack := t |>)
  end.

(** ** Checksums follow the fields *)

(** Congruence modulo [2^16 - 1], what a ones' complement sum determines. *)
Definition same_oc (a b : Z) : Prop := a mod 65535 = b mod 65535.

Lemma ip_halves ip :
  ip_ok ip →
  wrap16 (Z.shiftr (ip_value ip) 16) = be16 (ip0 ip) (ip1 ip) ∧ wrap16 (ip_value ip) = be16 (ip2 ip) (ip3 ip) ∧
  in_u16 (be16 (ip0 ip) (ip1 ip)) ∧ in_u16 (be16 (ip2 ip) (ip3 ip)).
Proof.
  intros (H0 & H1 & H2 & H3). unfold in_u8, u8_bound in *.
  unfold wrap16, ip_value, be32, in_u16, u16_bound, be16 in *. rewrite Z.shiftr_div_pow2 by lia.
  change (2 ^ 16) with 65536. split; [|split; [|lia]].
  - rewrite Z.div_add_l by lia. rewrite (Z.div_small (_ * 256 + ip3 ip)) by lia. rewrite Z.add_0_r. apply Z.mod_small. lia.
  - rewrite Z.add_comm, Z.mod_add by lia. apply Z.mod_small. lia.
Qed.

Lemma octets_sum ip : be_sum (octets ip) = be16 (ip0 ip) (ip1 ip) + be16 (ip2 ip) (ip3 ip).
Proof. unfold octets. simpl. lia. Qed.

Lemma update_ip_congr c old new :
  in_u16 c → ip_ok old → ip_ok new →
  same_oc (update_checksum_for_ip c old new + be_sum (octets new)) (c + be_sum (octets old)) ∧
  in_u16 (update_checksum_for_ip c old new).
Proof.
  intros Hc Ho Hn. destruct (ip_halves old Ho) as (O1 & O2 & OU1 & OU2). destruct (ip_halves new Hn) as (N1 & N2 & NU1 & NU2).
  unfold update_checksum_for_ip, incremental_checksum_update_32. rewrite O1, O2, N1, N2. split; [|apply incremental_u16].
  set (c1 := incremental_checksum_update c _ _).
  pose proof (incremental_congr c _ _ Hc OU1 NU1) as E1. fold c1 in E1.
  pose proof (incremental_congr c1 _ _ (incremental_u16 _ _ _) OU2 NU2) as E2.
  rewrite !octets_sum. unfold same_oc. set (c2 := incremental_checksum_update c1 _ _) in *.
  Z.to_euclidean_division_equations; lia.
Qed.

Lemma update_nat_congr c old_ip old_port new_ip new_port :
  in_u16 c → ip_ok old_ip → ip_ok new_ip → in_u16 old_port → in_u16 new_port →
  same_oc (update_checksum_for_nat c old_ip old_port new_ip new_port + be_sum (octets new_ip) + new_port)
    (c + be_sum (octets old_ip) + old_port) ∧
  in_u16 (update_checksum_for_nat c old_ip old_port new_ip new_port).
Proof.
  intros Hc Ho Hn Hop Hnp. unfold update_checksum_for_nat, update_checksum_for_port. split; [|apply incremental_u16].
  destruct (update_ip_congr c old_ip new_ip Hc Ho Hn) as [E1 U1]. set (c1 := update_checksum_for_ip c old_ip new_ip) in *.
  pose proof (incremental_congr c1 old_port new_port U1 Hop Hnp) as E2. unfold same_oc in *.
  set (c2 := incremental_checksum_update c1 _ _) in *. Z.to_euclidean_division_equations; lia.
Qed.

(** ** Parsing *)

Record flow_ok (p : list Z) (f : Flow) : Prop := {
  fk_l4 : 34 ≤ l4_offset f ∧ l4_offset f + 4 ≤ len p;
  fk_proto : flow_proto f = 6 ∨ flow_proto f = 17;
  fk_src : get_ip p 26 = Some (flow_src f) ∧ ip_ok (flow_src f);
  fk_dst : get_ip p 30 = Some (flow_dst f) ∧ ip_ok (flow_dst f);
  fk_sport : get_be16 p (l4_offset f) = Some (flow_sport f) ∧ in_u16 (flow_sport f);
  fk_dport : get_be16 p (l4_offset f + 2) = Some (flow_dport f) ∧ in_u16 (flow_dport f)
}.

Lemma parse_total p :
  Forall in_u8 p → ∃ h, parse_headers p = Some h ∧ ∀ f, h = HFlow f → flow_ok p f.
Proof.
  intros Hp. unfold parse_headers. destruct (Z.ltb_spec (len p) 42) as [|Hl]; [by eexists|].
  destruct (get_be16_Some p 12) as (et & -> & _); [done|lia|lia|].
  destruct (negb (et =? 0x0800)); [by eexists|].
  destruct (byte_Some p ip_offset) as (vi & -> & Hvi); [done|unfold ip_offset; lia|].
  destruct (negb (Z.shiftr vi 4 =? 4)); [by eexists|]. set (ihl := wrap8 _).
  destruct (Z.ltb_spec ihl 20) as [|H20]; [by eexists|]. cbn [orb].
  destruct (Z.ltb_spec (len p) (ip_offset + ihl)) as [|Hihl]; [by eexists|].
  destruct (byte_Some p (ip_offset + 9)) as (proto & -> & _); [done|unfold ip_offset; lia|].
  destruct (negb (proto =? 6) && negb (proto =? 17)) eqn:Hpr; [by eexists|].
  unfold parse_flow, ip_offset in *. change (14 + 12) with 26. change (14 + 16) with 30.
  destruct (get_ip_Some p 26) as (src & Hsrc & Usrc); [done|lia|lia|]. rewrite Hsrc.
  destruct (get_ip_Some p 30) as (dst & Hdst & Udst); [done|lia|lia|]. rewrite Hdst.
  destruct (Z.ltb_spec (len p) (14 + ihl + 4)) as [|H4]; [by eexists|].
  destruct (get_be16_Some p (14 + ihl)) as (sp & Hsp & Usp); [done|lia|lia|]. rewrite Hsp.
  destruct (get_be16_Some p (14 + ihl + 2)) as (dp & Hdp & Udp); [done|lia|lia|]. rewrite Hdp.
  eexists. split; [done|]. intros f [= <-]. split; cbn; try done; [lia|].
  destruct (Z.eqb_spec proto 6); [by left|]. destruct (Z.eqb_spec proto 17); [by right|done].
Qed.

(** ** A rewritten frame *)

(** The bytes a translation may change. *)
Definition untouched (f : Flow) (ip_at port_at i : Z) : Prop :=
  (i < 24 ∨ 26 ≤ i) ∧ (i < 14 + ip_at ∨ 18 + ip_at ≤ i) ∧
  (i < l4_offset f + port_at ∨ l4_offset f + port_at + 2 ≤ i) ∧
  (i < checksum_offset f ∨ checksum_offset f + 2 ≤ i).

(** The new address and port in place, nothing else touched, and the sums the
    two checksums make zero unchanged: the header's, and the one over the
    addresses and the transport segment up to any end. A UDP checksum of zero
    (none) stays zero. *)
Record rewritten (p p' : list Z) (f : Flow) (ip_at port_at : Z) (ip : Ipv4) (port : Z) : Prop := {
  rw_len : len p' = len p;
  rw_bytes : Forall in_u8 p';
  rw_ip : get_ip p' (14 + ip_at) = Some ip;
  rw_port : get_be16 p' (l4_offset f + port_at) = Some port;
  rw_header : same_oc (rsum p' 14 (l4_offset f)) (rsum p 14 (l4_offset f));
  rw_l4 : ∀ e, checksum_offset f + 2 ≤ e ≤ len p →
    (flow_proto f = 17 → get_be16 p (checksum_offset f) ≠ Some 0) →
    same_oc (rsum p' 26 34 + rsum p' (l4_offset f) e) (rsum p 26 34 + rsum p (l4_offset f) e);
  rw_none : flow_proto f = 17 → get_be16 p (checksum_offset f) = Some 0 →
    get_be16 p' (checksum_offset f) = Some 0;
  rw_rest : ∀ i, 0 ≤ i → untouched f ip_at port_at i → byte p' i = byte p i
}.

Definition field_at (ip_at port_at : Z) : Prop := (ip_at = 12 ∧ port_at = 0) ∨ (ip_at = 16 ∧ port_at = 2).

Lemma len_be16 v : len (to_be16 v) = 2.
Proof. done. Qed.

Lemma len_octets ip : len (octets ip) = 4.
Proof. done. Qed.

(** After the address, the header checksum and the port. *)
Lemma rewrite_fields p f ip_at port_at old_ip new_ip new_port :
  Forall in_u8 p → flow_ok p f → field_at ip_at port_at →
  get_ip p (14 + ip_at) = Some old_ip → ip_ok old_ip → ip_ok new_ip → in_u16 new_port →
  ∃ p1 c p2 p3,
    put p (ip_offset + ip_at) (octets new_ip) = Some p1 ∧ get_be16 p1 (ip_offset + 10) = Some c ∧ in_u16 c ∧
    put p1 (ip_offset + 10) (to_be16 (update_checksum_for_ip c old_ip new_ip)) = Some p2 ∧
    put p2 (l4_offset f + port_at) (to_be16 new_port) = Some p3 ∧ Forall in_u8 p3 ∧ len p3 = len p ∧
    same_oc (rsum p2 14 (l4_offset f)) (rsum p 14 (l4_offset f)) ∧
    rsum p2 26 34 = rsum p 26 34 - be_sum (octets old_ip) + be_sum (octets new_ip) ∧
    get_ip p2 (14 + ip_at) = Some new_ip.
Proof.
  intros Hp [[Hl4 Hlen] _ _ _ _ _] Hat Hold Uold Unew Uport. unfold ip_offset.
  pose proof (octets_u8 new_ip Unew) as Ub. pose proof (len_octets new_ip) as Lo. pose proof len_be16 as Lb.
  destruct (put_Some p (14 + ip_at) (octets new_ip)) as [p1 H1]; [destruct Hat; lia|destruct Hat; lia|].
  destruct (put_inv p (14 + ip_at) _ p1 ltac:(destruct Hat; lia) H1) as (_ & L1 & B1 & _). specialize (B1 Hp Ub).
  destruct (get_be16_Some p1 (14 + 10)) as (c & Hc & Uc); [done|lia|lia|].
  destruct (update_ip_congr c old_ip new_ip Uc Uold Unew) as [Ec Uc']. set (c' := update_checksum_for_ip c old_ip new_ip) in *.
  destruct (put_Some p1 (14 + 10) (to_be16 c')) as [p2 H2]; [lia|rewrite Lb; lia|].
  destruct (put_inv p1 (14 + 10) _ p2 ltac:(lia) H2) as (_ & L2 & B2 & _). specialize (B2 B1 (to_be16_u8 _ Uc')).
  destruct (put_Some p2 (l4_offset f + port_at) (to_be16 new_port)) as [p3 H3]; [destruct Hat; lia|rewrite Lb; destruct Hat; lia|].
  destruct (put_inv p2 (l4_offset f + port_at) _ p3 ltac:(destruct Hat; lia) H3) as (_ & L3 & B3 & _).
  specialize (B3 B2 (to_be16_u8 _ Uport)).
  exists p1, c, p2, p3. do 5 (split; [done|]). split; [done|]. split; [congruence|].
  assert (rsum p (14 + ip_at) (14 + ip_at + 4) = be_sum (octets old_ip)) as Rold
    by (apply get_ip_rsum; [destruct Hat; lia|done]).
  assert (rsum p1 24 (24 + 2) = c) as Rc by (symmetry; by apply get_be16_rsum).
  split; [|split].
  - assert (rsum p2 14 (l4_offset f) = rsum p1 14 (l4_offset f) - c + c') as ->.
    { rewrite (rsum_put_in p1 24 (to_be16 c') p2 14), Lb, to_be16_sum, Rc;
        [done|done|lia|rewrite Lb; lia|by exists 5|by exists 1]. }
    assert (rsum p1 14 (l4_offset f) = rsum p 14 (l4_offset f) - be_sum (octets old_ip) + be_sum (octets new_ip)) as ->.
    { rewrite (rsum_put_in p (14 + ip_at) (octets new_ip) p1 14), Lo, Rold;
        [done|done|destruct Hat; lia|rewrite Lo; destruct Hat; lia| |by exists 2].
      destruct Hat as [[-> ->]|[-> ->]]; [by exists 6|by exists 8]. }
    unfold same_oc in *. set (x := be_sum (octets old_ip)) in *. set (y := be_sum (octets new_ip)) in *.
    set (z := rsum p 14 (l4_offset f)). clearbody x y z c'. clear -Ec. Z.to_euclidean_division_equations; lia.
  - rewrite (rsum_put_out p1 24 (to_be16 c') p2 26 34) by (done || (rewrite Lb; lia)).
    rewrite (rsum_put_in p (14 + ip_at) (octets new_ip) p1 26), Lo, Rold; [done|done|destruct Hat; lia|rewrite Lo; destruct Hat; lia| |by exists 2].
    destruct Hat as [[-> ->]|[-> ->]]; [by exists 0|by exists 2].
  - rewrite (get_ip_put_out p1 24 (to_be16 c') p2) by (done || (rewrite ?Lb; destruct Hat; lia)). by apply (get_ip_put p); [destruct Hat; lia|].
Qed.

Lemma checksum_offset_bounds f :
  flow_proto f = 6 ∨ flow_proto f = 17 →
  checksum_offset f = l4_offset f + 6 ∨ checksum_offset f = l4_offset f + 16.
Proof. intros _. unfold checksum_offset. destruct (_ =? 6); auto. Qed.

(** The step from the fields to the transport checksum. *)
Lemma rewrite_l4_spec p f old_ip old_port new_ip new_port :
  Forall in_u8 p → 34 ≤ l4_offset f → flow_proto f = 6 ∨ flow_proto f = 17 →
  ip_ok old_ip → ip_ok new_ip → in_u16 old_port → in_u16 new_port →
  ∃ p', rewrite_l4_checksum p f old_ip old_port new_ip new_port = Some p' ∧ len p' = len p ∧ Forall in_u8 p' ∧
    (∀ i, 0 ≤ i → i < checksum_offset f ∨ checksum_offset f + 2 ≤ i → byte p' i = byte p i) ∧
    (flow_proto f = 17 → get_be16 p (checksum_offset f) = Some 0 → get_be16 p' (checksum_offset f) = Some 0) ∧
    (∀ e, checksum_offset f + 2 ≤ e ≤ len p → (flow_proto f = 17 → get_be16 p (checksum_offset f) ≠ Some 0) →
      same_oc (rsum p' (l4_offset f) e + be_sum (octets new_ip) + new_port)
        (rsum p (l4_offset f) e + be_sum (octets old_ip) + old_port)).
Proof.
  intros Hp Hl4 Hproto Uo Un Uop Unp. unfold rewrite_l4_checksum.
  set (off := checksum_offset f). pose proof (checksum_offset_bounds f Hproto) as Hoff. fold off in Hoff.
  destruct (Z.leb_spec (off + 2) (len p)) as [Hfit|Hshort].
  2: { exists p. do 5 (split; [done|]). intros e He. lia. }
  destruct (get_be16_Some p off) as (old & Hold & Uold); [done|lia|lia|]. rewrite Hold.
  destruct (negb (flow_proto f =? 17) || negb (old =? 0)) eqn:Hskip.
  2: { apply orb_false_iff in Hskip as [H17%negb_false_iff%Z.eqb_eq H0%negb_false_iff%Z.eqb_eq].
       exists p. do 4 (split; [done|]). split; [intros _ _; by rewrite Hold, H0|]. intros e _ Hn. destruct (Hn H17). by rewrite H0. }
  destruct (update_nat_congr old old_ip old_port new_ip new_port Uold Uo Un Uop Unp) as [Ec Uc].
  set (c := update_checksum_for_nat _ _ _ _ _) in *. pose proof (len_be16 c) as Lb.
  destruct (put_Some p off (to_be16 c)) as [p' Hput]; [lia|rewrite Lb; lia|].
  destruct (put_inv p off _ p' ltac:(lia) Hput) as (_ & L' & B' & _). specialize (B' Hp (to_be16_u8 _ Uc)).
  exists p'. split; [done|]. split; [done|]. split; [done|]. split; [|split].
  - intros i Hi Ho. apply (byte_put_out p off (to_be16 c)); [lia|done|done|rewrite Lb; lia].
  - intros H17 [= H0]. by rewrite H17, H0 in Hskip.
  - intros e He _. assert (rsum p' (l4_offset f) e = rsum p (l4_offset f) e - old + c) as ->.
    { rewrite (rsum_put_in p off (to_be16 c) p' (l4_offset f)), Lb, to_be16_sum;
        [|done|lia|rewrite Lb; lia|destruct Hoff as [->| ->]; [exists 3|exists 8]; lia|by exists 1].
      rewrite (get_be16_rsum p off old) by (done || lia). done. }
    unfold same_oc in *. set (x := be_sum (octets old_ip)) in *. set (y := be_sum (octets new_ip)) in *.
    set (z := rsum p (l4_offset f) e). clearbody x y z c. clear -Ec. Z.to_euclidean_division_equations; lia.
Qed.

Lemma rewrite_spec p f ip_at port_at old_ip old_port new_ip new_port :
  Forall in_u8 p → flow_ok p f → field_at ip_at port_at →
  get_ip p (14 + ip_at) = Some old_ip → ip_ok old_ip →
  get_be16 p (l4_offset f + port_at) = Some old_port → in_u16 old_port → ip_ok new_ip → in_u16 new_port →
  ∃ p', rewrite p f ip_at port_at old_ip old_port new_ip new_port = Some p' ∧
    rewritten p p' f ip_at port_at new_ip new_port.
Proof.
  intros Hp Hf Hat Hip Uip Hport Uport Unip Unport.
  destruct (rewrite_fields p f ip_at port_at old_ip new_ip new_port Hp Hf Hat Hip Uip Unip Unport)
    as (p1 & c & p2 & p3 & H1 & Hc & Uc & H2 & H3 & B3 & L3 & Hh & Ha & Hip2).
  destruct Hf as [[Hl4 Hlen] Hproto _ _ _ _]. unfold rewrite. rewrite H1, Hc, H2, H3.
  destruct (rewrite_l4_spec p3 f old_ip old_port new_ip new_port B3 Hl4 Hproto Uip Unip Uport Unport)
    as (p' & -> & L' & B' & Hrest & Hnone & Hsum).
  exists p'. split; [done|]. unfold ip_offset in *. pose proof (checksum_offset_bounds f Hproto) as Hoff.
  pose proof (len_octets new_ip) as Lo. pose proof len_be16 as Lb.
  assert (∀ i, 0 ≤ i → i < l4_offset f + port_at ∨ l4_offset f + port_at + 2 ≤ i → byte p3 i = byte p2 i) as E3
    by (intros i Hi Ho; apply (byte_put_out p2 (l4_offset f + port_at) (to_be16 new_port)); [destruct Hat; lia|done|done|rewrite Lb; lia]).
  assert (∀ i, 0 ≤ i → (i < 24 ∨ 26 ≤ i) → (i < 14 + ip_at ∨ 18 + ip_at ≤ i) → byte p2 i = byte p i) as E2.
  { intros i Hi Ho1 Ho2. rewrite (byte_put_out p1 24 _ p2 i ltac:(lia) Hi H2) by (rewrite Lb; lia).
    apply (byte_put_out p (14 + ip_at) (octets new_ip) p1); [destruct Hat; lia|done|done|rewrite Lo; lia]. }
  assert (get_be16 p3 (checksum_offset f) = get_be16 p (checksum_offset f)) as Ecs.
  { unfold get_be16. by rewrite !E3, !E2 by (destruct Hat; lia). }
  split.
  - congruence.
  - done.
  - unfold get_ip in *. rewrite !Hrest, !E3 by (destruct Hat; lia). done.
  - transitivity (get_be16 p3 (l4_offset f + port_at)).
    + unfold get_be16. by rewrite !Hrest by (destruct Hat; lia).
    + by apply (get_be16_put p2); [destruct Hat; lia|].
  - rewrite (rsum_ext p2 p'); [done|lia|]. intros i Hi. rewrite Hrest, E3 by (destruct Hat; lia). done.
  - intros e He Hz. specialize (Hsum e ltac:(lia)). rewrite Ecs in Hsum. specialize (Hsum Hz).
    assert (rsum p' 26 34 = rsum p 26 34 - be_sum (octets old_ip) + be_sum (octets new_ip)) as ->.
    { rewrite <- Ha. apply rsum_ext; [lia|]. intros i Hi. rewrite Hrest, E3 by (destruct Hat; lia). done. }
    assert (rsum p3 (l4_offset f) e = rsum p (l4_offset f) e - old_port + new_port) as Hp3.
    { rewrite (rsum_put_in p2 (l4_offset f + port_at) (to_be16 new_port) p3 (l4_offset f)), Lb, to_be16_sum;
        [|done|destruct Hat; lia|rewrite Lb; destruct Hat; lia|destruct Hat as [[_ ->]|[_ ->]]; [exists 0|exists 1]; lia|by exists 1].
      rewrite (rsum_ext p p2 (l4_offset f) e), (rsum_ext p p2 (l4_offset f + port_at))
        by (try (intros i Hi; apply E2); destruct Hat; lia).
      by rewrite <- (get_be16_rsum p (l4_offset f + port_at) old_port) by (done || destruct Hat; lia). }
    rewrite Hp3 in Hsum. unfold same_oc in *.
    set (x := be_sum (octets old_ip)) in *. set (y := be_sum (octets new_ip)) in *.
    set (z := rsum p (l4_offset f) e) in *. set (w := rsum p 26 34). set (u := rsum p' (l4_offset f) e) in *.
    clearbody x y z w u. clear -Hsum. Z.to_euclidean_division_equations; lia.
  - intros H17 H0. apply Hnone; [done|]. by rewrite Ecs.
  - intros i Hi (U1 & U2 & U3 & U4). by rewrite Hrest, E3, E2.
Qed.

(** ** Engines *)

(** Live connections come from parsed frames and have a port of the range. *)
Definition live_ok (t : ConnTrackTable) : Prop :=
  ∀ k r e, entries t !! k = Some r → heap t !! r = Some e →
  ip_ok (src_ip k) ∧ in_u16 (src_port k) ∧
  port_start (port_alloc t) ≤ snd (nat_src e) ≤ port_end (port_alloc t).

Record engine_ok (g : NatEngine) : Prop := {
  eo_table : table_ok (conntrack g);
  eo_range : range_ok (port_alloc (conntrack g));
  eo_live : live_ok (conntrack g);
  eo_ip : external_ip (conntrack g) = nat_external_ip g ∧ ip_ok (nat_external_ip g)
}.

Lemma live_ok_same t t' : same_map t t' → live_ok t → live_ok t'.
Proof. intros [S1 S2 S3 S4 S5 S6 S7] Hl k r e. rewrite S3, S1, S5. apply Hl. Qed.

Lemma live_ok_record t r n now : live_ok t → live_ok (record_at t r n now).
Proof.
  intros Hl k r' e Hk He. change (heap (record_at t r n now)) with (alter (λ e, record_packet e n now) r (heap t)) in He.
  destruct (decide (r = r')) as [->|Hne].
  - rewrite lookup_alter_eq in He. destruct (heap t !! r') as [e'|] eqn:He'; [|done]. injection He as <-.
    exact (Hl k r' e' Hk He').
  - rewrite lookup_alter_ne in He by done. exact (Hl k r' e Hk He).
Qed.

Lemma live_ok_create t k now r t' :
  table_ok t → range_ok (port_alloc t) → live_ok t → entries t !! k = None →
  ip_ok (src_ip k) → in_u16 (src_port k) → create t k now = Some (r, t') → live_ok t'.
Proof.
  intros Hok Hr Hl He Hip Hport Hc.
  destruct (create_spec t k now Hok Hr He) as (port & t1 & Hc1 & _ & Hp & E1 & E2 & _).
  rewrite Hc1 in Hc. injection Hc as <- <-. destruct (allocate_port_spec _ Hr) as (port' & Hp' & Hpr & _).
  rewrite Hp' in Hp. injection Hp as <- Hpa.
  intros k' r' e. rewrite E1, E2, <- Hpa. intros Hk' He'.
  change (ip_ok (src_ip k') ∧ in_u16 (src_port k') ∧
    port_start (port_alloc t) ≤ snd (nat_src e) ≤ port_end (port_alloc t)).
  apply lookup_insert_Some in Hk' as [[<- <-]|[Hne Hk']].
  - rewrite lookup_insert_eq in He'. by injection He' as <-.
  - destruct (to_refs _ Hok k' r' Hk') as (Hlt & _). rewrite lookup_insert_ne in He' by lia. exact (Hl k' r' e Hk' He').
Qed.

(** The entry an outbound frame uses. *)
Lemma outbound_entry g f now :
  engine_ok g → ip_ok (flow_src f) → in_u16 (flow_sport f) →
  ∃ r t e, get_or_create (conntrack g) (flow_key f) now = Some (r, t) ∧ heap t !! r = Some e ∧
    entries t !! flow_key f = Some r ∧ of_key t (flow_key f) e ∧ in_u16 (snd (nat_src e)) ∧
    engine_ok (g <| conntrack := t |>) ∧ step_keeps (conntrack g) t 1.
Proof.
  intros [Hok Hr Hl [Hip Hiok]] Hsrc Hport.
  destruct (get_or_create_spec (conntrack g) (flow_key f) now Hok Hr) as (r & t & Hg & Hok' & He & Hr' & Hcase).
  destruct (to_refs _ Hok' (flow_key f) r He) as (_ & e & Hh & Hof).
  assert (live_ok t ∧ external_ip t = nat_external_ip g) as [Hl' Hip'].
  { destruct Hcase as [[_ Hs]|[Hn Hc]].
    - split; [by apply (live_ok_same (conntrack g))|]. by rewrite (sm_ip _ _ Hs).
    - split; [by apply (live_ok_create (conntrack g) (flow_key f) now r)|].
      destruct (create_spec _ _ now Hok Hr Hn) as (port & t1 & Hc1 & _ & _ & _ & _ & _ & E4).
      rewrite Hc1 in Hc. injection Hc as _ <-. by rewrite E4. }
  exists r, t, e. do 4 (split; [done|]). split; [|split; [by split|]].
  - destruct (Hl' _ _ _ He Hh) as (_ & _ & Hp). destruct Hr' as (R1 & R2 & _). unfold in_u16. lia.
  - destruct (ct_step_keeps map_to_list (conntrack g) (OpGet (flow_key f) now) Hok Hr) as (t' & Hst & Hk).
    simpl in Hst. rewrite Hg in Hst. by injection Hst as ->.
Qed.

Lemma record_engine g t r n now :
  engine_ok (g <| conntrack := t |>) → engine_ok (g <| conntrack := record_at t r n now |>).
Proof.
  intros [Hok Hr Hl Hip]. split; [|done|by apply live_ok_record|done].
  match goal with |- table_ok ?x => change x with (record_at t r n now) end. by apply record_at_ok.
Qed.

Lemma record_keeps t r n now :
  table_ok t → range_ok (port_alloc t) → step_keeps t (record_at t r n now) 0.
Proof.
  intros Hok Hr. destruct (ct_step_keeps map_to_list t (OpRecord r n now) Hok Hr) as (t' & [= <-] & Hk). exact Hk.
Qed.

(** What one translation does to the engine and to the frame. *)
Definition sound (g : NatEngine) (p : list Z) (dir : NatDirection) (res : result TranslateError NatResult)
    (p' : list Z) (g' : NatEngine) : Prop :=
  engine_ok g' ∧ nat_external_ip g' = nat_external_ip g ∧ step_keeps (conntrack g) (conntrack g') 1 ∧
  match res with
  | Ok Translated =>
      ∃ f ip port, parse_headers p = Some (HFlow f) ∧
        match dir with
        | Outbound => rewritten p p' f 12 0 ip port ∧ nat_port (conntrack g') (flow_key f) = Some port ∧
            ip = nat_external_ip g
        | Inbound => rewritten p p' f 16 2 ip port
        end
  | _ => p' = p
  end.

Lemma outbound_sound g p f now :
  engine_ok g → Forall in_u8 p → parse_headers p = Some (HFlow f) → flow_ok p f →
  ∃ r p' g', translate_outbound g p f now = Some (r, p', g') ∧ sound g p Outbound (Ok r) p' g'.
Proof.
  intros Hg Hp Hparse Hf. unfold translate_outbound.
  destruct (is_internal g (flow_src f)); cbn [negb].
  2: { exists PassThrough, p, g. split; [done|]. split; [done|]. split; [done|]. split; [|done].
       destruct Hg as [H1 H2 H3 H4]. by apply same_map_keeps. }
  pose proof Hf as [_ _ [Hs1 Hs2] _ [Hp1 Hp2] _].
  destruct (outbound_entry g f now Hg Hs2 Hp2) as (r & t & e & -> & He & Hent & Hof & Hport & Hg' & Hk).
  rewrite He. destruct Hof as (_ & _ & Hnat & _).
  assert (fst (nat_src e) = nat_external_ip g ∧ ip_ok (fst (nat_src e))) as [Hip Hiok].
  { pose proof (eo_ip _ Hg') as [A1 A2]. change (external_ip t = nat_external_ip g) in A1. by rewrite Hnat, A1. }
  rewrite <- (Z.add_0_r (l4_offset f)) in Hp1.
  destruct (rewrite_spec p f 12 0 (flow_src f) (flow_sport f) (fst (nat_src e)) (snd (nat_src e)))
    as (p' & -> & Hrw); [done|done|by left|done|done|done|done|done|done|].
  eexists _, p', _. split; [done|]. split; [by apply record_engine|]. split; [done|]. split.
  - pose proof Hk as (K1 & K2 & _). apply (step_keeps_trans _ t _ 1 0); [done|done|done|by apply record_keeps].
  - exists f, (fst (nat_src e)), (snd (nat_src e)). split; [done|]. split; [done|]. split; [|done].
    unfold nat_port. match goal with |- context [entries ?x] => change x with (record_at t r (len p') now) end.
    change (entries (record_at t r (len p') now)) with (entries t). rewrite Hent. cbn [mbind option_bind].
    change (heap (record_at t r (len p') now)) with (alter (λ e, record_packet e (len p') now) r (heap t)).
    by rewrite lookup_alter_eq, He.
Qed.

(** Lookups keep the engine. *)
Lemma lookup_engine g k :
  engine_ok g → ∃ t, lookup (conntrack g) k = Some (entries (conntrack g) !! k, t) ∧
    entries t = entries (conntrack g) ∧ engine_ok (g <| conntrack := t |>) ∧ step_keeps (conntrack g) t 1.
Proof.
  intros [Hok Hr Hl Hip]. destruct (lookup_spec (conntrack g) k Hok) as (t & Hlk & Hs & Hokt).
  exists t. split; [done|]. split; [apply (sm_entries _ _ Hs)|]. split; [|by apply same_map_keeps].
  split; [done| |by apply (live_ok_same (conntrack g))|].
  - change (range_ok (port_alloc t)). by rewrite (sm_ports _ _ Hs).
  - change (external_ip t = nat_external_ip g ∧ ip_ok (nat_external_ip g)). by rewrite (sm_ip _ _ Hs).
Qed.

(** A reply to a live connection gets the address and port it came from. *)
Lemma inbound_hit g p f now k r :
  engine_ok g → Forall in_u8 p → flow_ok p f → flow_dst f = nat_external_ip g →
  reverse (conntrack g) !! flow_key f = Some k → entries (conntrack g) !! k = Some r →
  ∃ p' g', translate_inbound g p f now = Some (Translated, p', g') ∧
    rewritten p p' f 16 2 (src_ip k) (src_port k) ∧
    engine_ok g' ∧ nat_external_ip g' = nat_external_ip g ∧ step_keeps (conntrack g) (conntrack g') 1.
Proof.
  intros Hg Hp Hf Hdst Hrev Hent. unfold translate_inbound. rewrite bool_decide_true by done. cbn [negb].
  unfold lookup_reverse. rewrite Hrev. destruct (lookup_engine g k Hg) as (t & -> & Het & Hg' & Hk).
  rewrite Hent. rewrite <- Het in Hent.
  destruct (to_refs _ (eo_table _ Hg') k r Hent) as (_ & e & He & Horig & _).
  change (heap t !! r = Some e) in He. rewrite He.
  destruct (eo_live _ Hg' k r e Hent He) as (Uip & Uport & _).
  pose proof Hf as [_ _ _ [Hd1 Hd2] _ [Hp1 Hp2]]. rewrite Horig. cbn [fst snd].
  destruct (rewrite_spec p f 16 2 (flow_dst f) (flow_dport f) (src_ip k) (src_port k))
    as (p' & -> & Hrw); [done|done|by right|done|done|done|done|done|done|].
  eexists p', _. split; [done|]. split; [done|]. split; [by apply record_engine|]. split; [done|].
  pose proof Hk as (K1 & K2 & _). apply (step_keeps_trans _ t _ 1 0); [done|done|done|by apply record_keeps].
Qed.

Lemma inbound_sound g p f now :
  engine_ok g → Forall in_u8 p → parse_headers p = Some (HFlow f) → flow_ok p f →
  ∃ r p' g', translate_inbound g p f now = Some (r, p', g') ∧ sound g p Inbound (Ok r) p' g'.
Proof.
  intros Hg Hp Hparse Hf.
  assert (step_keeps (conntrack g) (conntrack g) 1) as Hkg by (destruct Hg; by apply same_map_keeps).
  destruct (decide (flow_dst f = nat_external_ip g)) as [Hdst|Hdst].
  2: { unfold translate_inbound. rewrite bool_decide_false by done. by eexists PassThrough, p, g. }
  destruct (reverse (conntrack g) !! flow_key f) as [k|] eqn:Hrev.
  - destruct (entries (conntrack g) !! k) as [r|] eqn:Hent.
    + destruct (inbound_hit g p f now k r Hg Hp Hf Hdst Hrev Hent) as (p' & g' & -> & Hrw & Hg' & Hip & Hk).
      eexists _, p', g'. split; [done|]. do 3 (split; [done|]). by exists f, (src_ip k), (src_port k).
    + unfold translate_inbound, lookup_reverse. rewrite bool_decide_true, Hrev by done. cbn [negb].
      destruct (lookup_engine g k Hg) as (t & -> & _ & Hg' & Hk). rewrite Hent. by eexists _, p, _.
  - unfold translate_inbound, lookup_reverse. rewrite bool_decide_true, Hrev by done. cbn [negb].
    eexists _, p, _. split; [done|]. by replace (g <| conntrack := conntrack g |>) with g by (by destruct g).
Qed.

Lemma translate_sound g p dir now :
  engine_ok g → Forall in_u8 p →
  ∃ res p' g', translate g p dir now = Some (res, p', g') ∧ sound g p dir res p' g'.
Proof.
  intros Hg Hp. unfold translate. destruct (parse_total p Hp) as (h & Hparse & Hf). rewrite Hparse.
  assert (step_keeps (conntrack g) (conntrack g) 1) as Hk by (destruct Hg; by apply same_map_keeps).
  destruct h as [e| |f]; [by eexists _, p, g|by eexists _, p, g|]. specialize (Hf f eq_refl).
  destruct dir.
  - destruct (outbound_sound g p f now Hg Hp Hparse Hf) as (r & p' & g' & -> & Hs). by eexists _, p', g'.
  - destruct (inbound_sound g p f now Hg Hp Hparse Hf) as (r & p' & g' & -> & Hs). by eexists _, p', g'.
Qed.

(** ** Runs of frames *)

(** A frame, its direction and the time it is translated at. *)
Fixpoint nat_run (g : NatEngine) (frames : list (list Z * NatDirection * Z)) : option NatEngine :=
  match frames with
  | [] => Some g
  | (p, dir, now) :: frames =>
      match translate g p dir now with
      | None => None
      | Some (_, _, g) => nat_run g frames
      end
  end.

Definition frames_ok (frames : list (list Z * NatDirection * Z)) : Prop :=
  Forall (λ '(p, _, _), Forall in_u8 p) frames.

Lemma nat_run_ok g frames :
  engine_ok g → frames_ok frames →
  ∃ g', nat_run g frames = Some g' ∧ engine_ok g' ∧ nat_external_ip g' = nat_external_ip g ∧
    step_keeps (conntrack g) (conntrack g') (Z.of_nat (length frames)).
Proof.
  intros Hg Hf. revert g Hg. induction Hf as [|[[p dir] now] frames Hp _ IH]; intros g Hg; cbn [nat_run].
  { exists g. do 3 (split; [done|]). destruct Hg. by apply same_map_keeps. }
  destruct (translate_sound g p dir now Hg Hp) as (res & p' & g1 & -> & Hg1 & Hip1 & Hk1 & _).
  destruct (IH g1 Hg1) as (g2 & -> & Hg2 & Hip2 & Hk2). exists g2. split; [done|]. split; [done|]. split; [congruence|].
  simpl length. rewrite Nat2Z.inj_succ, <- Z.add_1_l. apply (step_keeps_trans _ (conntrack g1)); [lia|lia|done|done].
Qed.

Lemma new_engine_ok c :
  config_ok (port_range_start c) (port_range_end c) → ip_ok (cfg_external_ip c) → engine_ok (new_engine c).
Proof.
  intros Hc Hip. split; [apply new_table_ok|exact Hc| |done].
  intros k r e Hk. change ((∅ : gmap ConnTrackKey Z) !! k = Some r) in Hk. by rewrite lookup_empty in Hk.
Qed.

(** C19: whatever frames the engine has seen, translating a frame, any bytes of
    any length, never panics: it is rewritten in its address, its port and the
    two checksums alone, or left as it was. A rewritten frame keeps its length,
    and both checksums stay as right as they were: the sums they complete are
    unchanged in ones' complement, and an absent UDP checksum stays absent. *)
Theorem translation_keeps_checksums c frames p dir now :
  config_ok (port_range_start c) (port_range_end c) → ip_ok (cfg_external_ip c) →
  frames_ok frames → Forall in_u8 p →
  ∃ g res p' g', nat_run (new_engine c) frames = Some g ∧ translate g p dir now = Some (res, p', g') ∧
    match res with
    | Ok Translated =>
        ∃ f ip port, parse_headers p = Some (HFlow f) ∧
          rewritten p p' f (match dir with Outbound => 12 | Inbound => 16 end)
            (match dir with Outbound => 0 | Inbound => 2 end) ip port
    | _ => p' = p
    end.
Proof.
  intros Hc Hip Hf Hp. destruct (nat_run_ok _ frames (new_engine_ok c Hc Hip) Hf) as (g & Hrun & Hg & _).
  destruct (translate_sound g p dir now Hg Hp) as (res & p' & g' & Ht & _ & _ & _ & Hres).
  exists g, res, p', g'. split; [done|]. split; [done|]. destruct res as [[| |]|e]; [|done|done|done].
  destruct Hres as (f & ip & port & Hparse & Hd). exists f, ip, port. split; [done|].
  destruct dir; [apply Hd|exact Hd].
Qed.

(** C20: as long as the engine has seen fewer frames than it has ports, the
    answer to a translated frame reaches the sender: a frame from the
    destination to the translated address and port is rewritten to the address
    and port the original frame came from. *)
Theorem reply_reaches_the_sender c frames g p f now p' g' q fq now' :
  config_ok (port_range_start c) (port_range_end c) → ip_ok (cfg_external_ip c) → frames_ok frames →
  Z.of_nat (length frames) < port_range_end c - port_range_start c + 1 →
  Forall in_u8 p → Forall in_u8 q →
  nat_run (new_engine c) frames = Some g → translate g p Outbound now = Some (Ok Translated, p', g') →
  parse_headers p = Some (HFlow f) → parse_headers q = Some (HFlow fq) →
  flow_src fq = flow_dst f → flow_sport fq = flow_dport f → flow_proto fq = flow_proto f →
  get_ip p' 26 = Some (flow_dst fq) → get_be16 p' (l4_offset f) = Some (flow_dport fq) →
  ∃ q' g'', translate g' q Inbound now' = Some (Ok Translated, q', g'') ∧
    get_ip q' 30 = Some (flow_src f) ∧ get_be16 q' (l4_offset fq + 2) = Some (flow_sport f).
Proof.
  intros Hc Hip Hf Hlen Hp Hq Hrun Ht Hpf Hqf Hsrc Hsport Hproto Hdst Hdport.
  destruct (nat_run_ok _ frames (new_engine_ok c Hc Hip) Hf) as (g0 & Hrun0 & Hg & Hipg & Hk).
  rewrite Hrun in Hrun0. injection Hrun0 as <-.
  destruct (translate_sound g p Outbound now Hg Hp) as (res & p1 & g1 & Ht1 & Hg1 & Hip1 & Hk1 & Hres).
  rewrite Ht in Ht1. injection Ht1 as <- <- <-. destruct Hres as (f' & ip & port & Hpf' & Hrw & Hnp & ->).
  rewrite Hpf in Hpf'. injection Hpf' as <-.
  pose proof (rw_ip _ _ _ _ _ _ _ Hrw) as Hip'. pose proof (rw_port _ _ _ _ _ _ _ Hrw) as Hport'.
  change (14 + 12) with 26 in Hip'. rewrite Z.add_0_r in Hport'. rewrite Hdst in Hip'. injection Hip' as Hip'.
  rewrite Hdport in Hport'. injection Hport' as Hport'.
  destruct (step_keeps_trans _ _ _ (Z.of_nat (length frames)) 1 ltac:(lia) ltac:(lia) Hk Hk1) as (Hok' & _ & _ & _ & Hports).
  destruct (Hports 0 (new_ports_ok _ _ _ _ _ Hc)) as (n & _ & [_ _ _ _ _ Hrev]); [unfold span; simpl; lia|].
  assert (flow_key fq = reply_key (conntrack g') (flow_key f) port) as Hkey.
  { unfold flow_key, reply_key. cbn [dst_ip dst_port protocol src_ip src_port]. rewrite Hsrc, Hsport, Hproto.
    rewrite (proj1 (eo_ip _ Hg1)), Hip1. by rewrite Hip', Hport'. }
  destruct (nat_port_live _ _ _ Hnp) as [r Hent].
  destruct (parse_total q Hq) as (h & Hqf' & Hfq). rewrite Hqf in Hqf'. injection Hqf' as <-. specialize (Hfq fq eq_refl).
  destruct (inbound_hit g' q fq now' (flow_key f) r Hg1 Hq Hfq) as (q' & g'' & Hin & Hrw' & _);
    [by rewrite Hip', Hip1|rewrite Hkey; apply Hrev; eauto|done|].
  exists q', g''. unfold translate. rewrite Hqf, Hin. split; [done|].
  split; [apply (rw_ip _ _ _ _ _ _ _ Hrw')|apply (rw_port _ _ _ _ _ _ _ Hrw')].
Qed.

(** ** A connection and its answer *)

(** A TCP frame without payload, checksums left zero. *)
Definition ex_frame (src dst : Ipv4) (sport dport : Z) : list Z :=
  replicate 12 0 ++ [0x08; 0x00] ++ [0x45; 0; 0; 40; 0; 0; 0; 0; 64; 6; 0; 0] ++ octets src ++ octets dst ++
  to_be16 sport ++ to_be16 dport ++ replicate 16 0.

Definition ex_guest : Ipv4 := MkIp 192 168 64 2.
Definition ex_out : list Z := ex_frame ex_guest ex_server 5000 443.
Definition ex_reply : list Z := ex_frame ex_server (MkIp 192 168 64 1) 443 49152.
Definition ex_flow (src dst : Ipv4) (sport dport : Z) : Flow := MkFlow 34 src dst sport dport 6.

Lemma ex_bytes l : forallb (λ b, (0 <=? b) && (b <? 256)) l = true → Forall in_u8 l.
Proof.
  induction l as [|b l IH]; [constructor|]. simpl. rewrite !andb_true_iff, Z.leb_le, Z.ltb_lt.
  intros [[H1 H2] Hl]. constructor; [done|by apply IH].
Qed.

Definition ex_config : NatEngineConfig := default_config <| fast_cache_size := 4 |>.

Lemma translation_keeps_checksums_witness :
  ∃ g p' g', nat_run (new_engine ex_config) [(ex_out, Outbound, 0)] = Some g ∧
    translate g ex_out Outbound 1 = Some (Ok Translated, p', g') ∧ get_ip p' 26 = Some (MkIp 192 168 64 1) ∧
    same_oc (rsum p' 14 34) (rsum ex_out 14 34).
Proof.
  destruct (translation_keeps_checksums ex_config [(ex_out, Outbound, 0)] ex_out Outbound 1)
    as (g & res & p' & g' & Hrun & Ht & Hres);
    [done|repeat split; done|apply Forall_singleton, ex_bytes; done|by apply ex_bytes|].
  vm_compute in Hrun. injection Hrun as <-. vm_compute in Ht. injection Ht as <- <- <-.
  eexists _, _, _. split; [vm_compute; reflexivity|]. split; [vm_compute; reflexivity|].
  split; [vm_compute; reflexivity|]. destruct Hres as (f & ip & port & Hparse & Hrw).
  vm_compute in Hparse. injection Hparse as <-. exact (rw_header _ _ _ _ _ _ _ Hrw).
Defined.

(** The frame sent, and the engine after it. *)
Definition ex_sent : list Z :=
  match translate (new_engine ex_config) ex_out Outbound 0 with Some (_, p, _) => p | None => [] end.
Definition ex_engine : NatEngine :=
  match translate (new_engine ex_config) ex_out Outbound 0 with Some (_, _, g) => g | None => new_engine ex_config end.

Lemma reply_reaches_the_sender_witness :
  get_ip ex_sent 26 = Some (MkIp 192 168 64 1) ∧
  ∃ q' g'', translate ex_engine ex_reply Inbound 1 = Some (Ok Translated, q', g'') ∧
    get_ip q' 30 = Some ex_guest ∧ get_be16 q' 36 = Some 5000.
Proof.
  split; [vm_compute; reflexivity|].
  apply (reply_reaches_the_sender ex_config [] (new_engine ex_config) ex_out
    (ex_flow ex_guest ex_server 5000 443) 0 ex_sent ex_engine ex_reply
    (ex_flow ex_server (MkIp 192 168 64 1) 443 49152) 1);
    [done|repeat split; done|constructor|done|by apply ex_bytes|by apply ex_bytes|reflexivity
    |vm_compute; reflexivity..].
Defined.
End NatE.
