(* ===== verification/NetCsum.v ===== *)
(** * Checksum offload

    [src/virt/arcbox-vmm/src/device/checksum.rs]: a guest may leave the TCP or
    UDP checksum of a frame to the host; the host computes it before it forwards
    the frame. Every byte, the offload header included, is the guest's. *)

From Stdlib Require Import ZArith Lia.
From stdpp Require Import base numbers list.
From S2P Require Import Prelude Bits Checksum Bytes.

Open Scope Z_scope.

Module Csum.

Record VirtioNetHeader := MkNetHeader {
  hdr_flags : Z;
  gso_type : Z;
  hdr_len : Z;
  gso_size : Z;
  csum_start : Z;
  csum_offset : Z;
  num_buffers : Z
}.

Definition HEADER_SIZE : Z := 12.

Definition from_bytes (bs : list Z) : option VirtioNetHeader :=
  match bs with
  | flags :: gso :: a0 :: a1 :: b0 :: b1 :: c0 :: c1 :: d0 :: d1 :: e0 :: e1 :: _ =>
      Some (MkNetHeader flags gso (be16 a1 a0) (be16 b1 b0) (be16 c1 c0) (be16 d1 d0) (be16 e1 e0))
  | _ => None
  end.

(** [to_bytes], little-endian. *)
Definition to_le16 (v : Z) : list Z := [v mod 256; v / 256].
Definition to_bytes (h : VirtioNetHeader) : list Z :=
  [hdr_flags h; gso_type h] ++ to_le16 (hdr_len h) ++ to_le16 (gso_size h) ++ to_le16 (csum_start h) ++
  to_le16 (csum_offset h) ++ to_le16 (num_buffers h).

Section offload.
Context (arch : Arch) (FLAG_NEEDS_CSUM : Z).

(** The part of a frame a checksum is asked for. *)
Record Request := MkRequest {
  rq_start : Z;
  rq_field : Z;
  rq_end : Z
}.

(** The checks on the frame and the header; [None] is a panic, [Some None] a
    frame left alone. *)
Definition request (frame : list Z) (h : VirtioNetHeader) : option (option Request) :=
  if len frame <? 34 then Some None
  else
    let! ethertype := get_be16 frame 12 in
    if negb (ethertype =? 0x0800) then Some None
    else
      let! version_ihl := byte frame 14 in
      let version := Z.shiftr version_ihl 4 in
      let ihl := Z.land version_ihl 0x0F * 4 in
      if negb (version =? 4) || (ihl <? 20) || (len frame <? 14 + ihl) then Some None
      else
        let! total_len := get_be16 frame 16 in
        if (total_len <? ihl) || (len frame <? 14 + total_len) then Some None
        else
          let payload_end := 14 + total_len in
          let field := csum_start h + csum_offset h in
          if (csum_start h <? 14 + ihl) || (payload_end <? field + 2) then Some None
          else Some (Some (MkRequest (csum_start h) field payload_end)).

(** The field is zeroed, then filled for the protocols the host knows. *)
Definition complete (frame : list Z) (rq : Request) : option (list Z) :=
  let! protocol := byte frame 23 in
  let! src := get_ip frame 26 in
  let! dst := get_ip frame 30 in
  let! frame := put frame (rq_field rq) [0; 0] in
  if protocol =? 6 then
    let! segment := range frame (rq_start rq) (rq_end rq) in
    put frame (rq_field rq) (to_be16 (tcp_checksum arch src dst segment))
  else if protocol =? 17 then
    let! segment := range frame (rq_start rq) (rq_end rq) in
    put frame (rq_field rq) (to_be16 (udp_checksum arch src dst segment))
  else Some frame.

Definition finalize_virtio_net_checksum (packet : list Z) : option (list Z) :=
  if len packet <=? HEADER_SIZE then Some packet
  else
    let! bs := range packet 0 HEADER_SIZE in
    match from_bytes bs with
    | None => Some packet
    | Some h =>
        if Z.land (hdr_flags h) FLAG_NEEDS_CSUM =? 0 then Some packet
        else
          let! frame := range packet HEADER_SIZE (len packet) in
          let! rq := request frame h in
          match rq with
          | None => Some packet
          | Some rq => let! frame := complete frame rq in Some (bs ++ frame)
          end
    end.

(** ** In bounds *)

Record request_ok (frame : list Z) (rq : Request) : Prop := {
  ro_start : 34 ≤ rq_start rq ≤ rq_field rq;
  ro_end : rq_field rq + 2 ≤ rq_end rq;
  ro_len : rq_end rq ≤ len frame;
  ro_small : rq_end rq < 65536 + 14
}.

Lemma request_total frame h :
  Forall in_u8 frame → 0 ≤ csum_offset h →
  ∃ rq, request frame h = Some rq ∧ ∀ r, rq = Some r → request_ok frame r ∧
    rq_start r = csum_start h ∧ rq_field r = csum_start h + csum_offset h.
Proof.
  intros Hf Hoff. unfold request. destruct (Z.ltb_spec (len frame) 34) as [|Hl]; [by eexists|].
  destruct (get_be16_Some frame 12) as (et & -> & _); [done|lia|lia|].
  destruct (negb (et =? 0x0800)); [by eexists|].
  destruct (byte_Some frame 14) as (vi & -> & Hvi); [done|lia|].
  set (ihl := Z.land vi 0x0F * 4). destruct (negb (Z.shiftr vi 4 =? 4)); cbn [orb]; [by eexists|].
  destruct (Z.ltb_spec ihl 20) as [|H20]; cbn [orb]; [by eexists|].
  destruct (Z.ltb_spec (len frame) (14 + ihl)) as [|Hihl]; [by eexists|].
  destruct (get_be16_Some frame 16) as (tl & -> & Htl); [done|lia|lia|].
  destruct (Z.ltb_spec tl ihl) as [|Ht1]; cbn [orb]; [by eexists|].
  destruct (Z.ltb_spec (len frame) (14 + tl)) as [|Ht2]; [by eexists|].
  destruct (Z.ltb_spec (csum_start h) (14 + ihl)) as [|Hs]; cbn [orb]; [by eexists|].
  destruct (Z.ltb_spec (14 + tl) (csum_start h + csum_offset h + 2)) as [|He]; [by eexists|].
  eexists. split; [done|]. intros r [= <-]. unfold in_u16, u16_bound in Htl. split; [|done]. split; cbn; lia.
Qed.

(** The checksum of a segment with a zeroed field, and the frame once it is in
    place. *)
Definition l4_checksum (protocol : Z) (src dst : Ipv4) (segment : list Z) : Z :=
  if protocol =? 6 then tcp_checksum arch src dst segment else udp_checksum arch src dst segment.

Lemma l4_checksum_sum protocol src dst segment :
  protocol = 6 ∨ protocol = 17 → ip_ok src → ip_ok dst → Forall in_u8 segment → len segment < 65536 →
  let c := l4_checksum protocol src dst segment in
  in_u16 c ∧ (pseudo_sum src dst protocol (len segment) + be_sum segment + c) mod 65535 = 0 ∧
  (protocol = 17 → c ≠ 0).
Proof.
  intros Hp (S0 & S1 & S2 & S3) (D0 & D1 & D2 & D3) Hseg Hl c.
  set (s := pseudo_sum src dst protocol (len segment) + be_sum segment).
  destruct (be_sum_bounds segment Hseg) as [B1 B2].
  assert (0 ≤ s < u32_bound) as Hs.
  { unfold s, pseudo_sum, octets, in_u8, u8_bound, len, u32_bound in *. simpl. unfold be16. lia. }
  assert (wrapping_add32 (pseudo_header src dst protocol (Z.of_nat (length segment))) (checksum_add arch segment) = wrap32 s) as Hw.
  { change (same32 (pseudo_header src dst protocol (len segment) + checksum_add arch segment) s).
    rewrite checksum_add_sum, pseudo_header_sum, same32_wrap. done. }
  assert ((c = checksum_fold (wrap32 s) ∧ protocol = 6) ∨
          (c = (if checksum_fold (wrap32 s) =? 0 then 0xFFFF else checksum_fold (wrap32 s)))) as Hc.
  { unfold c, l4_checksum, tcp_checksum, udp_checksum. rewrite <- Hw.
    destruct Hp as [-> | ->]; [by left|by right]. }
  clearbody c s. clear Hw.
  destruct (filled_sum s c Hs) as [H1 H2].
  { destruct Hc as [[-> _] | ->]; [by left|]. destruct (Z.eqb_spec (checksum_fold (wrap32 s)) 0); auto. }
  split; [done|]. split; [done|]. intros ->. destruct Hc as [[_ [=]] | ->].
  destruct (Z.eqb_spec (checksum_fold (wrap32 s)) 0); done.
Qed.

Lemma complete_l4 protocol src dst segment f field :
  protocol = 6 ∨ protocol = 17 →
  (if protocol =? 6 then put f field (to_be16 (tcp_checksum arch src dst segment))
   else if protocol =? 17 then put f field (to_be16 (udp_checksum arch src dst segment)) else Some f) =
  put f field (to_be16 (l4_checksum protocol src dst segment)).
Proof.
  intros Hp. unfold l4_checksum. destruct (Z.eqb_spec protocol 6); [done|].
  destruct (Z.eqb_spec protocol 17); [done|]. by destruct Hp.
Qed.

(** The frame [frame'] is [frame] with its checksum filled in. *)
Record completed (frame : list Z) (rq : Request) (frame' : list Z) : Prop := {
  cp_len : len frame' = len frame;
  cp_u8 : Forall in_u8 frame';
  cp_rest i : 0 ≤ i → i < rq_field rq ∨ rq_field rq + 2 ≤ i → byte frame' i = byte frame i;
  cp_sum protocol src dst :
    byte frame 23 = Some protocol → get_ip frame 26 = Some src → get_ip frame 30 = Some dst →
    protocol = 6 ∨ protocol = 17 → Z.Even (rq_field rq - rq_start rq) →
    (pseudo_sum src dst protocol (rq_end rq - rq_start rq) + rsum frame' (rq_start rq) (rq_end rq)) mod 65535 = 0 ∧
    (protocol = 17 → get_be16 frame' (rq_field rq) ≠ Some 0)
}.

Lemma complete_spec frame rq :
  request_ok frame rq → Forall in_u8 frame → ∃ frame', complete frame rq = Some frame' ∧ completed frame rq frame'.
Proof.
  intros [Hs He Hl Hm] Hf. unfold complete.
  destruct (byte_Some frame 23) as (protocol & Hpr & Hp8); [done|lia|].
  destruct (get_ip_Some frame 26) as (src & Hsrc & Osrc); [done|lia|lia|].
  destruct (get_ip_Some frame 30) as (dst & Hdst & Odst); [done|lia|lia|]. rewrite Hpr, Hsrc, Hdst.
  assert (len [0; 0] = 2) as L2 by done. assert (0 ≤ rq_field rq) as H0 by lia.
  destruct (put_Some frame (rq_field rq) [0; 0]) as [f0 Hf0]; [lia|lia|]. rewrite Hf0.
  destruct (put_inv _ _ _ _ H0 Hf0) as (_ & Hl0 & Hu0 & _).
  assert (Forall in_u8 f0) as Hf8 by (apply Hu0; [done|by repeat constructor]).
  destruct (range_Some f0 (rq_start rq) (rq_end rq)) as (seg & Hseg & Hsl & Hs8); [lia|lia|]. specialize (Hs8 Hf8).
  assert (∀ i, 0 ≤ i → i < rq_field rq ∨ rq_field rq + 2 ≤ i → byte f0 i = byte frame i) as Hout.
  { intros i Hi Ho. apply (byte_put_out frame (rq_field rq) [0; 0]); [done|done|done|by rewrite L2]. }
  destruct (decide (protocol = 6 ∨ protocol = 17)) as [Hp|Hp].
  - destruct (l4_checksum_sum protocol src dst seg Hp Osrc Odst Hs8) as (Hc & Hsum & Hnz); [lia|].
    set (c := l4_checksum protocol src dst seg) in *.
    destruct (put_Some f0 (rq_field rq) (to_be16 c)) as [f1 Hf1]; [lia|change (len (to_be16 c)) with 2; lia|].
    exists f1. split.
    { rewrite Hseg, (complete_l4 protocol src dst seg f0 (rq_field rq) Hp). exact Hf1. }
    clearbody c.
    destruct (put_inv _ _ _ _ H0 Hf1) as (_ & Hl1 & Hu1 & _). split; [lia|by apply Hu1; [|apply to_be16_u8]| |].
    + intros i Hi Ho. rewrite <- Hout by done.
      apply (byte_put_out f0 (rq_field rq) (to_be16 c)); [lia..|done|change (len (to_be16 c)) with 2; lia].
    + intros ??? E1 E2 E3 _ Hev. rewrite Hpr in E1. rewrite Hsrc in E2. rewrite Hdst in E3. simplify_eq. split; [|intros Hp17; rewrite (get_be16_put _ _ _ _ H0 Hf1); specialize (Hnz Hp17); congruence].
      rewrite (rsum_put_in _ _ _ _ (rq_start rq) (rq_end rq) Hf1)
        by (done || (by exists 1) || (change (len (to_be16 c)) with 2; lia)).
      change (len (to_be16 c)) with (len [0; 0]). rewrite to_be16_sum, (rsum_put_same _ _ _ _ H0 Hf0).
      rewrite <- (range_rsum _ _ _ _ Hseg), <- Hsl. change (be_sum [0; 0]) with 0. rewrite <- Hsum. f_equal. lia.
  - exists f0. split.
    { destruct (Z.eqb_spec protocol 6) as [->|]; [by destruct Hp; left|].
      destruct (Z.eqb_spec protocol 17) as [->|]; [by destruct Hp; right|done]. }
    split; [done|done|done|]. intros ??? Hpr' _ _ Hp'. rewrite Hpr in Hpr'. by simplify_eq.
Qed.

(** ** The whole packet *)

Lemma from_bytes_total bs :
  len bs = HEADER_SIZE → Forall in_u8 bs → ∃ h, from_bytes bs = Some h ∧ 0 ≤ csum_offset h.
Proof.
  unfold len, HEADER_SIZE. intros Hl Hu.
  do 12 (destruct bs as [|? bs]; [simpl in Hl; lia|]). eexists. split; [done|].
  rewrite !Forall_cons in Hu. unfold in_u8 in Hu. cbn [csum_offset]. unfold be16. lia.
Qed.

(** The header asks for a checksum, and the frame has a place for it. *)
Definition asks (bs frame : list Z) (rq : Request) : Prop :=
  len bs = HEADER_SIZE ∧ ∃ h, from_bytes bs = Some h ∧ Z.land (hdr_flags h) FLAG_NEEDS_CSUM ≠ 0 ∧
  request frame h = Some (Some rq).

(** What becomes of a packet: only a frame that asks changes. *)
Definition finalized (packet packet' : list Z) : Prop :=
  (packet' = packet ∧ ∀ bs frame rq, packet = bs ++ frame → ¬ asks bs frame rq) ∨
  ∃ bs frame rq frame', packet = bs ++ frame ∧ asks bs frame rq ∧ request_ok frame rq ∧
    packet' = bs ++ frame' ∧ completed frame rq frame'.

Lemma split_inj (bs frame bs' frame' : list Z) :
  bs ++ frame = bs' ++ frame' → len bs = len bs' → bs = bs' ∧ frame = frame'.
Proof. intros E Hl. apply app_inj_1; [unfold len in Hl; lia|done]. Qed.

Lemma request_short frame h rq : request frame h = Some (Some rq) → 34 ≤ len frame.
Proof. unfold request. destruct (Z.ltb_spec (len frame) 34); [done|lia]. Qed.

Lemma finalize_spec packet :
  Forall in_u8 packet → ∃ packet', finalize_virtio_net_checksum packet = Some packet' ∧ finalized packet packet'.
Proof.
  intros Hu. unfold finalize_virtio_net_checksum. destruct (Z.leb_spec (len packet) HEADER_SIZE) as [Hs|Hl].
  { eexists. split; [done|]. left. split; [done|]. intros bs frame rq -> (Hb & h & _ & _ & Hr).
    apply request_short in Hr. unfold len in *. rewrite length_app in Hs. lia. }
  destruct (range_app packet HEADER_SIZE) as (bs & frame & -> & -> & Hbl & E); [unfold HEADER_SIZE in *; lia|].
  assert (∀ bs' frame', packet = bs' ++ frame' → len bs' = HEADER_SIZE → bs' = bs ∧ frame' = frame) as Hinj.
  { intros bs' frame' E' Hl'. apply split_inj; congruence. }
  rewrite E in Hu. apply Forall_app in Hu as [Hub Huf].
  destruct (from_bytes_total bs Hbl Hub) as (h & Hh & Hoff). rewrite Hh.
  destruct (Z.eqb_spec (Z.land (hdr_flags h) FLAG_NEEDS_CSUM) 0) as [H0|Hn].
  { eexists. split; [done|]. left. split; [done|]. intros bs' frame' rq E' (Hb & h' & Hh' & Hn & _).
    destruct (Hinj _ _ E' Hb) as [-> _]. congruence. }
  destruct (request_total frame h Huf Hoff) as (orq & Hrq & Hok). rewrite Hrq. destruct orq as [rq|].
  - destruct (Hok rq eq_refl) as [Hok' _]. destruct (complete_spec frame rq Hok' Huf) as (frame' & -> & Hc).
    eexists. split; [done|]. right. exists bs, frame, rq, frame'. split; [done|]. split; [|done]. split; [done|eauto].
  - eexists. split; [done|]. left. split; [done|]. intros bs' frame' rq E' (Hb & h' & Hh' & _ & Hr).
    destruct (Hinj _ _ E' Hb) as [-> ->]. congruence.
Qed.

(** A guest cannot make the host panic with an offload request, and the
    host does what the request says: it returns for every packet of bytes; a
    packet that does not ask for a checksum is forwarded as it is; one that does
    keeps its header, its length and every byte outside the checksum field, and
    a TCP or UDP segment whose field is at an even offset sums, with the
    pseudo-header, to zero in ones' complement, a UDP checksum never being the
    zero that means none. *)
Theorem offload_completes_checksum packet :
  Forall in_u8 packet →
  ∃ packet', finalize_virtio_net_checksum packet = Some packet' ∧ finalized packet packet' ∧
    len packet' = len packet ∧ Forall in_u8 packet'.
Proof.
  intros Hu. destruct (finalize_spec packet Hu) as (packet' & Hf & Hs). exists packet'.
  split; [done|]. split; [done|]. destruct Hs as [[-> _]|(bs & frame & rq & frame' & -> & _ & _ & -> & Hc)]; [done|].
  apply Forall_app in Hu as [Hub _]. split; [|by apply Forall_app; split; [|apply Hc]].
  pose proof (cp_len _ _ _ Hc) as Hl. unfold len in *. rewrite !length_app. lia.
Qed.
End offload.

(** ** The header's round trip *)

Lemma to_bytes_from_bytes h rest :
  from_bytes (to_bytes h ++ rest) = Some h.
Proof.
  destruct h. unfold to_bytes, to_le16, from_bytes, be16. cbn -[Z.div Z.modulo Z.mul Z.add].
  do 2 f_equal; symmetry; rewrite (Z.mul_comm _ 256); apply Z.div_mod; done.
Qed.

(** A UDP datagram of nine bytes whose checksum the guest left to the host. *)
Definition ex_frame : list Z :=
  replicate 12 0 ++ [8; 0] ++ [0x45; 0; 0; 29; 0; 0; 0; 0; 64; 17; 0; 0; 10; 0; 0; 2; 10; 0; 0; 1] ++
  [0x30; 0x39; 0; 53; 0; 9; 0xab; 0xcd; 7].
Definition ex_packet : list Z := to_bytes (MkNetHeader 1 0 0 0 34 6 0) ++ ex_frame.

Lemma offload_completes_checksum_witness :
  asks 1 (to_bytes (MkNetHeader 1 0 0 0 34 6 0)) ex_frame (MkRequest 34 40 43) ∧
  ∃ packet', finalize_virtio_net_checksum Aarch64 1 ex_packet = Some packet' ∧ finalized 1 ex_packet packet' ∧
    len packet' = len ex_packet ∧ Forall in_u8 packet'.
Proof.
  split; [split; [done|eexists; split; [refine (to_bytes_from_bytes _ [])|by split]]|].
  apply (offload_completes_checksum Aarch64 1 ex_packet).
  refine (bool_decide_eq_true_1 (Forall in_u8 ex_packet) _). vm_compute. reflexivity.
Defined.
End Csum.
