(* ===== verification/Mpmc.v ===== *)
(** * The multi-producer multi-consumer ring

    [src/common/arcbox-datapath/src/ring.rs], [MpmcRing]: a bounded queue that
    any number of threads use without a lock. Each access to a shared atomic, and
    each access to the data of a slot, is a step of its own; the threads' steps
    interleave in any order. Memory is sequentially consistent. An index out of
    range and the read of data never written are [None]. *)

From Stdlib Require Import ZArith Lia.
From stdpp Require Import base numbers list gmap.
From S2P Require Import Prelude Bits.

Open Scope Z_scope.

Module Mpmc.

(** [usize] has 64 bits; a cast to [isize]. *)
Definition as_isize (z : Z) : Z := if z <? 2 ^ 63 then z else z - u64_bound.

(** [next_power_of_two] of [lib.rs]. *)
Definition smear (k n : Z) : Z := Z.lor n (Z.shiftr n k).
Definition next_power_of_two (n : Z) : Z :=
  if n =? 0 then 1
  else wrap64 (smear 32 (smear 16 (smear 8 (smear 4 (smear 2 (smear 1 (n - 1)))))) + 1).

(** Smearing the top bit [l] over the bits below it. *)
Definition smeared (l w y : Z) : Prop :=
  (∀ i, 0 ≤ i → l - w < i ≤ l → Z.testbit y i = true) ∧ (∀ i, l < i → Z.testbit y i = false).

Lemma smear_step l w y : 0 ≤ w → smeared l w y → smeared l (w + w) (smear w y).
Proof.
  intros Hw [H1 H2]. unfold smear. split; intros i.
  - intros Hi Hl. rewrite Z.lor_spec, Z.shiftr_spec by lia. destruct (Z.lt_ge_cases (l - w) i).
    + by rewrite H1 by lia.
    + rewrite (H1 (i + w)) by lia. apply orb_true_r.
  - intros Hl. destruct (Z.lt_ge_cases i 0) as [Hi|Hi]; [by rewrite !Z.testbit_neg_r|].
    rewrite Z.lor_spec, Z.shiftr_spec, !H2 by lia. done.
Qed.

Lemma next_power_of_two_pow n :
  2 ≤ n ≤ 2 ^ 62 → ∃ k, 1 ≤ k ≤ 62 ∧ next_power_of_two n = 2 ^ k ∧ n ≤ 2 ^ k < 2 * n.
Proof.
  intros Hn. set (l := Z.log2 (n - 1)). exists (l + 1).
  assert (0 ≤ l) by apply Z.log2_nonneg. assert (2 ^ l ≤ n - 1 < 2 ^ (l + 1)) as Hl.
  { apply Z.log2_spec. lia. }
  assert (l < 62) by (apply Z.log2_lt_pow2; lia).
  assert (smeared l 1 (n - 1)) as S1.
  { split; intros i.
    - intros Hi Hil. assert (i = l) as -> by lia. apply Z.bit_log2. lia.
    - intros Hi. by apply Z.bits_above_log2; [lia|]. }
  set (y := smear 32 (smear 16 (smear 8 (smear 4 (smear 2 (smear 1 (n - 1))))))).
  assert (smeared l 64 y) as Sy.
  { apply (smear_step l 32), (smear_step l 16), (smear_step l 8), (smear_step l 4), (smear_step l 2), (smear_step l 1); lia || done. }
  assert (y = Z.ones (l + 1)) as Hy.
  { destruct Sy as [T1 T2]. apply Z.bits_inj'. intros i Hi. destruct (Z.le_gt_cases i l).
    - by rewrite T1, Z.ones_spec_low by lia.
    - by rewrite T2, Z.ones_spec_high by lia. }
  split; [lia|]. split; [|rewrite Z.pow_add_r in * by lia; lia].
  unfold next_power_of_two. rewrite (proj2 (Z.eqb_neq n 0)) by lia. fold y.
  rewrite Hy, Z.ones_equiv. replace (Z.pred (2 ^ (l + 1)) + 1) with (2 ^ (l + 1)) by lia.
  apply Z.mod_small. split; [lia|]. apply Z.pow_lt_mono_r; lia.
Qed.

Section ring.
Context {A : Type}.

(** [slot_data] is [None] while it is uninitialised. *)
Record MpmcSlot := MkSlot { slot_seq : Z; slot_data : option A }.

Record MpmcRing := MkRing {
  buffer : list MpmcSlot;
  capacity : Z;
  mask : Z;
  head : Z;
  tail : Z
}.
#[export] Instance eta_MpmcRing : Eta MpmcRing := {|
  eta r := MkRing (buffer r) (capacity r) (mask r) (head r) (tail r); eta_ok := ltac:(by intros [])
|}.

(** The assertion on the capacity panics. *)
Definition new_ring (capacity : Z) : option MpmcRing :=
  if capacity =? 0 then None
  else
    let capacity := next_power_of_two capacity in
    Some (MkRing ((λ i, MkSlot (Z.of_nat i) None) <$> seq 0 (Z.to_nat capacity))
      capacity (capacity - 1) 0 0).

(** [len]: the two loads, with no step of another thread between them. *)
Definition ring_len (r : MpmcRing) : Z := wrap64 (head r - tail r).

(** Where a call of [enqueue] or [dequeue] stands: the step it does next, with
    its locals. *)
Inductive Pc :=
| ELoad (item : A)
| ELoop (item : A) (head : Z)
| ECas (item : A) (head : Z)
| EWrite (item : A) (head : Z)
| EPublish (item : A) (head : Z)
| DLoad
| DLoop (tail : Z)
| DCas (tail : Z)
| DRead (tail : Z)
| DPublish (tail : Z) (item : A).

(** What a call returns; a success carries its position in the queue. *)
Inductive Ret := Enqueued (head : Z) (item : A) | Full (item : A) | Dequeued (tail : Z) (item : A) | Empty.

Definition slot_index (r : MpmcRing) (pos : Z) : nat := Z.to_nat (Z.land pos (mask r)).
Definition put_slot (r : MpmcRing) (pos : Z) (s : MpmcSlot) : MpmcRing :=
  r <| buffer := <[slot_index r pos := s]> (buffer r) |>.

(** The sign of [(a as isize).wrapping_sub(b as isize)]. *)
Definition diff_cmp (a b : Z) : comparison := as_isize (wrap64 (as_isize a - as_isize b)) ?= 0.

(** One step of a call. [weak] makes [compare_exchange_weak] fail for no reason. *)
Definition ring_step (r : MpmcRing) (pc : Pc) (weak : bool) : option (MpmcRing * (Pc + Ret)) :=
  match pc with
  | ELoad item => Some (r, inl (ELoop item (head r)))
  | ELoop item h =>
      s ← buffer r !! slot_index r h;
      Some (r, match diff_cmp (slot_seq s) h with
               | Eq => inl (ECas item h)
               | Lt => inr (Full item)
               | Gt => inl (ELoad item)
               end)
  | ECas item h =>
      if (head r =? h) && negb weak
      then Some (r <| head := wrap64 (h + 1) |>, inl (EWrite item h))
      else Some (r, inl (ELoop item (head r)))
  | EWrite item h =>
      s ← buffer r !! slot_index r h;
      Some (put_slot r h (MkSlot (slot_seq s) (Some item)), inl (EPublish item h))
  | EPublish item h =>
      s ← buffer r !! slot_index r h;
      Some (put_slot r h (MkSlot (wrap64 (h + 1)) (slot_data s)), inr (Enqueued h item))
  | DLoad => Some (r, inl (DLoop (tail r)))
  | DLoop t =>
      s ← buffer r !! slot_index r t;
      Some (r, match diff_cmp (slot_seq s) (wrap64 (t + 1)) with
               | Eq => inl (DCas t)
               | Lt => inr Empty
               | Gt => inl DLoad
               end)
  | DCas t =>
      if (tail r =? t) && negb weak
      then Some (r <| tail := wrap64 (t + 1) |>, inl (DRead t))
      else Some (r, inl (DLoop (tail r)))
  | DRead t =>
      s ← buffer r !! slot_index r t;
      item ← slot_data s;
      Some (r, inl (DPublish t item))
  | DPublish t item =>
      s ← buffer r !! slot_index r t;
      Some (put_slot r t (MkSlot (wrap64 (t + capacity r)) (slot_data s)), inr (Dequeued t item))
  end.

(** ** Tickets

    A ring of capacity [cap] with its counters: position [n] of the queue lives in
    slot [n mod cap]. *)

Definition writer (pc : Pc) : option Z :=
  match pc with EWrite _ h | EPublish _ h => Some h | _ => None end.
Definition reader (pc : Pc) : option Z :=
  match pc with DRead t | DPublish t _ => Some t | _ => None end.

Definition owned (f : Pc → option Z) (pcs : gmap nat Pc) (n : Z) : Prop :=
  ∃ tid pc, pcs !! tid = Some pc ∧ f pc = Some n.

(** The value enqueued at a position. *)
Definition at_pos (hist : list A) (n : Z) : option A := if n <? 0 then None else hist !! Z.to_nat n.

(** What a slot is to the queue: free for a position not yet handed out, claimed
    by a producer, filled, or taken by a consumer that has not released it. *)
Inductive slot_is (r : MpmcRing) (hist : list A) (pcs : gmap nat Pc) (n : Z) (s : MpmcSlot) : Prop :=
| SFree : slot_seq s = n → head r ≤ n < tail r + capacity r → slot_is r hist pcs n s
| SClaimed : slot_seq s = n → tail r ≤ n < head r → owned writer pcs n → slot_is r hist pcs n s
| SFilled : slot_seq s = n + 1 → tail r ≤ n < head r → slot_data s = at_pos hist n → slot_is r hist pcs n s
| STaken : slot_seq s = n + 1 → 0 ≤ n < tail r → head r ≤ n + capacity r → slot_data s = at_pos hist n →
    owned reader pcs n → slot_is r hist pcs n s.

Definition slot_at (r : MpmcRing) (n : Z) : option MpmcSlot := buffer r !! Z.to_nat (n mod capacity r).

(** What a call relies on at each of its steps. *)
Definition pc_ok (r : MpmcRing) (hist : list A) (pc : Pc) : Prop :=
  match pc with
  | ELoad _ | DLoad => True
  | ELoop _ h => 0 ≤ h ≤ head r
  | ECas _ h => 0 ≤ h ≤ head r ∧ ∃ s, slot_at r h = Some s ∧ h ≤ slot_seq s
  | EWrite item h => 0 ≤ h < head r ∧ at_pos hist h = Some item ∧ ∃ s, slot_at r h = Some s ∧ slot_seq s = h
  | EPublish item h =>
      0 ≤ h < head r ∧ at_pos hist h = Some item ∧ ∃ s, slot_at r h = Some s ∧ slot_seq s = h ∧ slot_data s = at_pos hist h
  | DLoop t => 0 ≤ t ≤ tail r
  | DCas t => 0 ≤ t ≤ tail r ∧ ∃ s, slot_at r t = Some s ∧ t + 1 ≤ slot_seq s
  | DRead t => 0 ≤ t < tail r ∧ ∃ s, slot_at r t = Some s ∧ slot_seq s = t + 1
  | DPublish t item =>
      0 ≤ t < tail r ∧ at_pos hist t = Some item ∧ ∃ s, slot_at r t = Some s ∧ slot_seq s = t + 1
  end.

Definition unique_owner (f : Pc → option Z) (pcs : gmap nat Pc) : Prop :=
  ∀ a b pa pb n, pcs !! a = Some pa → pcs !! b = Some pb → f pa = Some n → f pb = Some n → a = b.

Record ring_ok (r : MpmcRing) (hist : list A) (pcs : gmap nat Pc) : Prop := {
  ro_cap : ∃ k, 1 ≤ k ∧ capacity r = 2 ^ k;
  ro_mask : mask r = capacity r - 1;
  ro_len : Z.of_nat (length (buffer r)) = capacity r;
  ro_order : 0 ≤ tail r ≤ head r;
  ro_room : head r ≤ tail r + capacity r;
  ro_hist : Z.of_nat (length hist) = head r;
  ro_slots : ∀ n s, 0 ≤ n < capacity r → slot_at r n = Some s →
    ∃ m, 0 ≤ m ∧ m mod capacity r = n ∧ slot_is r hist pcs m s;
  ro_pcs : ∀ tid pc, pcs !! tid = Some pc → pc_ok r hist pc;
  ro_writers : unique_owner writer pcs;
  ro_readers : unique_owner reader pcs
}.

(** The counters are far from wrapping. *)
Definition room64 (r : MpmcRing) : Prop := head r + capacity r + 1 < 2 ^ 63.

Lemma cap_pos r hist pcs : ring_ok r hist pcs → 2 ≤ capacity r.
Proof.
  intros Hr. destruct (ro_cap _ _ _ Hr) as (k & Hk & ->). change 2 with (2 ^ 1) at 1. apply Z.pow_le_mono_r; lia.
Qed.

Lemma slot_index_at r hist pcs n :
  ring_ok r hist pcs → slot_index r n = Z.to_nat (n mod capacity r).
Proof.
  intros Hr. unfold slot_index. rewrite (ro_mask _ _ _ Hr). destruct (ro_cap _ _ _ Hr) as (k & Hk & ->).
  by rewrite land_low by lia.
Qed.

Lemma slot_at_Some r hist pcs n : ring_ok r hist pcs → ∃ s, slot_at r n = Some s.
Proof.
  intros Hr. pose proof (cap_pos _ _ _ Hr). pose proof (ro_len _ _ _ Hr).
  pose proof (Z.mod_pos_bound n (capacity r)).
  destruct (lookup_lt_is_Some_2 (buffer r) (Z.to_nat (n mod capacity r))) as [s Hs]; [lia|by exists s].
Qed.

(** The state of the slot of position [n], as the slot's own position [m]. *)
Lemma slot_state r hist pcs n s :
  ring_ok r hist pcs → slot_at r n = Some s →
  ∃ m, 0 ≤ m ∧ m mod capacity r = n mod capacity r ∧ slot_is r hist pcs m s.
Proof.
  intros Hr Hs. pose proof (cap_pos _ _ _ Hr). apply (ro_slots _ _ _ Hr).
  - apply Z.mod_pos_bound. lia.
  - unfold slot_at in *. by rewrite Z.mod_mod by lia.
Qed.

(** Positions of one slot are apart by multiples of the capacity. *)
Lemma same_slot c m n : 0 < c → m mod c = n mod c → ∃ q, m = n + q * c.
Proof. intros Hc He. exists (m / c - n / c). pose proof (Z.div_mod m c). pose proof (Z.div_mod n c). lia. Qed.

Lemma same_slot_eq c m n : 0 < c → m mod c = n mod c → n - c < m < n + c → m = n.
Proof. intros Hc He Hb. destruct (same_slot c m n Hc He) as [q ->]. assert (-1 < q < 1) by nia. assert (q = 0) as -> by lia. lia. Qed.

(** A slot's counter tells its state for the position that reads it. *)
Lemma seq_here r hist pcs n s :
  ring_ok r hist pcs → slot_at r n = Some s → slot_seq s = n → slot_is r hist pcs n s.
Proof.
  intros Hr Hs Hn. pose proof (cap_pos _ _ _ Hr). destruct (slot_state _ _ _ _ _ Hr Hs) as (m & Hm & He & Hst).
  assert (m = n) as <-; [|done]. destruct Hst; [lia|lia| |];
    (apply (same_slot_eq (capacity r)); [lia|done|lia]).
Qed.

Lemma seq_after r hist pcs n s :
  ring_ok r hist pcs → slot_at r n = Some s → slot_seq s = n + 1 → slot_is r hist pcs n s.
Proof.
  intros Hr Hs Hn. pose proof (cap_pos _ _ _ Hr). destruct (slot_state _ _ _ _ _ Hr Hs) as (m & Hm & He & Hst).
  assert (m = n) as <-; [|done]. destruct Hst; [| |lia|lia];
    (apply (same_slot_eq (capacity r)); [lia|done|lia]).
Qed.

(** A producer that read a counter not behind the head finds the slot free when
    the head has not moved; a consumer finds it filled. *)
Lemma free_at_head r hist pcs s :
  ring_ok r hist pcs → slot_at r (head r) = Some s → head r ≤ slot_seq s → slot_seq s = head r.
Proof.
  intros Hr Hs Hn. pose proof (cap_pos _ _ _ Hr). pose proof (ro_room _ _ _ Hr). pose proof (ro_order _ _ _ Hr).
  destruct (slot_state _ _ _ _ _ Hr Hs) as (m & Hm & He & Hst).
  assert (head r - 2 < m → m = head r) as Heq.
  { intros Hlt. apply (same_slot_eq (capacity r)); [lia|done|]. destruct Hst; lia. }
  destruct Hst; lia.
Qed.

Lemma filled_at_tail r hist pcs s :
  ring_ok r hist pcs → slot_at r (tail r) = Some s → tail r + 1 ≤ slot_seq s →
  slot_seq s = tail r + 1 ∧ tail r < head r ∧ slot_data s = at_pos hist (tail r).
Proof.
  intros Hr Hs Hn. pose proof (cap_pos _ _ _ Hr). pose proof (ro_room _ _ _ Hr). pose proof (ro_order _ _ _ Hr).
  destruct (slot_state _ _ _ _ _ Hr Hs) as (m & Hm & He & Hst).
  assert (tail r - 1 < m < tail r + capacity r → m = tail r) as Heq.
  { intros Hlt. apply (same_slot_eq (capacity r)); [lia|done|lia]. }
  destruct Hst as [?|?|?? Hd|]; [lia|lia| |lia].
  assert (m = tail r) as -> by lia. auto with lia.
Qed.

(** ** Threads *)

Definition ticket (pc : Pc) : option Z := match writer pc with Some n => Some n | None => reader pc end.

Lemma ticket_seq r hist pc k :
  pc_ok r hist pc → ticket pc = Some k →
  ∃ s, slot_at r k = Some s ∧
    ((writer pc = Some k ∧ slot_seq s = k) ∨ (reader pc = Some k ∧ slot_seq s = k + 1)).
Proof.
  unfold ticket. destruct pc; simpl; intros Hok Hk; try discriminate Hk; injection Hk as ->.
  - destruct Hok as (_ & _ & s & ? & ?). exists s. split; [done|by left].
  - destruct Hok as (_ & _ & s & ? & ? & _). exists s. split; [done|by left].
  - destruct Hok as (_ & s & ? & ?). exists s. split; [done|by right].
  - destruct Hok as (_ & _ & s & ? & ?). exists s. split; [done|by right].
Qed.

(** Two calls never hold positions of one slot. *)
Lemma tickets_apart r hist pcs a b pa pb n m :
  ring_ok r hist pcs → pcs !! a = Some pa → pcs !! b = Some pb → a ≠ b →
  ticket pa = Some n → ticket pb = Some m → n mod capacity r ≠ m mod capacity r.
Proof.
  intros Hr Ha Hb Hne Hn Hm He. pose proof (cap_pos _ _ _ Hr).
  pose proof (ro_pcs _ _ _ Hr _ _ Ha) as Oa. pose proof (ro_pcs _ _ _ Hr _ _ Hb) as Ob.
  destruct (ticket_seq _ _ _ _ Oa Hn) as (s & Hs & Ca). destruct (ticket_seq _ _ _ _ Ob Hm) as (s' & Hs' & Cb).
  assert (s' = s) as -> by (unfold slot_at in *; congruence).
  assert (n = m) as <-.
  { apply (same_slot_eq (capacity r)); [lia|done|]. destruct Ca as [[_ Ca]|[_ Ca]], Cb as [[_ Cb]|[_ Cb]]; lia. }
  destruct Ca as [[Wa Ca]|[Ra Ca]], Cb as [[Wb Cb]|[Rb Cb]]; [| lia | lia |].
  - by apply Hne, (ro_writers _ _ _ Hr a b pa pb n).
  - by apply Hne, (ro_readers _ _ _ Hr a b pa pb n).
Qed.

(** The counters and slots only move forward. *)
Record ring_le (r r' : MpmcRing) : Prop := {
  rl_cap : capacity r' = capacity r;
  rl_head : head r ≤ head r';
  rl_tail : tail r ≤ tail r';
  rl_slots : ∀ n s, slot_at r n = Some s → ∃ s', slot_at r' n = Some s' ∧ slot_seq s ≤ slot_seq s'
}.

Lemma ring_le_counters r r' :
  buffer r' = buffer r → capacity r' = capacity r → head r ≤ head r' → tail r ≤ tail r' → ring_le r r'.
Proof.
  intros Hb Hc Hh Ht. split; try done. intros n s. unfold slot_at. rewrite Hb, Hc. intros Hs. by exists s.
Qed.

Lemma pc_ok_mono r r' hist hist' pc :
  ring_le r r' → (∀ n, 0 ≤ n < head r → at_pos hist' n = at_pos hist n) →
  0 ≤ tail r ≤ head r →
  (∀ n, ticket pc = Some n → slot_at r' n = slot_at r n) → pc_ok r hist pc → pc_ok r' hist' pc.
Proof.
  intros [Hc Hh Ht Hs] Hp Ho Hown. destruct pc; simpl in *; try done; try lia.
  - intros (? & s & H1 & H2). destruct (Hs _ _ H1) as (s' & ? & ?). split; [lia|]. exists s'. split; [done|lia].
  - intros (? & ? & s & ? & ?). rewrite Hp, (Hown _ eq_refl) by done. split; [lia|]. eauto.
  - intros (? & s & ? & ? & ?). rewrite Hp, (Hown _ eq_refl) by done. split; [lia|]. eauto.
  - intros (? & s & H1 & H2). destruct (Hs _ _ H1) as (s' & ? & ?). split; [lia|]. exists s'. split; [done|lia].
  - intros (? & s & ? & ?). rewrite (Hown _ eq_refl). split; [lia|]. eauto.
  - intros (? & ? & s & ? & ?). rewrite Hp, (Hown _ eq_refl) by lia. split; [lia|]. eauto.
Qed.

(** The call [tid] moves on to [o]. *)
Definition moved (pcs : gmap nat Pc) (tid : nat) (o : Pc + Ret) : gmap nat Pc :=
  match o with inl pc => <[tid := pc]> pcs | inr _ => delete tid pcs end.

Definition owner_of (f : Pc → option Z) (o : Pc + Ret) : option Z :=
  match o with inl pc => f pc | inr _ => None end.

Lemma owned_moved f pcs tid pc o n :
  pcs !! tid = Some pc → owned f pcs n → f pc ≠ Some n ∨ owner_of f o = Some n → owned f (moved pcs tid o) n.
Proof.
  intros Ht (a & pa & Ha & Hf) Hc. destruct (decide (a = tid)) as [->|Hne].
  - rewrite Ht in Ha. simplify_eq. destruct Hc as [|Hc]; [done|]. destruct o as [pc'|]; [|done].
    exists tid, pc'. simpl. by rewrite lookup_insert_eq.
  - exists a, pa. split; [|done]. destruct o; simpl; [by rewrite lookup_insert_ne|by rewrite lookup_delete_ne].
Qed.

Lemma unique_moved f pcs tid pc o :
  pcs !! tid = Some pc → unique_owner f pcs →
  (∀ n, owner_of f o = Some n → f pc = Some n ∨ ¬ owned f pcs n) → unique_owner f (moved pcs tid o).
Proof.
  intros Ht Hu Ho.
  assert (∀ x px k, moved pcs tid o !! x = Some px → f px = Some k →
    (x = tid ∧ owner_of f o = Some k) ∨ (x ≠ tid ∧ pcs !! x = Some px)) as Hx.
  { intros x px k Hx Hk. destruct o as [pc'|]; simpl in *.
    - apply lookup_insert_Some in Hx as [[<- <-]|[? ?]]; [by left|by right].
    - apply lookup_delete_Some in Hx as [? ?]. by right. }
  intros a b pa pb n Ha Hb Fa Fb.
  destruct (Hx _ _ _ Ha Fa) as [[-> Oa]|[Na La]], (Hx _ _ _ Hb Fb) as [[-> Ob]|[Nb Lb]]; [done| | |eauto].
  - destruct (Ho n Oa) as [Hp|Hn]; [by apply (Hu tid b pc pb n)|]. destruct Hn. by exists b, pb.
  - destruct (Ho n Ob) as [Hp|Hn]; [by apply (Hu a tid pa pc n)|]. destruct Hn. by exists a, pa.
Qed.

(** Every other call keeps what it relies on when only slots it does not hold
    change. *)
Lemma others_ok r r' hist hist' pcs tid pc o :
  ring_ok r hist pcs → pcs !! tid = Some pc → ring_le r r' →
  (∀ n, 0 ≤ n < head r → at_pos hist' n = at_pos hist n) →
  (∀ n, (∀ h, ticket pc = Some h → n mod capacity r ≠ h mod capacity r) → slot_at r' n = slot_at r n) →
  (∀ pc', o = inl pc' → pc_ok r' hist' pc') →
  ∀ a pa, moved pcs tid o !! a = Some pa → pc_ok r' hist' pa.
Proof.
  intros Hr Ht Hle Hh Hs Ho a pa Ha.
  assert ((a = tid ∧ o = inl pa) ∨ (a ≠ tid ∧ pcs !! a = Some pa)) as [[-> ->]|[Hne La]]; [|by apply Ho|].
  { destruct o as [pc'|]; simpl in Ha.
    - apply lookup_insert_Some in Ha as [[<- <-]|[? ?]]; auto.
    - apply lookup_delete_Some in Ha as [? ?]; auto. }
  apply (pc_ok_mono r r' hist hist' pa); [done|done|apply (ro_order _ _ _ Hr)| |apply (ro_pcs _ _ _ Hr _ _ La)].
  intros n Hn. apply Hs. intros h Hh'. by apply (tickets_apart r hist pcs a tid pa pc n h).
Qed.

Lemma slot_at_put r hist pcs h s n :
  ring_ok r hist pcs →
  slot_at (put_slot r h s) n = if decide (n mod capacity r = h mod capacity r) then Some s else slot_at r n.
Proof.
  intros Hr. pose proof (cap_pos _ _ _ Hr). pose proof (ro_len _ _ _ Hr).
  pose proof (Z.mod_pos_bound n (capacity r)). pose proof (Z.mod_pos_bound h (capacity r)).
  unfold slot_at, put_slot. rewrite (slot_index_at _ _ _ _ Hr).
  change (capacity (r <| buffer := _ |>)) with (capacity r). change (buffer (r <| buffer := ?b |>)) with b.
  destruct (decide (n mod capacity r = h mod capacity r)) as [->|Hne].
  - apply list_lookup_insert_eq. lia.
  - apply list_lookup_insert_ne. lia.
Qed.

Lemma at_pos_app hist hist' n : n < Z.of_nat (length hist) → at_pos (hist ++ hist') n = at_pos hist n.
Proof. intros Hn. unfold at_pos. destruct (Z.ltb_spec n 0); [done|]. apply lookup_app_l. lia. Qed.

Lemma at_pos_below hist n x : at_pos hist n = Some x → 0 ≤ n < Z.of_nat (length hist).
Proof. unfold at_pos. destruct (Z.ltb_spec n 0); [done|]. intros Hx%lookup_lt_Some. lia. Qed.

Lemma at_pos_snoc hist x : at_pos (hist ++ [x]) (Z.of_nat (length hist)) = Some x.
Proof.
  unfold at_pos. destruct (Z.ltb_spec (Z.of_nat (length hist)) 0); [lia|]. rewrite Nat2Z.id.
  by apply list_lookup_middle.
Qed.

(** ** The steps *)

(** The ring is left alone. *)
Lemma stay_ok r hist pcs tid pc o :
  ring_ok r hist pcs → pcs !! tid = Some pc → owner_of writer o = writer pc → owner_of reader o = reader pc →
  (∀ pc', o = inl pc' → pc_ok r hist pc') → ring_ok r hist (moved pcs tid o).
Proof.
  intros Hr Ht Hw Hd Ho. destruct (Hr) as [H1 H2 H3 H4 H5 H6 Hslots Hpcs Hwr Hrd]. split; try done.
  - intros n s Hn Hs. destruct (Hslots n s Hn Hs) as (m & Hm & He & Hst). exists m. split; [done|]. split; [done|].
    destruct Hst; [by apply SFree|apply SClaimed; try done|by apply SFilled|apply STaken; try done].
    + eapply owned_moved; [done|done|]. rewrite Hw. destruct (decide (writer pc = Some m)); auto.
    + eapply owned_moved; [done|done|]. rewrite Hd. destruct (decide (reader pc = Some m)); auto.
  - eapply others_ok; try done. by apply ring_le_counters.
  - eapply unique_moved; [done|done|]. rewrite Hw. auto.
  - eapply unique_moved; [done|done|]. rewrite Hd. auto.
Qed.

(** Reads of updated fields. *)
Ltac ring_fields :=
  repeat match goal with
  | |- context [head (?r <| head := ?v |>)] => change (head (r <| head := v |>)) with v
  | |- context [tail (?r <| head := ?v |>)] => change (tail (r <| head := v |>)) with (tail r)
  | |- context [capacity (?r <| head := ?v |>)] => change (capacity (r <| head := v |>)) with (capacity r)
  | |- context [head (?r <| tail := ?v |>)] => change (head (r <| tail := v |>)) with (head r)
  | |- context [tail (?r <| tail := ?v |>)] => change (tail (r <| tail := v |>)) with v
  | |- context [capacity (?r <| tail := ?v |>)] => change (capacity (r <| tail := v |>)) with (capacity r)
  | |- context [head (put_slot ?r ?h ?s)] => change (head (put_slot r h s)) with (head r)
  | |- context [tail (put_slot ?r ?h ?s)] => change (tail (put_slot r h s)) with (tail r)
  | |- context [capacity (put_slot ?r ?h ?s)] => change (capacity (put_slot r h s)) with (capacity r)
  end.

Lemma owned_below r hist pcs f n :
  ring_ok r hist pcs → (f = writer ∨ f = reader) → owned f pcs n → n < head r.
Proof.
  intros Hr Hf (a & pa & Ha & Hn). pose proof (ro_pcs _ _ _ Hr _ _ Ha) as Ho. pose proof (ro_order _ _ _ Hr).
  destruct Hf as [-> | ->], pa; simpl in *; simplify_eq; lia.
Qed.

(** [compare_exchange] of the head: the slot is claimed. *)
Lemma claim_ok r hist pcs tid item :
  ring_ok r hist pcs → pcs !! tid = Some (ECas item (head r)) →
  ring_ok (r <| head := head r + 1 |>) (hist ++ [item]) (<[tid := EWrite item (head r)]> pcs).
Proof.
  intros Hr Ht. destruct (Hr) as [H1 H2 H3 H4 H5 H6 Hslots Hpcs Hwr Hrd].
  destruct (Hpcs _ _ Ht) as (_ & s0 & Hs0 & Hle). pose proof (free_at_head _ _ _ _ Hr Hs0 Hle) as Hfree.
  pose proof (seq_here _ _ _ _ _ Hr Hs0 Hfree) as Hst0. pose proof (cap_pos _ _ _ Hr).
  assert (head r < tail r + capacity r) as Hroom by (destruct Hst0; lia).
  assert (∀ n, 0 ≤ n < head r → at_pos (hist ++ [item]) n = at_pos hist n) as Hpre.
  { intros n Hn. apply at_pos_app. lia. }
  assert (at_pos (hist ++ [item]) (head r) = Some item) as Hitem by (rewrite <- H6; apply at_pos_snoc).
  change (<[tid := EWrite item (head r)]> pcs) with (moved pcs tid (inl (EWrite item (head r)))).
  split; try done; ring_fields; [lia|lia|rewrite length_app; simpl; lia| | | |].
  - intros n s Hn Hs. change (slot_at (r <| head := head r + 1 |>) n) with (slot_at r n) in Hs.
    destruct (decide (n = head r mod capacity r)) as [->|Hne].
    { assert (s = s0) as -> by (unfold slot_at in *; rewrite Z.mod_mod in Hs by lia; congruence).
      exists (head r). split; [lia|]. split; [done|]. apply SClaimed; ring_fields; [done|lia|].
      exists tid, (EWrite item (head r)). simpl. by rewrite lookup_insert_eq. }
    destruct (Hslots n s Hn Hs) as (m & Hm & He & Hst). exists m. split; [done|]. split; [done|].
    assert (m ≠ head r) by congruence. assert (m + capacity r ≠ head r).
    { intros E. apply Hne. rewrite <- E, <- He. by rewrite <- (Z.mul_1_l (capacity r)) at 2; rewrite Z.mod_add by lia. }
    destruct Hst as [|? ? Ow|?? Hd|??? Hd Ow]; [apply SFree|apply SClaimed|apply SFilled|apply STaken];
      ring_fields; try done; try lia; try (by rewrite Hpre by lia);
      by eapply owned_moved; [done|done|left].
  - eapply others_ok; [done|done|apply ring_le_counters; ring_fields; try done; lia|done|done|].
    intros pc' [= <-]. simpl. ring_fields. split; [lia|]. split; [done|]. by exists s0.
  - eapply unique_moved; [done|done|]. intros n [= <-]. right. intros Ow.
    pose proof (owned_below _ _ _ _ _ Hr (or_introl eq_refl) Ow). lia.
  - eapply unique_moved; [done|done|]. by intros n [=].
Qed.

(** [compare_exchange] of the tail: the slot is taken. *)
Lemma take_ok r hist pcs tid :
  ring_ok r hist pcs → pcs !! tid = Some (DCas (tail r)) →
  tail r < head r ∧ ring_ok (r <| tail := tail r + 1 |>) hist (<[tid := DRead (tail r)]> pcs).
Proof.
  intros Hr Ht. destruct (Hr) as [H1 H2 H3 H4 H5 H6 Hslots Hpcs Hwr Hrd].
  destruct (Hpcs _ _ Ht) as (_ & s0 & Hs0 & Hle).
  destruct (filled_at_tail _ _ _ _ Hr Hs0 Hle) as (Hfull & Hlt & Hdata). pose proof (cap_pos _ _ _ Hr).
  change (<[tid := DRead (tail r)]> pcs) with (moved pcs tid (inl (DRead (tail r)))).
  split; [done|]. split; try done; ring_fields; [lia|lia| | | |].
  - intros n s Hn Hs. change (slot_at (r <| tail := tail r + 1 |>) n) with (slot_at r n) in Hs.
    destruct (decide (n = tail r mod capacity r)) as [->|Hne].
    { assert (s = s0) as -> by (unfold slot_at in *; rewrite Z.mod_mod in Hs by lia; congruence).
      exists (tail r). split; [lia|]. split; [done|]. apply STaken; ring_fields; [done|lia|lia|done|].
      exists tid, (DRead (tail r)). simpl. by rewrite lookup_insert_eq. }
    destruct (Hslots n s Hn Hs) as (m & Hm & He & Hst). exists m. split; [done|]. split; [done|].
    assert (m ≠ tail r) by congruence.
    destruct Hst as [|? ? Ow|?? Hd|??? Hd Ow]; [apply SFree|apply SClaimed|apply SFilled|apply STaken];
      ring_fields; try done; try lia; by eapply owned_moved; [done|done|left].
  - eapply others_ok; [done|done|apply ring_le_counters; ring_fields; try done; lia|done|done|].
    intros pc' [= <-]. simpl. ring_fields. split; [lia|]. by exists s0.
  - eapply unique_moved; [done|done|]. by intros n [=].
  - eapply unique_moved; [done|done|]. intros n [= <-]. right. intros (a & pa & Ha & Hn).
    pose proof (Hpcs _ _ Ha) as Ho. destruct pa; simpl in *; simplify_eq; lia.
Qed.

(** A step on the slot of a position the call holds. *)
Lemma held_slot_ok r hist pcs tid pc h s s' o :
  ring_ok r hist pcs → pcs !! tid = Some pc → ticket pc = Some h →
  slot_at r h = Some s → slot_seq s ≤ slot_seq s' →
  (∃ m, 0 ≤ m ∧ m mod capacity r = h mod capacity r ∧ slot_is (put_slot r h s') hist (moved pcs tid o) m s') →
  (∀ pc', o = inl pc' → pc_ok (put_slot r h s') hist pc') →
  (∀ n, owner_of writer o = Some n → writer pc = Some n) → (∀ n, owner_of reader o = Some n → reader pc = Some n) →
  ring_ok (put_slot r h s') hist (moved pcs tid o).
Proof.
  intros Hr Ht Htk Hs Hle Hst' Hpc Hw Hd. destruct (Hr) as [H1 H2 H3 H4 H5 H6 Hslots Hpcs Hwr Hrd].
  pose proof (cap_pos _ _ _ Hr). pose proof (λ n, slot_at_put r hist pcs h s' n Hr) as Hput.
  split; try done; ring_fields.
  - change (buffer (put_slot r h s')) with (<[slot_index r h := s']> (buffer r)). by rewrite length_insert.
  - intros n x Hn Hx. rewrite Hput in Hx. case_decide as Hc.
    { simplify_eq. rewrite (Z.mod_small n) in Hc by done. rewrite Hc. exact Hst'. }
    destruct (Hslots n x Hn Hx) as (m & Hm & He & Hst). exists m. split; [done|]. split; [done|].
    assert (∀ f, f pc = Some m → ticket pc = f pc → False) as Hno.
    { intros f Hf Htf. rewrite Htk, Hf in Htf. injection Htf as ->. apply Hc. rewrite <- He. by rewrite Z.mod_mod by lia. }
    destruct Hst as [|? ? Ow|?? Hdt|??? Hdt Ow]; [apply SFree|apply SClaimed|apply SFilled|apply STaken];
      ring_fields; try done; (eapply owned_moved; [done|done|left]); intros Hf.
    + apply (Hno writer Hf). unfold ticket. by rewrite Hf.
    + apply (Hno reader Hf). unfold ticket. destruct pc; by simplify_eq/=.
  - eapply others_ok; [done|done| |done| |done].
    + split; ring_fields; try done. intros n x Hx. rewrite Hput. case_decide as Hc; [|by exists x].
      assert (x = s) as -> by (unfold slot_at in *; rewrite Hc in Hx; congruence). by exists s'.
    + intros n Hn. rewrite Hput. case_decide as Hc; [|done]. by destruct (Hn h Htk).
  - eapply unique_moved; [done|done|]. intros n Hn. left. auto.
  - eapply unique_moved; [done|done|]. intros n Hn. left. auto.
Qed.

Lemma diff_cmp_small a b : 0 ≤ a < 2 ^ 63 → 0 ≤ b < 2 ^ 63 → diff_cmp a b = (a ?= b).
Proof.
  intros Ha Hb. unfold diff_cmp, as_isize at 2 3. rewrite !(proj2 (Z.ltb_lt _ _)) by lia.
  rewrite (Z.compare_sub a b). f_equal. unfold as_isize, wrap64, u64_bound.
  destruct (Z.le_gt_cases b a).
  - rewrite Z.mod_small by lia. by rewrite (proj2 (Z.ltb_lt _ _)) by lia.
  - rewrite <- (Z.mod_unique (a - b) (2 ^ 64) (-1) (a - b + 2 ^ 64)) by lia.
    rewrite (proj2 (Z.ltb_ge _ _)) by lia. lia.
Qed.

Lemma seq_bound r hist pcs n s : ring_ok r hist pcs → slot_at r n = Some s → 0 ≤ slot_seq s ≤ head r + capacity r.
Proof.
  intros Hr Hs. destruct (slot_state _ _ _ _ _ Hr Hs) as (m & Hm & _ & Hst). pose proof (ro_order _ _ _ Hr).
  pose proof (cap_pos _ _ _ Hr). destruct Hst; lia.
Qed.

(** What a step adds to the queue and takes from it. *)
Definition claimed (o : Pc + Ret) : list A := match o with inl (EWrite item _) => [item] | _ => [] end.
Definition taken (o : Pc + Ret) : Z := match o with inl (DRead _) => 1 | _ => 0 end.

(** What a call returns is about the position it held. *)
Definition ret_ok (hist : list A) (pc : Pc) (o : Pc + Ret) : Prop :=
  match o with
  | inr (Enqueued h item) => writer pc = Some h ∧ at_pos hist h = Some item
  | inr (Dequeued t item) => reader pc = Some t ∧ at_pos hist t = Some item
  | _ => True
  end.

Record stepped (r : MpmcRing) (hist : list A) (pcs : gmap nat Pc) (tid : nat) (pc : Pc) (r' : MpmcRing) (o : Pc + Ret)
    : Prop := {
  sp_ok : ring_ok r' (hist ++ claimed o) (moved pcs tid o);
  sp_cap : capacity r' = capacity r;
  sp_head : head r' = head r + Z.of_nat (length (claimed o));
  sp_tail : tail r' = tail r + taken o;
  sp_ret : ret_ok hist pc o
}.

Lemma stay_stepped r hist pcs tid pc o :
  ring_ok r hist pcs → pcs !! tid = Some pc → owner_of writer o = writer pc → owner_of reader o = reader pc →
  (∀ pc', o = inl pc' → pc_ok r hist pc') → claimed o = [] → taken o = 0 → ret_ok hist pc o →
  stepped r hist pcs tid pc r o.
Proof.
  intros Hr Ht Hw Hd Ho Hc Htk Hret. split; try done; rewrite ?Hc, ?Htk, ?app_nil_r; simpl; try lia. by eapply stay_ok.
Qed.

Ltac slot r n Hr s Hs :=
  rewrite ?(slot_index_at r _ _ n Hr); destruct (slot_at_Some r _ _ n Hr) as [s Hs];
  pose proof (seq_bound _ _ _ _ _ Hr Hs); unfold slot_at in Hs; rewrite ?Hs; fold (slot_at r n) in Hs; cbn [mbind option_bind].

Lemma enqueue_step_ok r hist pcs tid pc weak :
  ring_ok r hist pcs → room64 r → pcs !! tid = Some pc →
  match pc with ELoad _ | ELoop _ _ | ECas _ _ | EWrite _ _ | EPublish _ _ => True | _ => False end →
  ∃ r' o, ring_step r pc weak = Some (r', o) ∧ stepped r hist pcs tid pc r' o.
Proof.
  intros Hr Hroom Ht Hpc. pose proof (ro_pcs _ _ _ Hr _ _ Ht) as Hok. pose proof (ro_order _ _ _ Hr).
  pose proof (cap_pos _ _ _ Hr). unfold room64 in Hroom.
  destruct pc as [item|item h|item h|item h|item h| | | | |]; try done; cbn [ring_step]; simpl in Hok.
  - eexists _, _. split; [done|]. apply stay_stepped; try done. intros ? [= <-]. simpl. lia.
  - slot r h Hr s Hs. rewrite diff_cmp_small by lia.
    eexists _, _. split; [done|]. destruct (Z.compare_spec (slot_seq s) h) as [He|He|He]; apply stay_stepped; try done;
      intros ? [= <-]; simpl; [|done]. split; [done|]. exists s. split; [done|lia].
  - destruct (Z.eqb_spec (head r) h) as [<-|Hne]; cbn [andb].
    + destruct weak; cbn [negb].
      * eexists _, _. split; [done|]. apply stay_stepped; try done. intros ? [= <-]. simpl. lia.
      * unfold wrap64. rewrite Z.mod_small by (unfold u64_bound; lia).
        eexists _, _. split; [done|]. split; try done; cbn [taken]; ring_fields; try lia.
        by apply (claim_ok r hist pcs tid item).
    + eexists _, _. split; [done|]. apply stay_stepped; try done. intros ? [= <-]. simpl. lia.
  - destruct Hok as (Hh & Hi & s & Hs & Hseq). pose proof Hs as Hs'. unfold slot_at in Hs'.
    rewrite (slot_index_at r _ _ h Hr), Hs'. cbn [mbind option_bind].
    eexists _, _. split; [done|]. split; try done; cbn [claimed taken length]; ring_fields; try lia.
    rewrite app_nil_r. apply (held_slot_ok r hist pcs tid (EWrite item h) h s); try done.
    + exists h. split; [lia|]. split; [done|]. destruct (seq_here _ _ _ _ _ Hr Hs Hseq) as [|??Ow| |]; [lia| |lia|lia].
      apply SClaimed; ring_fields; [done|lia|]. eapply owned_moved; [done|done|by right].
    + intros ? [= <-]. simpl. ring_fields. split; [lia|]. rewrite (slot_at_put _ _ _ _ _ _ Hr), decide_True by done.
      split; [done|]. eexists. split; [done|]. by split.
  - destruct Hok as (Hh & Hi & s & Hs & Hseq & Hd). pose proof Hs as Hs'. unfold slot_at in Hs'.
    rewrite (slot_index_at r _ _ h Hr), Hs'. cbn [mbind option_bind].
    unfold wrap64. rewrite Z.mod_small by (unfold u64_bound; lia).
    eexists _, _. split; [done|]. split; try done; cbn [claimed taken length]; ring_fields; try lia.
    rewrite app_nil_r. apply (held_slot_ok r hist pcs tid (EPublish item h) h s); try done; [simpl; lia|].
    exists h. split; [lia|]. split; [done|]. destruct (seq_here _ _ _ _ _ Hr Hs Hseq) as [| | |]; [lia| |lia|lia].
    by apply SFilled.
Qed.

Lemma dequeue_step_ok r hist pcs tid pc weak :
  ring_ok r hist pcs → room64 r → pcs !! tid = Some pc →
  match pc with DLoad | DLoop _ | DCas _ | DRead _ | DPublish _ _ => True | _ => False end →
  ∃ r' o, ring_step r pc weak = Some (r', o) ∧ stepped r hist pcs tid pc r' o.
Proof.
  intros Hr Hroom Ht Hpc. pose proof (ro_pcs _ _ _ Hr _ _ Ht) as Hok. pose proof (ro_order _ _ _ Hr).
  pose proof (cap_pos _ _ _ Hr). unfold room64 in Hroom.
  destruct pc as [| | | | | |t|t|t|t item]; try done; cbn [ring_step]; simpl in Hok.
  - eexists _, _. split; [done|]. apply stay_stepped; try done. intros ? [= <-]. simpl. lia.
  - slot r t Hr s Hs. unfold wrap64. rewrite Z.mod_small by (unfold u64_bound; lia). rewrite diff_cmp_small by lia.
    eexists _, _. split; [done|]. destruct (Z.compare_spec (slot_seq s) (t + 1)) as [He|He|He]; apply stay_stepped; try done;
      intros ? [= <-]; simpl; [|done]. split; [done|]. exists s. split; [done|lia].
  - destruct (Z.eqb_spec (tail r) t) as [<-|Hne]; cbn [andb].
    + destruct weak; cbn [negb].
      * eexists _, _. split; [done|]. apply stay_stepped; try done. intros ? [= <-]. simpl. lia.
      * unfold wrap64. rewrite Z.mod_small by (unfold u64_bound; lia).
        eexists _, _. split; [done|]. split; try done; cbn [claimed length]; ring_fields; try lia.
        rewrite app_nil_r. by apply (take_ok r hist pcs tid).
    + eexists _, _. split; [done|]. apply stay_stepped; try done. intros ? [= <-]. simpl. lia.
  - destruct Hok as (Hh & s & Hs & Hseq). pose proof Hs as Hs'. unfold slot_at in Hs'.
    rewrite (slot_index_at r _ _ t Hr), Hs'. cbn [mbind option_bind].
    destruct (seq_after _ _ _ _ _ Hr Hs Hseq) as [| | |??? Hd _]; [lia|lia|lia|].
    destruct (at_pos hist t) as [x|] eqn:Hx.
    2: { exfalso. unfold at_pos in Hx. rewrite (proj2 (Z.ltb_ge _ _)) in Hx by lia. apply lookup_ge_None in Hx.
         pose proof (ro_hist _ _ _ Hr). lia. }
    rewrite Hd. eexists _, _. split; [done|]. apply stay_stepped; try done.
    intros ? [= <-]. simpl. split; [done|]. split; [done|]. by exists s.
  - destruct Hok as (Hh & Hi & s & Hs & Hseq). pose proof Hs as Hs'. unfold slot_at in Hs'.
    rewrite (slot_index_at r _ _ t Hr), Hs'. cbn [mbind option_bind].
    unfold wrap64. rewrite Z.mod_small by (unfold u64_bound; lia).
    eexists _, _. split; [done|]. split; try done; cbn [claimed taken length]; ring_fields; try lia.
    rewrite app_nil_r. apply (held_slot_ok r hist pcs tid (DPublish t item) t s); try done; [simpl; lia|].
    exists (t + capacity r). split; [lia|]. split.
    { rewrite <- (Z.mul_1_l (capacity r)) at 1. by rewrite Z.mod_add by lia. }
    destruct (seq_after _ _ _ _ _ Hr Hs Hseq) as [| | |??? Hd _]; [lia|lia|lia|].
    apply SFree; ring_fields; simpl; lia.
Qed.

Lemma ring_step_ok r hist pcs tid pc weak :
  ring_ok r hist pcs → room64 r → pcs !! tid = Some pc →
  ∃ r' o, ring_step r pc weak = Some (r', o) ∧ stepped r hist pcs tid pc r' o.
Proof.
  intros Hr Hroom Ht. destruct pc; (by apply enqueue_step_ok) || by apply dequeue_step_ok.
Qed.

(** A call begins. *)
Lemma call_ok r hist pcs tid pc :
  ring_ok r hist pcs → pcs !! tid = None → (∃ item, pc = ELoad item) ∨ pc = DLoad →
  ring_ok r hist (<[tid := pc]> pcs).
Proof.
  intros Hr Ht Hpc. destruct (Hr) as [H1 H2 H3 H4 H5 H6 Hslots Hpcs Hwr Hrd].
  assert (∀ f n, (f = writer ∨ f = reader) → f pc ≠ Some n) as Hf.
  { intros f n [-> | ->]; by destruct Hpc as [[? ->] | ->]. }
  assert (∀ f n, owned f pcs n → owned f (<[tid := pc]> pcs) n) as Hown.
  { intros f n (a & pa & Ha & Hn). exists a, pa. split; [|done]. rewrite lookup_insert_ne; [done|]. by intros ->; congruence. }
  assert (∀ f, (f = writer ∨ f = reader) → unique_owner f pcs → unique_owner f (<[tid := pc]> pcs)) as Huni.
  { intros f Hf' Hu a b pa pb n Ha Hb Fa Fb. apply lookup_insert_Some in Ha as [[_ <-]|[_ Ha]]; [by destruct (Hf f n Hf')|].
    apply lookup_insert_Some in Hb as [[_ <-]|[_ Hb]]; [by destruct (Hf f n Hf')|]. by apply (Hu a b pa pb n). }
  split; try done; try (apply Huni; auto).
  - intros n s Hn Hs. destruct (Hslots n s Hn Hs) as (m & Hm & He & Hst). exists m. split; [done|]. split; [done|].
    destruct Hst; [by apply SFree|apply SClaimed; auto|by apply SFilled|apply STaken; auto].
  - intros a pa Ha. apply lookup_insert_Some in Ha as [[_ <-]|[_ Ha]]; [|eauto]. by destruct Hpc as [[? ->] | ->].
Qed.

(** ** A call with no other in progress *)

Fixpoint call_alone (fuel : nat) (r : MpmcRing) (pc : Pc) : option (MpmcRing * Ret) :=
  match fuel with
  | O => None
  | S fuel =>
      '(r, o) ← ring_step r pc false;
      match o with
      | inl pc => call_alone fuel r pc
      | inr ret => Some (r, ret)
      end
  end.

Lemma free_alone r hist tid pc s :
  ring_ok r hist {[tid := pc]} → ticket pc = None → head r < tail r + capacity r →
  slot_at r (head r) = Some s → slot_seq s = head r.
Proof.
  intros Hr Hpc Hroom Hs. pose proof (cap_pos _ _ _ Hr). pose proof (ro_order _ _ _ Hr).
  assert (∀ f n, (f = writer ∨ f = reader) → ¬ owned f {[tid := pc]} n) as Hno.
  { intros f n Hf (a & pa & Ha & Hn). apply lookup_singleton_Some in Ha as [_ <-]. unfold ticket in Hpc.
    destruct Hf as [-> | ->]; rewrite Hn in Hpc; [done|]. by destruct (writer pc). }
  destruct (slot_state _ _ _ _ _ Hr Hs) as (m & Hm & He & [Hq Hr1|Hq Hr1 How|Hq Hr1 _|Hq Hr1 Hr2 _ How]).
  - rewrite Hq. apply (same_slot_eq (capacity r)); [lia|done|lia].
  - by destruct (Hno writer m); [left|].
  - assert (m = head r); [|lia]. apply (same_slot_eq (capacity r)); [lia|done|lia].
  - by destruct (Hno reader m); [right|].
Qed.

Lemma alone_next r hist tid pc r1 pc1 :
  ring_ok r hist {[tid := pc]} → room64 r → ring_step r pc false = Some (r1, inl pc1) →
  ring_ok r1 (hist ++ claimed (inl pc1)) {[tid := pc1]} ∧ capacity r1 = capacity r ∧
  head r1 = head r + Z.of_nat (length (claimed (inl pc1))) ∧ tail r1 = tail r + taken (inl pc1).
Proof.
  intros Hr Hroom Hs. destruct (ring_step_ok r hist _ tid pc false Hr Hroom) as (r' & o & Hs' & [S1 S2 S3 S4 _]).
  - by rewrite lookup_singleton_eq.
  - rewrite Hs in Hs'. simplify_eq/=. by rewrite insert_singleton_eq in S1.
Qed.

(** An enqueue into a ring with room, alone, takes five steps. *)
Lemma enqueue_alone r hist tid item :
  ring_ok r hist {[tid := ELoad item]} → room64 r → head r + 1 + capacity r + 1 < 2 ^ 63 →
  head r < tail r + capacity r →
  ∃ r', call_alone 5 r (ELoad item) = Some (r', Enqueued (head r) item) ∧ ring_ok r' (hist ++ [item]) ∅ ∧
    capacity r' = capacity r ∧ head r' = head r + 1 ∧ tail r' = tail r.
Proof.
  intros Hr Hroom Hroom' Hfree. pose proof (cap_pos _ _ _ Hr). pose proof (ro_order _ _ _ Hr).
  assert (ring_step r (ELoad item) false = Some (r, inl (ELoop item (head r)))) as E1 by done.
  destruct (alone_next _ _ _ _ _ _ Hr Hroom E1) as (R1 & _). simpl in R1. rewrite app_nil_r in R1.
  assert (ring_step r (ELoop item (head r)) false = Some (r, inl (ECas item (head r)))) as E2.
  { cbn [ring_step]. slot r (head r) R1 s Hs. rewrite diff_cmp_small by (unfold room64 in *; lia).
    rewrite (free_alone _ _ _ _ _ R1) by done. by rewrite Z.compare_refl. }
  destruct (alone_next _ _ _ _ _ _ R1 Hroom E2) as (R2 & _). simpl in R2. rewrite app_nil_r in R2.
  assert (∃ r3, ring_step r (ECas item (head r)) false = Some (r3, inl (EWrite item (head r)))) as [r3 E3].
  { cbn [ring_step]. rewrite Z.eqb_refl. by eexists. }
  destruct (alone_next _ _ _ _ _ _ R2 Hroom E3) as (R3 & C3 & H3 & T3). simpl in R3, H3, T3.
  destruct (ring_step_ok r3 _ _ tid (EWrite item (head r)) false R3) as (r4 & o4 & E4 & _);
    [unfold room64 in *; rewrite C3, H3; lia|by rewrite lookup_singleton_eq|].
  assert (o4 = inl (EPublish item (head r))) as ->.
  { cbn [ring_step] in E4. destruct (buffer r3 !! _); by simplify_eq/=. }
  assert (room64 r3) as Hroom3 by (unfold room64 in *; rewrite C3, H3; lia).
  destruct (alone_next _ _ _ _ _ _ R3 Hroom3 E4) as (R4 & C4 & H4 & T4). simpl in R4, H4, T4. rewrite app_nil_r in R4.
  destruct (ring_step_ok r4 _ _ tid (EPublish item (head r)) false R4) as (r5 & o5 & E5 & [S1 S2 S3 S4 _]);
    [unfold room64 in *; rewrite C4, C3, H4, H3; lia|by rewrite lookup_singleton_eq|].
  assert (o5 = inr (Enqueued (head r) item)) as ->.
  { cbn [ring_step] in E5. destruct (buffer r4 !! _); by simplify_eq/=. }
  exists r5. simpl in S1, S3, S4. rewrite app_nil_r, delete_singleton_eq in S1. split; [|split; [done|split; [congruence|lia]]].
  do 5 (cbn [call_alone]; rewrite ?E1, ?E2, ?E3, ?E4, ?E5; cbn [mbind option_bind]). done.
Qed.

(** ** Any number of threads *)

(** The ring, the calls in progress, and for the statements: what was enqueued, in
    the order of the positions, and what calls have returned. *)
Record Cfg := MkCfg {
  cfg_ring : MpmcRing;
  cfg_pcs : gmap nat Pc;
  cfg_hist : list A;
  cfg_rets : list Ret
}.

Inductive Act := Enqueue (tid : nat) (item : A) | Dequeue (tid : nat) | Step (tid : nat) (weak : bool).

Definition begin_call (c : Cfg) (tid : nat) (pc : Pc) : Cfg :=
  match cfg_pcs c !! tid with
  | Some _ => c
  | None => MkCfg (cfg_ring c) (<[tid := pc]> (cfg_pcs c)) (cfg_hist c) (cfg_rets c)
  end.

Definition returned (o : Pc + Ret) : list Ret := match o with inr ret => [ret] | inl _ => [] end.

Definition cfg_step (c : Cfg) (act : Act) : option Cfg :=
  match act with
  | Enqueue tid item => Some (begin_call c tid (ELoad item))
  | Dequeue tid => Some (begin_call c tid DLoad)
  | Step tid weak =>
      match cfg_pcs c !! tid with
      | None => Some c
      | Some pc =>
          '(r, o) ← ring_step (cfg_ring c) pc weak;
          Some (MkCfg r (moved (cfg_pcs c) tid o) (cfg_hist c ++ claimed o) (cfg_rets c ++ returned o))
      end
  end.

Fixpoint cfg_run (c : Cfg) (acts : list Act) : option Cfg :=
  match acts with
  | [] => Some c
  | act :: acts => c ← cfg_step c act; cfg_run c acts
  end.

(** The positions of the calls that have returned. *)
Definition enqueued_at (ret : Ret) : option Z := match ret with Enqueued h _ => Some h | _ => None end.
Definition dequeued_at (ret : Ret) : option Z := match ret with Dequeued t _ => Some t | _ => None end.

(** The positions below [n] are, each once, those returned and those held. *)
Record accounted (f : Pc → option Z) (g : Ret → option Z) (pcs : gmap nat Pc) (rets : list Ret) (n : Z) : Prop := {
  ac_once : NoDup (omap g rets);
  ac_all : ∀ m, 0 ≤ m < n → m ∈ omap g rets ∨ owned f pcs m;
  ac_apart : ∀ m, m ∈ omap g rets → 0 ≤ m < n ∧ ¬ owned f pcs m
}.

Record cfg_ok (c : Cfg) : Prop := {
  co_ring : ring_ok (cfg_ring c) (cfg_hist c) (cfg_pcs c);
  co_enq : accounted writer enqueued_at (cfg_pcs c) (cfg_rets c) (head (cfg_ring c));
  co_deq : accounted reader dequeued_at (cfg_pcs c) (cfg_rets c) (tail (cfg_ring c));
  co_items : ∀ t x, Enqueued t x ∈ cfg_rets c ∨ Dequeued t x ∈ cfg_rets c → at_pos (cfg_hist c) t = Some x
}.

Lemma owned_moved_iff f pcs tid pc o m :
  pcs !! tid = Some pc → unique_owner f pcs →
  owned f (moved pcs tid o) m ↔ owner_of f o = Some m ∨ (owned f pcs m ∧ f pc ≠ Some m).
Proof.
  intros Ht Hu. split.
  - intros (a & pa & Ha & Hf). destruct o as [pc'|]; simpl in *.
    + apply lookup_insert_Some in Ha as [[<- <-]|[Hne Ha]]; [by left|]. right. split; [by exists a, pa|].
      intros Hp. by apply Hne, (Hu tid a pc pa m).
    + apply lookup_delete_Some in Ha as [Hne Ha]. right. split; [by exists a, pa|].
      intros Hp. by apply Hne, (Hu tid a pc pa m).
  - intros [Ho|[How Hp]]; [|by eapply owned_moved; [done|done|left]].
    destruct o as [pc'|]; [|done]. exists tid, pc'. simpl. by rewrite lookup_insert_eq.
Qed.

(** A call moves on: it keeps the position it holds, claims the next one, or
    returns the one it held. *)
Inductive moves (f : Pc → option Z) (g : Ret → option Z) (pc : Pc) (n : Z) (o : Pc + Ret) : Z → Prop :=
| MKeep : owner_of f o = f pc → omap g (returned o) = [] → moves f g pc n o n
| MClaim : f pc = None → owner_of f o = Some n → omap g (returned o) = [] → moves f g pc n o (n + 1)
| MReturn m : f pc = Some m → owner_of f o = None → omap g (returned o) = [m] → moves f g pc n o n.

Lemma accounted_moved f g pcs tid pc o rets n n' :
  pcs !! tid = Some pc → unique_owner f pcs → 0 ≤ n → (∀ m, owned f pcs m → 0 ≤ m < n) →
  accounted f g pcs rets n → moves f g pc n o n' → accounted f g (moved pcs tid o) (rets ++ returned o) n'.
Proof.
  intros Ht Hu H0 Hb [H1 H2 H3] Hm. pose proof (λ m, owned_moved_iff f pcs tid pc o m Ht Hu) as Hiff.
  destruct Hm as [Ho Hr|Hn Ho Hr|m0 Hp Ho Hr]; split; rewrite ?omap_app, ?Hr, ?app_nil_r.
  - done.
  - intros m Hm. rewrite Hiff, Ho. destruct (H2 m Hm) as [|How]; [by left|]. right.
    destruct (decide (f pc = Some m)); auto.
  - intros m Hm. destruct (H3 m Hm) as [? Hno]. split; [done|]. rewrite Hiff, Ho. intros [Hf|[Hf _]]; [|done].
    apply Hno. by exists tid, pc.
  - done.
  - intros m Hm. rewrite Hiff, Ho, Hn. destruct (decide (m = n)) as [->|]; [right; by left|].
    destruct (H2 m) as [|How]; [lia|by left|]. right. by right.
  - intros m Hm. destruct (H3 m Hm) as [? Hno]. split; [lia|]. rewrite Hiff, Ho. intros [[= ->]|[Hf _]]; [lia|done].
  - apply NoDup_app. split; [done|]. split; [|apply NoDup_singleton].
    intros m Hm ->%list_elem_of_singleton. destruct (H3 m0 Hm) as [_ Hno]. apply Hno. by exists tid, pc.
  - intros m Hm. rewrite elem_of_app, list_elem_of_singleton, Hiff, Ho, Hp.
    destruct (decide (m = m0)) as [->|]; [left; by right|]. destruct (H2 m Hm) as [|How]; [by left; left|].
    right. right. split; [done|congruence].
  - intros m. rewrite elem_of_app, list_elem_of_singleton, Hiff, Ho, Hp. intros [Hm| ->].
    + destruct (H3 m Hm) as [? Hno]. split; [done|]. intros [[=]|[Hf _]]. done.
    + split; [apply Hb; by exists tid, pc|]. intros [[=]|[_ Hf]]. done.
Qed.

(** The cases of a step that was done. *)
Ltac step_cases H :=
  repeat first
  [ match type of H with
    | context [?l !! ?i] => destruct (l !! i); cbn [mbind option_bind] in H
    | context [diff_cmp ?a ?b] => destruct (diff_cmp a b)
    | context [?a =? ?b] => destruct (Z.eqb_spec a b); cbn [andb] in H
    | context [slot_data ?s ≫= _] => destruct (slot_data s); cbn [mbind option_bind] in H
    | context [negb ?w] => destruct w; cbn [negb] in H
    end
  | progress simplify_eq/= ].

Lemma step_writes r pc weak r' o :
  ring_step r pc weak = Some (r', o) →
  moves writer enqueued_at pc (head r) o (head r + Z.of_nat (length (claimed o))).
Proof.
  intros Hs. destruct pc as [| | | |? h| | | | |]; cbn [ring_step] in Hs; step_cases Hs;
    rewrite ?Z.add_0_r; first [by apply MKeep | by apply MClaim | by apply MReturn with h].
Qed.

Lemma step_reads r pc weak r' o :
  ring_step r pc weak = Some (r', o) → moves reader dequeued_at pc (tail r) o (tail r + taken o).
Proof.
  intros Hs. destruct pc as [| | | | | | | | |t item]; cbn [ring_step] in Hs; step_cases Hs;
    rewrite ?Z.add_0_r; first [by apply MKeep | by apply MClaim | by apply MReturn with t].
Qed.

Lemma owned_range r hist pcs m :
  ring_ok r hist pcs → (owned writer pcs m → 0 ≤ m < head r) ∧ (owned reader pcs m → 0 ≤ m < tail r).
Proof.
  intros Hr. split; intros (a & pa & Ha & Hm); pose proof (ro_pcs _ _ _ Hr _ _ Ha) as Hok;
    destruct pa; simpl in *; simplify_eq; lia.
Qed.

Lemma begin_cfg_ok c tid pc :
  cfg_ok c → (∃ item, pc = ELoad item) ∨ pc = DLoad →
  cfg_ok (begin_call c tid pc) ∧ cfg_ring (begin_call c tid pc) = cfg_ring c.
Proof.
  intros [Hr He Hd Hi] Hpc. unfold begin_call. destruct (cfg_pcs c !! tid) eqn:Ht; [done|]. split; [|done].
  assert (∀ f m, (f = writer ∨ f = reader) → owned f (cfg_pcs c) m ↔ owned f (<[tid := pc]> (cfg_pcs c)) m) as Hown.
  { intros f m Hf. split; intros (a & pa & Ha & Hm).
    - exists a, pa. split; [|done]. rewrite lookup_insert_ne; [done|]. by intros ->; congruence.
    - apply lookup_insert_Some in Ha as [[_ <-]|[_ Ha]]; [|by exists a, pa].
      by destruct Hf as [-> | ->], Hpc as [[? ->] | ->]. }
  split; simpl; [by apply call_ok| | |done].
  - destruct He as [E1 E2 E3]. split; [done| |]; intros m Hm; rewrite <- Hown by auto; auto.
  - destruct Hd as [E1 E2 E3]. split; [done| |]; intros m Hm; rewrite <- Hown by auto; auto.
Qed.

Lemma step_cfg_ok c act :
  cfg_ok c → room64 (cfg_ring c) →
  ∃ c', cfg_step c act = Some c' ∧ cfg_ok c' ∧ capacity (cfg_ring c') = capacity (cfg_ring c) ∧
    head (cfg_ring c') ≤ head (cfg_ring c) + 1.
Proof.
  intros Hc Hroom. destruct (Hc) as [Hr He Hd Hi]. destruct act as [tid item|tid|tid weak]; cbn [cfg_step].
  - destruct (begin_cfg_ok c tid (ELoad item)) as [H1 H2]; [done|eauto|]. eexists. split; [done|]. rewrite H2. split; [done|lia].
  - destruct (begin_cfg_ok c tid DLoad) as [H1 H2]; [done|eauto|]. eexists. split; [done|]. rewrite H2. split; [done|lia].
  - destruct (cfg_pcs c !! tid) as [pc|] eqn:Ht; [|eexists; split; [done|split; [done|lia]]].
    destruct (ring_step_ok _ _ _ _ _ weak Hr Hroom Ht) as (r' & o & Hs & [S1 S2 S3 S4 S5]). rewrite Hs.
    pose proof (step_writes _ _ _ _ _ Hs) as Hw. pose proof (step_reads _ _ _ _ _ Hs) as Hrd.
    rewrite <- S3 in Hw. rewrite <- S4 in Hrd. pose proof (ro_order _ _ _ Hr).
    eexists. split; [done|]. split; [|simpl; split; [done|]; rewrite S3; destruct o as [[]|]; simpl; lia].
    split; simpl; [done| | |].
    + apply (accounted_moved writer enqueued_at (cfg_pcs c) tid pc o (cfg_rets c) (head (cfg_ring c)));
        [done|apply (ro_writers _ _ _ Hr)|lia|intros m; by apply (owned_range _ _ _ _ Hr)|done|done].
    + apply (accounted_moved reader dequeued_at (cfg_pcs c) tid pc o (cfg_rets c) (tail (cfg_ring c)));
        [done|apply (ro_readers _ _ _ Hr)|lia|intros m; by apply (owned_range _ _ _ _ Hr)|done|done].
    + pose proof (ro_hist _ _ _ Hr) as Hh. intros t x Hin. rewrite !elem_of_app in Hin.
      assert (ret_ok (cfg_hist c) pc o → at_pos (cfg_hist c) t = Some x ∨
        Enqueued t x ∈ cfg_rets c ∨ Dequeued t x ∈ cfg_rets c) as [Hx|Hx]%(λ f, f S5).
      { intros Hret. destruct Hin as [[|Hin]|[|Hin]]; auto; destruct o as [|[]]; simpl in *;
          try (by apply elem_of_nil in Hin); apply list_elem_of_singleton in Hin; simplify_eq; left; apply Hret. }
      * rewrite at_pos_app; [done|]. apply at_pos_below in Hx. lia.
      * apply Hi in Hx. rewrite at_pos_app; [done|]. apply at_pos_below in Hx. lia.
Qed.

Lemma cfg_run_ok c acts :
  cfg_ok c → head (cfg_ring c) + Z.of_nat (length acts) + capacity (cfg_ring c) + 1 < 2 ^ 63 →
  ∃ c', cfg_run c acts = Some c' ∧ cfg_ok c' ∧ capacity (cfg_ring c') = capacity (cfg_ring c).
Proof.
  revert c. induction acts as [|act acts IH]; intros c Hc Hb; cbn [cfg_run]; [by exists c|].
  cbn [length] in Hb. destruct (step_cfg_ok c act) as (c1 & H1 & Hc1 & Hcap & Hh); [done|unfold room64; lia|].
  rewrite H1. cbn [mbind option_bind]. destruct (IH c1) as (c' & H2 & Hc' & Hcap'); [done|rewrite Hcap; lia|].
  exists c'. split; [done|]. split; [done|congruence].
Qed.

Definition start (r : MpmcRing) : Cfg := MkCfg r ∅ [] [].

Lemma new_ring_ok c : 2 ≤ c ≤ 2 ^ 62 → ∃ r, new_ring c = Some r ∧ capacity r = next_power_of_two c ∧ head r = 0 ∧ tail r = 0 ∧
  ring_ok r [] ∅ ∧ cfg_ok (start r).
Proof.
  intros Hc. unfold new_ring. rewrite (proj2 (Z.eqb_neq c 0)) by lia.
  destruct (next_power_of_two_pow c Hc) as (k & Hk & Hp & Hle). eexists. split; [done|]. split; [done|].
  split; [done|]. split; [done|].
  match goal with |- ring_ok ?x _ _ ∧ _ => set (r := x) end. change (capacity r) with (next_power_of_two c) in *.
  assert (0 < 2 ^ k) by lia. assert (∀ f m, ¬ owned f ∅ m) as Hno by (by intros f m (a & pa & [=] & _)).
  assert (ring_ok r [] ∅) as Hr.
  { split; try done; simpl; rewrite ?Hp.
    - exists k. split; [lia|done].
    - rewrite length_fmap, length_seq. lia.
    - lia.
    - intros n s Hn Hs. unfold slot_at in Hs. simpl in Hs. rewrite Hp, Z.mod_small in Hs by done.
      apply list_lookup_fmap_Some in Hs as (i & -> & Hi). apply lookup_seq in Hi as [-> Hi].
      exists n. split; [lia|]. split; [by apply Z.mod_small|]. apply SFree; simpl; lia. }
  split; [done|]. split; simpl; [done| | |by intros ?? [?%elem_of_nil|?%elem_of_nil]].
  - split; [constructor|lia|by intros ? ?%elem_of_nil].
  - split; [constructor|lia|by intros ? ?%elem_of_nil].
Qed.

(** C21: however any number of threads interleave their accesses to the shared
    counters and slots, and however often a weak exchange fails for no reason, the
    ring is a first-in first-out queue: no step reads data that was never written
    or leaves the buffer, the item a call dequeues at a position is the item
    enqueued at that position, no position is dequeued or enqueued twice, and once
    no call is in progress the positions enqueued are exactly those before the head,
    the positions dequeued exactly those before the tail, and whatever was dequeued
    was enqueued. The capacity is at least two, and the counters stay below [2^63]. *)
Theorem ring_is_fifo c acts :
  2 ≤ c ≤ 2 ^ 62 → next_power_of_two c + Z.of_nat (length acts) + 1 < 2 ^ 63 →
  ∃ r0 f, new_ring c = Some r0 ∧ cfg_run (start r0) acts = Some f ∧
    (∀ t x y, Dequeued t x ∈ cfg_rets f → Enqueued t y ∈ cfg_rets f → x = y) ∧
    NoDup (omap dequeued_at (cfg_rets f)) ∧ NoDup (omap enqueued_at (cfg_rets f)) ∧
    0 ≤ tail (cfg_ring f) ≤ head (cfg_ring f) ∧ head (cfg_ring f) ≤ tail (cfg_ring f) + capacity (cfg_ring f) ∧
    (cfg_pcs f = ∅ → ∀ n,
      (n ∈ omap enqueued_at (cfg_rets f) ↔ 0 ≤ n < head (cfg_ring f)) ∧
      (n ∈ omap dequeued_at (cfg_rets f) ↔ 0 ≤ n < tail (cfg_ring f)) ∧
      ∀ x, Dequeued n x ∈ cfg_rets f → Enqueued n x ∈ cfg_rets f).
Proof.
  intros Hc Hb. destruct (new_ring_ok c Hc) as (r0 & Hnew & Hcap & Hh & _ & _ & Hok).
  destruct (cfg_run_ok (start r0) acts Hok) as (f & Hrun & [Hr He Hd Hi] & _); [simpl; rewrite Hcap, Hh; lia|].
  assert (∀ t x y, Dequeued t x ∈ cfg_rets f → Enqueued t y ∈ cfg_rets f → x = y) as Hsame.
  { intros t x y Hx Hy. pose proof (Hi t x (or_intror Hx)). pose proof (Hi t y (or_introl Hy)). congruence. }
  exists r0, f. split; [done|]. split; [done|]. split; [done|]. split; [apply Hd|]. split; [apply He|].
  split; [apply (ro_order _ _ _ Hr)|]. split; [apply (ro_room _ _ _ Hr)|]. intros Hidle n.
  assert (∀ g m, ¬ owned g (cfg_pcs f) m) as Hno by (rewrite Hidle; by intros g m (a & pa & [=] & _)).
  assert (n ∈ omap enqueued_at (cfg_rets f) ↔ 0 ≤ n < head (cfg_ring f)) as Hen.
  { split; intros Hn; [by apply (ac_apart _ _ _ _ _ He)|].
    destruct (ac_all _ _ _ _ _ He n Hn) as [|Ho]; [done|by destruct (Hno writer n)]. }
  assert (n ∈ omap dequeued_at (cfg_rets f) ↔ 0 ≤ n < tail (cfg_ring f)) as Hde.
  { split; intros Hn; [by apply (ac_apart _ _ _ _ _ Hd)|].
    destruct (ac_all _ _ _ _ _ Hd n Hn) as [|Ho]; [done|by destruct (Hno reader n)]. }
  split; [done|]. split; [done|]. intros x Hx. pose proof (ro_order _ _ _ Hr).
  assert (0 ≤ n < tail (cfg_ring f)) by (apply Hde, list_elem_of_omap; by exists (Dequeued n x)).
  assert (n ∈ omap enqueued_at (cfg_rets f)) as (e & Hin & Hat)%list_elem_of_omap by (apply Hen; lia).
  destruct e as [m y| | |]; simplify_eq/=. by rewrite (Hsame n x y).
Qed.

End ring.
Arguments MpmcSlot : clear implicits.
Arguments MpmcRing : clear implicits.
Arguments Pc : clear implicits.
Arguments Ret : clear implicits.

(** Two producers and a consumer on a ring of two: the second producer loses the
    first exchange, and the consumer waits for the first producer's publication. *)
Definition ex_acts : list (@Act Z) :=
  [Enqueue 0 7; Enqueue 1 8; Dequeue 2; Step 0 false; Step 1 false; Step 0 false; Step 1 false; Step 0 false;
   Step 1 false; Step 2 false; Step 2 false; Step 1 false; Step 1 true; Step 1 false; Step 1 false; Step 1 false; Step 1 false;
   Step 0 false; Step 0 false; Dequeue 2; Step 2 false; Step 2 false; Step 2 false; Step 2 false; Step 2 false].

Lemma ring_is_fifo_witness :
  ∃ r0 f, new_ring 2 = Some r0 ∧ cfg_run (start r0) ex_acts = Some f ∧
    cfg_rets f = [Empty; Enqueued 1 8; Enqueued 0 7; Dequeued 0 7] ∧ NoDup (omap dequeued_at (cfg_rets f)).
Proof.
  destruct (ring_is_fifo 2 ex_acts) as (r0 & f & Hn & Hrun & _ & Hd & _); [done|vm_compute; reflexivity|].
  exists r0, f. split; [done|]. split; [done|]. split; [|done].
  vm_compute in Hn. injection Hn as <-. vm_compute in Hrun. injection Hrun as <-. reflexivity.
Defined.

(** A ring of capacity one accepts an item while it is full, and forgets the one
    it held: the counter of a filled slot is the one of a free slot. *)
Lemma ring_of_one_overwrites :
  ∃ r0 f, new_ring 1 = Some r0 ∧
    cfg_run (start r0) ([Enqueue 0 7] ++ replicate 5 (Step 0 false) ++ [Enqueue 0 8] ++ replicate 5 (Step 0 false)) = Some f ∧
    cfg_rets f = [Enqueued 0 7; Enqueued 1 8] ∧ tail (cfg_ring f) + capacity (cfg_ring f) < head (cfg_ring f).
Proof. eexists _, _. split; [reflexivity|]. split; [vm_compute; reflexivity|]. split; reflexivity. Qed.
End Mpmc.
