(* ===== verification/Spsc.v ===== *)
(** * The single-producer single-consumer ring

    [src/common/arcbox-datapath/src/ring.rs], [LockFreeRing]: a bounded queue that one
    thread fills and another empties without a lock. Each access to a shared counter,
    and each access to a slot, is a step of its own; the steps of the two threads
    interleave in any order. Memory is sequentially consistent, and additions wrap as
    in a release build. An index out of range, a subtraction below zero and the read
    of a slot that holds nothing are [None]. *)

From Stdlib Require Import ZArith Lia.
From stdpp Require Import base numbers list.
From S2P Require Import Prelude Bits Mpmc.

Open Scope Z_scope.

Module Spsc.

Section ring.
Context {A : Type}.

(** A slot is [None] while it is uninitialised, or its item has been moved out. *)
Record LockFreeRing := MkRing {
  buffer : list (option A);
  capacity : Z;
  mask : Z;
  head : Z;
  tail : Z
}.
#[export] Instance eta_LockFreeRing : Eta LockFreeRing := {|
  eta r := MkRing (buffer r) (capacity r) (mask r) (head r) (tail r); eta_ok := ltac:(by intros [])
|}.

(** The assertion on the capacity panics. *)
Definition new_ring (capacity : Z) : option LockFreeRing :=
  if capacity =? 0 then None
  else
    let capacity := Mpmc.next_power_of_two capacity in
    Some (MkRing (replicate (Z.to_nat capacity) None) capacity (capacity - 1) 0 0).

(** [len], [is_empty], [is_full] and [free_slots], with no step between their loads. *)
Definition ring_len (r : LockFreeRing) : Z := wrap64 (head r - tail r).
Definition is_empty (r : LockFreeRing) : bool := ring_len r =? 0.
Definition is_full (r : LockFreeRing) : bool := capacity r <=? ring_len r.
Definition free_slots (r : LockFreeRing) : option Z :=
  if capacity r <? ring_len r then None else Some (capacity r - ring_len r).

Definition slot_index (r : LockFreeRing) (pos : Z) : nat := Z.to_nat (Z.land pos (mask r)).

(** ** The producer *)

Inductive PJob := EnqueueOne (item : A) | EnqueueBatch (items : list A).
Definition items_of (job : PJob) : list A := match job with EnqueueOne x => [x] | EnqueueBatch xs => xs end.

(** Where a call of [enqueue] or [enqueue_batch] stands. *)
Inductive PPc :=
| PHead (job : PJob)
| PTail (job : PJob) (head : Z)
| PWrite (job : PJob) (head : Z) (count i : nat)
| PStore (job : PJob) (head : Z) (count : nat).

(** How many items the call may write; [None] is a subtraction below zero. *)
Definition room (r : LockFreeRing) (job : PJob) (head tail : Z) : option nat :=
  match job with
  | EnqueueOne _ => Some (if capacity r <=? wrap64 (head - tail) then 0%nat else 1%nat)
  | EnqueueBatch items =>
      if capacity r <? wrap64 (head - tail) then None
      else Some (Nat.min (length items) (Z.to_nat (capacity r - wrap64 (head - tail))))
  end.

Definition pstep (r : LockFreeRing) (pc : PPc) : option (LockFreeRing * (PPc + nat)) :=
  match pc with
  | PHead job => Some (r, inl (PTail job (head r)))
  | PTail job h =>
      count ← room r job h (tail r);
      Some (r, if decide (count = 0%nat) then inr 0%nat else inl (PWrite job h count 0))
  | PWrite job h count i =>
      x ← items_of job !! i;
      let idx := slot_index r (wrap64 (h + Z.of_nat i)) in
      _ ← buffer r !! idx;
      Some (r <| buffer := <[idx := Some x]> (buffer r) |>,
        inl (if decide (S i = count) then PStore job h count else PWrite job h count (S i)))
  | PStore job h count => Some (r <| head := wrap64 (h + Z.of_nat count) |>, inr count)
  end.

(** ** The consumer *)

Inductive CJob := DequeueOne | DequeueBatch (out_len : nat) | PeekOne.
Definition wanted (job : CJob) : nat := match job with DequeueBatch n => n | _ => 1 end.

Inductive CPc :=
| CTail (job : CJob)
| CHead (job : CJob) (tail : Z)
| CRead (tail : Z) (count i : nat) (acc : list A)
| CPeek (tail : Z)
| CStore (tail : Z) (count : nat) (acc : list A).

Inductive CRet := Got (items : list A) | Peeked (item : A).

Definition available (job : CJob) (tail head : Z) : nat :=
  match job with
  | DequeueBatch n => Nat.min n (Z.to_nat (wrap64 (head - tail)))
  | _ => if tail =? head then 0%nat else 1%nat
  end.

Definition cstep (r : LockFreeRing) (pc : CPc) : option (LockFreeRing * (CPc + CRet)) :=
  match pc with
  | CTail job => Some (r, inl (CHead job (tail r)))
  | CHead job t =>
      let count := available job t (head r) in
      Some (r, if decide (count = 0%nat) then inr (Got [])
               else inl (match job with PeekOne => CPeek t | _ => CRead t count 0 [] end))
  | CRead t count i acc =>
      let idx := slot_index r (wrap64 (t + Z.of_nat i)) in
      slot ← buffer r !! idx;
      x ← slot;
      Some (r <| buffer := <[idx := None]> (buffer r) |>,
        inl (if decide (S i = count) then CStore t count (acc ++ [x]) else CRead t count (S i) (acc ++ [x])))
  | CPeek t =>
      slot ← buffer r !! slot_index r t;
      x ← slot;
      Some (r, inr (Peeked x))
  | CStore t count acc => Some (r <| tail := wrap64 (t + Z.of_nat count) |>, inr (Got acc))
  end.

(** ** The two threads *)

(** What a call was granted, with what had been published and taken at its load of
    the other side's counter. *)
Record Decision := MkDecision { asked : nat; granted : nat; published : nat; taken : nat }.

(** The threads, the items published and taken so far, the decisions of each side,
    and the items peeked with the number taken before them. *)
Record Cfg := MkCfg {
  ring : LockFreeRing;
  prod : option PPc;
  cons : option CPc;
  pub : list A;
  got : list A;
  plog : list Decision;
  clog : list Decision;
  peeks : list (nat * A)
}.
#[export] Instance eta_Cfg : Eta Cfg := {|
  eta c := MkCfg (ring c) (prod c) (cons c) (pub c) (got c) (plog c) (clog c) (peeks c); eta_ok := ltac:(by intros [])
|}.

Inductive Act := Produce (job : PJob) | Consume (job : CJob) | ProducerStep | ConsumerStep.

Definition decided (c : Cfg) (asked granted : nat) : Decision :=
  MkDecision asked granted (length (pub c)) (length (got c)).

(** A call starts on an idle thread; a step of an idle thread does nothing. *)
Definition cfg_step (c : Cfg) (act : Act) : option Cfg :=
  match act with
  | Produce job => Some (match prod c with None => c <| prod := Some (PHead job) |> | Some _ => c end)
  | Consume job => Some (match cons c with None => c <| cons := Some (CTail job) |> | Some _ => c end)
  | ProducerStep =>
      match prod c with
      | None => Some c
      | Some pc =>
          res ← pstep (ring c) pc;
          let c' := c <| ring := res.1 |> <| prod := match res.2 with inl pc => Some pc | inr _ => None end |> in
          Some (match pc, res.2 with
                | PTail job _, inl (PWrite _ _ count _) => c' <| plog := plog c ++ [decided c (length (items_of job)) count] |>
                | PTail job _, _ => c' <| plog := plog c ++ [decided c (length (items_of job)) 0] |>
                | PStore job _ count, _ => c' <| pub := pub c ++ take count (items_of job) |>
                | _, _ => c'
                end)
      end
  | ConsumerStep =>
      match cons c with
      | None => Some c
      | Some pc =>
          res ← cstep (ring c) pc;
          let c' := c <| ring := res.1 |> <| cons := match res.2 with inl pc => Some pc | inr _ => None end |> in
          Some (match pc, res.2 with
                | CHead job _, inl (CRead _ count _ _) => c' <| clog := clog c ++ [decided c (wanted job) count] |>
                | CHead job _, inl (CPeek _) => c' <| clog := clog c ++ [decided c (wanted job) 1] |>
                | CHead job _, _ => c' <| clog := clog c ++ [decided c (wanted job) 0] |>
                | CStore _ _ _, inr (Got items) => c' <| got := got c ++ items |>
                | CPeek _, inr (Peeked x) => c' <| peeks := peeks c ++ [(length (got c), x)] |>
                | _, _ => c'
                end)
      end
  end.

Fixpoint cfg_run (c : Cfg) (acts : list Act) : option Cfg :=
  match acts with
  | [] => Some c
  | act :: acts => c ← cfg_step c act; cfg_run c acts
  end.

Definition start (r : LockFreeRing) : Cfg := MkCfg r None None [] [] [] [] [].

(** [clear] and [Drop]: dequeue until nothing is left, with no other thread. *)
Fixpoint dequeue_alone (fuel : nat) (r : LockFreeRing) (pc : CPc) : option (LockFreeRing * CRet) :=
  match fuel with
  | O => None
  | S fuel =>
      res ← cstep r pc;
      match res.2 with inl pc => dequeue_alone fuel res.1 pc | inr ret => Some (res.1, ret) end
  end.

Fixpoint clear (fuel : nat) (r : LockFreeRing) (dropped : list A) : option (LockFreeRing * list A) :=
  match fuel with
  | O => None
  | S fuel =>
      res ← dequeue_alone 4 r (CTail DequeueOne);
      match res.2 with
      | Got (x :: _) => clear fuel res.1 (dropped ++ [x])
      | _ => Some (res.1, dropped)
      end
  end.

(** ** Counters and slots *)

(** The counters of a ring after [p] items published and [t] taken. *)
Record counters_ok (r : LockFreeRing) (p t : nat) : Prop := {
  cn_cap : ∃ k, 0 ≤ k ≤ 62 ∧ capacity r = 2 ^ k;
  cn_mask : mask r = capacity r - 1;
  cn_len : Z.of_nat (length (buffer r)) = capacity r;
  cn_head : head r = wrap64 (Z.of_nat p);
  cn_tail : tail r = wrap64 (Z.of_nat t);
  cn_order : (t ≤ p)%nat ∧ Z.of_nat p ≤ Z.of_nat t + capacity r
}.

(** The slot of a position. *)
Definition slot_of (r : LockFreeRing) (n : nat) : nat := (n mod Z.to_nat (capacity r))%nat.

Lemma capacity_bounds r p t : counters_ok r p t → 0 < capacity r ≤ 2 ^ 62.
Proof.
  intros [(k & Hk & ->) _ _ _ _ _]. split; [lia|]. apply Z.pow_le_mono_r; lia.
Qed.

(** Indices wrap at 2^64, which the capacity divides. *)
Lemma index_mod r p t n i :
  counters_ok r p t → slot_index r (wrap64 (wrap64 (Z.of_nat n) + Z.of_nat i)) = slot_of r (n + i).
Proof.
  intros Hc. destruct (capacity_bounds _ _ _ Hc) as [Hpos _]. destruct Hc as [(k & Hk & Hcap) Hm _ _ _ _].
  unfold slot_index, slot_of. rewrite Hm, Hcap. replace (2 ^ k - 1) with (Z.ones k) by (rewrite Z.ones_equiv; lia).
  rewrite Z.land_ones by lia. unfold wrap64. rewrite Zplus_mod_idemp_l. rewrite <- Nat2Z.inj_add.
  assert ((2 ^ k | u64_bound)) as Hd. { exists (2 ^ (64 - k)). rewrite <- Z.pow_add_r by lia. replace (64 - k + k) with 64 by lia. done. }
  rewrite <- Znumtheory.Zmod_div_mod; [|lia|done|done]. apply Nat2Z.inj.
  rewrite Nat2Z.inj_mod, !Z2Nat.id by (try apply Z.mod_pos_bound; lia). done.
Qed.

Lemma slot_range r p t n : counters_ok r p t → is_Some (buffer r !! slot_of r n).
Proof.
  intros Hc. destruct (capacity_bounds _ _ _ Hc) as [Hpos _]. apply lookup_lt_is_Some_2. unfold slot_of.
  pose proof (cn_len _ _ _ Hc). pose proof (Nat.mod_upper_bound n (Z.to_nat (capacity r)) ltac:(lia)). lia.
Qed.

(** Two positions less than a capacity apart are in different slots. *)
Lemma slots_apart r p t n m :
  counters_ok r p t → (n < m)%nat → Z.of_nat m < Z.of_nat n + capacity r → slot_of r n ≠ slot_of r m.
Proof.
  intros Hc Hn Hm He. unfold slot_of in He. destruct (capacity_bounds _ _ _ Hc) as [Hpos _].
  set (c := Z.to_nat (capacity r)) in *. assert (m < n + c)%nat as Hlt by lia. clearbody c.
  pose proof (Nat.div_mod_eq n c) as En. pose proof (Nat.div_mod_eq m c) as Em. rewrite He in En.
  set (a := (n / c)%nat) in *. set (b := (m / c)%nat) in *. assert (a < b)%nat by nia. nia.
Qed.

Lemma len_exact p t (cap : Z) :
  (t ≤ p)%nat → Z.of_nat p ≤ Z.of_nat t + cap → cap ≤ 2 ^ 62 →
  wrap64 (wrap64 (Z.of_nat p) - wrap64 (Z.of_nat t)) = Z.of_nat p - Z.of_nat t.
Proof.
  intros H1 H2 H3. unfold wrap64. rewrite <- Zminus_mod. apply Z.mod_small. unfold u64_bound. lia.
Qed.

(** ** The invariant *)

(** What the producer has written and not published, and how many slots the consumer
    has emptied and not given back. *)
Definition unpublished (pc : option PPc) : list A :=
  match pc with
  | Some (PWrite job _ _ i) => take i (items_of job)
  | Some (PStore job _ count) => take count (items_of job)
  | _ => []
  end.
Definition in_hand (pc : option CPc) : list A :=
  match pc with Some (CRead _ _ _ acc) | Some (CStore _ _ acc) => acc | _ => [] end.

Definition prod_ok (c : Cfg) (pc : PPc) : Prop :=
  match pc with
  | PHead _ => True
  | PTail _ h => h = wrap64 (Z.of_nat (length (pub c)))
  | PWrite job h count i =>
      h = wrap64 (Z.of_nat (length (pub c))) ∧ (i < count ≤ length (items_of job))%nat ∧
      Z.of_nat (length (pub c) + count) ≤ Z.of_nat (length (got c)) + capacity (ring c)
  | PStore job h count =>
      h = wrap64 (Z.of_nat (length (pub c))) ∧ (count ≤ length (items_of job))%nat ∧
      Z.of_nat (length (pub c) + count) ≤ Z.of_nat (length (got c)) + capacity (ring c)
  end.

Definition cons_ok (c : Cfg) (pc : CPc) : Prop :=
  match pc with
  | CTail _ => True
  | CHead _ t => t = wrap64 (Z.of_nat (length (got c)))
  | CRead t count i acc =>
      t = wrap64 (Z.of_nat (length (got c))) ∧ (i < count)%nat ∧ (length (got c) + count ≤ length (pub c))%nat ∧ length acc = i
  | CPeek t => t = wrap64 (Z.of_nat (length (got c))) ∧ (length (got c) < length (pub c))%nat
  | CStore t count acc =>
      t = wrap64 (Z.of_nat (length (got c))) ∧ (length (got c) + count ≤ length (pub c))%nat ∧ length acc = count
  end.

(** A call is granted all it asks for that there is room for, or that there is. *)
Definition grants_room (cap : Z) (d : Decision) : Prop :=
  Z.of_nat (granted d) = Z.min (Z.of_nat (asked d)) (cap - (Z.of_nat (published d) - Z.of_nat (taken d))).
Definition grants_items (d : Decision) : Prop := granted d = Nat.min (asked d) (published d - taken d).

Record cfg_ok (c : Cfg) : Prop := {
  ok_counters : counters_ok (ring c) (length (pub c)) (length (got c));
  ok_slots : ∀ n x, (length (got c ++ in_hand (cons c)) ≤ n)%nat → (pub c ++ unpublished (prod c)) !! n = Some x →
    buffer (ring c) !! slot_of (ring c) n = Some (Some x);
  ok_got : got c ++ in_hand (cons c) `prefix_of` pub c;
  ok_prod : ∀ pc, prod c = Some pc → prod_ok c pc;
  ok_cons : ∀ pc, cons c = Some pc → cons_ok c pc;
  ok_plog : Forall (grants_room (capacity (ring c))) (plog c);
  ok_clog : Forall grants_items (clog c);
  ok_peeks : Forall (λ p, pub c !! p.1 = Some p.2) (peeks c)
}.

(** A slot written at a position of its own keeps what the others hold. *)
Lemma put_counters r p t idx v : counters_ok r p t → counters_ok (r <| buffer := <[idx := v]> (buffer r) |>) p t.
Proof. intros [C1 C2 C3 C4 C5 C6]. split; try done. simpl. by rewrite length_insert. Qed.

Lemma room_grants c job :
  counters_ok (ring c) (length (pub c)) (length (got c)) →
  ∃ count, room (ring c) job (wrap64 (Z.of_nat (length (pub c)))) (tail (ring c)) = Some count ∧
    grants_room (capacity (ring c)) (decided c (length (items_of job)) count).
Proof.
  intros Hc. destruct (capacity_bounds _ _ _ Hc) as [Hpos Hmax]. destruct Hc as [_ _ _ _ Ht [Ho1 Ho2]].
  pose proof (len_exact _ _ _ Ho1 Ho2 Hmax) as Hl. unfold room. rewrite Ht, Hl. unfold grants_room, decided. simpl. destruct job as [x|xs]; simpl.
  - eexists. split; [done|]. destruct (Z.leb_spec (capacity (ring c)) (Z.of_nat (length (pub c)) - Z.of_nat (length (got c)))); lia.
  - rewrite (proj2 (Z.ltb_ge _ _)) by lia. eexists. split; [done|]. lia.
Qed.

Lemma producer_writes c job h count i :
  cfg_ok c → prod c = Some (PWrite job h count i) →
  ∃ x, items_of job !! i = Some x ∧ is_Some (buffer (ring c) !! slot_index (ring c) (wrap64 (h + Z.of_nat i))) ∧
    ∀ pc, unpublished (Some pc) = take (S i) (items_of job) → prod_ok c pc →
      cfg_ok (c <| ring := (ring c) <| buffer := <[slot_index (ring c) (wrap64 (h + Z.of_nat i)) := Some x]> (buffer (ring c)) |> |>
        <| prod := Some pc |>).
Proof.
  intros [K1 K2 K3 K4 K5 K6 K7 K8] Hp. destruct (K4 _ Hp) as (-> & Hi & Hroom).
  rewrite (index_mod _ _ _ _ _ K1). set (n := (length (pub c) + i)%nat). pose proof (slot_range _ _ _ n K1) as Hin.
  destruct (lookup_lt_is_Some_2 (items_of job) i) as [x Hx]; [lia|]. exists x. split; [done|]. split; [done|]. intros pc Hu Hpc.
  destruct (cn_order _ _ _ K1) as [Ho1 Ho2]. rewrite Hp in K2. cbn [unpublished] in K2. pose proof (prefix_length _ _ K3) as Hpl.
  split; simpl; try done.
  - by apply put_counters.
  - intros m y Hm Hy. change (slot_of _ m) with (slot_of (ring c) m). cbn [unpublished] in Hu. rewrite Hu in Hy.
    rewrite (take_S_r _ _ x), app_assoc in Hy by done.
    apply lookup_app_Some in Hy as [Hy|[Hge Hy]].
    + pose proof (lookup_lt_Some _ _ _ Hy) as Hlt. rewrite length_app, length_take in Hlt.
      rewrite length_app in Hm. rewrite list_lookup_insert_ne; [apply K2; [rewrite length_app; lia|done]|].
      intros He. symmetry in He. revert He. apply (slots_apart _ _ _ _ _ K1); unfold n; lia.
    + apply list_lookup_singleton_Some in Hy as [Hz <-]. rewrite length_app, length_take in Hge, Hz.
      assert (m = n) as -> by (unfold n; lia). rewrite list_lookup_insert_eq; [done|]. by apply lookup_lt_is_Some_1.
  - intros pc' [= <-]. by destruct pc.
Qed.

Lemma publish_counters r p t n :
  counters_ok r p t → Z.of_nat (p + n) ≤ Z.of_nat t + capacity r →
  counters_ok (r <| head := wrap64 (wrap64 (Z.of_nat p) + Z.of_nat n) |>) (p + n) t.
Proof.
  intros [C1 C2 C3 C4 C5 [C6 C7]] Hn. split; try done; simpl; [|lia].
  unfold wrap64. rewrite Zplus_mod_idemp_l. f_equal. lia.
Qed.

Lemma producer_publishes c job h count :
  cfg_ok c → prod c = Some (PStore job h count) →
  cfg_ok (c <| ring := (ring c) <| head := wrap64 (h + Z.of_nat count) |> |> <| prod := None |>
    <| pub := pub c ++ take count (items_of job) |>).
Proof.
  intros [K1 K2 K3 K4 K5 K6 K7 K8] Hp. destruct (K4 _ Hp) as (-> & Hc & Hroom). rewrite Hp in K2. cbn [unpublished] in K2.
  split; simpl; try done.
  - rewrite length_app, length_take_le by done. by apply publish_counters.
  - intros n x Hn. rewrite app_nil_r. by apply K2.
  - by apply prefix_app_r.
  - intros pc Hpc. specialize (K5 _ Hpc). destruct pc; simpl in *; rewrite ?length_app; intuition lia.
  - eapply Forall_impl; [exact K8|]. intros [n x] Hx. simpl in *. by apply lookup_app_l_Some.
Qed.

Lemma producer_ok c : cfg_ok c → ∃ c', cfg_step c ProducerStep = Some c' ∧ cfg_ok c' ∧ capacity (ring c') = capacity (ring c).
Proof.
  intros Hok. cbn [cfg_step]. destruct (prod c) as [pc|] eqn:Hp; [|by exists c]. pose proof Hok as [K1 K2 K3 K4 K5 K6 K7 K8].
  specialize (K4 _ Hp) as Hpc. destruct pc as [job|job h|job h count i|job h count]; simpl in Hpc |- *.
  - eexists. split; [done|]. split; [|done]. rewrite Hp in K2. split; simpl; try done.
    intros pc [= <-]. simpl. by destruct K1.
  - subst h. destruct (room_grants c job K1) as (count & Hr & Hg). rewrite Hr. simpl. rewrite Hp in K2. cbn [unpublished] in K2.
    assert (Forall (grants_room (capacity (ring c))) (plog c ++ [decided c (length (items_of job)) count])) as Hlog.
    { apply Forall_app. split; [done|]. by apply Forall_singleton. }
    unfold grants_room, decided in Hg. simpl in Hg.
    destruct (decide (count = 0%nat)) as [->|Hz]; (eexists; split; [done|]; split; [|done]; split; simpl; try done).
    intros pc [= <-]. simpl. split; [done|]. split; lia.
  - destruct (producer_writes c job h count i Hok Hp) as (x & -> & [v Hv] & Hw). destruct Hpc as (Hh & Hi & Hroom).
    simpl. rewrite Hv. simpl. eexists. split; [done|]. split; [|done]. apply Hw; destruct (decide (S i = count)) as [<-|]; try done.
    + simpl. split; [done|]. split; [lia|done].
    + simpl. split; [done|]. split; [lia|done].
  - eexists. split; [done|]. split; [|done]. by apply producer_publishes.
Qed.

(** The consumer's next slot holds the next item. *)
Lemma next_item c i acc :
  cfg_ok c → in_hand (cons c) = acc → length acc = i → (length (got c) + i < length (pub c))%nat →
  ∃ x, pub c !! (length (got c) + i)%nat = Some x ∧
    buffer (ring c) !! slot_index (ring c) (wrap64 (wrap64 (Z.of_nat (length (got c))) + Z.of_nat i)) = Some (Some x).
Proof.
  intros [K1 K2 K3 K4 K5 K6 K7 K8] Hh Hl Hlt. destruct (lookup_lt_is_Some_2 (pub c) (length (got c) + i)) as [x Hx]; [lia|].
  exists x. split; [done|]. rewrite (index_mod _ _ _ _ _ K1). apply K2; [rewrite length_app, Hh; lia|]. by apply lookup_app_l_Some.
Qed.

Lemma prefix_snoc (l k : list A) x : l `prefix_of` k → k !! length l = Some x → l ++ [x] `prefix_of` k.
Proof.
  intros [k' ->] Hx. rewrite lookup_app_r, Nat.sub_diag in Hx by lia. destruct k' as [|y k']; [done|]. injection Hx as ->.
  exists k'. by rewrite <- app_assoc.
Qed.

Lemma consumer_reads c t count i acc x pc :
  cfg_ok c → cons c = Some (CRead t count i acc) → pub c !! (length (got c) + i)%nat = Some x →
  in_hand (Some pc) = acc ++ [x] → cons_ok c pc →
  cfg_ok (c <| ring := (ring c) <| buffer := <[slot_index (ring c) (wrap64 (t + Z.of_nat i)) := None]> (buffer (ring c)) |> |>
    <| cons := Some pc |>).
Proof.
  intros [K1 K2 K3 K4 K5 K6 K7 K8] Hp Hx Hin Hpc. destruct (K5 _ Hp) as (-> & Hi & Hle & Hacc).
  rewrite (index_mod _ _ _ _ _ K1). set (n := (length (got c) + i)%nat) in *. rewrite Hp in K2, K3. cbn [in_hand] in K2, K3.
  destruct (cn_order _ _ _ K1) as [Ho1 Ho2]. split; simpl; try done.
  - by apply put_counters.
  - intros m y Hm Hy. change (slot_of _ m) with (slot_of (ring c) m). cbn [in_hand] in Hin. rewrite Hin in Hm.
    rewrite !length_app in Hm. simpl in Hm. rewrite list_lookup_insert_ne; [apply K2; [rewrite length_app; lia|done]|].
    apply (slots_apart _ _ _ _ _ K1); [unfold n; lia|].
    pose proof (lookup_lt_Some _ _ _ Hy) as Hlt. rewrite length_app in Hlt.
    assert (Z.of_nat (length (pub c) + length (unpublished (prod c))) ≤ Z.of_nat (length (got c)) + capacity (ring c)) as Hw.
    { destruct (prod c) as [[job|job h|job h cnt j|job h cnt]|] eqn:Hpr; simpl; try lia.
      - destruct (K4 _ eq_refl) as (_ & ? & ?). rewrite length_take. lia.
      - destruct (K4 _ eq_refl) as (_ & ? & ?). rewrite length_take. lia. }
    unfold n. lia.
  - cbn [in_hand] in Hin. rewrite Hin, app_assoc. apply prefix_snoc; [done|]. by rewrite length_app, Hacc.
  - intros pc' [= <-]. by destruct pc.
Qed.

Lemma consumer_returns c t count acc :
  cfg_ok c → cons c = Some (CStore t count acc) →
  cfg_ok (c <| ring := (ring c) <| tail := wrap64 (t + Z.of_nat count) |> |> <| cons := None |> <| got := got c ++ acc |>).
Proof.
  intros [K1 K2 K3 K4 K5 K6 K7 K8] Hp. destruct (K5 _ Hp) as (-> & Hle & Hacc). rewrite Hp in K2, K3. cbn [in_hand] in K2, K3.
  split; simpl; rewrite ?app_nil_r; try done.
  - destruct K1 as [C1 C2 C3 C4 C5 [C6 C7]]. rewrite length_app. split; simpl; try done; [|lia].
    unfold wrap64. rewrite Zplus_mod_idemp_l. f_equal. lia.
  - intros pc Hpc. specialize (K4 _ Hpc). destruct pc; simpl in *; rewrite ?length_app; intuition lia.
Qed.

Lemma available_grants c job :
  counters_ok (ring c) (length (pub c)) (length (got c)) →
  available job (wrap64 (Z.of_nat (length (got c)))) (head (ring c)) =
    Nat.min (wanted job) (length (pub c) - length (got c)).
Proof.
  intros Hc. destruct (capacity_bounds _ _ _ Hc) as [Hpos Hmax]. destruct Hc as [_ _ _ Hh _ [Ho1 Ho2]].
  pose proof (len_exact _ _ _ Ho1 Ho2 Hmax) as Hl. unfold available. rewrite Hh, Hl.
  assert ((wrap64 (Z.of_nat (length (got c))) =? wrap64 (Z.of_nat (length (pub c)))) = bool_decide (length (pub c) = length (got c))) as ->.
  { apply eq_true_iff_eq. rewrite Z.eqb_eq, bool_decide_eq_true. split; [|by intros ->]. intros He. rewrite He, Z.sub_diag in Hl.
    change (wrap64 0) with 0 in Hl. lia. }
  destruct job as [|n|]; cbn [wanted]; [|lia|]; case_bool_decide; lia.
Qed.

Lemma consumer_ok c : cfg_ok c → ∃ c', cfg_step c ConsumerStep = Some c' ∧ cfg_ok c' ∧ capacity (ring c') = capacity (ring c).
Proof.
  intros Hok. cbn [cfg_step]. destruct (cons c) as [pc|] eqn:Hp; [|by exists c]. pose proof Hok as [K1 K2 K3 K4 K5 K6 K7 K8].
  specialize (K5 _ Hp) as Hpc. destruct pc as [job|job t|t count i acc|t|t count acc]; cbn [cons_ok] in Hpc.
  - eexists. split; [done|]. split; [|done]. rewrite Hp in K2, K3. split; simpl; try done.
    intros pc [= <-]. simpl. by destruct K1.
  - subst t. cbn [cstep]. rewrite (available_grants c job K1). rewrite Hp in K2, K3. cbn [in_hand] in K2, K3.
    set (count := Nat.min _ _). assert (Forall grants_items (clog c ++ [decided c (wanted job) count])) as Hlog.
    { apply Forall_app. split; [done|]. by apply Forall_singleton. }
    destruct (decide (count = 0%nat)) as [Hz|Hz].
    + rewrite Hz in Hlog. eexists. split; [done|]. split; [|done]. by split.
    + assert (count = 1%nat ∨ ∃ n, job = DequeueBatch n) as Hone.
      { destruct job as [|n|]; [left|right; by exists n|left]; unfold count in *; cbn [wanted] in *; lia. }
      eexists. split; [done|]. split; [|by destruct job]. destruct job as [|n|]; (split; simpl; try done).
      all: try (intros pc [= <-]; simpl; repeat split; try done; unfold count in *; lia).
      destruct Hone as [E|[n E]]; [by rewrite E in Hlog|done].
  - destruct Hpc as (-> & Hi & Hle & Hacc).
    destruct (next_item c i acc) as (x & Hx & Hb); [done|by rewrite Hp|done|lia|].
    cbn [cstep]. rewrite Hb. simpl. eexists. split; [done|]. split; [|done].
    apply (consumer_reads c _ count i acc x); try done; destruct (decide (S i = count)) as [<-|]; try done; simpl; rewrite length_app; simpl; intuition lia.
  - destruct Hpc as (-> & Hlt). destruct (next_item c 0 []) as (x & Hx & Hb); [done|by rewrite Hp|done|lia|].
    rewrite Z.add_0_r in Hb. unfold wrap64 in Hb. rewrite Z.mod_mod in Hb by done. fold wrap64 in Hb. cbn [cstep]. unfold wrap64. rewrite Hb.
    simpl. eexists. split; [done|]. split; [|done]. rewrite Hp in K2, K3. split; simpl; try done.
    apply Forall_app. split; [done|]. apply Forall_singleton. simpl. by rewrite Nat.add_0_r in Hx.
  - eexists. split; [done|]. split; [|done]. by eapply consumer_returns.
Qed.

Lemma spsc_step_ok c act : cfg_ok c → ∃ c', cfg_step c act = Some c' ∧ cfg_ok c' ∧ capacity (ring c') = capacity (ring c).
Proof.
  intros Hok. destruct act as [job|job| |]; [| |by apply producer_ok|by apply consumer_ok].
  - pose proof Hok as [K1 K2 K3 K4 K5 K6 K7 K8]. cbn [cfg_step]. destruct (prod c) eqn:Hp; [by exists c|].
    eexists. split; [done|]. split; [|done]. split; simpl; try done. by intros pc [= <-].
  - pose proof Hok as [K1 K2 K3 K4 K5 K6 K7 K8]. cbn [cfg_step]. destruct (cons c) eqn:Hp; [by exists c|].
    eexists. split; [done|]. split; [|done]. split; simpl; try done. by intros pc [= <-].
Qed.

Lemma spsc_run_ok c acts : cfg_ok c → ∃ c', cfg_run c acts = Some c' ∧ cfg_ok c' ∧ capacity (ring c') = capacity (ring c).
Proof.
  revert c. induction acts as [|act acts IH]; intros c Hc; cbn [cfg_run]; [by exists c|].
  destruct (spsc_step_ok c act Hc) as (c1 & -> & H1 & E1). simpl. destruct (IH c1 H1) as (c2 & -> & H2 & E2).
  exists c2. split; [done|]. split; [done|congruence].
Qed.

Lemma spsc_new_ok n :
  1 ≤ n ≤ 2 ^ 62 → ∃ r, new_ring n = Some r ∧ n ≤ capacity r < 2 * n ∧ cfg_ok (start r).
Proof.
  intros Hn. unfold new_ring. rewrite (proj2 (Z.eqb_neq n 0)) by lia.
  assert (∃ k, 0 ≤ k ≤ 62 ∧ Mpmc.next_power_of_two n = 2 ^ k ∧ n ≤ 2 ^ k < 2 * n) as (k & Hk & Hp & Hle).
  { destruct (decide (n = 1)) as [->|]; [by exists 0|]. destruct (Mpmc.next_power_of_two_pow n) as (k & ? & ? & ?); [lia|].
    exists k. split; [lia|done]. }
  eexists. split; [done|]. simpl. rewrite Hp. split; [done|]. split; simpl; try done.
  split; simpl; try done; [by exists k|rewrite length_replicate; lia|lia].
Qed.

(** *** Emptying the ring *)

Lemma dequeue_one c :
  cfg_ok c → cons c = None → (length (got c) < length (pub c))%nat →
  ∃ x r, pub c !! length (got c) = Some x ∧ dequeue_alone 4 (ring c) (CTail DequeueOne) = Some (r, Got [x]) ∧
    cfg_ok (c <| ring := r |> <| got := got c ++ [x] |>).
Proof.
  intros Hok Hn Hlt. pose proof Hok as [K1 K2 K3 K4 K5 K6 K7 K8]. rewrite Hn in K2, K3.
  set (t := wrap64 (Z.of_nat (length (got c)))). set (c1 := c <| cons := Some (CRead t 1 0 []) |>).
  assert (cfg_ok c1) as H1. { split; simpl; try done. intros pc [= <-]. simpl. split; [done|]. split; [lia|]. split; [lia|done]. }
  destruct (next_item c1 0 [] H1) as (x & Hx & Hb); [done|done|simpl; lia|]. exists x.
  pose proof (consumer_reads c1 t 1 0 [] x (CStore t 1 [x]) H1 eq_refl Hx eq_refl) as H2.
  specialize (H2 ltac:(simpl; split; [done|split; [lia|done]])).
  pose proof (consumer_returns _ t 1 [x] H2 eq_refl) as H3.
  eexists. split; [by rewrite Nat.add_0_r in Hx|]. split.
  - cbn [dequeue_alone cstep mbind option_bind fst snd]. rewrite (cn_tail _ _ _ K1).
    rewrite (available_grants c DequeueOne K1). replace (Nat.min (wanted DequeueOne) _) with 1%nat by (cbn [wanted]; lia).
    rewrite decide_False by done. cbn [dequeue_alone cstep mbind option_bind fst snd].
    change (ring c1) with (ring c) in Hb. change (got c1) with (got c) in Hb. rewrite Hb. cbn [mbind option_bind fst snd].
    rewrite decide_True by done. reflexivity.
  - destruct H3. split; simpl in *; rewrite ?Hn; try done.
Qed.

Lemma spsc_clear_ok c fuel dropped :
  cfg_ok c → cons c = None → (length (pub c) - length (got c) < fuel)%nat →
  ∃ r, clear fuel (ring c) dropped = Some (r, dropped ++ drop (length (got c)) (pub c)) ∧ is_empty r = true.
Proof.
  revert c dropped. induction fuel as [|fuel IH]; intros c dropped Hok Hn Hf; [lia|]. cbn [clear].
  destruct (decide (length (got c) < length (pub c))%nat) as [Hlt|Hge].
  - destruct (dequeue_one c Hok Hn Hlt) as (x & r & Hx & -> & Hok'). cbn [mbind option_bind fst snd].
    destruct (IH _ (dropped ++ [x]) Hok') as (r' & Hc & He); [done|simpl; rewrite length_app; simpl; lia|].
    exists r'. simpl in Hc. rewrite Hc. split; [|done]. 
    rewrite (drop_S (pub c) x (length (got c))) by done. rewrite length_app, Nat.add_1_r, <- app_assoc. done.
  - destruct (ok_counters _ Hok) as [C1 C2 C3 C4 C5 [C6 C7]]. exists (ring c). rewrite drop_ge, app_nil_r by lia.
    cbn [dequeue_alone cstep mbind option_bind fst snd]. rewrite C5, (available_grants c DequeueOne (ok_counters _ Hok)).
    replace (length (pub c) - length (got c))%nat with 0%nat by lia. rewrite Nat.min_0_r, decide_True by done.
    split; [done|]. unfold is_empty, ring_len. rewrite C4, C5. replace (length (pub c)) with (length (got c)) by lia.
    by rewrite Z.sub_diag.
Qed.

(** C33: however the two threads interleave, and for as long as they run, also past
    2^64 items, the ring is a first-in first-out queue of its capacity: no step reads
    a slot that holds nothing, leaves the buffer or subtracts below zero; what the
    consumer has taken is a prefix of what the producer has published, and at most a
    capacity behind; a call of the producer is granted exactly the room there is, a
    call of the consumer exactly the items there are, when it looks at the other
    side's counter; a peek sees the next item. Clearing an idle ring drops each
    remaining item once, in order, and leaves it empty. *)
Theorem spsc_is_fifo n acts :
  1 ≤ n ≤ 2 ^ 62 →
  ∃ r0 f, new_ring n = Some r0 ∧ n ≤ capacity r0 < 2 * n ∧ cfg_run (start r0) acts = Some f ∧
    got f `prefix_of` pub f ∧ ring_len (ring f) = Z.of_nat (length (pub f)) - Z.of_nat (length (got f)) ∧
    ring_len (ring f) ≤ capacity r0 ∧
    Forall (grants_room (capacity r0)) (plog f) ∧ Forall grants_items (clog f) ∧
    Forall (λ p, pub f !! p.1 = Some p.2) (peeks f) ∧
    (cons f = None → ∃ r, clear (S (length (pub f) - length (got f))) (ring f) [] = Some (r, drop (length (got f)) (pub f)) ∧
      is_empty r = true).
Proof.
  intros Hn. destruct (spsc_new_ok n Hn) as (r0 & Hnew & Hcap & Hok). destruct (spsc_run_ok _ acts Hok) as (f & Hrun & Hf & Hc).
  exists r0, f. pose proof Hf as [K1 K2 K3 K4 K5 K6 K7 K8]. simpl in Hc. rewrite Hc in K6.
  destruct (capacity_bounds _ _ _ K1) as [Hpos Hmax]. destruct K1 as [C1 C2 C3 C4 C5 [C6 C7]].
  split; [done|]. split; [done|]. split; [done|]. split; [by eapply prefix_app_l|].
  unfold ring_len. rewrite C4, C5, (len_exact _ _ _ C6 C7 Hmax). split; [done|]. split; [lia|].
  split; [done|]. split; [done|]. split; [done|]. intros Hidle. apply (spsc_clear_ok f _ [] Hf Hidle). lia.
Qed.

Definition ex_spsc (x y z w : A) : list Act :=
  [Produce (EnqueueBatch [x; y; z]); ProducerStep; ProducerStep; ProducerStep; Consume DequeueOne; ConsumerStep; ConsumerStep;
   ProducerStep; ProducerStep; Consume (DequeueBatch 5); ConsumerStep; ConsumerStep; ConsumerStep; Produce (EnqueueOne w);
   ProducerStep; ProducerStep; ConsumerStep; ConsumerStep; Produce (EnqueueOne w); ProducerStep; ProducerStep; ProducerStep;
   ProducerStep; Consume PeekOne; ConsumerStep; ConsumerStep; ConsumerStep].

End ring.

(** A batch of three finds room for two; the consumer looks before it is published, and
    then takes both; an item is refused while they are not given back. *)
Lemma spsc_is_fifo_witness :
  ∃ r0 f, new_ring 2 = Some r0 ∧ cfg_run (start r0) (ex_spsc 1 2 3 4) = Some f ∧ got f `prefix_of` pub f ∧
    pub f = [1; 2; 4] ∧ got f = [1; 2] ∧ granted <$> plog f = [2; 0; 1]%nat ∧ granted <$> clog f = [0; 2; 1]%nat ∧
    peeks f = [(2%nat, 4)].
Proof.
  destruct (spsc_is_fifo (A := Z) 2 (ex_spsc 1 2 3 4)) as (r0 & f & Hn & _ & Hrun & Hp & _); [done|].
  exists r0, f. split; [done|]. split; [done|]. split; [done|].
  vm_compute in Hn. injection Hn as <-. vm_compute in Hrun. by injection Hrun as <-.
Defined.

End Spsc.
