(* ===== verification/Pool.v ===== *)
(** * The packet pool and its frames

    [src/common/arcbox-datapath/src/pool.rs] and [frame_buf.rs]: buffers allocated
    once, handed out by index through the ring of free indices, and the frames
    that own one of them or fall back to the heap. Threads allocate, fill, read and
    drop in any order; a call takes the ring's steps one at a time. A read or write
    out of range is [None]. *)

From Stdlib Require Import ZArith Lia.
From stdpp Require Import base numbers list gmap.
From S2P Require Import Prelude Bits Checksum Bytes Mpmc.

Open Scope Z_scope.

Module Pool.
Import Mpmc.

Definition MAX_PACKET_SIZE : Z := 65535.

Record PacketBuffer := MkBuffer {
  data : list Z;
  buf_len : Z;
  index : Z;
  refcount : Z
}.
#[export] Instance eta_PacketBuffer : Eta PacketBuffer := {|
  eta b := MkBuffer (data b) (buf_len b) (index b) (refcount b); eta_ok := ltac:(by intros [])
|}.

Definition new_buffer (index : Z) : PacketBuffer := MkBuffer (replicate (Z.to_nat MAX_PACKET_SIZE) 0) 0 index 0.

Definition set_len (b : PacketBuffer) (n : Z) : PacketBuffer :=
  b <| buf_len := wrap32 (Z.min n MAX_PACKET_SIZE) |>.

Definition as_slice (b : PacketBuffer) : option (list Z) := range (data b) 0 (buf_len b).

Definition reset (b : PacketBuffer) : PacketBuffer := b <| buf_len := 0 |> <| refcount := 0 |>.

(** The error of [copy_from_slice] is the inner [None]. *)
Definition copy_from_slice (b : PacketBuffer) (bytes : list Z) : option (option PacketBuffer) :=
  if MAX_PACKET_SIZE <? len bytes then Some None
  else
    let! d := put (data b) 0 bytes in
    Some (Some (b <| data := d |> <| buf_len := wrap32 (len bytes) |>)).

Record PacketPool := MkPool {
  buffers : list PacketBuffer;
  free_indices : MpmcRing Z;
  pool_capacity : Z
}.
#[export] Instance eta_PacketPool : Eta PacketPool := {|
  eta p := MkPool (buffers p) (free_indices p) (pool_capacity p); eta_ok := ltac:(by intros [])
|}.

(** The seeding loop of [PacketPool::new]; what [enqueue] returns is dropped. *)
Fixpoint seed (r : MpmcRing Z) (indices : list nat) : option (MpmcRing Z) :=
  match indices with
  | [] => Some r
  | i :: rest => let! res := call_alone 5 r (ELoad (wrap32 (Z.of_nat i))) in seed res.1 rest
  end.

Definition new_pool (capacity : Z) : option PacketPool :=
  let capacity := Z.max capacity 1 in
  let indices := seq 0 (Z.to_nat capacity) in
  let! r := new_ring capacity in
  let! r := seed r indices in
  Some (MkPool ((λ i, new_buffer (wrap32 (Z.of_nat i))) <$> indices) r capacity).

Definition free_count (p : PacketPool) : Z := ring_len (free_indices p).

(** [self.buffers[idx as usize]] and a write through it. *)
Definition get (p : PacketPool) (idx : Z) : option PacketBuffer := buffers p !! Z.to_nat idx.
Definition set_buffer (p : PacketPool) (idx : Z) (b : PacketBuffer) : PacketPool :=
  p <| buffers := <[Z.to_nat idx := b]> (buffers p) |>.

(** What a caller owns: a frame, or a packet of [alloc_with_data]. *)
Inductive Handle :=
| Pooled (idx n : Z)
| Heap (bytes : list Z)
| PacketRef (idx : Z).

(** [Deref] of a frame; [as_slice] of a packet. *)
Definition deref (p : PacketPool) (h : Handle) : option (list Z) :=
  match h with
  | Pooled idx n => let! b := get p idx in range (data b) 0 n
  | Heap bytes => Some bytes
  | PacketRef idx => let! b := get p idx in as_slice b
  end.

(** What a call allocates for, and what it returns. *)
Inductive Job := FromPool (prefix payload : list Z) | AllocWithData (bytes : list Z).
Inductive Done := Made (h : Handle) (bytes : list Z) | Exhausted | TooLarge | Dropped.

(** Where a call stands. *)
Inductive PoolPc :=
| PAlloc (job : Job) (pc : Pc Z)
| PMark (job : Job) (idx : Z)
| PHeader (job : Job) (idx : Z)
| PPayload (prefix payload : list Z) (idx : Z)
| PSetLen (prefix payload : list Z) (idx : Z)
| PReset (done : Done) (idx : Z)
| PFree (done : Done) (pc : Pc Z).

(** What a call does when the pool is empty. *)
Definition exhausted (job : Job) : Done :=
  match job with
  | FromPool prefix payload => Made (Heap (prefix ++ payload)) (prefix ++ payload)
  | AllocWithData _ => Exhausted
  end.

(** One step of a call: [alloc], then [from_pool_with_prefix] or [alloc_with_data],
    whose packet is dropped when it does not hold the bytes; [free_by_index] of a
    dropped handle. *)
Definition pool_step (p : PacketPool) (pc : PoolPc) (weak : bool) : option (PacketPool * (PoolPc + Done)) :=
  match pc with
  | PAlloc job pc =>
      let! res := ring_step (free_indices p) pc weak in
      let p := p <| free_indices := res.1 |> in
      match res.2 with
      | inl pc => Some (p, inl (PAlloc job pc))
      | inr (Dequeued _ idx) => Some (p, inl (PMark job idx))
      | inr Empty => Some (p, inr (exhausted job))
      | inr _ => None
      end
  | PMark job idx =>
      let! b := get p idx in
      Some (set_buffer p idx (b <| refcount := 1 |>), inl (PHeader job idx))
  | PHeader (FromPool prefix payload) idx =>
      let! b := get p idx in
      if len prefix + len payload <=? len (data b) then
        let! d := put (data b) 0 prefix in
        Some (set_buffer p idx (b <| data := d |>), inl (PPayload prefix payload idx))
      else Some (p, inl (PReset (Made (Heap (prefix ++ payload)) (prefix ++ payload)) idx))
  | PHeader (AllocWithData bytes) idx =>
      let! b := get p idx in
      let! res := copy_from_slice b bytes in
      match res with
      | Some b => Some (set_buffer p idx b, inr (Made (PacketRef idx) bytes))
      | None => Some (p, inl (PReset TooLarge idx))
      end
  | PPayload prefix payload idx =>
      let! b := get p idx in
      let! d := put (data b) (len prefix) payload in
      Some (set_buffer p idx (b <| data := d |>), inl (PSetLen prefix payload idx))
  | PSetLen prefix payload idx =>
      let! b := get p idx in
      let n := len prefix + len payload in
      Some (set_buffer p idx (set_len b n), inr (Made (Pooled idx (wrap32 n)) (prefix ++ payload)))
  | PReset done idx =>
      let! b := get p idx in
      Some (set_buffer p idx (reset b), inl (PFree done (ELoad (index b))))
  | PFree done pc =>
      let! res := ring_step (free_indices p) pc weak in
      let p := p <| free_indices := res.1 |> in
      match res.2 with
      | inl pc => Some (p, inl (PFree done pc))
      | inr (Enqueued _ _) => Some (p, inr done)
      | inr (Full idx) => Some (p, inl (PFree done (ELoad idx)))
      | inr _ => None
      end
  end.

(** ** Any number of threads

    The pool, the calls in progress and the live handles, each with the bytes it was
    made from; [hist] are the indices put on the ring, in the order of the
    positions. *)
Record World := MkWorld {
  pool : PacketPool;
  calls : gmap nat PoolPc;
  live : gmap nat (Handle * list Z);
  next_handle : nat;
  results : list Done;
  hist : list Z
}.
#[export] Instance eta_World : Eta World := {|
  eta w := MkWorld (pool w) (calls w) (live w) (next_handle w) (results w) (hist w); eta_ok := ltac:(by intros [])
|}.

Inductive PoolAct :=
| Start (tid : nat) (job : Job)
| DropHandle (tid hid : nat)
| Rewrite (hid : nat) (bytes : list Z)
| PoolStep (tid : nat) (weak : bool).

(** A call that returns a handle makes it live. *)
Definition finish_job (w : World) (done : Done) : World :=
  match done with
  | Made h bytes =>
      w <| live := <[next_handle w := (h, bytes)]> (live w) |> <| next_handle := S (next_handle w) |>
        <| results := results w ++ [done] |>
  | _ => w <| results := results w ++ [done] |>
  end.

(** The index of the pool's buffer a handle owns. *)
Definition owns (h : Handle) : option Z :=
  match h with Pooled idx _ | PacketRef idx => Some idx | Heap _ => None end.

Definition pushed (pc : PoolPc) : list Z :=
  match pc with PFree _ (EWrite item _) => [item] | _ => [] end.

Definition pool_act (w : World) (act : PoolAct) : option World :=
  match act with
  | Start tid job =>
      match calls w !! tid with
      | Some _ => Some w
      | None => Some (w <| calls := <[tid := PAlloc job DLoad]> (calls w) |>)
      end
  | DropHandle tid hid =>
      match calls w !! tid, live w !! hid with
      | None, Some (h, _) =>
          let w := w <| live := delete hid (live w) |> in
          match owns h with
          | Some idx => Some (w <| calls := <[tid := PReset Dropped idx]> (calls w) |>)
          | None => Some (w <| results := results w ++ [Dropped] |>)
          end
      | _, _ => Some w
      end
  | Rewrite hid bytes =>
      match live w !! hid with
      | Some (PacketRef idx, _) =>
          let! b := get (pool w) idx in
          let! res := copy_from_slice b bytes in
          match res with
          | Some b => Some (w <| pool := set_buffer (pool w) idx b |> <| live := <[hid := (PacketRef idx, bytes)]> (live w) |>)
          | None => Some w
          end
      | _ => Some w
      end
  | PoolStep tid weak =>
      match calls w !! tid with
      | None => Some w
      | Some pc =>
          let! res := pool_step (pool w) pc weak in
          let w := w <| pool := res.1 |> in
          match res.2 with
          | inl pc => Some (w <| calls := <[tid := pc]> (calls w) |> <| hist := hist w ++ pushed pc |>)
          | inr done => Some (finish_job (w <| calls := delete tid (calls w) |>) done)
          end
      end
  end.

Fixpoint pool_run (w : World) (acts : list PoolAct) : option World :=
  match acts with
  | [] => Some w
  | act :: acts => let! w := pool_act w act in pool_run w acts
  end.
(** ** Where each buffer is

    Every index is in one place: at a position of the ring, held by a call, or owned
    by a live handle; the place says what the buffer looks like. *)
Inductive Place := AtPos (n : Z) | AtCall (tid : nat) | AtHandle (hid : nat).
#[export] Instance place_eq_dec : EqDecision Place.
Proof. solve_decision. Defined.

Inductive Want := Any | Idle | Marked | Starts (bytes : list Z) | Filled (bytes : list Z).

Definition meets (b : PacketBuffer) (want : Want) : Prop :=
  match want with
  | Any => True
  | Idle => buf_len b = 0 ∧ refcount b = 0
  | Marked => refcount b = 1
  | Starts bytes => refcount b = 1 ∧ take (length bytes) (data b) = bytes
  | Filled bytes => refcount b = 1 ∧ take (length bytes) (data b) = bytes ∧ buf_len b = len bytes
  end.

(** The index a call holds: from the exchange that took it off the ring to the one
    that puts it back. *)
Definition held (hist : list Z) (pc : PoolPc) : option (Z * Want) :=
  match pc with
  | PAlloc _ (DRead t) => (λ i, (i, Idle)) <$> at_pos hist t
  | PAlloc _ (DPublish _ i) => Some (i, Idle)
  | PMark _ i => Some (i, Idle)
  | PHeader _ i => Some (i, Marked)
  | PPayload prefix _ i => Some (i, Starts prefix)
  | PSetLen prefix payload i => Some (i, Starts (prefix ++ payload))
  | PReset _ i => Some (i, Any)
  | PFree _ (ELoad i | ELoop i _ | ECas i _) => Some (i, Idle)
  | _ => None
  end.

Definition owned_by (h : Handle * list Z) : option (Z * Want) :=
  match h with
  | (Pooled i _, bytes) => Some (i, Starts bytes)
  | (PacketRef i, bytes) => Some (i, Filled bytes)
  | (Heap _, _) => None
  end.

Definition on_ring (r : MpmcRing Z) (hist : list Z) (n : Z) : option (Z * Want) :=
  if (tail r <=? n) && (n <? head r) then (λ i, (i, Idle)) <$> at_pos hist n else None.

Definition at_place (w : World) (pl : Place) : option (Z * Want) :=
  match pl with
  | AtPos n => on_ring (free_indices (pool w)) (hist w) n
  | AtCall tid => calls w !! tid ≫= held (hist w)
  | AtHandle hid => live w !! hid ≫= owned_by
  end.

Record places_ok (f : Place → option (Z * Want)) (bufs : list PacketBuffer) : Prop := {
  pl_one : ∀ x y i a b, f x = Some (i, a) → f y = Some (i, b) → x = y;
  pl_all : ∀ i, 0 ≤ i < Z.of_nat (length bufs) → ∃ x a, f x = Some (i, a);
  pl_met : ∀ x i a, f x = Some (i, a) → 0 ≤ i ∧ ∃ b, bufs !! Z.to_nat i = Some b ∧ index b = i ∧
    len (data b) = MAX_PACKET_SIZE ∧ meets b a
}.

(** An index moves from one place to another, and only its buffer changes. *)
Lemma places_moved f f' bufs p q i a a' b b' :
  places_ok f bufs → f p = Some (i, a) → (f q = None ∨ q = p) →
  (∀ x, f' x = if decide (x = q) then Some (i, a') else if decide (x = p) then None else f x) →
  bufs !! Z.to_nat i = Some b → index b' = index b → len (data b') = len (data b) → meets b' a' →
  places_ok f' (<[Z.to_nat i := b']> bufs).
Proof.
  intros [H1 H2 H3] Hp Hq Hf' Hb Hi Hl Hm.
  assert (∀ x j c, f' x = Some (j, c) → (x = q ∧ j = i ∧ c = a') ∨ (x ≠ q ∧ f x = Some (j, c) ∧ j ≠ i)) as Hinv.
  { intros x j c Hx. rewrite Hf' in Hx. case_decide; [left; by simplify_eq|]. case_decide as Hxp; [done|].
    right. split; [done|]. split; [done|]. intros ->. by apply Hxp, (H1 x p i c a). }
  pose proof (lookup_lt_Some _ _ _ Hb) as Hlt. split.
  - intros x y j c d Hx Hy. destruct (Hinv _ _ _ Hx) as [(-> & -> & _)|(_ & Fx & Hne)],
      (Hinv _ _ _ Hy) as [(-> & E & _)|(_ & Fy & Hne')]; try done. by apply (H1 x y j c d).
  - rewrite length_insert. intros j Hj. destruct (H2 j Hj) as (x & c & Hx). destruct (decide (j = i)) as [->|Hne].
    + exists q, a'. rewrite Hf'. by rewrite decide_True.
    + exists x, c. rewrite Hf', !decide_False; [done| |].
      * intros ->. rewrite Hp in Hx. by simplify_eq.
      * intros ->. destruct Hq as [Hq| ->]; [by rewrite Hq in Hx|]. rewrite Hp in Hx. by simplify_eq.
  - intros x j c Hx. apply Hinv in Hx as [(-> & -> & ->)|(_ & Hx & Hne)].
    + destruct (H3 p i a Hp) as (Hi0 & b0 & Hb0 & Hix & Hl0 & _). rewrite Hb in Hb0. simplify_eq. split; [done|].
      exists b'. rewrite list_lookup_insert_eq by done. by rewrite Hi, Hl.
    + destruct (H3 x j c Hx) as (Hj0 & b0 & Hb0 & Hrest). split; [done|]. exists b0.
      destruct (H3 p i a Hp) as (Hi0 & _). rewrite list_lookup_insert_ne; [done|lia].
Qed.

Lemma places_ext f f' bufs : places_ok f bufs → (∀ x, f' x = f x) → places_ok f' bufs.
Proof. intros [H1 H2 H3] He. split; intros *; rewrite ?He; [apply H1| |apply H3]. intros Hi. destruct (H2 i Hi) as (x & a & Hx). exists x, a. by rewrite He. Qed.

(** ** The invariant *)

Definition ring_pc (pc : PoolPc) : option (Pc Z) :=
  match pc with PAlloc _ pc | PFree _ pc => Some pc | _ => None end.

Definition dequeues (pc : Pc Z) : Prop :=
  match pc with DLoad | DLoop _ | DCas _ | DRead _ | DPublish _ _ => True | _ => False end.

Definition done_fits (done : Done) : Prop :=
  match done with Made h bytes => h = Heap bytes | _ => True end.

(** What a call relies on beside the buffer it holds. *)
Definition call_fits (pc : PoolPc) : Prop :=
  match pc with
  | PAlloc _ pc => dequeues pc
  | PFree done pc => done_fits done ∧ ¬ dequeues pc
  | PReset done _ => done_fits done
  | PPayload prefix payload _ | PSetLen prefix payload _ => len prefix + len payload ≤ MAX_PACKET_SIZE
  | _ => True
  end.

Definition handle_fits (h : Handle * list Z) : Prop :=
  match h with
  | (Pooled _ n, bytes) => n = len bytes ∧ len bytes ≤ MAX_PACKET_SIZE
  | (Heap l, bytes) => l = bytes
  | (PacketRef _, bytes) => len bytes ≤ MAX_PACKET_SIZE
  end.

Record world_ok (w : World) : Prop := {
  wo_ring : ring_ok (free_indices (pool w)) (hist w) (omap ring_pc (calls w));
  wo_places : places_ok (at_place w) (buffers (pool w));
  wo_calls : ∀ tid pc, calls w !! tid = Some pc → call_fits pc;
  wo_live : ∀ hid h, live w !! hid = Some h → handle_fits h ∧ (hid < next_handle w)%nat
}.

(** *** Steps on a held buffer *)

Lemma set_same p i b : get p i = Some b → set_buffer p i b = p.
Proof. intros Hb. unfold set_buffer. destruct p as [bufs r c]. unfold upd. cbn in *. by rewrite list_insert_id. Qed.

Lemma held_buffer w tid pc i a :
  world_ok w → calls w !! tid = Some pc → held (hist w) pc = Some (i, a) →
  ∃ b, get (pool w) i = Some b ∧ index b = i ∧ len (data b) = MAX_PACKET_SIZE ∧ meets b a.
Proof.
  intros Hw Hc Hh. destruct (pl_met _ _ (wo_places _ Hw) (AtCall tid) i a) as (_ & b & Hb); [|by exists b].
  simpl. by rewrite Hc.
Qed.

Lemma calls_insert w tid pc' :
  (∀ a pa, calls w !! a = Some pa → call_fits pa) → call_fits pc' →
  ∀ a pa, <[tid := pc']> (calls w) !! a = Some pa → call_fits pa.
Proof. intros H1 H2 a pa Ha. apply lookup_insert_Some in Ha as [[_ <-]|[_ Ha]]; eauto. Qed.

Lemma held_step w tid pc pc' i a a' b b' :
  world_ok w → calls w !! tid = Some pc → ring_pc pc = None → held (hist w) pc = Some (i, a) →
  get (pool w) i = Some b → index b' = index b → len (data b') = len (data b) →
  held (hist w) pc' = Some (i, a') → meets b' a' → call_fits pc' →
  (ring_pc pc' = None ∨ ∃ x, ring_pc pc' = Some (ELoad x)) →
  world_ok (w <| pool := set_buffer (pool w) i b' |> <| calls := <[tid := pc']> (calls w) |>).
Proof.
  intros Hw Hc Hpc Hh Hb Hi Hl Hh' Hm Hf Hr. destruct (Hw) as [W1 W2 W3 W4].
  assert (omap ring_pc (calls w) !! tid = None) as Hno by (by rewrite lookup_omap, Hc).
  split; simpl; [| |by apply calls_insert|done].
  - rewrite omap_insert. destruct Hr as [-> | [x ->]]; [by rewrite delete_id|]. apply call_ok; eauto.
  - eapply (places_moved _ _ _ (AtCall tid) (AtCall tid)); [done| |by right| |done|done|done|done].
    + simpl. by rewrite Hc.
    + intros [n|t|hid]; repeat case_decide; simplify_eq; simpl; [done| |by rewrite lookup_insert_ne by congruence|done].
      by rewrite lookup_insert_eq.
Qed.

Lemma held_made w tid pc i a a' b b' h bytes :
  world_ok w → calls w !! tid = Some pc → ring_pc pc = None → held (hist w) pc = Some (i, a) →
  get (pool w) i = Some b → index b' = index b → len (data b') = len (data b) →
  owned_by (h, bytes) = Some (i, a') → meets b' a' → handle_fits (h, bytes) →
  world_ok (finish_job (w <| pool := set_buffer (pool w) i b' |> <| calls := delete tid (calls w) |>) (Made h bytes)).
Proof.
  intros Hw Hc Hpc Hh Hb Hi Hl Hh' Hm Hf. destruct (Hw) as [W1 W2 W3 W4].
  assert (live w !! next_handle w = None) as Hnew.
  { destruct (live w !! next_handle w) as [x|] eqn:E; [|done]. destruct (W4 _ _ E). lia. }
  split; simpl.
  - rewrite omap_delete, delete_id; [done|]. by rewrite lookup_omap, Hc.
  - eapply (places_moved _ _ _ (AtCall tid) (AtHandle (next_handle w))); [done| | | |done|done|done|done].
    + simpl. by rewrite Hc.
    + left. simpl. by rewrite Hnew.
    + intros [n|t|hid]; repeat case_decide; simplify_eq; simpl; [done| | | |].
      * by rewrite lookup_delete_eq.
      * by rewrite lookup_delete_ne by congruence.
      * by rewrite lookup_insert_eq.
      * by rewrite lookup_insert_ne by congruence.
  - intros t pa Ha. apply lookup_delete_Some in Ha as [_ Ha]. eauto.
  - intros hid x Hx. apply lookup_insert_Some in Hx as [[<- <-]|[_ Hx]]; [split; [done|lia]|]. destruct (W4 _ _ Hx). split; [done|lia].
Qed.

(** *** Steps on the ring *)

(** What a step of [dequeue] does, and a step of [enqueue] with its item. *)
Inductive deq_step (r : MpmcRing Z) : Pc Z → Pc Z + Ret Z → Prop :=
| DSpin pc pc' : reader pc = None → reader pc' = None → dequeues pc' → deq_step r pc (inl pc')
| DTake pc : reader pc = None → deq_step r pc (inl (DRead (tail r)))
| DGot t item : deq_step r (DRead t) (inl (DPublish t item))
| DReturn t item : deq_step r (DPublish t item) (inr (Dequeued t item))
| DNothing pc : reader pc = None → deq_step r pc (inr Empty).

Definition pending (pc : Pc Z) : option Z :=
  match pc with ELoad x | ELoop x _ | ECas x _ => Some x | _ => None end.

Inductive enq_step (r : MpmcRing Z) : Pc Z → Pc Z + Ret Z → Prop :=
| ESpin pc pc' x : pending pc = Some x → pending pc' = Some x → enq_step r pc (inl pc')
| EFull pc x : pending pc = Some x → enq_step r pc (inr (Full x))
| EClaim x : enq_step r (ECas x (head r)) (inl (EWrite x (head r)))
| EFilled x h : enq_step r (EWrite x h) (inl (EPublish x h))
| EReturn x h : enq_step r (EPublish x h) (inr (Enqueued h x)).

Ltac ring_cases H :=
  cbn [ring_step] in H;
  repeat match type of H with
  | context [match ?x with _ => _ end] => destruct x eqn:?; try discriminate H
  | context [?x ≫= _] => destruct x eqn:?; cbn [mbind option_bind] in H; try discriminate H
  end; simplify_eq/=.

Lemma dequeue_cases r pc weak r' o : dequeues pc → ring_step r pc weak = Some (r', o) → deq_step r pc o.
Proof.
  intros Hd Hs. destruct pc; try done; ring_cases Hs; try (by constructor).
  apply andb_true_iff in Heqb as [<-%Z.eqb_eq _]. by constructor.
Qed.

Lemma enqueue_cases r pc weak r' o : ¬ dequeues pc → ring_step r pc weak = Some (r', o) → enq_step r pc o.
Proof.
  intros Hd Hs. destruct pc as [| |? h| | | | | | |]; try (by destruct Hd); ring_cases Hs; try (by econstructor).
  apply andb_true_iff in Heqb as [<-%Z.eqb_eq _]. by constructor.
Qed.

Lemma on_ring_taken r hist r' n :
  tail r' = tail r + 1 → head r' = head r →
  on_ring r' hist n = if decide (n = tail r) then None else on_ring r hist n.
Proof.
  intros Ht Hh. unfold on_ring. rewrite Ht, Hh. case_decide as Hn.
  - subst. by rewrite (proj2 (Z.leb_gt _ _)) by lia.
  - replace (tail r + 1 <=? n) with (tail r <=? n); [done|]. destruct (Z.leb_spec (tail r) n), (Z.leb_spec (tail r + 1) n); lia.
Qed.

Lemma on_ring_claimed r hist pcs r' x n :
  ring_ok r hist pcs → tail r' = tail r → head r' = head r + 1 →
  on_ring r' (hist ++ [x]) n = if decide (n = head r) then Some (x, Idle) else on_ring r hist n.
Proof.
  intros Hr Ht Hh. pose proof (ro_order _ _ _ Hr). pose proof (ro_hist _ _ _ Hr) as Hl.
  unfold on_ring. rewrite Ht, Hh. case_decide as Hn.
  - subst. rewrite (proj2 (Z.leb_le _ _)), (proj2 (Z.ltb_lt _ _)) by lia. cbn [andb].
    rewrite <- Hl, at_pos_snoc. done.
  - replace (n <? head r + 1) with (n <? head r) by (destruct (Z.ltb_spec n (head r)), (Z.ltb_spec n (head r + 1)); lia).
    destruct (Z.leb_spec (tail r) n), (Z.ltb_spec n (head r)); cbn [andb]; try done. rewrite at_pos_app; [done|lia].
Qed.

Lemma on_ring_same r r' hist n : tail r' = tail r → head r' = head r → on_ring r' hist n = on_ring r hist n.
Proof. unfold on_ring. by intros -> ->. Qed.

(** What a call holds does not change when the ring's history grows. *)
Lemma held_app w tid pc l : world_ok w → calls w !! tid = Some pc → held (hist w ++ l) pc = held (hist w) pc.
Proof.
  intros Hw Hc. destruct pc as [job rpc| | | | | |fin rpc]; try reflexivity. destruct rpc as [| | | | | | | |t|]; try reflexivity. simpl.
  pose proof (wo_ring _ Hw) as Hr. assert (omap ring_pc (calls w) !! tid = Some (DRead t)) as Ht by (by rewrite lookup_omap, Hc).
  destruct (ro_pcs _ _ _ Hr _ _ Ht) as [? _]. pose proof (ro_order _ _ _ Hr). rewrite at_pos_app; [done|].
  rewrite (ro_hist _ _ _ Hr). lia.
Qed.

(** The bounds a step keeps. *)
Definition near (w w' : World) : Prop :=
  capacity (free_indices (pool w')) = capacity (free_indices (pool w)) ∧
  head (free_indices (pool w')) ≤ head (free_indices (pool w)) + 1 ∧
  length (buffers (pool w')) = length (buffers (pool w)).

(** A step of the ring that leaves every index where it is. *)
Lemma ring_stays w tid pc r' pcs' (calls' : gmap nat PoolPc) :
  world_ok w → calls w !! tid = Some pc → ring_ok r' (hist w) pcs' → omap ring_pc calls' = pcs' →
  tail r' = tail (free_indices (pool w)) → head r' = head (free_indices (pool w)) →
  (∀ t, t ≠ tid → calls' !! t = calls w !! t) →
  (calls' !! tid ≫= held (hist w) = held (hist w) pc) →
  (∀ pc', calls' !! tid = Some pc' → call_fits pc') →
  world_ok (w <| pool := (pool w) <| free_indices := r' |> |> <| calls := calls' |>).
Proof.
  intros Hw Hc Hr <- Ht Hh Hother Hme Hfit. destruct (Hw) as [W1 W2 W3 W4]. split; simpl; [done| | |done].
  - apply (places_ext (at_place w)); [done|]. intros [n|t|hid]; simpl; [by apply on_ring_same| |done].
    destruct (decide (t = tid)) as [->|Hne]; [by rewrite Hme, Hc|by rewrite Hother].
  - intros t pa Ha. destruct (decide (t = tid)) as [->|Hne]; [eauto|]. rewrite Hother in Ha by done. eauto.
Qed.

Lemma finish_none w done : world_ok w → done_fits done → world_ok (finish_job w done).
Proof.
  intros [W1 W2 W3 W4] Hd. destruct done as [h bytes| | |]; [|done..]. simpl in Hd. subst h.
  assert (live w !! next_handle w = None) as Hnew.
  { destruct (live w !! next_handle w) as [x|] eqn:E; [|done]. destruct (W4 _ _ E). lia. }
  split; simpl; [done| |done|].
  - apply (places_ext (at_place w)); [done|]. intros [n|t|hid]; simpl; try done.
    destruct (decide (hid = next_handle w)) as [->|]; [by rewrite lookup_insert_eq, Hnew|by rewrite lookup_insert_ne].
  - intros hid x Hx. apply lookup_insert_Some in Hx as [[<- <-]|[_ Hx]]; [split; [done|lia]|]. destruct (W4 _ _ Hx). split; [done|lia].
Qed.

Lemma exhausted_fits job : done_fits (exhausted job).
Proof. by destruct job. Qed.

Lemma take_index w tid job rpc r' :
  world_ok w → calls w !! tid = Some (PAlloc job rpc) → reader rpc = None →
  ring_ok r' (hist w) (<[tid := DRead (tail (free_indices (pool w)))]> (omap ring_pc (calls w))) →
  tail r' = tail (free_indices (pool w)) + 1 → head r' = head (free_indices (pool w)) →
  world_ok (w <| pool := (pool w) <| free_indices := r' |> |>
    <| calls := <[tid := PAlloc job (DRead (tail (free_indices (pool w))))]> (calls w) |>).
Proof.
  intros Hw Hc Hrd Hr Ht Hh. destruct (Hw) as [W1 W2 W3 W4]. set (r := free_indices (pool w)) in *.
  pose proof (ro_order _ _ _ W1) as Ho. pose proof (ro_order _ _ _ Hr). pose proof (ro_hist _ _ _ W1).
  destruct (lookup_lt_is_Some_2 (hist w) (Z.to_nat (tail r))) as [x Hx]; [lia|].
  assert (at_pos (hist w) (tail r) = Some x) as Hat by (unfold at_pos; by rewrite (proj2 (Z.ltb_ge _ _)) by lia).
  assert (at_place w (AtPos (tail r)) = Some (x, Idle)) as Hp.
  { simpl. unfold on_ring. fold r. by rewrite (proj2 (Z.leb_le _ _)), (proj2 (Z.ltb_lt _ _)), Hat by lia. }
  destruct (pl_met _ _ W2 _ _ _ Hp) as (_ & b & Hb & _ & _ & Hm).
  split; simpl; [by rewrite omap_insert| |by apply calls_insert|done].
  rewrite <- (list_insert_id _ _ _ Hb).
  apply (places_moved (at_place w) _ _ (AtPos (tail r)) (AtCall tid) x Idle Idle b b); try done.
  - left. simpl. rewrite Hc. by destruct rpc.
  - intros [n|t|hid]; simpl.
    + rewrite (on_ring_taken r _ r' n) by done. repeat case_decide; by simplify_eq.
    + case_decide; simplify_eq.
      * rewrite lookup_insert_eq. simpl. by rewrite Hat.
      * by rewrite lookup_insert_ne by congruence.
    + done.
Qed.

Lemma put_index w tid done x r' :
  let r := free_indices (pool w) in
  world_ok w → calls w !! tid = Some (PFree done (ECas x (head r))) →
  ring_ok r' (hist w ++ [x]) (<[tid := EWrite x (head r)]> (omap ring_pc (calls w))) →
  tail r' = tail r → head r' = head r + 1 →
  world_ok (w <| pool := (pool w) <| free_indices := r' |> |> <| calls := <[tid := PFree done (EWrite x (head r))]> (calls w) |>
    <| hist := hist w ++ [x] |>).
Proof.
  intros r Hw Hc Hr Ht Hh. destruct (Hw) as [W1 W2 W3 W4].
  assert (at_place w (AtCall tid) = Some (x, Idle)) as Hp by (simpl; by rewrite Hc).
  destruct (pl_met _ _ W2 _ _ _ Hp) as (_ & b & Hb & _ & _ & Hm).
  pose proof (W3 _ _ Hc) as [Hdf _].
  split; simpl; [by rewrite omap_insert| |apply calls_insert; [done|by split; [|intros []]]|done].
  rewrite <- (list_insert_id _ _ _ Hb).
  apply (places_moved (at_place w) _ _ (AtCall tid) (AtPos (head r)) x Idle Idle b b); try done.
  - left. simpl. unfold on_ring. fold r. by rewrite (proj2 (Z.ltb_ge (head r) _)), andb_false_r by lia.
  - intros [n|t|hid]; simpl.
    + rewrite (on_ring_claimed r _ _ r' x n W1) by done. fold r. repeat case_decide; by simplify_eq.
    + case_decide; simplify_eq.
      * by rewrite lookup_insert_eq.
      * rewrite lookup_insert_ne by congruence. destruct (calls w !! t) as [pa|] eqn:Ha; [|done].
        by apply (held_app w t).
    + done.
Qed.

(** The outcome of a call's step. *)
Definition acts_ok (w : World) (act : PoolAct) : Prop := ∃ w', pool_act w act = Some w' ∧ world_ok w' ∧ near w w'.

Lemma step_goes w tid pc weak p' pc' :
  calls w !! tid = Some pc → pool_step (pool w) pc weak = Some (p', inl pc') → pushed pc' = [] →
  let w' := w <| pool := p' |> <| calls := <[tid := pc']> (calls w) |> in
  world_ok w' → near w w' → acts_ok w (PoolStep tid weak).
Proof.
  intros Hc Hs Hp w' Hok Hn. exists w'. split; [|done]. cbn [pool_act]. rewrite Hc, Hs. cbn [fst snd]. rewrite Hp.
  subst w'. destruct w. unfold upd. cbn. by rewrite app_nil_r.
Qed.

Lemma step_ends w tid pc weak p' res :
  calls w !! tid = Some pc → pool_step (pool w) pc weak = Some (p', inr res) →
  let w' := finish_job (w <| pool := p' |> <| calls := delete tid (calls w) |>) res in
  world_ok w' → near w w' → acts_ok w (PoolStep tid weak).
Proof. intros Hc Hs w' Hok Hn. exists w'. split; [|done]. cbn [pool_act]. by rewrite Hc, Hs. Qed.

Lemma near_ring w r' c :
  capacity r' = capacity (free_indices (pool w)) → head r' ≤ head (free_indices (pool w)) + 1 →
  near w (w <| pool := (pool w) <| free_indices := r' |> |> <| calls := c |>).
Proof. intros Hc Hh. split; [done|]. by split. Qed.

Lemma near_finish w w' res : near w w' → near w (finish_job w' res).
Proof. by destruct res. Qed.

Lemma near_buffer w i b c : near w (w <| pool := set_buffer (pool w) i b |> <| calls := c |>).
Proof. split; [done|]. split; [simpl; lia|]. simpl. apply length_insert. Qed.

(** A ring step of a call that goes on. *)
Lemma ring_goes w tid pc rpc pc' r' x' :
  world_ok w → calls w !! tid = Some pc → ring_pc pc = Some rpc →
  ring_ok r' (hist w) (moved (omap ring_pc (calls w)) tid x') →
  (match x' with inl y => ring_pc pc' = Some y | inr _ => ring_pc pc' = None end) →
  tail r' = tail (free_indices (pool w)) → head r' = head (free_indices (pool w)) →
  held (hist w) pc' = held (hist w) pc → call_fits pc' →
  world_ok (w <| pool := (pool w) <| free_indices := r' |> |> <| calls := <[tid := pc']> (calls w) |>).
Proof.
  intros Hw Hc Hp Hr Hx Ht Hh Hme Hf.
  apply (ring_stays w tid pc r' (moved (omap ring_pc (calls w)) tid x')); try done.
  - rewrite omap_insert. by destruct x'; rewrite Hx.
  - intros t Hne. by rewrite lookup_insert_ne.
  - by rewrite lookup_insert_eq.
  - rewrite lookup_insert_eq. by intros ? [= <-].
Qed.

Lemma ring_ends w tid pc r' ret :
  world_ok w → calls w !! tid = Some pc → held (hist w) pc = None →
  ring_ok r' (hist w) (moved (omap ring_pc (calls w)) tid (inr ret)) →
  tail r' = tail (free_indices (pool w)) → head r' = head (free_indices (pool w)) →
  world_ok (w <| pool := (pool w) <| free_indices := r' |> |> <| calls := delete tid (calls w) |>).
Proof.
  intros Hw Hc Hno Hr Ht Hh.
  apply (ring_stays w tid pc r' (moved (omap ring_pc (calls w)) tid (inr ret))); try done.
  - by rewrite omap_delete.
  - intros t Hne. by rewrite lookup_delete_ne.
  - by rewrite lookup_delete_eq, Hno.
  - by rewrite lookup_delete_eq.
Qed.

Lemma alloc_step w tid job rpc weak :
  world_ok w → room64 (free_indices (pool w)) → calls w !! tid = Some (PAlloc job rpc) →
  acts_ok w (PoolStep tid weak).
Proof.
  intros Hw Hroom Hc. pose proof (wo_ring _ Hw) as Hr. pose proof (wo_calls _ Hw _ _ Hc) as Hd. simpl in Hd.
  assert (omap ring_pc (calls w) !! tid = Some rpc) as Ht by (by rewrite lookup_omap, Hc).
  destruct (ring_step_ok _ _ _ _ _ weak Hr Hroom Ht) as (r' & o & Hs & [S1 S2 S3 S4 S5]).
  assert (claimed o = []) as E1 by (destruct (dequeue_cases _ _ _ _ _ Hd Hs) as [? pc'| | | |]; by try destruct pc').
  rewrite E1, app_nil_r in S1. rewrite E1 in S3. cbn [length] in S3. assert (head r' = head (free_indices (pool w))) as Hh by lia.
  destruct (dequeue_cases _ _ _ _ _ Hd Hs) as [pc pc' H1 H2 H3|pc H1|t item|t item|pc H1]; cbn [taken] in S4.
  - eapply (step_goes w tid _ weak ((pool w) <| free_indices := r' |>)); [done|cbn [pool_step]; rewrite Hs; reflexivity|done| |apply (near_ring w r'); [done|lia]].
    apply (ring_goes w tid (PAlloc job pc) pc (PAlloc job pc') r' (inl pc')); try done; [|by destruct pc, pc'].
    rewrite S4. destruct pc'; try done; lia.
  - eapply (step_goes w tid _ weak ((pool w) <| free_indices := r' |>)); [done|cbn [pool_step]; rewrite Hs; reflexivity|done| |apply (near_ring w r'); [done|lia]].
    by apply (take_index _ _ _ pc).
  - eapply (step_goes w tid _ weak ((pool w) <| free_indices := r' |>)); [done|cbn [pool_step]; rewrite Hs; reflexivity|done| |apply (near_ring w r'); [done|lia]].
    apply (ring_goes w tid (PAlloc job (DRead t)) (DRead t) _ r' (inl (DPublish t item))); try done; [lia|].
    destruct (ro_pcs _ _ _ S1 tid (DPublish t item)) as (_ & Hat & _); [simpl; by rewrite lookup_insert_eq|].
    simpl. by rewrite Hat.
  - eapply (step_goes w tid _ weak ((pool w) <| free_indices := r' |>)); [done|cbn [pool_step]; rewrite Hs; reflexivity|done| |apply (near_ring w r'); [done|lia]].
    apply (ring_goes w tid (PAlloc job (DPublish t item)) (DPublish t item) _ r' (inr (Dequeued t item))); try done; lia.
  - eapply (step_ends w tid _ weak ((pool w) <| free_indices := r' |>)); [done|cbn [pool_step]; rewrite Hs; reflexivity| |apply near_finish, (near_ring w r'); [done|lia]].
    apply finish_none; [|apply exhausted_fits].
    apply (ring_ends w tid (PAlloc job pc) r' Empty); try done; [by destruct pc|lia].
Qed.

Lemma free_step w tid res rpc weak :
  world_ok w → room64 (free_indices (pool w)) → calls w !! tid = Some (PFree res rpc) →
  acts_ok w (PoolStep tid weak).
Proof.
  intros Hw Hroom Hc. pose proof (wo_ring _ Hw) as Hr. pose proof (wo_calls _ Hw _ _ Hc) as [Hres Hd].
  assert (omap ring_pc (calls w) !! tid = Some rpc) as Ht by (by rewrite lookup_omap, Hc).
  destruct (ring_step_ok _ _ _ _ _ weak Hr Hroom Ht) as (r' & o & Hs & [S1 S2 S3 S4 S5]).
  destruct (enqueue_cases _ _ _ _ _ Hd Hs) as [pc pc' x H1 H2|pc x H1|x|x h|x h].
  - assert (claimed (inl pc') = [] ∧ taken (inl pc') = 0) as [E1 E2] by (by destruct pc').
    rewrite E1, app_nil_r in S1. rewrite E1 in S3. rewrite E2 in S4. cbn [length] in S3.
    eapply (step_goes w tid _ weak ((pool w) <| free_indices := r' |>)); [done|cbn [pool_step]; rewrite Hs; reflexivity|by destruct pc'| |apply (near_ring w r'); [done|lia]].
    apply (ring_goes w tid (PFree res pc) pc _ r' (inl pc')); try done; try lia.
    + destruct pc, pc'; try discriminate; by simplify_eq/=.
    + split; [done|]. destruct pc'; try discriminate; by intros [].
  - cbn in S1, S3, S4. rewrite app_nil_r in S1.
    eapply (step_goes w tid _ weak ((pool w) <| free_indices := r' |>)); [done|cbn [pool_step]; rewrite Hs; reflexivity|done| |apply (near_ring w r'); [done|lia]].
    apply (ring_goes w tid (PFree res pc) pc _ r' (inl (ELoad x))); try done; try lia.
    + simpl. rewrite <- insert_delete_eq. apply call_ok; [done|by rewrite lookup_delete_eq|eauto].
    + by destruct pc; simplify_eq/=.
    + by split; [|intros []].
  - cbn in S1, S3, S4. eexists. split; [cbn [pool_act]; rewrite Hc; cbn [pool_step]; rewrite Hs; done|].
    split; [|apply (near_ring w r'); [done|lia]]. apply (put_index w tid res x r'); [done|done|done|lia|lia].
  - cbn in S1, S3, S4. rewrite app_nil_r in S1.
    eapply (step_goes w tid _ weak ((pool w) <| free_indices := r' |>)); [done|cbn [pool_step]; rewrite Hs; reflexivity|done| |apply (near_ring w r'); [done|lia]].
    apply (ring_goes w tid (PFree res (EWrite x h)) (EWrite x h) _ r' (inl (EPublish x h))); try done; try lia.
  - cbn in S1, S3, S4. rewrite app_nil_r in S1.
    eapply (step_ends w tid _ weak ((pool w) <| free_indices := r' |>)); [done|cbn [pool_step]; rewrite Hs; reflexivity| |apply near_finish, (near_ring w r'); [done|lia]].
    apply finish_none; [|done]. apply (ring_ends w tid (PFree res (EPublish x h)) r' (Enqueued h x)); try done; lia.
Qed.

(** *** Steps on the bytes *)

Lemma put_bytes l a bs :
  0 ≤ a → a + len bs ≤ len l →
  ∃ l', put l a bs = Some l' ∧ len l' = len l ∧ take (Z.to_nat a + length bs) l' = take (Z.to_nat a) l ++ bs.
Proof.
  intros Ha Hb. unfold put. rewrite (proj2 (Z.leb_le _ _)) by done. eexists. split; [done|]. unfold len in *.
  split; [rewrite !length_app, length_take, length_drop; lia|].
  rewrite app_assoc, take_app_le by (rewrite length_app, length_take; lia).
  apply take_ge. rewrite length_app, length_take. lia.
Qed.

Lemma wrap32_small n : 0 ≤ n ≤ MAX_PACKET_SIZE → wrap32 n = n.
Proof. intros Hn. unfold MAX_PACKET_SIZE in Hn. unfold wrap32. apply Z.mod_small. unfold u32_bound. lia. Qed.

Lemma length_nonneg {A} (l : list A) : 0 ≤ Z.of_nat (length l).
Proof. lia. Qed.

Lemma copied b bytes :
  len (data b) = MAX_PACKET_SIZE → refcount b = 1 → len bytes ≤ MAX_PACKET_SIZE →
  ∃ b', copy_from_slice b bytes = Some (Some b') ∧ index b' = index b ∧ len (data b') = len (data b) ∧ meets b' (Filled bytes).
Proof.
  intros Hl Hr Hb. unfold copy_from_slice. rewrite (proj2 (Z.ltb_ge _ _)) by done.
  destruct (put_bytes (data b) 0 bytes) as (d & Hd & Hld & Ht); [done|lia|]. rewrite Hd.
  eexists. split; [done|]. split; [done|]. split; [done|]. split; [done|]. split; [done|].
  apply wrap32_small. unfold len. split; [lia|done].
Qed.

Lemma byte_step w tid pc weak :
  world_ok w → calls w !! tid = Some pc → ring_pc pc = None → acts_ok w (PoolStep tid weak).
Proof.
  intros Hw Hc Hp. pose proof (wo_calls _ Hw _ _ Hc) as Hf.
  assert (∃ i a, held (hist w) pc = Some (i, a)) as (i & a & Hh) by (destruct pc; simpl; eauto; done).
  destruct (held_buffer _ _ _ _ _ Hw Hc Hh) as (b & Hb & Hi & Hl & Hm).
  destruct pc as [|job idx|[prefix payload|bytes] idx|prefix payload idx|prefix payload idx|res idx|]; try done;
    simpl in Hh; injection Hh as <- <-.
  - eapply step_goes; [done|cbn [pool_step]; by rewrite Hb|done| |apply near_buffer].
    eapply (held_step w tid (PMark job idx)); try done; by left.
  - destruct (Z.leb_spec (len prefix + len payload) (len (data b))) as [Hle|Hgt].
    + destruct (put_bytes (data b) 0 prefix) as (d & Hd & Hld & Htk); [done|unfold len in *; lia|].
      eapply step_goes; [done|cbn [pool_step]; rewrite Hb, (proj2 (Z.leb_le _ _)), Hd by done; done|done| |apply near_buffer].
      assert (meets (b <| data := d |>) (Starts prefix)) by (split; [done|exact Htk]).
      assert (call_fits (PPayload prefix payload idx)) by (simpl; lia).
      eapply (held_step w tid (PHeader _ idx)); try done; by left.
    + eapply (step_goes w tid _ weak (set_buffer (pool w) idx b) (PReset _ idx)); [done| |done| |apply near_buffer].
      { cbn [pool_step]. rewrite Hb, (proj2 (Z.leb_gt _ _)), set_same by done. done. }
      eapply (held_step w tid (PHeader _ idx)); try done; by left.
  - destruct (Z.ltb_spec MAX_PACKET_SIZE (len bytes)) as [Hlt|Hge].
    + eapply (step_goes w tid _ weak (set_buffer (pool w) idx b) (PReset _ idx)); [done| |done| |apply near_buffer].
      { cbn [pool_step]. rewrite Hb. unfold copy_from_slice. rewrite (proj2 (Z.ltb_lt _ _)), set_same by done. done. }
      eapply (held_step w tid (PHeader _ idx)); try done; by left.
    + destruct (copied b bytes) as (b' & Hb' & ? & ? & ?); [done..|].
      eapply step_ends; [done|cbn [pool_step]; rewrite Hb, Hb'; done| |apply near_finish, near_buffer].
      by eapply (held_made w tid (PHeader _ idx)).
  - destruct Hm as [Hm Hpre]. destruct (put_bytes (data b) (len prefix) payload) as (d & Hd & Hld & Htk); [apply length_nonneg|simpl in Hf; lia|].
    eapply step_goes; [done|cbn [pool_step]; rewrite Hb, Hd; done|done| |apply near_buffer].
    assert (meets (b <| data := d |>) (Starts (prefix ++ payload))).
    { split; [done|]. unfold len in Htk. rewrite Nat2Z.id, Hpre in Htk. by rewrite length_app. }
    eapply (held_step w tid (PPayload prefix payload idx)); try done; by left.
  - simpl in Hf. destruct Hm as [Hm Hpre]. pose proof (length_nonneg prefix). pose proof (length_nonneg payload).
    eapply step_ends; [done|cbn [pool_step]; rewrite Hb; done| |apply near_finish, near_buffer].
    assert (handle_fits (Pooled idx (wrap32 (len prefix + len payload)), prefix ++ payload)).
    { simpl. rewrite wrap32_small by (unfold len in *; lia). unfold len in *. rewrite length_app. lia. }
    by eapply (held_made w tid (PSetLen prefix payload idx)).
  - eapply step_goes; [done|cbn [pool_step]; by rewrite Hb|done| |apply near_buffer].
    assert (held (hist w) (PFree res (ELoad (index b))) = Some (idx, Idle)) by (simpl; by rewrite Hi).
    assert (call_fits (PFree res (ELoad (index b)))) by (split; [done|by intros []]).
    eapply (held_step w tid (PReset res idx)); try done. right. by eexists.
Qed.

(** *** The other acts *)

Lemma start_ok w tid job : world_ok w → acts_ok w (Start tid job).
Proof.
  intros Hw. unfold acts_ok. cbn [pool_act]. destruct (calls w !! tid) eqn:Hc.
  - exists w. split; [done|]. split; [done|]. split; [done|]. split; [lia|done].
  - eexists. split; [done|]. split; [|split; [done|split; [simpl; lia|done]]]. destruct (Hw) as [W1 W2 W3 W4].
    split; simpl; [| |by apply calls_insert|done].
    + rewrite omap_insert. simpl. apply call_ok; [done|by rewrite lookup_omap, Hc|by right].
    + apply (places_ext (at_place w)); [done|]. intros [n|t|hid]; simpl; try done.
      destruct (decide (t = tid)) as [->|]; [by rewrite lookup_insert_eq, Hc|by rewrite lookup_insert_ne].
Qed.

Lemma drop_ok w tid hid : world_ok w → acts_ok w (DropHandle tid hid).
Proof.
  intros Hw. unfold acts_ok. cbn [pool_act].
  assert (∃ w', Some w = Some w' ∧ world_ok w' ∧ near w w') as Hsame.
  { exists w. split; [done|]. split; [done|]. split; [done|]. split; [lia|done]. }
  destruct (calls w !! tid) eqn:Hc; [done|]. destruct (live w !! hid) as [[h bytes]|] eqn:Hl; [|done].
  destruct (Hw) as [W1 W2 W3 W4].
  assert (∀ h x, delete hid (live w) !! h = Some x → handle_fits x ∧ (h < next_handle w)%nat) as Hlive.
  { intros h' x Hx. apply lookup_delete_Some in Hx as [_ Hx]. eauto. }
  destruct (owns h) as [i|] eqn:Ho; (eexists; split; [done|]; split; [|split; [done|split; [simpl; lia|done]]]).
  - split; simpl; [| |by apply calls_insert|done].
    + rewrite omap_insert. simpl. rewrite delete_id; [done|]. by rewrite lookup_omap, Hc.
    + assert (∃ a, owned_by (h, bytes) = Some (i, a)) as [a Ha] by (destruct h; simplify_eq/=; eauto).
      assert (at_place w (AtHandle hid) = Some (i, a)) as Hp by (simpl; by rewrite Hl).
      destruct (pl_met _ _ W2 _ _ _ Hp) as (_ & b & Hb & _).
      rewrite <- (list_insert_id _ _ _ Hb).
      apply (places_moved (at_place w) _ _ (AtHandle hid) (AtCall tid) i a Any b b); try done; [left; simpl; by rewrite Hc|].
      intros [n|t|h']; simpl; [done| |]; repeat case_decide; simplify_eq; [by rewrite lookup_insert_eq|..].
      * by rewrite lookup_insert_ne by congruence.
      * by rewrite lookup_delete_eq.
      * by rewrite lookup_delete_ne by congruence.
  - split; simpl; [done| |done|done]. apply (places_ext (at_place w)); [done|]. intros [n|t|h']; simpl; try done.
    destruct (decide (h' = hid)) as [->|]; [rewrite lookup_delete_eq, Hl; by destruct h|by rewrite lookup_delete_ne].
Qed.

Lemma rewrite_ok w hid bytes : world_ok w → acts_ok w (Rewrite hid bytes).
Proof.
  intros Hw. unfold acts_ok. cbn [pool_act].
  assert (∃ w', Some w = Some w' ∧ world_ok w' ∧ near w w') as Hsame.
  { exists w. split; [done|]. split; [done|]. split; [done|]. split; [lia|done]. }
  destruct (live w !! hid) as [[[| |i] old]|] eqn:Hl; try done. destruct (Hw) as [W1 W2 W3 W4].
  assert (at_place w (AtHandle hid) = Some (i, Filled old)) as Hp by (simpl; by rewrite Hl).
  destruct (pl_met _ _ W2 _ _ _ Hp) as (_ & b & Hb & Hi & Hlen & Hr & _). unfold get. rewrite Hb.
  destruct (Z.ltb_spec MAX_PACKET_SIZE (len bytes)) as [Hlt|Hge].
  { unfold copy_from_slice. by rewrite (proj2 (Z.ltb_lt _ _)) by done. }
  destruct (copied b bytes) as (b' & Hb' & Hix & Hld & Hm); [done..|]. rewrite Hb'.
  eexists. split; [done|]. split; [|split; [done|split; [simpl; lia|simpl; apply length_insert]]].
  split; simpl; [done| |done|].
  - apply (places_moved (at_place w) _ _ (AtHandle hid) (AtHandle hid) i (Filled old) (Filled bytes) b b'); try done; [by right|].
    intros [n|t|h']; simpl; [done|done|]. repeat case_decide; simplify_eq; [by rewrite lookup_insert_eq|].
    by rewrite lookup_insert_ne by congruence.
  - intros h x Hx. apply lookup_insert_Some in Hx as [[<- <-]|[_ Hx]]; [|eauto]. destruct (W4 _ _ Hl). by split.
Qed.

Lemma pool_act_ok w act : world_ok w → room64 (free_indices (pool w)) → acts_ok w act.
Proof.
  intros Hw Hroom. destruct act as [tid job|tid hid|hid bytes|tid weak];
    [by apply start_ok|by apply drop_ok|by apply rewrite_ok|].
  destruct (calls w !! tid) as [pc|] eqn:Hc.
  - destruct (ring_pc pc) as [rpc|] eqn:Hp; [|by apply (byte_step w tid pc)].
    destruct pc; simplify_eq/=; [by eapply alloc_step|by eapply free_step].
  - exists w. simpl. rewrite Hc. split; [done|]. split; [done|]. split; [done|]. split; [lia|done].
Qed.

Lemma pool_run_ok w acts :
  world_ok w →
  head (free_indices (pool w)) + Z.of_nat (length acts) + capacity (free_indices (pool w)) + 1 < 2 ^ 63 →
  ∃ w', pool_run w acts = Some w' ∧ world_ok w' ∧ length (buffers (pool w')) = length (buffers (pool w)) ∧
    head (free_indices (pool w')) ≤ head (free_indices (pool w)) + Z.of_nat (length acts) ∧
    capacity (free_indices (pool w')) = capacity (free_indices (pool w)).
Proof.
  revert w. induction acts as [|act acts IH]; intros w Hw Hb; cbn [pool_run length] in *.
  { exists w. split; [done|]. split; [done|]. split; [done|]. split; [lia|done]. }
  destruct (pool_act_ok w act) as (w1 & H1 & Hw1 & N1 & N2 & N3); [done|unfold room64; lia|]. rewrite H1.
  destruct (IH w1) as (w' & H2 & Hw' & L & Hh & Hc); [done|rewrite N1; lia|].
  exists w'. split; [done|]. split; [done|]. split; [congruence|]. split; [lia|congruence].
Qed.

(** ** A new pool *)

Definition start_world (p : PacketPool) : World :=
  MkWorld p ∅ ∅ 0 [] (Z.of_nat <$> seq 0 (Z.to_nat (pool_capacity p))).

Lemma seed_ok r hist indices :
  ring_ok r hist ∅ → tail r = 0 → head r + Z.of_nat (length indices) ≤ capacity r → 2 * capacity r + 2 < 2 ^ 63 →
  Forall (λ i, Z.of_nat i < 2 ^ 32) indices →
  ∃ r', seed r indices = Some r' ∧ ring_ok r' (hist ++ (Z.of_nat <$> indices)) ∅ ∧ capacity r' = capacity r ∧
    head r' = head r + Z.of_nat (length indices) ∧ tail r' = 0.
Proof.
  revert r hist. induction indices as [|i indices IH]; intros r hist Hr Ht Hh Hc Hi; cbn [length seed fmap list_fmap] in *.
  { exists r. rewrite app_nil_r. split; [done|]. split; [done|]. split; [done|]. split; [lia|done]. }
  apply Forall_cons in Hi as [Hi Hrest]. unfold wrap32, u32_bound. rewrite Z.mod_small by lia.
  destruct (enqueue_alone r hist 0 (Z.of_nat i)) as (r1 & E1 & R1 & C1 & H1 & T1); [| |lia|lia|].
  { rewrite <- insert_empty. apply call_ok; [done|done|eauto]. }
  { unfold room64. lia. }
  rewrite E1. cbn [fst]. destruct (IH r1 (hist ++ [Z.of_nat i])) as (r' & E & R & C & H & T); [done|lia|lia|lia|done|].
  exists r'. rewrite <- app_assoc in R. split; [done|]. split; [done|]. split; [lia|]. split; lia.
Qed.

Lemma new_places r c :
  0 ≤ c < 2 ^ 32 → tail r = 0 → head r = c →
  places_ok (at_place (MkWorld (MkPool ((λ i, new_buffer (wrap32 (Z.of_nat i))) <$> seq 0 (Z.to_nat c)) r c) ∅ ∅ 0 []
    (Z.of_nat <$> seq 0 (Z.to_nat c)))) ((λ i, new_buffer (wrap32 (Z.of_nat i))) <$> seq 0 (Z.to_nat c)).
Proof.
  intros Hc Ht Hh. set (w := MkWorld _ _ _ _ _ _).
  assert (∀ x i a, at_place w x = Some (i, a) ↔ x = AtPos i ∧ 0 ≤ i < c ∧ a = Idle) as Hat.
  { intros [n|t|h] i a; simpl; [|by split; [intros [=]|intros [[=] _]]..]. unfold on_ring. rewrite Ht, Hh.
    destruct (Z.leb_spec 0 n), (Z.ltb_spec n c); cbn [andb]; try (split; [intros [=]|intros ([= ->] & ? & _); lia]).
    unfold at_pos. rewrite (proj2 (Z.ltb_ge n 0)) by done. rewrite list_lookup_fmap, lookup_seq_lt by lia. simpl.
    rewrite Z2Nat.id by done. split; [by intros [= -> <-]|by intros ([= ->] & _ & ->)]. }
  split.
  - intros x y i a b Hx Hy. apply Hat in Hx as (-> & _). by apply Hat in Hy as (-> & _).
  - rewrite length_fmap, length_seq. intros i Hi. exists (AtPos i), Idle. apply Hat. split; [done|]. split; [lia|done].
  - intros x i a Hx. apply Hat in Hx as (-> & Hi & ->). split; [lia|].
    rewrite list_lookup_fmap, lookup_seq_lt by lia. eexists. split; [done|]. simpl plus. rewrite Z2Nat.id by lia.
    unfold wrap32, u32_bound. rewrite Z.mod_small by lia. split; [done|]. split; [|by split].
    unfold new_buffer. cbn [data]. unfold len. rewrite length_replicate. done.
Qed.

Lemma new_pool_ok c :
  2 ≤ c < 2 ^ 32 → ∃ p, new_pool c = Some p ∧ world_ok (start_world p) ∧ length (buffers p) = Z.to_nat c ∧
    head (free_indices p) = c ∧ c ≤ capacity (free_indices p) < 2 * c.
Proof.
  intros Hc. unfold new_pool. rewrite Z.max_l by lia.
  destruct (new_ring_ok (A := Z) c) as (r0 & E0 & C0 & H0 & T0 & R0 & _); [lia|].
  rewrite E0. destruct (next_power_of_two_pow c) as (k & Hk & Hp & Hle); [lia|].
  destruct (seed_ok r0 [] (seq 0 (Z.to_nat c))) as (r & E & R & C & H & T);
    [done|done|rewrite length_seq; lia|lia|apply Forall_seq; lia|].
  rewrite length_seq in H. rewrite E. eexists. split; [done|]. cbn [buffers free_indices].
  split; [|split; [by rewrite length_fmap, length_seq|split; lia]].
  split; simpl; [by rewrite omap_empty|apply new_places; lia|by intros ?? [=]|by intros ?? [=]].
Qed.

(** ** Every buffer is accounted for *)

Lemma NoDup_omap_inj {A B} (f : A → option B) (l : list A) :
  NoDup l → (∀ x y b, x ∈ l → y ∈ l → f x = Some b → f y = Some b → x = y) → NoDup (omap f l).
Proof.
  induction 1 as [|x l Hx Hl IH]; intros Hf; [constructor|]. cbn. destruct (f x) as [b|] eqn:Hb.
  - constructor.
    + intros (y & Hy & Hfy)%list_elem_of_omap. apply Hx. by rewrite (Hf x y b) by (done || set_solver).
    + apply IH. intros; eapply Hf; set_solver.
  - apply IH. intros; eapply Hf; set_solver.
Qed.

(** The indices on the ring, and those of the live handles. *)
Definition contents (w : World) : list Z := drop (Z.to_nat (tail (free_indices (pool w)))) (hist w).
Definition lent (w : World) : list Z := omap (λ kh, fst <$> owned_by kh.2) (map_to_list (live w)).

Lemma contents_at w k i :
  world_ok w → contents w !! k = Some i ↔
  at_place w (AtPos (tail (free_indices (pool w)) + Z.of_nat k)) = Some (i, Idle).
Proof.
  intros Hw. pose proof (wo_ring _ Hw) as Hr. pose proof (ro_order _ _ _ Hr). pose proof (ro_hist _ _ _ Hr) as Hl.
  unfold contents. simpl. unfold on_ring. set (r := free_indices (pool w)) in *. rewrite (proj2 (Z.leb_le (tail r) _)) by lia.
  rewrite lookup_drop. destruct (Z.ltb_spec (tail r + Z.of_nat k) (head r)); cbn [andb].
  - unfold at_pos. rewrite (proj2 (Z.ltb_ge _ 0)) by lia.
    replace (Z.to_nat (tail r + Z.of_nat k)) with (Z.to_nat (tail r) + k)%nat by lia.
    destruct (hist w !! _); simpl; naive_solver.
  - rewrite lookup_ge_None_2 by lia. done.
Qed.

Lemma lent_at w i : i ∈ lent w ↔ ∃ hid a, at_place w (AtHandle hid) = Some (i, a).
Proof.
  unfold lent. rewrite list_elem_of_omap. split.
  - intros ([hid h] & Hin & Hh). apply elem_of_map_to_list in Hin. simpl in *. rewrite fmap_Some in Hh.
    destruct Hh as ([j a] & Ho & ->). exists hid, a. by rewrite Hin.
  - intros (hid & a & Hh). simpl in Hh. apply bind_Some in Hh as (h & Hl & Ho). exists (hid, h).
    rewrite elem_of_map_to_list. simpl. by rewrite Ho.
Qed.

Lemma contents_NoDup w : world_ok w → NoDup (contents w).
Proof.
  intros Hw. apply NoDup_alt. intros a b i Ha Hb. apply (contents_at w) in Ha, Hb; try done.
  pose proof (pl_one _ _ (wo_places _ Hw) _ _ _ _ _ Ha Hb) as [=]. lia.
Qed.

Lemma lent_NoDup w : world_ok w → NoDup (lent w).
Proof.
  intros Hw. apply NoDup_omap_inj; [apply NoDup_map_to_list|]. intros [k x] [k' y] i Hx Hy.
  rewrite !elem_of_map_to_list in *. simpl. rewrite !fmap_Some. intros ([j a] & Ha & ->) ([j' b] & Hb & [= <-]).
  assert (AtHandle k = AtHandle k') as [= ->]; [|congruence].
  eapply (pl_one _ _ (wo_places _ Hw) _ _ j a b); simpl; [by rewrite Hx|by rewrite Hy].
Qed.

(** With no call in progress, the ring and the live handles hold every buffer once. *)
Lemma idle_accounting w :
  world_ok w → calls w = ∅ →
  contents w ++ lent w ≡ₚ Z.of_nat <$> seq 0 (length (buffers (pool w))).
Proof.
  intros Hw Hidle. pose proof (wo_places _ Hw) as [P1 P2 P3]. pose proof (ro_order _ _ _ (wo_ring _ Hw)).
  apply NoDup_Permutation.
  - apply NoDup_app. split; [by apply contents_NoDup|]. split; [|by apply lent_NoDup].
    intros i (k & Hk)%list_elem_of_lookup (hid & a & Hh)%lent_at. apply (contents_at w) in Hk; [|done].
    by pose proof (P1 _ _ _ _ _ Hk Hh).
  - apply NoDup_fmap_2; [apply _|apply NoDup_seq].
  - intros i. rewrite elem_of_app, list_elem_of_fmap. split.
    + assert (∀ x a, at_place w x = Some (i, a) → ∃ y, i = Z.of_nat y ∧ y ∈ seq 0 (length (buffers (pool w)))) as Hin.
      { intros x a Hx. destruct (P3 _ _ _ Hx) as (H0 & b & Hb & _). exists (Z.to_nat i). apply lookup_lt_Some in Hb.
        split; [lia|]. apply elem_of_seq. lia. }
      intros [(k & Hk)%list_elem_of_lookup|(hid & a & Hh)%lent_at]; [|by eapply Hin].
      eapply Hin. by apply (contents_at w).
    + intros (y & -> & Hy%elem_of_seq). destruct (P2 (Z.of_nat y)) as (x & a & Hx); [lia|].
      destruct x as [n|tid|hid]; [left| |right; apply lent_at; eauto].
      * pose proof Hx as Hx'. simpl in Hx'. unfold on_ring in Hx'. destruct (Z.leb_spec (tail (free_indices (pool w))) n); [|done].
        assert (a = Idle) as -> by (cbn [andb] in Hx'; destruct (n <? _); [|done]; destruct (at_pos (hist w) n); by simplify_eq/=).
        apply list_elem_of_lookup. exists (Z.to_nat (n - tail (free_indices (pool w)))). apply (contents_at w); [done|].
        rewrite <- Hx. do 2 f_equal. lia.
      * simpl in Hx. by rewrite Hidle in Hx.
Qed.

Lemma free_count_contents w :
  world_ok w → room64 (free_indices (pool w)) → free_count (pool w) = Z.of_nat (length (contents w)).
Proof.
  intros Hw Hroom. pose proof (wo_ring _ Hw) as Hr. pose proof (ro_order _ _ _ Hr). pose proof (ro_hist _ _ _ Hr).
  pose proof (cap_pos _ _ _ Hr). unfold room64 in Hroom.
  unfold free_count, ring_len, contents, wrap64, u64_bound. rewrite length_drop, Z.mod_small by lia. lia.
Qed.

Lemma live_reads w hid h bytes :
  world_ok w → live w !! hid = Some (h, bytes) → deref (pool w) h = Some bytes.
Proof.
  intros Hw Hl. destruct (wo_live _ Hw _ _ Hl) as [Hf _]. pose proof (pl_met _ _ (wo_places _ Hw) (AtHandle hid)) as Hp.
  simpl in Hp. rewrite Hl in Hp. simpl in Hp.
  destruct h as [i n|l|i]; simpl in Hf, Hp |- *; [destruct Hf as [-> Hle]|by subst|];
    destruct (Hp _ _ eq_refl) as (_ & b & Hb & _ & Hlen & Hm); unfold get, as_slice, range, len in *; rewrite Hb.
  - rewrite (proj2 (Z.leb_le 0 _)), (proj2 (Z.leb_le _ _)) by lia. cbn [andb]. rewrite Z.sub_0_r, Nat2Z.id, drop_0. f_equal. apply Hm.
  - destruct Hm as (_ & Hm & ->). unfold len. rewrite (proj2 (Z.leb_le 0 _)), (proj2 (Z.leb_le _ _)) by lia. cbn [andb].
    rewrite Z.sub_0_r, Nat2Z.id, drop_0. by f_equal.
Qed.

(** *** A drop with no other call in progress *)

Lemma idle_run n w tid : calls w = ∅ → pool_run w (replicate n (PoolStep tid false)) = Some w.
Proof. intros Hc. induction n as [|n IH]; [done|]. cbn. by rewrite Hc, lookup_empty. Qed.

Lemma free_alone_run fuel w tid pc r' h x :
  calls w = {[tid := PFree Dropped pc]} →
  call_alone fuel (free_indices (pool w)) pc = Some (r', Enqueued h x) →
  ∃ w', pool_run w (replicate fuel (PoolStep tid false)) = Some w' ∧ calls w' = ∅ ∧ live w' = live w ∧
    free_indices (pool w') = r'.
Proof.
  revert w pc. induction fuel as [|fuel IH]; intros w pc Hc Hcall; [done|].
  cbn [call_alone replicate pool_run pool_act] in *. rewrite Hc, lookup_singleton_eq. cbn [pool_step].
  destruct (ring_step (free_indices (pool w)) pc false) as [[r1 [pc1|ret]]|]; [| |done]; cbn [mbind option_bind fst snd] in *.
  - match goal with |- context [pool_run ?w2 _] => destruct (IH w2 pc1) as (w' & Hw'); [|done|by exists w'] end.
    simpl. by rewrite Hc, insert_singleton_eq.
  - injection Hcall as -> ->. cbn [fst snd]. eexists. rewrite idle_run; [split; [done|]; split; [|done]|];
      simpl; by rewrite Hc, delete_singleton_eq.
Qed.

(** C34: any number of threads allocate, fill, rewrite and drop frames and packets of
    one pool, in any interleaving of their steps on the ring of free indices and on
    the buffers. No step reads or writes out of range; every live frame and packet
    reads back exactly the bytes it was made from; no two live handles share a
    buffer; and when no call is in progress every buffer is either counted free or
    owned by one live handle. *)
Theorem frames_never_alias c acts :
  2 ≤ c < 2 ^ 32 → Z.of_nat (length acts) ≤ 2 ^ 62 →
  ∃ p w, new_pool c = Some p ∧ pool_run (start_world p) acts = Some w ∧
    (∀ hid h bytes, live w !! hid = Some (h, bytes) → deref (pool w) h = Some bytes) ∧
    (∀ a b h k x y i, live w !! a = Some (h, x) → live w !! b = Some (k, y) → owns h = Some i → owns k = Some i → a = b) ∧
    (calls w = ∅ → free_count (pool w) + Z.of_nat (length (lent w)) = c).
Proof.
  intros Hc Hlen. destruct (new_pool_ok c Hc) as (p & Hp & Hok & Hbufs & Hh & Hcap).
  destruct (pool_run_ok (start_world p) acts Hok) as (w & Hrun & Hw & Hl & Hhd & Hcp); [simpl; lia|]. simpl in Hl, Hhd, Hcp.
  exists p, w. split; [done|]. split; [done|]. split; [by intros; eapply live_reads|]. split.
  - intros a b h k x y i Ha Hb Hoa Hob. assert (AtHandle a = AtHandle b) as [= ->]; [|done].
    assert (∀ h x, owns h = Some i → ∃ e, owned_by (h, x) = Some (i, e)) as Ho by (intros [] ? [=]; subst; eexists; done).
    destruct (Ho h x Hoa) as [e He], (Ho k y Hob) as [e' He'].
    eapply (pl_one _ _ (wo_places _ Hw) _ _ i e e'); simpl; [by rewrite Ha|by rewrite Hb].
  - intros Hidle. rewrite free_count_contents by (done || (unfold room64; lia)).
    pose proof (Permutation_length (idle_accounting w Hw Hidle)) as Hlens.
    rewrite length_app, length_fmap, length_seq in Hlens. lia.
Qed.

Lemma drop_alone w tid hid h bytes i :
  world_ok w → head (free_indices (pool w)) + 1 + capacity (free_indices (pool w)) + 1 < 2 ^ 63 →
  Z.of_nat (length (buffers (pool w))) ≤ capacity (free_indices (pool w)) →
  calls w = ∅ → live w !! hid = Some (h, bytes) → owns h = Some i →
  ∃ w', pool_run w (DropHandle tid hid :: replicate 6 (PoolStep tid false)) = Some w' ∧ calls w' = ∅ ∧
    live w' = delete hid (live w) ∧ free_count (pool w') = free_count (pool w) + 1.
Proof.
  intros Hw Hroom Hcap Hidle Hl Ho. pose proof (wo_ring _ Hw) as Hr. pose proof (ro_order _ _ _ Hr).
  assert (head (free_indices (pool w)) < tail (free_indices (pool w)) + capacity (free_indices (pool w))) as Hfree.
  { pose proof (Permutation_length (idle_accounting w Hw Hidle)) as Hlens.
    rewrite length_app, length_fmap, length_seq in Hlens. unfold contents in Hlens. rewrite length_drop in Hlens.
    pose proof (ro_hist _ _ _ Hr). assert (i ∈ lent w) as Hin.
    { apply lent_at. exists hid. destruct h; simplify_eq/=; rewrite Hl; eexists; done. }
    destruct (lent w); [by apply elem_of_nil in Hin|]. simpl in Hlens. lia. }
  destruct (drop_ok w tid hid Hw) as (w1 & E1 & Hw1 & _). cbn [pool_run]. rewrite E1.
  cbn [pool_act] in E1. rewrite Hidle, lookup_empty, Hl, Ho in E1. injection E1 as <-. set (w1 := _ <| calls := _ |>) in *.
  assert (calls w1 = {[tid := PReset Dropped i]}) as Hc1 by (simpl; by rewrite Hidle, insert_empty).
  assert (calls w1 !! tid = Some (PReset Dropped i)) as Ht1 by (by rewrite Hc1, lookup_singleton_eq).
  destruct (byte_step w1 tid _ false Hw1 Ht1 eq_refl) as (w2 & E2 & Hw2 & _).
  destruct (held_buffer w1 tid _ _ _ Hw1 Ht1 eq_refl) as (b & Hb & Hi & _).
  change (replicate 6 (PoolStep tid false)) with (PoolStep tid false :: replicate 5 (PoolStep tid false)). cbn [pool_run].
  rewrite E2. cbn [pool_act] in E2. rewrite Ht1 in E2. cbn [pool_step] in E2. rewrite Hb, Hi in E2. cbn [fst snd] in E2.
  assert (calls w2 = {[tid := PFree Dropped (ELoad i)]} ∧ live w2 = delete hid (live w) ∧
    free_indices (pool w2) = free_indices (pool w)) as (Hc2 & Hl2 & Hr2).
  { injection E2 as <-. split; [|done]. simpl. by rewrite Hidle, insert_empty, insert_singleton_eq. }
  pose proof (wo_ring _ Hw2) as Hring. rewrite Hc2, omap_singleton, Hr2 in Hring. simpl in Hring.
  destruct (enqueue_alone _ _ _ _ Hring) as (r' & Hcall & _ & C' & H' & T'); [unfold room64; lia|lia|lia|].
  rewrite <- Hr2 in Hcall. destruct (free_alone_run 5 w2 tid _ _ _ _ Hc2 Hcall) as (w' & Hrun & Hc' & Hl' & Hr').
  exists w'. split; [done|]. split; [done|]. split; [congruence|].
  pose proof (ro_room _ _ _ Hr). unfold free_count, ring_len, wrap64, u64_bound. rewrite Hr', H', T'.
  rewrite !Z.mod_small by lia. lia.
Qed.


(** Two threads make a frame each from a pool of two, one drops its frame, and a
    third frame is made in the buffer that was dropped. *)
Definition ex_pool_acts : list PoolAct :=
  [Start 0 (FromPool [1; 2] [3]); Start 1 (FromPool [] [9; 9])] ++ replicate 9 (PoolStep 0 false) ++ replicate 12 (PoolStep 1 false) ++
  [DropHandle 0 0; Start 1 (FromPool [] [7])] ++ replicate 6 (PoolStep 0 false) ++ replicate 9 (PoolStep 1 false).

Lemma frames_never_alias_witness :
  ∃ p w, new_pool 2 = Some p ∧ pool_run (start_world p) ex_pool_acts = Some w ∧
    live w !! 0%nat = None ∧ live w !! 1%nat = Some (Pooled 1 2, [9; 9]) ∧ live w !! 2%nat = Some (Pooled 0 1, [7]) ∧
    deref (pool w) (Pooled 1 2) = Some [9; 9] ∧ free_count (pool w) + Z.of_nat (length (lent w)) = 2.
Proof.
  destruct (frames_never_alias 2 ex_pool_acts) as (p & w & Hp & Hw & Hread & _ & Hcount); [done|vm_compute; discriminate|].
  exists p, w. split; [done|]. split; [done|].
  assert (calls w = ∅ ∧ live w !! 0%nat = None ∧ live w !! 1%nat = Some (Pooled 1 2, [9; 9]) ∧
    live w !! 2%nat = Some (Pooled 0 1, [7])) as (Hi & H0 & H1 & H2).
  { assert (match new_pool 2 with Some p => match pool_run (start_world p) ex_pool_acts with
       | Some w => Some (calls w, live w !! 0%nat, live w !! 1%nat, live w !! 2%nat) | None => None end | None => None end =
       Some (∅, None, Some (Pooled 1 2, [9; 9]), Some (Pooled 0 1, [7]))) as He by (vm_compute; reflexivity).
    rewrite Hp, Hw in He. by injection He as -> -> -> ->. }
  split; [done|]. split; [done|]. split; [done|]. split; [by apply (Hread 1%nat)|by apply Hcount].
Defined.


End Pool.
