(* ===== verification/VsockConn.v ===== *)
(** * Vsock packets and connections

    [src/virt/arcbox-virtio-vsock/src/protocol.rs], [manager/ops.rs] and
    [manager/connection.rs]: the 44-byte packet header, the set of operations a
    connection has pending towards the guest, and the credit both sides keep of
    each other's buffer. *)

From Stdlib Require Import ZArith Lia.
From stdpp Require Import base numbers list.
From S2P Require Import Prelude Bits Checksum Bytes.

Open Scope Z_scope.

Module VsockConn.

(** ** The header *)

Inductive VsockOp := Invalid | Request | Response | Rst | Shutdown | Rw | CreditUpdate | CreditRequest.

Definition op_code (op : VsockOp) : Z :=
  match op with
  | Invalid => 0 | Request => 1 | Response => 2 | Rst => 3
  | Shutdown => 4 | Rw => 5 | CreditUpdate => 6 | CreditRequest => 7
  end.

Definition from_u16 (val : Z) : option VsockOp :=
  if val =? 0 then Some Invalid else if val =? 1 then Some Request else if val =? 2 then Some Response
  else if val =? 3 then Some Rst else if val =? 4 then Some Shutdown else if val =? 5 then Some Rw
  else if val =? 6 then Some CreditUpdate else if val =? 7 then Some CreditRequest else None.

Record VsockAddr := MkAddr { cid : Z; port : Z }.
Definition HOST_CID : Z := 2.
Definition host_addr (port : Z) : VsockAddr := MkAddr HOST_CID port.

Record VsockHeader := MkHeader {
  src_cid : Z;
  dst_cid : Z;
  src_port : Z;
  dst_port : Z;
  h_len : Z;
  socket_type : Z;
  h_op : Z;
  flags : Z;
  buf_alloc : Z;
  h_fwd_cnt : Z
}.
#[export] Instance eta_VsockHeader : Eta VsockHeader := {|
  eta h := MkHeader (src_cid h) (dst_cid h) (src_port h) (dst_port h) (h_len h) (socket_type h) (h_op h) (flags h)
    (buf_alloc h) (h_fwd_cnt h);
  eta_ok := ltac:(by intros [])
|}.

Definition SIZE : Z := 44.

Definition new_header (src dst : VsockAddr) (op : VsockOp) : VsockHeader :=
  MkHeader (cid src) (cid dst) (port src) (port dst) 0 1 (op_code op) 0 (64 * 1024) 0.

Definition operation (h : VsockHeader) : option VsockOp := from_u16 (h_op h).

(** The little-endian integer of [n] bytes at [off]. *)
Definition le_field (bytes : list Z) (off n : nat) : Z := le_value (take n (drop off bytes)).

Definition from_bytes (bytes : list Z) : option VsockHeader :=
  if len bytes <? SIZE then None
  else Some (MkHeader (le_field bytes 0 8) (le_field bytes 8 8) (le_field bytes 16 4) (le_field bytes 20 4)
    (le_field bytes 24 4) (le_field bytes 28 2) (le_field bytes 30 2) (le_field bytes 32 4) (le_field bytes 36 4)
    (le_field bytes 40 4)).

(** The fields fill the array from its start, each after the one before. *)
Definition to_bytes (h : VsockHeader) : list Z :=
  le_bytes 8 (src_cid h) ++ le_bytes 8 (dst_cid h) ++ le_bytes 4 (src_port h) ++ le_bytes 4 (dst_port h) ++
  le_bytes 4 (h_len h) ++ le_bytes 2 (socket_type h) ++ le_bytes 2 (h_op h) ++ le_bytes 4 (flags h) ++
  le_bytes 4 (buf_alloc h) ++ le_bytes 4 (h_fwd_cnt h).

(** Each field at its width. *)
Record header_ok (h : VsockHeader) : Prop := {
  hk_src_cid : in_u64 (src_cid h);
  hk_dst_cid : in_u64 (dst_cid h);
  hk_src_port : in_u32 (src_port h);
  hk_dst_port : in_u32 (dst_port h);
  hk_len : in_u32 (h_len h);
  hk_type : in_u16 (socket_type h);
  hk_op : in_u16 (h_op h);
  hk_flags : in_u32 (flags h);
  hk_alloc : in_u32 (buf_alloc h);
  hk_fwd : in_u32 (h_fwd_cnt h)
}.

(** ** Pending operations ([RxOps])

    A [u8] with one bit per operation; the lowest is served first. *)

Definition REQUEST : Z := 1.
Definition CREDIT_REQUEST : Z := 2.
Definition RW : Z := 4.
Definition RESPONSE : Z := 8.
Definition CREDIT_UPDATE : Z := 16.
Definition RESET : Z := 32.

Definition ops_pending (ops : Z) : bool := negb (ops =? 0).
Definition ops_enqueue (ops op : Z) : Z := Z.lor ops op.
Definition ops_peek (ops : Z) : Z := if ops =? 0 then 0 else Z.land ops (wrap8 (- ops)).
Definition ops_dequeue (ops : Z) : Z * Z :=
  if ops =? 0 then (0, ops)
  else let op := Z.land ops (wrap8 (- ops)) in (op, Z.land ops (u8_bound - 1 - op)).

(** ** Connections *)

(** [(host_port, guest_port)]. *)
Definition VsockConnectionId : Type := Z * Z.
Definition host_port (id : VsockConnectionId) : Z := id.1.
Definition guest_port (id : VsockConnectionId) : Z := id.2.

Definition TX_BUFFER_SIZE : Z := 64 * 1024.
Definition CREDIT_UPDATE_THRESHOLD : Z := 4096.

(** [injected_notify] says that the sender is still there. *)
Record VsockConnection := MkConn {
  id : VsockConnectionId;
  internal_fd : Z;
  injected_notify : bool;
  guest_cid : Z;
  connect : bool;
  rx_queue : Z;
  fwd_cnt : Z;
  last_fwd_cnt : Z;
  peer_buf_alloc : Z;
  peer_fwd_cnt : Z;
  rx_cnt : Z;
  credit_request_pending : bool;
  peer_no_recv : bool;
  rw_parked : bool
}.
#[export] Instance eta_VsockConnection : Eta VsockConnection := {|
  eta c := MkConn (id c) (internal_fd c) (injected_notify c) (guest_cid c) (connect c) (rx_queue c) (fwd_cnt c)
    (last_fwd_cnt c) (peer_buf_alloc c) (peer_fwd_cnt c) (rx_cnt c) (credit_request_pending c) (peer_no_recv c) (rw_parked c);
  eta_ok := ltac:(by intros [])
|}.

Definition new_local_init (id : VsockConnectionId) (guest_cid fd : Z) : VsockConnection :=
  MkConn id fd true guest_cid false (ops_enqueue 0 REQUEST) 0 0 0 0 0 false false false.

Definition enqueue_op (c : VsockConnection) (op : Z) : VsockConnection :=
  c <| rx_queue := ops_enqueue (rx_queue c) op |>.

Definition peer_avail_credit (c : VsockConnection) : Z :=
  wrap32 (peer_buf_alloc c - wrap32 (rx_cnt c - peer_fwd_cnt c)).

(** The flag: an RW parked on an empty window may be retried. *)
Definition update_peer_credit (c : VsockConnection) (alloc fwd : Z) : bool * VsockConnection :=
  let c := c <| peer_buf_alloc := alloc |> <| peer_fwd_cnt := fwd |> <| credit_request_pending := false |> in
  if rw_parked c && (0 <? peer_avail_credit c)
  then (true, enqueue_op (c <| rw_parked := false |>) RW)
  else (false, c).

Definition park_rw (c : VsockConnection) : VsockConnection := c <| rw_parked := true |>.

Definition maybe_request_credit (c : VsockConnection) : VsockConnection :=
  if credit_request_pending c || (peer_buf_alloc c =? 0) then c
  else
    let half := peer_buf_alloc c / 2 in
    if peer_avail_credit c <? half
    then (enqueue_op c CREDIT_REQUEST) <| credit_request_pending := true |>
    else c.

Definition note_credit_request_sent (c : VsockConnection) : VsockConnection := c <| credit_request_pending := true |>.
Definition mark_peer_no_recv (c : VsockConnection) : VsockConnection := c <| peer_no_recv := true |>.

Definition advance_fwd_cnt (c : VsockConnection) (bytes : Z) : VsockConnection :=
  let c := c <| fwd_cnt := wrap32 (fwd_cnt c + bytes) |> in
  let consumed := wrap32 (fwd_cnt c - last_fwd_cnt c) in
  if CREDIT_UPDATE_THRESHOLD <=? consumed then enqueue_op c CREDIT_UPDATE else c.

Definition record_rx (c : VsockConnection) (bytes : Z) : VsockConnection := c <| rx_cnt := wrap32 (rx_cnt c + bytes) |>.
Definition mark_credit_sent (c : VsockConnection) : VsockConnection := c <| last_fwd_cnt := fwd_cnt c |>.

(** ** The header's round trip *)

Lemma to_bytes_length h : length (to_bytes h) = 44%nat.
Proof. unfold to_bytes. by rewrite !length_app, !le_bytes_length. Qed.

Lemma to_bytes_range h : Forall in_u8 (to_bytes h).
Proof. unfold to_bytes. rewrite !Forall_app. repeat split; apply le_bytes_range. Qed.

Lemma field_here n z rest : 0 ≤ z < 256 ^ Z.of_nat n → le_field (le_bytes n z ++ rest) 0 n = z.
Proof.
  intros Hz. unfold le_field. rewrite drop_0, take_app_le by (rewrite le_bytes_length; lia).
  rewrite take_ge by (rewrite le_bytes_length; lia). rewrite le_value_bytes. by apply Z.mod_small.
Qed.

Lemma field_skip k z rest off n : (k ≤ off)%nat → le_field (le_bytes k z ++ rest) off n = le_field rest (off - k) n.
Proof.
  intros Hk. unfold le_field. replace off with (length (le_bytes k z) + (off - k))%nat at 1 by (rewrite le_bytes_length; lia).
  by rewrite drop_app_add.
Qed.

Lemma le_bytes_value bs n : length bs = n → Forall in_u8 bs → le_bytes n (le_value bs) = bs.
Proof.
  revert n. induction bs as [|b bs IH]; intros [|n] Hl Hb; try done. apply Forall_cons in Hb as [Hb Hbs].
  injection Hl as Hl. simpl. unfold in_u8, u8_bound in Hb. rewrite (Z.mul_comm 256), Z.mod_add, Z.div_add by lia.
  rewrite Z.mod_small, Z.div_small by lia. by rewrite Z.add_0_l, IH.
Qed.

Lemma le_field_bytes bytes off n :
  Forall in_u8 bytes → (off + n ≤ length bytes)%nat → le_bytes n (le_field bytes off n) = take n (drop off bytes).
Proof.
  intros Hb Hl. apply le_bytes_value; [rewrite length_take, length_drop; lia|]. by apply Forall_take, Forall_drop.
Qed.

Lemma from_to_bytes h rest : header_ok h → from_bytes (to_bytes h ++ rest) = Some h.
Proof.
  intros Hh. unfold from_bytes. rewrite (proj2 (Z.ltb_ge _ _)) by (unfold len, SIZE; rewrite length_app, to_bytes_length; lia).
  destruct h as [a b c d e f g i j k], Hh. unfold to_bytes.
  cbn [src_cid dst_cid src_port dst_port h_len socket_type h_op flags buf_alloc h_fwd_cnt] in *. rewrite <- !app_assoc.
  f_equal. f_equal; [by apply field_here|..];
    rewrite field_skip by lia; try (by apply field_here);
    rewrite field_skip by lia; try (by apply field_here);
    rewrite field_skip by lia; try (by apply field_here);
    rewrite field_skip by lia; try (by apply field_here);
    rewrite field_skip by lia; try (by apply field_here);
    rewrite field_skip by lia; try (by apply field_here);
    rewrite field_skip by lia; try (by apply field_here);
    rewrite field_skip by lia; try (by apply field_here);
    rewrite field_skip by lia; by apply field_here.
Qed.

(** A header written to its 44 bytes and parsed back is the same header,
    whatever follows it; and 44 bytes parsed and written back are the same bytes. *)
Theorem header_roundtrip :
  (∀ h rest, header_ok h → from_bytes (to_bytes h ++ rest) = Some h) ∧
  (∀ bytes, length bytes = 44%nat → Forall in_u8 bytes → ∃ h, from_bytes bytes = Some h ∧ to_bytes h = bytes) ∧
  (∀ op, from_u16 (op_code op) = Some op).
Proof.
  split; [apply from_to_bytes|split; [|by intros []]].
  - intros bytes Hl Hb. unfold from_bytes. rewrite (proj2 (Z.ltb_ge _ _)) by (unfold len, SIZE; lia). eexists. split; [done|].
    unfold to_bytes. cbn [src_cid dst_cid src_port dst_port h_len socket_type h_op flags buf_alloc h_fwd_cnt].
    rewrite !le_field_bytes by (done || lia). rewrite (take_ge (drop 40 bytes)) by (rewrite length_drop; lia).
    assert (∀ a n rest, rest = drop (a + n) bytes → take n (drop a bytes) ++ rest = drop a bytes) as Hjoin.
    { intros a n rest ->. rewrite <- drop_drop. apply take_drop. }
    rewrite (Hjoin 36%nat) by done. rewrite (Hjoin 32%nat) by done. rewrite (Hjoin 30%nat) by done.
    rewrite (Hjoin 28%nat) by done. rewrite (Hjoin 24%nat) by done. rewrite (Hjoin 20%nat) by done.
    rewrite (Hjoin 16%nat) by done. rewrite (Hjoin 8%nat) by done. rewrite (Hjoin 0%nat) by done. done.
Qed.

Lemma header_roundtrip_witness :
  let h := MkHeader 2 3 50000 1024 5 1 (op_code Rw) 0 65536 0 in from_bytes (to_bytes h ++ [1; 2; 3; 4; 5]) = Some h.
Proof. apply (proj1 header_roundtrip). by split. Defined.

End VsockConn.
