(* ===== verification/VsockMgr.v ===== *)
(** * The vsock connection manager

    [src/virt/arcbox-virtio-vsock/src/manager/mod.rs] and
    [manager/host_connections.rs]: the host's connections by port pair, the queue
    of connections with operations pending towards the guest, and what a packet of
    the guest does to them. The manager owns one end of a socket pair per
    connection; [socks] is the state of the sockets behind those descriptors. The
    mutex around the manager is never poisoned. *)

From Stdlib Require Import ZArith Lia.
From stdpp Require Import base numbers list gmap.
From S2P Require Import Prelude Bits Checksum Bytes VsockConn.

Open Scope Z_scope.

Module VsockMgr.
Import VsockConn.

(** A stream socket as its owner sees it: the bytes not read yet, whether the other
    end has closed, the bytes written, and whether writing is shut down. *)
Record Sock := MkSock { unread : list Z; hup : bool; got : list Z; shut_wr : bool }.
#[export] Instance eta_Sock : Eta Sock := {|
  eta k := MkSock (unread k) (hup k) (got k) (shut_wr k); eta_ok := ltac:(by intros [])
|}.

(** [rings] counts the doorbell's calls; [signals] are the connections whose
    [injected_notify] was sent. *)
Record VsockConnectionManager := MkMgr {
  connections : gmap VsockConnectionId VsockConnection;
  backend_rxq : list VsockConnectionId;
  next_host_port : Z;
  doorbell : bool;
  closed : bool;
  socks : gmap Z Sock;
  rings : nat;
  signals : list VsockConnectionId
}.
#[export] Instance eta_VsockConnectionManager : Eta VsockConnectionManager := {|
  eta m := MkMgr (connections m) (backend_rxq m) (next_host_port m) (doorbell m) (closed m) (socks m) (rings m) (signals m);
  eta_ok := ltac:(by intros [])
|}.

Definition EPHEMERAL_PORT_BASE : Z := 50000.
Definition new_manager : VsockConnectionManager := MkMgr ∅ [] EPHEMERAL_PORT_BASE false false ∅ 0 [].

Definition resume_host_ports_at (m : VsockConnectionManager) (port : Z) : VsockConnectionManager := m <| next_host_port := port |>.

Definition set_doorbell (m : VsockConnectionManager) : VsockConnectionManager := m <| doorbell := true |>.

Definition ring_doorbell (m : VsockConnectionManager) : VsockConnectionManager :=
  if doorbell m then m <| rings := S (rings m) |> else m.

Definition push_rxq (m : VsockConnectionManager) (cid : VsockConnectionId) : VsockConnectionManager :=
  m <| backend_rxq := backend_rxq m ++ [cid] |>.
Definition put_conn (m : VsockConnectionManager) (cid : VsockConnectionId) (c : VsockConnection) : VsockConnectionManager :=
  m <| connections := <[cid := c]> (connections m) |>.

(** Replacing the connection of an id in the map closes the descriptor it had. *)
Definition close_fd (m : VsockConnectionManager) (fd : Z) : VsockConnectionManager := m <| socks := delete fd (socks m) |>.

Definition allocate (m : VsockConnectionManager) (gport gcid fd : Z) (sock : Sock)
    : VsockConnectionId * VsockConnectionManager :=
  let cid := (next_host_port m, gport) in
  let m := m <| next_host_port := wrap32 (next_host_port m + 1) |> in
  let m := match connections m !! cid with Some old => close_fd m (internal_fd old) | None => m end in
  let m := m <| socks := <[fd := sock]> (socks m) |> in
  (cid, ring_doorbell (push_rxq (put_conn m cid (new_local_init cid gcid fd)) cid)).

(** The order of a [HashMap]'s values is not specified: this is one of them. *)
Definition connected_fds (m : VsockConnectionManager) : list (VsockConnectionId * Z) :=
  (λ kc, (id kc.2, internal_fd kc.2)) <$> filter (λ kc, connect kc.2 = true) (map_to_list (connections m)).

Definition enqueue_rw (m : VsockConnectionManager) (cid : VsockConnectionId) : VsockConnectionManager :=
  match connections m !! cid with
  | Some c => push_rxq (put_conn m cid (enqueue_op c RW)) cid
  | None => m
  end.

Definition enqueue_reset (m : VsockConnectionManager) (cid : VsockConnectionId) : VsockConnectionManager :=
  match connections m !! cid with
  | Some c => push_rxq (put_conn m cid (enqueue_op c RESET)) cid
  | None => m
  end.

Definition remove (m : VsockConnectionManager) (cid : VsockConnectionId) : VsockConnectionManager :=
  match connections m !! cid with
  | Some c =>
      let m := m <| connections := delete cid (connections m) |> in
      let m := if injected_notify c then m <| signals := signals m ++ [cid] |> else m in
      let m := m <| backend_rxq := filter (λ qid, qid ≠ cid) (backend_rxq m) |> in
      close_fd m (internal_fd c)
  | None => m
  end.

Definition remove_all (m : VsockConnectionManager) : VsockConnectionManager :=
  foldl remove m ((map_to_list (connections m)).*1).

Definition close (m : VsockConnectionManager) : VsockConnectionManager := remove_all (m <| closed := true |>).

Definition connections_with_pending_rx (m : VsockConnectionManager) : list VsockConnectionId :=
  (λ kc, id kc.2) <$>
    filter (λ kc, ops_pending (rx_queue kc.2) = true ∧ id kc.2 ∉ backend_rxq m) (map_to_list (connections m)).

(** ** The device's view ([VsockHostConnections]) *)

Definition fd_for (m : VsockConnectionManager) (gport hport : Z) : option Z :=
  match connections m !! (hport, gport) with
  | Some c => if connect c then Some (internal_fd c) else None
  | None => None
  end.

Definition mark_connected (m : VsockConnectionManager) (gport hport : Z) : VsockConnectionManager :=
  match connections m !! (hport, gport) with
  | Some c => ring_doorbell (put_conn m (hport, gport) (c <| connect := true |>))
  | None => m
  end.

Definition remove_connection (m : VsockConnectionManager) (gport hport : Z) : VsockConnectionManager :=
  remove m (hport, gport).

Definition peer_credit (m : VsockConnectionManager) (gport hport alloc fwd : Z) : VsockConnectionManager :=
  match connections m !! (hport, gport) with
  | Some c =>
      let '(retry, c) := update_peer_credit c alloc fwd in
      let m := put_conn m (hport, gport) c in
      if retry then ring_doorbell (push_rxq m (hport, gport)) else m
  | None => m
  end.

Definition forwarded (m : VsockConnectionManager) (gport hport bytes : Z) : bool * VsockConnectionManager :=
  match connections m !! (hport, gport) with
  | Some c =>
      let c := advance_fwd_cnt c bytes in
      let m := put_conn m (hport, gport) c in
      if ops_pending (rx_queue c) then (true, ring_doorbell (push_rxq m (hport, gport))) else (false, m)
  | None => (false, m)
  end.

Definition enqueue_credit_update (m : VsockConnectionManager) (gport hport : Z) : VsockConnectionManager :=
  match connections m !! (hport, gport) with
  | Some c => ring_doorbell (push_rxq (put_conn m (hport, gport) (enqueue_op c CREDIT_UPDATE)) (hport, gport))
  | None => m
  end.

Definition VSOCK_SHUTDOWN_F_RECEIVE : Z := 1.
Definition VSOCK_SHUTDOWN_F_SEND : Z := 2.
Definition VSOCK_SHUTDOWN_F_BOTH : Z := 3.

(** [shutdown(fd, SHUT_WR)]; its failure is only logged. *)
Definition shutdown_wr (m : VsockConnectionManager) (fd : Z) : VsockConnectionManager :=
  match socks m !! fd with
  | Some k => m <| socks := <[fd := k <| shut_wr := true |>]> (socks m) |>
  | None => m
  end.

Definition handle_shutdown (m : VsockConnectionManager) (gport hport fl : Z) : VsockConnectionManager :=
  if (fl =? 0) || (Z.land fl VSOCK_SHUTDOWN_F_BOTH =? VSOCK_SHUTDOWN_F_BOTH) then remove_connection m gport hport
  else
    let cid := (hport, gport) in
    let m :=
      if negb (Z.land fl VSOCK_SHUTDOWN_F_RECEIVE =? 0) then
        match connections m !! cid with Some c => put_conn m cid (mark_peer_no_recv c) | None => m end
      else m in
    if negb (Z.land fl VSOCK_SHUTDOWN_F_SEND =? 0) then
      match connections m !! cid with Some c => shutdown_wr m (internal_fd c) | None => m end
    else m.

(** ** No operation is forgotten *)

(** The operations a connection owes an entry of the queue for: each pending one but
    the credit request, which the loop raises on a connection it re-queues. *)
Definition owed (ops : Z) : nat :=
  length (filter (λ i, Z.testbit ops i = true) [0; 2; 3; 4; 5]).

Definition entries (cid : VsockConnectionId) (q : list VsockConnectionId) : nat :=
  length (filter (λ k, k = cid) q).

Definition covered (ops : Z) (n : nat) : Prop := (owed ops ≤ n)%nat ∧ (ops ≠ 0 → (1 ≤ n)%nat).

Record mgr_ok (m : VsockConnectionManager) : Prop := {
  mo_id : ∀ cid c, connections m !! cid = Some c → id c = cid ∧ 0 ≤ rx_queue c < 64;
  mo_queued : ∀ cid c, connections m !! cid = Some c → covered (rx_queue c) (entries cid (backend_rxq m))
}.

(** *** The bits *)

Lemma all_ops (P : Z → bool) : forallb P (seqZ 0 64) = true → ∀ s, 0 ≤ s < 64 → P s = true.
Proof. intros HP s Hs. rewrite forallb_forall in HP. apply HP, list_elem_of_In, elem_of_seqZ. lia. Qed.

Definition is_op (op : Z) : bool := existsb (Z.eqb op) [REQUEST; CREDIT_REQUEST; RW; RESPONSE; CREDIT_UPDATE; RESET].

Definition enqueue_check (op s : Z) : bool :=
  let s' := ops_enqueue s op in
  (0 <=? s') && (s' <? 64) && negb (s' =? 0) && (owed s' <=? S (owed s))%nat &&
  (negb (op =? CREDIT_REQUEST) || (owed s' =? owed s)%nat).

Lemma enqueue_facts s op :
  0 ≤ s < 64 → is_op op = true →
  0 ≤ ops_enqueue s op < 64 ∧ ops_enqueue s op ≠ 0 ∧ (owed (ops_enqueue s op) ≤ S (owed s))%nat ∧
  (op = CREDIT_REQUEST → owed (ops_enqueue s op) = owed s).
Proof.
  intros Hs Hop. apply existsb_exists in Hop as (o & Ho%list_elem_of_In & ->%Z.eqb_eq).
  assert (enqueue_check o s = true) as Hall.
  { apply all_ops; [|done]. repeat (apply elem_of_cons in Ho as [->|Ho]; [by vm_compute|]). by apply elem_of_nil in Ho. }
  unfold enqueue_check in Hall.
  rewrite !andb_true_iff, orb_true_iff, !negb_true_iff, Z.leb_le, Z.ltb_lt, !Z.eqb_neq, Nat.leb_le, Nat.eqb_eq in Hall.
  destruct Hall as ((((H1 & H2) & H3) & H4) & H5). split; [lia|]. split; [done|]. split; [done|]. intros ->. by destruct H5.
Qed.

Definition dequeue_check (s : Z) : bool :=
  let '(op, s') := ops_dequeue s in
  (s =? 0) || ((0 <=? s') && (s' <? 64) && is_op op && (owed s =? owed s' + if (op =? CREDIT_REQUEST)%Z then 0 else 1)%nat &&
    ((op =? REQUEST) || (op =? CREDIT_REQUEST) || (s' =? 0) || (1 <=? owed s')%nat)).

Lemma dequeue_facts s op s' :
  0 ≤ s < 64 → s ≠ 0 → ops_dequeue s = (op, s') →
  0 ≤ s' < 64 ∧ is_op op = true ∧ owed s = (owed s' + if (op =? CREDIT_REQUEST)%Z then 0 else 1)%nat ∧
  (op ≠ REQUEST → op ≠ CREDIT_REQUEST → s' ≠ 0 → (1 ≤ owed s')%nat).
Proof.
  intros Hs Hn He. assert (dequeue_check s = true) as Hall by (apply all_ops; [by vm_compute|done]).
  unfold dequeue_check in Hall. rewrite He, (proj2 (Z.eqb_neq s 0) Hn) in Hall. cbn [orb] in Hall.
  rewrite !andb_true_iff, !orb_true_iff, Z.leb_le, Z.ltb_lt, !Z.eqb_eq, Nat.eqb_eq, Nat.leb_le in Hall.
  destruct Hall as ((((H1 & H2) & H3) & H4) & H5). split; [lia|]. split; [done|]. split; [done|].
  intros Ha Hb Hc. by destruct H5 as [[[?|?]|?]|?].
Qed.

Lemma covered_mono ops n n' : covered ops n → (n ≤ n')%nat → covered ops n'.
Proof. intros [H1 H2] Hn. split; [lia|]. intros H. specialize (H2 H). lia. Qed.

Lemma covered_enqueue ops op n :
  0 ≤ ops < 64 → is_op op = true → covered ops n → covered (ops_enqueue ops op) (S n).
Proof. intros Ho Hop [H1 H2]. destruct (enqueue_facts ops op Ho Hop) as (_ & _ & H3 & _). split; lia. Qed.

Lemma entries_push cid k q : entries cid (q ++ [k]) = (entries cid q + if decide (k = cid) then 1 else 0)%nat.
Proof. unfold entries. rewrite filter_app, length_app. f_equal. rewrite filter_cons, filter_nil. by case_decide. Qed.

(** *** Each operation keeps the queue covering *)

Lemma mgr_update m m' cid c' :
  mgr_ok m → connections m' = <[cid := c']> (connections m) →
  (∀ k, k ≠ cid → (entries k (backend_rxq m) ≤ entries k (backend_rxq m'))%nat) →
  id c' = cid → 0 ≤ rx_queue c' < 64 → covered (rx_queue c') (entries cid (backend_rxq m')) → mgr_ok m'.
Proof.
  intros [H1 H2] Hm Hq Hi Hr Hc. split; intros k c Hk; rewrite Hm in Hk; apply lookup_insert_Some in Hk as [[<- <-]|[Hne Hk]].
  - done.
  - eauto.
  - done.
  - eapply covered_mono; [by apply H2|]. by apply Hq.
Qed.

(** The fields the invariant reads. *)
Definition same_queue (m m' : VsockConnectionManager) : Prop :=
  connections m' = connections m ∧ backend_rxq m' = backend_rxq m.

Lemma mgr_same m m' : mgr_ok m → same_queue m m' → mgr_ok m'.
Proof. intros [H1 H2] [Hc Hq]. split; intros cid c; rewrite Hc, ?Hq; [apply H1|apply H2]. Qed.

Lemma mgr_ring m : mgr_ok m → mgr_ok (ring_doorbell m).
Proof. intros Hm. unfold ring_doorbell. destruct (doorbell m); [|done]. by apply (mgr_same m). Qed.

Lemma mgr_push m cid : mgr_ok m → mgr_ok (push_rxq m cid).
Proof. intros [H1 H2]. split; [done|]. simpl. intros k c Hk. rewrite entries_push. eapply covered_mono; [by apply H2|lia]. Qed.

(** A connection whose pending operations do not change. *)
Lemma mgr_keep m cid c c' :
  mgr_ok m → connections m !! cid = Some c → id c' = id c → rx_queue c' = rx_queue c → mgr_ok (put_conn m cid c').
Proof.
  intros Hm Hc Hi Hr. destruct (mo_id _ Hm _ _ Hc) as [? ?]. apply (mgr_update m _ cid c'); try done.
  - by rewrite Hi.
  - by rewrite Hr.
  - simpl. rewrite Hr. by apply (mo_queued _ Hm).
Qed.

(** An operation is set, and the connection queued for it. *)
Lemma mgr_enqueue m cid c c' op :
  mgr_ok m → connections m !! cid = Some c → id c' = id c → rx_queue c' = ops_enqueue (rx_queue c) op → is_op op = true →
  mgr_ok (push_rxq (put_conn m cid c') cid).
Proof.
  intros Hm Hc Hi Hr Hop. destruct (mo_id _ Hm _ _ Hc) as [Hid Hb]. destruct (enqueue_facts _ _ Hb Hop) as (Hr' & _).
  apply (mgr_update m _ cid c'); try done; simpl.
  - intros k Hk. rewrite entries_push. lia.
  - by rewrite Hi.
  - by rewrite Hr.
  - rewrite Hr, entries_push, decide_True, Nat.add_1_r by done. apply covered_enqueue; [done|done|]. by apply (mo_queued _ Hm).
Qed.

Lemma mgr_remove m cid : mgr_ok m → mgr_ok (remove m cid).
Proof.
  intros Hm. unfold remove. destruct (connections m !! cid) as [c|]; [|done]. destruct (Hm) as [H1 H2].
  split; intros k d Hk.
  - apply (H1 k). destruct (injected_notify c); simpl in Hk; by apply lookup_delete_Some in Hk as [_ Hk].
  - assert (connections m !! k = Some d ∧ k ≠ cid) as [Hk' Hne].
    { destruct (injected_notify c); simpl in Hk; apply lookup_delete_Some in Hk as [? Hk]; done. }
    assert (entries k (filter (λ qid, qid ≠ cid) (backend_rxq m)) = entries k (backend_rxq m)) as He.
    { unfold entries. rewrite list_filter_filter. f_equal. apply list_filter_iff. intros x. split; [by intros [? _]|by intros ->]. }
    destruct (injected_notify c); simpl; rewrite He; by apply H2.
Qed.

Lemma allocate_mgr_ok m gport gcid fd sock : mgr_ok m → mgr_ok (allocate m gport gcid fd sock).2.
Proof.
  intros Hm. unfold allocate. cbn [snd]. apply mgr_ring. set (cid := (next_host_port m, gport)).
  set (m1 := match _ with Some _ => _ | None => _ end).
  assert (same_queue m m1) as [Hc Hq].
  { unfold m1. by destruct (_ !! cid). }
  apply (mgr_update m _ cid (new_local_init cid gcid fd)); try done; simpl.
  - by rewrite Hc.
  - intros k Hk. rewrite Hq, entries_push. lia.
  - rewrite Hq, entries_push, decide_True by done. split; [change (owed (ops_enqueue 0 REQUEST)) with 1%nat; lia|lia].
Qed.

Lemma enqueue_rw_ok m cid : mgr_ok m → mgr_ok (enqueue_rw m cid).
Proof. intros Hm. unfold enqueue_rw. destruct (connections m !! cid) eqn:Hc; [|done]. by eapply mgr_enqueue. Qed.

Lemma enqueue_reset_ok m cid : mgr_ok m → mgr_ok (enqueue_reset m cid).
Proof. intros Hm. unfold enqueue_reset. destruct (connections m !! cid) eqn:Hc; [|done]. by eapply mgr_enqueue. Qed.

Lemma mark_connected_ok m gport hport : mgr_ok m → mgr_ok (mark_connected m gport hport).
Proof. intros Hm. unfold mark_connected. destruct (_ !! _) eqn:Hc; [|done]. apply mgr_ring. by eapply mgr_keep. Qed.

Lemma peer_credit_ok m gport hport alloc fwd : mgr_ok m → mgr_ok (peer_credit m gport hport alloc fwd).
Proof.
  intros Hm. unfold peer_credit. destruct (_ !! _) as [c|] eqn:Hc; [|done]. unfold update_peer_credit.
  destruct (_ && _); [apply mgr_ring; by eapply mgr_enqueue|by eapply mgr_keep].
Qed.

Lemma forwarded_ok m gport hport bytes : mgr_ok m → mgr_ok (forwarded m gport hport bytes).2.
Proof.
  intros Hm. unfold forwarded. destruct (_ !! _) as [c|] eqn:Hc; [|done]. unfold advance_fwd_cnt.
  destruct (CREDIT_UPDATE_THRESHOLD <=? _).
  - destruct (mo_id _ Hm _ _ Hc) as [_ Hb]. destruct (enqueue_facts (rx_queue c) CREDIT_UPDATE Hb eq_refl) as (_ & Hne & _).
    unfold ops_pending. simpl. rewrite (proj2 (Z.eqb_neq _ 0)) by done. apply mgr_ring. by eapply mgr_enqueue.
  - destruct (ops_pending _); simpl; [apply mgr_ring, mgr_push|]; by eapply mgr_keep.
Qed.

Lemma enqueue_credit_update_ok m gport hport : mgr_ok m → mgr_ok (enqueue_credit_update m gport hport).
Proof. intros Hm. unfold enqueue_credit_update. destruct (_ !! _) eqn:Hc; [|done]. apply mgr_ring. by eapply mgr_enqueue. Qed.

Lemma handle_shutdown_ok m gport hport fl : mgr_ok m → mgr_ok (handle_shutdown m gport hport fl).
Proof.
  intros Hm. unfold handle_shutdown. destruct (_ || _); [by apply mgr_remove|].
  set (m1 := if negb (Z.land fl VSOCK_SHUTDOWN_F_RECEIVE =? 0) then _ else _). assert (mgr_ok m1) as Hm1.
  { unfold m1. destruct (negb _); [|done]. destruct (_ !! _) eqn:Hc; [|done]. by eapply mgr_keep. }
  clearbody m1. destruct (negb _); [|done]. destruct (_ !! _) as [c|]; [|done]. unfold shutdown_wr. destruct (socks _ !! _); [|done].
  by apply (mgr_same m1).
Qed.

Lemma remove_all_ok m : mgr_ok m → mgr_ok (remove_all m).
Proof.
  unfold remove_all. generalize ((map_to_list (connections m)).*1). intros l. revert m.
  induction l as [|cid l IH]; intros m Hm; [done|]. simpl. by apply IH, mgr_remove.
Qed.

Lemma close_ok m : mgr_ok m → mgr_ok (close m).
Proof. intros Hm. apply remove_all_ok. by apply (mgr_same m). Qed.

Lemma push_all_ok m l : mgr_ok m → mgr_ok (foldl push_rxq m l).
Proof. revert m. induction l as [|cid l IH]; intros m Hm; [done|]. simpl. by apply IH, mgr_push. Qed.

End VsockMgr.
