(* ===== verification/VsockTx.v ===== *)
(** * The vsock device: packets of the guest

    [src/virt/arcbox-virtio-vsock/src/device.rs], [device/virtio_device.rs] and
    [device/events.rs]: the device's state, the transmit queue it drains, what each
    packet does to the connection manager, and the transport reset it posts after a
    restore. The kernel's answers to [write] are an argument. *)

From Stdlib Require Import ZArith Lia.
From stdpp Require Import base numbers list gmap.
From S2P Require Import Prelude Bits Checksum Bytes RingSpec GuestMem SplitQueue VsockConn VsockMgr.

Open Scope Z_scope.

Module VsockTx.
Import VsockConn VsockMgr.

(** What one [write] of the rest of a buffer meets: room for some bytes, at least one,
    of which it takes what there is to write; or one of the answers without progress. *)
Inductive WriteRes := Room (more : nat) | WroteZero | WouldBlock | Interrupted | WriteFailed.

Definition MAX_POLL_RETRIES : Z := 16.

(** [write_all_with_backoff]: the number of bytes written, and the answers left; the
    outer [None] is a loop still waiting for the kernel. *)
Fixpoint write_all_with_backoff (ws : list WriteRes) (total offset retries : Z) : option (Z * list WriteRes) :=
  if total <=? offset then Some (offset, ws)
  else
    match ws with
    | [] => None
    | Room more :: ws => write_all_with_backoff ws total (offset + Z.min (total - offset) (1 + Z.of_nat more)) 0
    | WroteZero :: ws => Some (offset, ws)
    | WouldBlock :: ws =>
        if MAX_POLL_RETRIES <=? retries then Some (offset, ws)
        else write_all_with_backoff ws total offset (retries + 1)
    | Interrupted :: ws => write_all_with_backoff ws total offset retries
    | WriteFailed :: ws => Some (offset, ws)
    end.

Definition sock_got (m : VsockConnectionManager) (fd : Z) (bytes : list Z) : VsockConnectionManager :=
  match socks m !! fd with
  | Some k => m <| socks := <[fd := k <| got := got k ++ bytes |>]> (socks m) |>
  | None => m
  end.

(** The [OP_RW] arm. *)
Definition handle_rw (h : VsockHeader) (payload : list Z) (m : VsockConnectionManager) (ws : list WriteRes)
    : option (VsockConnectionManager * list WriteRes) :=
  let m := peer_credit m (src_port h) (dst_port h) (buf_alloc h) (h_fwd_cnt h) in
  match fd_for m (src_port h) (dst_port h) with
  | Some fd =>
      if len payload =? 0 then Some (m, ws)
      else
        let! res := write_all_with_backoff ws (len payload) 0 0 in
        let m := sock_got m fd (take (Z.to_nat res.1) payload) in
        Some (if 0 <? res.1 then (forwarded m (src_port h) (dst_port h) (wrap32 res.1)).2 else m, res.2)
  | None => Some (m, ws)
  end.

Definition handle_tx_packet_with_fds (h : VsockHeader) (payload : list Z) (m : VsockConnectionManager)
    (ws : list WriteRes) : option (VsockConnectionManager * list WriteRes) :=
  let gport := src_port h in
  let hport := dst_port h in
  match operation h with
  | Some Response =>
      Some (mark_connected (peer_credit m gport hport (buf_alloc h) (h_fwd_cnt h)) gport hport, ws)
  | Some Rw => handle_rw h payload m ws
  | Some Shutdown => Some (handle_shutdown m gport hport (flags h), ws)
  | Some Rst => Some (remove_connection m gport hport, ws)
  | Some CreditUpdate => Some (peer_credit m gport hport (buf_alloc h) (h_fwd_cnt h), ws)
  | Some CreditRequest =>
      Some (enqueue_credit_update (peer_credit m gport hport (buf_alloc h) (h_fwd_cnt h)) gport hport, ws)
  | Some Request | Some Invalid | None => Some (m, ws)
  end.

(** A packet of the transmit queue, which is dropped when it is too short. *)
Definition tx_packet (data : list Z) (conns : option VsockConnectionManager) (ws : list WriteRes)
    : option (option VsockConnectionManager * list WriteRes) :=
  match conns, from_bytes (take 44 data) with
  | Some m, Some h =>
      if SIZE <=? len data then
        let! res := handle_tx_packet_with_fds h (drop 44 data) m ws in Some (Some res.1, res.2)
      else Some (conns, ws)
  | _, _ => Some (conns, ws)
  end.

(** The device. [ctx_bound] says that guest memory is bound; a pending reset is the
    address of the event queue's [avail.idx] and the value it had. *)
Record VirtioVsock := MkVsock {
  config_guest_cid : Z;
  features : Z;
  acked_features : Z;
  ctx_bound : bool;
  pending_reset : option (Z * Z);
  conn_mgr : option VsockConnectionManager
}.
#[export] Instance eta_VirtioVsock : Eta VirtioVsock := {|
  eta v := MkVsock (config_guest_cid v) (features v) (acked_features v) (ctx_bound v) (pending_reset v) (conn_mgr v);
  eta_ok := ltac:(by intros [])
|}.

(** The bits of [virtio_bindings]. *)
Class VirtioBits := { VIRTIO_RING_F_EVENT_IDX : Z; VIRTIO_F_VERSION_1 : Z }.

Section device.
Context `{VirtioRing} `{VirtioBits}.

Definition VIRTIO_F_EVENT_IDX : Z := Z.shiftl 1 VIRTIO_RING_F_EVENT_IDX.

Definition new_vsock (guest_cid : Z) : VirtioVsock :=
  MkVsock guest_cid (Z.lor (Z.lor 1 (Z.shiftl 1 VIRTIO_F_VERSION_1)) VIRTIO_F_EVENT_IDX) 0 false None None.

Definition ack_features (v : VirtioVsock) (f : Z) : VirtioVsock := v <| acked_features := Z.land (features v) f |>.

(** [reset] clears the negotiation; the connection manager stays bound. *)
Definition reset (v : VirtioVsock) : VirtioVsock := v <| acked_features := 0 |> <| pending_reset := None |>.

Definition event_idx_acked (v : VirtioVsock) : bool := negb (Z.land (acked_features v) VIRTIO_F_EVENT_IDX =? 0).

(** [read_config]: the bytes written to the start of [data]. *)
Definition read_config (v : VirtioVsock) (offset n : Z) : list Z :=
  let config := le_bytes 8 (config_guest_cid v) in
  take (Z.to_nat (Z.min n (saturating_sub 8 offset))) (drop (Z.to_nat offset) config).

Definition save_config (v : VirtioVsock) : list Z :=
  match conn_mgr v with Some m => le_bytes 4 (next_host_port m) | None => [] end.

(** The inner [None] is the error. *)
Definition load_config (v : VirtioVsock) (config : list Z) : option VirtioVsock :=
  match config with
  | [] => Some v
  | _ =>
      match conn_mgr v with
      | Some m =>
          if len config =? 4
          then Some (v <| conn_mgr := Some (resume_host_ports_at m (le_value config)) |>)
          else None
      | None => None
      end
  end.

(** The bytes of a chain's readable descriptors. *)
Definition tx_data (m : GuestMem) (descs : list VirtqDesc) : list Z :=
  concat ((λ d, if is_write d then []
                else match mem_slice m (desc_addr d) (desc_len d) with Some bytes => bytes | None => [] end) <$> descs).

(** The loop of [process_queue]; [None] is a panic or an exhausted bound. *)
Fixpoint tx_loop (fuel : nat) (q : SplitQueue) (m : GuestMem) (conns : option VsockConnectionManager)
    (ws : list WriteRes) (completions : list (Z * Z))
    : option (list (Z * Z) * option VsockConnectionManager * GuestMem * list WriteRes) :=
  match fuel with
  | O => None
  | S fuel =>
      let! popped := pop_avail q m in
      match popped with
      | (None, _) => Some (completions, conns, m, ws)
      | (Some chain, q) =>
          let data := tx_data m (descriptors chain) in
          let! handled := tx_packet data conns ws in
          let! pushed := push_used q m (head_idx chain) (wrap32 (len data)) in
          let '(_, q, m) := pushed in
          tx_loop fuel q (write_avail_event q m) handled.1 handled.2 (completions ++ [(head_idx chain, wrap32 (len data))])
      end
  end.

(** The entries the guest has posted bound the loop. *)
Definition tx_fuel (q : SplitQueue) (m : GuestMem) : nat :=
  S (Z.to_nat (wrapping_sub16 (avail_idx q m) (last_avail_idx q))).

Definition tx_queue (v : VirtioVsock) (m : GuestMem) (qidx : Z) (cfg : QueueConfig) : SplitQueue :=
  let q := new_queue m qidx cfg (event_idx_acked v) in set_last_avail_idx q (used_idx q).

(** The queue reads the guest's memory at the base its configuration gives. *)
Definition process_queue (v : VirtioVsock) (m : GuestMem) (qidx : Z) (cfg : QueueConfig) (ws : list WriteRes)
    : option (list (Z * Z) * VirtioVsock * GuestMem * list WriteRes) :=
  if negb (qidx =? 1) || negb (cfg_ready cfg) || (cfg_size cfg =? 0) then Some ([], v, m, ws)
  else
    let view := m <| gpa_base := cfg_gpa_base cfg |> in
    let q := tx_queue v view qidx cfg in
    let! res := tx_loop (tx_fuel q view) q view (conn_mgr v) ws [] in
    let '(completions, conns, view, ws) := res in
    Some (completions, v <| conn_mgr := conns |>, view <| gpa_base := gpa_base m |>, ws).

(** ** The event queue *)

Definition EVENT_TRANSPORT_RESET : Z := 0.
Definition EVENT_SIZE : Z := 4.

(** A slice of guest memory written: whether it was in range. *)
Definition copy_out (m : GuestMem) (gpa : Z) (bytes : list Z) : bool * GuestMem :=
  match mem_slice m gpa (len bytes) with
  | Some _ => (true, write_bytes m gpa bytes)
  | None => (false, m)
  end.

Definition post_transport_reset (v : VirtioVsock) (m : GuestMem) (cfg : QueueConfig)
    : option (bool * VirtioVsock * GuestMem) :=
  if negb (ctx_bound v) || negb (cfg_ready cfg) || (cfg_size cfg =? 0) then Some (false, v, m)
  else
    let q := tx_queue v m 2 cfg in
    let! popped := pop_avail q m in
    match popped with
    | (None, _) => Some (false, v, m)
    | (Some chain, q) =>
        let '(written, m) :=
          match list_find (λ d, is_write d = true ∧ EVENT_SIZE ≤ desc_len d) (descriptors chain) with
          | Some (_, d) => copy_out m (desc_addr d) (le_bytes 4 EVENT_TRANSPORT_RESET)
          | None => (false, m)
          end in
        let! pushed := push_used q m (head_idx chain) (if written then EVENT_SIZE else 0) in
        let '(_, _, m) := pushed in
        let at_ := usize_add (cfg_avail_addr cfg) 2 in
        Some (written, if written then v <| pending_reset := Some (at_, read_u16 m at_) |> else v, m)
    end.

Definition reset_handled (v : VirtioVsock) (m : GuestMem) : bool * VirtioVsock :=
  match pending_reset v with
  | Some (at_, posted) =>
      if ctx_bound v then
        if read_u16 m at_ =? posted then (false, v) else (true, v <| pending_reset := None |>)
      else (true, v)
  | None => (true, v)
  end.

(** What the transmit queue does to the connections is what its packets do, one after
    the other, and each has its completion. *)
Fixpoint tx_packets (datas : list (list Z)) (conns : option VsockConnectionManager) (ws : list WriteRes)
    : option (option VsockConnectionManager * list WriteRes) :=
  match datas with
  | [] => Some (conns, ws)
  | data :: datas => let! handled := tx_packet data conns ws in tx_packets datas handled.1 handled.2
  end.

Lemma tx_loop_packets fuel q m conns ws completions completions' conns' m' ws' :
  tx_loop fuel q m conns ws completions = Some (completions', conns', m', ws') →
  ∃ datas, tx_packets datas conns ws = Some (conns', ws') ∧
    completions'.*2 = completions.*2 ++ ((λ data, wrap32 (len data)) <$> datas).
Proof.
  revert q m conns ws completions. induction fuel as [|fuel IH]; intros q m conns ws completions; cbn [tx_loop]; [done|].
  destruct (pop_avail q m) as [[[chain|] q1]|]; [|intros [= <- <- <- <-]; exists []; by rewrite app_nil_r|done].
  set (data := tx_data m (descriptors chain)). destruct (tx_packet data conns ws) as [[conns1 ws1]|] eqn:Ht; [|done].
  destruct (push_used _ _ _ _) as [[[b q2] m2]|]; [|done]. cbn [fst snd]. intros (datas & Hd & Hc)%IH.
  exists (data :: datas). cbn [tx_packets]. rewrite Ht. split; [done|]. rewrite Hc, fmap_app, <- app_assoc. done.
Qed.

End device.

(** ** The write loop *)

(** The answers that count: a call interrupted is repeated. *)
Fixpoint answers (ws : list WriteRes) : Z :=
  match ws with
  | [] => 0
  | Interrupted :: ws => answers ws
  | _ :: ws => 1 + answers ws
  end.

Lemma write_all_ends ws total offset retries :
  0 ≤ offset ≤ total → 0 ≤ retries ≤ MAX_POLL_RETRIES → 17 * (total - offset) ≤ answers ws + retries →
  ∃ n ws', write_all_with_backoff ws total offset retries = Some (n, ws') ∧ offset ≤ n ≤ total.
Proof.
  unfold MAX_POLL_RETRIES. revert offset retries. induction ws as [|w ws IH]; intros offset retries Ho Hr Ha; simpl.
  - simpl in Ha. rewrite (proj2 (Z.leb_le _ _)) by lia. eauto with lia.
  - destruct (Z.leb_spec total offset); [eauto with lia|]. cbn [answers] in Ha. destruct w as [more| | | |].
    + destruct (IH (offset + Z.min (total - offset) (1 + Z.of_nat more)) 0) as (n & ws' & -> & ?); [lia..|]. eauto with lia.
    + eauto with lia.
    + unfold MAX_POLL_RETRIES. destruct (Z.leb_spec 16 retries); [eauto with lia|]. apply IH; lia.
    + apply IH; lia.
    + eauto with lia.
Qed.

Lemma write_all_range ws total offset retries n ws' :
  0 ≤ offset ≤ total → write_all_with_backoff ws total offset retries = Some (n, ws') → offset ≤ n ≤ total.
Proof.
  revert offset retries. induction ws as [|w ws IH]; intros offset retries Ho; simpl; destruct (Z.leb_spec total offset);
    try (intros [= <- <-]; lia); try done. destruct w as [more| | | |]; try (intros [= <- <-]; lia).
  - intros Hw. apply IH in Hw; lia.
  - destruct (_ <=? retries); [intros [= <- <-]; lia|]. by apply IH.
  - by apply IH.
Qed.

(** A socket that refuses sixteen times before it takes each byte. *)
Definition slow (n : nat) : list WriteRes := concat (replicate n (replicate 16 WouldBlock ++ [Room 0])).

Lemma refused k ws total offset retries :
  offset < total → 0 ≤ retries → retries + Z.of_nat k ≤ MAX_POLL_RETRIES →
  write_all_with_backoff (replicate k WouldBlock ++ ws) total offset retries =
    write_all_with_backoff ws total offset (retries + Z.of_nat k).
Proof.
  intros Ho. revert retries. induction k as [|k IH]; intros retries Hr Hk; [simpl; by rewrite Z.add_0_r|].
  cbn [replicate app write_all_with_backoff]. rewrite !(proj2 (Z.leb_gt _ _)) by lia. rewrite IH by lia. f_equal. lia.
Qed.

Lemma slow_all n offset : write_all_with_backoff (slow n) (offset + Z.of_nat n) offset 0 = Some (offset + Z.of_nat n, []).
Proof.
  revert offset. induction n as [|n IH]; intros offset.
  - simpl. rewrite (proj2 (Z.leb_le _ _)) by lia. by rewrite Z.add_0_r.
  - unfold slow. cbn [replicate concat]. fold (slow n). rewrite <- app_assoc, (refused 16) by (unfold MAX_POLL_RETRIES; lia).
    cbn [app write_all_with_backoff]. rewrite (proj2 (Z.leb_gt _ _)) by lia.
    rewrite Z.min_r by lia. replace (offset + Z.of_nat (S n)) with (offset + 1 + Z.of_nat n) by lia. apply IH.
Qed.

Lemma slow_answers n : answers (slow n) = 17 * Z.of_nat n.
Proof.
  induction n as [|n IH]; [done|].
  change (slow (S n)) with (replicate 16 WouldBlock ++ Room 0 :: slow n). cbn [app replicate answers]. lia.
Qed.

(** The loop that forwards a guest's payload to the host's socket ends: whatever
    the kernel answers, after at most 17 calls per byte, interrupted ones apart, it
    returns how much it has written, which is at most the payload. The bound is met:
    the retries start over with each byte written, and a socket that takes one byte
    after each sixteen refusals uses all of them. *)
Theorem write_all_bounded :
  (∀ ws total, 0 ≤ total → 17 * total ≤ answers ws →
    ∃ n ws', write_all_with_backoff ws total 0 0 = Some (n, ws') ∧ 0 ≤ n ≤ total) ∧
  (∀ n, answers (slow n) = 17 * Z.of_nat n ∧ write_all_with_backoff (slow n) (Z.of_nat n) 0 0 = Some (Z.of_nat n, [])).
Proof.
  split; [intros ws total Ht Ha; apply write_all_ends; unfold MAX_POLL_RETRIES; lia|].
  intros n. split; [apply slow_answers|apply (slow_all n 0)].
Qed.

Lemma write_all_bounded_witness :
  ∃ n ws', write_all_with_backoff (slow 2) 2 0 0 = Some (n, ws') ∧ 0 ≤ n ≤ 2.
Proof. apply (proj1 write_all_bounded (slow 2) 2); [lia|by vm_compute]. Defined.

End VsockTx.
