(* ===== verification/VsockRx.v ===== *)
(** * The vsock device: packets to the guest

    [src/virt/arcbox-virtio-vsock/src/device/rx_injection.rs]: one round that looks
    at every connected socket, turns the operations of the queued connections into
    packets, writes them into the receive buffers the guest has posted, and drains
    the transmit queue. How much of a socket one [read] returns, and the order in
    which the connected sockets are looked at, are arguments. *)

From Stdlib Require Import ZArith Lia.
From stdpp Require Import base numbers list gmap.
From S2P Require Import Prelude Bits Checksum Bytes RingSpec GuestMem SplitQueue VsockConn VsockMgr VsockTx.

Open Scope Z_scope.

Module VsockRx.
Import VsockConn VsockMgr VsockTx.

(** ** The sockets *)

(** [recv] of one byte with [MSG_PEEK] and [MSG_DONTWAIT]. *)
Inductive Peek := PeekData | PeekEof | PeekNone.
Definition sock_peek (k : option Sock) : Peek :=
  match k with
  | Some k => match unread k with _ :: _ => PeekData | [] => if hup k then PeekEof else PeekNone end
  | None => PeekNone
  end.

(** [read] of at most [max] bytes; a stream may return fewer than it has. *)
Inductive ReadRes := ReadData (bytes : list Z) | ReadEof | ReadAgain.
Definition read_size (k : Sock) (max : Z) (short : nat) : nat :=
  Nat.min (Nat.min (length (unread k)) (Z.to_nat max)) (S short).
Definition sock_read (k : option Sock) (max : Z) (short : nat) : ReadRes :=
  match k with
  | Some k =>
      match unread k with
      | [] => if hup k then ReadEof else ReadAgain
      | _ => ReadData (take (read_size k max short) (unread k))
      end
  | None => ReadAgain
  end.
Definition sock_drop (m : VsockConnectionManager) (fd n : Z) : VsockConnectionManager :=
  match socks m !! fd with
  | Some k => m <| socks := <[fd := k <| unread := drop (Z.to_nat n) (unread k) |>]> (socks m) |>
  | None => m
  end.

(** ** Phase 1: the connected sockets *)

Definition peek_one (m : VsockConnectionManager) (idfd : VsockConnectionId * Z) : VsockConnectionManager :=
  match sock_peek (socks m !! idfd.2) with
  | PeekData => enqueue_rw m idfd.1
  | PeekEof => enqueue_reset m idfd.1
  | PeekNone => m
  end.

Definition peek_fds (m : VsockConnectionManager) (visit : list (VsockConnectionId * Z)) : VsockConnectionManager :=
  foldl peek_one m visit.

(** ** Phase 2: one packet *)

Definition header_to (c : VsockConnection) (cid : VsockConnectionId) (op : VsockOp) : VsockHeader :=
  new_header (host_addr (host_port cid)) (MkAddr (guest_cid c) (guest_port cid)) op.

Definition credit_header (c : VsockConnection) (cid : VsockConnectionId) (op : VsockOp) : VsockHeader :=
  (header_to c cid op) <| buf_alloc := TX_BUFFER_SIZE |> <| h_fwd_cnt := fwd_cnt c |>.

(** Data read for the guest. *)
Definition sent_rw (c : VsockConnection) (data : list Z) (max_read : Z) : VsockConnection :=
  let c := maybe_request_credit (record_rx c (wrap32 (len data))) in
  if len data =? max_read then enqueue_op c RW else c.

(** The [RW] arm, with the bit already off the queue; no packet is [continue]. *)
Definition build_rw (m : VsockConnectionManager) (cid : VsockConnectionId) (c : VsockConnection) (rx_capacity : Z)
    (short : nat) : VsockConnectionManager * option (list Z) :=
  if peer_no_recv c then (put_conn m cid c, None)
  else if negb (connect c) then (remove (put_conn m cid c) cid, Some (to_bytes (header_to c cid Rst)))
  else
    let credit := peer_avail_credit c in
    if credit =? 0 then
      if credit_request_pending c then (put_conn m cid (park_rw c), None)
      else
        (put_conn m cid (note_credit_request_sent (park_rw c)), Some (to_bytes (credit_header c cid CreditRequest)))
    else
      let max_read := Z.min credit (saturating_sub rx_capacity SIZE) in
      if max_read =? 0 then (put_conn m cid (enqueue_op c RW), None)
      else
        match sock_read (socks m !! internal_fd c) max_read short with
        | ReadEof => (put_conn m cid c, Some (to_bytes ((credit_header c cid Shutdown) <| flags := 3 |>)))
        | ReadAgain => (put_conn m cid c, None)
        | ReadData data =>
            let h := (credit_header c cid Rw) <| h_len := wrap32 (len data) |> in
            (put_conn (sock_drop m (internal_fd c) (len data)) cid (sent_rw c data max_read), Some (to_bytes h ++ data))
        end.

Definition build_packet (m : VsockConnectionManager) (cid : VsockConnectionId) (rx_capacity : Z) (short : nat)
    : VsockConnectionManager * option (list Z) :=
  match connections m !! cid with
  | None => (m, None)
  | Some c =>
      let '(op, ops) := ops_dequeue (rx_queue c) in
      let c' := c <| rx_queue := ops |> in
      if ops_peek (rx_queue c) =? RESET then (remove (put_conn m cid c') cid, Some (to_bytes (header_to c' cid Rst)))
      else if op =? 0 then (m, None)
      else if op =? REQUEST then (put_conn m cid c', Some (to_bytes (header_to c' cid Request)))
      else if op =? RESPONSE then
        (put_conn m cid (c' <| connect := true |>), Some (to_bytes (header_to c' cid Response)))
      else if op =? RW then build_rw m cid c' rx_capacity short
      else if op =? CREDIT_UPDATE then
        (put_conn m cid (mark_credit_sent c'), Some (to_bytes (credit_header c' cid CreditUpdate)))
      else if op =? CREDIT_REQUEST then (put_conn m cid c', Some (to_bytes (credit_header c' cid CreditRequest)))
      else (put_conn m cid c', None)
  end.

(** The packet has landed: the waiting connect is told. *)
Definition notify_injected (m : VsockConnectionManager) (cid : VsockConnectionId) : VsockConnectionManager :=
  match connections m !! cid with
  | Some c =>
      if injected_notify c
      then (put_conn m cid (c <| injected_notify := false |>)) <| signals := signals m ++ [cid] |>
      else m
  | None => m
  end.

(** A connection with operations left goes to the back of the queue. *)
Definition repush (m : VsockConnectionManager) (cid : VsockConnectionId) : VsockConnectionManager :=
  match connections m !! cid with
  | Some c => if ops_pending (rx_queue c) then push_rxq m cid else m
  | None => m
  end.

(** ** The queue of connections keeps covering *)

Lemma entries_cons cid k q : entries cid (k :: q) = ((if decide (k = cid) then 1 else 0) + entries cid q)%nat.
Proof. unfold entries. rewrite filter_cons. by case_decide. Qed.

(** The manager with the entry of [cid] off the queue. *)
Record popped_ok (m : VsockConnectionManager) (cid : VsockConnectionId) : Prop := {
  po_id : ∀ k c, connections m !! k = Some c → id c = k ∧ 0 ≤ rx_queue c < 64;
  po_other : ∀ k c, connections m !! k = Some c → k ≠ cid → covered (rx_queue c) (entries k (backend_rxq m));
  po_self : ∀ c, connections m !! cid = Some c → covered (rx_queue c) (S (entries cid (backend_rxq m)))
}.

Lemma pop_front_ok m cid rest :
  mgr_ok m → backend_rxq m = cid :: rest → popped_ok (m <| backend_rxq := rest |>) cid.
Proof.
  intros [H1 H2] Hq. split; simpl; [done| |]; intros k; [intros c Hk Hne|intros Hk].
  - specialize (H2 k c Hk). by rewrite Hq, entries_cons, decide_False in H2.
  - specialize (H2 cid k Hk). by rewrite Hq, entries_cons, decide_True in H2.
Qed.

(** The connection of [cid] changes, and the entry stays off the queue. *)
Lemma popped_done m m' cid c' :
  popped_ok m cid → connections m' = <[cid := c']> (connections m) → backend_rxq m' = backend_rxq m →
  id c' = cid → 0 ≤ rx_queue c' < 64 → covered (rx_queue c') (entries cid (backend_rxq m)) → mgr_ok m'.
Proof.
  intros [P1 P2 P3] Hc Hq Hi Hr Hcov. split; intros k c; rewrite Hc; intros [[<- <-]|[Hne Hk]]%lookup_insert_Some; rewrite ?Hq; eauto.
Qed.

(** It goes back on the queue when it has operations left. *)
Lemma popped_repush m m' cid c' :
  popped_ok m cid → connections m' = <[cid := c']> (connections m) → backend_rxq m' = backend_rxq m →
  id c' = cid → 0 ≤ rx_queue c' < 64 → (owed (rx_queue c') ≤ S (entries cid (backend_rxq m)))%nat →
  mgr_ok (repush m' cid).
Proof.
  intros Hp Hc Hq Hi Hr Ho. unfold repush. rewrite Hc, lookup_insert_eq. unfold ops_pending.
  destruct (Z.eqb_spec (rx_queue c') 0) as [Hz|Hz]; simpl.
  - eapply popped_done; try done. rewrite Hz. split; [vm_compute; lia|done].
  - destruct Hp as [P1 P2 P3]. split; simpl; intros k c; rewrite Hc; intros [[<- <-]|[Hne Hk]]%lookup_insert_Some; eauto;
      rewrite Hq, entries_push.
    + rewrite decide_True, Nat.add_1_r by done. split; [done|lia].
    + eapply covered_mono; [by apply P2|lia].
Qed.

Lemma popped_gone m cid : popped_ok m cid → connections m !! cid = None → mgr_ok m.
Proof.
  intros [P1 P2 P3] Hn. split; [done|]. intros k c Hk. apply P2; [done|]. by intros ->; congruence.
Qed.

(** What building a packet leaves: the connection with at most the operations its
    entries cover once it is pushed back, or no connection. *)
Inductive built (m : VsockConnectionManager) (cid : VsockConnectionId) (m' : VsockConnectionManager) : Prop :=
| BuiltKept c' : connections m' = <[cid := c']> (connections m) → backend_rxq m' = backend_rxq m →
    id c' = cid → 0 ≤ rx_queue c' < 64 → (owed (rx_queue c') ≤ S (entries cid (backend_rxq m)))%nat → built m cid m'
| BuiltGone : connections m' !! cid = None → mgr_ok m' → built m cid m'.

Lemma built_repush m cid m' : popped_ok m cid → built m cid m' → mgr_ok (repush m' cid).
Proof.
  intros Hp [c' Hc Hq Hi Hr Ho|Hn Hm]; [by eapply popped_repush|]. unfold repush. by rewrite Hn.
Qed.

Lemma built_notify m cid m' : built m cid m' → built m cid (notify_injected m' cid).
Proof.
  intros [c' Hc Hq Hi Hr Ho|Hn Hm]; unfold notify_injected.
  - rewrite Hc, lookup_insert_eq. destruct (injected_notify c'); [|by eapply BuiltKept].
    eapply (BuiltKept _ _ _ (c' <| injected_notify := false |>)); try done. simpl. by rewrite Hc, insert_insert_eq.
  - rewrite Hn. by apply BuiltGone.
Qed.

Lemma built_removed m cid c' : popped_ok m cid → built m cid (remove (put_conn m cid c') cid).
Proof.
  intros [P1 P2 P3]. unfold remove. simpl. rewrite lookup_insert_eq. apply BuiltGone.
  { destruct (injected_notify c'); simpl; by rewrite lookup_delete_eq. }
  assert (∀ k, k ≠ cid → entries k (filter (λ qid, qid ≠ cid) (backend_rxq m)) = entries k (backend_rxq m)) as He.
  { intros k Hk. unfold entries. rewrite list_filter_filter. f_equal. apply list_filter_iff. intros x. split; [by intros [? _]|by intros ->]. }
  split; intros k d Hk; (assert (connections m !! k = Some d ∧ k ≠ cid) as [Hk' Hne];
    [destruct (injected_notify c'); simpl in Hk; apply lookup_delete_Some in Hk as [? Hk]; by rewrite lookup_insert_ne in Hk|]); [by apply P1|].
  destruct (injected_notify c'); simpl; rewrite He by done; by apply P2.
Qed.

(** The connection after its highest operation [op] is taken off. *)
Record taken_op (m : VsockConnectionManager) (cid : VsockConnectionId) (op : Z) (c : VsockConnection) : Prop := {
  to_popped : popped_ok m cid;
  to_id : id c = cid;
  to_range : 0 ≤ rx_queue c < 64;
  to_owed : (owed (rx_queue c) ≤ S (entries cid (backend_rxq m)))%nat;
  to_rw : op = RW → covered (rx_queue c) (entries cid (backend_rxq m)) ∧
    (S (owed (rx_queue c)) ≤ S (entries cid (backend_rxq m)))%nat
}.

Lemma take_op m cid c op ops :
  popped_ok m cid → connections m !! cid = Some c → rx_queue c ≠ 0 → ops_dequeue (rx_queue c) = (op, ops) →
  taken_op m cid op (c <| rx_queue := ops |>).
Proof.
  intros Hp Hc Hn Hd. destruct (po_id _ _ Hp _ _ Hc) as [Hi Hr]. destruct (po_self _ _ Hp _ Hc) as [H1 H2].
  destruct (dequeue_facts _ _ _ Hr Hn Hd) as (D1 & D2 & D3 & D4). split; try done; simpl.
  - destruct (op =? CREDIT_REQUEST); lia.
  - intros ->. simpl in D3. split; [|lia]. split; [lia|]. intros Hz. specialize (D4 ltac:(done) ltac:(done) Hz). lia.
Qed.

(** A connection that keeps what is left of its operations. *)
Lemma taken_kept m m' cid op c c' :
  taken_op m cid op c → connections m' = <[cid := c']> (connections m) → backend_rxq m' = backend_rxq m →
  id c' = id c → rx_queue c' = rx_queue c → built m cid m'.
Proof. intros [T1 T2 T3 T4 T5] Hc Hq Hi Hr. eapply BuiltKept; rewrite ?Hr, ?Hi; done. Qed.

Lemma taken_skip m cid c c' :
  taken_op m cid RW c → id c' = id c → rx_queue c' = rx_queue c → mgr_ok (put_conn m cid c').
Proof.
  intros [T1 T2 T3 T4 T5] Hi Hr. eapply (popped_done m _ cid c'); rewrite ?Hr, ?Hi; try done. by apply T5.
Qed.

Lemma maybe_request_ops c :
  0 ≤ rx_queue c < 64 → id (maybe_request_credit c) = id c ∧ 0 ≤ rx_queue (maybe_request_credit c) < 64 ∧
  owed (rx_queue (maybe_request_credit c)) = owed (rx_queue c).
Proof.
  intros Hr. unfold maybe_request_credit. destruct (_ || _); [done|]. destruct (_ <? _); [|done]. simpl.
  by destruct (enqueue_facts (rx_queue c) CREDIT_REQUEST Hr eq_refl) as (? & _ & _ & ->).
Qed.

Lemma sent_ops m cid c data max_read :
  taken_op m cid RW c →
  id (sent_rw c data max_read) = cid ∧ 0 ≤ rx_queue (sent_rw c data max_read) < 64 ∧
  (owed (rx_queue (sent_rw c data max_read)) ≤ S (entries cid (backend_rxq m)))%nat.
Proof.
  intros [T1 T2 T3 T4 T5]. destruct (T5 eq_refl) as [_ Ho]. unfold sent_rw.
  set (c1 := record_rx c _). destruct (maybe_request_ops c1) as (Hi & Hr & Hw); [done|].
  change (rx_queue c1) with (rx_queue c) in Hw. change (id c1) with (id c) in Hi.
  destruct (len data =? max_read).
  - destruct (enqueue_facts _ RW Hr eq_refl) as (E1 & _ & E3 & _). simpl. rewrite Hi. split; [done|]. split; [done|]. lia.
  - rewrite Hi, Hw. done.
Qed.

Lemma build_rw_ok m cid c cap short m' out :
  taken_op m cid RW c → SIZE < cap → build_rw m cid c cap short = (m', out) →
  match out with Some _ => built m cid m' | None => mgr_ok m' end.
Proof.
  intros Ht Hcap. unfold build_rw. pose proof (to_popped _ _ _ _ Ht) as Hp.
  destruct (peer_no_recv c); [intros [= <- <-]; by eapply taken_skip|].
  destruct (connect c); simpl; [|intros [= <- <-]; by apply built_removed].
  destruct (Z.eqb_spec (peer_avail_credit c) 0) as [Hz|Hz].
  { destruct (credit_request_pending c); intros [= <- <-]; [by eapply taken_skip|by eapply taken_kept]. }
  assert (0 < peer_avail_credit c) as Hpos by (unfold peer_avail_credit, wrap32, u32_bound in *; pose proof (Z.mod_pos_bound (peer_buf_alloc c - (rx_cnt c - peer_fwd_cnt c) mod 2 ^ 32) (2 ^ 32)); lia).
  rewrite (proj2 (Z.eqb_neq _ 0)) by (unfold saturating_sub, SIZE in *; lia).
  destruct (sock_read _ _ _) as [data| |]; intros [= <- <-]; [|by eapply taken_kept|by eapply taken_skip].
  destruct (sent_ops m cid c data (Z.min (peer_avail_credit c) (saturating_sub cap SIZE)) Ht) as (S1 & S2 & S3).
  assert (connections (sock_drop m (internal_fd c) (len data)) = connections m ∧
    backend_rxq (sock_drop m (internal_fd c) (len data)) = backend_rxq m) as [E1 E2] by (unfold sock_drop; by destruct (_ !! _)).
  eapply BuiltKept; [simpl; by rewrite E1|exact E2|done..].
Qed.

Lemma build_packet_ok m cid cap short m' out :
  popped_ok m cid → SIZE < cap → build_packet m cid cap short = (m', out) →
  match out with Some _ => built m cid m' | None => mgr_ok m' end.
Proof.
  intros Hp Hcap. unfold build_packet. destruct (connections m !! cid) as [c|] eqn:Hc.
  2: { intros [= <- <-]. by eapply popped_gone. }
  destruct (ops_dequeue (rx_queue c)) as [op ops] eqn:Hd. destruct (decide (rx_queue c = 0)) as [Hz|Hz].
  { unfold ops_peek. rewrite Hz in Hd |- *. injection Hd as <- <-. simpl. intros [= <- <-].
    destruct (po_id _ _ Hp _ _ Hc) as [Hi Hr]. eapply (popped_done m m cid c); try done; [by rewrite insert_id|].
    rewrite Hz. split; [vm_compute; lia|done]. }
  pose proof (take_op _ _ _ _ _ Hp Hc Hz Hd) as Ht. set (c' := c <| rx_queue := ops |>) in *.
  assert (ops_peek (rx_queue c) = op) as ->.
  { unfold ops_peek, ops_dequeue in *. destruct (rx_queue c =? 0); by simplify_eq. }
  destruct (po_id _ _ Hp _ _ Hc) as [_ Hr]. destruct (dequeue_facts _ _ _ Hr Hz Hd) as (_ & Hop & _).
  destruct (Z.eqb_spec op RESET) as [H3|H3]; [intros [= <- <-]; by apply built_removed|].
  destruct (Z.eqb_spec op 0) as [->|H0]; [done|].
  destruct (Z.eqb_spec op REQUEST) as [H4|H4]; [intros [= <- <-]; by eapply taken_kept|].
  destruct (Z.eqb_spec op RESPONSE) as [H5|H5]; [intros [= <- <-]; by eapply taken_kept|].
  destruct (Z.eqb_spec op RW) as [->|H1]; [by apply build_rw_ok|].
  destruct (Z.eqb_spec op CREDIT_UPDATE) as [H6|H6]; [intros [= <- <-]; by eapply taken_kept|].
  destruct (Z.eqb_spec op CREDIT_REQUEST) as [H2|H2]; [intros [= <- <-]; by eapply taken_kept|].
  exfalso. unfold is_op in Hop. cbn [existsb] in Hop. rewrite !(proj2 (Z.eqb_neq _ _)) in Hop by done. done.
Qed.

Section rx.
Context `{VirtioRing} `{VirtioBits}.

(** The queue each helper builds from the offsets it is given, the cursor at the
    guest's [used.idx]. *)
Definition rx_queue_of (m : GuestMem) (cfg : QueueConfig) : SplitQueue :=
  let q := new_queue m 0 cfg false in
  set_last_avail_idx q (read_u16 m (usize_add (cfg_used_addr cfg) 2)).

(** Writable bytes of the next chain; the outer [None] is a panic. *)
Definition next_rx_capacity (m : GuestMem) (cfg : QueueConfig) : option Z :=
  let q := rx_queue_of m cfg in
  let! next := next_avail_head q m in
  match next with
  | (None, _) => Some 0
  | (Some head, q) =>
      Some (foldr Z.add 0 (desc_len <$> filter (λ d, is_write d = true) (collect (chain_fuel q) q m (chain_iter q head))))
  end.

(** The packet scattered over the writable descriptors, from byte [written]. *)
Fixpoint scatter (m : GuestMem) (descs : list VirtqDesc) (packet : list Z) (written : Z) : Z * GuestMem :=
  match descs with
  | [] => (written, m)
  | d :: descs =>
      let '(written, m) :=
        if is_write d then
          let to_write := Z.min (saturating_sub (len packet) written) (desc_len d) in
          if 0 <? to_write then
            match copy_out m (desc_addr d) (take (Z.to_nat to_write) (drop (Z.to_nat written) packet)) with
            | (true, m) => (written + to_write, m)
            | (false, m) => (written, m)
            end
          else (written, m)
        else (written, m) in
      if len packet <=? written then (written, m) else scatter m descs packet written
  end.

(** The inner [None]: no chain was available. *)
Definition write_to_rx_descriptor (m : GuestMem) (cfg : QueueConfig) (packet : list Z)
    : option (option Z * GuestMem) :=
  let q := rx_queue_of m cfg in
  let! popped := pop_avail q m in
  match popped with
  | (None, _) => Some (None, m)
  | (Some chain, q) =>
      let '(written, m) := scatter m (descriptors chain) packet 0 in
      let! pushed := push_used q m (head_idx chain) (wrap32 written) in
      let '(_, _, m) := pushed in
      Some (Some written, m)
  end.

Definition rx_notify_needed (m : GuestMem) (cfg : QueueConfig) (old_used new_used : Z) : bool :=
  notify_needed (new_queue m 0 cfg true) m old_used new_used.

(** [u16::from_le_bytes([guest_mem[off], guest_mem[off + 1]])], which panics out of
    the slice. *)
Definition slice_u16 (m : GuestMem) (off : Z) : option Z :=
  let! lo := byte (ram m) off in let! hi := byte (ram m) (off + 1) in Some (le_value [lo; hi]).

(** The round as the loop goes: the packets it built and what was written of each. *)
Record Round := MkRound {
  r_mgr : VsockConnectionManager;
  r_mem : GuestMem;
  r_sent : list (VsockConnectionId * list Z * option Z)
}.

(** One turn of the loop: [inr] says how it ended, with [true] for starved. *)
Definition inject_one (cfg : QueueConfig) (rx_avail rx_used : Z) (short : nat) (r : Round) : option (Round + bool) :=
  let! avail := slice_u16 (r_mem r) (rx_avail + 2) in
  let! used := slice_u16 (r_mem r) (rx_used + 2) in
  if avail =? used then Some (inr (negb (bool_decide (backend_rxq (r_mgr r) = []))))
  else
    match backend_rxq (r_mgr r) with
    | [] => Some (inr false)
    | cid :: rest =>
        let m := (r_mgr r) <| backend_rxq := rest |> in
        let! capacity := next_rx_capacity (r_mem r) cfg in
        match build_packet m cid capacity short with
        | (m, None) => Some (inl (MkRound m (r_mem r) (r_sent r)))
        | (m, Some packet) =>
            let! res := write_to_rx_descriptor (r_mem r) cfg packet in
            let m := match res.1 with Some n => if 0 <? n then notify_injected m cid else m | None => m end in
            Some (inl (MkRound (repush m cid) res.2 (r_sent r ++ [(cid, packet, res.1)])))
        end
    end.

Fixpoint inject_loop (fuel : nat) (cfg : QueueConfig) (rx_avail rx_used : Z) (shorts : list nat) (r : Round)
    : option (Round * bool) :=
  match fuel with
  | O => None
  | S fuel =>
      let! res := inject_one cfg rx_avail rx_used (default 0%nat (head shorts)) r in
      match res with
      | inl r => inject_loop fuel cfg rx_avail rx_used (tail shorts) r
      | inr starved => Some (r, starved)
      end
  end.

(** Each turn takes a buffer the guest has posted, or shortens the queue. *)
Definition inject_fuel (cfg : QueueConfig) (m : GuestMem) (mgr : VsockConnectionManager) : nat :=
  let q := rx_queue_of m cfg in
  S (Z.to_nat (wrapping_sub16 (avail_idx q m) (last_avail_idx q)) + length (backend_rxq mgr)).

Record RxRound := MkRxRound { wrote : bool; raise : bool }.

(** A packet that took a chain, even one it could not write. *)
Definition landed (s : VsockConnectionId * list Z * option Z) : bool :=
  match s.2 with Some _ => true | None => false end.

(** Phase 2: what it wrote, whether to interrupt, and the state after it. The first
    [None] is a panic, the second an early return. *)
Definition inject_rx (cfg : QueueConfig) (event_idx : bool) (shorts : list nat) (mgr : VsockConnectionManager)
    (m : GuestMem) : option (option (RxRound * Round)) :=
  let base := gpa_base m in
  if negb (cfg_ready cfg) || (cfg_size cfg =? 0) then Some None
  else if (cfg_desc_addr cfg <? base) || (cfg_avail_addr cfg <? base) || (cfg_used_addr cfg <? base) then Some None
  else
    let rx_avail := cfg_avail_addr cfg - base in
    let rx_used := cfg_used_addr cfg - base in
    if mem_len m <? rx_avail + 4 then Some None
    else
      let! used_at_start := slice_u16 m (rx_used + 2) in
      let! res := inject_loop (inject_fuel cfg m mgr) cfg rx_avail rx_used shorts (MkRound mgr m []) in
      let '(r, starved) := res in
      let wrote_any := existsb landed (r_sent r) in
      let! used_now := slice_u16 (r_mem r) (rx_used + 2) in
      let raise :=
        if event_idx then wrote_any && rx_notify_needed (r_mem r) cfg used_at_start used_now
        else wrote_any || starved in
      Some (Some (MkRxRound wrote_any raise, r)).

(** ** The round *)

Definition poll_rx_injection (v : VirtioVsock) (m : GuestMem) (rx_qcfg : QueueConfig) (tx_qcfg : option QueueConfig)
    (event_idx : bool) (visit : list (VsockConnectionId * Z)) (shorts : list nat) (ws : list WriteRes)
    : option (RxRound * VirtioVsock * GuestMem * list WriteRes) :=
  if negb (ctx_bound v) then Some (MkRxRound false false, v, m, ws)
  else
    let '(handled, v) := reset_handled v m in
    if negb handled then Some (MkRxRound false false, v, m, ws)
    else
      match conn_mgr v with
      | None => Some (MkRxRound false false, v, m, ws)
      | Some mgr =>
          let mgr := peek_fds mgr visit in
          let! phase2 := inject_rx rx_qcfg event_idx shorts mgr m in
          match phase2 with
          | None => Some (MkRxRound false false, v <| conn_mgr := Some mgr |>, m, ws)
          | Some (round, r) =>
              let v := v <| conn_mgr := Some (r_mgr r) |> in
              match tx_qcfg with
              | None => Some (round, v, r_mem r, ws)
              | Some tx_qcfg =>
                  let! tx := process_queue v (r_mem r) 1 tx_qcfg ws in
                  let '(completions, v, m, ws) := tx in
                  match completions, conn_mgr v with
                  | _ :: _, Some mgr =>
                      Some (MkRxRound (wrote round) true,
                        v <| conn_mgr := Some (foldl push_rxq mgr (connections_with_pending_rx mgr)) |>, m, ws)
                  | _, _ => Some (round, v, m, ws)
                  end
              end
          end
      end.

End rx.
End VsockRx.
