(* ===== verification/VsockRound.v ===== *)
(** * A round of vsock packets into guest memory

    What a round of [device/rx_injection.rs] leaves in the guest's receive buffers:
    every packet it builds, whole, in the buffers in the order they were posted, until
    the buffers or the pending operations run out. *)

From Stdlib Require Import ZArith Lia.
From stdpp Require Import base numbers list gmap.
From S2P Require Import Prelude Bits Checksum Bytes RingSpec GuestMem SplitQueue VsockConn VsockMgr VsockTx VsockRx.

Open Scope Z_scope.

Module VsockRound.
Import VsockConn VsockMgr VsockTx VsockRx.

(** ** Frames of several ranges *)

Definition outside (a : Z) (r : Z * Z) : Prop := a < r.1 ∨ r.1 + r.2 ≤ a.
Definition apart (a b : Z * Z) : Prop := disjoint_ranges a.1 a.2 b.1 b.2.

(** [m'] is [m] after writes that stay in the ranges. *)
Record changes_only (rs : list (Z * Z)) (m m' : GuestMem) : Prop := {
  co_ok : mem_ok m';
  co_base : gpa_base m' = gpa_base m;
  co_len : mem_len m' = mem_len m;
  co_byte : ∀ a, Forall (outside a) rs → byte_at m' a = byte_at m a
}.

Lemma changes_refl rs m : mem_ok m → changes_only rs m m.
Proof. by split. Qed.

Lemma changes_trans rs rs' m1 m2 m3 :
  changes_only rs m1 m2 → changes_only rs' m2 m3 → changes_only (rs ++ rs') m1 m3.
Proof.
  intros [_ B1 L1 R1] [O2 B2 L2 R2]. split; [done|congruence|congruence|].
  intros a [H1 H2]%Forall_app. by rewrite R2, R1.
Qed.

Lemma changes_mono rs rs' m m' : rs ⊆ rs' → changes_only rs m m' → changes_only rs' m m'.
Proof.
  intros Hsub [O B L R]. split; [done..|]. intros a Ha. apply R. rewrite list.Forall_forall in *. auto.
Qed.

Lemma changes_range rs m m' a n : changes_only rs m m' → in_range m' a n ↔ in_range m a n.
Proof. intros [_ B L _]. unfold in_range. by rewrite B, L. Qed.

Lemma apart_outside a n r x : apart (a, n) r → a ≤ x < a + n → outside x r.
Proof. unfold apart, disjoint_ranges, outside. simpl. lia. Qed.

Lemma changes_slice rs m m' a n :
  mem_ok m → changes_only rs m m' → 0 ≤ n → Forall (apart (a, n)) rs → mem_slice m' a n = mem_slice m a n.
Proof.
  intros Hm [O B L R] Hn Hd. apply mem_slice_ext; try done. intros x Hx. apply R.
  eapply Forall_impl; [exact Hd|]. intros r Hr. by eapply apart_outside.
Qed.

Lemma changes_read rs m m' n a :
  mem_ok m → changes_only rs m m' → Forall (apart (a, Z.of_nat n)) rs → read_le m' n a = read_le m n a.
Proof. intros Hm Hc Hd. unfold read_le. by rewrite (changes_slice rs m m') by (done || lia). Qed.

Lemma write_bytes_changes m gpa bs :
  mem_ok m → Forall in_u8 bs → changes_only [(gpa, len bs)] m (write_bytes m gpa bs).
Proof.
  intros Hm Hbs. split; [by apply write_bytes_ok|apply write_bytes_base|apply write_bytes_len|].
  intros a [Ha _]%Forall_cons. rewrite write_bytes_covers by done. unfold covers. unfold outside, len in Ha. simpl in Ha.
  destruct (in_rangeb _ _ _); [|done]. cbn [andb].
  destruct (Z.leb_spec gpa a), (Z.ltb_spec a (gpa + Z.of_nat (length bs))); try done. lia.
Qed.

Lemma read_byte m a : mem_ok m → in_range m a 1 → ∃ b, byte_at m a = Some b ∧ read_le m 1 a = b.
Proof.
  intros Hm Hr. unfold read_le. change (Z.of_nat 1) with 1.
  destruct (mem_slice m a 1) as [bs|] eqn:Hs; [|by rewrite mem_slice_in in Hs].
  destruct (mem_slice_at _ _ _ _ Hm (ltac:(lia) : 0 ≤ 1) Hs) as [Hl Hb].
  destruct bs as [|b [|]]; try done. exists b. specialize (Hb 0%nat ltac:(simpl; lia)). simpl in Hb.
  rewrite Z.add_0_r in Hb. rewrite <- Hb. split; [done|]. simpl. lia.
Qed.

Lemma byte_at_out m a : ¬ in_range m a 1 → byte_at m a = None.
Proof.
  intros Hn. unfold byte_at. destruct (Z.ltb_spec a (gpa_base m)); [done|]. apply lookup_ge_None_2.
  unfold in_range, mem_len in Hn. lia.
Qed.

Lemma within_changes lo n m m' : mem_ok m → writes_within lo n m m' → changes_only [(lo, n)] m m'.
Proof.
  intros Hm [O B L R]. split; [done..|]. intros a [Ha _]%Forall_cons. unfold outside in Ha. simpl in Ha.
  destruct (decide (in_rangeb m a 1 = true)) as [Hr%in_rangeb_spec|Hr].
  - destruct (read_byte m a Hm Hr) as (b & -> & Hb). destruct (read_byte m' a O) as (b' & -> & Hb').
    { unfold in_range in *. by rewrite B, L. }
    rewrite <- Hb, <- Hb'. f_equal. apply R. unfold disjoint_ranges. lia.
  - rewrite in_rangeb_spec in Hr. rewrite !byte_at_out; [done|done|]. unfold in_range in *. by rewrite B, L.
Qed.

(** ** Scattering a packet *)

Section round.
Context `{VirtioRing} `{VirtioBits}.

Definition writable (descs : list VirtqDesc) : list VirtqDesc := filter (λ d, is_write d = true) descs.
Definition ranges_of (descs : list VirtqDesc) : list (Z * Z) := (λ d, (desc_addr d, desc_len d)) <$> writable descs.
Definition capacity_of (descs : list VirtqDesc) : Z := foldr Z.add 0 (desc_len <$> writable descs).

(** The bytes of the writable descriptors, one after the other. *)
Definition gather (m : GuestMem) (descs : list VirtqDesc) : list Z :=
  concat ((λ d, default [] (mem_slice m (desc_addr d) (desc_len d))) <$> writable descs).

Lemma gather_changes rs m m' descs :
  mem_ok m → changes_only rs m m' → Forall (λ r, 0 ≤ r.2 ∧ Forall (apart r) rs) (ranges_of descs) →
  gather m' descs = gather m descs.
Proof.
  intros Hm Hc Hd. unfold gather. f_equal. unfold ranges_of in Hd. rewrite Forall_fmap in Hd.
  apply list_fmap_ext. intros i d Hi. apply (Forall_lookup_1 _ _ _ _ Hd) in Hi as [H1 H2]. simpl in *.
  by rewrite (changes_slice rs m m').
Qed.

(** Bytes written at the start of a range read back. *)
Lemma slice_written m a n bs :
  mem_ok m → Forall in_u8 bs → in_range m a n → len bs ≤ n →
  ∃ s, mem_slice (write_bytes m a bs) a n = Some s ∧ len s = n ∧ take (length bs) s = bs.
Proof.
  intros Hm Hbs Hr Hle. pose proof Hr as (R1 & R2 & R3). assert (mem_ok (write_bytes m a bs)) as Hm' by by apply write_bytes_ok.
  destruct (mem_slice (write_bytes m a bs) a n) as [s|] eqn:Hs.
  2: { rewrite mem_slice_in in Hs; [done..|by apply in_range_write]. }
  destruct (mem_slice_at _ _ _ _ Hm' R2 Hs) as [Hl Hb]. exists s. split; [done|]. split; [unfold len; lia|].
  unfold len in Hle. apply list_eq_same_length with (n := length bs); [done|rewrite length_take; lia|].
  intros i x y Hi Hx Hy. rewrite lookup_take_lt in Hx by done. rewrite Hb in Hx by lia.
  rewrite write_bytes_at in Hx; [|done|unfold in_range in *; lia].
  rewrite (proj2 (Z.leb_le _ _)), (proj2 (Z.ltb_lt _ _)) in Hx by lia. simpl in Hx.
  replace (Z.to_nat (a + Z.of_nat i - a)) with i in Hx by lia. congruence.
Qed.

(** The chunk that goes to one descriptor. *)
Lemma scatter_chunk packet written n :
  0 ≤ written → 0 ≤ n → written + n ≤ len packet →
  len (take (Z.to_nat n) (drop (Z.to_nat written) packet)) = n.
Proof. unfold len. intros H1 H2 H3. rewrite length_take, length_drop. lia. Qed.

Lemma write_nothing m a : write_bytes m a [] = m.
Proof. unfold write_bytes. destruct (gpa_to_offset _ _ _); [|done]. by destruct m. Qed.

(** One writable descriptor takes the next chunk. *)
Lemma scatter_write d descs m packet written :
  mem_ok m → 0 ≤ written ≤ len packet → is_write d = true → in_range m (desc_addr d) (desc_len d) →
  let n := Z.min (len packet - written) (desc_len d) in
  let m1 := write_bytes m (desc_addr d) (take (Z.to_nat n) (drop (Z.to_nat written) packet)) in
  scatter m (d :: descs) packet written =
    if len packet <=? written + n then (written + n, m1) else scatter m1 descs packet (written + n).
Proof.
  intros Hm Hw Hwr Hin n m1. pose proof Hin as (I1 & I2 & I3). cbn [scatter]. rewrite Hwr. unfold saturating_sub.
  rewrite Z.max_r by lia. fold n. assert (0 ≤ n ≤ desc_len d) by lia. destruct (Z.ltb_spec 0 n).
  - unfold copy_out. rewrite scatter_chunk by lia. rewrite mem_slice_in by (done || (unfold in_range in *; lia)). done.
  - subst m1. assert (n = 0) as -> by lia. simpl take. by rewrite write_nothing, Z.add_0_r.
Qed.

(** The descriptor then starts with that chunk, and nothing else changed. *)
Lemma chunk_written d m packet written n :
  mem_ok m → Forall in_u8 packet → in_range m (desc_addr d) (desc_len d) →
  0 ≤ written → 0 ≤ n ≤ desc_len d → written + n ≤ len packet →
  let chunk := take (Z.to_nat n) (drop (Z.to_nat written) packet) in
  let m1 := write_bytes m (desc_addr d) chunk in
  changes_only [(desc_addr d, desc_len d)] m m1 ∧
  ∃ s, mem_slice m1 (desc_addr d) (desc_len d) = Some s ∧ len s = desc_len d ∧ take (Z.to_nat n) s = chunk.
Proof.
  intros Hm Hp Hin Hw Hn Hle chunk m1. assert (len chunk = n) as Hlc by (apply scatter_chunk; lia).
  assert (Forall in_u8 chunk) as Hcb by by apply Forall_take, Forall_drop. split.
  - destruct (write_bytes_changes m (desc_addr d) chunk Hm Hcb) as [O B L R]. split; try done.
    intros a Ha. apply R. apply Forall_cons in Ha as [Ha _]. apply Forall_cons. split; [|done]. unfold outside in *. simpl in *. lia.
  - destruct (slice_written m (desc_addr d) (desc_len d) chunk Hm Hcb Hin) as (s & Hs & Hls & Hts); [lia|].
    exists s. split; [done|]. split; [done|]. unfold len in Hlc. by replace (Z.to_nat n) with (length chunk) by lia.
Qed.

Lemma scatter_ok descs m packet written :
  mem_ok m → Forall in_u8 packet → 0 ≤ written < len packet →
  Forall (λ r, in_range m r.1 r.2) (ranges_of descs) → ForallOrdPairs apart (ranges_of descs) →
  len packet - written ≤ capacity_of descs →
  ∃ m', scatter m descs packet written = (len packet, m') ∧ changes_only (ranges_of descs) m m' ∧
    take (Z.to_nat (len packet - written)) (gather m' descs) = drop (Z.to_nat written) packet.
Proof.
  revert m written. induction descs as [|d descs IH]; intros m written Hm Hp Hw Hr Hd Hc.
  { unfold capacity_of in Hc. simpl in Hc. lia. }
  destruct (is_write d) eqn:Hwr.
  2: { cbn [scatter]. unfold ranges_of, capacity_of, gather, writable in *. rewrite filter_cons, decide_False in * by congruence.
       rewrite Hwr, (proj2 (Z.leb_gt (len packet) written)) by lia. by apply IH. }
  unfold ranges_of, capacity_of, gather, writable in *. rewrite filter_cons, decide_True in * by done.
  cbn [fmap list_fmap foldr concat] in *. apply Forall_cons in Hr as [Hin Hr]. inversion Hd as [|? ? Hap Hd' E]; subst.
  cbn [fst snd] in Hin. pose proof Hin as (I1 & I2 & I3). rewrite scatter_write by (done || lia).
  set (n := Z.min (len packet - written) (desc_len d)). assert (0 ≤ n ≤ desc_len d ∧ written + n ≤ len packet) as Hn by lia.
  destruct (chunk_written d m packet written n) as (C1 & s & Hs & Hls & Hts); [done|done|done|lia|lia|lia|].
  set (m1 := write_bytes m (desc_addr d) _) in *. unfold len in *.
  destruct (Z.leb_spec (Z.of_nat (length packet)) (written + n)) as [Hend|Hmore].
  - exists m1. split; [f_equal; lia|]. split; [by eapply changes_mono; [|exact C1]; set_solver|].
    rewrite Hs. change (default [] (Some s)) with s. rewrite take_app_le by lia.
    replace (Z.to_nat (Z.of_nat (length packet) - written)) with (Z.to_nat n) by lia. rewrite Hts.
    apply take_ge. rewrite length_drop. lia.
  - destruct (IH m1 (written + n)) as (m' & Hsc & C2 & Ht); [apply C1|done|lia| |done|lia|].
    { eapply Forall_impl; [exact Hr|]. intros r Hri. by apply (changes_range _ _ _ _ _ C1). }
    exists m'. split; [done|]. split; [by apply (changes_trans [_] _ m m1)|].
    rewrite (changes_slice _ m1 m') by (try apply C1; done). rewrite Hs. change (default [] (Some s)) with s.
    rewrite take_app_ge by lia. rewrite take_ge in Hts by lia.
    replace (Z.to_nat (Z.of_nat (length packet) - written) - length s)%nat
      with (Z.to_nat (Z.of_nat (length packet) - (written + n))) by lia.
    rewrite Ht, Hts. replace (Z.to_nat (written + n)) with (Z.to_nat written + Z.to_nat n)%nat by lia.
    rewrite <- drop_drop. apply take_drop.
Qed.

(** ** The receive ring *)

(** The three rings of the queue. *)
Definition rings_of (q : SplitQueue) : list (Z * Z) :=
  [(desc_gpa q, 16 * size q); (avail_gpa q, 6 + 2 * size q); (used_gpa q, 6 + 8 * size q)].

Definition clear_of (q : SplitQueue) (r : Z * Z) : Prop := Forall (apart r) (rings_of q).

Lemma apart_sub a n b k r : apart r (b, k) → b ≤ a → a + n ≤ b + k → apart (a, n) r.
Proof. unfold apart, disjoint_ranges. simpl. lia. Qed.

Lemma clear_read q rs m m' n a b k :
  mem_ok m → changes_only rs m m' → Forall (clear_of q) rs → (b, k) ∈ rings_of q →
  b ≤ a → a + Z.of_nat n ≤ b + k → read_le m' n a = read_le m n a.
Proof.
  intros Hm Hc Hr Hin H1 H2. apply (changes_read rs); [done|done|]. eapply Forall_impl; [exact Hr|].
  intros r Hcl. unfold clear_of in Hcl. rewrite list.Forall_forall in Hcl. by apply (apart_sub _ _ b k), H2; [apply Hcl|].
Qed.

Lemma holds_changes q m m' ring rs :
  holds q m ring → changes_only rs m m' → Forall (clear_of q) rs → holds q m' ring.
Proof.
  intros [Hro Ha [U1 U2 U3]] Hc Hcl. pose proof (ro_mem _ _ Hro) as Hm. destruct (size_bounds q m Hro) as [Hs _].
  assert (∀ n a, used_gpa q ≤ a → a + Z.of_nat n ≤ used_gpa q + (6 + 8 * size q) → read_le m' n a = read_le m n a) as Hu.
  { intros n a. eapply (clear_read q rs); try done. unfold rings_of. set_solver. }
  assert (∀ n a, avail_gpa q ≤ a → a + Z.of_nat n ≤ avail_gpa q + (6 + 2 * size q) → read_le m' n a = read_le m n a) as Hav.
  { intros n a. eapply (clear_read q rs); try done. unfold rings_of. set_solver. }
  split.
  - destruct Hro as [R1 R2 R3 R4 R5 R6 R7]. split; try done; [apply Hc|..]; by apply (changes_range _ _ _ _ _ Hc).
  - destruct Ha as [A1 A2 A3 A4]. split; [done| |done|].
    + rewrite <- A2. unfold avail_idx. rewrite (in_range_addr m _ _ 2 Hm (ro_avail _ _ Hro)) by lia. apply Hav; lia.
    + intros i head Hi Hp. rewrite <- (A4 i head Hi Hp). pose proof (slot_bounds q m (Z.of_nat i) Hro). apply Hav; lia.
  - split; [done|rewrite <- U2; apply Hu; lia|]. intros i h l Hi Hl. destruct (U3 i h l Hi Hl) as [<- <-].
    pose proof (slot_bounds q m (Z.of_nat i) Hro). split; apply Hu; lia.
Qed.

Lemma read_descriptor_changes q m m' rs i :
  rings_ok q m → changes_only rs m m' → Forall (λ r, apart r (desc_gpa q, 16 * size q)) rs → 0 ≤ i < size q →
  read_descriptor q m' i = read_descriptor q m i.
Proof.
  intros Hro Hc Hr Hi. pose proof (ro_mem _ _ Hro) as Hm. pose proof (ro_desc _ _ Hro) as Hd.
  assert (∀ n off, 0 ≤ off → off + Z.of_nat n ≤ 16 →
    read_le m' n (desc_gpa q + i * 16 + off) = read_le m n (desc_gpa q + i * 16 + off)) as Hrd.
  { intros n off H1 H2. apply (changes_read rs); [done|done|]. eapply Forall_impl; [exact Hr|].
    intros r Har. apply (apart_sub _ _ (desc_gpa q) (16 * size q)); [done|lia|lia]. }
  unfold read_descriptor. rewrite (in_range_addr m _ _ (i * 16) Hm Hd) by lia.
  assert (∀ off, 0 ≤ off ≤ 16 → usize_add (desc_gpa q + i * 16) off = desc_gpa q + i * 16 + off) as Hadd.
  { intros off Ho. destruct Hd as (D1 & D2 & D3), Hm as [_ M1 M2]. apply usize_add_small. lia. }
  rewrite !Hadd by lia. unfold read_u64, read_u32, read_u16. rewrite <- (Z.add_0_r (desc_gpa q + i * 16)) at 1.
  rewrite !Hrd by lia. by rewrite Z.add_0_r.
Qed.

Lemma walk_changes q m m' rs ttl i :
  rings_ok q m → changes_only rs m m' → Forall (λ r, apart r (desc_gpa q, 16 * size q)) rs → 0 ≤ i →
  walk q m' ttl i = walk q m ttl i.
Proof.
  intros Hro Hc Hr. revert i. induction ttl as [|ttl IH]; intros i Hi; [done|]. cbn [walk].
  destruct (Z.leb_spec (size q) i); [done|]. rewrite (read_descriptor_changes q m m' rs i) by (done || lia). f_equal.
  destruct (has_next _); [|done]. apply IH. simpl. apply read_le_range, Hro.
Qed.

(** The chain of a head, as the device walks it. *)
Definition rx_chain (cfg : QueueConfig) (m : GuestMem) (head : Z) : list VirtqDesc :=
  walk (rx_queue_of m cfg) m (Z.to_nat (cfg_size cfg)) head.

(** A receive buffer the guest may post: writable ranges in memory, apart from each
    other and from the rings, that hold more than a header. *)
Record chain_ok (cfg : QueueConfig) (m : GuestMem) (head : Z) : Prop := {
  ck_range : Forall (λ r, in_range m r.1 r.2) (ranges_of (rx_chain cfg m head));
  ck_apart : ForallOrdPairs apart (ranges_of (rx_chain cfg m head));
  ck_clear : Forall (clear_of (rx_queue_of m cfg)) (ranges_of (rx_chain cfg m head));
  ck_room : SIZE < capacity_of (rx_chain cfg m head) < u32_bound
}.

(** The ring of receive buffers: every one taken has been completed. *)
Record rx_ready (cfg : QueueConfig) (m : GuestMem) (ring : Ring) : Prop := {
  rr_holds : holds (rx_queue_of m cfg) m ring;
  rr_taken : taken ring = length (completed ring);
  rr_chains : ∀ i head, (taken ring ≤ i)%nat → posted ring !! i = Some head → chain_ok cfg m head;
  rr_apart : ∀ i j h h', (taken ring ≤ i < j)%nat → posted ring !! i = Some h → posted ring !! j = Some h' →
    Forall (λ r, Forall (apart r) (ranges_of (rx_chain cfg m h))) (ranges_of (rx_chain cfg m h'))
}.

Lemma posted_head cfg m ring i head :
  rx_ready cfg m ring → (taken ring ≤ i)%nat → posted ring !! i = Some head → in_u16 head.
Proof.
  intros [[Hro Ha _] _ _ _] Hi Hp. rewrite <- (ah_ring _ _ _ _ Ha i head Hi Hp). apply read_le_range, Hro.
Qed.

Lemma rx_queue_fields cfg m :
  size (rx_queue_of m cfg) = cfg_size cfg ∧ used_gpa (rx_queue_of m cfg) = cfg_used_addr cfg ∧
  avail_gpa (rx_queue_of m cfg) = cfg_avail_addr cfg ∧ desc_gpa (rx_queue_of m cfg) = cfg_desc_addr cfg.
Proof. done. Qed.

(** The queue is rebuilt from memory for every packet: with the index published, it
    is the queue that published it. *)
Lemma holds_rebuilt cfg m q ring :
  holds q m ring → taken ring = length (completed ring) →
  size q = cfg_size cfg → used_gpa q = cfg_used_addr cfg → avail_gpa q = cfg_avail_addr cfg → desc_gpa q = cfg_desc_addr cfg →
  holds (rx_queue_of m cfg) m ring.
Proof.
  intros [Hro Ha [U1 U2 U3]] Ht Hs Hu Hav Hd. destruct (size_bounds q m Hro) as [Hsz _].
  assert (read_u16 m (usize_add (cfg_used_addr cfg) 2) = used_idx q) as Hidx.
  { rewrite <- Hu, <- U2. by rewrite (in_range_addr m _ _ 2 (ro_mem _ _ Hro) (ro_used _ _ Hro)) by lia. }
  destruct q as [qi sz dg ag ug la ui ev]. simpl in *. subst sz dg ag ug.
  split.
  - by destruct Hro.
  - destruct Ha as [A1 A2 A3 A4]. split; try done. simpl. rewrite Hidx, U1. by rewrite Ht.
  - split; simpl; [by rewrite Hidx|by rewrite Hidx, <- U2|done].
Qed.

Lemma push_used_ok q m ring head n :
  holds q m ring → in_u16 head → in_u32 n →
  ∃ b q' m', push_used q m head n = Some (b, q', m') ∧ holds q' m' (ring_complete ring [(head, n)]) ∧
    changes_only [(used_gpa q, 6 + 8 * size q)] m m' ∧ q' = q <| used_idx := used_idx q' |>.
Proof.
  intros Hh Hhd Hn. pose proof (ro_mem _ _ (h_rings _ _ _ Hh)) as Hm.
  destruct (push_used_batch_refines q m ring [(head, n)] Hh) as (b & q' & m' & Hp & Hh' & Hw).
  { by apply Forall_singleton. }
  rewrite push_used_batch_one in Hp. exists b, q', m'. split; [done|]. split; [done|]. split; [by apply within_changes|].
  unfold push_used in Hp. destruct (write_used_entry q m head n); [|done]. cbn in Hp. by injection Hp as _ <- _.
Qed.

Lemma rx_write cfg m ring head packet :
  rx_ready cfg m ring → posted ring !! taken ring = Some head → Forall in_u8 packet →
  0 < len packet ≤ capacity_of (rx_chain cfg m head) →
  ∃ m', write_to_rx_descriptor m cfg packet = Some (Some (len packet), m') ∧
    changes_only (ranges_of (rx_chain cfg m head) ++ [(cfg_used_addr cfg, 6 + 8 * cfg_size cfg)]) m m' ∧
    holds (rx_queue_of m' cfg) m' (MkRing (posted ring) (S (taken ring)) (completed ring ++ [(head, len packet)])) ∧
    take (length packet) (gather m' (rx_chain cfg m head)) = packet.
Proof.
  intros Hrr Hp Hb Hl. pose proof (posted_head _ _ _ _ _ Hrr (le_n _) Hp) as Hhd.
  destruct Hrr as [Hh Ht Hch _]. destruct (Hch _ _ (le_n _) Hp) as [K1 K2 K3 K4].
  set (q := rx_queue_of m cfg) in *. pose proof (h_rings _ _ _ Hh) as Hro. destruct (size_bounds q m Hro) as [Hs _].
  assert (in_u32 (len packet)) as Hu32 by (unfold in_u32; lia).
  destruct (pop_avail_refines q m ring Hh) as (out & q1 & Hpop & Hout & Hh1 & Hwalk).
  unfold ring_take in Hout, Hh1. rewrite Hp in Hout, Hh1. cbn [fst snd] in Hout, Hh1.
  destruct out as [chain|]; [|done]. cbn in Hout. injection Hout as Hhead.
  assert (size q1 = size q ∧ used_gpa q1 = used_gpa q ∧ avail_gpa q1 = avail_gpa q ∧ desc_gpa q1 = desc_gpa q) as (Q1 & Q2 & Q3 & Q4).
  { unfold pop_avail, next_avail_head in Hpop. destruct (avail_idx q m =? last_avail_idx q); [by simplify_eq|].
    destruct (avail_ring_entry q m (last_avail_idx q)); cbn in Hpop; by simplify_eq. }
  assert (descriptors chain = rx_chain cfg m head) as Hd by (rewrite (Hwalk _ eq_refl), Hhead; done).
  assert (mem_ok m) as Hm by apply Hro.
  destruct (scatter_ok (rx_chain cfg m head) m packet 0 Hm Hb) as (m1 & Hsc & C1 & Hg); [lia|done|done|lia|].
  rewrite Z.sub_0_r in Hg. unfold len in Hg at 1. rewrite Nat2Z.id, drop_0 in Hg.
  assert (holds q1 m1 (MkRing (posted ring) (S (taken ring)) (completed ring))) as Hh2.
  { eapply holds_changes; [done|exact C1|]. eapply Forall_impl; [exact K3|]. intros r Hr. unfold clear_of, rings_of in *.
    by rewrite Q1, Q2, Q3, Q4. }
  destruct (push_used_ok q1 m1 _ head (len packet) Hh2 Hhd Hu32) as (b & q2 & m2 & Hpu & Hh3 & C2 & Hq2).
  exists m2. rewrite Q1, Q2 in C2. split; [|split; [|split]].
  - unfold write_to_rx_descriptor. fold q. rewrite Hpop, Hd, Hsc, Hhead. unfold wrap32.
    rewrite Z.mod_small by (unfold in_u32 in Hu32; lia). by rewrite Hpu.
  - by eapply changes_trans.
  - apply (holds_rebuilt cfg m2 q2); [done|simpl; rewrite length_app, Ht; simpl; lia|rewrite Hq2; by rewrite <- ?Q1, <- ?Q2, <- ?Q3, <- ?Q4..].
  - rewrite <- Hg at 2. f_equal. apply (gather_changes [(used_gpa q, 6 + 8 * size q)]); [apply C1|done|].
    apply list.Forall_forall. intros r Hr. rewrite list.Forall_forall in K1, K3. destruct (K1 r Hr) as (_ & ? & _). split; [done|].
    specialize (K3 r Hr). unfold clear_of, rings_of in K3. rewrite !Forall_cons in K3. apply Forall_singleton, K3.
Qed.

(** The buffers still outstanding are as they were. *)
Lemma rx_ready_next cfg m m' ring head packet :
  rx_ready cfg m ring → posted ring !! taken ring = Some head →
  changes_only (ranges_of (rx_chain cfg m head) ++ [(cfg_used_addr cfg, 6 + 8 * cfg_size cfg)]) m m' →
  holds (rx_queue_of m' cfg) m' (MkRing (posted ring) (S (taken ring)) (completed ring ++ [(head, len packet)])) →
  rx_ready cfg m' (MkRing (posted ring) (S (taken ring)) (completed ring ++ [(head, len packet)])) ∧
  ∀ i h, (taken ring ≤ i)%nat → posted ring !! i = Some h → rx_chain cfg m' h = rx_chain cfg m h.
Proof.
  intros Hrr Hp Hc Hh'. pose proof (λ i h, posted_head _ _ _ i h Hrr) as Hheads. destruct Hrr as [Hh Ht Hch Hap].
  pose proof (h_rings _ _ _ Hh) as Hro.
  assert (∀ i h, (taken ring ≤ i)%nat → posted ring !! i = Some h → rx_chain cfg m' h = rx_chain cfg m h) as Hsame.
  { intros i h Hi Hph. unfold rx_chain. rewrite (walk_cfg (rx_queue_of m' cfg) (rx_queue_of m cfg)) by done.
    eapply walk_changes; [done|exact Hc| |apply (Hheads i h Hi Hph)].
    apply Forall_app. split.
    - eapply Forall_impl; [apply (ck_clear _ _ _ (Hch _ _ (le_n _) Hp))|]. intros r Hr. unfold clear_of, rings_of in Hr.
      rewrite !Forall_cons in Hr. apply Hr.
    - apply Forall_singleton. destruct (ro_desc_used _ _ Hro); unfold apart, disjoint_ranges; simpl in *; lia. }
  split; [|done]. split; simpl; [done|rewrite length_app, Ht; simpl; lia| |].
  - intros i h Hi Hph. destruct (Hch i h) as [K1 K2 K3 K4]; [lia|done|]. specialize (Hsame i h ltac:(lia) Hph).
    split; rewrite Hsame; try done. eapply Forall_impl; [exact K1|]. intros r Hr. by apply (changes_range _ _ _ _ _ Hc).
  - intros i j h h' Hij Hph Hph'. rewrite (Hsame i h), (Hsame j h') by (done || lia).
    apply (Hap i j); [lia|done|done].
Qed.

Lemma rx_capacity cfg m ring head :
  rx_ready cfg m ring → posted ring !! taken ring = Some head →
  next_rx_capacity m cfg = Some (capacity_of (rx_chain cfg m head)).
Proof.
  intros [[Hro Ha _] _ _ _] Hp. destruct (size_bounds _ m Hro) as [Hs _]. unfold next_rx_capacity.
  destruct (next_head_fifo _ m _ _ Hro Ha) as (q' & Hn & Hc). rewrite Hn, Hp.
  destruct Hc as [[_ Hno]|(-> & _)]; [congruence|]. f_equal. unfold capacity_of, writable. do 2 f_equal.
  rewrite chain_collect by (change (0 ≤ cfg_size cfg); simpl in Hs; lia). f_equal. by apply walk_cfg.
Qed.

(** The indices as the loop reads them from the slice. *)
Lemma slice_u16_read m off : mem_ok m → in_range m (gpa_base m + off) 2 → slice_u16 m off = Some (read_u16 m (gpa_base m + off)).
Proof.
  intros Hm Hr. pose proof Hr as (R1 & _ & R3). unfold slice_u16, read_u16, read_le, byte. change (Z.of_nat 2) with 2.
  rewrite mem_slice_in by done. replace (gpa_base m + off - gpa_base m) with off by lia. unfold mem_len in R3.
  destruct (lookup_lt_is_Some_2 (ram m) (Z.to_nat off)) as [lo Hlo]; [lia|].
  destruct (lookup_lt_is_Some_2 (ram m) (Z.to_nat (off + 1))) as [hi Hhi]; [lia|]. rewrite Hlo, Hhi.
  change (Z.to_nat 2) with 2%nat. rewrite (drop_S _ lo) by done. simpl.
  replace (Z.to_nat (off + 1)) with (S (Z.to_nat off)) in Hhi by lia. rewrite (drop_S _ hi) by done. done.
Qed.

Lemma ring_indices cfg m ring :
  rx_ready cfg m ring →
  slice_u16 m (cfg_avail_addr cfg - gpa_base m + 2) = Some (wrap16 (Z.of_nat (length (posted ring)))) ∧
  slice_u16 m (cfg_used_addr cfg - gpa_base m + 2) = Some (wrap16 (Z.of_nat (taken ring))) ∧
  (taken ring ≤ length (posted ring))%nat ∧ Z.of_nat (length (posted ring)) ≤ Z.of_nat (taken ring) + 32768.
Proof.
  intros [[Hro Ha [U1 U2 U3]] Ht _ _]. destruct (size_bounds _ m Hro) as [Hs _]. simpl in Hs.
  pose proof (ro_mem _ _ Hro) as Hm. pose proof (ro_avail _ _ Hro) as Hav. pose proof (ro_used _ _ Hro) as Hus.
  destruct Ha as [[A1 A1'] A2 A3 A4]. simpl in A1'. split; [|split; [|split; [done|lia]]].
  - rewrite slice_u16_read; [|done|unfold in_range in *; simpl in *; lia]. f_equal. rewrite <- A2. unfold avail_idx. simpl.
    simpl in Hav. rewrite (in_range_addr m _ _ 2 Hm Hav) by lia. f_equal. lia.
  - rewrite slice_u16_read; [|done|unfold in_range in *; simpl in *; lia]. f_equal. rewrite Ht, <- U1, <- U2. f_equal. simpl. lia.
Qed.

(** ** The packets *)

Definition sock_bytes (mgr : VsockConnectionManager) : Prop := map_Forall (λ _ k, Forall in_u8 (unread k)) (socks mgr).

(** What building a packet does besides the connection. *)
Record packet_fits (mgr : VsockConnectionManager) (cap : Z) (res : VsockConnectionManager * option (list Z)) : Prop := {
  pf_rxq : (length (backend_rxq res.1) ≤ length (backend_rxq mgr))%nat;
  pf_socks : sock_bytes res.1;
  pf_packet : ∀ p, res.2 = Some p → Forall in_u8 p ∧ SIZE ≤ len p ≤ cap
}.

Lemma to_bytes_len h : len (to_bytes h) = SIZE.
Proof. unfold len, to_bytes. rewrite !length_app, !le_bytes_length. done. Qed.

Lemma fits_header mgr mgr' cap h :
  sock_bytes mgr → SIZE < cap → backend_rxq mgr' = backend_rxq mgr → socks mgr' = socks mgr →
  packet_fits mgr cap (mgr', Some (to_bytes h)).
Proof.
  intros Hs Hc Hq Hk. split; simpl; [by rewrite Hq|unfold sock_bytes; by rewrite Hk|].
  intros p [= <-]. rewrite to_bytes_len. split; [apply to_bytes_range|lia].
Qed.

Lemma fits_none mgr mgr' cap :
  sock_bytes mgr → backend_rxq mgr' = backend_rxq mgr → socks mgr' = socks mgr → packet_fits mgr cap (mgr', None).
Proof. intros Hs Hq Hk. split; simpl; [by rewrite Hq|unfold sock_bytes; by rewrite Hk|done]. Qed.

Lemma fits_removed mgr cid c cap h :
  sock_bytes mgr → SIZE < cap → packet_fits mgr cap (remove (put_conn mgr cid c) cid, Some (to_bytes h)).
Proof.
  intros Hs Hc. split; cbn [fst snd].
  - unfold remove. simpl. rewrite lookup_insert_eq. destruct (injected_notify c); simpl; apply length_filter.
  - unfold remove, sock_bytes. simpl. rewrite lookup_insert_eq. destruct (injected_notify c); simpl.
    all: by apply map_Forall_delete || done.
  - intros p [= <-]. rewrite to_bytes_len. split; [apply to_bytes_range|lia].
Qed.

Lemma drop_bytes mgr fd n : sock_bytes mgr → sock_bytes (sock_drop mgr fd n).
Proof.
  intros Hs. unfold sock_drop. destruct (socks mgr !! fd) as [k|] eqn:Hk; [|done]. unfold sock_bytes. simpl.
  apply map_Forall_insert_2; [|done]. simpl. by apply Forall_drop, (Hs fd).
Qed.

Lemma read_bytes mgr fd max short data :
  sock_bytes mgr → 0 ≤ max → sock_read (socks mgr !! fd) max short = ReadData data → Forall in_u8 data ∧ len data ≤ max.
Proof.
  intros Hs Hm. unfold sock_read. destruct (socks mgr !! fd) as [k|] eqn:Hk; [|done].
  destruct (unread k) as [|x l] eqn:Hu; [by destruct (hup k)|]. intros [= <-]. rewrite <- Hu. split.
  - by apply Forall_take, (Hs fd).
  - unfold len. rewrite length_take. unfold read_size. lia.
Qed.

Lemma build_rw_fits mgr cid c cap short :
  sock_bytes mgr → SIZE < cap → packet_fits mgr cap (build_rw mgr cid c cap short).
Proof.
  intros Hs Hc. unfold build_rw.
  destruct (peer_no_recv c); [by apply fits_none|]. destruct (connect c); cbn [negb]; [|by apply fits_removed].
  destruct (peer_avail_credit c =? 0) eqn:Hz.
  { destruct (credit_request_pending c); [by apply fits_none|by apply fits_header]. }
  destruct (Z.min _ _ =? 0); [by apply fits_none|].
  destruct (sock_read _ _ _) as [data| |] eqn:Hr; [|by apply fits_header|by apply fits_none].
  apply read_bytes in Hr as [Hd Hl]; [|done|unfold peer_avail_credit, saturating_sub; pose proof (Z.mod_pos_bound (peer_buf_alloc c - wrap32 (rx_cnt c - peer_fwd_cnt c)) u32_bound ltac:(done)); unfold wrap32 in *; lia].
  assert (backend_rxq (sock_drop mgr (internal_fd c) (len data)) = backend_rxq mgr) as Hq by (unfold sock_drop; by destruct (_ !! _)).
  split; cbn [fst snd].
  - simpl. by rewrite Hq.
  - by apply (drop_bytes mgr (internal_fd c) (len data)) in Hs.
  - intros p <-%(inj Some). rewrite len_app, to_bytes_len. split; [by apply Forall_app; split; [apply to_bytes_range|]|].
    unfold saturating_sub, len in *. lia.
Qed.

Lemma build_packet_fits mgr cid cap short :
  sock_bytes mgr → SIZE < cap → packet_fits mgr cap (build_packet mgr cid cap short).
Proof.
  intros Hs Hc. unfold build_packet. destruct (connections mgr !! cid) as [c|]; [|by apply fits_none].
  destruct (ops_dequeue (rx_queue c)) as [op ops].
  destruct (_ =? RESET); [by apply fits_removed|]. destruct (_ =? 0); [by apply fits_none|].
  destruct (_ =? REQUEST); [by apply fits_header|]. destruct (_ =? RESPONSE); [by apply fits_header|].
  destruct (_ =? RW); [by apply build_rw_fits|]. destruct (_ =? CREDIT_UPDATE); [by apply fits_header|].
  destruct (_ =? CREDIT_REQUEST); [by apply fits_header|by apply fits_none].
Qed.

(** ** The loop *)

(** The buffers a number of packets take, in the order they were posted, the memory
    they and the used ring make up, and the ring once they are used. *)
Definition taken_heads (ring : Ring) (n : nat) : list Z := take n (drop (taken ring) (posted ring)).
Definition touched (cfg : QueueConfig) (m : GuestMem) (ring : Ring) (n : nat) : list (Z * Z) :=
  ((taken_heads ring n) ≫= (λ h, ranges_of (rx_chain cfg m h))) ++ [(cfg_used_addr cfg, 6 + 8 * cfg_size cfg)].
Definition ring_after (ring : Ring) (sent : list (VsockConnectionId * list Z * option Z)) : Ring :=
  MkRing (posted ring) (taken ring + length sent)
    (completed ring ++ zip (taken_heads ring (length sent)) ((λ s, len s.1.2) <$> sent)).

(** What has been delivered since [m0]: each packet stands whole at the start of the
    buffer it took, and nothing else is written but the used ring. *)
Record delivered (cfg : QueueConfig) (m0 : GuestMem) (ring0 : Ring) (r : Round) : Prop := {
  dl_sent : ∀ i s, r_sent r !! i = Some s → ∃ head,
    posted ring0 !! (taken ring0 + i)%nat = Some head ∧ s.2 = Some (len s.1.2) ∧ SIZE ≤ len s.1.2 ∧
    take (length s.1.2) (gather (r_mem r) (rx_chain cfg m0 head)) = s.1.2;
  dl_same : ∀ i h, (taken ring0 + length (r_sent r) ≤ i)%nat → posted ring0 !! i = Some h →
    rx_chain cfg (r_mem r) h = rx_chain cfg m0 h;
  dl_ring : rx_ready cfg (r_mem r) (ring_after ring0 (r_sent r));
  dl_frame : changes_only (touched cfg m0 ring0 (length (r_sent r))) m0 (r_mem r)
}.

Lemma taken_heads_S ring n head :
  posted ring !! (taken ring + n)%nat = Some head → taken_heads ring (S n) = taken_heads ring n ++ [head].
Proof. intros Hp. unfold taken_heads. by rewrite (take_S_r _ _ head) by (by rewrite lookup_drop). Qed.

Lemma taken_heads_length ring n :
  (taken ring + n ≤ length (posted ring))%nat → length (taken_heads ring n) = n.
Proof. intros Hn. unfold taken_heads. rewrite length_take, length_drop. lia. Qed.

Lemma ring_after_snoc ring sent s head :
  posted ring !! (taken ring + length sent)%nat = Some head →
  ring_after ring (sent ++ [s]) =
    MkRing (posted ring) (S (taken ring + length sent)) (completed (ring_after ring sent) ++ [(head, len s.1.2)]).
Proof.
  intros Hp. unfold ring_after. rewrite length_app. simpl. pose proof (lookup_lt_Some _ _ _ Hp).
  rewrite Nat.add_1_r, (taken_heads_S _ _ head), fmap_app by done.
  rewrite zip_with_app by (rewrite length_fmap; apply taken_heads_length; lia). simpl.
  f_equal; [lia|]. by rewrite app_assoc.
Qed.

Lemma delivered_none cfg m0 ring0 mgr : rx_ready cfg m0 ring0 → delivered cfg m0 ring0 (MkRound mgr m0 []).
Proof.
  intros Hr. split; simpl; [done|done| |].
  - unfold ring_after, taken_heads. simpl. rewrite app_nil_r, Nat.add_0_r. by destruct ring0.
  - apply changes_refl, (ro_mem _ _ (h_rings _ _ _ (rr_holds _ _ _ Hr))).
Qed.

(** A packet written into the next buffer leaves the earlier ones as they are. *)
Lemma earlier_kept cfg m0 ring0 m m' i j h head :
  rx_ready cfg m0 ring0 → mem_ok m →
  changes_only (ranges_of (rx_chain cfg m0 head) ++ [(cfg_used_addr cfg, 6 + 8 * cfg_size cfg)]) m m' →
  (taken ring0 ≤ i < j)%nat → posted ring0 !! i = Some h → posted ring0 !! j = Some head →
  gather m' (rx_chain cfg m0 h) = gather m (rx_chain cfg m0 h).
Proof.
  intros [Hh Ht Hch Hap] Hm Hc Hij Hi Hj. eapply gather_changes; [done|exact Hc|].
  destruct (Hch i h) as [K1 _ K3 _]; [lia|done|]. specialize (Hap i j h head Hij Hi Hj).
  apply list.Forall_forall. intros r Hr. rewrite list.Forall_forall in K1, K3, Hap.
  split; [by destruct (K1 r Hr) as (_ & ? & _)|]. apply Forall_app. split.
  - apply list.Forall_forall. intros r' Hr'. specialize (Hap r' Hr'). rewrite list.Forall_forall in Hap.
    specialize (Hap r Hr). unfold apart, disjoint_ranges in *. lia.
  - specialize (K3 r Hr). unfold clear_of, rings_of in K3. rewrite !Forall_cons in K3. apply Forall_singleton, K3.
Qed.

Lemma delivered_packet cfg m0 ring0 r head cid packet mgr' :
  rx_ready cfg m0 ring0 → delivered cfg m0 ring0 r →
  posted ring0 !! (taken ring0 + length (r_sent r))%nat = Some head →
  Forall in_u8 packet → SIZE ≤ len packet ≤ capacity_of (rx_chain cfg m0 head) →
  ∃ m', write_to_rx_descriptor (r_mem r) cfg packet = Some (Some (len packet), m') ∧
    delivered cfg m0 ring0 (MkRound mgr' m' (r_sent r ++ [(cid, packet, Some (len packet))])).
Proof.
  intros Hr0 [D1 D2 D3 D4] Hp Hb Hl. pose proof (D2 _ _ (le_n _) Hp) as Hsame.
  destruct (rx_write cfg (r_mem r) _ head packet D3 Hp Hb) as (m' & Hw & Hc & Hh & Hg).
  { rewrite Hsame. unfold SIZE in *. lia. }
  destruct (rx_ready_next _ _ _ _ _ packet D3 Hp Hc Hh) as [Hr' Hch]. rewrite Hsame in Hc, Hg.
  exists m'. split; [done|]. split; cbn [r_sent r_mem].
  - intros i s [Hi|[Hi Hs]]%lookup_app_Some.
    + destruct (D1 i s Hi) as (h & E1 & E2 & E3 & E4). exists h. split; [done|]. split; [done|]. split; [done|].
      rewrite <- E4 at 2. f_equal. apply lookup_lt_Some in Hi.
      eapply (earlier_kept _ _ _ _ _ (taken ring0 + i) (taken ring0 + length (r_sent r))); [done|apply D4|exact Hc|lia|done|done].
    + apply list_lookup_singleton_Some in Hs as [Hz <-]. exists head. simpl.
      replace (taken ring0 + i)%nat with (taken ring0 + length (r_sent r))%nat by lia. split; [done|]. split; [done|]. split; [lia|done].
  - rewrite length_app. simpl. intros i h Hi Hh'. rewrite (Hch i h); [apply (D2 i h); [lia|done]|simpl; lia|done].
  - rewrite (ring_after_snoc _ _ _ head) by done. done.
  - rewrite length_app. simpl. rewrite Nat.add_1_r. eapply changes_mono; [|eapply changes_trans; [exact D4|exact Hc]].
    unfold touched. rewrite (taken_heads_S _ _ head), bind_app by done. simpl. rewrite app_nil_r. set_solver.
Qed.

(** One turn with a buffer and a connection. *)
Lemma repush_rxq mgr cid : (length (backend_rxq (repush mgr cid)) ≤ S (length (backend_rxq mgr)))%nat.
Proof. unfold repush. destruct (connections mgr !! cid); [|lia]. destruct (ops_pending _); [|lia]. simpl. rewrite length_app. simpl. lia. Qed.

Lemma repush_socks mgr cid : socks (repush mgr cid) = socks mgr.
Proof. unfold repush. destruct (connections mgr !! cid); [|done]. by destruct (ops_pending _). Qed.

Lemma notify_frame mgr cid :
  backend_rxq (notify_injected mgr cid) = backend_rxq mgr ∧ socks (notify_injected mgr cid) = socks mgr.
Proof. unfold notify_injected. destruct (connections mgr !! cid); [|done]. by destruct (injected_notify _). Qed.

(** The manager after a turn: either the entry was dropped, or a packet was built. *)
Lemma turn_mgr mgr cid rest cap short :
  mgr_ok mgr → sock_bytes mgr → backend_rxq mgr = cid :: rest → SIZE < cap →
  match build_packet (mgr <| backend_rxq := rest |>) cid cap short with
  | (mgr', None) => mgr_ok mgr' ∧ sock_bytes mgr' ∧ (length (backend_rxq mgr') ≤ length rest)%nat
  | (mgr', Some packet) =>
      let mgr' := repush (notify_injected mgr' cid) cid in
      mgr_ok mgr' ∧ sock_bytes mgr' ∧ (length (backend_rxq mgr') ≤ S (length rest))%nat ∧
      Forall in_u8 packet ∧ SIZE ≤ len packet ≤ cap
  end.
Proof.
  intros Hm Hs Hq Hc. pose proof (pop_front_ok _ _ _ Hm Hq) as Hp. set (m1 := mgr <| backend_rxq := rest |>) in *.
  assert (sock_bytes m1) as Hs1 by done. pose proof (build_packet_fits m1 cid cap short Hs1 Hc) as [F1 F2 F3].
  destruct (build_packet m1 cid cap short) as [m2 out] eqn:Hb. pose proof (build_packet_ok _ _ _ _ _ _ Hp Hc Hb) as Hok.
  change (backend_rxq m1) with rest in F1. cbn [fst snd] in *. destruct out as [packet|]; [|done].
  destruct (notify_frame m2 cid) as [N1 N2]. split; [|split; [|split]].
  - by eapply built_repush, built_notify.
  - unfold sock_bytes. by rewrite repush_socks, N2.
  - etrans; [apply repush_rxq|]. rewrite N1. lia.
  - by apply F3.
Qed.

(** The buffers left when [n] packets have been delivered. *)
Definition outstanding (ring : Ring) (n : nat) : nat := length (posted ring) - (taken ring + n).

(** What a turn of the loop does. *)
Inductive turn (cfg : QueueConfig) (m0 : GuestMem) (ring0 : Ring) (r : Round) : Round + bool → Prop :=
| TurnOut : outstanding ring0 (length (r_sent r)) = 0%nat →
    turn cfg m0 ring0 r (inr (negb (bool_decide (backend_rxq (r_mgr r) = []))))
| TurnIdle : backend_rxq (r_mgr r) = [] → turn cfg m0 ring0 r (inr false)
| TurnOn r' :
    delivered cfg m0 ring0 r' → mgr_ok (r_mgr r') → sock_bytes (r_mgr r') →
    (outstanding ring0 (length (r_sent r')) + length (backend_rxq (r_mgr r')) <
      outstanding ring0 (length (r_sent r)) + length (backend_rxq (r_mgr r)))%nat →
    turn cfg m0 ring0 r (inl r').

Lemma wrap16_gap a b : Z.of_nat a ≤ Z.of_nat b ≤ Z.of_nat a + 32768 → wrap16 (Z.of_nat b) = wrap16 (Z.of_nat a) → a = b.
Proof.
  unfold wrap16. change u16_bound with 65536. intros Hab He. pose proof (Z.div_mod (Z.of_nat a) 65536 ltac:(lia)). pose proof (Z.div_mod (Z.of_nat b) 65536 ltac:(lia)).
  pose proof (Z.mod_pos_bound (Z.of_nat a) 65536 ltac:(lia)). lia.
Qed.

Lemma inject_one_turn cfg m0 ring0 short r :
  rx_ready cfg m0 ring0 → delivered cfg m0 ring0 r → mgr_ok (r_mgr r) → sock_bytes (r_mgr r) →
  ∃ res, inject_one cfg (cfg_avail_addr cfg - gpa_base m0) (cfg_used_addr cfg - gpa_base m0) short r = Some res ∧
    turn cfg m0 ring0 r res.
Proof.
  intros Hr0 Hd Hm Hs. pose proof (dl_ring _ _ _ _ Hd) as Hrr. pose proof (co_base _ _ _ (dl_frame _ _ _ _ Hd)) as Hbase.
  destruct (ring_indices _ _ _ Hrr) as (Ha & Hu & Hle & Hgap). rewrite Hbase in Ha, Hu.
  unfold inject_one. rewrite Ha, Hu. simpl in Hle, Hgap |- *.
  destruct (Z.eqb_spec (wrap16 (Z.of_nat (length (posted ring0)))) (wrap16 (Z.of_nat (taken ring0 + length (r_sent r))))) as [He|He].
  { eexists. split; [done|]. apply TurnOut. apply wrap16_gap in He; [|lia]. unfold outstanding. lia. }
  destruct (backend_rxq (r_mgr r)) as [|cid rest] eqn:Hq; [eexists; split; [done|by apply TurnIdle]|].
  destruct (lookup_lt_is_Some_2 (posted ring0) (taken ring0 + length (r_sent r))) as [head Hp].
  { destruct (decide (length (posted ring0) = taken ring0 + length (r_sent r))%nat) as [E|]; [by rewrite E in He|lia]. }
  rewrite (rx_capacity _ _ _ head Hrr Hp), (dl_same _ _ _ _ Hd _ _ (le_n _) Hp).
  destruct (rr_chains _ _ _ Hr0 (taken ring0 + length (r_sent r)) head) as [_ _ _ Hroom]; [lia|done|].
  pose proof (turn_mgr (r_mgr r) cid rest _ short Hm Hs Hq (proj1 Hroom)) as Ht.
  apply lookup_lt_Some in Hp as Hlt. simpl.
  destruct (build_packet _ _ _ _) as [mgr' [packet|]].
  - destruct Ht as (T1 & T2 & T3 & T4 & T5).
    destruct (delivered_packet _ _ _ _ _ cid packet (repush (notify_injected mgr' cid) cid) Hr0 Hd Hp T4 T5) as (m' & Hw & Hd').
    rewrite Hw. simpl. rewrite (proj2 (Z.ltb_lt 0 (len packet))) by (unfold SIZE in *; lia).
    eexists. split; [done|]. apply TurnOn; [done..|]. simpl. rewrite length_app, Hq. simpl. unfold outstanding. lia.
  - destruct Ht as (T1 & T2 & T3). eexists. split; [done|]. apply TurnOn; [by destruct Hd|done..|]. simpl. rewrite Hq. simpl. lia.
Qed.

(** With a turn for each buffer and each queued connection, the loop ends by itself,
    the buffers all used or the queue empty. *)
Lemma inject_loop_ends cfg m0 ring0 fuel shorts r :
  rx_ready cfg m0 ring0 → delivered cfg m0 ring0 r → mgr_ok (r_mgr r) → sock_bytes (r_mgr r) →
  (outstanding ring0 (length (r_sent r)) + length (backend_rxq (r_mgr r)) < fuel)%nat →
  ∃ r', inject_loop fuel cfg (cfg_avail_addr cfg - gpa_base m0) (cfg_used_addr cfg - gpa_base m0) shorts r =
      Some (r', negb (bool_decide (backend_rxq (r_mgr r') = []))) ∧
    delivered cfg m0 ring0 r' ∧ mgr_ok (r_mgr r') ∧ sock_bytes (r_mgr r') ∧
    (outstanding ring0 (length (r_sent r')) = 0%nat ∨ backend_rxq (r_mgr r') = []).
Proof.
  intros Hr0. revert shorts r. induction fuel as [|fuel IH]; intros shorts r Hd Hm Hs Hf; [lia|]. cbn [inject_loop].
  destruct (inject_one_turn cfg m0 ring0 (default 0%nat (head shorts)) r Hr0 Hd Hm Hs) as (res & -> & Ht). simpl.
  destruct Ht as [Ho|Hq|r' Hd' Hm' Hs' Hlt].
  - exists r. eauto 8.
  - exists r. rewrite Hq. simpl. eauto 8.
  - apply IH; [done..|lia].
Qed.

Lemma fuel_enough cfg m ring mgr :
  rx_ready cfg m ring → (outstanding ring 0 + length (backend_rxq mgr) < inject_fuel cfg m mgr)%nat.
Proof.
  intros Hr. destruct (ring_indices _ _ _ Hr) as (_ & _ & Hle & Hgap). destruct Hr as [[_ [_ A2 A3 _] _] _ _ _].
  unfold inject_fuel. rewrite A2, A3. unfold outstanding, wrapping_sub16, wrap16. change u16_bound with 65536.
  rewrite <- Zminus_mod. rewrite Z.mod_small by lia. lia.
Qed.

Lemma wrote_sent cfg m0 ring0 r : delivered cfg m0 ring0 r → existsb landed (r_sent r) = bool_decide (r_sent r ≠ []).
Proof.
  intros Hd. destruct (r_sent r) as [|s l] eqn:Hs; [done|]. simpl.
  destruct (dl_sent _ _ _ _ Hd 0%nat s) as (_ & _ & Hw & _); [by rewrite Hs|]. unfold landed. by rewrite Hw.
Qed.

(** A round delivers. With a well-formed receive ring, whose outstanding buffers
    hold more than a header and lie apart from each other and from the rings, the
    loop ends and nothing panics. Each packet it built stands whole in the buffer it
    took, in the order they were posted, with its length in the used ring, and no
    other byte of memory has changed. It stops when the buffers are all used, or when
    no connection has an operation left; without event suppression it interrupts the
    guest if it wrote a packet or has connections waiting for a buffer. *)
Lemma round_delivers cfg event_idx shorts mgr m ring :
  cfg_ready cfg = true → rx_ready cfg m ring → mgr_ok mgr → sock_bytes mgr →
  ∃ round r, inject_rx cfg event_idx shorts mgr m = Some (Some (round, r)) ∧
    delivered cfg m ring r ∧ mgr_ok (r_mgr r) ∧
    wrote round = bool_decide (r_sent r ≠ []) ∧
    (event_idx = false → raise round = wrote round || bool_decide (backend_rxq (r_mgr r) ≠ [])) ∧
    (outstanding ring (length (r_sent r)) = 0%nat ∨
      ∀ cid c, connections (r_mgr r) !! cid = Some c → rx_queue c = 0).
Proof.
  intros Hready Hr Hm Hs. pose proof Hr as [[Hro _ _] _ _ _]. destruct (size_bounds _ m Hro) as [Hsz _].
  pose proof (ro_desc _ _ Hro) as Rd. pose proof (ro_avail _ _ Hro) as Ra. pose proof (ro_used _ _ Hro) as Ru.
  unfold in_range in Rd, Ra, Ru. simpl in Hsz, Rd, Ra, Ru.
  unfold inject_rx. rewrite Hready, (proj2 (Z.eqb_neq _ _)) by lia. cbn [negb orb].
  rewrite !(proj2 (Z.ltb_ge _ _)) by lia. cbn [orb].
  destruct (ring_indices _ _ _ Hr) as (_ & Hu & _). rewrite Hu.
  destruct (inject_loop_ends cfg m ring (inject_fuel cfg m mgr) shorts (MkRound mgr m [])) as (r & Hl & Hd & Hm' & Hs' & Hend);
    [done|by apply delivered_none|done|done|by apply fuel_enough|].
  rewrite Hl. cbv beta iota zeta. destruct (ring_indices _ _ _ (dl_ring _ _ _ _ Hd)) as (_ & Hu' & _).
  rewrite (co_base _ _ _ (dl_frame _ _ _ _ Hd)) in Hu'. rewrite Hu'. rewrite (wrote_sent _ _ _ _ Hd).
  eexists _, r. split; [done|]. split; [done|]. split; [done|]. split; [done|]. split.
  { intros ->. cbn. f_equal. apply eq_true_iff_eq. rewrite negb_true_iff, bool_decide_eq_false, bool_decide_eq_true. done. }
  destruct Hend as [Hend|Hend]; [by left|right]. intros cid c Hc. destruct (mo_queued _ Hm' cid c Hc) as [_ Hn].
  rewrite Hend in Hn. destruct (decide (rx_queue c = 0)) as [|Hne]; [done|]. specialize (Hn Hne). cbn in Hn. lia.
Qed.

End round.

(** ** An example *)

#[local] Existing Instance spec_ring.
Definition spec_bits : VirtioBits := {| VIRTIO_RING_F_EVENT_IDX := 29; VIRTIO_F_VERSION_1 := 32 |}.
#[local] Existing Instance spec_bits.

(** Four entries, the table at 4096, the available ring at 4160 and the used ring at
    4176. Head 0 is a buffer in two pieces, of 20 bytes at 4224 and 60 at 4256, head 2
    one of 64 at 4320; both are posted. *)
Definition ex_desc (i addr len flags next : Z) (m : GuestMem) : GuestMem :=
  let a := 4096 + 16 * i in
  write_u16 (write_u16 (write_u32 (write_u32 m a addr) (a + 8) len) (a + 12) flags) (a + 14) next.
Definition ex_ram : GuestMem :=
  let m := ex_desc 2 4320 64 2 0 (ex_desc 1 4256 60 2 0 (ex_desc 0 4224 20 3 1 (MkGuestMem (replicate 320 0) 4096))) in
  write_u16 (write_u16 m (4160 + 6) 2) (4160 + 2) 2.
Definition ex_cfg : QueueConfig := MkQueueConfig 4096 4160 4176 4 true 4096.
Definition ex_ring : Ring := MkRing [0; 2] 0 [].

Lemma ex_ranges :
  ranges_of (rx_chain ex_cfg ex_ram 0) = [(4224, 20); (4256, 60)] ∧ ranges_of (rx_chain ex_cfg ex_ram 2) = [(4320, 64)] ∧
  rings_of (rx_queue_of ex_ram ex_cfg) = [(4096, 64); (4160, 14); (4176, 38)].
Proof. by vm_compute. Qed.

Ltac ranges := repeat constructor; unfold apart, disjoint_ranges; simpl; lia.

Lemma ex_chain_ok i head : posted ex_ring !! i = Some head → chain_ok ex_cfg ex_ram head.
Proof.
  intros Hp. assert (head = 0 ∨ head = 2) as [-> | ->] by (destruct i as [|[|]]; simplify_eq/=; auto).
  all: destruct ex_ranges as (E0 & E2 & Er).
  all: split; unfold clear_of.
  - rewrite E0. repeat apply Forall_cons_2; try apply Forall_nil_2; apply in_rangeb_spec; clear; by vm_compute.
  - rewrite E0. ranges.
  - rewrite E0, Er. ranges.
  - clear. by vm_compute.
  - rewrite E2. repeat apply Forall_cons_2; try apply Forall_nil_2; apply in_rangeb_spec; clear; by vm_compute.
  - rewrite E2. ranges.
  - rewrite E2, Er. ranges.
  - clear. by vm_compute.
Qed.

Lemma ex_ready : rx_ready ex_cfg ex_ram ex_ring.
Proof.
  split; [split| | |].
  - split; [by apply mem_ok_dec|by exists 2|..|left; vm_compute; discriminate|left; vm_compute; discriminate].
    all: apply in_rangeb_spec; clear; by vm_compute.
  - split; [vm_compute; split; [lia|discriminate]|by vm_compute..|].
    intros [|[|i]] h _ Hp; simplify_eq/=; by vm_compute.
  - split; [by vm_compute..|done].
  - done.
  - intros i head _. apply ex_chain_ok.
  - intros [|[|i]] [|[|j]] h h' Hij Hi Hj; try lia; simplify_eq/=.
    destruct ex_ranges as (-> & -> & _). ranges.
Qed.

Lemma new_manager_ok : mgr_ok new_manager.
Proof. by split. Qed.

End VsockRound.
