(* ===== verification/VsockStream.v ===== *)
(** * Vsock streams from end to end

    The connection manager under everything that happens to it: connections the host
    opens, bytes the daemon writes, packets of the guest, rounds of packets to the
    guest. Each stream keeps its bytes in order and complete, and neither side sends
    more than the other has room for. *)

From Stdlib Require Import ZArith Lia.
From stdpp Require Import base numbers list gmap.
From S2P Require Import Prelude Bits Checksum Bytes RingSpec GuestMem SplitQueue VsockConn VsockMgr VsockTx VsockRx VsockRound.

Open Scope Z_scope.

Module VsockStream.
Import VsockConn VsockMgr VsockTx VsockRx VsockRound.

(** ** What the two ends have seen *)

(** The bytes the daemon has written to a connection, those the guest has received,
    and how many of them it has reported as consumed. *)
Record Stream := MkStream { written : list Z; received : list Z; consumed : Z }.
#[export] Instance eta_Stream : Eta Stream := {|
  eta s := MkStream (written s) (received s) (consumed s); eta_ok := ltac:(by intros [])
|}.

(** The guest reads a packet: it parses the header and appends the payload of an
    [RW] to the stream its ports name. *)
Definition receive (st : gmap VsockConnectionId Stream) (packet : list Z) : gmap VsockConnectionId Stream :=
  match from_bytes packet with
  | Some h =>
      match operation h with
      | Some Rw =>
          alter (λ s, s <| received := received s ++ take (Z.to_nat (h_len h)) (drop 44 packet) |>) (src_port h, dst_port h) st
      | _ => st
      end
  | None => st
  end.

(** The packets that report the sender's buffer. *)
Definition reports_credit (h : VsockHeader) : bool :=
  match operation h with Some Response | Some Rw | Some CreditUpdate | Some CreditRequest => true | _ => false end.

Record World := MkWorld { mgr : VsockConnectionManager; streams : gmap VsockConnectionId Stream }.

(** A guest that keeps count: the bytes it reports as consumed are among those it has
    received and do not decrease, and its buffer does not shrink. *)
Definition keeps_count (w : World) (h : VsockHeader) (count : Z) : Prop :=
  h_fwd_cnt h = wrap32 count ∧ in_u32 (buf_alloc h) ∧
  ∀ s c, streams w !! (dst_port h, src_port h) = Some s → connections (mgr w) !! (dst_port h, src_port h) = Some c →
    consumed s ≤ count ≤ len (received s) ∧ peer_buf_alloc c ≤ buf_alloc h.

(** ** Steps *)

Definition with_sock (m : VsockConnectionManager) (fd : Z) (k : Sock) : VsockConnectionManager :=
  m <| socks := <[fd := k]> (socks m) |>.

Section steps.
Context `{VirtioRing} `{VirtioBits}.

Inductive step (w : World) : World → Prop :=
| SConnect gport gcid fd cid m :
    in_u32 gport → in_u64 gcid → socks (mgr w) !! fd = None →
    allocate (mgr w) gport gcid fd (MkSock [] false [] false) = (cid, m) →
    step w (MkWorld m (<[cid := MkStream [] [] 0]> (streams w)))
| SWrite cid c k bytes :
    connections (mgr w) !! cid = Some c → socks (mgr w) !! internal_fd c = Some k → hup k = false → Forall in_u8 bytes →
    step w (MkWorld (with_sock (mgr w) (internal_fd c) (k <| unread := unread k ++ bytes |>))
      (alter (λ s, s <| written := written s ++ bytes |>) cid (streams w)))
| SHangup cid c k :
    connections (mgr w) !! cid = Some c → socks (mgr w) !! internal_fd c = Some k →
    step w (MkWorld (with_sock (mgr w) (internal_fd c) (k <| hup := true |>)) (streams w))
| SPacket data h count ws ws' m :
    from_bytes (take 44 data) = Some h → (reports_credit h = true → keeps_count w h count) →
    tx_packet data (Some (mgr w)) ws = Some (Some m, ws') →
    step w (MkWorld m (if reports_credit h then alter (λ s, s <| consumed := count |>) (dst_port h, src_port h) (streams w)
                       else streams w))
| SRound visit cfg event_idx shorts mem ring round r :
    rx_ready cfg mem ring →
    inject_rx cfg event_idx shorts (peek_fds (mgr w) visit) mem = Some (Some (round, r)) →
    step w (MkWorld (r_mgr r) (foldl receive (streams w) ((λ s, s.1.2) <$> r_sent r)))
| SRequeue : step w (MkWorld (foldl push_rxq (mgr w) (connections_with_pending_rx (mgr w))) (streams w))
| SRemove cid : step w (MkWorld (remove (mgr w) cid) (streams w))
| SClose : step w (MkWorld (close (mgr w)) (streams w))
| SDoorbell : step w (MkWorld (set_doorbell (mgr w)) (streams w)).

Inductive reachable : World → Prop :=
| RStart port : in_u32 port → reachable (MkWorld (resume_host_ports_at new_manager port) ∅)
| RStep w w' : reachable w → step w w' → reachable w'.

(** ** The invariant *)

(** A connection and the ends of its stream. *)
Record conn_ok (cid : VsockConnectionId) (s : Stream) (k : Sock) (c : VsockConnection) : Prop := {
  co_written : written s = received s ++ unread k;
  co_rx : rx_cnt c = wrap32 (len (received s));
  co_fwd : peer_fwd_cnt c = wrap32 (consumed s);
  co_alloc : in_u32 (peer_buf_alloc c);
  co_window : 0 ≤ consumed s ≤ len (received s) ∧ len (received s) ≤ consumed s + peer_buf_alloc c;
  co_got : fwd_cnt c = wrap32 (len (got k));
  co_update : wrap32 (fwd_cnt c - last_fwd_cnt c) < CREDIT_UPDATE_THRESHOLD ∨ Z.testbit (rx_queue c) 4 = true;
  co_ports : in_u32 (host_port cid) ∧ in_u32 (guest_port cid) ∧ in_u64 (guest_cid c)
}.

Record streams_ok (m : VsockConnectionManager) (st : gmap VsockConnectionId Stream) : Prop := {
  so_conn : ∀ cid c, connections m !! cid = Some c →
    ∃ s k, st !! cid = Some s ∧ socks m !! internal_fd c = Some k ∧ conn_ok cid s k c;
  so_fds : ∀ cid cid' c c', connections m !! cid = Some c → connections m !! cid' = Some c' →
    internal_fd c = internal_fd c' → cid = cid'
}.

(** One connection changes, with its socket and its stream. *)
Lemma streams_update m st m' st' cid c c' s' k' :
  streams_ok m st → connections m !! cid = Some c →
  connections m' = <[cid := c']> (connections m) → socks m' = <[internal_fd c := k']> (socks m) → st' = <[cid := s']> st →
  internal_fd c' = internal_fd c → conn_ok cid s' k' c' → streams_ok m' st'.
Proof.
  intros [S1 S2] Hc Hm Hk -> Hfd Hok. split.
  - intros i d. rewrite Hm. intros [[<- <-]|[Hne Hd]]%lookup_insert_Some.
    + exists s', k'. rewrite Hk, Hfd, !lookup_insert_eq. done.
    + destruct (S1 i d Hd) as (s & k & E1 & E2 & E3). exists s, k. rewrite lookup_insert_ne by done. split; [done|].
      split; [|done]. rewrite Hk, lookup_insert_ne; [done|]. intros E. by apply Hne, (S2 cid i c d).
  - assert (∀ i d, connections m' !! i = Some d → ∃ d0, connections m !! i = Some d0 ∧ internal_fd d0 = internal_fd d) as Hold.
    { intros i d. rewrite Hm. intros [[<- <-]|[Hne Hd]]%lookup_insert_Some; eauto. }
    intros i i' d d' (d0 & E1 & E2)%Hold (d0' & E1' & E2')%Hold E. apply (S2 _ _ _ _ E1 E1'). congruence.
Qed.

Lemma conn_state m st cid c :
  streams_ok m st → connections m !! cid = Some c →
  ∃ s k, st !! cid = Some s ∧ socks m !! internal_fd c = Some k ∧ conn_ok cid s k c.
Proof. intros [S1 _]. apply S1. Qed.

(** Only the connection changes. *)
Lemma streams_conn m st m' cid c c' :
  streams_ok m st → connections m !! cid = Some c →
  connections m' = <[cid := c']> (connections m) → socks m' = socks m → internal_fd c' = internal_fd c →
  (∀ s k, conn_ok cid s k c → conn_ok cid s k c') → streams_ok m' st.
Proof.
  intros Hs Hc Hm Hk Hfd Hok. destruct (conn_state _ _ _ _ Hs Hc) as (s & k & E1 & E2 & E3).
  eapply (streams_update m st m' st cid c c' s k); try done; [by rewrite insert_id|by rewrite insert_id|by apply Hok].
Qed.

Lemma streams_same m m' st : streams_ok m st → connections m' = connections m → socks m' = socks m → streams_ok m' st.
Proof. intros [S1 S2] Hc Hk. split; rewrite Hc; [|done]. by rewrite Hk. Qed.

Lemma streams_ring m st : streams_ok m st → streams_ok (ring_doorbell m) st.
Proof. intros Hs. unfold ring_doorbell. destruct (doorbell m); [|done]. by apply (streams_same m). Qed.

Lemma streams_remove m st cid : streams_ok m st → streams_ok (remove m cid) st.
Proof.
  intros [S1 S2]. unfold remove. destruct (connections m !! cid) as [c|] eqn:Hc; [|done].
  assert (∀ i d, delete cid (connections m) !! i = Some d → connections m !! i = Some d ∧ i ≠ cid) as Hold.
  { intros i d [Hne Hd]%lookup_delete_Some. done. }
  assert (∀ i d, delete cid (connections m) !! i = Some d → internal_fd d ≠ internal_fd c) as Hfd.
  { intros i d [Hd Hne]%Hold E. by apply Hne, (S2 i cid d c). }
  destruct (injected_notify c); (split; simpl; [intros i d Hd|intros i i' d d' [? _]%Hold [? _]%Hold; eauto]).
  all: destruct (S1 i d) as (s & k & E1 & E2 & E3); [by apply Hold|]; exists s, k; split; [done|]; split; [|done].
  all: rewrite lookup_delete_ne; [done|]; intros E; by apply (Hfd i d).
Qed.

(** *** Pending operations *)

(** A connection with the same counts, that has at least the same update pending. *)
Record same_counts (c c' : VsockConnection) : Prop := {
  sc_rx : rx_cnt c' = rx_cnt c;
  sc_fwd : peer_fwd_cnt c' = peer_fwd_cnt c;
  sc_alloc : peer_buf_alloc c' = peer_buf_alloc c;
  sc_got : fwd_cnt c' = fwd_cnt c;
  sc_last : last_fwd_cnt c' = last_fwd_cnt c;
  sc_cid : guest_cid c' = guest_cid c;
  sc_update : Z.testbit (rx_queue c) 4 = true → Z.testbit (rx_queue c') 4 = true
}.

Lemma conn_same cid s k c c' : same_counts c c' → conn_ok cid s k c → conn_ok cid s k c'.
Proof.
  intros [S1 S2 S3 S4 S5 S6 S7] [C1 C2 C3 C4 C5 C6 C7 C8]. split; rewrite ?S1, ?S2, ?S3, ?S4, ?S5, ?S6; try done.
  destruct C7; [by left|right; auto].
Qed.

Lemma enqueue_same c op : same_counts c (enqueue_op c op).
Proof. split; try done. change (rx_queue (enqueue_op c op)) with (Z.lor (rx_queue c) op). rewrite Z.lor_spec. by intros ->. Qed.

Definition update_kept (s : Z) : bool :=
  let '(op, s') := ops_dequeue s in (op =? CREDIT_UPDATE) || negb (Z.testbit s 4) || Z.testbit s' 4.

Lemma dequeue_same c op ops :
  0 ≤ rx_queue c < 64 → ops_dequeue (rx_queue c) = (op, ops) → op ≠ CREDIT_UPDATE → same_counts c (c <| rx_queue := ops |>).
Proof.
  intros Hr Hd Hop. split; try done. change (rx_queue (c <| rx_queue := ops |>)) with ops. intros Hb.
  assert (update_kept (rx_queue c) = true) as Hk by (apply all_ops; [by vm_compute|done]).
  unfold update_kept in Hk. rewrite Hd, Hb, (proj2 (Z.eqb_neq _ _) Hop) in Hk. done.
Qed.

Lemma streams_put m st cid c c' :
  streams_ok m st → connections m !! cid = Some c → internal_fd c' = internal_fd c → same_counts c c' →
  streams_ok (put_conn m cid c') st.
Proof. intros Hs Hc Hfd Hsame. eapply streams_conn; try done. intros s k. by apply conn_same. Qed.

Lemma streams_enqueue m st cid c op :
  streams_ok m st → connections m !! cid = Some c → streams_ok (push_rxq (put_conn m cid (enqueue_op c op)) cid) st.
Proof.
  intros Hs Hc. eapply (streams_same (put_conn m cid (enqueue_op c op))); try done.
  eapply streams_put; try done. apply enqueue_same.
Qed.

Lemma streams_peek m st visit : streams_ok m st → streams_ok (peek_fds m visit) st.
Proof.
  revert m. induction visit as [|[cid fd] visit IH]; intros m Hs; [done|]. simpl. apply IH. unfold peek_one.
  destruct (sock_peek _); [unfold enqueue_rw|unfold enqueue_reset|done].
  all: destruct (connections m !! _) eqn:Hc; [by apply streams_enqueue|done].
Qed.

Lemma streams_push m st l : streams_ok m st → streams_ok (foldl push_rxq m l) st.
Proof. revert m. induction l as [|cid l IH]; intros m Hs; [done|]. simpl. by apply IH, (streams_same m). Qed.

Lemma streams_remove_all m st : streams_ok m st → streams_ok (remove_all m) st.
Proof.
  unfold remove_all. generalize ((map_to_list (connections m)).*1). intros l. revert m.
  induction l as [|cid l IH]; intros m Hs; [done|]. simpl. by apply IH, streams_remove.
Qed.

(** *** A new connection *)

Lemma streams_allocate m st gport gcid fd cid m' :
  streams_ok m st → in_u32 (next_host_port m) → in_u32 gport → in_u64 gcid → socks m !! fd = None →
  allocate m gport gcid fd (MkSock [] false [] false) = (cid, m') →
  streams_ok m' (<[cid := MkStream [] [] 0]> st).
Proof.
  intros [S1 S2] Hn Hg Hgc Hfd. unfold allocate. intros [= <- <-]. apply streams_ring.
  set (cid := (next_host_port m, gport)). set (c := new_local_init cid gcid fd).
  set (m1 := match connections _ !! cid with Some _ => _ | None => _ end).
  assert (connections m1 = connections m) as Hc1 by (unfold m1; by destruct (_ !! cid)).
  assert (∀ i d, i ≠ cid → connections m !! i = Some d → socks m1 !! internal_fd d = socks m !! internal_fd d ∧ internal_fd d ≠ fd) as Hold.
  { intros i d Hne Hd. destruct (S1 i d Hd) as (s & k & _ & E & _). split; [|by intros <-; congruence].
    unfold m1. simpl. destruct (connections m !! cid) as [old|] eqn:Ho; [|done]. simpl.
    rewrite lookup_delete_ne; [done|]. intros E'. by apply Hne, (S2 i cid d old). }
  assert (conn_ok cid (MkStream [] [] 0) (MkSock [] false [] false) c) as Hok.
  { split; try done. by left. }
  split; simpl.
  - intros i d. rewrite Hc1. intros [[<- <-]|[Hne Hd]]%lookup_insert_Some.
    + eexists _, _. rewrite !lookup_insert_eq. done.
    + destruct (S1 i d Hd) as (s & k & E1 & E2 & E3). exists s, k. destruct (Hold i d) as [E4 E5]; [done|done|].
      rewrite lookup_insert_ne by done. rewrite lookup_insert_ne, E4 by done. done.
  - intros i i' d d'. rewrite Hc1. intros [[<- <-]|[Hne Hd]]%lookup_insert_Some [[<- <-]|[Hne' Hd']]%lookup_insert_Some E; simpl in E; try done.
    + by destruct (Hold i' d') as [_ []].
    + by destruct (Hold i d) as [_ []].
    + by apply (S2 i i' d d').
Qed.

(** *** Packets of the guest *)

Lemma streams_dead m st cid f : streams_ok m st → connections m !! cid = None → streams_ok m (alter f cid st).
Proof.
  intros [S1 S2] Hn. split; [|done]. intros i d Hd. destruct (S1 i d Hd) as (s & k & E1 & E2 & E3). exists s, k.
  rewrite lookup_alter_ne by (intros ->; congruence). done.
Qed.

Lemma alter_insert (st : gmap VsockConnectionId Stream) cid s f : st !! cid = Some s → alter f cid st = <[cid := f s]> st.
Proof.
  intros Hs. apply map_eq. intros i. destruct (decide (i = cid)) as [->|Hne].
  - by rewrite lookup_alter_eq, lookup_insert_eq, Hs.
  - by rewrite lookup_alter_ne, lookup_insert_ne.
Qed.

Lemma streams_credit m st gport hport alloc count :
  streams_ok m st → in_u32 alloc →
  (∀ s c, st !! (hport, gport) = Some s → connections m !! (hport, gport) = Some c →
    consumed s ≤ count ≤ len (received s) ∧ peer_buf_alloc c ≤ alloc) →
  streams_ok (peer_credit m gport hport alloc (wrap32 count)) (alter (λ s, s <| consumed := count |>) (hport, gport) st).
Proof.
  intros Hs Ha Hk. set (cid := (hport, gport)) in *. unfold peer_credit. fold cid.
  destruct (connections m !! cid) as [c|] eqn:Hc; [|by apply streams_dead].
  destruct (conn_state _ _ _ _ Hs Hc) as (s & k & E1 & E2 & [C1 C2 C3 C4 C5 C6 C7 C8]). destruct (Hk s c E1 eq_refl) as [K1 K2].
  assert (∀ c', internal_fd c' = internal_fd c → rx_cnt c' = rx_cnt c → fwd_cnt c' = fwd_cnt c → last_fwd_cnt c' = last_fwd_cnt c →
    guest_cid c' = guest_cid c → peer_buf_alloc c' = alloc → peer_fwd_cnt c' = wrap32 count →
    (Z.testbit (rx_queue c) 4 = true → Z.testbit (rx_queue c') 4 = true) →
    streams_ok (put_conn m cid c') (alter (λ s, s <| consumed := count |>) cid st)) as Hput.
  { intros c' P0 P1 P2 P3 P4 P5 P6 P7. eapply (streams_update m st _ _ cid c c' (s <| consumed := count |>) k); try done.
    - simpl. by rewrite insert_id.
    - by apply alter_insert.
    - split; simpl; rewrite ?P1, ?P2, ?P3, ?P4, ?P5, ?P6; try done; [lia|]. destruct C7; [by left|right; auto]. }
  unfold update_peer_credit. destruct (_ && _).
  - apply streams_ring. eapply streams_same; [apply Hput|done|done]; try done.
    intros Hb. by apply (sc_update _ _ (enqueue_same c RW)).
  - by apply Hput.
Qed.

Lemma wrap32_add a b : wrap32 (wrap32 a + wrap32 b) = wrap32 (a + b).
Proof. unfold wrap32. by rewrite <- Zplus_mod. Qed.

(** The bytes of a packet that went to the socket. *)
Lemma advance_ok cid s k c bytes :
  conn_ok cid s k c →
  conn_ok cid s (k <| got := got k ++ bytes |>) (advance_fwd_cnt c (wrap32 (len bytes))) ∧
  internal_fd (advance_fwd_cnt c (wrap32 (len bytes))) = internal_fd c.
Proof.
  intros [C1 C2 C3 C4 C5 C6 C7 C8]. unfold advance_fwd_cnt. set (c1 := c <| fwd_cnt := _ |>).
  assert (fwd_cnt c1 = wrap32 (len (got k ++ bytes))) as Hf.
  { unfold c1. simpl. by rewrite C6, wrap32_add, len_app. }
  destruct (Z.leb_spec CREDIT_UPDATE_THRESHOLD (wrap32 (fwd_cnt c1 - last_fwd_cnt c1))); (split; [split; try done|done]).
  - right. change (Z.testbit (Z.lor (rx_queue c) CREDIT_UPDATE) 4 = true). by rewrite Z.lor_spec, orb_true_r.
  - by left.
Qed.

Lemma streams_forward m st gport hport c bytes :
  streams_ok m st → connections m !! (hport, gport) = Some c →
  streams_ok (sock_got m (internal_fd c) []) st ∧
  streams_ok (forwarded (sock_got m (internal_fd c) bytes) gport hport (wrap32 (len bytes))).2 st.
Proof.
  intros Hs Hc. destruct (conn_state _ _ _ _ Hs Hc) as (s & k & E1 & E2 & E3). unfold sock_got. rewrite E2. split.
  { eapply streams_same; [exact Hs|done|]. simpl. rewrite app_nil_r. rewrite insert_id; [done|]. by destruct k. }
  set (m1 := m <| socks := _ |>). assert (streams_ok (put_conn m1 (hport, gport) (advance_fwd_cnt c (wrap32 (len bytes)))) st) as Hput.
  { destruct (advance_ok _ _ _ _ bytes E3) as [A1 A2].
    eapply (streams_update m st _ st (hport, gport) c _ s (k <| got := got k ++ bytes |>)); try done. by rewrite insert_id. }
  unfold forwarded. change (connections m1) with (connections m). rewrite Hc.
  destruct (ops_pending _); cbn [snd]; [|done]. apply streams_ring. by eapply streams_same.
Qed.

Lemma streams_rw m st h payload ws m' ws' :
  streams_ok (peer_credit m (src_port h) (dst_port h) (buf_alloc h) (h_fwd_cnt h)) st →
  handle_rw h payload m ws = Some (m', ws') → streams_ok m' st.
Proof.
  unfold handle_rw. set (m1 := peer_credit _ _ _ _ _). clearbody m1. intros Hs. unfold fd_for.
  destruct (connections m1 !! _) as [c|] eqn:Hc; [|by intros [= <- <-]]. destruct (connect c); [|by intros [= <- <-]].
  destruct (len payload =? 0); [by intros [= <- <-]|].
  destruct (write_all_with_backoff ws (len payload) 0 0) as [[n ws1]|] eqn:Hw; [|done]. simpl. intros [= <- <-].
  apply write_all_range in Hw; [|unfold len; lia]. set (bytes := take (Z.to_nat n) payload).
  destruct (streams_forward m1 st _ _ c bytes Hs Hc) as [F1 F2]. destruct (Z.ltb_spec 0 n).
  - replace n with (len bytes) by (unfold bytes, len in *; rewrite length_take; lia). done.
  - unfold bytes. replace (Z.to_nat n) with 0%nat by lia. done.
Qed.

Lemma streams_shutdown m st gport hport fl : streams_ok m st → streams_ok (handle_shutdown m gport hport fl) st.
Proof.
  intros Hs. unfold handle_shutdown. destruct (_ || _); [by apply streams_remove|].
  set (m1 := if negb (Z.land fl VSOCK_SHUTDOWN_F_RECEIVE =? 0) then _ else _). assert (streams_ok m1 st) as Hs1.
  { unfold m1. destruct (negb _); [|done]. destruct (_ !! _) eqn:Hc; [|done]. by eapply streams_put. }
  clearbody m1. destruct (negb _); [|done]. destruct (connections m1 !! _) as [c|] eqn:Hc; [|done].
  destruct (conn_state _ _ _ _ Hs1 Hc) as (s & k & E1 & E2 & E3). unfold shutdown_wr. rewrite E2.
  eapply (streams_update m1 st _ st _ c c s (k <| shut_wr := true |>)); try done; [simpl; by rewrite insert_id|by rewrite insert_id|].
  by destruct E3.
Qed.

Lemma streams_packet w data h count ws m ws' :
  streams_ok (mgr w) (streams w) → from_bytes (take 44 data) = Some h →
  (reports_credit h = true → keeps_count w h count) → tx_packet data (Some (mgr w)) ws = Some (Some m, ws') →
  streams_ok m (if reports_credit h then alter (λ s, s <| consumed := count |>) (dst_port h, src_port h) (streams w) else streams w).
Proof.
  intros Hs Hh Hk. unfold tx_packet. rewrite Hh. rewrite (proj2 (Z.leb_le _ _)).
  2: { unfold from_bytes in Hh. destruct (Z.ltb_spec (len (take 44 data)) SIZE) as [|Hl]; [done|].
    unfold len in *. rewrite length_take in Hl. lia. }
  destruct (handle_tx_packet_with_fds _ _ _ _) as [[m1 ws1]|] eqn:Ht; [|done]. intros [= -> ->].
  assert (reports_credit h = true → streams_ok (peer_credit (mgr w) (src_port h) (dst_port h) (buf_alloc h) (h_fwd_cnt h))
    (alter (λ s, s <| consumed := count |>) (dst_port h, src_port h) (streams w))) as Hc.
  { intros Hr. destruct (Hk Hr) as (-> & Ha & Hcount). by apply streams_credit. }
  unfold handle_tx_packet_with_fds in Ht. unfold reports_credit in *.
  destruct (operation h) as [[]|]; try (by injection Ht as <- <-); try specialize (Hc eq_refl).
  - injection Ht as <- <-. unfold mark_connected. destruct (_ !! _) eqn:Hl; [|done]. apply streams_ring. by eapply streams_put.
  - injection Ht as <- <-. by apply streams_remove.
  - injection Ht as <- <-. by apply streams_shutdown.
  - by eapply streams_rw.
  - by injection Ht as <- <-.
  - injection Ht as <- <-. unfold enqueue_credit_update. destruct (_ !! _) eqn:Hl; [|done]. by apply streams_ring, streams_enqueue.
Qed.

(** *** Packets to the guest *)

Lemma header_to_ok cid s k c op : conn_ok cid s k c → header_ok (header_to c cid op).
Proof. intros [_ _ _ _ _ _ _ (? & ? & ?)]. split; try done. by destruct op. Qed.

Lemma credit_header_ok cid s k c op : conn_ok cid s k c → header_ok (credit_header c cid op).
Proof.
  intros Hk. destruct (header_to_ok _ _ _ _ op Hk). split; try done. simpl. rewrite (co_got _ _ _ _ Hk).
  by apply Z.mod_pos_bound.
Qed.

Lemma receive_none st h : header_ok h → h_op h ≠ op_code Rw → receive st (to_bytes h) = st.
Proof.
  intros Hh Hop. unfold receive. rewrite <- (app_nil_r (to_bytes h)), from_to_bytes by done.
  destruct (operation h) as [[]|] eqn:Ho; try done. exfalso. apply Hop. unfold operation, from_u16 in Ho.
  repeat (case_match; [by try (apply Z.eqb_eq)|]). done.
Qed.

Lemma receive_rw st cid h data s :
  header_ok h → h_op h = op_code Rw → h_len h = len data → src_port h = host_port cid → dst_port h = guest_port cid →
  st !! cid = Some s → receive st (to_bytes h ++ data) = <[cid := s <| received := received s ++ data |>]> st.
Proof.
  intros Hh Ho Hl Hsrc Hdst Hs. unfold receive. rewrite from_to_bytes by done. unfold operation. rewrite Ho, Hsrc, Hdst, Hl.
  change (from_u16 (op_code Rw)) with (Some Rw). cbv iota. rewrite drop_app_length' by (by rewrite to_bytes_length). unfold len.
  rewrite Nat2Z.id, take_ge by lia. destruct cid as [hp gp]. unfold host_port, guest_port. simpl fst. simpl snd.
  by rewrite (alter_insert _ _ s).
Qed.

(** The credit the device computes is the room the guest has left. *)
Lemma credit_exact cid s k c :
  conn_ok cid s k c → peer_avail_credit c = consumed s + peer_buf_alloc c - len (received s).
Proof.
  intros [_ C2 C3 C4 C5 _ _ _]. unfold peer_avail_credit. rewrite C2, C3. unfold wrap32, in_u32 in *.
  rewrite <- Zminus_mod, Zminus_mod_idemp_r. rewrite Z.mod_small by lia. lia.
Qed.

Lemma sent_rw_same c data max_read :
  same_counts (record_rx c (wrap32 (len data))) (sent_rw c data max_read) ∧ internal_fd (sent_rw c data max_read) = internal_fd c.
Proof.
  unfold sent_rw. set (c1 := record_rx _ _).
  assert (same_counts c1 (maybe_request_credit c1) ∧ internal_fd (maybe_request_credit c1) = internal_fd c) as [M1 M2].
  { unfold maybe_request_credit. destruct (_ || _); [done|]. destruct (_ <? _); [|done]. split; [|done].
    destruct (enqueue_same c1 CREDIT_REQUEST). by split. }
  destruct (_ =? _); [|done]. split; [|done]. destruct (enqueue_same (maybe_request_credit c1) RW), M1. split; try done. auto.
Qed.

Lemma streams_data m st cid c c' k max_read short data :
  streams_ok m st → connections m !! cid = Some c → socks m !! internal_fd c = Some k →
  internal_fd c' = internal_fd c → same_counts c c' → 0 < max_read ≤ peer_avail_credit c' →
  sock_read (Some k) max_read short = ReadData data →
  streams_ok (put_conn (sock_drop m (internal_fd c') (len data)) cid (sent_rw c' data max_read))
    (receive st (to_bytes ((credit_header c' cid Rw) <| h_len := wrap32 (len data) |>) ++ data)).
Proof.
  intros Hs Hc Hk Hfd Hsame Hmax Hread. destruct (conn_state _ _ _ _ Hs Hc) as (s & k' & E1 & E2 & E3).
  rewrite Hk in E2. injection E2 as <-. apply (conn_same _ _ _ _ c') in E3 as Hc'; [|done].
  pose proof (credit_exact _ _ _ _ Hc') as Hcr. pose proof (credit_header_ok _ _ _ _ Rw Hc') as Hh.
  assert (unread k = data ++ drop (Z.to_nat (len data)) (unread k) ∧ len data ≤ max_read) as [Hu Hl].
  { unfold sock_read in Hread. destruct (unread k) as [|x l] eqn:Hu; [by destruct (hup k)|]. injection Hread as <-. unfold len.
    rewrite Nat2Z.id, length_take. unfold read_size. rewrite Hu. split; [|lia].
    set (n := (_ `min` S short)%nat). rewrite (Nat.min_l n) by lia. by rewrite take_drop. }
  destruct Hc' as [C1 C2 C3 C4 C5 C6 C7 C8]. assert (in_u32 (len data)) as Hld by (unfold in_u32, len in *; lia).
  assert (wrap32 (len data) = len data) as Hw by (by apply Z.mod_small). destruct (sent_rw_same c' data max_read) as [Hsr Hsf].
  eapply (streams_update m st _ _ cid c (sent_rw c' data max_read) (s <| received := received s ++ data |>)
    (k <| unread := drop (Z.to_nat (len data)) (unread k) |>)); try done.
  - unfold sock_drop. rewrite Hfd, Hk. reflexivity.
  - unfold sock_drop. by rewrite Hfd, Hk.
  - rewrite Hw. apply receive_rw; try done. by destruct Hh.
  - by rewrite Hsf.
  - apply (conn_same _ _ _ (record_rx c' (wrap32 (len data)))); [done|]. split; simpl; try done.
    + rewrite C1, <- app_assoc. by rewrite <- Hu.
    + by rewrite C2, wrap32_add, len_app.
    + rewrite len_app. unfold len in *. lia.
Qed.

(** The streams after a packet, if there is one. *)
Definition receive_if (st : gmap VsockConnectionId Stream) (out : option (list Z)) : gmap VsockConnectionId Stream :=
  match out with Some p => receive st p | None => st end.

Lemma streams_build_rw m st cid c c' cap short m' out :
  streams_ok m st → connections m !! cid = Some c → internal_fd c' = internal_fd c → same_counts c c' →
  build_rw m cid c' cap short = (m', out) → streams_ok m' (receive_if st out).
Proof.
  intros Hs Hc Hfd Hsame. destruct (conn_state _ _ _ _ Hs Hc) as (s & k & E1 & E2 & E3).
  apply (conn_same _ _ _ _ c') in E3; [|done]. pose proof (streams_put _ _ _ _ _ Hs Hc Hfd Hsame) as Hput.
  unfold build_rw. destruct (peer_no_recv c'); [by intros [= <- <-]|].
  destruct (connect c'); cbn [negb].
  2: { intros [= <- <-]. simpl. rewrite receive_none; [by apply streams_remove|by eapply header_to_ok|done]. }
  destruct (Z.eqb_spec (peer_avail_credit c') 0).
  { destruct (credit_request_pending c'); intros [= <- <-]; simpl; rewrite ?receive_none; try done.
    - eapply streams_put; try done. by destruct Hsame.
    - eapply streams_put; try done. by destruct Hsame.
    - by eapply credit_header_ok. }
  destruct (Z.eqb_spec (Z.min (peer_avail_credit c') (saturating_sub cap SIZE)) 0).
  { intros [= <- <-]. eapply streams_put; try done. destruct Hsame, (enqueue_same c' RW). split; try congruence. auto. }
  rewrite Hfd, E2. destruct (sock_read _ _ _) as [data| |] eqn:Hr; intros [= <- <-]; cbn [receive_if].
  - rewrite <- Hfd. eapply streams_data; try done. pose proof (credit_exact _ _ _ _ E3). destruct E3 as [_ _ _ ? ? _ _ _].
    unfold saturating_sub in *. lia.
  - rewrite receive_none; [done| |done]. by destruct (credit_header_ok _ _ _ _ Shutdown E3).
  - done.
Qed.

Lemma streams_build m st cid cap short m' out :
  streams_ok m st → (∀ c, connections m !! cid = Some c → 0 ≤ rx_queue c < 64) →
  build_packet m cid cap short = (m', out) → streams_ok m' (receive_if st out).
Proof.
  intros Hs Hr. unfold build_packet. destruct (connections m !! cid) as [c|] eqn:Hc; [|by intros [= <- <-]].
  destruct (ops_dequeue (rx_queue c)) as [op ops] eqn:Hd. specialize (Hr c eq_refl).
  set (c' := c <| rx_queue := ops |>). pose proof (λ Hn, dequeue_same c op ops Hr Hd Hn : same_counts c c') as Hsame.
  pose proof (λ Hn, streams_put m st cid c c' Hs Hc eq_refl (Hsame Hn)) as Hput.
  destruct (conn_state _ _ _ _ Hs Hc) as (s & k & E1 & E2 & E3).
  pose proof (λ o, header_to_ok _ _ _ _ o E3) as Hh. pose proof (λ o, credit_header_ok _ _ _ _ o E3) as Hch.
  assert (op ≠ 0 → ops_peek (rx_queue c) = op) as Hpeek.
  { unfold ops_peek, ops_dequeue in *. by destruct (rx_queue c =? 0); simplify_eq. }
  destruct (Z.eqb_spec (ops_peek (rx_queue c)) RESET) as [Hp|Hp].
  { intros [= <- <-]. simpl. rewrite receive_none; [|by apply Hh|done]. apply streams_remove, Hput. intros ->. by rewrite Hpeek in Hp. }
  destruct (Z.eqb_spec op 0) as [->|Hz]; [by intros [= <- <-]|].
  destruct (Z.eqb_spec op REQUEST) as [->|H4]; [intros [= <- <-]; simpl; rewrite receive_none; [by apply Hput|by apply Hh|done]|].
  destruct (Z.eqb_spec op RESPONSE) as [->|H5].
  { intros [= <- <-]. simpl. rewrite receive_none; [|by apply Hh|done]. eapply streams_put; try done. by destruct Hsame. }
  destruct (Z.eqb_spec op RW) as [->|H1]; [eapply streams_build_rw; try done; by apply Hsame|].
  destruct (Z.eqb_spec op CREDIT_UPDATE) as [->|H6].
  { intros [= <- <-]. simpl. rewrite receive_none; [|by apply Hch|done]. eapply streams_conn; try done.
    intros s' k' []. split; try done. left. simpl. by rewrite Z.sub_diag. }
  destruct (Z.eqb_spec op CREDIT_REQUEST) as [->|H2]; intros [= <- <-]; simpl; rewrite ?receive_none; try by apply Hput.
  - by apply Hch.
  - done.
Qed.

(** *** Ports and bytes *)

(** What does not touch the port counter, nor put anything but bytes in a socket. *)
Record frame (m m' : VsockConnectionManager) : Prop := {
  fr_port : next_host_port m' = next_host_port m;
  fr_bytes : sock_bytes m → sock_bytes m'
}.

#[local] Instance frame_refl : Reflexive frame.
Proof. by split. Qed.
#[local] Instance frame_trans : Transitive frame.
Proof. intros m1 m2 m3 [P1 B1] [P2 B2]. split; [congruence|auto]. Qed.

Lemma frame_same m m' : next_host_port m' = next_host_port m → socks m' = socks m → frame m m'.
Proof. intros Hp Hk. split; [done|]. unfold sock_bytes. by rewrite Hk. Qed.

Lemma frame_sock m fd k k' : socks m !! fd = Some k → unread k' = unread k → frame m (with_sock m fd k').
Proof.
  intros Hk Hu. split; [done|]. intros Hb. apply map_Forall_insert_2; [|done]. rewrite Hu. by apply (Hb fd).
Qed.

Lemma frame_ring m : frame m (ring_doorbell m).
Proof. unfold ring_doorbell. by destruct (doorbell m); [apply frame_same|]. Qed.

Lemma frame_remove m cid : frame m (remove m cid).
Proof.
  unfold remove. destruct (connections m !! cid) as [c|]; [|done].
  destruct (injected_notify c); (split; [done|]; intros Hb; by apply map_Forall_delete).
Qed.

Lemma frame_remove_all m : frame m (remove_all m).
Proof.
  unfold remove_all. generalize ((map_to_list (connections m)).*1). intros l. revert m.
  induction l as [|cid l IH]; intros m; [done|]. simpl. etrans; [apply frame_remove|apply IH].
Qed.

Lemma frame_credit m gport hport alloc fwd : frame m (peer_credit m gport hport alloc fwd).
Proof.
  unfold peer_credit. destruct (_ !! _) as [c|]; [|done]. destruct (update_peer_credit _ _ _) as [retry c'].
  destruct retry; [etrans; [|apply frame_ring]|]; by apply frame_same.
Qed.

Lemma frame_rw h payload m ws m' ws' : handle_rw h payload m ws = Some (m', ws') → frame m m'.
Proof.
  unfold handle_rw. intros Hr. etrans; [apply (frame_credit m (src_port h) (dst_port h) (buf_alloc h) (h_fwd_cnt h))|].
  revert Hr. set (m1 := peer_credit _ _ _ _ _). clearbody m1.
  destruct (fd_for _ _ _) as [fd|]; [|by intros [= <- <-]]. destruct (_ =? 0); [by intros [= <- <-]|].
  destruct (write_all_with_backoff _ _ _ _) as [[n ws1]|]; [|done]. simpl. intros [= <- <-].
  assert (frame m1 (sock_got m1 fd (take (Z.to_nat n) payload))) as Hg.
  { unfold sock_got. destruct (socks m1 !! fd) as [k|] eqn:Hk; [|done]. by eapply frame_sock. }
  destruct (0 <? n); [|done]. etrans; [exact Hg|]. unfold forwarded. destruct (_ !! _) as [c|]; [|done].
  destruct (ops_pending _); cbn [snd]; [etrans; [|apply frame_ring]|]; by apply frame_same.
Qed.

Lemma frame_shutdown m gport hport fl : frame m (handle_shutdown m gport hport fl).
Proof.
  unfold handle_shutdown. destruct (_ || _); [apply frame_remove|].
  set (m1 := if negb (Z.land fl VSOCK_SHUTDOWN_F_RECEIVE =? 0) then _ else _). assert (frame m m1) as Hm1.
  { unfold m1. destruct (negb _); [|done]. destruct (_ !! _); [by apply frame_same|done]. }
  clearbody m1. etrans; [exact Hm1|]. destruct (negb _); [|done]. destruct (connections m1 !! _) as [c|]; [|done].
  unfold shutdown_wr. destruct (socks m1 !! _) eqn:Hk; [|done]. by eapply frame_sock.
Qed.

Lemma frame_packet data m ws m' ws' : tx_packet data (Some m) ws = Some (Some m', ws') → frame m m'.
Proof.
  unfold tx_packet. destruct (from_bytes _) as [h|]; [|by intros [= <- <-]]. destruct (_ <=? _); [|by intros [= <- <-]].
  destruct (handle_tx_packet_with_fds _ _ _ _) as [[m1 ws1]|] eqn:Ht; [|done]. simpl. intros [= -> ->].
  unfold handle_tx_packet_with_fds in Ht. destruct (operation h) as [[]|]; try (by injection Ht as <- <-).
  - injection Ht as <- <-. etrans; [apply frame_credit|]. unfold mark_connected. destruct (_ !! _); [|done].
    etrans; [|apply frame_ring]. by apply frame_same.
  - injection Ht as <- <-. apply frame_remove.
  - injection Ht as <- <-. apply frame_shutdown.
  - by eapply frame_rw.
  - injection Ht as <- <-. apply frame_credit.
  - injection Ht as <- <-. etrans; [apply frame_credit|]. unfold enqueue_credit_update. destruct (connections _ !! _); [|done].
    etrans; [|apply frame_ring]. by apply frame_same.
Qed.

Lemma frame_peek m visit : frame m (peek_fds m visit).
Proof.
  revert m. induction visit as [|[cid fd] visit IH]; intros m; [done|]. simpl. etrans; [|apply IH]. unfold peek_one.
  destruct (sock_peek _); [unfold enqueue_rw|unfold enqueue_reset|done].
  all: destruct (connections m !! _); [by apply frame_same|done].
Qed.

Lemma frame_push m l : frame m (foldl push_rxq m l).
Proof. revert m. induction l as [|cid l IH]; intros m; [done|]. simpl. etrans; [|apply IH]. by apply frame_same. Qed.

Lemma remove_port m cid : next_host_port (remove m cid) = next_host_port m.
Proof. apply frame_remove. Qed.

Lemma build_port m cid cap short : next_host_port (build_packet m cid cap short).1 = next_host_port m.
Proof.
  unfold build_packet. destruct (connections m !! cid) as [c|]; [|done]. destruct (ops_dequeue _) as [op ops].
  unfold build_rw, sock_drop. repeat (case_match; try done); cbn [fst]; by rewrite remove_port.
Qed.

(** *** The queue of connections *)

Lemma packet_mgr_ok data m ws m' ws' : mgr_ok m → tx_packet data (Some m) ws = Some (Some m', ws') → mgr_ok m'.
Proof.
  intros Hm. unfold tx_packet. destruct (from_bytes _) as [h|]; [|by intros [= <- <-]].
  destruct (_ <=? _); [|by intros [= <- <-]].
  destruct (handle_tx_packet_with_fds _ _ _ _) as [[m1 ws1]|] eqn:Ht; [|done]. simpl. intros [= -> ->].
  unfold handle_tx_packet_with_fds in Ht. destruct (operation h) as [[]|]; try (injection Ht as <- <-).
  all: auto using mark_connected_ok, peer_credit_ok, handle_shutdown_ok, enqueue_credit_update_ok.
  { by apply mgr_remove. }
  unfold handle_rw in Ht. revert Ht. set (m1 := peer_credit _ _ _ _ _).
  assert (mgr_ok m1) as Hm1 by (by apply peer_credit_ok). clearbody m1.
  destruct (fd_for _ _ _) as [fd|]; [|by intros [= <- <-]]. destruct (_ =? 0); [by intros [= <- <-]|].
  destruct (write_all_with_backoff _ _ _ _) as [[n ws1]|]; [|done]. simpl. intros [= <- <-].
  assert (mgr_ok (sock_got m1 fd (take (Z.to_nat n) (drop 44 data)))) as Hg.
  { unfold sock_got. destruct (socks m1 !! fd); [|done]. by apply (mgr_same m1). }
  destruct (0 <? n); [|done]. by apply forwarded_ok.
Qed.

Lemma peek_mgr_ok m visit : mgr_ok m → mgr_ok (peek_fds m visit).
Proof.
  revert m. induction visit as [|[cid fd] visit IH]; intros m Hm; [done|]. simpl. apply IH. unfold peek_one.
  destruct (sock_peek _); [by apply enqueue_rw_ok|by apply enqueue_reset_ok|done].
Qed.

(** *** A round *)

(** The streams once the guest has read the packets of a round so far. *)
Definition read_all (st : gmap VsockConnectionId Stream) (r : Round) : gmap VsockConnectionId Stream :=
  foldl receive st ((λ s, s.1.2) <$> r_sent r).

Lemma streams_notify m st cid : streams_ok m st → streams_ok (repush (notify_injected m cid) cid) st.
Proof.
  intros Hs. assert (streams_ok (notify_injected m cid) st) as Hn.
  { unfold notify_injected. destruct (connections m !! cid) as [c|] eqn:Hc; [|done]. destruct (injected_notify c); [|done].
    eapply (streams_same (put_conn m cid (c <| injected_notify := false |>))); try done. by eapply streams_put. }
  revert Hn. generalize (notify_injected m cid). intros m1 Hn. unfold repush. destruct (_ !! _); [|done].
  destruct (ops_pending _); [|done]. by apply (streams_same m1).
Qed.

Lemma notify_port m cid : next_host_port (repush (notify_injected m cid) cid) = next_host_port m.
Proof. unfold repush, notify_injected. repeat (case_match; try done). Qed.

Lemma streams_turn st cfg a u short r r' :
  streams_ok (r_mgr r) (read_all st r) → mgr_ok (r_mgr r) →
  inject_one cfg a u short r = Some (inl r') → (∀ s, s ∈ r_sent r' → s.2 = Some (len s.1.2) ∧ SIZE ≤ len s.1.2) →
  streams_ok (r_mgr r') (read_all st r') ∧ next_host_port (r_mgr r') = next_host_port (r_mgr r).
Proof.
  intros Hs Hm. unfold inject_one. destruct (slice_u16 _ _) as [x|]; [|done]. destruct (slice_u16 _ (u + 2)) as [y|]; [|done].
  destruct (x =? y); [done|]. destruct (backend_rxq (r_mgr r)) as [|cid rest]; [done|].
  set (m := (r_mgr r) <| backend_rxq := rest |>). destruct (next_rx_capacity _ _) as [cap|]; [|done].
  destruct (build_packet m cid cap short) as [m' out] eqn:Hb. pose proof (build_port m cid cap short) as Hport.
  assert (streams_ok m' (receive_if (read_all st r) out)) as Hs'.
  { apply (streams_build m _ cid cap short); [by apply (streams_same (r_mgr r))| |exact Hb]. intros c Hc. apply (mo_id _ Hm cid c Hc). }
  rewrite Hb in Hport. cbn [fst] in Hport. destruct out as [packet|].
  - destruct (write_to_rx_descriptor _ _ _) as [[w mem]|]; [|done]. intros Hr Hall. injection Hr as <-.
    destruct (Hall (cid, packet, w)) as [Hw Hl]; [cbn [r_sent]; set_solver|]. cbn [fst snd] in Hw, Hl. rewrite Hw. cbn [r_mgr].
    rewrite (proj2 (Z.ltb_lt _ _)) by (unfold SIZE in *; lia). split.
    + unfold read_all. cbn [r_sent]. rewrite fmap_app, foldl_app. by apply streams_notify.
    + by rewrite notify_port.
  - intros Hr _. injection Hr as <-. done.
Qed.

Lemma streams_loop st cfg m0 ring0 fuel shorts r r' b :
  rx_ready cfg m0 ring0 → delivered cfg m0 ring0 r → mgr_ok (r_mgr r) → sock_bytes (r_mgr r) →
  streams_ok (r_mgr r) (read_all st r) →
  inject_loop fuel cfg (cfg_avail_addr cfg - gpa_base m0) (cfg_used_addr cfg - gpa_base m0) shorts r = Some (r', b) →
  mgr_ok (r_mgr r') ∧ sock_bytes (r_mgr r') ∧ streams_ok (r_mgr r') (read_all st r') ∧
  next_host_port (r_mgr r') = next_host_port (r_mgr r).
Proof.
  intros Hr0. revert shorts r. induction fuel as [|fuel IH]; intros shorts r Hd Hm Hb Hs; [done|]. cbn [inject_loop].
  destruct (inject_one_turn cfg m0 ring0 (default 0%nat (head shorts)) r Hr0 Hd Hm Hb) as (res & Hone & Ht).
  rewrite Hone. destruct Ht as [Ho|Hq|r1 Hd' Hm' Hs' Hlt]; [by intros [= <- <-]..|]. intros Hl.
  destruct (streams_turn st _ _ _ _ _ _ Hs Hm Hone) as [Hst Hp].
  { intros s [i Hi]%list_elem_of_lookup. by destruct (dl_sent _ _ _ _ Hd' i s Hi) as (_ & _ & ? & ? & _). }
  destruct (IH _ _ Hd' Hm' Hs' Hst Hl) as (? & ? & ? & Hp'). split; [done|]. split; [done|]. split; [done|]. congruence.
Qed.

Lemma inject_rx_loop cfg event_idx shorts m mem round r :
  inject_rx cfg event_idx shorts m mem = Some (Some (round, r)) →
  ∃ b, inject_loop (inject_fuel cfg mem m) cfg (cfg_avail_addr cfg - gpa_base mem) (cfg_used_addr cfg - gpa_base mem) shorts
    (MkRound m mem []) = Some (r, b).
Proof.
  unfold inject_rx. destruct (_ || _); [done|]. destruct (_ || _); [done|]. destruct (_ <? _); [done|].
  destruct (slice_u16 _ _); [|done]. destruct (inject_loop _ _ _ _ _ _) as [[r' b]|]; [|done].
  destruct (slice_u16 _ _); [|done]. intros [= _ <-]. by exists b.
Qed.

Record world_ok (w : World) : Prop := {
  wo_mgr : mgr_ok (mgr w);
  wo_bytes : sock_bytes (mgr w);
  wo_streams : streams_ok (mgr w) (streams w);
  wo_port : in_u32 (next_host_port (mgr w))
}.

Lemma framed_ok w m st : world_ok w → mgr_ok m → frame (mgr w) m → streams_ok m st → world_ok (MkWorld m st).
Proof. intros [W1 W2 W3 W4] Hm [Hp Hb] Hs. split; simpl; [done|auto|done|]. by rewrite Hp. Qed.

Lemma connect_ok w gport gcid fd cid m :
  world_ok w → in_u32 gport → in_u64 gcid → socks (mgr w) !! fd = None →
  allocate (mgr w) gport gcid fd (MkSock [] false [] false) = (cid, m) →
  world_ok (MkWorld m (<[cid := MkStream [] [] 0]> (streams w))).
Proof.
  intros [W1 W2 W3 W4] Hg Hgc Hfd Hal. split; simpl.
  - pose proof (allocate_mgr_ok (mgr w) gport gcid fd (MkSock [] false [] false) W1) as Hm. by rewrite Hal in Hm.
  - unfold allocate in Hal. injection Hal as _ <-. apply (fr_bytes _ _ (frame_ring _)). unfold sock_bytes. simpl.
    apply map_Forall_insert_2; [done|]. simpl. destruct (connections (mgr w) !! _); [by apply map_Forall_delete|done].
  - by apply (streams_allocate (mgr w) (streams w) gport gcid fd).
  - unfold allocate in Hal. injection Hal as _ <-. rewrite (fr_port _ _ (frame_ring _)). simpl.
    destruct (connections (mgr w) !! _); by apply Z.mod_pos_bound.
Qed.

Lemma round_ok w visit cfg event_idx shorts mem ring round r :
  world_ok w → rx_ready cfg mem ring →
  inject_rx cfg event_idx shorts (peek_fds (mgr w) visit) mem = Some (Some (round, r)) →
  world_ok (MkWorld (r_mgr r) (read_all (streams w) r)).
Proof.
  intros [W1 W2 W3 W4] Hr Hin. apply inject_rx_loop in Hin as [b Hl]. destruct (frame_peek (mgr w) visit) as [Hp Hb].
  destruct (streams_loop (streams w) cfg mem ring (inject_fuel cfg mem (peek_fds (mgr w) visit)) shorts (MkRound (peek_fds (mgr w) visit) mem []) r b) as (L1 & L2 & L3 & L4); simpl.
  - done.
  - by apply delivered_none.
  - by apply peek_mgr_ok.
  - by apply Hb.
  - by apply streams_peek.
  - done.
  - split; simpl; [done..|]. rewrite L4. simpl. by rewrite Hp.
Qed.

Lemma step_ok w w' : world_ok w → step w w' → world_ok w'.
Proof.
  intros Hw Hstep. pose proof Hw as [W1 W2 W3 W4]. destruct Hstep as
    [gport gcid fd cid m Hg Hgc Hfd Hal|cid c k bytes Hc Hk Hh Hby|cid c k Hc Hk|data h count ws ws' m Hh Hcount Ht|
     visit cfg event_idx shorts mem ring round r Hr Hin| |cid| |].
  - by apply (connect_ok w gport gcid fd).
  - destruct (conn_state _ _ _ _ W3 Hc) as (s & k' & E1 & E2 & E3). rewrite Hk in E2. injection E2 as <-.
    split; simpl; [by apply (mgr_same (mgr w))| | |done].
    + apply map_Forall_insert_2; [|done]. apply Forall_app. split; [by apply (W2 (internal_fd c))|done].
    + eapply (streams_update (mgr w) (streams w) _ _ cid c c (s <| written := written s ++ bytes |>)
        (k <| unread := unread k ++ bytes |>)); try done; [by rewrite insert_id|by rewrite (alter_insert _ _ s)|].
      destruct E3 as [C1 C2 C3 C4 C5 C6 C7 C8]. split; try done. simpl. by rewrite C1, app_assoc.
  - destruct (conn_state _ _ _ _ W3 Hc) as (s & k' & E1 & E2 & E3). rewrite Hk in E2. injection E2 as <-.
    apply (framed_ok w); [done|by apply (mgr_same (mgr w))|by eapply frame_sock|].
    eapply (streams_update (mgr w) (streams w) _ _ cid c c s (k <| hup := true |>)); try done; [by rewrite insert_id|by rewrite insert_id|by destruct E3].
  - apply (framed_ok w); [done|by eapply packet_mgr_ok|by eapply frame_packet|by eapply streams_packet].
  - by apply (round_ok w visit cfg event_idx shorts mem ring round).
  - apply (framed_ok w); [done|by apply push_all_ok|apply frame_push|by apply streams_push].
  - apply (framed_ok w); [done|by apply mgr_remove|apply frame_remove|by apply streams_remove].
  - unfold close. set (m := (mgr w) <| closed := true |>). apply (framed_ok w); [done|by apply close_ok| |].
    + etrans; [by apply (frame_same _ m)|apply frame_remove_all].
    + by apply streams_remove_all, (streams_same (mgr w)).
  - apply (framed_ok w); [done|by apply (mgr_same (mgr w))|by apply frame_same|by apply (streams_same (mgr w))].
Qed.

Lemma reachable_ok w : reachable w → world_ok w.
Proof.
  induction 1 as [port Hp|w w' _ IH Hs]; [|by eapply step_ok]. 
  split; [by split|done|by split|done].
Qed.

(** C8: whatever the host and the daemons do, and a guest that keeps count and posts
    well-formed receive buffers, and in whatever order, each open connection is in
    order: what the daemon wrote is what the guest has received, byte for byte, followed by what still waits in the socket; the device
    counts the bytes of both directions exactly, modulo 2^32; it never has more bytes
    in flight than the guest has room for; and when it has passed on 4096 bytes since
    the guest last heard of its own room, an update is pending. *)
Theorem streams_intact w :
  reachable w → ∀ cid c, connections (mgr w) !! cid = Some c →
  ∃ s k, streams w !! cid = Some s ∧ socks (mgr w) !! internal_fd c = Some k ∧
    written s = received s ++ unread k ∧
    rx_cnt c = wrap32 (len (received s)) ∧ fwd_cnt c = wrap32 (len (got k)) ∧
    consumed s ≤ len (received s) ≤ consumed s + peer_buf_alloc c ∧
    peer_avail_credit c = consumed s + peer_buf_alloc c - len (received s) ∧
    (wrap32 (fwd_cnt c - last_fwd_cnt c) < CREDIT_UPDATE_THRESHOLD ∨ Z.land (rx_queue c) CREDIT_UPDATE ≠ 0).
Proof.
  intros Hr cid c Hc. destruct (conn_state _ _ _ _ (wo_streams _ (reachable_ok _ Hr)) Hc) as (s & k & E1 & E2 & E3).
  pose proof (credit_exact _ _ _ _ E3) as Hcr. destruct E3 as [C1 C2 C3 C4 C5 C6 C7 C8]. exists s, k.
  repeat (split; [done || lia|]). destruct C7 as [|Hb]; [by left|right]. intros Hz.
  assert (Z.testbit (Z.land (rx_queue c) CREDIT_UPDATE) 4 = true) as Ht by (by rewrite Z.land_spec, Hb). by rewrite Hz in Ht.
Qed.

(** C9: from every reachable state a round succeeds. When the receive ring is
    well formed and its outstanding buffers hold more than a header and lie apart from
    each other and from the rings, the round ends without a panic, each packet it built
    stands whole in the buffer it took, in the order the buffers were posted and with
    its length in the used ring, and no other byte of memory has changed. Either it has
    used every buffer, or no connection has an operation left to send and the guest has
    been told of all but the last 4096 bytes of room. Without event suppression it
    interrupts the guest when it wrote a packet or left connections waiting. *)
Theorem round_settles w visit cfg event_idx shorts mem ring :
  reachable w → cfg_ready cfg = true → rx_ready cfg mem ring →
  ∃ round r, inject_rx cfg event_idx shorts (peek_fds (mgr w) visit) mem = Some (Some (round, r)) ∧
    step w (MkWorld (r_mgr r) (read_all (streams w) r)) ∧ delivered cfg mem ring r ∧
    wrote round = bool_decide (r_sent r ≠ []) ∧
    (event_idx = false → raise round = wrote round || bool_decide (backend_rxq (r_mgr r) ≠ [])) ∧
    (outstanding ring (length (r_sent r)) = 0%nat ∨
      ∀ cid c, connections (r_mgr r) !! cid = Some c →
        rx_queue c = 0 ∧ wrap32 (fwd_cnt c - last_fwd_cnt c) < CREDIT_UPDATE_THRESHOLD).
Proof.
  intros Hw Hc Hr. apply reachable_ok in Hw as Hok. pose proof Hok as [W1 W2 W3 W4].
  destruct (round_delivers cfg event_idx shorts (peek_fds (mgr w) visit) mem ring) as (round & r & Hi & Hd & Hm & Hwr & Hra & Hend);
    [done|done|by apply peek_mgr_ok|by apply frame_peek|].
  exists round, r. split; [done|]. split; [by apply (SRound w visit cfg event_idx shorts mem ring round r)|].
  repeat (split; [done|]). destruct Hend as [|Hnone]; [by left|right]. intros cid c Hcid. split; [by apply (Hnone cid)|].
  pose proof (round_ok _ _ _ _ _ _ _ _ _ Hok Hr Hi) as Hok'.
  destruct (conn_state _ _ _ _ (wo_streams _ Hok') Hcid) as (s & k & _ & _ & [_ _ _ _ _ _ C7 _]).
  rewrite (Hnone cid c Hcid) in C7. by destruct C7.
Qed.

End steps.

(** ** An example *)

#[local] Existing Instance spec_ring.
#[local] Existing Instance spec_bits.

(** A connection to port 1024; a round that asks for it; the guest's answer, with room
    for three bytes; five bytes of the daemon, and a round that sends three of them and
    asks for credit. *)
Definition ex_cid : VsockConnectionId := (50000, 1024).
Definition ex_connect (w : World) : World :=
  let '(cid, m) := allocate (mgr w) 1024 3 7 (MkSock [] false [] false) in
  MkWorld m (<[cid := MkStream [] [] 0]> (streams w)).
Definition ex_round (w : World) : option World :=
  match inject_rx ex_cfg false [9; 9]%nat (peek_fds (mgr w) (connected_fds (mgr w))) ex_ram with
  | Some (Some (_, r)) => Some (MkWorld (r_mgr r) (read_all (streams w) r))
  | _ => None
  end.
Definition ex_response : list Z := to_bytes (MkHeader 3 2 1024 50000 0 1 (op_code Response) 0 3 0).
Definition ex_answer (w : World) : option World :=
  match tx_packet ex_response (Some (mgr w)) [] with
  | Some (Some m, _) => Some (MkWorld m (alter (λ s, s <| consumed := 0 |>) (50000, 1024) (streams w)))
  | _ => None
  end.
Definition ex_write (w : World) : option World :=
  c ← connections (mgr w) !! ex_cid; k ← socks (mgr w) !! internal_fd c;
  Some (MkWorld (with_sock (mgr w) (internal_fd c) (k <| unread := unread k ++ [104; 101; 108; 108; 111] |>))
    (alter (λ s, s <| written := written s ++ [104; 101; 108; 108; 111] |>) ex_cid (streams w))).

Definition ex_start : World := MkWorld (resume_host_ports_at new_manager 50000) ∅.
Definition ex_opened : World := default ex_start (ex_round (ex_connect ex_start)).
Definition ex_answered : World := default ex_start (ex_answer ex_opened).
Definition ex_written : World := default ex_start (ex_write ex_answered).
Definition ex_end : World := default ex_start (ex_round ex_written).

Lemma ex_round_reachable w w' : reachable w → ex_round w = Some w' → reachable w'.
Proof.
  intros Hw. unfold ex_round. destruct (inject_rx _ _ _ _ _) as [[[round r]|]|] eqn:Hi; [|done..]. intros [= <-].
  eapply RStep; [exact Hw|]. by apply (SRound w (connected_fds (mgr w)) ex_cfg false [9; 9]%nat ex_ram ex_ring round r ex_ready).
Qed.

Lemma ex_answered_reachable : reachable ex_answered.
Proof.
  assert (reachable ex_opened) as Hw.
  { apply (ex_round_reachable (ex_connect ex_start)); [|by vm_compute].
    apply (RStep ex_start); [by apply RStart|]. by apply (SConnect ex_start 1024 3 7). }
  apply (RStep _ _ Hw). unfold ex_answered, ex_answer.
  destruct (tx_packet ex_response (Some (mgr ex_opened)) []) as [[[m|] ws]|] eqn:Ht; [|by vm_compute in Ht..].
  apply (SPacket ex_opened ex_response (MkHeader 3 2 1024 50000 0 1 (op_code Response) 0 3 0) 0 [] ws m); [by vm_compute| |done].
  intros _. clear Ht Hw. split; [done|]. split; [done|]. intros s c Hs Hc. vm_compute in Hs, Hc. injection Hs as <-. injection Hc as <-. by vm_compute.
Qed.

Lemma ex_write_reachable w w' :
  reachable w → (∀ k, socks (mgr w) !! 7 = Some k → hup k = false) →
  (∀ c, connections (mgr w) !! ex_cid = Some c → internal_fd c = 7) → ex_write w = Some w' → reachable w'.
Proof.
  intros Hw Hk Hc. unfold ex_write. destruct (connections (mgr w) !! ex_cid) as [c|] eqn:Ec; [|done]. simpl.
  rewrite (Hc c eq_refl). destruct (socks (mgr w) !! 7) as [k|] eqn:Ek; [|done]. simpl. intros [= <-].
  apply (RStep _ _ Hw). rewrite <- (Hc c eq_refl) at 1. apply SWrite; [done|by rewrite Hc|by apply Hk|].
  repeat constructor; by vm_compute.
Qed.

Lemma ex_end_reachable : reachable ex_end.
Proof.
  apply (ex_round_reachable ex_written); [|by vm_compute].
  apply (ex_write_reachable ex_answered); [exact ex_answered_reachable| | |by vm_compute].
  - intros k Hk. vm_compute in Hk. by injection Hk as <-.
  - intros c Hc. vm_compute in Hc. by injection Hc as <-.
Qed.

Lemma streams_intact_witness :
  ∃ c s k, connections (mgr ex_end) !! ex_cid = Some c ∧ streams ex_end !! ex_cid = Some s ∧
    socks (mgr ex_end) !! internal_fd c = Some k ∧ written s = received s ++ unread k ∧
    received s = [104; 101; 108] ∧ unread k = [108; 111] ∧ peer_avail_credit c = 0.
Proof.
  destruct (connections (mgr ex_end) !! ex_cid) as [c|] eqn:Hc; [|by vm_compute in Hc].
  destruct (streams_intact ex_end ex_end_reachable ex_cid c Hc) as (s & k & Hs & Hk & Hw & _). exists c, s, k.
  split; [done|]. split; [exact Hs|]. split; [exact Hk|]. split; [exact Hw|].
  vm_compute in Hc. injection Hc as <-. vm_compute in Hs. injection Hs as <-. vm_compute in Hk. by injection Hk as <-.
Defined.

Lemma round_settles_witness :
  ∃ round r, inject_rx ex_cfg false [] (peek_fds (mgr ex_written) []) ex_ram = Some (Some (round, r)) ∧
    delivered ex_cfg ex_ram ex_ring r.
Proof.
  destruct (round_settles ex_written [] ex_cfg false [] ex_ram ex_ring) as (round & r & Hi & _ & Hd & _).
  - apply (ex_write_reachable ex_answered); [exact ex_answered_reachable| | |by vm_compute].
    + intros k Hk. vm_compute in Hk. by injection Hk as <-.
    + intros c Hc. vm_compute in Hc. by injection Hc as <-.
  - done.
  - exact ex_ready.
  - exists round, r. exact (conj Hi Hd).
Defined.

End VsockStream.
