(* ===== verification/EthFrame.v ===== *)
(** * Ethernet frames

    [src/common/arcbox-packet/src/ethernet/]: the Ethernet header, the ARP
    responder of the gateway, the IPv4 and UDP checksums of this path, and the
    builder that splits a UDP datagram into IPv4 fragments that fit the MTU.
    Addresses of the link layer are lists of six bytes. The identification
    counter the builder shares between calls is an argument and a result. *)

From Stdlib Require Import ZArith Lia.
From stdpp Require Import base numbers list.
From S2P Require Import Prelude Bits Checksum Bytes.

Open Scope Z_scope.

Module Eth.

Definition ETH_HEADER_LEN : Z := 14.
Definition ARP_FRAME_MIN_LEN : Z := ETH_HEADER_LEN + 28.

(** ** The header *)

Inductive EtherType := EtIpv4 | EtArp | EtIpv6 | EtUnknown (v : Z).

Definition from_raw (raw : Z) : EtherType :=
  if raw =? 0x0800 then EtIpv4 else if raw =? 0x0806 then EtArp
  else if raw =? 0x86DD then EtIpv6 else EtUnknown raw.

Definition to_raw (t : EtherType) : Z :=
  match t with EtIpv4 => 0x0800 | EtArp => 0x0806 | EtIpv6 => 0x86DD | EtUnknown v => v end.

Record EthernetHeader := MkEthernet { dst_mac : list Z; src_mac : list Z; ethertype : EtherType }.

(** [EthernetHeader::parse]; a panic is [None], a refusal [Some None]. *)
Definition parse (data : list Z) : option (option EthernetHeader) :=
  if len data <? ETH_HEADER_LEN then Some None
  else
    let! dst := range data 0 6 in
    let! src := range data 6 12 in
    let! raw_type := get_be16 data 12 in
    Some (Some (MkEthernet dst src (from_raw raw_type))).

Definition to_bytes (h : EthernetHeader) : list Z :=
  dst_mac h ++ src_mac h ++ to_be16 (to_raw (ethertype h)).

Definition strip_ethernet_header (frame : list Z) : list Z :=
  if len frame <=? ETH_HEADER_LEN then [] else drop (Z.to_nat ETH_HEADER_LEN) frame.

Definition prepend_ethernet_header (ip_packet dst src : list Z) : list Z :=
  to_bytes (MkEthernet dst src EtIpv4) ++ ip_packet.

(** ** The ARP responder *)

Record ArpResponder := MkArp { gateway_ip : Ipv4; gateway_mac : list Z }.

Definition handle_arp (r : ArpResponder) (frame : list Z) : option (option (list Z)) :=
  if len frame <? ARP_FRAME_MIN_LEN then Some None
  else
    let arp := drop (Z.to_nat ETH_HEADER_LEN) frame in
    let! htype := get_be16 arp 0 in
    let! ptype := get_be16 arp 2 in
    if negb (htype =? 1) || negb (ptype =? 0x0800) then Some None else
    let! hlen := byte arp 4 in
    let! plen := byte arp 5 in
    let! oper := get_be16 arp 6 in
    if negb (hlen =? 6) || negb (plen =? 4) || negb (oper =? 1) then Some None else
    let! target_ip := get_ip arp 24 in
    if negb (bool_decide (target_ip = gateway_ip r)) then Some None else
    let! sender_mac := range arp 8 14 in
    let! sender_ip := get_ip arp 14 in
    Some (Some (sender_mac ++ gateway_mac r ++ to_be16 0x0806 ++
      to_be16 1 ++ to_be16 0x0800 ++ [6] ++ [4] ++ to_be16 2 ++
      gateway_mac r ++ octets (gateway_ip r) ++ sender_mac ++ octets sender_ip)).

(** ** Checksums *)

(** The 16-bit words at even offsets, the one at [skip] left out, added in 32
    bits; [i] is the offset of [l]. What is left at the end is at most a byte. *)
Fixpoint words_loop (skip i sum : Z) (l : list Z) : Z * list Z :=
  match l with
  | a :: b :: l =>
      words_loop skip (i + 2) (if i =? skip then sum else wrapping_add32 sum (be16 a b)) l
  | _ => (sum, l)
  end.

(** [while sum > 0xFFFF]; two iterations fold any 32-bit sum ([fold16_done]). *)
Fixpoint fold16_loop (fuel : nat) (sum : Z) : Z :=
  match fuel with
  | O => sum
  | S fuel =>
      if 0xFFFF <? sum
      then fold16_loop fuel (wrapping_add32 (Z.land sum 0xFFFF) (Z.shiftr sum 16)) else sum
  end.

Definition ipv4_header_checksum (header : list Z) : Z :=
  let '(sum, _) := words_loop 10 0 0 header in wrap16 (not32 (fold16_loop 2 sum)).

Definition udp_checksum (src_ip dst_ip : Ipv4) (udp_segment : list Z) : Z :=
  let sum := wrapping_add32 0 (be16 (ip0 src_ip) (ip1 src_ip)) in
  let sum := wrapping_add32 sum (be16 (ip2 src_ip) (ip3 src_ip)) in
  let sum := wrapping_add32 sum (be16 (ip0 dst_ip) (ip1 dst_ip)) in
  let sum := wrapping_add32 sum (be16 (ip2 dst_ip) (ip3 dst_ip)) in
  let sum := wrapping_add32 sum 17 in
  let sum := wrapping_add32 sum (wrap32 (len udp_segment)) in
  let '(sum, rest) := words_loop 6 0 sum udp_segment in
  let sum := match rest with a :: _ => wrapping_add32 sum (Z.shiftl a 8) | [] => sum end in
  let result := wrap16 (not32 (fold16_loop 2 sum)) in
  if result =? 0 then 0xFFFF else result.

(** ** UDP datagrams in fragments *)

Definition MAX_UDP_PAYLOAD : Z := 65507.

(** [slice::chunks]: pieces of [n] elements, the last one possibly shorter. *)
Fixpoint chunks_fuel (fuel n : nat) (l : list Z) : list (list Z) :=
  match fuel, l with
  | S fuel, _ :: _ => take n l :: chunks_fuel fuel n (drop n l)
  | _, _ => []
  end.
Definition chunks (n : nat) (l : list Z) : list (list Z) := chunks_fuel (length l) n l.

Definition build_frame (src_ip dst_ip : Ipv4) (ip_id frag_offset_bytes : Z) (more_fragments : bool)
    (ip_payload src_mac dst_mac : list Z) : option (list Z) :=
  let ip_total_len := 20 + len ip_payload in
  let frame := replicate (Z.to_nat (ETH_HEADER_LEN + ip_total_len)) 0 in
  let! frame := put frame 0 dst_mac in
  let! frame := put frame 6 src_mac in
  let! frame := put frame 12 (to_be16 0x0800) in
  let! frame := put frame (ETH_HEADER_LEN + 0) [0x45] in
  let! frame := put frame (ETH_HEADER_LEN + 2) (to_be16 (wrap16 ip_total_len)) in
  let! frame := put frame (ETH_HEADER_LEN + 4) (to_be16 ip_id) in
  let flags_frag := Z.lor (Z.shiftl (Z.b2z more_fragments) 13) (wrap16 (frag_offset_bytes / 8)) in
  let! frame := put frame (ETH_HEADER_LEN + 6) (to_be16 flags_frag) in
  let! frame := put frame (ETH_HEADER_LEN + 8) [64] in
  let! frame := put frame (ETH_HEADER_LEN + 9) [17] in
  let! frame := put frame (ETH_HEADER_LEN + 12) (octets src_ip) in
  let! frame := put frame (ETH_HEADER_LEN + 16) (octets dst_ip) in
  let! header := range frame ETH_HEADER_LEN (ETH_HEADER_LEN + 20) in
  let! frame := put frame (ETH_HEADER_LEN + 10) (to_be16 (ipv4_header_checksum header)) in
  put frame (ETH_HEADER_LEN + 20) ip_payload.

(** The IP payload: the UDP header with its checksum, and the payload. *)
Definition udp_datagram (src_ip dst_ip : Ipv4) (src_port dst_port : Z) (payload : list Z)
    : option (list Z) :=
  let udp_len := 8 + len payload in
  let datagram := replicate (Z.to_nat udp_len) 0 in
  let! datagram := put datagram 0 (to_be16 src_port) in
  let! datagram := put datagram 2 (to_be16 dst_port) in
  let! datagram := put datagram 4 (to_be16 (wrap16 udp_len)) in
  let! datagram := put datagram 8 payload in
  put datagram 6 (to_be16 (udp_checksum src_ip dst_ip datagram)).

(** The frames of [build_udp_ip_ethernet] and the counter after the call. The
    inner [None] of the pieces is a panic of [build_frame]. *)
Definition build_udp_ip_ethernet (next_ip_id : Z) (src_ip dst_ip : Ipv4) (src_port dst_port : Z)
    (payload src_mac dst_mac : list Z) (mtu : Z) : option (list (list Z) * Z) :=
  if mtu <? 36 then None
  else if MAX_UDP_PAYLOAD <? len payload then Some ([], next_ip_id)
  else
    let udp_len := 8 + len payload in
    let! datagram := udp_datagram src_ip dst_ip src_port dst_port payload in
    let ip_id := next_ip_id in
    let next_ip_id := wrap16 (next_ip_id + 1) in
    if 20 + udp_len <=? mtu then
      let! frame := build_frame src_ip dst_ip ip_id 0 false datagram src_mac dst_mac in
      Some ([frame], next_ip_id)
    else
      let chunk := Z.land (mtu - 20) (not64 7) in
      let! frames := mapM (λ '(i, part),
        let offset := Z.of_nat i * chunk in
        let more := offset + len part <? udp_len in
        build_frame src_ip dst_ip ip_id offset more part src_mac dst_mac)
        (imap pair (chunks (Z.to_nat chunk) datagram)) in
      Some (frames, next_ip_id).

(** ** Checksums as sums *)

Lemma fold16_fold n s : 0 ≤ s → fold16_loop n s = fold_loop n s.
Proof.
  revert s. induction n as [|n IH]; intros s Hs; [done|]. cbn [fold16_loop fold_loop].
  rewrite Z.shiftr_div_pow2 by lia. destruct (Z.ltb_spec 65535 s); destruct (Z.eqb_spec (s / 2 ^ 16) 0).
  1,4: Z.to_euclidean_division_equations; lia.
  - apply IH. by apply Z.mod_pos_bound.
  - done.
Qed.

Lemma fold16_checksum s : in_u32 s → wrap16 (not32 (fold16_loop 2 s)) = checksum_fold s.
Proof. intros [Hs _]. unfold checksum_fold. by rewrite fold16_fold. Qed.

Lemma words_loop_app skip i sum pre post :
  Nat.Even (length pre) →
  words_loop skip i sum (pre ++ post) = words_loop skip (i + len pre) (words_loop skip i sum pre).1 post.
Proof.
  unfold len. revert i sum. induction pre as [|a|a b pre IH] using pair_ind; intros i sum He.
  - simpl. f_equal. lia.
  - by destruct (not_even_1 He).
  - cbn [app words_loop]. rewrite IH by (by apply even_tail). simpl. f_equal. lia.
Qed.

(** Away from the skipped word the loop is the plain sum. *)
Lemma words_loop_plain skip i sum l :
  skip < i ∨ i + len l ≤ skip →
  let '(s, rest) := words_loop skip i sum l in
  match rest with a :: _ => wrapping_add32 s (Z.shiftl a 8) | [] => s end = scalar_loop sum l.
Proof.
  unfold len. revert i sum. induction l as [|a|a b l IH] using pair_ind; intros i sum Hi; [done|done|].
  cbn [words_loop scalar_loop]. destruct (Z.eqb_spec i skip) as [->|]; [simpl in Hi; lia|]. apply IH. simpl in Hi. lia.
Qed.

Lemma words_loop_even skip i sum l :
  Nat.Even (length l) → skip < i ∨ i + len l ≤ skip → words_loop skip i sum l = (scalar_loop sum l, []).
Proof.
  unfold len. revert i sum. induction l as [|a|a b l IH] using pair_ind; intros i sum He Hi; [done| |].
  - by destruct (not_even_1 He).
  - cbn [words_loop scalar_loop]. destruct (Z.eqb_spec i skip) as [->|]; [simpl in Hi; lia|].
    apply IH; [by apply even_tail|]. simpl in Hi. lia.
Qed.

(** The sum of a buffer with the two bytes at [skip] left out. *)
Lemma words_loop_skip skip sum pre x y post :
  Nat.Even (length pre) → len pre = skip → in_u32 sum →
  let '(s, rest) := words_loop skip 0 sum (pre ++ x :: y :: post) in
  match rest with a :: _ => wrapping_add32 s (Z.shiftl a 8) | [] => s end =
  wrap32 (sum + be_sum pre + be_sum post).
Proof.
  intros He Hl Hs. rewrite words_loop_app by done. rewrite (words_loop_even skip 0 sum pre) by (done || lia).
  cbn [fst words_loop]. rewrite Hl. destruct (Z.eqb_spec (0 + skip) skip); [|lia].
  pose proof (words_loop_plain skip (0 + skip + 2) (scalar_loop sum pre) post ltac:(lia)) as Hp.
  destruct (words_loop skip (0 + skip + 2) (scalar_loop sum pre) post) as [s rest]. rewrite Hp.
  apply same32_eq; [by apply scalar_loop_u32, scalar_loop_u32|apply in_u32_wrap|].
  by rewrite !scalar_loop_sum, same32_wrap.
Qed.

Lemma ipv4_header_checksum_sum pre x y post :
  length pre = 10%nat → Nat.Even (length post) →
  ipv4_header_checksum (pre ++ x :: y :: post) = checksum_fold (wrap32 (be_sum pre + be_sum post)).
Proof.
  intros Hl He. unfold ipv4_header_checksum.
  pose proof (words_loop_skip 10 0 pre x y post) as Hw. rewrite words_loop_app in * by (rewrite Hl; by exists 5%nat).
  assert (len pre = 10) as Hlp by (unfold len; lia). rewrite Hlp in *. cbn [words_loop] in *.
  change (0 + 10) with 10 in *. rewrite (Z.eqb_refl 10) in *.
  rewrite (words_loop_even 10 (10 + 2) _ post) in * by (done || lia).
  rewrite fold16_checksum; [f_equal|].
  - apply Hw; [rewrite Hl; by exists 5%nat|done|done].
  - apply scalar_loop_u32. rewrite words_loop_even by (rewrite ?Hl, ?Hlp; lia || by exists 5%nat).
    by apply scalar_loop_u32.
Qed.

(** A header with its checksum in place sums to a multiple of [2^16 - 1]. *)
Lemma header_checksum_valid pre x y post :
  length pre = 10%nat → Nat.Even (length post) → len post ≤ 48 → Forall in_u8 pre → Forall in_u8 post →
  let c := ipv4_header_checksum (pre ++ x :: y :: post) in
  in_u16 c ∧ be_sum (pre ++ to_be16 c ++ post) mod 65535 = 0.
Proof.
  intros Hl He Hp Up Uq c.
  pose proof (be_sum_bounds pre Up) as B1. pose proof (be_sum_bounds post Uq) as B2. unfold len in Hp.
  destruct (filled_sum (be_sum pre + be_sum post) c) as [H1 H2].
  - unfold u32_bound. lia.
  - left. by apply ipv4_header_checksum_sum.
  - split; [done|]. rewrite be_sum_field by (rewrite Hl; by exists 5%nat). by rewrite Z.add_shuffle0 in H2.
Qed.

(** ** The bytes of a frame *)

Definition flags_word (offset : Z) (more : bool) : Z :=
  Z.lor (Z.shiftl (Z.b2z more) 13) (wrap16 (offset / 8)).

Definition ip_header (total id flags sum : Z) (src dst : Ipv4) : list Z :=
  [0x45; 0] ++ to_be16 total ++ to_be16 id ++ to_be16 flags ++ [64; 17] ++ to_be16 sum ++ octets src ++ octets dst.

Definition ip_header_sum (total id flags : Z) (src dst : Ipv4) : Z :=
  ipv4_header_checksum (ip_header total id flags 0 src dst).

Definition mac_ok (mac : list Z) : Prop := length mac = 6%nat ∧ Forall in_u8 mac.

Definition frame_head (src dst : Ipv4) (id offset : Z) (more : bool) (n : Z) (src_mac dst_mac : list Z) : list Z :=
  let total := wrap16 (20 + n) in
  let flags := flags_word offset more in
  dst_mac ++ src_mac ++ [8; 0] ++ ip_header total id flags (ip_header_sum total id flags src dst) src dst.

Definition frame_of (src dst : Ipv4) (id offset : Z) (more : bool) (ip_payload src_mac dst_mac : list Z) : list Z :=
  frame_head src dst id offset more (len ip_payload) src_mac dst_mac ++ ip_payload.

Lemma build_frame_eq src dst id offset more ip_payload src_mac dst_mac :
  length src_mac = 6%nat → length dst_mac = 6%nat →
  build_frame src dst id offset more ip_payload src_mac dst_mac =
  Some (frame_of src dst id offset more ip_payload src_mac dst_mac).
Proof.
  intros Hs Hd. unfold build_frame, frame_of, frame_head, ETH_HEADER_LEN. fold (flags_word offset more).
  set (total := wrap16 _). set (flags := flags_word _ _). clearbody total flags.
  replace (Z.to_nat (14 + (20 + len ip_payload))) with (34 + length ip_payload)%nat by (unfold len; lia).
  rewrite replicate_add.
  do 6 (destruct src_mac as [|? src_mac]; [done|]). destruct src_mac; [|done].
  do 6 (destruct dst_mac as [|? dst_mac]; [done|]). destruct dst_mac; [|done].
  destruct src as [s0 s1 s2 s3], dst as [d0 d1 d2 d3].
  unfold ip_header_sum, ip_header, to_be16.
  generalize (total / 256) (total mod 256) (flags / 256) (flags mod 256) (id / 256) (id mod 256). intros t0 t1 f0 f1 i0 i1.
  do 11 (erewrite put_app_l; [|lia|cbv; reflexivity]).
  rewrite range_app_l by (done || lia).
  match goal with |- context [range ?l ?a ?b] => let r := eval cbv in (range l a b) in change (range l a b) with r end.
  cbv beta iota. match goal with |- context [ipv4_header_checksum ?l / 256] => set (c := ipv4_header_checksum l) end.
  remember (c / 256) as c0. remember (c mod 256) as c1.
  erewrite put_app_l; [|lia|cbv; reflexivity]. subst c0 c1.
  cbv beta iota. match goal with |- put (?l ++ _) _ _ = _ => change (14 + 20) with (len l) end.
  rewrite put_app_r by (unfold len; by rewrite length_replicate). reflexivity.
Qed.

Definition udp_header (src_port dst_port n sum : Z) : list Z :=
  to_be16 src_port ++ to_be16 dst_port ++ to_be16 n ++ to_be16 sum.

Definition datagram_of (src dst : Ipv4) (src_port dst_port : Z) (payload : list Z) : list Z :=
  let n := wrap16 (8 + len payload) in
  udp_header src_port dst_port n (udp_checksum src dst (udp_header src_port dst_port n 0 ++ payload)) ++ payload.

Lemma udp_datagram_eq src dst src_port dst_port payload :
  udp_datagram src dst src_port dst_port payload = Some (datagram_of src dst src_port dst_port payload).
Proof.
  unfold udp_datagram, datagram_of. set (n := wrap16 _). clearbody n.
  replace (Z.to_nat (8 + len payload)) with (8 + length payload)%nat by (unfold len; lia). rewrite replicate_add.
  unfold udp_header, to_be16. change (0 / 256) with 0. change (0 mod 256) with 0.
  generalize (n / 256) (n mod 256) (src_port / 256) (src_port mod 256) (dst_port / 256) (dst_port mod 256).
  intros n0 n1 s0 s1 d0 d1. do 3 (erewrite put_app_l; [|lia|cbv; reflexivity]). cbv beta iota.
  match goal with |- context [put (?l ++ _) 8 _] => change (put (l ++ replicate (length payload) 0) 8 payload)
    with (put (l ++ replicate (length payload) 0) (len l) payload) end.
  rewrite put_app_r by (unfold len; by rewrite length_replicate). cbv beta iota.
  match goal with |- context [udp_checksum src dst ?l / 256] => set (c := udp_checksum src dst l) end.
  remember (c / 256) as c0. remember (c mod 256) as c1.
  erewrite put_app_l; [|lia|cbv; reflexivity]. by subst c0 c1.
Qed.

Lemma datagram_len src dst src_port dst_port payload :
  len (datagram_of src dst src_port dst_port payload) = 8 + len payload.
Proof. unfold datagram_of, len. rewrite length_app. simpl. lia. Qed.

Lemma chunks_lookup n l i :
  (0 < n)%nat → chunks n l !! i = if decide (i * n < length l)%nat then Some (take n (drop (i * n) l)) else None.
Proof.
  intros Hn. unfold chunks. assert (∀ fuel, length l ≤ fuel → chunks_fuel fuel n l !! i =
    if decide (i * n < length l)%nat then Some (take n (drop (i * n) l)) else None)%nat as Hf; [|by apply Hf].
  intros fuel. revert l i. induction fuel as [|fuel IH]; intros l i Hl.
  { destruct l; [|simpl in Hl; lia]. rewrite decide_False by (simpl; lia). by destruct i. }
  destruct l as [|x l]. { rewrite decide_False by (simpl; lia). by destruct i. }
  destruct i as [|i]. { rewrite decide_True by (simpl; lia). done. }
  cbn [chunks_fuel]. rewrite lookup_cons. rewrite IH by (rewrite length_drop; simpl in *; lia).
  rewrite length_drop, drop_drop. simpl length.
  destruct (decide (i * n < S (length l) - n)%nat).
  - rewrite decide_True by lia. done.
  - rewrite decide_False by lia. done.
Qed.

Lemma mapM_total {A B} (f : A → option B) (g : A → B) l :
  (∀ x, f x = Some (g x)) → mapM f l = Some (g <$> l).
Proof. intros Hf. induction l as [|x l IH]; [done|]. cbn [mapM]. by rewrite Hf, IH. Qed.

(** The fragments of a datagram, in the order of their offsets. *)
Definition udp_frames (src dst : Ipv4) (id : Z) (datagram src_mac dst_mac : list Z) (mtu : Z) : list (list Z) :=
  let chunk := Z.land (mtu - 20) (not64 7) in
  imap (λ i part, frame_of src dst id (Z.of_nat i * chunk) (Z.of_nat i * chunk + len part <? len datagram)
    part src_mac dst_mac) (chunks (Z.to_nat chunk) datagram).

Lemma build_udp_eq id src dst src_port dst_port payload src_mac dst_mac mtu :
  length src_mac = 6%nat → length dst_mac = 6%nat → 36 ≤ mtu → len payload ≤ MAX_UDP_PAYLOAD →
  let datagram := datagram_of src dst src_port dst_port payload in
  build_udp_ip_ethernet id src dst src_port dst_port payload src_mac dst_mac mtu =
  Some (if 28 + len payload <=? mtu then [frame_of src dst id 0 false datagram src_mac dst_mac]
        else udp_frames src dst id datagram src_mac dst_mac mtu, wrap16 (id + 1)).
Proof.
  intros Hs Hd Hm Hp datagram. unfold build_udp_ip_ethernet.
  rewrite (proj2 (Z.ltb_ge mtu 36)), (proj2 (Z.ltb_ge MAX_UDP_PAYLOAD _)) by done.
  rewrite udp_datagram_eq. fold datagram. cbv beta iota zeta.
  replace (20 + (8 + len payload)) with (28 + len payload) by lia.
  case_match; [by rewrite build_frame_eq|].
  set (chunk := Z.land _ _). rewrite (mapM_total _ (λ '(i, part), frame_of src dst id (Z.of_nat i * chunk)
    (Z.of_nat i * chunk + len part <? 8 + len payload) part src_mac dst_mac)).
  - do 2 f_equal. unfold udp_frames. fold chunk. unfold datagram at 2. rewrite datagram_len.
    by rewrite fmap_imap.
  - intros [i part]. by apply build_frame_eq.
Qed.

End Eth.
