(* ===== verification/Fragment.v ===== *)
(** * Reassembly of IPv4 fragments

    [src/common/splicetcp/src/fragment.rs]: the table of partly received
    datagrams. A frame of the guest that carries a fragment is read, checked and
    stored in the entry of its datagram; the fragment that fills the last gap
    yields the whole frame. Everything in a frame is under the guest's control,
    so the theorems quantify over arbitrary frames. Instants are nanoseconds. *)

From Stdlib Require Import ZArith Lia.
From stdpp Require Import base numbers list gmap.
From S2P Require Import Prelude Bits Checksum Bytes EthFrame.

Open Scope Z_scope.

Module Frag.

Import Eth.

Definition MAX_REASSEMBLED_PAYLOAD : Z := 65535 - 20.
Definition MAX_ENTRIES : nat := 32.
Definition MAX_RANGES : nat := 64.
Definition REASSEMBLY_TIMEOUT : Z := 3000000000.

(** Source, destination, protocol and identification. *)
Definition Key : Type := Ipv4 * Ipv4 * Z * Z.

Record Entry := MkEntry {
  header : option (list Z);
  payload : list Z;
  ranges : list (Z * Z);
  total_len : option Z;
  first_seen : Z
}.
#[export] Instance eta_Entry : Eta Entry := {|
  eta e := MkEntry (header e) (payload e) (ranges e) (total_len e) (first_seen e);
  eta_ok := ltac:(by intros [])
|}.

Definition is_complete (e : Entry) : bool :=
  match header e, total_len e with
  | Some _, Some total => bool_decide (ranges e = [(0, total)])
  | _, _ => false
  end.

Definition key_of (frame : list Z) : option Key :=
  let ip := drop (Z.to_nat ETH_HEADER_LEN) frame in
  let! src := get_ip ip 12 in
  let! dst := get_ip ip 16 in
  let! protocol := byte ip 9 in
  let! id := get_be16 ip 4 in
  Some (src, dst, protocol, id).

(** ** Received ranges *)

(** [partition_point(|&(s, _)| s < start)] of a list sorted by its first
    components, as the ranges of an entry are. *)
Fixpoint partition_point (start : Z) (rs : list (Z * Z)) : nat :=
  match rs with
  | (s, _) :: rs => if s <? start then S (partition_point start rs) else 0
  | [] => 0
  end.

(** The body of the merging loop, on the ranges merged so far. *)
Definition merge_step (merged : list (Z * Z)) (r : Z * Z) : list (Z * Z) :=
  let '(s, e) := r in
  match last merged with
  | Some (ls, le) =>
      if s <=? le then take (length merged - 1) merged ++ [(ls, Z.max le e)] else merged ++ [(s, e)]
  | None => merged ++ [(s, e)]
  end.

Definition merge_range (ranges : list (Z * Z)) (start end_ : Z) : list (Z * Z) :=
  let idx := partition_point start ranges in
  let ranges := take idx ranges ++ (start, end_) :: drop idx ranges in
  foldl merge_step [] ranges.

(** The loop that classifies a fragment against the ranges: whether a range
    contains it, and whether one overlaps it otherwise. *)
Fixpoint overlap_loop (ranges : list (Z * Z)) (offset end_ : Z) (fully_contained : bool) : bool * bool :=
  match ranges with
  | [] => (fully_contained, false)
  | (s, e) :: ranges =>
      if (offset <? e) && (s <? end_) then
        if (s <=? offset) && (end_ <=? e) then overlap_loop ranges offset end_ true
        else (fully_contained, true)
      else overlap_loop ranges offset end_ fully_contained
  end.

(** ** Reading a fragment *)

(** What [push] reads off a frame before it looks at the table. *)
Record View := MkView {
  v_key : Key;
  v_offset : Z;
  v_more : bool;
  v_data : list Z;
  v_header : list Z
}.
#[export] Instance View_eq_dec : EqDecision View.
Proof. solve_decision. Defined.
Definition v_end (v : View) : Z := v_offset v + len (v_data v).

Definition fragment_view (frame : list Z) : option (option View) :=
  let ip_start := ETH_HEADER_LEN in
  if len frame <? ip_start + 20 then Some None else
  let! b0 := byte frame ip_start in
  let ihl := Z.land b0 0x0F * 4 in
  let! ip_total := get_be16 frame (ip_start + 2) in
  if (ihl <? 20) || (ip_total <? ihl) || (len frame <? ip_start + ip_total) then Some None else
  let! flags_frag := get_be16 frame (ip_start + 6) in
  let more_fragments := negb (Z.land flags_frag 0x2000 =? 0) in
  let offset := Z.land flags_frag 0x1FFF * 8 in
  let! fragment := range frame (ip_start + ihl) (ip_start + ip_total) in
  if more_fragments && ((len fragment =? 0) || negb (len fragment mod 8 =? 0)) then Some None else
  let! key := key_of frame in
  let! head := range frame 0 (ip_start + ihl) in
  Some (Some (MkView key offset more_fragments fragment head)).

(** ** Rebuilding the frame *)

(** The header fields written into the copied headers and payload. *)
Definition write_header (out : list Z) (ihl total : Z) : option (list Z) :=
  let! out := put out (ETH_HEADER_LEN + 2) (to_be16 (wrap16 (ihl + total))) in
  let! out := put out (ETH_HEADER_LEN + 6) [0; 0] in
  let! out := put out (ETH_HEADER_LEN + 10) [0; 0] in
  let! h := range out ETH_HEADER_LEN (ETH_HEADER_LEN + ihl) in
  put out (ETH_HEADER_LEN + 10) (to_be16 (ipv4_header_checksum h)).

Definition rebuild_frame (e : Entry) : option (list Z) :=
  let! head := header e in
  let! total := total_len e in
  if len head <? ETH_HEADER_LEN then None else
  let ihl := len head - ETH_HEADER_LEN in
  let! body := range (payload e) 0 total in
  write_header (head ++ body) ihl total.

(** The end of [push], on a complete entry taken out of the table. The inner
    [None] is a datagram too long for the length field. *)
Definition complete_entry (e : Entry) : option (option (list Z)) :=
  match header e, total_len e with
  | Some head, Some total =>
      if len head <? ETH_HEADER_LEN then None else
      if 65535 <? len head - ETH_HEADER_LEN + total then Some None else
      let! frame := rebuild_frame e in Some (Some frame)
  | _, _ => Some None
  end.

(** ** The table *)

Notation Table := (gmap Key Entry).

Definition evict_expired (es : Table) (now : Z) : Table :=
  filter (λ '(_, e), saturating_sub now (first_seen e) < REASSEMBLY_TIMEOUT) es.

Definition new_entry (now : Z) : Entry := MkEntry None [] [] None now.

(** The total length the last fragment announces; [None]: two of them disagree. *)
Definition announce (e : Entry) (v : View) : option Entry :=
  if v_more v then Some e
  else match total_len e with
  | Some total => if total =? v_end v then Some (e <| total_len := Some (v_end v) |>) else None
  | None => Some (e <| total_len := Some (v_end v) |>)
  end.

(** The bytes of a fragment that no received range contains. *)
Definition store (e : Entry) (v : View) : option Entry :=
  let grown := if len (payload e) <? v_end v
    then payload e ++ replicate (Z.to_nat (v_end v - len (payload e))) 0 else payload e in
  let! written := put grown (v_offset v) (v_data v) in
  Some (e <| payload := written |> <| ranges := merge_range (ranges e) (v_offset v) (v_end v) |>).

(** The headers of the first fragment at offset 0. *)
Definition keep_header (e : Entry) (v : View) : Entry :=
  if (v_offset v =? 0) && bool_decide (header e = None) then e <| header := Some (v_header v) |> else e.

(** The bytes of a fragment against the ranges received. [Some None] drops the
    entry, [None] is a panic. *)
Definition place (e : Entry) (v : View) : option (option Entry) :=
  let '(fully_contained, partial_conflict) := overlap_loop (ranges e) (v_offset v) (v_end v) false in
  let! contained_mismatch :=
    if fully_contained
    then let! old := range (payload e) (v_offset v) (v_end v) in Some (negb (bool_decide (old = v_data v)))
    else Some false in
  if partial_conflict || contained_mismatch then Some None
  else if fully_contained then Some (Some e)
  else
    let! e := store e v in
    if (MAX_RANGES <? length (ranges e))%nat then Some None else Some (Some e).

(** Whether a fragment reaches past the last one. *)
Definition beyond (e : Entry) (v : View) : bool :=
  match total_len e with Some total => total <? v_end v | None => false end.

(** A fragment against the entry of its datagram. *)
Definition accept (e : Entry) (v : View) : option (option Entry) :=
  match announce e v with
  | None => Some None
  | Some e =>
      if beyond e v then Some None else place (keep_header e v) v
  end.

Definition push_fragment (es : Table) (v : View) (now : Z) : option (Table * option (list Z)) :=
  if MAX_REASSEMBLED_PAYLOAD <? v_end v then Some (delete (v_key v) es, None)
  else if bool_decide (es !! v_key v = None) && (MAX_ENTRIES <=? size es)%nat then Some (es, None)
  else
    let! accepted := accept (default (new_entry now) (es !! v_key v)) v in
    match accepted with
    | None => Some (delete (v_key v) es, None)
    | Some e =>
        if is_complete e then
          let! out := complete_entry e in Some (delete (v_key v) es, out)
        else Some (<[v_key v := e]> es, None)
    end.

(** [FragmentReassembler::push] for a frame of IP version 4. *)
Definition push (es : Table) (frame : list Z) (now : Z) : option (Table * option (list Z)) :=
  let es := evict_expired es now in
  let! view := fragment_view frame in
  match view with
  | None => Some (es, None)
  | Some v => push_fragment es v now
  end.

(** Frames in turn, each at the instant it arrives, and what comes out of them. *)
Fixpoint run_with {S} (push : S → list Z → Z → option (S * option (list Z))) (s : S) (fs : list (list Z * Z))
    : option (S * list (option (list Z))) :=
  match fs with
  | [] => Some (s, [])
  | (frame, now) :: fs =>
      let! pushed := push s frame now in
      let '(s, out) := pushed in
      let! rest := run_with push s fs in
      let '(s, outs) := rest in Some (s, out :: outs)
  end.

(** ** Ranges in order *)

(** Ranges in increasing order from [lo], with a gap between any two. *)
Fixpoint sep (lo : Z) (rs : list (Z * Z)) : Prop :=
  match rs with
  | (s, e) :: rs => lo ≤ s ∧ s ≤ e ∧ sep (e + 1) rs
  | [] => True
  end.

(** Ranges in the order of their first components. *)
Fixpoint srt (lo : Z) (rs : list (Z * Z)) : Prop :=
  match rs with
  | (s, e) :: rs => lo ≤ s ∧ s ≤ e ∧ srt s rs
  | [] => True
  end.

Definition covered (rs : list (Z * Z)) (i : Z) : Prop := ∃ s e, (s, e) ∈ rs ∧ s ≤ i < e.

Lemma covered_nil i : ¬ covered [] i.
Proof. intros (s & e & H & _). by apply elem_of_nil in H. Qed.

Lemma covered_cons s e rs i : covered ((s, e) :: rs) i ↔ s ≤ i < e ∨ covered rs i.
Proof.
  unfold covered. split.
  - intros (s' & e' & [[= -> ->]|H]%elem_of_cons & Hi); [by left|right; eauto].
  - intros [Hi|(s' & e' & H & Hi)]; [exists s, e; split; [apply elem_of_cons; by left|done]|].
    exists s', e'. split; [apply elem_of_cons; by right|done].
Qed.

Lemma srt_weaken lo lo' rs : lo' ≤ lo → srt lo rs → srt lo' rs.
Proof. destruct rs as [|[s e] rs]; simpl; [done|]. intros ? (? & ? & ?). split; [lia|done]. Qed.

Lemma sep_weaken lo lo' rs : lo' ≤ lo → sep lo rs → sep lo' rs.
Proof. destruct rs as [|[s e] rs]; simpl; [done|]. intros ? (? & ? & ?). split; [lia|done]. Qed.

Lemma sep_srt lo rs : sep lo rs → srt lo rs.
Proof.
  revert lo. induction rs as [|[s e] rs IH]; intros lo; simpl; [done|]. intros (H1 & H2 & H3).
  split; [done|]. split; [done|]. apply (srt_weaken (e + 1)); [lia|]. by apply IH.
Qed.

Lemma sep_elem lo rs s e : sep lo rs → (s, e) ∈ rs → lo ≤ s ≤ e.
Proof.
  revert lo. induction rs as [|[s' e'] rs IH]; intros lo; simpl; [by intros _ ?%elem_of_nil|].
  intros (H1 & H2 & H3) [[= -> ->]|H]%elem_of_cons; [done|]. specialize (IH _ H3 H). lia.
Qed.

(** A range of a list in order is determined by one of its points. *)
Lemma sep_same lo rs s e s' e' :
  sep lo rs → (s, e) ∈ rs → (s', e') ∈ rs → s' ≤ e → s ≤ e' → (s, e) = (s', e').
Proof.
  revert lo. induction rs as [|[a b] rs IH]; intros lo; [by intros _ ?%elem_of_nil|]. cbn [sep].
  intros (H1 & H2 & H3) [[= -> ->]|Hin]%elem_of_cons [[= -> ->]|Hin']%elem_of_cons Hx Hy.
  - done.
  - pose proof (sep_elem _ _ _ _ H3 Hin'). lia.
  - pose proof (sep_elem _ _ _ _ H3 Hin). lia.
  - by apply (IH (b + 1)).
Qed.

(** The merging loop as a recursion with the open range at hand. *)
Fixpoint coal (ls le : Z) (rs : list (Z * Z)) : list (Z * Z) :=
  match rs with
  | (s, e) :: rs => if s <=? le then coal ls (Z.max le e) rs else (ls, le) :: coal s e rs
  | [] => [(ls, le)]
  end.

Lemma merge_steps m ls le rs : foldl merge_step (m ++ [(ls, le)]) rs = m ++ coal ls le rs.
Proof.
  revert m ls le. induction rs as [|[s e] rs IH]; intros m ls le; [done|]. cbn [foldl coal].
  unfold merge_step at 2. rewrite last_snoc, length_app. cbn [length]. destruct (Z.leb_spec s le).
  - rewrite take_app_le, take_ge by lia. by rewrite IH.
  - rewrite IH. by rewrite <- app_assoc.
Qed.

Lemma coal_sep lo ls le rs : lo ≤ ls → ls ≤ le → srt ls rs → sep lo (coal ls le rs).
Proof.
  revert lo ls le. induction rs as [|[s e] rs IH]; intros lo ls le Hlo Hl; simpl; [lia|]. intros (H1 & H2 & H3).
  destruct (Z.leb_spec s le).
  - apply IH; [done|lia|]. by apply (srt_weaken s).
  - split; [done|]. split; [done|]. apply IH; [lia|lia|done].
Qed.

Lemma coal_covered ls le rs i : ls ≤ le → srt ls rs → covered (coal ls le rs) i ↔ ls ≤ i < le ∨ covered rs i.
Proof.
  revert ls le. induction rs as [|[s e] rs IH]; intros ls le Hl; simpl.
  - intros _. rewrite covered_cons. done.
  - intros (H1 & H2 & H3). rewrite covered_cons. destruct (Z.leb_spec s le).
    + rewrite IH by (lia || by apply (srt_weaken s)). split; [intros [?|?]|intros [?|[?|?]]]; auto; try lia.
    + rewrite covered_cons, IH by done. tauto.
Qed.

Lemma coal_bounds ls le rs s e :
  (s, e) ∈ coal ls le rs → (s = ls ∨ ∃ e', (s, e') ∈ rs) ∧ (e = le ∨ ∃ s', (s', e) ∈ rs).
Proof.
  revert ls le. induction rs as [|[s0 e0] rs IH]; intros ls le; simpl.
  - intros [= -> ->]%list_elem_of_singleton. auto.
  - assert (∀ x y : Z, (x, y) ∈ rs → (x, y) ∈ (s0, e0) :: rs) as Hin by (intros; by apply elem_of_cons; right).
    assert ((s0, e0) ∈ (s0, e0) :: rs) as H0 by (apply elem_of_cons; by left).
    destruct (Z.leb_spec s0 le).
    + intros [[->|[e' He]] [->|[s' Hs]]]%IH; split; eauto.
      * destruct (Z.max_spec le e0) as [[_ ->]|[_ ->]]; eauto.
      * destruct (Z.max_spec le e0) as [[_ ->]|[_ ->]]; eauto.
    + intros [[= -> ->]|[[->|[e' He]] [->|[s' Hs]]]%IH]%elem_of_cons; split; eauto.
Qed.

(** The list after the insertion, before the merging. *)
Definition inserted (rs : list (Z * Z)) (start end_ : Z) : list (Z * Z) :=
  take (partition_point start rs) rs ++ (start, end_) :: drop (partition_point start rs) rs.

Lemma inserted_elem rs start end_ r : r ∈ inserted rs start end_ ↔ r = (start, end_) ∨ r ∈ rs.
Proof.
  unfold inserted. rewrite elem_of_app, elem_of_cons.
  pose proof (elem_of_app (take (partition_point start rs) rs) (drop (partition_point start rs) rs) r) as H.
  rewrite take_drop in H. tauto.
Qed.

Lemma inserted_srt lo rs start end_ : lo ≤ start → start ≤ end_ → srt lo rs → srt lo (inserted rs start end_).
Proof.
  intros Hlo Hse. unfold inserted. revert lo Hlo. induction rs as [|[s e] rs IH]; intros lo Hlo; [simpl; lia|].
  simpl. destruct (Z.ltb_spec s start); simpl; intros (H1 & H2 & H3).
  - split; [done|]. split; [done|]. apply IH; [lia|done].
  - split; [done|]. split; [done|]. split; [done|]. split; [done|]. done.
Qed.

Lemma inserted_covered rs start end_ i :
  covered (inserted rs start end_) i ↔ start ≤ i < end_ ∨ covered rs i.
Proof.
  unfold covered. split.
  - intros (s & e & [[= -> ->]|H]%inserted_elem & Hi); eauto.
  - intros [Hi|(s & e & H & Hi)]; [exists start, end_|exists s, e]; (split; [apply inserted_elem; auto|done]).
Qed.

Lemma merge_range_coal rs start end_ :
  ∃ s e rest, inserted rs start end_ = (s, e) :: rest ∧ merge_range rs start end_ = coal s e rest.
Proof.
  unfold merge_range. fold (inserted rs start end_).
  destruct (inserted rs start end_) as [|[s e] rest] eqn:Hi.
  - assert ((start, end_) ∈ inserted rs start end_) as H by (apply inserted_elem; by left).
    rewrite Hi in H. by apply elem_of_nil in H.
  - exists s, e, rest. split; [done|]. cbn [foldl]. unfold merge_step at 2. simpl. apply (merge_steps [] s e rest).
Qed.

(** [merge_range] keeps the ranges in order and covers one range more; its
    bounds are bounds it was given. *)
Lemma merge_range_spec rs start end_ :
  sep 0 rs → 0 ≤ start ≤ end_ →
  sep 0 (merge_range rs start end_) ∧
  (∀ i, covered (merge_range rs start end_) i ↔ start ≤ i < end_ ∨ covered rs i) ∧
  (∀ s e, (s, e) ∈ merge_range rs start end_ →
    (s = start ∨ ∃ e', (s, e') ∈ rs) ∧ (e = end_ ∨ ∃ s', (s', e) ∈ rs)).
Proof.
  intros Hs Hb. destruct (merge_range_coal rs start end_) as (s & e & rest & Hi & ->).
  assert (srt 0 (inserted rs start end_)) as Hsrt by (apply inserted_srt; [lia|lia|by apply sep_srt]).
  rewrite Hi in Hsrt. destruct Hsrt as (H1 & H2 & H3). split; [by apply coal_sep|]. split.
  - intros i. rewrite coal_covered by done. rewrite <- covered_cons, <- Hi. apply inserted_covered.
  - assert (∀ x y, (x, y) = (s, e) ∨ (x, y) ∈ rest → (x, y) = (start, end_) ∨ (x, y) ∈ rs) as Hin.
    { intros x y Hxy. apply inserted_elem. rewrite Hi. by apply elem_of_cons. }
    intros s' e' [Hs' He']%coal_bounds. split.
    + destruct Hs' as [->|[e1 H]]; [destruct (Hin s e) as [[= -> ->]|]; auto; right; eauto|].
      destruct (Hin s' e1) as [[= -> ->]|]; eauto.
    + destruct He' as [->|[s1 H]]; [destruct (Hin s e) as [[= -> ->]|]; auto; right; eauto|].
      destruct (Hin s1 e') as [[= -> ->]|]; eauto.
Qed.

(** Contiguous bytes that are all covered lie in one range. *)
Lemma sep_contains lo rs a b :
  sep lo rs → a < b → (∀ i, a ≤ i < b → covered rs i) → ∃ s e, (s, e) ∈ rs ∧ s ≤ a ∧ b ≤ e.
Proof.
  revert lo. induction rs as [|[s e] rs IH]; intros lo Hs Hab Hc.
  { destruct (covered_nil a). apply Hc. lia. }
  simpl in Hs. destruct Hs as (H1 & H2 & H3).
  assert (∀ i, covered rs i → e < i) as Hr.
  { intros i (s' & e' & Hin & Hi). pose proof (sep_elem _ _ _ _ H3 Hin). lia. }
  destruct (decide (a < e)) as [Hae|Hae].
  - exists s, e. split; [apply elem_of_cons; by left|].
    destruct (proj1 (covered_cons s e rs a) (Hc a ltac:(lia))) as [Ha|Ha%Hr]; [|lia]. split; [lia|].
    destruct (decide (b ≤ e)); [done|]. destruct (proj1 (covered_cons s e rs e) (Hc e ltac:(lia))) as [He|He%Hr]; lia.
  - destruct (IH _ H3 Hab) as (s' & e' & Hin & Hb).
    + intros i Hi. destruct (proj1 (covered_cons s e rs i) (Hc i Hi)) as [|]; [lia|done].
    + exists s', e'. split; [apply elem_of_cons; by right|done].
Qed.

(** Ranges that cover exactly [0, n) are one range. *)
Lemma sep_whole rs n :
  sep 0 rs → 0 < n → (∀ i, covered rs i ↔ 0 ≤ i < n) → (∀ s e, (s, e) ∈ rs → s ≤ n) → rs = [(0, n)].
Proof.
  intros Hs Hn Hc Hb. destruct (sep_contains 0 rs 0 n Hs Hn) as (s & e & Hin & H1 & H2); [intros i Hi; by apply Hc|].
  destruct rs as [|[s0 e0] rs]; [by apply elem_of_nil in Hin|]. simpl in Hs. destruct Hs as (S1 & S2 & S3).
  assert ((s, e) = (s0, e0)) as [= -> ->].
  { apply elem_of_cons in Hin as [|Hin]; [done|]. pose proof (sep_elem _ _ _ _ S3 Hin). lia. }
  assert (e0 = n) as ->.
  { destruct (decide (e0 ≤ n)); [lia|]. assert (0 ≤ n < n); [|lia]. apply Hc. apply covered_cons. left. lia. }
  destruct rs as [|[s1 e1] rs]; [f_equal; f_equal; lia|]. simpl in S3.
  specialize (Hb s1 e1). rewrite !elem_of_cons in Hb. specialize (Hb ltac:(auto)). lia.
Qed.

Lemma overlap_spec rs offset end_ fc :
  let '(full, partial) := overlap_loop rs offset end_ fc in
  (partial = true → ∃ s e, (s, e) ∈ rs ∧ offset < e ∧ s < end_ ∧ ¬ (s ≤ offset ∧ end_ ≤ e)) ∧
  (partial = false → full = false → ∀ s e, (s, e) ∈ rs → ¬ (offset < e ∧ s < end_)) ∧
  (full = true → fc = true ∨ ∃ s e, (s, e) ∈ rs ∧ offset < e ∧ s < end_ ∧ s ≤ offset ∧ end_ ≤ e) ∧
  (fc = true → full = true).
Proof.
  revert fc. induction rs as [|[s e] rs IH]; intros fc.
  { simpl. split; [done|]. split; [by intros _ _ ?? ?%elem_of_nil|]. split; [auto|done]. }
  cbn [overlap_loop]. destruct (Z.ltb_spec offset e); destruct (Z.ltb_spec s end_); cbn [andb].
  1: destruct (Z.leb_spec s offset); destruct (Z.leb_spec end_ e); cbn [andb].
  2,3,4: split; [intros _; exists s, e; split; [apply elem_of_cons; by left|lia]|split; [done|split; [auto|done]]].
  { specialize (IH true). destruct (overlap_loop rs offset end_ true) as [full partial].
    destruct IH as (I1 & I2 & I3 & I4). specialize (I4 eq_refl). subst full. split.
    { intros Hp. destruct (I1 Hp) as (s' & e' & Hin & Hr). exists s', e'. split; [apply elem_of_cons; by right|done]. }
    split; [done|]. split; [|done]. intros _. right. exists s, e. split; [apply elem_of_cons; by left|lia]. }
  all: specialize (IH fc); destruct (overlap_loop rs offset end_ fc) as [full partial];
    destruct IH as (I1 & I2 & I3 & I4); split;
    [intros Hp; destruct (I1 Hp) as (s' & e' & Hin & Hr); exists s', e'; split; [apply elem_of_cons; by right|done]|];
    split; [intros Hp Hf s' e' [[= -> ->]|Hin]%elem_of_cons; [lia|by apply I2]|];
    split; [|done]; intros Hf; destruct (I3 Hf) as [?|(s' & e' & Hin & Hr)]; [by left|]; right; exists s', e';
    split; [apply elem_of_cons; by right|done].
Qed.

(** ** Frames as views *)

(** Headers as far as the reassembly relies on them: bytes, an IPv4 header of
    the length its first byte gives. *)
Record head_ok (h : list Z) : Prop := {
  ho_u8 : Forall in_u8 h;
  ho_len : 34 ≤ len h ≤ 74;
  ho_ihl : ∃ b, byte h 14 = Some b ∧ Z.land b 0x0F * 4 = len h - 14
}.

Record view_ok (v : View) : Prop := {
  vo_offset : 0 ≤ v_offset v;
  vo_u8 : Forall in_u8 (v_data v);
  vo_head : head_ok (v_header v)
}.

Lemma land_low_range b n m : 0 ≤ n → m = 2 ^ n - 1 → 0 ≤ Z.land b m ≤ m.
Proof. intros Hn ->. rewrite land_low by done. pose proof (Z.mod_pos_bound b (2 ^ n)). lia. Qed.

Lemma key_of_total frame : Forall in_u8 frame → 34 ≤ len frame → ∃ k, key_of frame = Some k.
Proof.
  intros Hf Hl. unfold key_of, ETH_HEADER_LEN. set (ip := drop _ frame).
  assert (Forall in_u8 ip) as Hu by (by apply Forall_drop).
  assert (20 ≤ len ip) as Hi by (unfold ip, len in *; rewrite length_drop; lia).
  destruct (get_ip_Some ip 12) as (src & -> & _); [done|lia|lia|].
  destruct (get_ip_Some ip 16) as (dst & -> & _); [done|lia|lia|].
  destruct (byte_Some ip 9) as (p & -> & _); [done|lia|].
  destruct (get_be16_Some ip 4) as (id & -> & _); [done|lia|lia|]. eauto.
Qed.

Lemma fragment_view_total frame :
  Forall in_u8 frame → ∃ r, fragment_view frame = Some r ∧ ∀ v, r = Some v → view_ok v.
Proof.
  intros Hf. unfold fragment_view, ETH_HEADER_LEN. destruct (Z.ltb_spec (len frame) (14 + 20)); [by eexists|].
  destruct (byte_Some frame 14) as (b0 & Hb0 & _); [done|lia|]. rewrite Hb0.
  destruct (get_be16_Some frame (14 + 2)) as (tot & -> & Ht); [done|lia|lia|].
  pose proof (land_low_range b0 4 15 ltac:(lia) eq_refl) as Hihl. set (ihl := Z.land b0 15 * 4) in *.
  destruct (Z.ltb_spec ihl 20); cbn [orb]; [by eexists|].
  destruct (Z.ltb_spec tot ihl); cbn [orb]; [by eexists|].
  destruct (Z.ltb_spec (len frame) (14 + tot)); cbn [orb]; [by eexists|].
  destruct (get_be16_Some frame (14 + 6)) as (flags & -> & _); [done|lia|lia|].
  destruct (range_Some frame (14 + ihl) (14 + tot)) as (data & -> & _ & Hu); [lia|lia|].
  case_match; [by eexists|]. destruct (key_of_total frame Hf) as [key ->]; [lia|].
  destruct (range_Some frame 0 (14 + ihl)) as (head & Hh & Hhl & Hhu); [lia|lia|]. rewrite Hh.
  eexists. split; [done|]. intros v [= <-]. split; cbn.
  - pose proof (land_low_range flags 13 8191 ltac:(lia) eq_refl). lia.
  - by apply Hu.
  - split; [by apply Hhu|lia|]. exists b0. split; [|lia]. unfold range in Hh. case_match; [|done].
    injection Hh as <-. unfold byte in *. rewrite lookup_take_lt, lookup_drop by lia. exact Hb0.
Qed.

(** ** The invariant of the table *)

Record entry_ok (e : Entry) : Prop := {
  eo_sep : sep 0 (ranges e);
  eo_ends s t : (s, t) ∈ ranges e → t ≤ len (payload e);
  eo_len : len (payload e) ≤ MAX_REASSEMBLED_PAYLOAD;
  eo_u8 : Forall in_u8 (payload e);
  eo_ranges : (length (ranges e) ≤ MAX_RANGES)%nat;
  eo_total t : total_len e = Some t → 0 ≤ t ≤ MAX_REASSEMBLED_PAYLOAD;
  eo_head h : header e = Some h → head_ok h
}.

Definition table_ok (es : Table) : Prop := (size es ≤ MAX_ENTRIES)%nat ∧ map_Forall (λ _, entry_ok) es.

(** What [place] leaves of the payload and the ranges when it keeps the entry. *)
Inductive placed (e : Entry) (v : View) (e' : Entry) : Prop :=
| placed_again s t :
    e' = e → (s, t) ∈ ranges e → s ≤ v_offset v → v_end v ≤ t →
    range (payload e) (v_offset v) (v_end v) = Some (v_data v) → placed e v e'
| placed_new :
    (∀ s t, (s, t) ∈ ranges e → ¬ (v_offset v < t ∧ s < v_end v)) →
    store e v = Some e' → (length (ranges e') ≤ MAX_RANGES)%nat → placed e v e'.

(** Writing into a buffer that is first extended with zeros. *)
Lemma put_grown l n a bs :
  Forall in_u8 l → Forall in_u8 bs → 0 ≤ a → len l + Z.of_nat n = Z.max (len l) (a + len bs) →
  ∃ p, put (l ++ replicate n 0) a bs = Some p ∧ len p = Z.max (len l) (a + len bs) ∧ Forall in_u8 p ∧
  (∀ i, 0 ≤ i < len l → ¬ (a ≤ i < a + len bs) → byte p i = byte l i) ∧
  (∀ i, a ≤ i < a + len bs → byte p i = byte bs (i - a)).
Proof.
  intros Hl Hbs Ha Hn. assert (len (l ++ replicate n 0) = Z.max (len l) (a + len bs)) as Hg.
  { unfold len in *. rewrite length_app, length_replicate. lia. }
  destruct (put_Some (l ++ replicate n 0) a bs) as [p Hp]; [done|lia|].
  destruct (put_inv _ _ _ _ Ha Hp) as (_ & P1 & P2 & _). exists p. split; [done|]. split; [lia|]. split.
  { apply P2; [|done]. apply Forall_app. split; [done|]. by apply Forall_replicate. }
  split; [|intros i Hi; apply (byte_put_in (l ++ replicate n 0)); [lia|lia|done]].
  intros i Hi Hno. rewrite (byte_put_out _ _ _ _ i Ha ltac:(lia) Hp) by lia. apply byte_app_l; lia.
Qed.

Lemma store_spec e v :
  entry_ok e → view_ok v → v_end v ≤ MAX_REASSEMBLED_PAYLOAD →
  ∃ p, let e' := e <| payload := p |> <| ranges := merge_range (ranges e) (v_offset v) (v_end v) |> in
  store e v = Some e' ∧ len p = Z.max (len (payload e)) (v_end v) ∧ Forall in_u8 p ∧
  (∀ i, 0 ≤ i < len (payload e) → ¬ (v_offset v ≤ i < v_end v) → byte p i = byte (payload e) i) ∧
  (∀ i, v_offset v ≤ i < v_end v → byte p i = byte (v_data v) (i - v_offset v)).
Proof.
  intros He Hv Hm. unfold store. pose proof (vo_offset _ Hv) as Ho. pose proof (len_nonneg (v_data v)) as Hd. unfold v_end in *.
  set (grown := if _ <? _ then _ else _).
  assert (∃ n, grown = payload e ++ replicate n 0 ∧ len (payload e) + Z.of_nat n = Z.max (len (payload e)) (v_offset v + len (v_data v)))
    as (n & -> & Hn).
  { unfold grown. destruct (Z.ltb_spec (len (payload e)) (v_offset v + len (v_data v))).
    - eexists. split; [done|lia].
    - exists 0%nat. rewrite app_nil_r. split; [done|lia]. }
  destruct (put_grown (payload e) n (v_offset v) (v_data v)) as (p & -> & Hp); [apply He|apply Hv|done|done|]. by exists p.
Qed.

Lemma place_total e v :
  entry_ok e → view_ok v → v_end v ≤ MAX_REASSEMBLED_PAYLOAD →
  ∃ r, place e v = Some r ∧ ∀ e', r = Some e' → placed e v e'.
Proof.
  intros He Hv Hm. unfold place. pose proof (overlap_spec (ranges e) (v_offset v) (v_end v) false) as Hs.
  destruct (overlap_loop _ _ _ _) as [full partial]. destruct Hs as (S1 & S2 & S3 & _).
  destruct full.
  - destruct (S3 eq_refl) as [[=]|(s & t & Hin & H1 & H2 & H3 & H4)].
    pose proof (eo_ends _ He _ _ Hin) as Hend. pose proof (vo_offset _ Hv). pose proof (len_nonneg (v_data v)).
    destruct (range_Some (payload e) (v_offset v) (v_end v)) as (old & Ho & _); [unfold v_end; lia|lia|]. rewrite Ho.
    case_match eqn:Hc; [by eexists|]. eexists. split; [done|]. intros e' [= <-].
    apply orb_false_iff in Hc as [_ Hc%negb_false_iff%bool_decide_eq_true]. subst old. by eapply placed_again.
  - destruct partial; [by eexists|]. cbn [orb]. specialize (S2 eq_refl eq_refl).
    destruct (store_spec e v He Hv Hm) as (p & Hst & _). rewrite Hst. cbv beta iota.
    case_match eqn:Hc; [by eexists|]. apply Nat.ltb_ge in Hc. eexists. split; [done|]. intros e' [= <-]. by apply placed_new.
Qed.

(** The fields [place] does not touch, and the payload before and after. *)
Lemma placed_spec e v e' :
  entry_ok e → view_ok v → v_end v ≤ MAX_REASSEMBLED_PAYLOAD → placed e v e' →
  header e' = header e ∧ total_len e' = total_len e ∧ first_seen e' = first_seen e ∧ entry_ok e' ∧
  (∀ i, covered (ranges e) i → byte (payload e') i = byte (payload e) i) ∧
  (∀ i, v_offset v ≤ i < v_end v → byte (payload e') i = byte (v_data v) (i - v_offset v)) ∧
  (∀ i, covered (ranges e') i ↔ v_offset v ≤ i < v_end v ∨ covered (ranges e) i) ∧
  (∀ s t, (s, t) ∈ ranges e' → s = v_offset v ∨ ∃ t', (s, t') ∈ ranges e).
Proof.
  intros He Hv Hm [s t -> Hin Hs Ht Hr|Hno Hst Hlen].
  - do 4 (split; [done|]). split; [done|]. split; [|split].
    + intros i Hi. unfold range in Hr. case_match; [|done]. injection Hr as <-. unfold byte.
      pose proof (vo_offset _ Hv). rewrite lookup_take_lt, lookup_drop by lia. f_equal. lia.
    + intros i. split; [by right|]. intros [Hi|]; [|done]. exists s, t. split; [done|lia].
    + intros s' t' Hin'. right. eauto.
  - destruct (store_spec e v He Hv Hm) as (p & Hst' & P1 & P2 & P3 & P4). rewrite Hst' in Hst. injection Hst as <-.
    unfold upd in *. cbn in Hlen. pose proof (vo_offset _ Hv) as Ho. pose proof (len_nonneg (v_data v)).
    destruct (merge_range_spec (ranges e) (v_offset v) (v_end v) (eo_sep _ He)) as (M1 & M2 & M3); [unfold v_end; lia|].
    do 3 (split; [done|]). split; [|split; [|split; [|split]]].
    + split; cbn; [done| | |done|done|apply He|apply He].
      * intros s t [_ [->|[s' Hs']]]%M3; [lia|]. apply (eo_ends _ He) in Hs'. lia.
      * pose proof (eo_len _ He). lia.
    + intros i (s & t & Hin & Hi). cbn. pose proof (sep_elem _ _ _ _ (eo_sep _ He) Hin). specialize (Hno _ _ Hin).
      pose proof (eo_ends _ He _ _ Hin). apply P3; lia.
    + intros i Hi. cbn. by apply P4.
    + done.
    + intros s t [Hs _]%M3. exact Hs.
Qed.

Lemma keep_header_ok e v : entry_ok e → view_ok v → entry_ok (keep_header e v).
Proof.
  intros He Hv. unfold keep_header, upd. case_match; [|done].
  split; cbn; [apply He|apply He|apply He|apply He|apply He|apply He|]. intros h [= <-]. apply Hv.
Qed.

Lemma announce_spec e v e' :
  announce e v = Some e' →
  header e' = header e ∧ payload e' = payload e ∧ ranges e' = ranges e ∧ first_seen e' = first_seen e ∧
  (if v_more v then total_len e' = total_len e
   else total_len e' = Some (v_end v) ∧ (total_len e = None ∨ total_len e = Some (v_end v))).
Proof.
  unfold announce. destruct (v_more v); [by intros [= <-]|]. destruct (total_len e) as [total|].
  - destruct (Z.eqb_spec total (v_end v)) as [->|]; [|done]. intros [= <-]. cbn. auto 10.
  - intros [= <-]. cbn. auto 10.
Qed.

Lemma announce_ok e v e' :
  entry_ok e → view_ok v → v_end v ≤ MAX_REASSEMBLED_PAYLOAD → announce e v = Some e' → entry_ok e'.
Proof.
  intros He Hv Hm (H1 & H2 & H3 & H4 & H5)%announce_spec. pose proof (vo_offset _ Hv). pose proof (len_nonneg (v_data v)).
  split; rewrite ?H1, ?H2, ?H3; try apply He. intros t Ht. destruct (v_more v).
  - rewrite H5 in Ht. by apply (eo_total _ He).
  - destruct H5 as [H5 _]. rewrite H5 in Ht. injection Ht as <-. unfold v_end in *. lia.
Qed.

(** An accepted fragment: the entry [e1] with the total and the headers known,
    and the entry with its bytes in place. *)
Record accepted (e : Entry) (v : View) (e' : Entry) : Prop := {
  ac_total : if v_more v then total_len e' = total_len e
    else total_len e' = Some (v_end v) ∧ (total_len e = None ∨ total_len e = Some (v_end v));
  ac_within t : total_len e' = Some t → v_end v ≤ t;
  ac_header : header e' = if (v_offset v =? 0) && bool_decide (header e = None) then Some (v_header v) else header e;
  ac_first : first_seen e' = first_seen e;
  ac_ok : entry_ok e';
  ac_old i : covered (ranges e) i → byte (payload e') i = byte (payload e) i;
  ac_new i : v_offset v ≤ i < v_end v → byte (payload e') i = byte (v_data v) (i - v_offset v);
  ac_covered i : covered (ranges e') i ↔ v_offset v ≤ i < v_end v ∨ covered (ranges e) i;
  ac_starts s t : (s, t) ∈ ranges e' → s = v_offset v ∨ ∃ t', (s, t') ∈ ranges e
}.

Lemma accept_total e v :
  entry_ok e → view_ok v → v_end v ≤ MAX_REASSEMBLED_PAYLOAD →
  ∃ r, accept e v = Some r ∧ ∀ e', r = Some e' → accepted e v e'.
Proof.
  intros He Hv Hm. unfold accept. destruct (announce e v) as [e1|] eqn:Ha; [|by eexists].
  pose proof (announce_ok _ _ _ He Hv Hm Ha) as H1. apply announce_spec in Ha as (A1 & A2 & A3 & A4 & A5).
  destruct (beyond e1 v) eqn:Hc; [by eexists|]. pose proof (keep_header_ok e1 v H1 Hv) as H2.
  destruct (place_total _ v H2 Hv Hm) as (r & Hr & Hp). rewrite Hr. exists r. split; [done|]. intros e' He'.
  destruct (placed_spec _ _ _ H2 Hv Hm (Hp _ He')) as (P1 & P2 & P3 & P4 & P5 & P6 & P7 & P8).
  assert (total_len (keep_header e1 v) = total_len e1 ∧ payload (keep_header e1 v) = payload e1 ∧
    ranges (keep_header e1 v) = ranges e1 ∧ first_seen (keep_header e1 v) = first_seen e1) as (K1 & K2 & K3 & K4)
    by (unfold keep_header; by destruct (_ && _)).
  rewrite K3, A3 in *. rewrite K2, A2 in P5. split; try done.
  - rewrite P2, K1. done.
  - intros t Ht. rewrite P2, K1 in Ht. unfold beyond in Hc. rewrite Ht in Hc. by apply Z.ltb_ge in Hc.
  - rewrite P1. unfold keep_header. rewrite A1. by destruct (_ && _).
  - by rewrite P3, K4, A4.
Qed.

(** ** The rebuilt frame *)

(** [out] carries [body] under the headers [head]: the length field is right,
    the fragment field clear, the header checksum valid, and the other bytes of
    the headers are those of [head]. *)
Record whole (head body out : list Z) : Prop := {
  wh_len : len out = len head + len body;
  wh_u8 : Forall in_u8 out;
  wh_body : drop (length head) out = body;
  wh_total : get_be16 out 16 = Some (len head - 14 + len body);
  wh_fragment : get_be16 out 20 = Some 0;
  wh_sum : rsum out 14 (len head) mod 65535 = 0;
  wh_head i : 0 ≤ i < len head → i < 16 ∨ 18 ≤ i < 20 ∨ 22 ≤ i < 24 ∨ 26 ≤ i → byte out i = byte head i
}.

Lemma rsum_app_l l r a b : 0 ≤ a → b ≤ len l → rsum (l ++ r) a b = rsum l a b.
Proof. intros Ha Hb. apply rsum_ext; [done|]. intros i Hi. apply byte_app_l; lia. Qed.

(** Filling in the checksum of a header of [n] bytes after the first fourteen. *)
Lemma filled_header h h' n :
  Forall in_u8 h → 34 ≤ len h ≤ 74 → len h - 14 = 4 * n →
  put h 24 (to_be16 (ipv4_header_checksum (drop 14 h))) = Some h' →
  Forall in_u8 h' ∧ rsum h' 14 (len h) mod 65535 = 0.
Proof.
  intros Hu Hl Hn Hp. unfold len in Hl, Hn.
  destruct (lookup_lt_is_Some_2 h 24) as [x Hx]; [lia|]. destruct (lookup_lt_is_Some_2 h 25) as [y Hy]; [lia|].
  assert (drop 14 h = take 10 (drop 14 h) ++ x :: y :: drop 26 h) as Hd.
  { rewrite <- (drop_S _ _ _ Hy), <- (drop_S _ _ _ Hx). change 24%nat with (14 + 10)%nat. rewrite <- drop_drop. by rewrite take_drop. }
  rewrite Hd in Hp. destruct (header_checksum_valid (take 10 (drop 14 h)) x y (drop 26 h)) as [Hc Hs].
  - rewrite length_take, length_drop. lia.
  - rewrite length_drop. exists (Z.to_nat (2 * n - 6)). lia.
  - unfold len. rewrite length_drop. lia.
  - by apply Forall_take, Forall_drop.
  - by apply Forall_drop.
  - set (c := ipv4_header_checksum _) in *.
    destruct (put_inv h 24 _ _ ltac:(lia) Hp) as (_ & _ & P2 & _). split; [apply P2; [done|by apply to_be16_u8]|].
    unfold put in Hp. change (len (to_be16 c)) with 2 in Hp. case_match; [|done]. injection Hp as <-.
    rewrite <- Hs. f_equal. unfold rsum. f_equal. change (Z.to_nat 24) with 24%nat. change (Z.to_nat (24 + 2)) with 26%nat.
    change (Z.to_nat 14) with 14%nat. rewrite drop_app_le by (rewrite length_take; lia).
    rewrite skipn_firstn_comm. change (24 - 14)%nat with 10%nat.
    apply take_ge. rewrite !length_app, length_take, !length_drop. change (length (to_be16 c)) with 2%nat. unfold len. lia.
Qed.

Lemma write_header_app head body ihl total h :
  0 ≤ ihl → 14 + ihl ≤ len head → write_header head ihl total = Some h →
  write_header (head ++ body) ihl total = Some (h ++ body).
Proof.
  intros Hi Hl. unfold write_header, ETH_HEADER_LEN.
  destruct (put head _ _) as [h1|] eqn:P1; [|done]. destruct (put h1 _ _) as [h2|] eqn:P2; [|done].
  destruct (put h2 _ _) as [h3|] eqn:P3; [|done]. destruct (range h3 _ _) as [g|] eqn:R; [|done]. intros P4.
  destruct (put_inv head (14 + 2) _ _ ltac:(lia) P1) as (_ & L1 & _). destruct (put_inv h1 (14 + 6) _ _ ltac:(lia) P2) as (_ & L2 & _).
  destruct (put_inv h2 (14 + 10) _ _ ltac:(lia) P3) as (_ & L3 & _).
  rewrite (put_app_l head body (14 + 2) _ h1 ltac:(lia) P1), (put_app_l h1 body (14 + 6) _ h2 ltac:(lia) P2).
  rewrite (put_app_l h2 body (14 + 10) _ h3 ltac:(lia) P3). rewrite range_app_l by lia. rewrite R.
  by apply put_app_l; [lia|].
Qed.

(** The fields of the headers alone. *)
Lemma write_head_spec head total :
  head_ok head → 0 ≤ total → len head - 14 + total ≤ 65535 →
  ∃ h, write_header head (len head - 14) total = Some h ∧ len h = len head ∧ Forall in_u8 h ∧
  get_be16 h 16 = Some (len head - 14 + total) ∧ get_be16 h 20 = Some 0 ∧ rsum h 14 (len head) mod 65535 = 0 ∧
  ∀ i, 0 ≤ i < len head → i < 16 ∨ 18 ≤ i < 20 ∨ 22 ≤ i < 24 ∨ 26 ≤ i → byte h i = byte head i.
Proof.
  intros [Hu Hl (b & _ & Hb)] Ht Hm. unfold write_header, ETH_HEADER_LEN.
  change (14 + 2) with 16. change (14 + 6) with 20. change (14 + 10) with 24.
  assert (wrap16 (len head - 14 + total) = len head - 14 + total) as -> by (apply Z.mod_small; unfold u16_bound; lia).
  set (tl := len head - 14 + total) in *.
  destruct (put_Some head 16 (to_be16 tl)) as [h1 P1]; [lia|change (len (to_be16 tl)) with 2; lia|].
  destruct (put_inv head 16 _ _ ltac:(lia) P1) as (_ & L1 & U1 & _).
  destruct (put_Some h1 20 [0; 0]) as [h2 P2]; [lia|change (len [0; 0]) with 2; lia|].
  destruct (put_inv h1 20 _ _ ltac:(lia) P2) as (_ & L2 & U2 & _).
  destruct (put_Some h2 24 [0; 0]) as [h3 P3]; [lia|change (len [0; 0]) with 2; lia|].
  destruct (put_inv h2 24 _ _ ltac:(lia) P3) as (_ & L3 & U3 & _). rewrite P1, P2, P3.
  assert (range h3 14 (14 + (len head - 14)) = Some (drop 14 h3)) as ->.
  { unfold range. rewrite !(proj2 (Z.leb_le _ _)) by lia. rewrite take_ge; [done|]. rewrite length_drop. unfold len in *. lia. }
  set (c := ipv4_header_checksum (drop 14 h3)).
  destruct (put_Some h3 24 (to_be16 c)) as [h4 P4]; [lia|change (len (to_be16 c)) with 2; lia|].
  destruct (put_inv h3 24 _ _ ltac:(lia) P4) as (_ & L4 & _). exists h4. split; [done|]. split; [lia|].
  assert (Forall in_u8 h3) as Hu3.
  { apply U3; [|by repeat constructor]. apply U2; [|by repeat constructor]. apply U1; [done|].
    apply to_be16_u8. unfold in_u16, u16_bound. lia. }
  destruct (filled_header h3 h4 (Z.land b 15) Hu3 ltac:(lia) ltac:(lia) P4) as [Hu4 Hs]. split; [done|].
  change (len (to_be16 c)) with 2 in *. split; [|split; [|split]].
  - rewrite (get_be16_put_out h3 24 _ h4 16), (get_be16_put_out h2 24 _ h3 16), (get_be16_put_out h1 20 _ h2 16) by (done || lia).
    by apply (get_be16_put head).
  - rewrite (get_be16_put_out h3 24 _ h4 20), (get_be16_put_out h2 24 _ h3 20) by (done || lia). by apply (get_be16_put h1 20 0).
  - by rewrite <- L1, <- L2, <- L3.
  - intros i Hi Hout. rewrite (byte_put_out h3 24 (to_be16 c) h4 i) by (done || change (len (to_be16 c)) with 2; lia).
    rewrite (byte_put_out h2 24 [0; 0] h3 i) by (done || change (len [0; 0]) with 2; lia).
    rewrite (byte_put_out h1 20 [0; 0] h2 i) by (done || change (len [0; 0]) with 2; lia).
    by rewrite (byte_put_out head 16 (to_be16 tl) h1 i) by (done || change (len (to_be16 tl)) with 2; lia).
Qed.

Lemma write_header_spec head body :
  head_ok head → Forall in_u8 body → len head - 14 + len body ≤ 65535 →
  ∃ out, write_header (head ++ body) (len head - 14) (len body) = Some out ∧ whole head body out.
Proof.
  intros Hh Hb Hm. pose proof (ho_len _ Hh) as Hl.
  destruct (write_head_spec head (len body) Hh (len_nonneg _) Hm) as (h & Hw & L & U & G1 & G2 & S & B).
  exists (h ++ body). split; [apply write_header_app; [lia|lia|done]|].
  assert (∀ i, 0 ≤ i → i + 2 ≤ len h → get_be16 (h ++ body) i = get_be16 h i) as Hget.
  { intros i Hi Hi2. unfold get_be16. by rewrite !byte_app_l by lia. }
  split.
  - unfold len in *. rewrite length_app. lia.
  - by apply Forall_app.
  - rewrite drop_app_le by (unfold len in *; lia). rewrite drop_ge by (unfold len in *; lia). done.
  - by rewrite Hget by lia.
  - by rewrite Hget by lia.
  - by rewrite rsum_app_l by lia.
  - intros i Hi Ho. rewrite byte_app_l by lia. by apply B.
Qed.

(** ** No panic, and a bounded table *)

Lemma complete_entry_spec e :
  entry_ok e → is_complete e = true →
  ∃ head total body, header e = Some head ∧ total_len e = Some total ∧ ranges e = [(0, total)] ∧
  range (payload e) 0 total = Some body ∧ len body = total ∧
  (complete_entry e = Some None ∧ 65535 < len head - 14 + total ∨
   ∃ out, complete_entry e = Some (Some out) ∧ write_header (head ++ body) (len head - 14) total = Some out ∧
   whole head body out).
Proof.
  intros He Hc. unfold is_complete in Hc. destruct (header e) as [head|] eqn:Hh; [|done].
  destruct (total_len e) as [total|] eqn:Ht; [|done]. apply bool_decide_eq_true in Hc.
  pose proof (eo_total _ He _ Ht) as Hb. pose proof (eo_head _ He _ Hh) as Hok. pose proof (ho_len _ Hok) as Hl.
  assert (total ≤ len (payload e)) as Hp by (apply (eo_ends _ He 0); rewrite Hc; apply elem_of_cons; by left).
  destruct (range_Some (payload e) 0 total) as (body & Hr & Hlb & Hu); [lia|lia|].
  exists head, total, body. do 4 (split; [done|]). split; [lia|].
  unfold complete_entry, ETH_HEADER_LEN. rewrite Hh, Ht. rewrite (proj2 (Z.ltb_ge _ _)) by lia.
  destruct (Z.ltb_spec 65535 (len head - 14 + total)); [left; split; [done|lia]|right].
  destruct (write_header_spec head body Hok) as (out & Ho & Hw); [apply Hu, He|lia|].
  unfold rebuild_frame, ETH_HEADER_LEN. rewrite Hh, Ht, Hr. rewrite (proj2 (Z.ltb_ge _ _)) by lia.
  replace (len body) with total in Ho by lia. rewrite Ho. eauto.
Qed.

Lemma new_entry_ok now : entry_ok (new_entry now).
Proof.
  split; cbn; [done|by intros ?? ?%elem_of_nil|unfold MAX_REASSEMBLED_PAYLOAD; change (len []) with 0; lia|
    by constructor|unfold MAX_RANGES; lia|done|done].
Qed.

Lemma evict_expired_lookup es now k e :
  evict_expired es now !! k = Some e ↔ es !! k = Some e ∧ saturating_sub now (first_seen e) < REASSEMBLY_TIMEOUT.
Proof. unfold evict_expired. by rewrite map_lookup_filter_Some. Qed.

Lemma evict_expired_ok es now : table_ok es → table_ok (evict_expired es now).
Proof.
  intros [Hs He]. split.
  - etrans; [|done]. apply map_subseteq_size. apply map_filter_subseteq.
  - intros k e [Hk _]%evict_expired_lookup. by apply (He k).
Qed.

Lemma delete_ok es k : table_ok es → table_ok (delete k es).
Proof.
  intros [Hs He]. split.
  - etrans; [|done]. apply map_subseteq_size, delete_subseteq.
  - intros k' e [_ Hk]%lookup_delete_Some. by apply (He k').
Qed.

(** What a push does with a fragment. *)
Inductive pushed (es : Table) (v : View) (now : Z) : Table → option (list Z) → Prop :=
| pushed_ignored : es !! v_key v = None → pushed es v now es None
| pushed_dropped : pushed es v now (delete (v_key v) es) None
| pushed_kept e :
    accepted (default (new_entry now) (es !! v_key v)) v e → is_complete e = false →
    (size (<[v_key v := e]> es) ≤ MAX_ENTRIES)%nat → pushed es v now (<[v_key v := e]> es) None
| pushed_complete e out :
    accepted (default (new_entry now) (es !! v_key v)) v e → is_complete e = true → complete_entry e = Some out →
    pushed es v now (delete (v_key v) es) out.

Lemma push_fragment_total es v now :
  table_ok es → view_ok v → ∃ es' out, push_fragment es v now = Some (es', out) ∧ pushed es v now es' out.
Proof.
  intros [Hs He] Hv. unfold push_fragment.
  destruct (Z.ltb_spec MAX_REASSEMBLED_PAYLOAD (v_end v)); [eexists _, _; split; [done|constructor]|].
  destruct (bool_decide (es !! v_key v = None) && (MAX_ENTRIES <=? size es)%nat) eqn:Hfull.
  { apply andb_true_iff in Hfull as [Hn%bool_decide_eq_true _]. eexists _, _. split; [done|by constructor]. }
  assert (entry_ok (default (new_entry now) (es !! v_key v))) as H0.
  { destruct (es !! v_key v) as [e|] eqn:Hk; [by apply (He (v_key v))|apply new_entry_ok]. }
  destruct (accept_total _ v H0 Hv) as (r & -> & Hr); [done|]. destruct r as [e|]; [|eexists _, _; split; [done|constructor]].
  specialize (Hr e eq_refl). destruct (is_complete e) eqn:Hc.
  - destruct (complete_entry_spec e (ac_ok _ _ _ Hr) Hc) as (? & ? & ? & _ & _ & _ & _ & _ & [[Ho _]|(out & Ho & _)]);
      rewrite Ho; eexists _, _; (split; [done|by eapply pushed_complete]).
  - eexists _, _. split; [done|]. apply pushed_kept; [done|done|].
    rewrite map_size_insert. destruct (es !! v_key v); [done|]. rewrite bool_decide_eq_true_2 in Hfull by done.
    apply Nat.leb_gt in Hfull. lia.
Qed.

Lemma pushed_ok es v now es' out : table_ok es → pushed es v now es' out → table_ok es'.
Proof.
  intros Hes [| |e Hacc _ Hsize|e o _ _ _]; [done|by apply delete_ok| |by apply delete_ok].
  split; [done|]. apply map_Forall_insert_2; [by apply Hacc|apply Hes].
Qed.

End Frag.
