(* ===== verification/FragmentProps.v ===== *)
(** * What reassembly guarantees

    Steps and runs of the table of [Fragment] over arbitrary frames: what its
    entries hold of the fragments that arrived, the origin of every byte of a
    reassembled frame, and that the fragments of a datagram are put together in
    whatever order they come. *)

From Stdlib Require Import ZArith Lia.
From stdpp Require Import base numbers list gmap.
From S2P Require Import Prelude Bits Checksum Bytes EthFrame Fragment.

Open Scope Z_scope.

Module FragProps.

Import Eth Frag.

(** ** Runs *)

(** Frames with the instants they arrive at. *)
Notation Arrival := (list Z * Z)%type.

Notation run := (run_with push).

(** The fragments of a datagram among the frames. *)
Definition view_of (k : Key) (a : Arrival) : option View :=
  match fragment_view a.1 with
  | Some (Some v) => if decide (v_key v = k) then Some v else None
  | _ => None
  end.
Definition views (k : Key) (fs : list Arrival) : list View := omap (view_of k) fs.

Lemma views_app k fs gs : views k (fs ++ gs) = views k fs ++ views k gs.
Proof. apply omap_app. Qed.

Lemma views_hit k frame now v : fragment_view frame = Some (Some v) → v_key v = k → views k [(frame, now)] = [v].
Proof. intros Hv Hk. unfold views, view_of. simpl. by rewrite Hv, decide_True. Qed.

Lemma views_miss k frame now v : fragment_view frame = Some (Some v) → v_key v ≠ k → views k [(frame, now)] = [].
Proof. intros Hv Hk. unfold views, view_of. simpl. by rewrite Hv, decide_False. Qed.

Lemma views_none k frame now : fragment_view frame = Some None → views k [(frame, now)] = [].
Proof. intros Hv. unfold views, view_of. simpl. by rewrite Hv. Qed.

(** ** What an entry remembers *)

(** The entry [e] holds exactly the fragments [vs], all of which agree. *)
Record entry_log (e : Entry) (vs : list View) : Prop := {
  el_agree v i : v ∈ vs → v_offset v ≤ i < v_end v →
    covered (ranges e) i ∧ byte (payload e) i = byte (v_data v) (i - v_offset v);
  el_cover i : covered (ranges e) i → ∃ v, v ∈ vs ∧ v_offset v ≤ i < v_end v;
  el_total t : total_len e = Some t → ∃ v, v ∈ vs ∧ v_more v = false ∧ v_end v = t;
  el_last v : v ∈ vs → v_more v = false → total_len e = Some (v_end v);
  el_head h : header e = Some h → ∃ v, v ∈ vs ∧ v_offset v = 0 ∧ v_header v = h;
  el_first v : v ∈ vs → v_offset v = 0 → header e ≠ None;
  el_starts s t : (s, t) ∈ ranges e → ∃ v, v ∈ vs ∧ v_offset v = s
}.

Lemma new_entry_log now : entry_log (new_entry now) [].
Proof.
  split; try done; try (by intros ?? ?%elem_of_nil); try (by intros ? ?%elem_of_nil).
  by intros i ?%covered_nil.
Qed.

Lemma accepted_log e v e' vs : entry_log e vs → accepted e v e' → entry_log e' (vs ++ [v]).
Proof.
  intros He Ha.
  assert (∀ w, w ∈ vs ++ [v] ↔ w ∈ vs ∨ w = v) as Hin.
  { intros w. by rewrite elem_of_app, list_elem_of_singleton. }
  split.
  - intros w i [Hw| ->]%Hin Hi.
    + destruct (el_agree _ _ He w i Hw Hi) as [Hc Hb]. split; [apply (ac_covered _ _ _ Ha); by right|].
      by rewrite (ac_old _ _ _ Ha).
    + split; [apply (ac_covered _ _ _ Ha); by left|by apply (ac_new _ _ _ Ha)].
  - intros i [Hi|Hi]%(ac_covered _ _ _ Ha); [exists v; split; [apply Hin; by right|done]|].
    destruct (el_cover _ _ He i Hi) as (w & Hw & Hwi). exists w. split; [apply Hin; by left|done].
  - intros t Ht. pose proof (ac_total _ _ _ Ha) as Htot. destruct (v_more v) eqn:Hm.
    + rewrite Htot in Ht. destruct (el_total _ _ He t Ht) as (w & Hw & ?). exists w. split; [apply Hin; by left|done].
    + destruct Htot as [Htot _]. rewrite Htot in Ht. injection Ht as <-. exists v. split; [apply Hin; by right|done].
  - intros w [Hw| ->]%Hin Hm; pose proof (ac_total _ _ _ Ha) as Htot.
    + pose proof (el_last _ _ He w Hw Hm) as Hl. destruct (v_more v); [by rewrite Htot|].
      destruct Htot as [Htot [?|Heq]]; congruence.
    + rewrite Hm in Htot. apply Htot.
  - intros h Hh. rewrite (ac_header _ _ _ Ha) in Hh. destruct (Z.eqb_spec (v_offset v) 0) as [H0|H0]; cbn [andb] in Hh.
    + case_bool_decide; [injection Hh as <-; exists v; split; [apply Hin; by right|done]|].
      destruct (el_head _ _ He h Hh) as (w & Hw & ?). exists w. split; [apply Hin; by left|done].
    + destruct (el_head _ _ He h Hh) as (w & Hw & ?). exists w. split; [apply Hin; by left|done].
  - intros w Hw H0. rewrite (ac_header _ _ _ Ha). apply Hin in Hw as [Hw| ->].
    + pose proof (el_first _ _ He w Hw H0). destruct (_ && _); [done|done].
    + rewrite H0. cbn [Z.eqb andb]. case_bool_decide; [done|done].
  - intros s t [-> |[t' Hs]]%(ac_starts _ _ _ Ha); [exists v; split; [apply Hin; by right|done]|].
    destruct (el_starts _ _ He s t' Hs) as (w & Hw & ?). exists w. split; [apply Hin; by left|done].
Qed.

(** Every entry of the table holds the fragments that arrived since the one that
    created it. *)
Definition table_log (es : Table) (h : list Arrival) : Prop :=
  ∀ k e, es !! k = Some e → ∃ pre frame rest,
    h = pre ++ (frame, first_seen e) :: rest ∧ views k [(frame, first_seen e)] ≠ [] ∧
    entry_log e (views k ((frame, first_seen e) :: rest)).

(** [out] is the datagram of the fragments [vs]: they agree with it wherever
    they overlap, fill it, and one of them gave the headers. *)
Record assembled (vs : list View) (out : list Z) (head body : list Z) : Prop := {
  as_whole : whole head body out;
  as_agree v i : v ∈ vs → v_offset v ≤ i < v_end v → i < len body ∧ byte body i = byte (v_data v) (i - v_offset v);
  as_cover i : 0 ≤ i < len body → ∃ v, v ∈ vs ∧ v_offset v ≤ i < v_end v;
  as_last v : v ∈ vs → v_more v = false → v_end v = len body;
  as_ends : ∃ v, v ∈ vs ∧ v_more v = false;
  as_head : ∃ v, v ∈ vs ∧ v_offset v = 0 ∧ v_header v = head
}.

(** Where a frame that comes out at [now] comes from: the fragments of one
    datagram that arrived in the last three seconds, since one of them. *)
Definition origin (h : list Arrival) (now : Z) (out : list Z) : Prop :=
  ∃ k pre frame since rest head body,
    h = pre ++ (frame, since) :: rest ∧ saturating_sub now since < REASSEMBLY_TIMEOUT ∧
    assembled (views k ((frame, since) :: rest)) out head body.

Lemma range_byte l b body i : range l 0 b = Some body → 0 ≤ i < b → byte body i = byte l i.
Proof.
  unfold range. case_match; [|done]. intros [= <-] Hi. unfold byte. rewrite drop_0, lookup_take_lt by lia. done.
Qed.

Lemma complete_assembled e vs out :
  entry_ok e → entry_log e vs → is_complete e = true → complete_entry e = Some (Some out) →
  ∃ head body, assembled vs out head body.
Proof.
  intros He Hl Hc Ho.
  destruct (complete_entry_spec e He Hc) as (head & total & body & Hh & Ht & Hr & Hb & Hlen & Hout).
  destruct Hout as [[Hn _]|(out' & Ho' & _ & Hw)]; [congruence|]. assert (out' = out) as -> by congruence.
  exists head, body. split.
  - done.
  - intros v i Hv Hi. destruct (el_agree _ _ Hl v i Hv Hi) as [(s & t & Hin & Hst) Hbyte].
    rewrite Hr in Hin. apply list_elem_of_singleton in Hin as [= -> ->]. split; [lia|].
    rewrite <- Hbyte. by apply (range_byte _ total).
  - intros i Hi. apply (el_cover _ _ Hl). rewrite Hr. exists 0, total. split; [apply elem_of_cons; by left|lia].
  - intros v Hv Hm. pose proof (el_last _ _ Hl v Hv Hm). rewrite Ht in *. congruence.
  - destruct (el_total _ _ Hl total Ht) as (v & Hv & Hm & _). eauto.
  - by apply (el_head _ _ Hl).
Qed.

(** ** Steps *)

Lemma table_log_app es h a :
  (∀ k e, es !! k = Some e → views k [a] = []) → table_log es h → table_log es (h ++ [a]).
Proof.
  intros Ha Hl k e Hk. destruct (Hl k e Hk) as (pre & frame & rest & -> & Hv & Hlog).
  exists pre, frame, (rest ++ [a]). split; [by rewrite <- app_assoc|]. split; [done|].
  rewrite app_comm_cons, views_app, (Ha k e Hk), app_nil_r. done.
Qed.

Lemma table_log_sub es es' h : es' ⊆ es → table_log es h → table_log es' h.
Proof. intros Hs Hl k e Hk. apply Hl. by eapply lookup_weaken. Qed.

Lemma accepted_since es h frame now v e :
  table_log es h → fragment_view frame = Some (Some v) →
  accepted (default (new_entry now) (es !! v_key v)) v e →
  ∃ pre frame0 rest, h ++ [(frame, now)] = pre ++ (frame0, first_seen e) :: rest ∧
    views (v_key v) [(frame0, first_seen e)] ≠ [] ∧ entry_log e (views (v_key v) ((frame0, first_seen e) :: rest)).
Proof.
  intros Hl Hv Ha. rewrite (ac_first _ _ _ Ha). pose proof (views_hit _ _ now v Hv eq_refl) as Hhit.
  destruct (es !! v_key v) as [e0|] eqn:Hk; cbn [default] in *.
  - destruct (Hl _ _ Hk) as (pre & frame0 & rest & -> & Hne & Hlog). exists pre, frame0, (rest ++ [(frame, now)]).
    split; [by rewrite <- app_assoc|]. split; [done|]. rewrite app_comm_cons, views_app, Hhit. by eapply accepted_log.
  - exists h, frame, []. cbn [first_seen new_entry]. split; [done|]. rewrite Hhit. split; [done|].
    apply (accepted_log _ _ _ [] (new_entry_log now) Ha).
Qed.

Lemma table_log_other es h frame now v :
  fragment_view frame = Some (Some v) → es !! v_key v = None → table_log es h → table_log es (h ++ [(frame, now)]).
Proof.
  intros Hv Hn. apply table_log_app. intros k e Hk. apply (views_miss k frame now v Hv). intros <-. congruence.
Qed.

Lemma push_step es h frame now :
  table_ok es → table_log es h → Forall in_u8 frame →
  ∃ es' out, push es frame now = Some (es', out) ∧ table_ok es' ∧ table_log es' (h ++ [(frame, now)]) ∧
  ∀ o, out = Some o → origin (h ++ [(frame, now)]) now o.
Proof.
  intros Hok Hlog Hf. unfold push. pose proof (evict_expired_ok es now Hok) as Hok1.
  assert (∀ k e, evict_expired es now !! k = Some e → saturating_sub now (first_seen e) < REASSEMBLY_TIMEOUT) as Hfresh
    by (intros k e [_ ?]%evict_expired_lookup; done).
  assert (table_log (evict_expired es now) h) as Hlog1 by (apply (table_log_sub es); [apply map_filter_subseteq|done]).
  generalize dependent (evict_expired es now). clear es Hok Hlog. intros es Hok Hfresh Hlog.
  destruct (fragment_view_total frame Hf) as (r & Hr & Hv). rewrite Hr. destruct r as [v|].
  - destruct (push_fragment_total es v now Hok (Hv v eq_refl)) as (es' & out & -> & Hp). exists es', out.
    split; [done|]. split; [by eapply pushed_ok|].
    assert (table_log (delete (v_key v) es) (h ++ [(frame, now)])) as Hdel.
    { apply (table_log_other _ _ _ _ v); [done|apply lookup_delete_eq|]. apply (table_log_sub es); [apply delete_subseteq|done]. }
    destruct Hp as [Hn| |e Ha Hc Hs|e o Ha Hc Ho].
    + split; [by apply (table_log_other _ _ _ _ v)|done].
    + by split.
    + split; [|done]. intros k e' Hk. destruct (decide (k = v_key v)) as [->|Hne].
      * rewrite lookup_insert_eq in Hk. injection Hk as <-. by apply (accepted_since es).
      * rewrite lookup_insert_ne in Hk by done. apply Hdel. by rewrite lookup_delete_ne.
    + split; [done|]. intros out' ->.
      destruct (accepted_since es h frame now v e Hlog Hr Ha) as (pre & frame0 & rest & Heq & _ & Hl).
      destruct (complete_assembled e _ out' (ac_ok _ _ _ Ha) Hl Hc Ho) as (head & body & Hass).
      exists (v_key v), pre, frame0, (first_seen e), rest, head, body. split; [done|]. split; [|done].
      rewrite (ac_first _ _ _ Ha). destruct (es !! v_key v) as [e0|] eqn:Hk; [by apply (Hfresh (v_key v))|].
      cbn. unfold saturating_sub, REASSEMBLY_TIMEOUT. lia.
  - exists es, None. split; [done|]. split; [done|]. split; [|done].
    apply table_log_app; [|done]. intros k e _. by apply views_none.
Qed.

Lemma empty_ok : table_ok ∅.
Proof. split; [rewrite map_size_empty; unfold MAX_ENTRIES; lia|apply map_Forall_empty]. Qed.

Lemma empty_log : table_log ∅ [].
Proof. intros k e Hk. by rewrite lookup_empty in Hk. Qed.

(** ** Fragments of one datagram *)

Lemma sep_nodup lo rs : sep lo rs → NoDup rs.*1.
Proof.
  revert lo. induction rs as [|[s e] rs IH]; intros lo; [constructor|]. cbn [sep fmap list_fmap fst].
  intros (H1 & H2 & H3). constructor; [|by apply (IH (e + 1))].
  intros ([s' e'] & -> & Hin)%list_elem_of_fmap. pose proof (sep_elem _ _ _ _ H3 Hin). cbn in *. lia.
Qed.

(** The views [us] are the fragments of the datagram [datagram]: pieces of it
    that do not overlap, fill it, and are marked as more to come except the last. *)
Record fragments_of (k : Key) (datagram : list Z) (us : list View) : Prop := {
  fo_key u : u ∈ us → v_key u = k;
  fo_ok u : u ∈ us → view_ok u;
  fo_data u : u ∈ us → v_offset u < v_end u ≤ len datagram ∧ range datagram (v_offset u) (v_end u) = Some (v_data u);
  fo_more u : u ∈ us → v_more u = (v_end u <? len datagram);
  fo_disjoint u w i : u ∈ us → w ∈ us → v_offset u ≤ i < v_end u → v_offset w ≤ i < v_end w → u = w;
  fo_cover i : 0 ≤ i < len datagram → ∃ u, u ∈ us ∧ v_offset u ≤ i < v_end u;
  fo_count : (length us ≤ MAX_RANGES)%nat;
  fo_len : 0 < len datagram ≤ MAX_REASSEMBLED_PAYLOAD
}.

Section Datagram.

Context (k : Key) (datagram : list Z) (us : list View) (Hus : fragments_of k datagram us).

Lemma us_last u : u ∈ us → v_more u = false → v_end u = len datagram.
Proof.
  intros Hu Hm. rewrite (fo_more _ _ _ Hus u Hu) in Hm. apply Z.ltb_ge in Hm.
  destruct (fo_data _ _ _ Hus u Hu). lia.
Qed.

Lemma us_byte u i : u ∈ us → v_offset u ≤ i < v_end u → byte (v_data u) (i - v_offset u) = byte datagram i.
Proof.
  intros Hu Hi. destruct (fo_data _ _ _ Hus u Hu) as [_ Hr]. pose proof (vo_offset _ (fo_ok _ _ _ Hus u Hu)).
  unfold range in Hr. case_match; [|done]. injection Hr as <-. unfold byte. rewrite lookup_take_lt, lookup_drop by lia.
  f_equal. lia.
Qed.

(** An entry that holds some of the fragments. *)
Record collecting (e : Entry) (vs : list View) : Prop := {
  co_ok : entry_ok e;
  co_log : entry_log e vs;
  co_sub v : v ∈ vs → v ∈ us
}.

Lemma collecting_hit e vs v i :
  collecting e vs → v ∈ us → v_offset v ≤ i < v_end v → covered (ranges e) i → v ∈ vs.
Proof.
  intros [_ Hl Hsub] Hv Hi (w & Hw & Hwi)%(el_cover _ _ Hl).
  by rewrite (fo_disjoint _ _ _ Hus v w i Hv (Hsub w Hw) Hi Hwi).
Qed.

Lemma collecting_range e vs s t : collecting e vs → (s, t) ∈ ranges e → s < t.
Proof.
  intros [Hok Hl Hsub] Hin. destruct (el_starts _ _ Hl s t Hin) as (w & Hw & Hs).
  destruct (fo_data _ _ _ Hus w (Hsub w Hw)) as [Hwe _].
  destruct (el_agree _ _ Hl w s Hw ltac:(lia)) as [(s' & t' & Hin' & Hst) _].
  pose proof (sep_elem _ _ _ _ (eo_sep _ Hok) Hin).
  destruct (decide (s < t)); [done|]. assert ((s, t) = (s', t')) as [= -> ->]; [|lia].
  apply (sep_same 0 (ranges e)); [apply Hok|done|done|lia|lia].
Qed.

Lemma collecting_overlap e vs v :
  collecting e vs → v ∈ us →
  overlap_loop (ranges e) (v_offset v) (v_end v) false = (bool_decide (v ∈ vs), false).
Proof.
  intros Hc Hv. pose proof (overlap_spec (ranges e) (v_offset v) (v_end v) false) as Hs.
  destruct (fo_data _ _ _ Hus v Hv) as [Hve _].
  assert (∀ s t, (s, t) ∈ ranges e → v_offset v < t → s < v_end v → v ∈ vs ∧ s ≤ v_offset v ∧ v_end v ≤ t) as Hover.
  { intros s t Hin H1 H2. pose proof (collecting_range e vs s t Hc Hin) as Hst. set (i := Z.max s (v_offset v)).
    assert (v ∈ vs) as Hvs by (apply (collecting_hit e vs v i Hc Hv); [unfold i; lia|]; exists s, t; split; [done|unfold i; lia]).
    split; [done|]. destruct (sep_contains 0 (ranges e) (v_offset v) (v_end v)) as (s' & t' & Hin' & Hs' & Ht');
      [apply Hc|lia|intros j Hj; by apply (el_agree _ _ (co_log _ _ Hc) v j Hvs)|].
    assert ((s, t) = (s', t')) as [= -> ->]; [|lia]. apply (sep_same 0 (ranges e)); [apply Hc|done|done|lia|lia]. }
  destruct (overlap_loop _ _ _ _) as [full partial]. destruct Hs as (S1 & S2 & S3 & _).
  assert (partial = false) as ->.
  { destruct partial; [|done]. destruct (S1 eq_refl) as (s & t & Hin & H1 & H2 & H3). destruct (Hover s t Hin H1 H2) as [_ ?]. lia. }
  f_equal. destruct full; symmetry.
  - destruct (S3 eq_refl) as [[=]|(s & t & Hin & H1 & H2 & _)]. apply bool_decide_eq_true. by apply (Hover s t).
  - apply bool_decide_eq_false. intros Hvs.
    destruct (el_agree _ _ (co_log _ _ Hc) v (v_offset v) Hvs ltac:(lia)) as [(s & t & Hin & Hst) _].
    destruct (S2 eq_refl eq_refl s t Hin). lia.
Qed.

Lemma place_keeps e vs v : collecting e vs → v ∈ us → ∃ e', place e v = Some (Some e').
Proof.
  intros Hc Hv. unfold place. rewrite (collecting_overlap e vs v Hc Hv).
  destruct (fo_data _ _ _ Hus v Hv) as [Hve _]. pose proof (fo_ok _ _ _ Hus v Hv) as Hvo. pose proof (vo_offset _ Hvo).
  case_bool_decide as Hin.
  - assert (range (payload e) (v_offset v) (v_end v) = Some (v_data v)) as ->; [|rewrite bool_decide_eq_true_2; [|done]; by eexists].
    destruct (el_agree _ _ (co_log _ _ Hc) v (v_end v - 1) Hin ltac:(lia)) as [(s & t & Hst & Ht) _].
    pose proof (eo_ends _ (co_ok _ _ Hc) s t Hst). unfold range. rewrite !(proj2 (Z.leb_le _ _)) by lia. cbn [andb]. f_equal.
    apply list_eq. intros j. unfold v_end, len in *. destruct (decide (j < length (v_data v))%nat).
    + rewrite lookup_take_lt, lookup_drop by lia.
      destruct (el_agree _ _ (co_log _ _ Hc) v (v_offset v + Z.of_nat j) Hin) as [_ Hb]; [unfold v_end, len; lia|].
      unfold byte in Hb. replace (Z.to_nat (v_offset v + Z.of_nat j)) with (Z.to_nat (v_offset v) + j)%nat in Hb by lia.
      rewrite Hb. f_equal. lia.
    + rewrite lookup_take_ge by lia. symmetry. apply lookup_ge_None_2. lia.
  - cbn [orb]. destruct (store_spec e v (co_ok _ _ Hc) Hvo) as (p & -> & _); [pose proof (fo_len _ _ _ Hus); lia|].
    cbv beta iota zeta. unfold upd. cbn [ranges].
    destruct (merge_range_spec (ranges e) (v_offset v) (v_end v) (eo_sep _ (co_ok _ _ Hc))) as (M1 & _ & M3); [lia|].
    rewrite (proj2 (Nat.ltb_ge _ _)); [by eexists|]. etrans; [|apply (fo_count _ _ _ Hus)].
    rewrite <- (length_fmap fst), <- (length_fmap v_offset us). apply submseteq_length, NoDup_submseteq.
    + by apply (sep_nodup 0).
    + intros s ([s' t] & -> & Hst)%list_elem_of_fmap. apply list_elem_of_fmap. destruct (M3 s' t Hst) as [[-> |[t' Hin']] _].
      * by exists v.
      * destruct (el_starts _ _ (co_log _ _ Hc) s' t' Hin') as (w & Hw & <-). exists w. split; [done|]. by apply (co_sub _ _ Hc).
Qed.

Lemma collecting_total e vs t : collecting e vs → total_len e = Some t → t = len datagram.
Proof. intros [_ Hl Hsub] (w & Hw & Hm & <-)%(el_total _ _ Hl). by apply us_last; [apply Hsub|]. Qed.

Lemma accept_keeps e vs v :
  collecting e vs → v ∈ us → ∃ e', accept e v = Some (Some e') ∧ accepted e v e' ∧ collecting e' (vs ++ [v]).
Proof.
  intros Hc Hv. pose proof (fo_ok _ _ _ Hus v Hv) as Hvo. destruct (fo_data _ _ _ Hus v Hv) as [Hve _].
  assert (v_end v ≤ MAX_REASSEMBLED_PAYLOAD) as Hmax by (pose proof (fo_len _ _ _ Hus); lia).
  assert (∃ e', accept e v = Some (Some e')) as [e' He'].
  { unfold accept. destruct (announce e v) as [e1|] eqn:Ha.
    - pose proof (announce_ok _ _ _ (co_ok _ _ Hc) Hvo Hmax Ha) as Hok1. apply announce_spec in Ha as (A1 & A2 & A3 & A4 & A5).
      assert (beyond e1 v = false) as ->.
      { unfold beyond. destruct (total_len e1) as [t|] eqn:Ht; [|done]. apply Z.ltb_ge. destruct (v_more v).
        - rewrite (collecting_total e vs t Hc) by congruence. lia.
        - destruct A5 as [[= ->] _]. lia. }
      assert (ranges (keep_header e1 v) = ranges e ∧ payload (keep_header e1 v) = payload e) as [R1 R2].
      { unfold keep_header. rewrite <- A2, <- A3. by destruct (_ && _). }
      destruct (place_keeps e vs v Hc Hv) as [e' He']. unfold place, store in *. rewrite R1, R2.
      destruct (overlap_loop _ _ _ _) as [full partial]. destruct full.
      + destruct (range _ _ _); [|done]. cbv beta iota in *. destruct (partial || _); [done|]. by eexists.
      + destruct partial; [done|]. cbn [orb] in *. destruct (put _ _ _); [|done]. unfold upd in *. cbn [ranges] in *.
        destruct (_ <? _)%nat; [done|]. by eexists.
    - unfold announce in Ha. destruct (v_more v) eqn:Hm; [done|]. destruct (total_len e) as [t|] eqn:Ht; [|done].
      rewrite (collecting_total e vs t Hc Ht), (us_last v Hv Hm), Z.eqb_refl in Ha. done. }
  exists e'. destruct (accept_total e v (co_ok _ _ Hc) Hvo Hmax) as (r & Hr & Hacc).
  assert (accepted e v e') as Ha by (apply Hacc; congruence). split; [done|]. split; [done|].
  split; [apply Ha|by eapply accepted_log; [apply Hc|]|].
  intros w [Hw| ->%list_elem_of_singleton]%elem_of_app; [by apply (co_sub _ _ Hc)|done].
Qed.

Lemma is_complete_iff e vs : collecting e vs → is_complete e = true ↔ ∀ u, u ∈ us → u ∈ vs.
Proof.
  intros Hc. pose proof (fo_len _ _ _ Hus) as Hlen. unfold is_complete. split.
  - destruct (header e); [|done]. destruct (total_len e) as [t|] eqn:Ht; [|done]. intros Hr%bool_decide_eq_true u Hu.
    rewrite (collecting_total e vs t Hc Ht) in Hr. destruct (fo_data _ _ _ Hus u Hu) as [Hue _].
    pose proof (vo_offset _ (fo_ok _ _ _ Hus u Hu)).
    apply (collecting_hit e vs u (v_offset u) Hc Hu); [lia|]. rewrite Hr. exists 0, (len datagram).
    split; [apply elem_of_cons; by left|lia].
  - intros Hall. destruct (fo_cover _ _ _ Hus 0) as (u0 & Hu0 & H0); [lia|].
    pose proof (vo_offset _ (fo_ok _ _ _ Hus u0 Hu0)).
    pose proof (el_first _ _ (co_log _ _ Hc) u0 (Hall _ Hu0) ltac:(lia)) as Hh. destruct (header e); [|done].
    destruct (fo_cover _ _ _ Hus (len datagram - 1)) as (u1 & Hu1 & H1); [lia|].
    destruct (fo_data _ _ _ Hus u1 Hu1) as [Hue _].
    rewrite (el_last _ _ (co_log _ _ Hc) u1 (Hall _ Hu1)).
    2: { rewrite (fo_more _ _ _ Hus u1 Hu1). apply Z.ltb_ge. lia. }
    replace (v_end u1) with (len datagram) by lia. apply bool_decide_eq_true.
    apply sep_whole; [apply Hc|lia| |].
    + intros i. split.
      * intros (w & Hw & Hwi)%(el_cover _ _ (co_log _ _ Hc)). apply (co_sub _ _ Hc) in Hw.
        destruct (fo_data _ _ _ Hus w Hw). pose proof (vo_offset _ (fo_ok _ _ _ Hus w Hw)). lia.
      * intros Hi. destruct (fo_cover _ _ _ Hus i Hi) as (w & Hw & Hwi).
        by apply (el_agree _ _ (co_log _ _ Hc) w i (Hall _ Hw)).
    + intros s t (w & Hw & <-)%(el_starts _ _ (co_log _ _ Hc)). apply (co_sub _ _ Hc) in Hw.
      destruct (fo_data _ _ _ Hus w Hw). lia.
Qed.

(** The first fragment, whose headers the datagram gets. *)
Context (u0 : View) (Hu0 : u0 ∈ us) (Hfirst : v_offset u0 = 0).
Context (Hfits : len (v_header u0) - 14 + len datagram ≤ 65535).

Lemma complete_is_datagram e vs :
  collecting e vs → is_complete e = true →
  ∃ out, complete_entry e = Some (Some out) ∧ whole (v_header u0) datagram out ∧
  write_header (v_header u0 ++ datagram) (len (v_header u0) - 14) (len datagram) = Some out.
Proof.
  intros Hc Hcomp. pose proof (fo_len _ _ _ Hus) as Hlen.
  destruct (complete_entry_spec e (co_ok _ _ Hc) Hcomp) as (head & total & body & Hh & Ht & Hr & Hb & Hlb & Hout).
  pose proof (collecting_total e vs total Hc Ht) as ->.
  assert (head = v_header u0) as ->.
  { destruct (el_head _ _ (co_log _ _ Hc) head Hh) as (w & Hw & H0 & <-). apply (co_sub _ _ Hc) in Hw.
    destruct (fo_data _ _ _ Hus w Hw). destruct (fo_data _ _ _ Hus u0 Hu0).
    by rewrite (fo_disjoint _ _ _ Hus w u0 0) by (done || lia). }
  assert (body = datagram) as ->.
  { apply list_eq. intros j. destruct (decide (j < length datagram)%nat) as [Hj|Hj].
    - destruct (fo_cover _ _ _ Hus (Z.of_nat j)) as (u & Hu & Hui); [unfold len; lia|].
      assert (u ∈ vs) as Huv by (by apply (is_complete_iff e vs Hc)).
      destruct (el_agree _ _ (co_log _ _ Hc) u (Z.of_nat j) Huv Hui) as [_ Hby]. rewrite (us_byte u _ Hu Hui) in Hby.
      rewrite <- (range_byte _ _ _ (Z.of_nat j) Hb) in Hby by (unfold len; lia). unfold byte in Hby. by rewrite Nat2Z.id in Hby.
    - rewrite !lookup_ge_None_2; [done|lia|unfold len in *; lia]. }
  destruct Hout as [[_ ?]|(out & Ho & Hw & Hwh)]; [lia|]. eauto.
Qed.

(** A fragment of the datagram arrives. *)
Lemma push_ours es frame now v e vs :
  fragment_view frame = Some (Some v) → v ∈ us →
  e = default (new_entry now) (evict_expired es now !! k) →
  (evict_expired es now !! k = None → (size (evict_expired es now) < MAX_ENTRIES)%nat) → collecting e vs →
  ∃ e', collecting e' (vs ++ [v]) ∧ first_seen e' = first_seen e ∧
  if is_complete e'
  then ∃ out, push es frame now = Some (delete k (evict_expired es now), Some out) ∧
    whole (v_header u0) datagram out ∧
    write_header (v_header u0 ++ datagram) (len (v_header u0) - 14) (len datagram) = Some out
  else push es frame now = Some (<[k := e']> (evict_expired es now), None).
Proof.
  intros Hv Hin He Hroom Hc. destruct (accept_keeps e vs v Hc Hin) as (e' & Hacc & Ha & Hc').
  exists e'. split; [done|]. split; [apply Ha|].
  assert (push es frame now = if is_complete e'
    then let! out := complete_entry e' in Some (delete k (evict_expired es now), out)
    else Some (<[k := e']> (evict_expired es now), None)) as ->.
  { unfold push, push_fragment. rewrite Hv, (fo_key _ _ _ Hus v Hin). destruct (fo_data _ _ _ Hus v Hin) as [Hve _].
    rewrite (proj2 (Z.ltb_ge _ _)) by (pose proof (fo_len _ _ _ Hus); lia). rewrite <- He, Hacc.
    case_bool_decide as Hn; [|done]. cbn [andb]. rewrite (proj2 (Nat.leb_gt _ _)); [done|by apply Hroom]. }
  destruct (is_complete e') eqn:Hcomp; [|done].
  destruct (complete_is_datagram e' _ Hc' Hcomp) as (out & -> & Hw). eauto.
Qed.

(** Any other frame arrives. *)
Lemma push_other es frame now :
  table_ok es → Forall in_u8 frame → view_of k (frame, now) = None →
  ∃ es' out, push es frame now = Some (es', out) ∧ table_ok es' ∧ es' !! k = evict_expired es now !! k.
Proof.
  intros Hok Hf Hno. unfold push. pose proof (evict_expired_ok es now Hok) as Hok1.
  destruct (fragment_view_total frame Hf) as (r & Hr & Hv). unfold view_of in Hno. cbn [fst] in Hno. rewrite Hr in *.
  destruct r as [v|]; [|by eexists _, _]. destruct (decide (v_key v = k)) as [|Hne]; [done|].
  destruct (push_fragment_total _ v now Hok1 (Hv v eq_refl)) as (es' & out & -> & Hp). exists es', out.
  split; [done|]. split; [by eapply pushed_ok|].
  destruct Hp; [done|by rewrite lookup_delete_ne|by rewrite lookup_insert_ne|by rewrite lookup_delete_ne].
Qed.

(** The entry of the datagram holds the fragments [vs] since [t0]. *)
Definition waiting (es : Table) (vs : list View) (t0 : Z) : Prop :=
  table_ok es ∧ ∃ e, es !! k = Some e ∧ first_seen e = t0 ∧ collecting e vs.

Lemma waiting_fresh es vs t0 now :
  waiting es vs t0 → now < t0 + REASSEMBLY_TIMEOUT →
  table_ok (evict_expired es now) ∧ ∃ e, evict_expired es now !! k = Some e ∧ first_seen e = t0 ∧ collecting e vs.
Proof.
  intros (Hok & e & Hk & Ht & Hc) Hn. split; [by apply evict_expired_ok|]. exists e.
  split; [|done]. apply evict_expired_lookup. split; [done|]. unfold saturating_sub, REASSEMBLY_TIMEOUT in *. lia.
Qed.

Lemma view_of_views a v : view_of k a = Some v → views k [a] = [v] ∧ fragment_view a.1 = Some (Some v).
Proof.
  intros Ha. unfold views. simpl. rewrite Ha. split; [done|]. unfold view_of in Ha.
  destruct (fragment_view a.1) as [[w|]|]; [|done|done]. case_decide; [|done]. congruence.
Qed.

Lemma table_ok_insert es e : table_ok es → es !! k ≠ None ∨ (size es < MAX_ENTRIES)%nat → entry_ok e → table_ok (<[k := e]> es).
Proof.
  intros [Hs He] Hr Ho. split; [|by apply map_Forall_insert_2].
  rewrite map_size_insert. destruct (es !! k); [done|]. destruct Hr; [done|lia].
Qed.

(** One arrival that does not complete the datagram. *)
Lemma waiting_step es vs t0 a :
  waiting es vs t0 → Forall in_u8 a.1 → a.2 < t0 + REASSEMBLY_TIMEOUT → (∀ v, v ∈ views k [a] → v ∈ us) →
  (∃ u, u ∈ us ∧ u ∉ vs ++ views k [a]) →
  ∃ es' out, push es a.1 a.2 = Some (es', out) ∧ waiting es' (vs ++ views k [a]) t0 ∧ (view_of k a ≠ None → out = None).
Proof.
  intros Hw Hf Ht Hsub (u & Hu & Hno). destruct a as [frame now]. cbn [fst snd] in *.
  destruct (waiting_fresh es vs t0 now Hw Ht) as (Hok1 & e & Hk & Hse & Hc).
  destruct (view_of k (frame, now)) as [v|] eqn:Hv.
  - destruct (view_of_views _ _ Hv) as [Hvs Hfv]. rewrite Hvs in *. cbn [fst] in Hfv.
    destruct (push_ours es frame now v e vs) as (e' & Hc' & Hse' & Hp); [done|apply Hsub, elem_of_cons; by left|by rewrite Hk|congruence|done|].
    destruct (is_complete e') eqn:Hcomp.
    { destruct Hno. by apply (is_complete_iff e' (vs ++ [v]) Hc'). }
    eexists _, _. split; [done|]. split; [|done]. split; [apply table_ok_insert; [done|left; congruence|apply Hc']|].
    exists e'. rewrite lookup_insert_eq. split; [done|]. split; [congruence|done].
  - destruct (push_other es frame now) as (es' & out & Hp & Hok' & Hk'); [apply Hw|done|done|].
    exists es', out. split; [done|]. split; [|done]. unfold views at 1. simpl. rewrite Hv, app_nil_r.
    split; [done|]. exists e. by rewrite Hk'.
Qed.

Lemma run_waiting es vs t0 fs :
  waiting es vs t0 → Forall (λ a, Forall in_u8 a.1 ∧ a.2 < t0 + REASSEMBLY_TIMEOUT) fs →
  (∀ v, v ∈ views k fs → v ∈ us) → (∃ u, u ∈ us ∧ u ∉ vs ++ views k fs) →
  ∃ es' outs, run es fs = Some (es', outs) ∧ waiting es' (vs ++ views k fs) t0 ∧
  ∀ i a, fs !! i = Some a → view_of k a ≠ None → outs !! i = Some None.
Proof.
  revert es vs. induction fs as [|a fs IH]; intros es vs Hw Hf Hsub (u & Hu & Hno).
  { exists es, []. unfold views. simpl. rewrite app_nil_r. done. }
  apply Forall_cons in Hf as [[Hf1 Ht] Hf2]. change (a :: fs) with ([a] ++ fs) in *. rewrite views_app in *.
  rewrite app_assoc in *. rewrite elem_of_app in Hno.
  destruct (waiting_step es vs t0 a) as (es1 & out & Hp & Hw1 & Ho); [done|done|done| | |].
  { intros v Hv. apply Hsub, elem_of_app. by left. }
  { exists u. split; [done|]. intros ?. apply Hno. by left. }
  destruct (IH es1 (vs ++ views k [a]) Hw1 Hf2) as (es2 & outs & Hr & Hw2 & Hos).
  { intros v Hv. apply Hsub, elem_of_app. by right. }
  { exists u. split; [done|]. by rewrite elem_of_app. }
  destruct a as [frame now]. cbn [fst snd] in Hp.
  exists es2, (out :: outs). cbn [app run]. rewrite Hp, Hr. split; [done|]. split; [done|].
  intros [|i] b; cbn [lookup list_lookup]; [intros [= <-] Hb; f_equal; by apply Ho|by apply Hos].
Qed.

Lemma first_arrives es first t0 v :
  table_ok es → es !! k = None → (size es < MAX_ENTRIES)%nat → view_of k (first, t0) = Some v → v ∈ us →
  (∃ u, u ∈ us ∧ u ≠ v) → ∃ es', push es first t0 = Some (es', None) ∧ waiting es' [v] t0.
Proof.
  intros Hok Hnone Hsize Hv Hvu (u & Hu & Hne). destruct (view_of_views _ _ Hv) as [_ Hfv]. cbn [fst] in Hfv.
  assert (evict_expired es t0 !! k = None) as Hnone1.
  { destruct (evict_expired es t0 !! k) as [e|] eqn:He; [|done]. apply evict_expired_lookup in He as [He _]. congruence. }
  assert (size (evict_expired es t0) ≤ size es)%nat as Hsz by (apply map_subseteq_size, map_filter_subseteq).
  destruct (push_ours es first t0 v (new_entry t0) []) as (e1 & Hc1 & Hs1 & Hp1);
    [done|done|by rewrite Hnone1|intros _; lia|split; [apply new_entry_ok|apply new_entry_log|by intros ? ?%elem_of_nil]|].
  destruct (is_complete e1) eqn:Hcomp.
  { pose proof (proj1 (is_complete_iff e1 ([] ++ [v]) Hc1) Hcomp u Hu) as Hin. by apply list_elem_of_singleton in Hin. }
  eexists. split; [done|]. split; [apply table_ok_insert; [by apply evict_expired_ok|right; lia|apply Hc1]|].
  exists e1. by rewrite lookup_insert_eq.
Qed.

Lemma last_arrives es vs t0 frame now w :
  waiting es vs t0 → now < t0 + REASSEMBLY_TIMEOUT → view_of k (frame, now) = Some w → w ∈ us →
  (∀ u, u ∈ us → u ∈ vs ++ [w]) →
  ∃ es' out, push es frame now = Some (es', Some out) ∧ es' !! k = None ∧
  write_header (v_header u0 ++ datagram) (len (v_header u0) - 14) (len datagram) = Some out.
Proof.
  intros Hw Ht Hv Hwu Hall. destruct (waiting_fresh es vs t0 now Hw Ht) as (Hok & e & Hk & _ & Hc).
  destruct (view_of_views _ _ Hv) as [_ Hfv]. cbn [fst] in Hfv.
  destruct (push_ours es frame now w e vs) as (e' & Hc' & _ & Hp); [done|done|by rewrite Hk|congruence|done|].
  rewrite (proj2 (is_complete_iff e' _ Hc')) in Hp by done. destruct Hp as (out & Hp & _ & Hwr).
  eexists _, out. split; [done|]. split; [apply lookup_delete_eq|done].
Qed.

End Datagram.

(** Between the first fragment and the one that completes the datagram other
    frames may arrive, also fragments of other datagrams and repeated ones. *)
Lemma fragments_reassemble k datagram us u0 es first t0 fs frame now :
  fragments_of k datagram us → u0 ∈ us → v_offset u0 = 0 → len (v_header u0) - 14 + len datagram ≤ 65535 →
  table_ok es → es !! k = None → (size es < MAX_ENTRIES)%nat →
  Forall (λ a, Forall in_u8 a.1 ∧ a.2 < t0 + REASSEMBLY_TIMEOUT) ((first, t0) :: fs ++ [(frame, now)]) →
  view_of k (first, t0) ≠ None → (∀ v, v ∈ views k ((first, t0) :: fs ++ [(frame, now)]) → v ∈ us) →
  (∀ u, u ∈ us → u ∈ views k ((first, t0) :: fs ++ [(frame, now)])) →
  (∃ u, u ∈ us ∧ u ∉ views k ((first, t0) :: fs)) →
  ∃ es1 outs es2 out, run es ((first, t0) :: fs) = Some (es1, outs) ∧
  push es1 frame now = Some (es2, Some out) ∧ es2 !! k = None ∧
  write_header (v_header u0 ++ datagram) (len (v_header u0) - 14) (len datagram) = Some out ∧
  ∀ i a, ((first, t0) :: fs) !! i = Some a → view_of k a ≠ None → outs !! i = Some None.
Proof.
  intros Hus Hu0 H0 Hfits Hok Hnone Hsize Hf Hfirst Hsub Hall (u & Hu & Hno).
  destruct (view_of k (first, t0)) as [v|] eqn:Hv; [|done]. destruct (view_of_views _ _ _ Hv) as [Hvs Hfv]. cbn [fst] in Hfv.
  assert (∀ gs, views k ((first, t0) :: gs) = v :: views k gs) as Hcons.
  { intros gs. change ((first, t0) :: gs) with ([(first, t0)] ++ gs). by rewrite views_app, Hvs. }
  rewrite Hcons in Hsub, Hno. setoid_rewrite Hcons in Hall. rewrite views_app in Hsub. setoid_rewrite views_app in Hall.
  apply Forall_cons in Hf as [[Hf0 _] [Hf [[Hfl Htl] _]%Forall_cons]%Forall_app]. cbn [fst snd] in *.
  assert (v ∈ us) as Hvu by (apply Hsub, elem_of_cons; by left).
  destruct (first_arrives k datagram us Hus u0 Hu0 H0 Hfits es first t0 v) as (es1 & Hp1 & Hw1); try done.
  { exists u. split; [done|]. intros ->. apply Hno, elem_of_cons. by left. }
  destruct (run_waiting k datagram us Hus u0 Hu0 H0 Hfits es1 [v] t0 fs) as (es2 & outs & Hr & Hw2 & Hos); [done|done| |by exists u|].
  { intros w Hw. apply Hsub, elem_of_cons. right. apply elem_of_app. by left. }
  assert (u ∈ views k [(frame, now)]) as Hul.
  { specialize (Hall u Hu). rewrite elem_of_cons, elem_of_app in Hall. rewrite elem_of_cons in Hno. tauto. }
  destruct (view_of k (frame, now)) as [w|] eqn:Hvw; [|unfold views in Hul; simpl in Hul; rewrite Hvw in Hul; by apply elem_of_nil in Hul].
  destruct (view_of_views _ _ _ Hvw) as [Hws _]. rewrite Hws in *. apply list_elem_of_singleton in Hul as ->.
  destruct (last_arrives k datagram us Hus u0 Hu0 H0 Hfits es2 ([v] ++ views k fs) t0 frame now w) as (es3 & out & Hp3 & Hn & Hwr); try done.
  exists es2, (None :: outs), es3, out. cbn [run_with]. rewrite Hp1, Hr. do 4 (split; [done|]).
  intros [|i] a; cbn [lookup list_lookup]; [done|apply Hos].
Qed.

End FragProps.
