(* ===== verification/UdpFrag.v ===== *)
(** * UDP datagrams through the reassembler

    The frames the builder of [EthFrame] makes of a datagram larger than the MTU,
    sent in any order into the reassembler of [Fragment]. *)

From Stdlib Require Import ZArith Lia.
From stdpp Require Import base numbers list gmap.
From S2P Require Import Prelude Bits Checksum Bytes EthFrame Fragment FragmentProps.

Open Scope Z_scope.

Module UdpFrag.

Import Eth Frag FragProps.

(** ** Frames as the reassembler reads them *)

Lemma flags_word_eq offset more :
  0 ≤ offset < 65536 → flags_word offset more = Z.b2z more * 2 ^ 13 + offset / 8.
Proof.
  intros Ho. unfold flags_word. rewrite Z.shiftl_mul_pow2 by lia.
  assert (0 ≤ offset / 8 < 2 ^ 13) as Hb by (Z.to_euclidean_division_equations; lia).
  unfold wrap16, u16_bound. rewrite Z.mod_small by lia. by apply lor_add.
Qed.

Lemma land_bit z n : 0 ≤ n → negb (Z.land z (2 ^ n) =? 0) = Z.testbit z n.
Proof.
  intros Hn. destruct (Z.testbit z n) eqn:Hb.
  - apply negb_true_iff, Z.eqb_neq. intros H0. apply (f_equal (λ z, Z.testbit z n)) in H0.
    by rewrite Z.land_spec, Hb, Z.pow2_bits_true, Z.bits_0 in H0.
  - apply negb_false_iff, Z.eqb_eq, Z.bits_inj. intros m. rewrite Z.land_spec, Z.bits_0, Z.pow2_bits_eqb by done.
    destruct (Z.eqb_spec n m) as [<- |]; [by rewrite Hb|by rewrite andb_false_r].
Qed.

Lemma flags_word_more offset more :
  0 ≤ offset < 65536 → negb (Z.land (flags_word offset more) 0x2000 =? 0) = more.
Proof.
  intros Ho. rewrite flags_word_eq by done. change 0x2000 with (2 ^ 13). rewrite land_bit by lia.
  apply Z.b2z_inj. rewrite Z.testbit_spec' by lia. rewrite Z.div_add_l by lia.
  assert (offset / 8 / 2 ^ 13 = 0) as -> by (Z.to_euclidean_division_equations; lia). by destruct more.
Qed.

Lemma flags_word_offset offset more :
  0 ≤ offset < 65536 → offset mod 8 = 0 → Z.land (flags_word offset more) 0x1FFF * 8 = offset.
Proof.
  intros Ho H8. rewrite flags_word_eq by done. change 0x1FFF with (2 ^ 13 - 1). rewrite land_low by lia.
  rewrite Z.add_comm, Z.mod_add by lia. rewrite Z.mod_small by (Z.to_euclidean_division_equations; lia).
  pose proof (Z.div_mod offset 8). lia.
Qed.

Lemma frame_head_fields src dst id offset more n src_mac dst_mac :
  length src_mac = 6%nat → length dst_mac = 6%nat → 0 ≤ n ≤ 65515 →
  let h := frame_head src dst id offset more n src_mac dst_mac in
  byte h 14 = Some 0x45 ∧ get_be16 h 16 = Some (20 + n) ∧ get_be16 h 20 = Some (flags_word offset more) ∧
  key_of h = Some (src, dst, 17, id).
Proof.
  intros Hs Hd Hn h. assert (wrap16 (20 + n) = 20 + n) as Hw by (apply Z.mod_small; unfold u16_bound; lia).
  unfold h, frame_head. rewrite Hw.
  do 6 (destruct src_mac as [|? src_mac]; [done|]). destruct src_mac; [|done].
  do 6 (destruct dst_mac as [|? dst_mac]; [done|]). destruct dst_mac; [|done].
  unfold ip_header. generalize (ip_header_sum (20 + n) id (flags_word offset more) src dst). intros c.
  generalize (flags_word offset more). intros fl. generalize (20 + n). intros tl.
  unfold key_of, get_be16, get_ip, byte, to_be16, octets.
  change (Z.to_nat ETH_HEADER_LEN) with 14%nat. cbn [app drop].
  split; [reflexivity|]. split; [rewrite <- (be16_to tl) at 3; reflexivity|]. split; [rewrite <- (be16_to fl) at 3; reflexivity|].
  rewrite <- (be16_to id) at 3. by destruct src, dst.
Qed.

(** The headers of the first fragment, rewritten for the whole datagram, are
    those of a frame that carries all of it. *)
Lemma write_frame_head src dst id more n total src_mac dst_mac :
  length src_mac = 6%nat → length dst_mac = 6%nat →
  write_header (frame_head src dst id 0 more n src_mac dst_mac) 20 total =
  Some (frame_head src dst id 0 false total src_mac dst_mac).
Proof.
  intros Hs Hd. unfold write_header, frame_head, ip_header_sum, ip_header, ETH_HEADER_LEN.
  change (flags_word 0 false) with 0. set (tl := wrap16 (20 + total)).
  do 6 (destruct src_mac as [|? src_mac]; [done|]). destruct src_mac; [|done].
  do 6 (destruct dst_mac as [|? dst_mac]; [done|]). destruct dst_mac; [|done].
  match goal with |- context [to_be16 (ipv4_header_checksum ?l) ++ _ ++ _] => generalize (ipv4_header_checksum l) at 1 end.
  generalize (wrap16 (20 + n)) (flags_word 0 more). intros n' fl c. clearbody tl.
  destruct src as [s0 s1 s2 s3], dst as [d0 d1 d2 d3]. unfold to_be16, octets. cbn [ip0 ip1 ip2 ip3].
  change (0 / 256) with 0. change (0 mod 256) with 0.
  generalize (tl / 256) (tl mod 256) (id / 256) (id mod 256) (fl / 256) (fl mod 256) (n' / 256) (n' mod 256) (c / 256) (c mod 256).
  intros. cbn [app].
  do 3 (match goal with |- context [put ?l ?a ?b] => let r := eval cbv in (put l a b) in change (put l a b) with r end; cbv beta iota).
  match goal with |- context [range ?l ?a ?b] => let r := eval cbv in (range l a b) in change (range l a b) with r end. cbv beta iota.
  match goal with |- context [ipv4_header_checksum ?l / 256] => generalize (ipv4_header_checksum l) end. intros c'.
  generalize (c' / 256) (c' mod 256). intros. reflexivity.
Qed.

Section Frames.

Context (src dst : Ipv4) (id : Z) (src_mac dst_mac : list Z).
Context (Hsrc : ip_ok src) (Hdst : ip_ok dst) (Hid : in_u16 id) (Hsm : mac_ok src_mac) (Hdm : mac_ok dst_mac).

Lemma frame_head_len offset more n : len (frame_head src dst id offset more n src_mac dst_mac) = 34.
Proof.
  destruct Hsm as [Hs _], Hdm as [Hd _]. unfold frame_head, len. rewrite !length_app, Hs, Hd. done.
Qed.

Lemma frame_head_u8 offset more n :
  0 ≤ offset < 65536 → Forall in_u8 (frame_head src dst id offset more n src_mac dst_mac).
Proof.
  intros Ho. destruct Hsm as [_ Hs], Hdm as [_ Hd], Hsrc as (? & ? & ? & ?), Hdst as (? & ? & ? & ?).
  assert (in_u16 (flags_word offset more)) as Hf.
  { rewrite flags_word_eq by done. unfold in_u16, u16_bound. destruct more; cbn [Z.b2z]; Z.to_euclidean_division_equations; lia. }
  assert (in_u16 (ip_header_sum (wrap16 (20 + n)) id (flags_word offset more) src dst)) as Hc.
  { unfold ip_header_sum, ipv4_header_checksum. destruct (words_loop _ _ _ _). apply in_u16_wrap. }
  unfold frame_head, ip_header. rewrite !Forall_app. do 2 (split; [done|]).
  split; [by repeat constructor|]. split; [by repeat constructor|]. split; [apply to_be16_u8, in_u16_wrap|].
  do 2 (split; [by apply to_be16_u8|]). split; [by repeat constructor|]. split; [by apply to_be16_u8|].
  unfold octets. split; repeat (apply Forall_cons; split); done || apply Forall_nil_2.
Qed.

(** The frame of a piece of the datagram at [offset]. *)
Lemma frame_view offset more part :
  0 ≤ offset < 65536 → offset mod 8 = 0 → 20 + len part ≤ 65535 → (more = true → 0 < len part ∧ len part mod 8 = 0) →
  fragment_view (frame_of src dst id offset more part src_mac dst_mac) =
  Some (Some (MkView (src, dst, 17, id) offset more part (frame_head src dst id offset more (len part) src_mac dst_mac))).
Proof.
  intros Ho H8 Hl Hm. unfold frame_of. pose proof (frame_head_len offset more (len part)) as Hhl.
  pose proof (len_nonneg part) as Hp. set (h := frame_head _ _ _ _ _ _ _ _) in *.
  assert (len (h ++ part) = 34 + len part) as Hlen by (unfold len in *; rewrite length_app; lia).
  assert (byte h 14 = Some 0x45 ∧ get_be16 h 16 = Some (20 + len part) ∧ get_be16 h 20 = Some (flags_word offset more) ∧
    key_of h = Some (src, dst, 17, id)) as (G1 & G2 & G3 & G4).
  { apply frame_head_fields; [apply Hsm|apply Hdm|lia]. }
  unfold fragment_view, ETH_HEADER_LEN. rewrite (proj2 (Z.ltb_ge _ _)) by lia.
  change (14 + 2) with 16. change (14 + 6) with 20.
  assert (∀ i, 0 ≤ i → i + 2 ≤ 34 → get_be16 (h ++ part) i = get_be16 h i) as Hget.
  { intros i Hi Hi2. unfold get_be16. by rewrite !byte_app_l by lia. }
  rewrite byte_app_l, G1 by lia. cbv beta iota. change (Z.land 69 15 * 4) with 20.
  rewrite (Hget 16), G2 by lia. cbv beta iota. rewrite (Hget 20), G3 by lia.
  change (20 <? 20) with false. rewrite !(proj2 (Z.ltb_ge _ _)) by lia. cbn [orb].
  replace (range (h ++ part) (14 + 20) (14 + (20 + len part))) with (Some part).
  2: { rewrite <- (range_all h part). rewrite Hlen, Hhl. f_equal. lia. }
  cbv beta iota. rewrite flags_word_more, flags_word_offset by done.
  assert (more && ((len part =? 0) || negb (len part mod 8 =? 0)) = false) as ->.
  { destruct more; [|done]. destruct (Hm eq_refl) as [H1 H2]. rewrite H2. destruct (Z.eqb_spec (len part) 0); [lia|done]. }
  assert (key_of (h ++ part) = key_of h) as ->.
  { unfold key_of, ETH_HEADER_LEN. rewrite drop_app_le by (unfold len in *; lia).
    assert (20 ≤ len (drop (Z.to_nat 14) h)) by (unfold len in *; rewrite length_drop; lia).
    unfold get_ip, get_be16. by rewrite !byte_app_l by lia. }
  rewrite G4. cbv beta iota. change (14 + 20) with 34. rewrite range_app_l by lia.
  assert (range h 0 34 = Some h) as ->; [|done].
  unfold range. rewrite Hhl. cbn [Z.leb andb]. rewrite drop_0, take_ge by (unfold len in *; lia). done.
Qed.

Context (datagram : list Z) (mtu : Z).
Context (Hdg : Forall in_u8 datagram) (Hlen : 0 < len datagram ≤ 65515) (Hmtu : 36 ≤ mtu < 2 ^ 64).

Definition chunk : Z := Z.land (mtu - 20) (not64 7).

Lemma chunk_bounds : chunk mod 8 = 0 ∧ 16 ≤ chunk ≤ mtu - 20.
Proof.
  unfold chunk. change (not64 7) with (2 ^ 64 - 2 ^ 3). rewrite land_high by lia.
  rewrite Z.mod_mul by lia. Z.to_euclidean_division_equations. lia.
Qed.

Definition piece (i : nat) : list Z := take (Z.to_nat chunk) (drop (i * Z.to_nat chunk) datagram).
Definition uview (i : nat) : View :=
  let offset := Z.of_nat i * chunk in
  let more := offset + len (piece i) <? len datagram in
  MkView (src, dst, 17, id) offset more (piece i) (frame_head src dst id offset more (len (piece i)) src_mac dst_mac).

Lemma piece_len i : Z.of_nat i * chunk < len datagram → len (piece i) = Z.min chunk (len datagram - Z.of_nat i * chunk).
Proof. intros Hi. pose proof chunk_bounds. unfold piece, len in *. rewrite length_take, length_drop. lia. Qed.

Lemma frames_lookup i f :
  udp_frames src dst id datagram src_mac dst_mac mtu !! i = Some f ↔
  Z.of_nat i * chunk < len datagram ∧ f = frame_of src dst id (v_offset (uview i)) (v_more (uview i)) (piece i) src_mac dst_mac.
Proof.
  pose proof chunk_bounds. unfold udp_frames. fold chunk. rewrite list_lookup_imap, chunks_lookup by lia.
  unfold len. case_decide as Hi; simpl.
  - split; [intros [= <-]; split; [lia|done]|intros [_ ->]; done].
  - split; [done|intros [? _]; lia].
Qed.

Lemma uview_of i : Z.of_nat i * chunk < len datagram →
  fragment_view (frame_of src dst id (v_offset (uview i)) (v_more (uview i)) (piece i) src_mac dst_mac) = Some (Some (uview i)).
Proof.
  intros Hi. pose proof chunk_bounds as [H8 Hc]. pose proof (piece_len i Hi) as Hp. unfold uview. cbn [v_offset v_more]. apply frame_view.
  - lia.
  - by rewrite Z.mul_mod, H8, Z.mul_0_r by lia.
  - lia.
  - intros Hm%Z.ltb_lt. rewrite Hp in *. replace (Z.min chunk (len datagram - Z.of_nat i * chunk)) with chunk by lia. lia.
Qed.

Definition uviews : list View := imap (λ i _, uview i) (chunks (Z.to_nat chunk) datagram).

Lemma uviews_elem u : u ∈ uviews ↔ ∃ i, Z.of_nat i * chunk < len datagram ∧ u = uview i.
Proof.
  pose proof chunk_bounds. unfold uviews. rewrite list_elem_of_lookup. split; intros [i Hi]; exists i.
  - rewrite list_lookup_imap, chunks_lookup in Hi by lia. unfold len. case_decide; [|done]. simpl in Hi. split; [lia|congruence].
  - destruct Hi as [Hi ->]. rewrite list_lookup_imap, chunks_lookup by lia. unfold len in *. by rewrite decide_True by lia.
Qed.

Lemma uviews_fragments : (length uviews ≤ MAX_RANGES)%nat → fragments_of (src, dst, 17, id) datagram uviews.
Proof.
  intros Hn. pose proof chunk_bounds as [H8 Hc].
  assert (∀ i, Z.of_nat i * chunk < len datagram → v_end (uview i) = Z.min ((Z.of_nat i + 1) * chunk) (len datagram)) as Hend.
  { intros i Hi. unfold v_end, uview. cbn [v_offset v_data]. rewrite piece_len by done. lia. }
  split; try done.
  - intros u (i & Hi & ->)%uviews_elem. done.
  - intros u (i & Hi & ->)%uviews_elem. split; cbn; [lia|by apply Forall_take, Forall_drop|].
    split; [apply frame_head_u8; lia|rewrite frame_head_len; lia|]. exists 0x45. rewrite frame_head_len. split; [|done].
    apply frame_head_fields; [apply Hsm|apply Hdm|]. pose proof (piece_len i Hi). pose proof (len_nonneg (piece i)). lia.
  - intros u (i & Hi & ->)%uviews_elem. rewrite Hend by done. cbn [v_offset v_data uview]. split; [lia|].
    unfold range. rewrite !(proj2 (Z.leb_le _ _)) by lia. cbn [andb]. f_equal. unfold piece.
    replace (Z.to_nat (Z.of_nat i * chunk)) with (i * Z.to_nat chunk)%nat by lia.
    destruct (decide ((Z.of_nat i + 1) * chunk ≤ len datagram)); [f_equal; lia|].
    rewrite !take_ge; [done|rewrite length_drop; unfold len in *; lia|rewrite length_drop; unfold len in *; lia].
  - intros u (i & Hi & ->)%uviews_elem. rewrite Hend by done. cbn [v_more uview]. rewrite piece_len by done. f_equal. lia.
  - intros u w j (a & Ha & ->)%uviews_elem (b & Hb & ->)%uviews_elem. rewrite !Hend by done. cbn [v_offset uview].
    intros H1 H2. assert (a = b) as ->; [|done].
    assert (∀ x y : nat, (x < y)%nat → (Z.of_nat x + 1) * chunk ≤ Z.of_nat y * chunk) as Hmono by (intros; apply Z.mul_le_mono_nonneg_r; lia).
    destruct (lt_eq_lt_dec a b) as [[Hab|]|Hab]; [|done|]; apply Hmono in Hab; lia.
  - intros j Hj. set (i := Z.to_nat (j / chunk)). assert (Z.of_nat i * chunk ≤ j < (Z.of_nat i + 1) * chunk) as Hij.
    { unfold i. rewrite Z2Nat.id by (apply Z.div_pos; lia). pose proof (Z.div_mod j chunk). pose proof (Z.mod_pos_bound j chunk). lia. }
    exists (uview i). split; [apply uviews_elem; exists i; split; [lia|done]|]. rewrite Hend by lia. cbn [v_offset uview]. lia.
Qed.

End Frames.

Lemma datagram_u8 src dst src_port dst_port payload :
  in_u16 src_port → in_u16 dst_port → Forall in_u8 payload → Forall in_u8 (datagram_of src dst src_port dst_port payload).
Proof.
  intros Hs Hd Hp. unfold datagram_of. set (n := wrap16 _).
  assert (in_u16 (udp_checksum src dst (udp_header src_port dst_port n 0 ++ payload))) as Hc.
  { unfold udp_checksum. destruct (words_loop _ _ _ _). case_match; [done|apply in_u16_wrap]. }
  unfold udp_header at 1. rewrite !Forall_app. repeat split; try done; apply to_be16_u8; try done. apply in_u16_wrap.
Qed.

(** The frames of a datagram, and what arrives while they do. *)
Definition arrives (frames : list (list Z)) (k : Key) (t0 : Z) (a : list Z * Z) : Prop :=
  Forall in_u8 a.1 ∧ a.2 < t0 + REASSEMBLY_TIMEOUT ∧ (a.1 ∈ frames ∨ view_of k a = None).

Section Arrivals.

Context (src dst : Ipv4) (id : Z) (src_mac dst_mac datagram : list Z) (mtu : Z).
Context (Hsrc : ip_ok src) (Hdst : ip_ok dst) (Hid : in_u16 id) (Hsm : mac_ok src_mac) (Hdm : mac_ok dst_mac).
Context (Hdg : Forall in_u8 datagram) (Hlen : 0 < len datagram ≤ 65515) (Hmtu : 36 ≤ mtu < 2 ^ 64).

Local Notation frames := (udp_frames src dst id datagram src_mac dst_mac mtu).
Local Notation us := (uviews src dst id src_mac dst_mac datagram mtu).
Local Notation k := (src, dst, 17, id).
Local Notation view i := (uview src dst id src_mac dst_mac datagram mtu i).

Lemma frame_arrives a : a.1 ∈ frames → ∃ i, frames !! i = Some a.1 ∧ view_of k a = Some (view i) ∧ view i ∈ us.
Proof.
  intros [i Hi]%list_elem_of_lookup. exists i. split; [done|]. apply frames_lookup in Hi as [Hb He]; [|done].
  split; [|apply uviews_elem; [done|eauto]]. unfold view_of. rewrite He, uview_of by done. by rewrite decide_True.
Qed.

Lemma views_us t0 fs v : Forall (arrives frames k t0) fs → v ∈ views k fs → v ∈ us.
Proof.
  intros Hf (a & Ha & Hv)%list_elem_of_omap. rewrite Forall_forall in Hf. destruct (Hf a Ha) as (_ & _ & [Hin|Hn]); [|congruence].
  destruct (frame_arrives a Hin) as (i & _ & Hvi & Hu). congruence.
Qed.

Lemma us_views fs : (∀ f, f ∈ frames → f ∈ fs.*1) → ∀ u, u ∈ us → u ∈ views k fs.
Proof.
  intros Hall u (i & Hi & ->)%uviews_elem; [|done]. apply list_elem_of_omap.
  assert (frames !! i = Some (frame_of src dst id (v_offset (view i)) (v_more (view i)) (piece datagram mtu i) src_mac dst_mac)) as Hl
    by (by apply frames_lookup).
  apply list_elem_of_lookup_2 in Hl. destruct (proj1 (list_elem_of_fmap _ _ _) (Hall _ Hl)) as (a & He & Ha).
  exists a. split; [done|]. unfold view_of. rewrite <- He, uview_of by done. by rewrite decide_True.
Qed.

Lemma missing_view t0 fs f : Forall (arrives frames k t0) fs → f ∈ frames → f ∉ fs.*1 → ∃ u, u ∈ us ∧ u ∉ views k fs.
Proof.
  intros Hf Hin Hno. destruct (frame_arrives (f, 0) Hin) as (i & Hi & _ & Hu). exists (view i). split; [done|].
  intros (a & Ha & Hv)%list_elem_of_omap. rewrite Forall_forall in Hf. destruct (Hf a Ha) as (_ & _ & [Hfa|Hn]); [|congruence].
  destruct (frame_arrives a Hfa) as (j & Hj & Hvj & _).
  assert (i = j) as ->.
  { rewrite Hv in Hvj. injection Hvj as Hij _. pose proof (chunk_bounds mtu Hmtu). unfold uview in Hij. nia. }
  apply Hno, list_elem_of_fmap. exists a. split; [|done]. cbn [fst] in Hi. congruence.
Qed.

Lemma arrivals_reassemble (Hn : (length frames ≤ 64)%nat) es first t0 fs frame now f :
  table_ok es → es !! k = None → (size es < 32)%nat →
  Forall (arrives frames k t0) ((first, t0) :: fs ++ [(frame, now)]) → first ∈ frames →
  (∀ f, f ∈ frames → f ∈ ((first, t0) :: fs ++ [(frame, now)]).*1) →
  f ∈ frames → f ∉ ((first, t0) :: fs).*1 →
  ∃ es1 outs es2, run es ((first, t0) :: fs) = Some (es1, outs) ∧
  push es1 frame now = Some (es2, Some (frame_of src dst id 0 false datagram src_mac dst_mac)).
Proof.
  intros Hok Hk Hsize Har Hfirst Hall Hf Hfno.
  assert (fragments_of k datagram us) as Hfo.
  { apply uviews_fragments; try done. unfold uviews. unfold udp_frames in Hn. rewrite length_imap. by rewrite length_imap in Hn. }
  destruct (fragments_reassemble k datagram us (view 0) es first t0 fs frame now)
    as (es1 & outs & es2 & out & Hr & Hpu & _ & Hw & _); try done.
  - apply uviews_elem; [done|]. exists 0%nat. split; [lia|done].
  - cbn [uview v_header]. rewrite frame_head_len by done. lia.
  - eapply Forall_impl; [exact Har|]. intros a (H1 & H2 & _). done.
  - by destruct (frame_arrives (first, t0) Hfirst) as (i & _ & -> & _).
  - intros v. by apply (views_us t0).
  - by apply us_views.
  - apply (missing_view t0 _ f); [|done|done]. rewrite app_comm_cons in Har. by apply Forall_app in Har as [Har _].
  - exists es1, outs, es2. split; [done|]. rewrite Hpu. do 3 f_equal.
    cbn [uview v_header] in Hw. rewrite frame_head_len in Hw by done. change (34 - 14) with 20 in Hw.
    erewrite write_header_app in Hw; [| |rewrite frame_head_len by done|apply write_frame_head; [apply Hsm|apply Hdm]]; [|lia|lia].
    by injection Hw as <-.
Qed.

End Arrivals.

Lemma built_bounds id src dst src_port dst_port payload src_mac dst_mac mtu frames id' :
  build_udp_ip_ethernet id src dst src_port dst_port payload src_mac dst_mac mtu = Some (frames, id') → (1 < length frames)%nat →
  36 ≤ mtu ∧ len payload ≤ MAX_UDP_PAYLOAD.
Proof.
  unfold build_udp_ip_ethernet. intros Hb Hn. destruct (Z.ltb_spec mtu 36); [done|]. destruct (Z.ltb_spec MAX_UDP_PAYLOAD (len payload)); [|done].
  injection Hb as <- _. simpl in Hn. lia.
Qed.

Lemma built_large id src dst src_port dst_port payload src_mac dst_mac mtu frames id' :
  length src_mac = 6%nat → length dst_mac = 6%nat →
  build_udp_ip_ethernet id src dst src_port dst_port payload src_mac dst_mac mtu = Some (frames, id') → (1 < length frames)%nat →
  mtu < 28 + len payload.
Proof.
  intros Hs Hd Hb Hn. destruct (built_bounds _ _ _ _ _ _ _ _ _ _ _ Hb Hn) as [Hm Hl]. rewrite build_udp_eq in Hb by done.
  destruct (Z.leb_spec (28 + len payload) mtu); [|done]. injection Hb as <- _. simpl in Hn. lia.
Qed.

(** A datagram larger than the MTU, split into up to 64 frames none of which exceeds
    the MTU: the last one missing yields exactly the frame an MTU large enough
    would have given. *)
Lemma udp_frames_reassemble id src dst src_port dst_port payload src_mac dst_mac mtu frames id' es first t0 fs frame now :
  ip_ok src → ip_ok dst → in_u16 id → in_u16 src_port → in_u16 dst_port → Forall in_u8 payload →
  mac_ok src_mac → mac_ok dst_mac → mtu < 2 ^ 64 →
  build_udp_ip_ethernet id src dst src_port dst_port payload src_mac dst_mac mtu = Some (frames, id') →
  (1 < length frames ≤ 64)%nat →
  table_ok es → es !! (src, dst, 17, id) = None → (size es < 32)%nat →
  Forall (arrives frames (src, dst, 17, id) t0) ((first, t0) :: fs ++ [(frame, now)]) → first ∈ frames →
  (∀ f, f ∈ frames → f ∈ ((first, t0) :: fs ++ [(frame, now)]).*1) →
  (∃ f, f ∈ frames ∧ f ∉ ((first, t0) :: fs).*1) →
  Forall (λ f, len f ≤ mtu + 14) frames ∧
  ∃ es1 outs es2 out, run es ((first, t0) :: fs) = Some (es1, outs) ∧ push es1 frame now = Some (es2, Some out) ∧
  build_udp_ip_ethernet id src dst src_port dst_port payload src_mac dst_mac (28 + len payload) = Some ([out], id').
Proof.
  intros Hsrc Hdst Hid Hsp Hdp Hp Hsm Hdm Hmtu Hb [Hn1 Hn2] Hok Hk Hsize Har Hfirst Hall [f [Hf Hfno]].
  destruct (built_bounds _ _ _ _ _ _ _ _ _ _ _ Hb Hn1) as [Hm Hl].
  pose proof (built_large _ _ _ _ _ _ _ _ _ _ _ (proj1 Hsm) (proj1 Hdm) Hb Hn1) as Hbig.
  rewrite build_udp_eq, (proj2 (Z.leb_gt _ _)) in Hb by (apply Hsm || apply Hdm || done).
  injection Hb as <- <-. set (dg := datagram_of src dst src_port dst_port payload) in *.
  pose proof (datagram_len src dst src_port dst_port payload) as Hdl. fold dg in Hdl. pose proof (len_nonneg payload).
  assert (0 < len dg ≤ 65515) as Hdg by (unfold MAX_UDP_PAYLOAD in Hl; lia).
  pose proof (datagram_u8 src dst _ _ payload Hsp Hdp Hp) as Hdu. fold dg in Hdu.
  destruct (chunk_bounds mtu) as [_ Hcb]; [lia|]. split.
  { apply Forall_lookup_2. intros i g [Hi ->]%frames_lookup; [|lia]. unfold frame_of. pose proof (piece_len dg mtu ltac:(lia) i Hi).
    pose proof (frame_head_len src dst id src_mac dst_mac Hsm Hdm) as Hhl. unfold len in *. rewrite length_app, Nat2Z.inj_add, Hhl. lia. }
  destruct (arrivals_reassemble src dst id src_mac dst_mac dg mtu Hsrc Hdst Hid Hsm Hdm Hdu Hdg ltac:(lia) Hn2 es first t0 fs frame now f)
    as (es1 & outs & es2 & Hr & Hpu); try done.
  eexists es1, outs, es2, _. split; [done|]. split; [done|].
  rewrite build_udp_eq by (apply Hsm || apply Hdm || done || lia). by rewrite Z.leb_refl.
Qed.

End UdpFrag.
