(* ===== verification/IpView.v ===== *)
(** * Views on IP and TCP packets

    [src/common/arcbox-packet/src/ip.rs]: the parsing of IPv4 and IPv6 packets with
    their extension headers and of the fragment they may carry. The headers are
    read by the [etherparse] crate, a class of operations with what its
    documentation says of them. [None] is a panic, [Some None] a packet that is
    refused. *)

From Stdlib Require Import ZArith Lia.
From stdpp Require Import base numbers list countable.
From S2P Require Import Prelude Bits Checksum Bytes.

Open Scope Z_scope.

Module IpView.

(** ** Addresses *)

Inductive IpAddr := V4 (ip : Ipv4) | V6 (octets : list Z).
#[export] Instance IpAddr_eq_dec : EqDecision IpAddr.
Proof. solve_decision. Defined.
#[export] Instance IpAddr_countable : Countable IpAddr.
Proof.
  apply (inj_countable (λ a, match a with V4 ip => inl ip | V6 o => inr o end)
    (λ x, Some match x with inl ip => V4 ip | inr o => V6 o end)). by intros [].
Defined.

Definition is_ipv4 (a : IpAddr) : bool := match a with V4 _ => true | V6 _ => false end.
Definition is_ipv6 (a : IpAddr) : bool := negb (is_ipv4 a).

(** ** The headers read by [etherparse] *)

Record Ipv4HeaderSlice := MkIpv4Header {
  slice4 : list Z;
  total_len4 : Z;
  identification4 : Z;
  more_fragments4 : bool;
  byte_offset4 : Z;
  protocol4 : Z;
  source4 : Ipv4;
  destination4 : Ipv4
}.

Definition is_fragmenting_payload (h : Ipv4HeaderSlice) : bool := more_fragments4 h || negb (byte_offset4 h =? 0).

Record Ipv6HeaderSlice := MkIpv6Header {
  payload_length6 : Z;
  next_header6 : Z;
  source6 : list Z;
  destination6 : list Z
}.

Record Ipv6FragmentHeaderSlice := MkFragmentHeader {
  part_next_header : Z;
  part_byte_offset : Z;
  part_more_fragments : bool;
  part_identification : Z
}.

Record TcpSlice := MkTcp {
  tcp_source_port : Z;
  tcp_destination_port : Z;
  tcp_sequence_number : Z;
  tcp_acknowledgment_number : Z;
  tcp_window_size : Z;
  tcp_payload : list Z;
  tcp_slice : list Z
}.

Class Etherparse := {
  ipv4_from_slice : list Z → option Ipv4HeaderSlice;
  ipv6_from_slice : list Z → option Ipv6HeaderSlice;
  fragment_from_slice : list Z → option Ipv6FragmentHeaderSlice;
  tcp_from_slice : list Z → option TcpSlice;
  is_skippable_header_extension : Z → bool;
  (* the next header and what is left of the slice *)
  skip_header_extension_in_slice : list Z → Z → option (Z * list Z);
  IPV6_HOP_BY_HOP : Z;
  IPV6_ROUTE : Z;
  IPV6_FRAG : Z;
  AUTH : Z;
  IPV6_DEST_OPTIONS : Z
}.

(** The documented behaviour the code relies on: a header is a prefix of the slice
    it is read from, of at least its fixed length; its fields are the bytes at
    their places; skipping an extension header leaves a shorter end of the slice. *)
Class EtherparseLaws `{Etherparse} := {
  ipv4_header_spec bs h : Forall in_u8 bs → ipv4_from_slice bs = Some h →
    ∃ rest, bs = slice4 h ++ rest ∧ 20 ≤ len (slice4 h) ∧
    Some (total_len4 h) = get_be16 bs 2 ∧ Some (identification4 h) = get_be16 bs 4 ∧
    (∃ b, byte bs 6 = Some b ∧ more_fragments4 h = Z.testbit b 5) ∧
    (∃ w, get_be16 bs 6 = Some w ∧ byte_offset4 h = 8 * Z.land w 0x1FFF) ∧
    Some (protocol4 h) = byte bs 9 ∧ Some (source4 h) = get_ip bs 12 ∧ Some (destination4 h) = get_ip bs 16;
  ipv6_header_spec bs h : Forall in_u8 bs → ipv6_from_slice bs = Some h →
    40 ≤ len bs ∧ Some (payload_length6 h) = get_be16 bs 4 ∧ Some (next_header6 h) = byte bs 6 ∧
    Some (source6 h) = range bs 8 24 ∧ Some (destination6 h) = range bs 24 40;
  fragment_header_spec bs f : Forall in_u8 bs → fragment_from_slice bs = Some f →
    8 ≤ len bs ∧ Some (part_next_header f) = byte bs 0 ∧
    ∃ w, get_be16 bs 2 = Some w ∧ part_byte_offset f = Z.land w 0xFFF8 ∧ part_more_fragments f = Z.testbit w 0;
  (* only the header is read, and a well-formed one is accepted *)
  ipv4_local bs h n : ipv4_from_slice bs = Some h → (length (slice4 h) ≤ n)%nat → ipv4_from_slice (take n bs) = Some h;
  ipv4_accepts bs b : Forall in_u8 bs → byte bs 0 = Some b → Z.shiftr b 4 = 4 → 5 ≤ Z.land b 15 → 4 * Z.land b 15 ≤ len bs →
    ∃ h, ipv4_from_slice bs = Some h ∧ len (slice4 h) = 4 * Z.land b 15;
  ipv6_local bs h n : ipv6_from_slice bs = Some h → (40 ≤ n)%nat → ipv6_from_slice (take n bs) = Some h;
  ipv6_accepts bs b : Forall in_u8 bs → byte bs 0 = Some b → Z.shiftr b 4 = 6 → 40 ≤ len bs → is_Some (ipv6_from_slice bs);
  tcp_spec bs t : Forall in_u8 bs → tcp_from_slice bs = Some t → 20 ≤ len bs ∧ tcp_slice t = bs ∧
    Some (tcp_source_port t) = get_be16 bs 0 ∧ Some (tcp_destination_port t) = get_be16 bs 2 ∧
    Some (tcp_sequence_number t) = get_be32 bs 4 ∧ Some (tcp_acknowledgment_number t) = get_be32 bs 8 ∧
    Some (tcp_window_size t) = get_be16 bs 14 ∧
    ∃ b, byte bs 12 = Some b ∧ 4 * Z.shiftr b 4 ≤ len bs ∧ tcp_payload t = drop (Z.to_nat (4 * Z.shiftr b 4)) bs;
  tcp_accepts bs b : Forall in_u8 bs → byte bs 12 = Some b → 5 ≤ Z.shiftr b 4 → 4 * Z.shiftr b 4 ≤ len bs → is_Some (tcp_from_slice bs);
  (* TCP is a transport protocol *)
  tcp_not_skipped : is_skippable_header_extension 6 = false;
  skip_spec bs n n' rest : skip_header_extension_in_slice bs n = Some (n', rest) →
    ∃ ext, bs = ext ++ rest ∧ 0 < len ext ∧ Some n' = byte bs 0
}.

(** ** Packets *)

Record FragmentView := MkFragment {
  f_id : Z;
  f_offset : Z;
  f_more : bool;
  f_protocol : Z;
  f_prefix : list Z;
  f_payload : list Z;
  previous_next_header : option Z
}.

Record IpPacketView := MkIpView {
  bytes : list Z;
  source : IpAddr;
  destination : IpAddr;
  protocol : Z;
  ip_payload : list Z;
  fragment : option FragmentView
}.

(** [valid_options]: the loop from [offset]. *)
Fixpoint options_ok (fuel : nat) (extension : list Z) (offset : Z) : bool :=
  match fuel with
  | O => true
  | S fuel =>
      match byte extension offset with
      | None => true
      | Some kind =>
          if kind =? 0 then options_ok fuel extension (offset + 1)
          else match byte extension (offset + 1) with
          | None => false
          | Some length =>
              if negb (Z.land kind 0xc0 =? 0) then false
              else
                let offset := offset + (2 + length) in
                if len extension <? offset then false else options_ok fuel extension offset
          end
      end
  end.
Definition valid_options (extension : list Z) : bool := options_ok (length extension) extension 2.

Section Parse.
Context `{Etherparse}.

(** The outcome of the loop over the extension headers: the transport protocol,
    where its bytes start, and the fragment. *)
Definition Extensions : Type := Z * Z * option FragmentView.

(** The [while] loop. *)
Fixpoint extensions (fuel : nat) (bytes : list Z) (next offset previous : Z) : option (option Extensions) :=
  match fuel with
  | O => None
  | S fuel =>
      if negb (is_skippable_header_extension next) then Some (Some (next, offset, None))
      else if next =? IPV6_FRAG then
        let! rest := range bytes offset (len bytes) in
        match fragment_from_slice rest with
        | None => Some None
        | Some part =>
            if part_next_header part =? IPV6_HOP_BY_HOP then Some None
            else
              let! prefix := range bytes 0 offset in
              let! payload := range bytes (offset + 8) (len bytes) in
              Some (Some (part_next_header part, offset + 8,
                Some (MkFragment (part_identification part) (part_byte_offset part) (part_more_fragments part)
                  (part_next_header part) prefix payload (Some previous))))
        end
      else if (next =? IPV6_HOP_BY_HOP) && negb (offset =? 40) then Some None
      else
        let! rest := range bytes offset (len bytes) in
        if (next =? AUTH) && bool_decide (byte rest 1 = Some 0) then Some None
        else if (next =? IPV6_ROUTE) && match byte rest 3 with Some segments => negb (segments =? 0) | None => false end
        then Some None
        else match skip_header_extension_in_slice rest next with
        | None => Some None
        | Some (following, remaining) =>
            let extension_len := len rest - len remaining in
            let! invalid :=
              if (next =? IPV6_HOP_BY_HOP) || (next =? IPV6_DEST_OPTIONS)
              then let! extension := range rest 0 extension_len in Some (negb (valid_options extension))
              else Some false in
            if (invalid : bool) then Some None
            else extensions fuel bytes following (offset + extension_len) offset
        end
  end.

Definition parse4 (bytes : list Z) : option (option IpPacketView) :=
  match ipv4_from_slice bytes with
  | None => Some None
  | Some header =>
      let total := total_len4 header in
      if total <? len (slice4 header) then Some None
      else if len bytes <? total then Some None
      else
        let! bytes := range bytes 0 total in
        let! payload := range bytes (len (slice4 header)) (len bytes) in
        let fragment :=
          if is_fragmenting_payload header
          then Some (MkFragment (identification4 header) (byte_offset4 header) (more_fragments4 header) (protocol4 header)
            (slice4 header) payload None)
          else None in
        Some (Some (MkIpView bytes (V4 (source4 header)) (V4 (destination4 header)) (protocol4 header) payload fragment))
  end.

Definition parse6 (bytes : list Z) : option (option IpPacketView) :=
  match ipv6_from_slice bytes with
  | None => Some None
  | Some header =>
      let total := 40 + payload_length6 header in
      if len bytes <? total then Some None
      else
        let! bytes := range bytes 0 total in
        let! found := extensions (S (length bytes)) bytes (next_header6 header) 40 6 in
        match found with
        | None => Some None
        | Some (next, offset, fragment) =>
            let! payload := range bytes offset (len bytes) in
            Some (Some (MkIpView bytes (V6 (source6 header)) (V6 (destination6 header)) next payload fragment))
        end
  end.

(** [IpPacketView::parse]. *)
Definition parse (bytes : list Z) : option (option IpPacketView) :=
  match byte bytes 0 with
  | None => Some None
  | Some first =>
      let version := Z.shiftr first 4 in
      if version =? 4 then parse4 bytes else if version =? 6 then parse6 bytes else Some None
  end.

Definition transport (ip : IpPacketView) : option (list Z) :=
  match fragment ip with None => Some (ip_payload ip) | Some _ => None end.

(** [TcpPacketView::parse]; the view keeps the packet. *)
Definition tcp_parse (ip : IpPacketView) : option TcpSlice :=
  if negb (protocol ip =? 6) then None
  else match transport ip with Some segment => tcp_from_slice segment | None => None end.

End Parse.

(** ** Parsing is total *)

(** What a fragment of version 6 is made of. *)
Record fragment_ok (f : FragmentView) : Prop := {
  fo_offset : 0 ≤ f_offset f ≤ 65528;
  fo_prefix : 40 ≤ len (f_prefix f) ≤ 65575;
  fo_u8 : Forall in_u8 (f_prefix f) ∧ Forall in_u8 (f_payload f);
  fo_protocol : in_u8 (f_protocol f);
  fo_previous p : previous_next_header f = Some p → 6 ≤ p < len (f_prefix f)
}.

Record ip_view_ok (ip : IpPacketView) : Prop := {
  iv_u8 : Forall in_u8 (bytes ip) ∧ Forall in_u8 (ip_payload ip);
  iv_len : 20 ≤ len (bytes ip) ≤ 65535 + if is_ipv6 (source ip) then 40 else 0;
  iv_fragment f : fragment ip = Some f → is_Some (previous_next_header f) → fragment_ok f;
  iv_version f : fragment ip = Some f → (is_Some (previous_next_header f) ↔ is_ipv6 (source ip) = true)
}.

Lemma get_be16_range l i v : Forall in_u8 l → get_be16 l i = Some v → in_u16 v.
Proof.
  intros Hl. unfold get_be16, byte. destruct (l !! Z.to_nat i) as [a|] eqn:Ha; [|done].
  destruct (l !! Z.to_nat (i + 1)) as [b|] eqn:Hb; [|done]. intros [= <-].
  pose proof (Forall_lookup_1 _ _ _ _ Hl Ha) as H1. pose proof (Forall_lookup_1 _ _ _ _ Hl Hb) as H2.
  cbn in H1, H2. unfold in_u8, u8_bound, in_u16, u16_bound, be16 in *. lia.
Qed.

Lemma byte_range l i v : Forall in_u8 l → byte l i = Some v → in_u8 v.
Proof. intros Hl Hv. by apply (Forall_lookup_1 _ _ _ _ Hl Hv). Qed.

Lemma range_u8 l a b bs : range l a b = Some bs → Forall in_u8 l → Forall in_u8 bs.
Proof. unfold range. case_match; [|done]. intros [= <-] Hl. by apply Forall_take, Forall_drop. Qed.

Lemma land_le_r a b : 0 ≤ a → 0 ≤ b → Z.land a b ≤ b.
Proof. intros Ha Hb. rewrite <- (Z2N.id a), <- (Z2N.id b), <- N2Z.inj_land by done. apply N2Z.inj_le, N.land_le_r. Qed.

Section Total.
Context {ep : Etherparse} {laws : EtherparseLaws}.

Lemma extensions_total fuel bytes next offset previous :
  Forall in_u8 bytes → len bytes ≤ 65575 → 40 ≤ offset ≤ len bytes → len bytes - offset < Z.of_nat fuel → 6 ≤ previous < offset →
  in_u8 next →
  ∃ r, extensions fuel bytes next offset previous = Some r ∧
  ∀ next' offset' f, r = Some (next', offset', f) → offset ≤ offset' ≤ len bytes ∧ in_u8 next' ∧
    ∀ g, f = Some g → fragment_ok g ∧ is_Some (previous_next_header g).
Proof.
  intros Hb Hmax. revert next offset previous. induction fuel as [|fuel IH]; intros next offset previous Ho Hfuel Hp Hn; [lia|].
  cbn [extensions]. destruct (is_skippable_header_extension next); cbn [negb].
  2: { eexists. split; [done|]. intros ??? [= <- <- <-]. split; [lia|]. split; [done|]. by intros g [=]. }
  destruct (range_Some bytes offset (len bytes)) as (rest & Hr & Hrl & Hru); [lia|lia|]. rewrite Hr. specialize (Hru Hb).
  destruct (next =? IPV6_FRAG).
  - destruct (fragment_from_slice rest) as [part|] eqn:Hpart; [|by eexists].
    destruct (part_next_header part =? IPV6_HOP_BY_HOP); [by eexists|].
    destruct (fragment_header_spec rest part Hru Hpart) as (H8 & Hnext & w & Hw & Hoff & _).
    destruct (range_Some bytes 0 offset) as (prefix & -> & Hpl & Hpu); [lia|lia|].
    destruct (range_Some bytes (offset + 8) (len bytes)) as (payload & -> & _ & Hyu); [lia|lia|].
    apply (get_be16_range _ _ _ Hru) in Hw. symmetry in Hnext. apply (byte_range _ _ _ Hru) in Hnext.
    eexists. split; [done|]. intros ??? [= <- <- <-]. split; [lia|]. split; [done|]. intros g [= <-]. split; [|cbn; eauto].
    assert (0 ≤ Z.land w 0xFFF8 ≤ 65528).
    { split; [apply Z.land_nonneg; lia|]. apply land_le_r; [apply Hw|lia]. }
    split; cbn; [lia|lia|auto|done|]. intros p [= <-]. lia.
  - destruct (_ && negb (offset =? 40)); [by eexists|]. destruct (_ && bool_decide _); [by eexists|].
    destruct ((next =? IPV6_ROUTE) && _); [by eexists|].
    destruct (skip_header_extension_in_slice rest next) as [[following remaining]|] eqn:Hskip; [|by eexists].
    destruct (skip_spec _ _ _ _ Hskip) as (ext & -> & Hext & Hfol). rewrite len_app in *. symmetry in Hfol.
    apply (byte_range _ _ _ Hru) in Hfol. pose proof (len_nonneg remaining).
    replace (len ext + len remaining - len remaining) with (len ext) by lia.
    destruct (range_Some (ext ++ remaining) 0 (len ext)) as (e & He & _); [lia|rewrite len_app; lia|]. rewrite He.
    set (invalid := if _ || _ then _ else _). assert (∃ b, invalid = Some b) as [b ->] by (unfold invalid; case_match; eauto).
    destruct b; [by eexists|].
    destruct (IH following (offset + len ext) offset) as (r & -> & Hspec); [lia|lia|lia|done|].
    exists r. split; [done|]. intros n' o' f ->. destruct (Hspec n' o' f eq_refl) as (? & ? & ?). split; [lia|done].
Qed.

Lemma parse4_total bs :
  Forall in_u8 bs → ∃ r, parse4 bs = Some r ∧ ∀ ip, r = Some ip → ip_view_ok ip ∧ is_ipv4 (source ip) = true.
Proof.
  intros Hb. unfold parse4. destruct (ipv4_from_slice bs) as [h|] eqn:Hh; [|by eexists].
  destruct (ipv4_header_spec bs h Hb Hh) as (rest & Heq & H20 & Htot & _). symmetry in Htot.
  apply (get_be16_range _ _ _ Hb) in Htot. unfold in_u16, u16_bound in Htot.
  destruct (Z.ltb_spec (total_len4 h) (len (slice4 h))); [by eexists|].
  destruct (Z.ltb_spec (len bs) (total_len4 h)); [by eexists|].
  destruct (range_Some bs 0 (total_len4 h)) as (packet & -> & Hl & Hu); [lia|lia|]. specialize (Hu Hb).
  destruct (range_Some packet (len (slice4 h)) (len packet)) as (payload & -> & _ & Hpu); [lia|lia|].
  eexists. split; [done|]. intros ip [= <-]. split; [|done]. split; cbn; [auto|lia| |].
  - intros f. destruct (is_fragmenting_payload h); [|done]. intros [= <-]. cbn. by intros [? [=]].
  - intros f. destruct (is_fragmenting_payload h); [|done]. intros [= <-]. cbn. by split; [intros [? [=]]|].
Qed.

Lemma parse6_total bs :
  Forall in_u8 bs → ∃ r, parse6 bs = Some r ∧ ∀ ip, r = Some ip → ip_view_ok ip ∧ is_ipv6 (source ip) = true.
Proof.
  intros Hb. unfold parse6. destruct (ipv6_from_slice bs) as [h|] eqn:Hh; [|by eexists].
  destruct (ipv6_header_spec bs h Hb Hh) as (H40 & Hlen & Hnext & _). symmetry in Hlen, Hnext.
  apply (get_be16_range _ _ _ Hb) in Hlen as Hl16. apply (byte_range _ _ _ Hb) in Hnext. unfold in_u16, u16_bound in Hl16.
  destruct (Z.ltb_spec (len bs) (40 + payload_length6 h)); [by eexists|].
  destruct (range_Some bs 0 (40 + payload_length6 h)) as (packet & -> & Hl & Hu); [lia|lia|]. specialize (Hu Hb).
  destruct (extensions_total (S (length packet)) packet (next_header6 h) 40 6) as (r & -> & Hr);
    [done|lia|lia|unfold len; lia|lia|done|].
  destruct r as [[[next offset] f]|]; [|by eexists]. destruct (Hr next offset f eq_refl) as (Ho & _ & Hf).
  destruct (range_Some packet offset (len packet)) as (payload & -> & _ & Hpu); [lia|lia|].
  eexists. split; [done|]. intros ip [= <-]. split; [|done]. split; cbn; [auto|lia|by intros g [??]%Hf|by intros g [??]%Hf].
Qed.

(** [IpPacketView::parse] neither panics nor loops. *)
Lemma ip_parse_total bs : Forall in_u8 bs → ∃ r, parse bs = Some r ∧ ∀ ip, r = Some ip → ip_view_ok ip.
Proof.
  intros Hb. unfold parse. destruct (byte bs 0) as [first|]; [|by eexists].
  destruct (parse4_total bs Hb) as (r4 & H4 & Hok4). destruct (parse6_total bs Hb) as (r6 & H6 & Hok6).
  destruct (_ =? 4); [exists r4; split; [done|]; by intros ip [??]%Hok4|].
  destruct (_ =? 6); [exists r6; split; [done|]; by intros ip [??]%Hok6|by eexists].
Qed.

(** The packet of a view, without what follows it in the frame, has the same view. *)
Lemma parse_trim bs ip : Forall in_u8 bs → parse bs = Some (Some ip) → parse (bytes ip) = Some (Some ip).
Proof.
  intros Hb. unfold parse. destruct (byte bs 0) as [first|] eqn:H0; [|done].
  assert (∀ total packet, 0 < total → range bs 0 total = Some packet → byte packet 0 = Some first ∧ range packet 0 total = Some packet ∧
    len packet = total ∧ packet = take (Z.to_nat total) bs) as Htrim.
  { intros total packet Ht. unfold range. rewrite drop_0, Z.sub_0_r. destruct (Z.leb_spec total (len bs)); [|by rewrite andb_false_r].
    rewrite (proj2 (Z.leb_le 0 total)) by lia. intros [= <-]. unfold byte in *. rewrite lookup_take_lt by lia. split; [done|].
    unfold len in *. rewrite length_take. rewrite !(proj2 (Z.leb_le _ _)) by lia. cbn [andb]. rewrite drop_0, take_take, Nat.min_id.
    split; [done|]. split; [lia|done]. }
  destruct (_ =? 4) eqn:H4; [|destruct (_ =? 6) eqn:H6; [|done]].
  - unfold parse4. destruct (ipv4_from_slice bs) as [h|] eqn:Hh; [|done].
    destruct (ipv4_header_spec bs h Hb Hh) as (rest & _ & H20 & _). destruct (Z.ltb_spec (total_len4 h) (len (slice4 h))); [done|].
    destruct (Z.ltb_spec (len bs) (total_len4 h)); [done|]. destruct (range bs 0 (total_len4 h)) as [packet|] eqn:Hp; [|done].
    destruct (range packet (len (slice4 h)) (len packet)) as [payload|] eqn:Hy; [|done]. intros [= <-]. cbn [bytes].
    destruct (Htrim (total_len4 h) packet ltac:(lia) Hp) as (-> & Hr & Hl & Htake). rewrite H4.
    assert (ipv4_from_slice packet = Some h) as -> by (rewrite Htake; apply ipv4_local; [done|unfold len in *; lia]).
    rewrite (proj2 (Z.ltb_ge _ _)), (proj2 (Z.ltb_ge _ _)) by lia. by rewrite Hr, Hy.
  - unfold parse6. destruct (ipv6_from_slice bs) as [h|] eqn:Hh; [|done].
    destruct (ipv6_header_spec bs h Hb Hh) as (H40 & Hlen & _). symmetry in Hlen.
    apply (get_be16_range _ _ _ Hb) in Hlen as Hl16. unfold in_u16, u16_bound in Hl16.
    destruct (Z.ltb_spec (len bs) (40 + payload_length6 h)); [done|]. destruct (range bs 0 (40 + payload_length6 h)) as [packet|] eqn:Hp; [|done].
    destruct (extensions (S (length packet)) packet (next_header6 h) 40 6) as [[[[next offset] f]|]|] eqn:He; [|done|done].
    destruct (range packet offset (len packet)) as [payload|] eqn:Hy; [|done]. intros [= <-]. cbn [bytes].
    destruct (Htrim (40 + payload_length6 h) packet ltac:(lia) Hp) as (-> & Hr & Hl & Htake). rewrite H4, H6.
    assert (ipv6_from_slice packet = Some h) as -> by (rewrite Htake; apply ipv6_local; [done|lia]).
    rewrite (proj2 (Z.ltb_ge _ _)) by lia. by rewrite Hr, He, Hy.
Qed.

End Total.

(** ** Headers by their definition *)

Definition ex_ipv4 (bs : list Z) : option Ipv4HeaderSlice :=
  let! b0 := byte bs 0 in
  let ihl := 4 * Z.land b0 15 in
  if (Z.shiftr b0 4 =? 4) && (20 <=? ihl) && (ihl <=? len bs) then
    let! slice := range bs 0 ihl in
    let! total := get_be16 bs 2 in let! id := get_be16 bs 4 in let! flags := byte bs 6 in let! word := get_be16 bs 6 in
    let! protocol := byte bs 9 in let! src := get_ip bs 12 in let! dst := get_ip bs 16 in
    Some (MkIpv4Header slice total id (Z.testbit flags 5) (8 * Z.land word 0x1FFF) protocol src dst)
  else None.

Definition ex_ipv6 (bs : list Z) : option Ipv6HeaderSlice :=
  let! b0 := byte bs 0 in
  if (Z.shiftr b0 4 =? 6) && (40 <=? len bs) then
    let! length := get_be16 bs 4 in let! next := byte bs 6 in
    let! src := range bs 8 24 in let! dst := range bs 24 40 in Some (MkIpv6Header length next src dst)
  else None.

Definition ex_fragment (bs : list Z) : option Ipv6FragmentHeaderSlice :=
  if 8 <=? len bs then
    let! next := byte bs 0 in let! word := get_be16 bs 2 in let! hi := get_be16 bs 4 in let! lo := get_be16 bs 6 in
    Some (MkFragmentHeader next (Z.land word 0xFFF8) (Z.testbit word 0) (hi * 65536 + lo))
  else None.

Definition ex_tcp (bs : list Z) : option TcpSlice :=
  if 20 <=? len bs then
    let! offset := byte bs 12 in
    let header := 4 * Z.shiftr offset 4 in
    if (20 <=? header) && (header <=? len bs) then
      let! src := get_be16 bs 0 in let! dst := get_be16 bs 2 in let! seq := get_be32 bs 4 in let! ack := get_be32 bs 8 in
      let! window := get_be16 bs 14 in
      Some (MkTcp src dst seq ack window (drop (Z.to_nat header) bs) bs)
    else None
  else None.

Definition ex_skip (bs : list Z) (n : Z) : option (Z * list Z) :=
  let! next := byte bs 0 in
  let! units := byte bs 1 in
  let length := if n =? 44 then 8 else if n =? 51 then 4 * (units + 2) else 8 * (units + 1) in
  if (0 <? length) && (length <=? len bs) then Some (next, drop (Z.to_nat length) bs) else None.

Definition ex_etherparse : Etherparse := {|
  ipv4_from_slice := ex_ipv4; ipv6_from_slice := ex_ipv6; fragment_from_slice := ex_fragment; tcp_from_slice := ex_tcp;
  is_skippable_header_extension n := bool_decide (n ∈ [0; 43; 44; 51; 60; 135; 139; 140]);
  skip_header_extension_in_slice := ex_skip;
  IPV6_HOP_BY_HOP := 0; IPV6_ROUTE := 43; IPV6_FRAG := 44; AUTH := 51; IPV6_DEST_OPTIONS := 60
|}.

(** Takes a reading of bytes apart, one access at a time. *)
Ltac read_apart :=
  repeat match goal with
  | |- (match ?x with Some _ => _ | None => _ end) = _ → _ => destruct x eqn:?; [|done]
  | |- (if ?b then _ else _) = _ → _ => destruct b eqn:?; [|done]
  end.

Lemma byte_take l n i : 0 ≤ i < Z.of_nat n → byte (take n l) i = byte l i.
Proof. intros Hi. unfold byte. apply lookup_take_lt. lia. Qed.

Lemma get_be16_take l n i : 0 ≤ i → i + 1 < Z.of_nat n → get_be16 (take n l) i = get_be16 l i.
Proof. intros H0 Hi. unfold get_be16. by rewrite !byte_take by lia. Qed.

Lemma get_ip_take l n i : 0 ≤ i → i + 3 < Z.of_nat n → get_ip (take n l) i = get_ip l i.
Proof. intros H0 Hi. unfold get_ip. by rewrite !byte_take by lia. Qed.

Lemma range_take l n a b : 0 ≤ a → b ≤ Z.of_nat n → b ≤ len l → range (take n l) a b = range l a b.
Proof.
  intros Ha Hb Hl. rewrite <- (take_drop n l) at 2. rewrite range_app_l; [done| |done]. unfold len in *. rewrite length_take. lia.
Qed.

Lemma ex_ipv4_local bs h n : ex_ipv4 bs = Some h → (length (slice4 h) ≤ n)%nat → ex_ipv4 (take n bs) = Some h.
Proof.
  unfold ex_ipv4 at 1. destruct (byte bs 0) as [b0|] eqn:H0; [|done]. cbv zeta. set (ihl := 4 * Z.land b0 15).
  destruct (_ && (20 <=? ihl) && (ihl <=? len bs)) eqn:Hc; [|done]. destruct (range bs 0 ihl) as [slice|] eqn:Hs; [|done].
  apply andb_true_iff in Hc as [[Hv Hi%Z.leb_le]%andb_true_iff Hl%Z.leb_le].
  intros Hrest Hn. assert (ihl ≤ Z.of_nat n) as Hin.
  { assert (slice4 h = slice) as Heq by (revert Hrest; read_apart; by intros [= <-]). rewrite Heq in Hn.
    destruct (range_Some bs 0 ihl) as (x & Hx & Hxl & _); [lia|lia|]. rewrite Hs in Hx. injection Hx as <-. unfold len in *. lia. }
  unfold ex_ipv4. rewrite byte_take, H0 by lia. cbv zeta. fold ihl. rewrite Hv, (proj2 (Z.leb_le 20 ihl)) by lia.
  rewrite (proj2 (Z.leb_le ihl (len (take n bs)))) by (unfold len in *; rewrite length_take; lia). cbn [andb].
  rewrite range_take, Hs by lia. rewrite !get_be16_take, !byte_take, !get_ip_take by lia. exact Hrest.
Qed.

Lemma ex_ipv4_accepts bs b :
  Forall in_u8 bs → byte bs 0 = Some b → Z.shiftr b 4 = 4 → 5 ≤ Z.land b 15 → 4 * Z.land b 15 ≤ len bs →
  ∃ h, ex_ipv4 bs = Some h ∧ len (slice4 h) = 4 * Z.land b 15.
Proof.
  intros Hb H0 Hv Hi Hl. unfold ex_ipv4. rewrite H0. cbv zeta. set (ihl := 4 * Z.land b 15) in *. rewrite Hv, Z.eqb_refl.
  rewrite (proj2 (Z.leb_le 20 ihl)), (proj2 (Z.leb_le ihl _)) by lia. cbn [andb].
  destruct (range_Some bs 0 ihl) as (x & -> & Hx & _); [lia|lia|].
  destruct (get_be16_Some bs 2) as (? & -> & _); [done|lia|lia|]. destruct (get_be16_Some bs 4) as (? & -> & _); [done|lia|lia|].
  destruct (byte_Some bs 6) as (? & -> & _); [done|lia|]. destruct (get_be16_Some bs 6) as (? & -> & _); [done|lia|lia|].
  destruct (byte_Some bs 9) as (? & -> & _); [done|lia|]. destruct (get_ip_Some bs 12) as (? & -> & _); [done|lia|lia|].
  destruct (get_ip_Some bs 16) as (? & -> & _); [done|lia|lia|]. eexists. split; [done|]. cbn. lia.
Qed.

Lemma ex_ipv6_local bs h n : ex_ipv6 bs = Some h → (40 ≤ n)%nat → ex_ipv6 (take n bs) = Some h.
Proof.
  unfold ex_ipv6. intros Hh Hn. destruct (byte bs 0) as [b0|] eqn:H0; [|done]. rewrite byte_take, H0 by lia.
  destruct (_ && (40 <=? len bs)) eqn:Hc; [|done]. apply andb_true_iff in Hc as [-> Hl%Z.leb_le].
  rewrite (proj2 (Z.leb_le 40 (len (take n bs)))) by (unfold len in *; rewrite length_take; lia). cbn [andb].
  by rewrite get_be16_take, byte_take, !range_take by lia.
Qed.

Lemma ex_ipv6_accepts bs b : Forall in_u8 bs → byte bs 0 = Some b → Z.shiftr b 4 = 6 → 40 ≤ len bs → is_Some (ex_ipv6 bs).
Proof.
  intros Hb H0 H6 Hl. unfold ex_ipv6. rewrite H0, H6, Z.eqb_refl, (proj2 (Z.leb_le 40 _)) by lia. cbn [andb].
  destruct (get_be16_Some bs 4) as (? & -> & _); [done|lia|lia|]. destruct (byte_Some bs 6) as (? & -> & _); [done|lia|].
  destruct (range_Some bs 8 24) as (? & -> & _); [lia|lia|]. destruct (range_Some bs 24 40) as (? & -> & _); [lia|lia|]. by eexists.
Qed.

Lemma ex_tcp_accepts bs b :
  Forall in_u8 bs → byte bs 12 = Some b → 5 ≤ Z.shiftr b 4 → 4 * Z.shiftr b 4 ≤ len bs → is_Some (ex_tcp bs).
Proof.
  intros Hb H12 H5 Hl. unfold ex_tcp. rewrite (proj2 (Z.leb_le 20 _)) by lia. rewrite H12. cbv zeta.
  rewrite (proj2 (Z.leb_le 20 _)), (proj2 (Z.leb_le _ (len bs))) by lia. cbn [andb].
  destruct (get_be16_Some bs 0) as (? & -> & _); [done|lia|lia|]. destruct (get_be16_Some bs 2) as (? & -> & _); [done|lia|lia|].
  destruct (get_be32_Some bs 4) as (? & -> & _); [done|lia|lia|]. destruct (get_be32_Some bs 8) as (? & -> & _); [done|lia|lia|].
  destruct (get_be16_Some bs 14) as (? & -> & _); [done|lia|lia|]. by eexists.
Qed.

Lemma ex_laws : @EtherparseLaws ex_etherparse.
Proof.
  split.
  - intros bs h Hb. change (ex_ipv4 bs = Some h → ∃ rest, bs = slice4 h ++ rest ∧ 20 ≤ len (slice4 h) ∧
      Some (total_len4 h) = get_be16 bs 2 ∧ Some (identification4 h) = get_be16 bs 4 ∧
      (∃ b, byte bs 6 = Some b ∧ more_fragments4 h = Z.testbit b 5) ∧
      (∃ w, get_be16 bs 6 = Some w ∧ byte_offset4 h = 8 * Z.land w 0x1FFF) ∧
      Some (protocol4 h) = byte bs 9 ∧ Some (source4 h) = get_ip bs 12 ∧ Some (destination4 h) = get_ip bs 16).
    unfold ex_ipv4. read_apart. intros [= <-]. cbn. rewrite !andb_true_iff, !Z.leb_le in *.
    destruct (range_app bs (4 * Z.land z 15)) as (x & y & Hx & _ & Hl & ->); [lia|]. exists y.
    assert (l = x) as -> by congruence. split; [done|]. split; [lia|]. do 2 (split; [done|]). split; [eauto|]. split; [eauto|done].
  - intros bs h Hb. change (ex_ipv6 bs = Some h → 40 ≤ len bs ∧ Some (payload_length6 h) = get_be16 bs 4 ∧
      Some (next_header6 h) = byte bs 6 ∧ Some (source6 h) = range bs 8 24 ∧ Some (destination6 h) = range bs 24 40).
    unfold ex_ipv6. read_apart. intros [= <-]. cbn. rewrite !andb_true_iff, !Z.leb_le in *. split; [lia|done].
  - intros bs f Hb. change (ex_fragment bs = Some f → 8 ≤ len bs ∧ Some (part_next_header f) = byte bs 0 ∧
      ∃ w, get_be16 bs 2 = Some w ∧ part_byte_offset f = Z.land w 0xFFF8 ∧ part_more_fragments f = Z.testbit w 0).
    unfold ex_fragment. read_apart. intros [= <-]. cbn. rewrite !Z.leb_le in *. split; [lia|]. split; [done|]. by eexists.
  - intros bs h n. change (ex_ipv4 bs = Some h → (length (slice4 h) ≤ n)%nat → ex_ipv4 (take n bs) = Some h). apply ex_ipv4_local.
  - intros bs b Hb H0 H4 H5 Hl. change (∃ h, ex_ipv4 bs = Some h ∧ len (slice4 h) = 4 * Z.land b 15). by apply ex_ipv4_accepts.
  - intros bs h n. change (ex_ipv6 bs = Some h → (40 ≤ n)%nat → ex_ipv6 (take n bs) = Some h). apply ex_ipv6_local.
  - intros bs b Hb H0 H6 Hl. change (is_Some (ex_ipv6 bs)). by apply (ex_ipv6_accepts bs b).
  - intros bs t Hb. change (ex_tcp bs = Some t → 20 ≤ len bs ∧ tcp_slice t = bs ∧
      Some (tcp_source_port t) = get_be16 bs 0 ∧ Some (tcp_destination_port t) = get_be16 bs 2 ∧
      Some (tcp_sequence_number t) = get_be32 bs 4 ∧ Some (tcp_acknowledgment_number t) = get_be32 bs 8 ∧
      Some (tcp_window_size t) = get_be16 bs 14 ∧
      ∃ b, byte bs 12 = Some b ∧ 4 * Z.shiftr b 4 ≤ len bs ∧ tcp_payload t = drop (Z.to_nat (4 * Z.shiftr b 4)) bs).
    unfold ex_tcp. read_apart. cbv zeta. read_apart. intros [= <-]. cbn [tcp_slice tcp_source_port tcp_destination_port
      tcp_sequence_number tcp_acknowledgment_number tcp_window_size tcp_payload]. rewrite !andb_true_iff, !Z.leb_le in *.
    do 7 (split; [done || lia|]). eexists. split; [done|]. split; [lia|done].
  - intros bs b Hb H12 H5 Hl. change (is_Some (ex_tcp bs)). by apply (ex_tcp_accepts bs b).
  - reflexivity.
  - intros bs n n' rest. change (ex_skip bs n = Some (n', rest) → ∃ ext, bs = ext ++ rest ∧ 0 < len ext ∧ Some n' = byte bs 0).
    unfold ex_skip. read_apart. cbv zeta. set (length := if n =? 44 then _ else _). read_apart. intros [= <- <-].
    rewrite !andb_true_iff, !Z.ltb_lt, !Z.leb_le in *. exists (take (Z.to_nat length) bs). rewrite take_drop. split; [done|].
    split; [|done]. unfold len in *. rewrite length_take. lia.
Qed.
End IpView.
