(* ===== verification/TcpFrame.v ===== *)
(** * TCP frames

    [src/common/arcbox-packet/src/ethernet/tcp.rs]: the frames the TCP bridge sends to
    the guest, of either IP version, and the options of SYN segments; and [tcp_at] of
    [src/common/splicetcp/src/tcp_bridge/packet.rs], which reads the guest's. [None] is
    a panic. *)

From Stdlib Require Import ZArith Lia.
From stdpp Require Import base numbers list.
From S2P Require Import Prelude Bits Checksum Bytes EthFrame IpView.

Open Scope Z_scope.

Module TcpFrame.

Import IpView.

(** ** Building *)

Record TcpFrameParams := MkParams {
  src_ip : IpAddr; dst_ip : IpAddr; src_port : Z; dst_port : Z; seq : Z; ack : Z; window : Z; src_mac : list Z; dst_mac : list Z
}.
#[export] Instance eta_TcpFrameParams : Eta TcpFrameParams := {|
  eta p := MkParams (src_ip p) (dst_ip p) (src_port p) (dst_port p) (seq p) (ack p) (window p) (src_mac p) (dst_mac p);
  eta_ok := ltac:(by intros [])
|}.

Section Build.
Context (arch : Arch).

(** [tcp_checksum] of [checksum.rs]: the field is taken out of the sum of the whole
    segment. *)
Definition tcp_checksum (src_ip dst_ip : Ipv4) (tcp_segment : list Z) : option Z :=
  let sum := wrapping_add32 0 (be16 (ip0 src_ip) (ip1 src_ip)) in
  let sum := wrapping_add32 sum (be16 (ip2 src_ip) (ip3 src_ip)) in
  let sum := wrapping_add32 sum (be16 (ip0 dst_ip) (ip1 dst_ip)) in
  let sum := wrapping_add32 sum (be16 (ip2 dst_ip) (ip3 dst_ip)) in
  let sum := wrapping_add32 sum 6 in
  let sum := wrapping_add32 sum (wrap32 (len tcp_segment)) in
  let sum := wrapping_add32 sum (checksum_add arch tcp_segment) in
  let! sum := if 18 <=? len tcp_segment then let! field := get_be16 tcp_segment 16 in Some (wrap32 (sum - field)) else Some sum in
  Some (wrap16 (not32 (Eth.fold16_loop 2 sum))).

(** The sum of a segment over IP version 6. *)
Definition tcp6_checksum (src dst tcp_segment : list Z) : Z :=
  let sum := wrapping_add32 (checksum_add arch src) (checksum_add arch dst) in
  let sum := wrapping_add32 sum (wrap32 (len tcp_segment)) in
  let sum := wrapping_add32 sum 6 in
  let sum := wrapping_add32 sum (checksum_add arch tcp_segment) in
  wrap16 (not32 (Eth.fold16_loop 2 sum)).

(** The header of the IP packet, in place. *)
Definition put_ip4 (frame : list Z) (length : Z) (src dst : Ipv4) : option (list Z) :=
  let ip := Eth.ETH_HEADER_LEN in
  let! frame := put frame 12 (to_be16 0x0800) in
  let! frame := put frame ip [0x45] in
  let! frame := put frame (ip + 2) (to_be16 length) in
  let! frame := put frame (ip + 6) (to_be16 0x4000) in
  let! frame := put frame (ip + 8) [64] in
  let! frame := put frame (ip + 9) [6] in
  let! frame := put frame (ip + 12) (octets src) in
  let! frame := put frame (ip + 16) (octets dst) in
  let! header := range frame ip (ip + 20) in
  put frame (ip + 10) (to_be16 (Eth.ipv4_header_checksum header)).

Definition put_ip6 (frame : list Z) (length : Z) (src dst : list Z) : option (list Z) :=
  let ip := Eth.ETH_HEADER_LEN in
  let! frame := put frame 12 (to_be16 0x86dd) in
  let! frame := put frame ip [0x60] in
  let! frame := put frame (ip + 4) (to_be16 length) in
  let! frame := put frame (ip + 6) [6] in
  let! frame := put frame (ip + 7) [64] in
  let! frame := put frame (ip + 8) src in
  put frame (ip + 24) dst.

Definition put_tcp (frame : list Z) (tcp : Z) (p : TcpFrameParams) (flags header_len : Z) : option (list Z) :=
  let! frame := put frame tcp (to_be16 (src_port p)) in
  let! frame := put frame (tcp + 2) (to_be16 (dst_port p)) in
  let! frame := put frame (tcp + 4) (to_be32 (seq p)) in
  let! frame := put frame (tcp + 8) (to_be32 (ack p)) in
  let! frame := put frame (tcp + 12) [wrap8 (Z.shiftl (wrap8 (header_len / 4)) 4)] in
  let! frame := put frame (tcp + 13) [flags] in
  put frame (tcp + 14) (to_be16 (window p)).

Definition build_frame (p : TcpFrameParams) (flags : Z) (options payload : list Z) : option (list Z) :=
  let tcp_header_len := 20 + len options in
  let tcp_len := tcp_header_len + len payload in
  let! ip_len := match src_ip p, dst_ip p with V4 _, V4 _ => Some 20 | V6 _, V6 _ => Some 40 | _, _ => None end in
  let length := if ip_len =? 20 then ip_len + tcp_len else tcp_len in
  let! length := if length <? u16_bound then Some length else None in
  let tcp := Eth.ETH_HEADER_LEN + ip_len in
  let frame := replicate (Z.to_nat (tcp + 20)) 0 in
  let! frame := put frame 0 (dst_mac p) in
  let! frame := put frame 6 (src_mac p) in
  let! frame :=
    match src_ip p, dst_ip p with
    | V4 src, V4 dst => put_ip4 frame length src dst
    | V6 src, V6 dst => put_ip6 frame length src dst
    | _, _ => None
    end in
  let! frame := put_tcp frame tcp p flags tcp_header_len in
  let frame := frame ++ options ++ payload in
  let! segment := range frame tcp (len frame) in
  let! checksum :=
    match src_ip p, dst_ip p with
    | V4 src, V4 dst => tcp_checksum src dst segment
    | V6 src, V6 dst => Some (tcp6_checksum src dst segment)
    | _, _ => None
    end in
  put frame (tcp + 16) (to_be16 checksum).

Definition build_tcp_ack_frame (p : TcpFrameParams) : option (list Z) := build_frame p 0x10 [] [].
Definition build_tcp_data_frame (p : TcpFrameParams) (payload : list Z) : option (list Z) := build_frame p 0x18 [] payload.
Definition build_tcp_fin_frame (p : TcpFrameParams) : option (list Z) := build_frame (p <| window := 65535 |>) 0x11 [] [].
Definition build_tcp_rst_frame (p : TcpFrameParams) : option (list Z) := build_frame (p <| window := 0 |>) 0x14 [] [].
Definition build_tcp_rst_only_frame (p : TcpFrameParams) : option (list Z) :=
  build_frame (p <| ack := 0 |> <| window := 0 |>) 0x04 [] [].

(** The sum of the pseudo-header alone. *)
Definition tcp_pseudo_header_checksum (src_ip dst_ip : Ipv4) (tcp_len : Z) : Z :=
  let sum := wrapping_add32 0 (be16 (ip0 src_ip) (ip1 src_ip)) in
  let sum := wrapping_add32 sum (be16 (ip2 src_ip) (ip3 src_ip)) in
  let sum := wrapping_add32 sum (be16 (ip0 dst_ip) (ip1 dst_ip)) in
  let sum := wrapping_add32 sum (be16 (ip2 dst_ip) (ip3 dst_ip)) in
  let sum := wrapping_add32 sum 6 in
  let sum := wrapping_add32 sum (wrap32 tcp_len) in
  wrap16 (not32 (Eth.fold16_loop 2 sum)).

(** The frame of a large segment, the rest of whose checksum the guest computes;
    the addresses are of version 4. *)
Definition build_tcp_data_frame_partial_csum (p : TcpFrameParams) (src dst : Ipv4) (payload : list Z) : option (list Z) :=
  let tcp_total_len := 20 + len payload in
  let ip_total_len := 20 + tcp_total_len in
  if negb (ip_total_len <? u16_bound) then None
  else
    let frame := replicate (Z.to_nat (Eth.ETH_HEADER_LEN + 20 + 20)) 0 in
    let! frame := put frame 0 (dst_mac p) in
    let! frame := put frame 6 (src_mac p) in
    let! frame := put_ip4 frame (wrap16 ip_total_len) src dst in
    let tcp := Eth.ETH_HEADER_LEN + 20 in
    let! frame := put_tcp frame tcp p 0x18 20 in
    let frame := frame ++ payload in
    put frame (tcp + 16) (to_be16 (tcp_pseudo_header_checksum src dst tcp_total_len)).

(** ** Options of SYN segments *)

Record TcpSynOptions := MkSynOptions { mss : option Z; wscale : option Z; sack_permitted : bool; timestamps : bool }.
#[export] Instance eta_TcpSynOptions : Eta TcpSynOptions := {|
  eta o := MkSynOptions (mss o) (wscale o) (sack_permitted o) (timestamps o);
  eta_ok := ltac:(by intros [])
|}.

(** The loop of [parse_tcp_syn_options] from the index [i]. *)
Fixpoint syn_options_loop (fuel : nat) (options : list Z) (i : Z) (opts : TcpSynOptions) : option TcpSynOptions :=
  match fuel with
  | O => if i <? len options then None else Some opts
  | S fuel =>
      if i <? len options then
        let! kind := byte options i in
        if kind =? 0 then Some opts
        else if kind =? 1 then syn_options_loop fuel options (i + 1) opts
        else if kind =? 2 then
          if len options <? i + 4 then Some opts
          else
            let! n := byte options (i + 1) in
            if negb (n =? 4) then Some opts
            else let! v := get_be16 options (i + 2) in syn_options_loop fuel options (i + 4) (opts <| mss := Some v |>)
        else if kind =? 3 then
          if len options <? i + 3 then Some opts
          else
            let! n := byte options (i + 1) in
            if negb (n =? 3) then Some opts
            else let! v := byte options (i + 2) in syn_options_loop fuel options (i + 3) (opts <| wscale := Some (Z.min v 14) |>)
        else if kind =? 4 then
          if len options <? i + 2 then Some opts
          else
            let! n := byte options (i + 1) in
            if negb (n =? 2) then Some opts else syn_options_loop fuel options (i + 2) (opts <| sack_permitted := true |>)
        else if kind =? 8 then
          if len options <? i + 10 then Some opts
          else
            let! n := byte options (i + 1) in
            if negb (n =? 10) then Some opts else syn_options_loop fuel options (i + 10) (opts <| timestamps := true |>)
        else if len options <=? i + 1 then Some opts
        else
          let! n := byte options (i + 1) in
          if (n <? 2) || (len options <? i + n) then Some opts else syn_options_loop fuel options (i + n) opts
      else Some opts
  end.

Definition parse_tcp_syn_options (tcp_segment : list Z) : option TcpSynOptions :=
  let opts := MkSynOptions None None false false in
  if len tcp_segment <? 20 then Some opts
  else
    let! offset := byte tcp_segment 12 in
    let data_offset := Z.shiftr offset 4 * 4 in
    if (data_offset <? 20) || (len tcp_segment <? data_offset) then Some opts
    else
      let! options := range tcp_segment 20 data_offset in
      syn_options_loop (length options) options 0 opts.

(** [while !options.len().is_multiple_of(4)]: at most three bytes of padding. *)
Definition pad4 (options : list Z) : list Z := options ++ replicate (Z.to_nat ((- len options) mod 4)) 1.
Definition syn_options (mss : Z) (wscale : option Z) (sack_permitted : bool) : list Z :=
  pad4 (([2; 4] ++ to_be16 mss) ++ (if sack_permitted then [4; 2] else []) ++
    match wscale with Some shift => [3; 3; shift] | None => [] end).

(** [SynAckParams] and [SynParams]: the window is set by the builder. *)
Definition build_tcp_syn_ack_frame (p : TcpFrameParams) (mss : Z) (wscale : option Z) (sack_permitted : bool) : option (list Z) :=
  build_frame (p <| window := 65535 |>) 0x12 (syn_options mss wscale sack_permitted) [].
Definition build_tcp_syn_frame (p : TcpFrameParams) (mss : Z) (wscale : option Z) (sack_permitted : bool) : option (list Z) :=
  build_frame (p <| ack := 0 |> <| window := 65535 |>) 0x02 (syn_options mss wscale sack_permitted) [].

End Build.

(** ** Reading *)

Section Read.
Context `{Etherparse}.

(** A [TcpPacketView]: the IP view and the segment. *)
Definition TcpView : Type := IpPacketView * TcpSlice.

Definition tcp_at (frame : list Z) (ip_start : Z) : option (option TcpView) :=
  if len frame <? ip_start then Some None
  else
    let! bytes := range frame ip_start (len frame) in
    let! parsed := parse bytes in
    match parsed with
    | None => Some None
    | Some ip =>
        let v6 := is_ipv6 (source ip) in
        let max_len := if (v6 : bool) then 40 + 65535 else 65535 in
        if (ip_start =? 0) && (max_len <? len frame) then Some None
        else
          let! wrong :=
            if ip_start =? Eth.ETH_HEADER_LEN then
              let! ethertype := range frame 12 14 in
              Some (negb (bool_decide (ethertype = if (v6 : bool) then [0x86; 0xdd] else [0x08; 0x00])))
            else Some false in
          if (wrong : bool) then Some None
          else match tcp_parse ip with Some tcp => Some (Some (ip, tcp)) | None => Some None end
    end.

Definition tcp_flags (tcp : TcpSlice) : option Z := byte (tcp_slice tcp) 13.

End Read.

(** ** The bytes of a built frame *)

Lemma put_behind pre l i bs l' : 0 ≤ i → put l i bs = Some l' → put (pre ++ l) (len pre + i) bs = Some (pre ++ l').
Proof.
  intros Hi. unfold put, len. destruct (Z.leb_spec (i + Z.of_nat (length bs)) (Z.of_nat (length l))) as [Hb|]; [|done].
  intros [= <-]. rewrite length_app, (proj2 (Z.leb_le _ _)) by lia.
  replace (Z.to_nat (Z.of_nat (length pre) + i)) with (length pre + Z.to_nat i)%nat by lia.
  replace (Z.to_nat (Z.of_nat (length pre) + i + Z.of_nat (length bs))) with (length pre + Z.to_nat (i + Z.of_nat (length bs)))%nat by lia.
  by rewrite take_app_add, drop_app_add, <- app_assoc.
Qed.

Definition ip4_with (length sum : Z) (src dst : Ipv4) : list Z :=
  [0x45; 0] ++ to_be16 length ++ [0; 0; 0x40; 0; 64; 6] ++ to_be16 sum ++ octets src ++ octets dst.
Definition ip4_of (length : Z) (src dst : Ipv4) : list Z :=
  ip4_with length (Eth.ipv4_header_checksum (ip4_with length 0 src dst)) src dst.
Definition ip6_of (length : Z) (src dst : list Z) : list Z := [0x60; 0; 0; 0] ++ to_be16 length ++ [6; 64] ++ src ++ dst.

Definition tcp_of (p : TcpFrameParams) (flags header_len sum : Z) : list Z :=
  to_be16 (src_port p) ++ to_be16 (dst_port p) ++ to_be32 (seq p) ++ to_be32 (ack p) ++
  [wrap8 (Z.shiftl (wrap8 (header_len / 4)) 4); flags] ++ to_be16 (window p) ++ to_be16 sum ++ [0; 0].

Lemma put_ip4_eq dm sm tail n src dst :
  length dm = 6%nat → length sm = 6%nat →
  put_ip4 ((dm ++ sm ++ replicate 22 0) ++ tail) n src dst = Some ((dm ++ sm ++ [8; 0] ++ ip4_of n src dst) ++ tail).
Proof.
  intros Hd Hs. do 6 (destruct dm as [|? dm]; [done|]). destruct dm; [|done].
  do 6 (destruct sm as [|? sm]; [done|]). destruct sm; [|done]. destruct src as [s0 s1 s2 s3], dst as [d0 d1 d2 d3].
  unfold put_ip4, ip4_of, ip4_with, to_be16, octets. change (0 / 256) with 0. change (0 mod 256) with 0.
  generalize (n / 256) (n mod 256). intros n0 n1.
  do 8 (erewrite put_app_l; [|unfold Eth.ETH_HEADER_LEN; lia|cbv; reflexivity]). rewrite range_app_l by (done || (unfold Eth.ETH_HEADER_LEN; lia)).
  match goal with |- context [range ?l ?a ?b] => let r := eval cbv in (range l a b) in change (range l a b) with r end. cbv beta iota.
  match goal with |- context [Eth.ipv4_header_checksum ?l / 256] => set (c := Eth.ipv4_header_checksum l) end.
  remember (c / 256) as c0. remember (c mod 256) as c1.
  erewrite put_app_l; [|unfold Eth.ETH_HEADER_LEN; lia|cbv; reflexivity]. by subst c0 c1.
Qed.

Lemma put_ip6_eq dm sm tail n src dst :
  length dm = 6%nat → length sm = 6%nat → length src = 16%nat → length dst = 16%nat →
  put_ip6 ((dm ++ sm ++ replicate 42 0) ++ tail) n src dst = Some ((dm ++ sm ++ [0x86; 0xdd] ++ ip6_of n src dst) ++ tail).
Proof.
  intros Hd Hm Hs Ht. do 6 (destruct dm as [|? dm]; [done|]). destruct dm; [|done].
  do 6 (destruct sm as [|? sm]; [done|]). destruct sm; [|done].
  do 16 (destruct src as [|? src]; [done|]). destruct src; [|done]. do 16 (destruct dst as [|? dst]; [done|]). destruct dst; [|done].
  unfold put_ip6, ip6_of, to_be16. generalize (n / 256) (n mod 256). intros n0 n1.
  do 7 (erewrite put_app_l; [|unfold Eth.ETH_HEADER_LEN; lia|cbv; reflexivity]). done.
Qed.

Lemma put_macs k n dm sm {A} (f : list Z → option A) :
  Z.to_nat n = (12 + k)%nat → length dm = 6%nat → length sm = 6%nat →
  (let! frame := put (replicate (Z.to_nat n) 0) 0 dm in let! frame := put frame 6 sm in f frame) = f (dm ++ sm ++ replicate k 0).
Proof.
  intros -> Hd Hs. rewrite replicate_add. do 6 (destruct dm as [|? dm]; [done|]). destruct dm; [|done].
  do 6 (destruct sm as [|? sm]; [done|]). destruct sm; [|done]. do 2 (erewrite put_app_l; [|lia|cbv; reflexivity]). done.
Qed.

Lemma put_tcp_eq pre p flags hl :
  put_tcp (pre ++ replicate 20 0) (len pre) p flags hl = Some (pre ++ tcp_of p flags hl 0).
Proof.
  unfold put_tcp, tcp_of, to_be32, to_be16. change (0 / 256) with 0. change (0 mod 256) with 0.
  generalize (wrap8 (Z.shiftl (wrap8 (hl / 4)) 4)). intros o. replace (len pre) with (len pre + 0) at 1 by lia.
  generalize (src_port p / 256) (src_port p mod 256) (dst_port p / 256) (dst_port p mod 256) (window p / 256) (window p mod 256)
    (seq p / 65536 / 256) ((seq p / 65536) mod 256) (seq p mod 65536 / 256) ((seq p mod 65536) mod 256)
    (ack p / 65536 / 256) ((ack p / 65536) mod 256) (ack p mod 65536 / 256) ((ack p mod 65536) mod 256). intros.
  do 7 (erewrite put_behind; [|lia|cbv; reflexivity]). done.
Qed.

(** What the builders are given. *)
Definition addr_ok (a : IpAddr) : Prop :=
  match a with V4 ip => ip_ok ip | V6 o => length o = 16%nat ∧ Forall in_u8 o end.
Record params_ok (p : TcpFrameParams) : Prop := {
  po_src : addr_ok (src_ip p);
  po_dst : addr_ok (dst_ip p);
  po_family : is_ipv4 (src_ip p) = is_ipv4 (dst_ip p);
  po_ports : in_u16 (src_port p) ∧ in_u16 (dst_port p);
  po_numbers : in_u32 (seq p) ∧ in_u32 (ack p) ∧ in_u16 (window p);
  po_macs : Eth.mac_ok (src_mac p) ∧ Eth.mac_ok (dst_mac p)
}.

Definition addr_bytes (a : IpAddr) : list Z := match a with V4 ip => octets ip | V6 o => o end.

(** The type of the frame and its IP header, in front of [n] bytes of TCP. *)
Definition ip_of_params (p : TcpFrameParams) (n : Z) : list Z :=
  match src_ip p, dst_ip p with
  | V4 src, V4 dst => [8; 0] ++ ip4_of (20 + n) src dst
  | V6 src, V6 dst => [0x86; 0xdd] ++ ip6_of n src dst
  | _, _ => []
  end.

Definition pseudo_of (p : TcpFrameParams) (n : Z) : Z := be_sum (addr_bytes (src_ip p)) + be_sum (addr_bytes (dst_ip p)) + 6 + n.

(** The frame with [sum] in the field of the TCP checksum. *)
Definition frame_of (p : TcpFrameParams) (flags : Z) (options payload : list Z) (sum : Z) : list Z :=
  dst_mac p ++ src_mac p ++ ip_of_params p (20 + len options + len payload) ++ tcp_of p flags (20 + len options) sum ++ options ++ payload.

Lemma addr_bounds a : addr_ok a → 0 ≤ be_sum (addr_bytes a) ≤ 16 * 65535.
Proof.
  intros Ha. assert (Forall in_u8 (addr_bytes a) ∧ (length (addr_bytes a) ≤ 16)%nat) as [Hu Hl].
  { destruct a as [ip|o]; cbn in *; [|destruct Ha; split; [done|lia]]. split; [by apply octets_u8|cbn; lia]. }
  pose proof (be_sum_bounds _ Hu). lia.
Qed.

(** The checksum over a segment whose field is zero. *)
Section Sums.
Context (arch : Arch).

Lemma zero_field_sum p segment c :
  params_ok p → Forall in_u8 segment → 18 ≤ len segment < 65536 → get_be16 segment 16 = Some 0 →
  match src_ip p, dst_ip p with
  | V4 src, V4 dst => tcp_checksum arch src dst segment = Some c
  | V6 src, V6 dst => tcp6_checksum arch src dst segment = c
  | _, _ => False
  end → in_u16 c ∧ (pseudo_of p (len segment) + be_sum segment + c) mod 65535 = 0.
Proof.
  intros Hp Hu Hl Hf Hc. set (s := pseudo_of p (len segment) + be_sum segment).
  pose proof (addr_bounds _ (po_src _ Hp)) as Bs. pose proof (addr_bounds _ (po_dst _ Hp)) as Bd. destruct (be_sum_bounds segment Hu) as [B1 B2].
  assert (0 ≤ s < u32_bound) as Hs by (unfold s, pseudo_of, len, u32_bound in *; lia).
  apply filled_sum; [done|]. left.
  assert (∀ sum, in_u32 sum → same32 sum s → wrap16 (not32 (Eth.fold16_loop 2 sum)) = checksum_fold (wrap32 s)) as Hfold.
  { intros sum Hsum Hsame. rewrite Eth.fold16_checksum by done. f_equal. apply same32_eq; [done|apply in_u32_wrap|by rewrite same32_wrap]. }
  unfold s, pseudo_of in *. destruct (src_ip p) as [src|src], (dst_ip p) as [dst|dst]; try done; cbn [addr_bytes] in *.
  - unfold tcp_checksum in Hc. rewrite (proj2 (Z.leb_le 18 _)), Hf in Hc by lia. apply (inj Some) in Hc. rewrite <- Hc. apply Hfold; [apply in_u32_wrap|].
    rewrite Z.sub_0_r. unfold wrapping_add32. rewrite !same32_wrap, checksum_add_sum, same32_wrap. apply same32_of_eq.
    unfold octets. simpl. lia.
  - subst c. apply Hfold; [apply in_u32_wrap|]. unfold wrapping_add32. rewrite !same32_wrap, !checksum_add_sum, !same32_wrap.
    apply same32_of_eq. lia.
Qed.

Lemma to_be32_u8 v : in_u32 v → Forall in_u8 (to_be32 v).
Proof.
  intros Hv. unfold to_be32, in_u32, u32_bound in *. apply Forall_app. split; apply to_be16_u8; unfold in_u16, u16_bound;
    Z.to_euclidean_division_equations; lia.
Qed.

Lemma tcp_of_u8 p flags hl sum : params_ok p → in_u8 flags → in_u16 sum → Forall in_u8 (tcp_of p flags hl sum).
Proof.
  intros Hp Hf Hs. destruct (po_ports _ Hp), (po_numbers _ Hp) as (? & ? & ?). unfold tcp_of. rewrite !Forall_app.
  do 2 (split; [by apply to_be16_u8|]). do 2 (split; [by apply to_be32_u8|]).
  split; [apply Forall_cons; split; [apply in_u8_wrap|by apply Forall_singleton]|]. do 2 (split; [by apply to_be16_u8|]). by repeat constructor.
Qed.

Lemma tcp_of_sum p flags hl sum rest : be_sum (tcp_of p flags hl sum ++ rest) = be_sum (tcp_of p flags hl 0 ++ rest) + sum.
Proof.
  set (pre := to_be16 (src_port p) ++ to_be16 (dst_port p) ++ to_be32 (seq p) ++ to_be32 (ack p) ++
    [wrap8 (Z.shiftl (wrap8 (hl / 4)) 4); flags] ++ to_be16 (window p)).
  assert (∀ s, tcp_of p flags hl s ++ rest = pre ++ to_be16 s ++ [0; 0] ++ rest) as He by reflexivity.
  rewrite !He, !be_sum_field by (by exists 8%nat). lia.
Qed.

(** The segment of a frame to be, its checksum still zero, and the checksum. *)
Lemma segment_sum p flags options payload :
  params_ok p → in_u8 flags → Forall in_u8 options → Forall in_u8 payload → 20 + len options + len payload ≤ 65535 →
  let segment := tcp_of p flags (20 + len options) 0 ++ options ++ payload in
  len segment = 20 + len options + len payload ∧
  ∃ sum, in_u16 sum ∧ (pseudo_of p (len segment) + be_sum (tcp_of p flags (20 + len options) sum ++ options ++ payload)) mod 65535 = 0 ∧
  match src_ip p, dst_ip p with
  | V4 src, V4 dst => tcp_checksum arch src dst segment = Some sum
  | V6 src, V6 dst => tcp6_checksum arch src dst segment = sum
  | _, _ => False
  end.
Proof.
  intros Hp Hf Ho Hpl Hl segment. assert (len segment = 20 + len options + len payload) as Hsl.
  { unfold segment. rewrite !len_app. change (len (tcp_of p flags (20 + len options) 0)) with 20. lia. }
  split; [done|]. pose proof (len_nonneg options). pose proof (len_nonneg payload).
  assert (Forall in_u8 segment) as Hu by (apply Forall_app; split; [by apply tcp_of_u8|by apply Forall_app]).
  assert (∃ sum, match src_ip p, dst_ip p with
    | V4 src, V4 dst => tcp_checksum arch src dst segment = Some sum
    | V6 src, V6 dst => tcp6_checksum arch src dst segment = sum
    | _, _ => False
    end) as [sum Hsum].
  { pose proof (po_family _ Hp) as Hfam. destruct (src_ip p), (dst_ip p); try done; [|by eexists].
    unfold tcp_checksum. destruct (18 <=? len segment); [|by eexists]. by eexists. }
  exists sum. destruct (zero_field_sum p segment sum) as [H1 H2]; [done|done|lia|done|done|].
  split; [done|]. split; [|done]. rewrite tcp_of_sum. fold segment. by rewrite Z.add_assoc.
Qed.

(** [build_frame], as the parts of the frame it builds. *)
Lemma tcp_build_frame_eq p flags options payload :
  params_ok p → in_u8 flags → Forall in_u8 options → Forall in_u8 payload →
  let n := 20 + len options + len payload in
  n + (if is_ipv4 (src_ip p) then 20 else 0) ≤ 65535 →
  ∃ sum, in_u16 sum ∧ (pseudo_of p n + be_sum (tcp_of p flags (20 + len options) sum ++ options ++ payload)) mod 65535 = 0 ∧
  build_frame arch p flags options payload = Some (frame_of p flags options payload sum).
Proof.
  intros Hp Hf Ho Hpl n Hn. assert (n ≤ 65535) as Hn' by (destruct (is_ipv4 (src_ip p)); lia).
  destruct (segment_sum p flags options payload Hp Hf Ho Hpl Hn') as [Hsl (sum & Hs & Hsum & Hck)].
  set (segment := tcp_of p flags (20 + len options) 0 ++ options ++ payload) in *. rewrite Hsl in Hsum. exists sum. split; [done|]. split; [done|].
  destruct (po_macs _ Hp) as [[Hsm _] [Hdm _]].
  assert (∀ pre, put (pre ++ segment) (len pre + 16) (to_be16 sum) = Some (pre ++ tcp_of p flags (20 + len options) sum ++ options ++ payload)) as Hput.
  { intros pre. apply put_behind; [lia|]. unfold segment. apply put_app_l; [lia|]. unfold tcp_of, to_be32, to_be16. reflexivity. }
  unfold build_frame, frame_of, ip_of_params. fold n. pose proof (po_src _ Hp) as Ha. pose proof (po_dst _ Hp) as Hb.
  destruct (src_ip p) as [src|src], (dst_ip p) as [dst|dst]; try done; cbn [is_ipv4 addr_ok] in *; cbn [Z.eqb Pos.eqb].
  - rewrite (proj2 (Z.ltb_lt (20 + n) _)) by (unfold u16_bound; lia). rewrite (put_macs 42) by done.
    replace (dst_mac p ++ src_mac p ++ replicate 42 0) with ((dst_mac p ++ src_mac p ++ replicate 22 0) ++ replicate 20 0)
      by (by rewrite <- !app_assoc).
    rewrite put_ip4_eq by done. set (pre := dst_mac p ++ src_mac p ++ [8; 0] ++ ip4_of (20 + n) src dst).
    assert (Eth.ETH_HEADER_LEN + 20 = len pre) as -> by (unfold pre, len; rewrite !length_app, Hsm, Hdm; done).
    rewrite put_tcp_eq, <- app_assoc. fold segment. rewrite range_all, Hck, Hput. f_equal. unfold pre. by rewrite <- !app_assoc.
  - rewrite (proj2 (Z.ltb_lt n _)) by (unfold u16_bound; lia). destruct Ha as [Ha _], Hb as [Hb _]. rewrite (put_macs 62) by done.
    replace (dst_mac p ++ src_mac p ++ replicate 62 0) with ((dst_mac p ++ src_mac p ++ replicate 42 0) ++ replicate 20 0)
      by (by rewrite <- !app_assoc).
    rewrite put_ip6_eq by done. set (pre := dst_mac p ++ src_mac p ++ [0x86; 0xdd] ++ ip6_of n src dst).
    assert (Eth.ETH_HEADER_LEN + 40 = len pre) as -> by (unfold pre, ip6_of, len; rewrite !length_app, Hsm, Hdm, Ha, Hb; done).
    rewrite put_tcp_eq, <- app_assoc. fold segment. rewrite range_all, Hck, Hput. f_equal. unfold pre. by rewrite <- !app_assoc.
Qed.

(** The frame of a large segment: the field of the checksum holds the complement of
    the sum of the pseudo-header. *)
Lemma pseudo_sum p src dst n :
  params_ok p → src_ip p = V4 src → dst_ip p = V4 dst → 0 ≤ n ≤ 65535 →
  let c := tcp_pseudo_header_checksum src dst n in in_u16 c ∧ (pseudo_of p n + c) mod 65535 = 0.
Proof.
  intros Hp Hsrc Hdst Hn c. pose proof (addr_bounds _ (po_src _ Hp)) as Bs. pose proof (addr_bounds _ (po_dst _ Hp)) as Bd.
  assert (0 ≤ pseudo_of p n < u32_bound) as Hs by (unfold pseudo_of, u32_bound in *; lia).
  apply filled_sum; [done|]. left. unfold c, tcp_pseudo_header_checksum. rewrite Eth.fold16_checksum by apply in_u32_wrap. f_equal.
  apply same32_eq; [apply in_u32_wrap|apply in_u32_wrap|]. unfold wrapping_add32. rewrite !same32_wrap. apply same32_of_eq.
  unfold pseudo_of. rewrite Hsrc, Hdst. unfold addr_bytes, octets. simpl. lia.
Qed.

Lemma partial_frame_eq p src dst payload :
  params_ok p → src_ip p = V4 src → dst_ip p = V4 dst → 40 + len payload ≤ 65535 →
  build_tcp_data_frame_partial_csum p src dst payload =
    Some (frame_of p 0x18 [] payload (tcp_pseudo_header_checksum src dst (20 + len payload))).
Proof.
  intros Hp Hsrc Hdst Hn. pose proof (len_nonneg payload) as H0. destruct (po_macs _ Hp) as [[Hsm _] [Hdm _]].
  set (sum := tcp_pseudo_header_checksum src dst (20 + len payload)). unfold build_tcp_data_frame_partial_csum.
  rewrite (proj2 (Z.ltb_lt _ _)) by (unfold u16_bound; lia). cbn [negb]. rewrite (put_macs 42) by done.
  replace (dst_mac p ++ src_mac p ++ replicate 42 0) with ((dst_mac p ++ src_mac p ++ replicate 22 0) ++ replicate 20 0)
    by (by rewrite <- !app_assoc).
  rewrite put_ip4_eq by done. replace (wrap16 _) with (20 + (20 + len payload)) by (unfold wrap16, u16_bound; rewrite Z.mod_small; lia).
  set (pre := dst_mac p ++ src_mac p ++ [8; 0] ++ ip4_of (20 + (20 + len payload)) src dst).
  assert (Eth.ETH_HEADER_LEN + 20 = len pre) as -> by (unfold pre, len; rewrite !length_app, Hsm, Hdm; done).
  rewrite put_tcp_eq, <- app_assoc. fold sum.
  rewrite (put_behind pre _ 16 _ (tcp_of p 0x18 20 sum ++ payload)); [|lia|].
  - f_equal. unfold frame_of, ip_of_params. rewrite Hsrc, Hdst. change (len []) with 0. unfold pre.
    rewrite <- !app_assoc, !Z.add_0_r. done.
  - apply put_app_l; [lia|]. unfold tcp_of, to_be32, to_be16. reflexivity.
Qed.

(** A device that completes the checksum, as the flag [NEEDS_CSUM] asks, writes the
    complement of the sum of the segment with the field in it. The sum of the
    pseudo-header is then in the segment twice, and the checksum is wrong unless it
    is a multiple of 65535. *)
Lemma completed_partial_sum p src dst payload c :
  params_ok p → src_ip p = V4 src → dst_ip p = V4 dst → 40 + len payload ≤ 65535 →
  let n := 20 + len payload in
  (be_sum (tcp_of p 0x18 20 (tcp_pseudo_header_checksum src dst n) ++ payload) + c) mod 65535 = 0 →
  (pseudo_of p n + be_sum (tcp_of p 0x18 20 c ++ payload)) mod 65535 = (2 * pseudo_of p n) mod 65535.
Proof.
  intros Hp Hsrc Hdst Hn n Hc. pose proof (len_nonneg payload) as H0. destruct (pseudo_sum p src dst n) as [_ Hs]; [done|done|done|lia|].
  rewrite tcp_of_sum in *. set (x := pseudo_of p n) in *. set (y := be_sum _) in *. set (z := tcp_pseudo_header_checksum _ _ _) in *.
  Z.to_euclidean_division_equations. lia.
Qed.

End Sums.

(** ** Reading a built frame *)

Lemma be32_parts v : v / 65536 * 65536 + v mod 65536 = v.
Proof. pose proof (Z.div_mod v 65536). lia. Qed.

Lemma tcp_of_fields p flags hl sum rest :
  let l := tcp_of p flags hl sum ++ rest in
  get_be16 l 0 = Some (src_port p) ∧ get_be16 l 2 = Some (dst_port p) ∧ get_be32 l 4 = Some (seq p) ∧ get_be32 l 8 = Some (ack p) ∧
  byte l 12 = Some (wrap8 (Z.shiftl (wrap8 (hl / 4)) 4)) ∧ byte l 13 = Some flags ∧ get_be16 l 14 = Some (window p) ∧
  get_be16 l 16 = Some sum.
Proof.
  intros l. unfold l, tcp_of, to_be32. clear l. set (o := wrap8 _). clearbody o.
  assert (∀ hi lo : Z, be16 (hi / 256) (hi mod 256) * 65536 + be16 (lo / 256) (lo mod 256) = hi * 65536 + lo) as H32
    by (intros; by rewrite !be16_to).
  split_and!; [rewrite <- (be16_to (src_port p)) at 2|rewrite <- (be16_to (dst_port p)) at 2| | | | |rewrite <- (be16_to (window p)) at 2
    |rewrite <- (be16_to sum) at 2]; try reflexivity.
  - transitivity (Some (seq p / 65536 * 65536 + seq p mod 65536)); [|by rewrite be32_parts]. by rewrite <- H32.
  - transitivity (Some (ack p / 65536 * 65536 + ack p mod 65536)); [|by rewrite be32_parts]. by rewrite <- H32.
Qed.

Lemma ip4_of_fields n src dst rest :
  let l := ip4_of n src dst ++ rest in
  len (ip4_of n src dst) = 20 ∧ byte l 0 = Some 0x45 ∧ get_be16 l 2 = Some n ∧ byte l 6 = Some 0x40 ∧ get_be16 l 6 = Some 0x4000 ∧
  byte l 9 = Some 6 ∧ get_ip l 12 = Some src ∧ get_ip l 16 = Some dst.
Proof.
  intros l. unfold l, ip4_of, ip4_with. clear l. generalize (Eth.ipv4_header_checksum
    ([69; 0] ++ to_be16 n ++ [0; 0; 64; 0; 64; 6] ++ to_be16 0 ++ octets src ++ octets dst)). intros c.
  split_and!; try reflexivity; [rewrite <- (be16_to n) at 2; reflexivity|by destruct src|by destruct dst].
Qed.

Lemma ip4_of_u8 n src dst : in_u16 n → ip_ok src → ip_ok dst → Forall in_u8 (ip4_of n src dst).
Proof.
  intros Hn Hs Hd. unfold ip4_of. set (c := Eth.ipv4_header_checksum _). assert (in_u16 c) as Hc.
  { unfold c, Eth.ipv4_header_checksum. destruct (Eth.words_loop _ _ _ _). apply in_u16_wrap. }
  unfold ip4_with. rewrite !Forall_app. split; [by repeat constructor|]. split; [by apply to_be16_u8|]. split; [by repeat constructor|].
  split; [by apply to_be16_u8|]. split; by apply octets_u8.
Qed.

Lemma ip6_of_u8 n src dst : in_u16 n → Forall in_u8 src → Forall in_u8 dst → Forall in_u8 (ip6_of n src dst).
Proof.
  intros Hn Hs Hd. unfold ip6_of. rewrite !Forall_app. split; [by repeat constructor|]. split; [by apply to_be16_u8|].
  split; [by repeat constructor|]. done.
Qed.

Section Parse.
Context {ep : Etherparse} {laws : EtherparseLaws}.

Lemma parse_ip4_of src dst segment :
  ip_ok src → ip_ok dst → Forall in_u8 segment → 20 + len segment ≤ 65535 →
  let packet := ip4_of (20 + len segment) src dst ++ segment in
  parse packet = Some (Some (MkIpView packet (V4 src) (V4 dst) 6 segment None)).
Proof.
  intros Hs Hd Hu Hl packet. pose proof (len_nonneg segment) as H0.
  destruct (ip4_of_fields (20 + len segment) src dst segment) as (Hhl & G0 & G2 & G6 & W6 & G9 & G12 & G16).
  fold packet in G0, G2, G6, W6, G9, G12, G16.
  assert (Forall in_u8 packet) as Hpu by (apply Forall_app; split; [apply ip4_of_u8; [unfold in_u16, u16_bound; lia|done|done]|done]).
  assert (len packet = 20 + len segment) as Hpl by (unfold packet; rewrite len_app; lia).
  assert (range packet 20 (len packet) = Some segment) as Hseg.
  { unfold packet. rewrite <- (range_all (ip4_of (20 + len segment) src dst) segment). by rewrite Hhl. }
  assert (range packet 0 (20 + len segment) = Some packet) as Hwhole by (rewrite <- Hpl; apply (range_all [] packet)).
  unfold parse. rewrite G0. change (Z.shiftr 0x45 4 =? 4) with true. cbv beta iota zeta. unfold parse4.
  destruct (ipv4_accepts packet 0x45 Hpu G0) as (h & Hh & Hsl); [done|done|rewrite Hpl; change (Z.land 0x45 15) with 5; lia|].
  change (4 * Z.land 0x45 15) with 20 in Hsl. rewrite Hh.
  destruct (ipv4_header_spec packet h Hpu Hh) as (rest & _ & _ & Ht & _ & (b & Hb & Hm) & (w & Hw & Hoff) & Hpr & Hsr & Hds).
  rewrite G2 in Ht. injection Ht as ->. rewrite G9 in Hpr. injection Hpr as ->. rewrite G12 in Hsr. injection Hsr as ->.
  rewrite G16 in Hds. injection Hds as ->. rewrite W6 in Hw. injection Hw as <-. rewrite G6 in Hb. injection Hb as <-.
  rewrite Hsl, (proj2 (Z.ltb_ge _ _)), (proj2 (Z.ltb_ge _ _)), Hwhole, Hseg by lia.
  unfold is_fragmenting_payload. rewrite Hm, Hoff. reflexivity.
Qed.

Lemma parse_ip6_of src dst segment :
  addr_ok (V6 src) → addr_ok (V6 dst) → Forall in_u8 segment → len segment ≤ 65535 →
  let packet := ip6_of (len segment) src dst ++ segment in
  parse packet = Some (Some (MkIpView packet (V6 src) (V6 dst) 6 segment None)).
Proof.
  intros [Hs Us] [Hd Ud] Hu Hl packet. pose proof (len_nonneg segment) as H0.
  assert (len (ip6_of (len segment) src dst) = 40) as Hhl by (unfold ip6_of, len; rewrite !length_app, Hs, Hd; done).
  assert (Forall in_u8 packet) as Hpu by (apply Forall_app; split; [apply ip6_of_u8; [unfold in_u16, u16_bound; lia|done|done]|done]).
  assert (len packet = 40 + len segment) as Hpl by (unfold packet; rewrite len_app; lia).
  assert (range packet 40 (len packet) = Some segment) as Hseg.
  { unfold packet. rewrite <- (range_all (ip6_of (len segment) src dst) segment). by rewrite Hhl. }
  assert (range packet 0 (40 + len segment) = Some packet) as Hwhole by (rewrite <- Hpl; apply (range_all [] packet)).
  assert (byte packet 0 = Some 0x60 ∧ get_be16 packet 4 = Some (len segment) ∧ byte packet 6 = Some 6) as (G0 & G4 & G6).
  { unfold packet, ip6_of. split_and!; try reflexivity. rewrite <- (be16_to (len segment)) at 2. reflexivity. }
  assert (range packet 8 24 = Some src ∧ range packet 24 40 = Some dst) as [R8 R24].
  { unfold packet, ip6_of. rewrite <- !app_assoc. split.
    - pose proof (range_mid ([0x60; 0; 0; 0] ++ to_be16 (len segment) ++ [6; 64]) src (dst ++ segment)) as Hr. rewrite <- !app_assoc in Hr.
      rewrite <- Hr. f_equal. unfold len. rewrite !length_app, Hs. done.
    - pose proof (range_mid ([0x60; 0; 0; 0] ++ to_be16 (len segment) ++ [6; 64] ++ src) dst segment) as Hr. rewrite <- !app_assoc in Hr.
      rewrite <- Hr. f_equal; unfold len; rewrite !length_app, Hs, ?Hd; done. }
  unfold parse. rewrite G0. change (Z.shiftr 0x60 4 =? 4) with false. change (Z.shiftr 0x60 4 =? 6) with true. cbv beta iota zeta. unfold parse6.
  destruct (ipv6_accepts packet 0x60 Hpu G0) as [h Hh]; [done|lia|]. rewrite Hh.
  destruct (ipv6_header_spec packet h Hpu Hh) as (_ & P4 & P6 & P8 & P24).
  rewrite G4 in P4. injection P4 as ->. rewrite G6 in P6. injection P6 as ->. rewrite R8 in P8. injection P8 as ->. rewrite R24 in P24. injection P24 as ->.
  rewrite (proj2 (Z.ltb_ge _ _)), Hwhole by lia. cbn [extensions]. rewrite tcp_not_skipped. cbn [negb]. by rewrite Hseg.
Qed.

(** The segment the guest reads is the one that was built. *)
Definition segment_of (p : TcpFrameParams) (flags : Z) (options payload : list Z) (tcp : TcpSlice) : Prop :=
  tcp_source_port tcp = src_port p ∧ tcp_destination_port tcp = dst_port p ∧ tcp_sequence_number tcp = seq p ∧
  tcp_acknowledgment_number tcp = ack p ∧ tcp_window_size tcp = window p ∧ tcp_flags tcp = Some flags ∧ tcp_payload tcp = payload ∧
  range (tcp_slice tcp) 20 (20 + len options) = Some options ∧
  ∃ b, byte (tcp_slice tcp) 12 = Some b ∧ 4 * Z.shiftr b 4 = 20 + len options.

Lemma tcp_of_len p flags hl sum : len (tcp_of p flags hl sum) = 20.
Proof. done. Qed.

Lemma data_offset n : 0 ≤ n ≤ 40 → n mod 4 = 0 → 4 * Z.shiftr (wrap8 (Z.shiftl (wrap8 ((20 + n) / 4)) 4)) 4 = 20 + n.
Proof.
  intros Hn H4. assert (wrap8 ((20 + n) / 4) = (20 + n) / 4) as ->.
  { apply Z.mod_small. unfold u8_bound. Z.to_euclidean_division_equations. lia. }
  rewrite Z.shiftl_mul_pow2, Z.shiftr_div_pow2 by lia. unfold wrap8, u8_bound. change (2 ^ 4) with 16.
  rewrite Z.mod_small by (Z.to_euclidean_division_equations; lia). rewrite Z.div_mul by lia. Z.to_euclidean_division_equations. lia.
Qed.

Lemma tcp_of_reads p flags options payload sum :
  params_ok p → in_u8 flags → in_u16 sum → Forall in_u8 options → Forall in_u8 payload → len options ≤ 40 → len options mod 4 = 0 →
  let segment := tcp_of p flags (20 + len options) sum ++ options ++ payload in
  ∃ tcp, tcp_from_slice segment = Some tcp ∧ tcp_slice tcp = segment ∧ segment_of p flags options payload tcp.
Proof.
  intros Hp Hf Hs Ho Hpl H40 H4 segment. pose proof (len_nonneg options) as H0. pose proof (len_nonneg payload) as H1.
  assert (Forall in_u8 segment) as Hu by (apply Forall_app; split; [by apply tcp_of_u8|by apply Forall_app]).
  assert (len segment = 20 + len options + len payload) as Hl by (unfold segment; rewrite !len_app, tcp_of_len; lia).
  destruct (tcp_of_fields p flags (20 + len options) sum (options ++ payload)) as (F0 & F2 & F4 & F8 & F12 & F13 & F14 & _).
  fold segment in F0, F2, F4, F8, F12, F13, F14. pose proof (data_offset (len options) ltac:(lia) H4) as Hdo.
  destruct (tcp_accepts segment _ Hu F12) as [tcp Ht]; [lia|lia|]. exists tcp. split; [done|].
  destruct (tcp_spec segment tcp Hu Ht) as (_ & Hsl & S0 & S2 & S4 & S8 & S14 & (b & Hb & _ & Hpay)).
  rewrite F12 in Hb. injection Hb as <-. rewrite Hdo in Hpay. split; [done|]. unfold segment_of, tcp_flags. rewrite Hsl. split_and!; try congruence.
  - rewrite Hpay. unfold segment. rewrite app_assoc, drop_app_length'; [done|]. unfold len. rewrite length_app. unfold len in Hl. cbn. lia.
  - unfold segment. apply (range_mid (tcp_of p flags (20 + len options) sum) options payload).
  - eauto.
Qed.

Lemma tcp_at_eth frame packet ip tcp et :
  len frame = 14 + len packet → range frame 14 (len frame) = Some packet → range frame 12 14 = Some et →
  parse packet = Some (Some ip) → et = (if is_ipv6 (source ip) then [0x86; 0xdd] else [8; 0]) → tcp_parse ip = Some tcp →
  tcp_at frame Eth.ETH_HEADER_LEN = Some (Some (ip, tcp)).
Proof.
  intros Hl Hr He Hp -> Ht. pose proof (len_nonneg packet) as H0. unfold tcp_at, Eth.ETH_HEADER_LEN.
  rewrite (proj2 (Z.ltb_ge _ _)), Hr, Hp by lia. cbn [Z.eqb Pos.eqb andb]. rewrite He, bool_decide_eq_true_2 by done. cbn [negb]. by rewrite Ht.
Qed.

Lemma ip4_of_sum n src dst : in_u16 n → ip_ok src → ip_ok dst → be_sum (ip4_of n src dst) mod 65535 = 0.
Proof.
  intros Hn Hs Hd.
  destruct (Eth.header_checksum_valid ([0x45; 0] ++ to_be16 n ++ [0; 0; 0x40; 0; 64; 6]) 0 0 (octets src ++ octets dst)) as [_ H].
  - done.
  - by exists 4%nat.
  - done.
  - rewrite !Forall_app. split; [by repeat constructor|]. split; [by apply to_be16_u8|by repeat constructor].
  - apply Forall_app. split; by apply octets_u8.
  - unfold ip4_of, ip4_with. rewrite <- !app_assoc in H. exact H.
Qed.

Lemma eth_parse_parts dm sm a b rest :
  length dm = 6%nat → length sm = 6%nat →
  Eth.parse (dm ++ sm ++ [a; b] ++ rest) = Some (Some (Eth.MkEthernet dm sm (Eth.from_raw (be16 a b)))).
Proof.
  intros Hd Hs. unfold Eth.parse, Eth.ETH_HEADER_LEN. rewrite (proj2 (Z.ltb_ge _ _)) by (unfold len; rewrite !length_app, Hd, Hs; cbn; lia).
  pose proof (range_mid [] dm (sm ++ [a; b] ++ rest)) as R0. pose proof (range_mid dm sm ([a; b] ++ rest)) as R6.
  unfold len in R0, R6. rewrite Hd in R0. rewrite Hd, Hs in R6.
  change (range (dm ++ sm ++ [a; b] ++ rest) 0 6 = Some dm) in R0. change (range (dm ++ sm ++ [a; b] ++ rest) 6 12 = Some sm) in R6.
  rewrite R0, R6. unfold get_be16, byte. change (Z.to_nat 12) with (6 + 6)%nat. change (Z.to_nat (12 + 1)) with (6 + (6 + 1))%nat.
  rewrite !(lookup_app_r dm) by lia. rewrite Hd, !(lookup_app_r sm) by lia. by rewrite Hs.
Qed.

(** The IP header in front of a segment. *)
Lemma ip_of_params_reads p segment :
  params_ok p → Forall in_u8 segment → len segment + (if is_ipv4 (src_ip p) then 20 else 0) ≤ 65535 →
  ∃ a b header ip, ip_of_params p (len segment) = [a; b] ++ header ∧ Forall in_u8 ([a; b] ++ header) ∧
  parse (header ++ segment) = Some (Some ip) ∧ bytes ip = header ++ segment ∧ source ip = src_ip p ∧ destination ip = dst_ip p ∧
  protocol ip = 6 ∧ ip_payload ip = segment ∧ fragment ip = None ∧ [a; b] = (if is_ipv6 (src_ip p) then [0x86; 0xdd] else [8; 0]) ∧
  (is_ipv4 (src_ip p) = true → be_sum (take 20 (header ++ segment)) mod 65535 = 0).
Proof.
  intros Hp Hu Hl. pose proof (len_nonneg segment) as H0.
  pose proof (po_src _ Hp) as Ha. pose proof (po_dst _ Hp) as Hb. pose proof (po_family _ Hp) as Hfam. unfold ip_of_params.
  destruct (src_ip p) as [src|src], (dst_ip p) as [dst|dst]; try done; cbn [is_ipv4 addr_ok] in *.
  - eexists 8, 0, (ip4_of (20 + len segment) src dst), _. split; [done|]. assert (in_u16 (20 + len segment)) by (unfold in_u16, u16_bound; lia).
    split; [apply Forall_app; split; [by repeat constructor|by apply ip4_of_u8]|].
    split; [apply parse_ip4_of; [done|done|done|lia]|]. cbn [bytes source destination protocol ip_payload fragment]. split_and!; try done.
    intros _. rewrite take_app_le, take_ge by done. by apply ip4_of_sum.
  - destruct Ha as [Ha Ua], Hb as [Hb Ub]. eexists 0x86, 0xdd, (ip6_of (len segment) src dst), _. split; [done|].
    split; [apply Forall_app; split; [by repeat constructor|apply ip6_of_u8; [unfold in_u16, u16_bound; lia|done|done]]|].
    split; [by apply parse_ip6_of; [| | |lia]|]. cbn [bytes source destination protocol ip_payload fragment]. split_and!; done.
Qed.

Lemma frame_of_reads p flags options payload sum :
  params_ok p → in_u8 flags → Forall in_u8 options → Forall in_u8 payload → len options ≤ 40 → len options mod 4 = 0 →
  20 + len options + len payload + (if is_ipv4 (src_ip p) then 20 else 0) ≤ 65535 → in_u16 sum →
  let frame := frame_of p flags options payload sum in
  Forall in_u8 frame ∧
  Eth.parse frame = Some (Some (Eth.MkEthernet (dst_mac p) (src_mac p) (if is_ipv4 (src_ip p) then Eth.EtIpv4 else Eth.EtIpv6))) ∧
  ∃ ip tcp, tcp_at frame Eth.ETH_HEADER_LEN = Some (Some (ip, tcp)) ∧ source ip = src_ip p ∧ destination ip = dst_ip p ∧
  segment_of p flags options payload tcp ∧ tcp_slice tcp = tcp_of p flags (20 + len options) sum ++ options ++ payload ∧
  (is_ipv4 (src_ip p) = true → be_sum (take 20 (bytes ip)) mod 65535 = 0).
Proof.
  intros Hp Hf Ho Hpl H40 H4 Hn Hs frame.
  destruct (tcp_of_reads p flags options payload sum Hp Hf Hs Ho Hpl H40 H4) as (tcp & Ht & Hsl & Hseg). unfold frame, frame_of.
  set (segment := tcp_of p flags (20 + len options) sum ++ options ++ payload) in *.
  assert (len segment = 20 + len options + len payload) as Hl by (unfold segment; rewrite !len_app, tcp_of_len; lia).
  assert (Forall in_u8 segment) as Hu by (apply Forall_app; split; [by apply tcp_of_u8|by apply Forall_app]). rewrite <- Hl in *.
  destruct (ip_of_params_reads p segment Hp Hu Hn) as (a & b & header & ip & -> & Hhu & Hparse & Hbytes & Hsrc & Hdst & Hpr & Hpay & Hfr & Het & Hck).
  assert (tcp_parse ip = Some tcp) as Htp by (unfold tcp_parse, transport; by rewrite Hpr, Hfr, Hpay).
  destruct (po_macs _ Hp) as [[Hsm Usm] [Hdm Udm]]. rewrite <- (app_assoc [a; b]).
  assert (length (dst_mac p ++ src_mac p ++ [a; b]) = 14%nat) as H14 by (rewrite !length_app, Hsm, Hdm; done).
  assert (∀ rest, dst_mac p ++ src_mac p ++ [a; b] ++ rest = (dst_mac p ++ src_mac p ++ [a; b]) ++ rest) as Hre by (intros; by rewrite <- !app_assoc).
  split; [apply (Forall_app _ [a; b]) in Hhu as [Hab Hhu]; rewrite !Forall_app; done|]. split.
  { rewrite eth_parse_parts by done. do 3 f_equal. unfold is_ipv6 in Het. by destruct (is_ipv4 (src_ip p)); injection Het as -> ->. }
  exists ip, tcp. rewrite Hbytes. split_and!; try done. apply (tcp_at_eth _ (header ++ segment) ip tcp [a; b]); [| | |done|by rewrite Hsrc|done].
  - rewrite Hre, len_app. unfold len at 1. rewrite H14. done.
  - rewrite Hre, <- (range_all (dst_mac p ++ src_mac p ++ [a; b]) (header ++ segment)). f_equal. unfold len. by rewrite H14.
  - pose proof (range_mid (dst_mac p ++ src_mac p) [a; b] (header ++ segment)) as Hr. rewrite <- !app_assoc in Hr. rewrite <- Hr.
    unfold len. by rewrite length_app, Hsm, Hdm.
Qed.

Lemma built_frame_reads arch p flags options payload :
  params_ok p → in_u8 flags → Forall in_u8 options → Forall in_u8 payload → len options ≤ 40 → len options mod 4 = 0 →
  20 + len options + len payload + (if is_ipv4 (src_ip p) then 20 else 0) ≤ 65535 →
  ∃ frame ip tcp, build_frame arch p flags options payload = Some frame ∧ Forall in_u8 frame ∧
  Eth.parse frame = Some (Some (Eth.MkEthernet (dst_mac p) (src_mac p) (if is_ipv4 (src_ip p) then Eth.EtIpv4 else Eth.EtIpv6))) ∧
  tcp_at frame Eth.ETH_HEADER_LEN = Some (Some (ip, tcp)) ∧ source ip = src_ip p ∧ destination ip = dst_ip p ∧
  segment_of p flags options payload tcp ∧
  (pseudo_of p (len (tcp_slice tcp)) + be_sum (tcp_slice tcp)) mod 65535 = 0 ∧
  (is_ipv4 (src_ip p) = true → be_sum (take 20 (bytes ip)) mod 65535 = 0).
Proof.
  intros Hp Hf Ho Hpl H40 H4 Hn. destruct (tcp_build_frame_eq arch p flags options payload Hp Hf Ho Hpl Hn) as (sum & Hs & Hsum & ->).
  destruct (frame_of_reads p flags options payload sum Hp Hf Ho Hpl H40 H4 Hn Hs) as (Hu & He & ip & tcp & Ht & Hsrc & Hdst & Hseg & Hsl & Hck).
  exists (frame_of p flags options payload sum), ip, tcp. split_and!; try done. rewrite Hsl, !len_app, tcp_of_len, Z.add_assoc. done.
Qed.

(** ** Options *)

Definition scale_ok (wscale : option Z) : Prop := match wscale with Some shift => 0 ≤ shift ≤ 14 | None => True end.

Lemma syn_options_loop_reads m ws sack :
  scale_ok ws →
  let options := syn_options m ws sack in
  len options ≤ 40 ∧ len options mod 4 = 0 ∧
  syn_options_loop (length options) options 0 (MkSynOptions None None false false) = Some (MkSynOptions (Some m) ws sack false).
Proof.
  intros Hw. assert (Some (MkSynOptions (Some m) ws sack false) = Some (MkSynOptions (Some (be16 (m / 256) (m mod 256)))
    (match ws with Some shift => Some (Z.min shift 14) | None => None end) sack false)) as ->.
  { rewrite be16_to. destruct ws as [shift|]; [|done]. cbn in Hw. by rewrite Z.min_l by lia. }
  destruct ws as [shift|], sack; (split; [vm_compute; congruence|split; [vm_compute; reflexivity|reflexivity]]).
Qed.

Lemma syn_options_u8 m ws sack : in_u16 m → scale_ok ws → Forall in_u8 (syn_options m ws sack).
Proof.
  intros Hm Hw. unfold syn_options, pad4. rewrite !Forall_app. split_and!.
  - by repeat constructor.
  - by apply to_be16_u8.
  - destruct sack; by repeat constructor.
  - destruct ws as [shift|]; [|constructor]. cbn in Hw. repeat (apply Forall_cons; split); try apply Forall_nil_2; unfold in_u8, u8_bound; lia.
  - apply Forall_replicate. unfold in_u8, u8_bound. lia.
Qed.

(** The parser of options neither panics nor loops. *)
Lemma syn_options_loop_total fuel options i opts :
  Forall in_u8 options → 0 ≤ i → len options - i ≤ Z.of_nat fuel → is_Some (syn_options_loop fuel options i opts).
Proof.
  intros Hu. revert i opts. induction fuel as [|fuel IH]; intros i opts Hi Hf; cbn [syn_options_loop].
  { destruct (Z.ltb_spec i (len options)); [lia|by eexists]. }
  destruct (Z.ltb_spec i (len options)) as [Hl|]; [|by eexists]. destruct (byte_Some options i Hu) as (kind & -> & _); [lia|].
  destruct (kind =? 0); [by eexists|]. destruct (kind =? 1); [apply IH; lia|].
  assert (∀ k n, 2 ≤ k → (∀ b, byte options (i + 1) = Some b → is_Some (n b)) →
    is_Some (if len options <? i + k then Some opts else let! b := byte options (i + 1) in n b)) as Hopt.
  { intros k n Hk Hn. destruct (Z.ltb_spec (len options) (i + k)); [by eexists|]. destruct (byte_Some options (i + 1) Hu) as (b & Hb & _); [lia|].
    rewrite Hb. by apply Hn. }
  destruct (kind =? 2). { destruct (Z.ltb_spec (len options) (i + 4)); [by eexists|].
    destruct (byte_Some options (i + 1) Hu) as (b & -> & _); [lia|]. destruct (negb _); [by eexists|].
    destruct (get_be16_Some options (i + 2) Hu) as (v & -> & _); [lia|lia|]. apply IH; lia. }
  destruct (kind =? 3). { destruct (Z.ltb_spec (len options) (i + 3)); [by eexists|].
    destruct (byte_Some options (i + 1) Hu) as (b & -> & _); [lia|]. destruct (negb _); [by eexists|].
    destruct (byte_Some options (i + 2) Hu) as (v & -> & _); [lia|]. apply IH; lia. }
  destruct (kind =? 4). { apply Hopt; [lia|]. intros b _. destruct (negb _); [by eexists|apply IH; lia]. }
  destruct (kind =? 8). { apply Hopt; [lia|]. intros b _. destruct (negb _); [by eexists|apply IH; lia]. }
  destruct (Z.leb_spec (len options) (i + 1)); [by eexists|]. destruct (byte_Some options (i + 1) Hu) as (n & -> & _); [lia|].
  destruct (Z.ltb_spec n 2); cbn [orb]; [by eexists|]. destruct (_ <? _); [by eexists|apply IH; lia].
Qed.

Lemma parse_syn_options_total segment : Forall in_u8 segment → is_Some (parse_tcp_syn_options segment).
Proof.
  intros Hu. unfold parse_tcp_syn_options. destruct (Z.ltb_spec (len segment) 20); [by eexists|].
  destruct (byte_Some segment 12 Hu) as (b & -> & _); [lia|]. cbv zeta. destruct (Z.ltb_spec (Z.shiftr b 4 * 4) 20); cbn [orb]; [by eexists|].
  destruct (Z.ltb_spec (len segment) (Z.shiftr b 4 * 4)); [by eexists|].
  destruct (range_Some segment 20 (Z.shiftr b 4 * 4)) as (options & -> & Hl & Hou); [lia|lia|].
  apply syn_options_loop_total; [auto|lia|unfold len; lia].
Qed.


End Parse.

(** A SYN-ACK to a guest, over IP version 6. *)
Definition ex_params : TcpFrameParams :=
  MkParams (V6 (0xfd :: replicate 14 0 ++ [1])) (V6 (0xfd :: replicate 14 0 ++ [2])) 80 54321 5000 6000 65535
    [2; 0xab; 0xcd; 0; 0; 1] [0x52; 0x54; 0; 0x12; 0x34; 0x56].

Section Witness.
#[local] Existing Instance ex_etherparse.
#[local] Existing Instance ex_laws.


End Witness.

End TcpFrame.
