(* ===== verification/TcpSegment.v ===== *)
(** * Segmentation of the download stream

    [src/common/splicetcp/src/tcp_bridge/segmentation.rs]: the bytes a host socket
    delivers are cut into the frames that carry them to the guest, for a first
    transmission and for a retransmission alike. [None] is a panic, or a loop that
    makes no progress. *)

From Stdlib Require Import ZArith Lia.
From stdpp Require Import base numbers list.
From S2P Require Import Prelude Bits Checksum Bytes EthFrame IpView TcpFrame.

Open Scope Z_scope.

Module TcpSegment.

Import IpView TcpFrame.

Definition TCP_MIN_MSS : Z := 536.
Definition GSO_SEGMENT_MSS : Z := 1460.
Definition LARGE_FRAME_MAX_PAYLOAD : Z := 32 * 1024.

Record FrameCtx := MkCtx { large_frames : bool; guest_mss : Z; gw_mac : list Z; guest_mac : list Z }.

(** The fields of a [FastPathConn] that the segmentation reads. *)
Record FlowEnds := MkEnds {
  remote_ip : IpAddr; guest_ip : IpAddr; remote_port : Z; guest_port : Z; last_ack : Z; peer_mss : Z
}.

(** [TcpBridge::set_fast_path_mtu]: the budget for a payload. *)
Definition fast_path_mss (mtu : Z) : Z := Z.min (Z.max (Z.max (mtu - 40) 0) 1) (65535 - 20 - 20).

Definition family_mss (ip : IpAddr) (ipv4_mss : Z) : Z :=
  if is_ipv6 ip then Z.max (Z.max (ipv4_mss - 20) 0) 1 else ipv4_mss.

Definition data_params (ctx : FrameCtx) (conn : FlowEnds) (seq : Z) : TcpFrameParams :=
  MkParams (remote_ip conn) (guest_ip conn) (remote_port conn) (guest_port conn) seq (last_ack conn) 65535 (gw_mac ctx) (guest_mac ctx).

(** [data.chunks(size)]; a chunk takes at least a byte, so the length of the data
    bounds their number. *)
Fixpoint chunks (fuel : nat) (size : Z) (data : list Z) : list (list Z) :=
  match fuel, data with
  | S fuel, _ :: _ => take (Z.to_nat size) data :: chunks fuel size (drop (Z.to_nat size) data)
  | _, _ => []
  end.

Section Emit.
Context (arch : Arch).

(** The frame of a chunk on the path of large frames. *)
Definition large_frame (ctx : FrameCtx) (conn : FlowEnds) (src dst : Ipv4) (seq : Z) (chunk : list Z) : option (list Z) :=
  let params := data_params ctx conn seq in
  if 1500 <? Eth.ETH_HEADER_LEN + 40 + len chunk then build_tcp_data_frame_partial_csum params src dst chunk
  else build_tcp_data_frame arch params chunk.

Fixpoint large_loop (ctx : FrameCtx) (conn : FlowEnds) (src dst : Ipv4) (seq_start index : Z) (cs : list (list Z))
    (frames : list (list Z)) : option (list (list Z)) :=
  match cs with
  | [] => Some frames
  | chunk :: cs =>
      let seq := wrapping_add32 seq_start (wrap32 (index * LARGE_FRAME_MAX_PAYLOAD)) in
      let! frame := large_frame ctx conn src dst seq chunk in
      large_loop ctx conn src dst seq_start (index + 1) cs (frames ++ [frame])
  end.

(** [while offset < data.len()]. *)
Fixpoint seg_loop (fuel : nat) (ctx : FrameCtx) (conn : FlowEnds) (seg seq_start : Z) (data : list Z) (offset : Z)
    (frames : list (list Z)) : option (list (list Z)) :=
  match fuel with
  | O => if offset <? len data then None else Some frames
  | S fuel =>
      if offset <? len data then
        let chunk_end := Z.min (offset + seg) (len data) in
        let! chunk := range data offset chunk_end in
        let! frame := build_tcp_data_frame arch (data_params ctx conn (wrapping_add32 seq_start (wrap32 offset))) chunk in
        seg_loop fuel ctx conn seg seq_start data chunk_end (frames ++ [frame])
      else Some frames
  end.

Definition segment_size (ctx : FrameCtx) (conn : FlowEnds) : Z :=
  let peer := if is_ipv6 (guest_ip conn) then Z.max (peer_mss conn) 1 else Z.max (peer_mss conn) TCP_MIN_MSS in
  Z.min (family_mss (guest_ip conn) (guest_mss ctx)) peer.

Definition emit_data_frames (ctx : FrameCtx) (conn : FlowEnds) (seq_start : Z) (data : list Z) (frames : list (list Z)) :
    option (list (list Z)) :=
  match remote_ip conn, guest_ip conn, large_frames ctx && (GSO_SEGMENT_MSS <=? peer_mss conn) with
  | V4 src, V4 dst, true => large_loop ctx conn src dst seq_start 0 (chunks (length data) LARGE_FRAME_MAX_PAYLOAD data) frames
  | _, _, _ => seg_loop (length data) ctx conn (segment_size ctx conn) seq_start data 0 frames
  end.

End Emit.

(** ** What is carried *)

Record flow_ok (ctx : FrameCtx) (conn : FlowEnds) : Prop := {
  fo_remote : addr_ok (remote_ip conn);
  fo_guest : addr_ok (guest_ip conn);
  fo_family : is_ipv4 (remote_ip conn) = is_ipv4 (guest_ip conn);
  fo_ports : in_u16 (remote_port conn) ∧ in_u16 (guest_port conn);
  fo_ack : in_u32 (last_ack conn);
  fo_peer : in_u16 (peer_mss conn);
  fo_macs : Eth.mac_ok (gw_mac ctx) ∧ Eth.mac_ok (guest_mac ctx)
}.

Definition is_large (ctx : FrameCtx) (conn : FlowEnds) : bool :=
  is_ipv4 (guest_ip conn) && large_frames ctx && (GSO_SEGMENT_MSS <=? peer_mss conn).

(** The IP packet around a payload of [n] bytes. *)
Definition packet_len (conn : FlowEnds) (n : Z) : Z := (if is_ipv4 (guest_ip conn) then 40 else 60) + n.

(** What a frame may be: on the path of large frames at most 32 KiB of payload;
    otherwise the packet fits the MTU the budget is made from, and the payload the
    MSS of the peer. *)
Definition size_ok (ctx : FrameCtx) (conn : FlowEnds) (n : Z) : Prop :=
  if is_large ctx conn then n ≤ LARGE_FRAME_MAX_PAYLOAD
  else packet_len conn n ≤ Z.max (guest_mss ctx + 40) 61 ∧
    n ≤ Z.max (peer_mss conn) (if is_ipv4 (guest_ip conn) then TCP_MIN_MSS else 1).

Section Carry.
Context {ep : Etherparse} {laws : EtherparseLaws}.

(** The guest reads in [frame] the bytes [piece] at the sequence number [seq]. The
    checksum is complete unless the frame is a large one of more than 1500 bytes,
    where the field holds the complement of the sum of the pseudo-header. *)
Definition carries (ctx : FrameCtx) (conn : FlowEnds) (seq : Z) (piece frame : list Z) : Prop :=
  ∃ ip tcp, tcp_at frame Eth.ETH_HEADER_LEN = Some (Some (ip, tcp)) ∧ source ip = remote_ip conn ∧ destination ip = guest_ip conn ∧
  segment_of (data_params ctx conn seq) 0x18 [] piece tcp ∧ piece ≠ [] ∧ size_ok ctx conn (len piece) ∧
  let pseudo := pseudo_of (data_params ctx conn seq) (len (tcp_slice tcp)) in
  if is_large ctx conn && (1500 <? len frame)
  then ∃ c, get_be16 (tcp_slice tcp) 16 = Some c ∧ (pseudo + c) mod 65535 = 0
  else (pseudo + be_sum (tcp_slice tcp)) mod 65535 = 0.

(** The frames carry the pieces one after the other. *)
Fixpoint carried (ctx : FrameCtx) (conn : FlowEnds) (seq : Z) (pieces frames : list (list Z)) : Prop :=
  match pieces, frames with
  | [], [] => True
  | piece :: pieces, frame :: frames =>
      carries ctx conn seq piece frame ∧ carried ctx conn (wrap32 (seq + len piece)) pieces frames
  | _, _ => False
  end.

(** ** Every frame *)

Lemma data_params_ok ctx conn seq : flow_ok ctx conn → in_u32 seq → params_ok (data_params ctx conn seq).
Proof. by intros [] ?; split. Qed.

Lemma frame_of_len p payload sum flags :
  params_ok p → len (frame_of p flags [] payload sum) = 14 + (if is_ipv4 (src_ip p) then 40 else 60) + len payload.
Proof.
  intros Hp. destruct (po_macs _ Hp) as [[Hs _] [Hd _]]. pose proof (po_src _ Hp) as Ha. pose proof (po_dst _ Hp) as Hb.
  pose proof (po_family _ Hp) as Hf. unfold frame_of, ip_of_params. rewrite !len_app, tcp_of_len. change (len []) with 0.
  unfold len at 1 2. rewrite Hs, Hd. destruct (src_ip p), (dst_ip p); try done; cbn [is_ipv4 addr_ok] in *.
  - change (len ([8; 0] ++ ip4_of _ _ _)) with 22. lia.
  - destruct Ha as [Ha _], Hb as [Hb _]. unfold ip6_of. rewrite !len_app. unfold to_be16, len. rewrite Ha, Hb. cbn [length]. lia.
Qed.

Lemma data_frame_carries arch ctx conn seq piece :
  flow_ok ctx conn → in_u32 seq → Forall in_u8 piece → piece ≠ [] → size_ok ctx conn (len piece) →
  packet_len conn (len piece) ≤ 65535 → (is_large ctx conn = true → 54 + len piece ≤ 1500) →
  ∃ frame, build_tcp_data_frame arch (data_params ctx conn seq) piece = Some frame ∧ Forall in_u8 frame ∧ carries ctx conn seq piece frame.
Proof.
  intros Hf Hs Hu Hne Hsz Hn Hl. pose proof (data_params_ok ctx conn seq Hf Hs) as Hp. set (p := data_params ctx conn seq) in *.
  assert (is_ipv4 (src_ip p) = is_ipv4 (guest_ip conn)) as Hfam by apply Hf. unfold packet_len in Hn.
  assert (20 + len [] + len piece + (if is_ipv4 (src_ip p) then 20 else 0) ≤ 65535) as Hlen
    by (rewrite Hfam; change (len []) with 0; destruct (is_ipv4 (guest_ip conn)); lia).
  destruct (tcp_build_frame_eq arch p 0x18 [] piece) as (sum & Hsu & Hsum & He); [done|done|constructor|done|done|].
  destruct (frame_of_reads p 0x18 [] piece sum) as (Hfu & _ & ip & tcp & Ht & Hsrc & Hdst & Hseg & Hsl & _); try done.
  unfold build_tcp_data_frame. rewrite He. eexists. split; [done|]. split; [done|]. exists ip, tcp. fold p. split_and!; try done.
  rewrite frame_of_len, Hfam by done. destruct (is_large ctx conn) eqn:E; cbn [andb].
  - assert (is_ipv4 (guest_ip conn) = true) as Hv by (unfold is_large in E; by destruct (is_ipv4 (guest_ip conn))).
    rewrite Hv, (proj2 (Z.ltb_ge _ _)) by (specialize (Hl eq_refl); lia). rewrite Hsl, !len_app, tcp_of_len, Z.add_assoc. done.
  - rewrite Hsl, !len_app, tcp_of_len, Z.add_assoc. done.
Qed.

Lemma partial_frame_carries ctx conn src dst seq piece :
  flow_ok ctx conn → in_u32 seq → Forall in_u8 piece → piece ≠ [] → is_large ctx conn = true →
  remote_ip conn = V4 src → guest_ip conn = V4 dst → 1500 < 54 + len piece → len piece ≤ LARGE_FRAME_MAX_PAYLOAD →
  ∃ frame, build_tcp_data_frame_partial_csum (data_params ctx conn seq) src dst piece = Some frame ∧ Forall in_u8 frame ∧
  carries ctx conn seq piece frame.
Proof.
  intros Hf Hs Hu Hne Hl Hsrc Hdst Hn Hmax. pose proof (data_params_ok ctx conn seq Hf Hs) as Hp. set (p := data_params ctx conn seq) in *.
  assert (is_ipv4 (src_ip p) = true) as Hv by (cbn; by rewrite Hsrc). unfold LARGE_FRAME_MAX_PAYLOAD in Hmax.
  rewrite (partial_frame_eq p src dst piece) by (done || lia). set (sum := tcp_pseudo_header_checksum _ _ _).
  destruct (pseudo_sum p src dst (20 + len piece)) as [Hsu Hsum]; [done|done|done|lia|].
  destruct (frame_of_reads p 0x18 [] piece sum) as (Hfu & _ & ip & tcp & Ht & Hs' & Hd' & Hseg & Hsl & _); try done; [rewrite Hv; change (len []) with 0; lia|].
  eexists. split; [done|]. split; [done|]. exists ip, tcp. fold p. split_and!; try done.
  { unfold size_ok. by rewrite Hl. }
  rewrite frame_of_len, Hv, Hl by done. rewrite (proj2 (Z.ltb_lt _ _)) by lia. cbn [andb]. exists sum.
  rewrite Hsl. split; [apply tcp_of_fields|]. rewrite !len_app, tcp_of_len. done.
Qed.

(** ** All of them *)

Lemma wrap_seq seq n : wrapping_add32 seq (wrap32 n) = wrap32 (seq + n).
Proof. unfold wrapping_add32, wrap32. by rewrite Zplus_mod_idemp_r. Qed.
Lemma wrap_seq_next seq n m : wrap32 (wrap32 (seq + n) + m) = wrap32 (seq + (n + m)).
Proof. unfold wrap32. rewrite Zplus_mod_idemp_l. f_equal. lia. Qed.

Lemma range_drop l a b bs : range l a b = Some bs → 0 ≤ a ≤ b → bs ++ drop (Z.to_nat b) l = drop (Z.to_nat a) l.
Proof.
  unfold range. case_match; [|done]. intros [= <-] Hab. rewrite <- (take_drop (Z.to_nat (b - a)) (drop (Z.to_nat a) l)) at 2.
  rewrite drop_drop. do 2 f_equal. lia.
Qed.

Lemma large_loop_carries arch ctx conn src dst seq_start fuel data index frames :
  flow_ok ctx conn → is_large ctx conn = true → remote_ip conn = V4 src → guest_ip conn = V4 dst →
  Forall in_u8 data → (length data ≤ fuel)%nat →
  let cs := chunks fuel LARGE_FRAME_MAX_PAYLOAD data in
  concat cs = data ∧ ∃ new, large_loop arch ctx conn src dst seq_start index cs frames = Some (frames ++ new) ∧
  Forall (Forall in_u8) new ∧ carried ctx conn (wrap32 (seq_start + index * LARGE_FRAME_MAX_PAYLOAD)) cs new.
Proof.
  intros Hf Hl Hsrc Hdst. revert data index frames. induction fuel as [|fuel IH]; intros data index frames Hu Hfuel.
  { destruct data; [|cbn in Hfuel; lia]. split; [done|]. exists []. by rewrite app_nil_r. }
  destruct data as [|x data]; [split; [done|]; exists []; by rewrite app_nil_r|].
  cbn [chunks]. set (L := Z.to_nat LARGE_FRAME_MAX_PAYLOAD). set (piece := take L (x :: data)). set (rest := drop L (x :: data)).
  assert (0 < L)%nat as HL by (unfold L, LARGE_FRAME_MAX_PAYLOAD; lia).
  assert (length piece = L `min` length (x :: data))%nat as Hpl by apply length_take.
  assert (length rest = length (x :: data) - L)%nat as Hrl by apply length_drop. cbn [length] in Hpl, Hrl, Hfuel.
  assert (x :: data = piece ++ rest) as Hd by (symmetry; apply take_drop). rewrite Hd in Hu. apply Forall_app in Hu as [Hup Hur].
  assert (piece ≠ []) as Hne by (intros E; rewrite E in Hpl; cbn [length] in Hpl; lia).
  assert (len piece ≤ LARGE_FRAME_MAX_PAYLOAD) as Hmax by (unfold len, L in *; lia).
  assert (∃ frame, large_frame arch ctx conn src dst (wrap32 (seq_start + index * LARGE_FRAME_MAX_PAYLOAD)) piece = Some frame ∧ Forall in_u8 frame ∧
    carries ctx conn (wrap32 (seq_start + index * LARGE_FRAME_MAX_PAYLOAD)) piece frame) as (frame & Hfr & Hfu & Hc).
  { unfold large_frame. destruct (Z.ltb_spec 1500 (Eth.ETH_HEADER_LEN + 40 + len piece)) as [Hb|Hb]; unfold Eth.ETH_HEADER_LEN in Hb.
    - apply partial_frame_carries; try done. apply in_u32_wrap.
    - apply data_frame_carries; try done; [apply in_u32_wrap|unfold size_ok; by rewrite Hl|].
      unfold packet_len. rewrite Hdst. cbn [is_ipv4]. lia. }
  destruct (IH rest (index + 1) (frames ++ [frame]) Hur ltac:(lia)) as (Hcat & new & Hloop & Hnu & Hnew).
  split; [cbn [concat]; by rewrite Hcat, Hd|]. exists (frame :: new). cbn [large_loop]. rewrite wrap_seq, Hfr, Hloop, <- app_assoc.
  split; [done|]. split; [by constructor|]. split; [done|]. destruct rest as [|y rest].
  { by destruct fuel. }
  rewrite wrap_seq_next. replace (index * LARGE_FRAME_MAX_PAYLOAD + len piece) with ((index + 1) * LARGE_FRAME_MAX_PAYLOAD); [done|].
  cbn [length] in Hrl. unfold len. rewrite Hpl. unfold L in *. lia.
Qed.

Lemma seg_loop_carries arch ctx conn seg seq_start data fuel offset frames :
  flow_ok ctx conn → is_large ctx conn = false → 1 ≤ seg → Forall in_u8 data →
  (∀ n, n ≤ seg → size_ok ctx conn n ∧ packet_len conn n ≤ 65535) →
  0 ≤ offset ≤ len data → len data - offset ≤ Z.of_nat fuel →
  ∃ pieces new, seg_loop arch fuel ctx conn seg seq_start data offset frames = Some (frames ++ new) ∧
  concat pieces = drop (Z.to_nat offset) data ∧ Forall (Forall in_u8) new ∧ carried ctx conn (wrap32 (seq_start + offset)) pieces new.
Proof.
  intros Hf Hl Hseg Hu Hsz. revert offset frames. induction fuel as [|fuel IH]; intros offset frames Ho Hfuel; cbn [seg_loop].
  all: destruct (Z.ltb_spec offset (len data)) as [Hlt|Hge]; [|exists [], []; rewrite app_nil_r, drop_ge by (unfold len in *; lia); done].
  { lia. }
  cbv zeta. set (chunk_end := Z.min (offset + seg) (len data)).
  destruct (range_Some data offset chunk_end) as (piece & Hr & Hpl & Hpu); [lia|lia|]. rewrite Hr. specialize (Hpu Hu).
  destruct (Hsz (len piece)) as [Hs1 Hs2]; [lia|].
  destruct (data_frame_carries arch ctx conn (wrap32 (seq_start + offset)) piece) as (frame & Hb & Hfu & Hc); try done.
  { apply in_u32_wrap. }
  { intros ->. change (len []) with 0 in Hpl. lia. }
  { by rewrite Hl. }
  rewrite wrap_seq, Hb. destruct (IH chunk_end (frames ++ [frame])) as (pieces & new & Hloop & Hcat & Hnu & Hnew); [lia|lia|].
  exists (piece :: pieces), (frame :: new). rewrite Hloop, <- app_assoc. split; [done|]. split; [|split; [by constructor|split; [done|]]].
  - cbn [concat]. rewrite Hcat. apply (range_drop data); [done|lia].
  - rewrite wrap_seq_next. by replace (offset + len piece) with chunk_end by lia.
Qed.

Lemma segment_size_ok ctx conn n :
  is_large ctx conn = false → 1 ≤ guest_mss ctx ≤ 65495 → in_u16 (peer_mss conn) →
  1 ≤ segment_size ctx conn ∧ (n ≤ segment_size ctx conn → size_ok ctx conn n ∧ packet_len conn n ≤ 65535).
Proof.
  intros Hl Hm [Hp _]. unfold size_ok, segment_size, family_mss, packet_len, is_ipv6, TCP_MIN_MSS. rewrite Hl.
  destruct (is_ipv4 (guest_ip conn)); cbn [negb]; lia.
Qed.


End Carry.

(** ** Examples *)

#[local] Existing Instance ex_etherparse.
#[local] Existing Instance ex_laws.

(** A guest behind a link of 1500 bytes, whose SYN had no usable MSS: 1200 bytes are
    cut at the minimum, over the end of the sequence space. *)
Definition ex_ctx : FrameCtx := MkCtx true (fast_path_mss 1500) [2; 0xab; 0xcd; 0; 0; 1] [0x52; 0x54; 0; 0x12; 0x34; 0x56].
Definition ex_conn : FlowEnds := MkEnds (V4 (MkIp 1 1 1 1)) (V4 (MkIp 10 0 2 2)) 80 54321 6000 0.
Definition ex_seq : Z := u32_bound - 1000.
Definition ex_data : list Z := replicate 1200 7.

Lemma ex_flow_ok : flow_ok ex_ctx ex_conn.
Proof. split; try done; try (apply (bool_decide_unpack _); vm_compute; exact I); split; (split; [done|apply (bool_decide_unpack _); vm_compute; exact I]). Qed.


(** The completed checksum of a large frame is wrong: the sum over the segment and the
    pseudo-header is not zero. *)
Lemma completed_checksum_is_wrong payload c :
  let p := data_params ex_ctx ex_conn ex_seq in
  len payload = 2000 →
  (be_sum (tcp_of p 0x18 20 (tcp_pseudo_header_checksum (MkIp 1 1 1 1) (MkIp 10 0 2 2) 2020) ++ payload) + c) mod 65535 = 0 →
  (pseudo_of p 2020 + be_sum (tcp_of p 0x18 20 c ++ payload)) mod 65535 ≠ 0.
Proof.
  intros p Hl Hc. assert (params_ok p) as Hp by (apply data_params_ok; [apply ex_flow_ok|done]).
  pose proof (completed_partial_sum p (MkIp 1 1 1 1) (MkIp 10 0 2 2) payload c Hp eq_refl eq_refl) as H. rewrite Hl in H.
  change (20 + 2000) with 2020 in H. rewrite H; [vm_compute; discriminate|lia|exact Hc].
Qed.

End TcpSegment.
