(* ===== verification/FragmentV6.v ===== *)
(** * Reassembly of IPv6 fragments

    [src/common/splicetcp/src/fragment/ipv6.rs], and the dispatch on the version
    in [FragmentReassembler::push] of [fragment.rs]. A fragment that does not fit
    the ones before it poisons the entry of its datagram, which then refuses
    every fragment until it times out. *)

From Stdlib Require Import ZArith Lia.
From stdpp Require Import base numbers list gmap.
From S2P Require Import Prelude Bits Checksum Bytes EthFrame Fragment IpView.

Open Scope Z_scope.

Module Frag6.

Import Eth Frag IpView.

(** Source, destination and identification. *)
Definition Key : Type := IpAddr * IpAddr * Z.

Record Entry := MkEntry {
  first_seen : Z;
  prefix : list Z;
  ethernet : list Z;
  previous : Z;
  protocol : Z;
  payload : list Z;
  ranges : list (Z * Z);
  total : option Z;
  ecn : Z;
  poisoned : bool
}.
#[export] Instance eta_Entry : Eta Entry := {|
  eta e := MkEntry (first_seen e) (prefix e) (ethernet e) (previous e) (protocol e) (payload e) (ranges e) (total e)
    (ecn e) (poisoned e);
  eta_ok := ltac:(by intros [])
|}.

Definition poison (e : Entry) : Entry := e <| poisoned := true |> <| payload := [] |> <| ranges := [] |>.

Notation Table := (gmap Key Entry).

Definition retain (es : Table) (now : Z) : Table :=
  filter (λ '(_, e), saturating_sub now (first_seen e) < REASSEMBLY_TIMEOUT) es.

(** The comparison of two bytes of the prefixes at an index. *)
Definition same_byte (index : nat) (a b : Z) : bool :=
  match index with
  | 1%nat => Z.land a (255 - 0x30) =? Z.land b (255 - 0x30)
  | 4%nat | 5%nat | 7%nat => true
  | _ => a =? b
  end.
Definition same_prefix (first next : list Z) : bool :=
  bool_decide (length first = length next) &&
  forallb (λ '(index, (a, b)), same_byte index a b) (imap (λ i ab, (i, ab)) (zip first next)).

Section Reassembly.
Context `{Etherparse}.

Definition rebuild (ethernet prefix : list Z) (previous protocol : Z) (payload : list Z) : option (option (list Z)) :=
  if len prefix <? 40 then None
  else
    let length := len prefix - 40 + len payload in
    if 65535 <? length then Some None
    else
      let frame := ethernet ++ prefix in
      let! frame := put frame (ETH_HEADER_LEN + previous) [protocol] in
      let! frame := put frame (ETH_HEADER_LEN + 4) (to_be16 length) in
      let frame := frame ++ payload in
      let! packet := range frame ETH_HEADER_LEN (len frame) in
      let! ip := parse packet in
      match ip with
      | None => Some None
      | Some ip => match fragment ip with Some _ => Some None | None => Some (Some frame) end
      end.

(** [None] also where the code unwraps what is missing. *)
Definition complete_first_header (ethernet : list Z) (f : FragmentView) : option bool :=
  let! previous := previous_next_header f in
  let! rebuilt := rebuild ethernet (f_prefix f) previous (f_protocol f) (f_payload f) in
  match rebuilt with
  | None => Some false
  | Some frame =>
      let! packet := range frame ETH_HEADER_LEN (len frame) in
      let! ip := parse packet in
      let! ip := ip in
      Some (
        if IpView.protocol ip =? 6 then bool_decide (is_Some (tcp_parse ip))
        else if IpView.protocol ip =? 17 then
          match transport ip with Some payload => 8 <=? len payload | None => false end
        else true)
  end.

Definition f_end (f : FragmentView) : Z := f_offset f + len (f_payload f).

(** The conditions on the lengths and headers that poison an entry. *)
Definition misfits (e : Entry) (previous_ : Z) (f : FragmentView) : bool :=
  bool_decide (f_payload f = []) ||
  (f_more f && negb (len (f_payload f) mod 8 =? 0)) ||
  (65535 <? len (f_prefix f) - 40 + f_end f) ||
  negb (previous e =? previous_) ||
  negb (protocol e =? f_protocol f) ||
  negb (same_prefix (prefix e) (f_prefix f)) ||
  match total e with Some total => (total <? f_end f) || (f_more f && (total <=? f_end f)) | None => false end ||
  (negb (f_more f) &&
    (match total e with Some total => negb (total =? f_end f) | None => false end ||
     match last (ranges e) with Some range => f_end f <? range.2 | None => false end)).

Definition refused (e : Entry) (ethernet : list Z) (previous : Z) (f : FragmentView) : option bool :=
  if misfits e previous f then Some true
  else if f_offset f =? 0 then let! complete := complete_first_header ethernet f in Some (negb complete)
  else Some false.

(** The loop over the received ranges: no overlap, a duplicate or a conflict. *)
Inductive Overlap := Disjoint | Duplicate | Conflict.
Fixpoint overlaps (ranges : list (Z * Z)) (payload : list Z) (f : FragmentView) : option Overlap :=
  match ranges with
  | [] => Some Disjoint
  | (start, stop) :: ranges =>
      if (f_offset f <? stop) && (start <? f_end f) then
        if (f_offset f =? start) && (f_end f =? stop) then
          let! old := range payload start stop in
          Some (if bool_decide (old = f_payload f) then Duplicate else Conflict)
        else Some Conflict
      else overlaps ranges payload f
  end.

(** The fields set before the bytes are looked at: the last fragment gives the
    length, the first one the headers. *)
Definition note (e : Entry) (ethernet_ : list Z) (f : FragmentView) : option Entry :=
  let e := if f_more f then e else e <| total := Some (f_end f) |> in
  if f_offset f =? 0 then
    if bool_decide (length (prefix e) = length (f_prefix f))
    then Some (e <| prefix := f_prefix f |> <| ethernet := ethernet_ |>) else None
  else Some e.

Definition keep_bytes (e : Entry) (f : FragmentView) : option Entry :=
  let size := Z.max (len (payload e)) (f_end f) in
  let grown := payload e ++ replicate (Z.to_nat (size - len (payload e))) 0 in
  let! written := put grown (f_offset f) (f_payload f) in
  Some (e <| payload := written |> <| ranges := merge_range (ranges e) (f_offset f) (f_end f) |>).

Definition complete (e : Entry) : bool :=
  match total e with Some total => bool_decide (ranges e = [(0, total)]) | None => false end.

(** A fragment against the entry of its datagram: the entry and whether the
    datagram is complete. *)
Definition receive (e : Entry) (ethernet : list Z) (previous : Z) (f : FragmentView) : option (Entry * bool) :=
  if poisoned e then Some (e, false)
  else
    let! refused := refused e ethernet previous f in
    if (refused : bool) then Some (poison e, false)
    else
      let! traffic := byte (f_prefix f) 1 in
      let e := e <| ecn := Z.lor (ecn e) (Z.shiftl 1 (Z.land (Z.shiftr traffic 4) 3)) |> in
      if negb (Z.land (ecn e) 1 =? 0) && negb (ecn e =? 1) then Some (poison e, false)
      else
        let! e := note e ethernet f in
        let! overlap := overlaps (ranges e) (payload e) f in
        match overlap with
        | Duplicate => Some (e, false)
        | Conflict => Some (poison e, false)
        | Disjoint =>
            let! e := keep_bytes e f in
            if (MAX_RANGES <? length (ranges e))%nat then Some (poison e, false) else Some (e, complete e)
        end.

(** The congestion mark of the whole datagram. *)
Definition joint_ecn (ecn : Z) : Z :=
  if negb (Z.land ecn 8 =? 0) then 3
  else if negb (Z.land ecn 4 =? 0) then 2
  else if negb (Z.land ecn 2 =? 0) then 1 else 0.

Definition finish (e : Entry) : option (option (list Z)) :=
  let! traffic := byte (prefix e) 1 in
  let! prefix := put (prefix e) 1 [Z.lor (Z.land traffic (255 - 0x30)) (Z.shiftl (joint_ecn (ecn e)) 4)] in
  rebuild (ethernet e) prefix (previous e) (protocol e) (payload e).

Definition new_entry (now : Z) (ethernet : list Z) (previous : Z) (f : FragmentView) : Entry :=
  MkEntry now (f_prefix f) ethernet previous (f_protocol f) [] [] None 0 false.

(** A fragment that is not a datagram of its own, in the table. *)
Definition enter (es : Table) (key : Key) (ethernet : list Z) (previous : Z) (f : FragmentView) (now : Z)
    : option (Table * option (list Z)) :=
  if bool_decide (es !! key = None) && (MAX_ENTRIES <=? size es)%nat then Some (es, None)
  else
    let! received := receive (default (new_entry now ethernet previous f) (es !! key)) ethernet previous f in
    let '(e, completed) := received in
    if (completed : bool) then let! out := finish e in Some (delete key es, out)
    else Some (<[key := e]> es, None).

(** What a frame says: its Ethernet header, key, fragment and the place of the
    next-header byte. *)
Record View := MkView { v_ethernet : list Z; v_key : Key; v_fragment : FragmentView; v_previous : Z }.

Definition view (frame : list Z) : option (option View) :=
  if len frame <? ETH_HEADER_LEN then Some None
  else
    let! packet := range frame ETH_HEADER_LEN (len frame) in
    let! ip := parse packet in
    match ip with
    | None => Some None
    | Some ip =>
        match fragment ip with
        | None => Some None
        | Some f =>
            match previous_next_header f with
            | None => Some None
            | Some previous =>
                let! ethernet := range frame 0 ETH_HEADER_LEN in
                Some (Some (MkView ethernet (source ip, destination ip, f_id f) f previous))
            end
        end
    end.

(** A fragment that is a whole datagram. *)
Definition atomic (f : FragmentView) : bool := (f_offset f =? 0) && negb (f_more f).

(** [Ipv6Reassembler::push]. *)
Definition push (es : Table) (frame : list Z) (now : Z) : option (Table * option (list Z)) :=
  let es := retain es now in
  let! seen := view frame in
  match seen with
  | None => Some (es, None)
  | Some v =>
      let f := v_fragment v in
      if atomic f then
        let! out := rebuild (v_ethernet v) (f_prefix f) (v_previous v) (f_protocol f) (f_payload f) in Some (es, out)
      else enter es (v_key v) (v_ethernet v) (v_previous v) f now
  end.

(** ** Both versions *)

Record FragmentReassembler := MkReassembler { entries : gmap Frag.Key Frag.Entry; ipv6 : Table }.

(** The version of the packet in a frame is 6. *)
Definition is_v6 (frame : list Z) : bool :=
  match byte frame ETH_HEADER_LEN with Some b => Z.shiftr b 4 =? 6 | None => false end.

(** [FragmentReassembler::push]. *)
Definition push_any (r : FragmentReassembler) (frame : list Z) (now : Z) : option (FragmentReassembler * option (list Z)) :=
  if is_v6 frame then
    let! pushed := push (ipv6 r) frame now in
    let '(es, out) := pushed in Some (MkReassembler (entries r) es, out)
  else
    let! pushed := Frag.push (entries r) frame now in
    let '(es, out) := pushed in Some (MkReassembler es (ipv6 r), out).

End Reassembly.

(** ** Rebuilt frames *)

(** [frame] is the headers followed by the payload, with the length set and the
    fragment header passed over; it is a packet that is not a fragment. *)
Record built `{Etherparse} (ethernet prefix : list Z) (previous protocol : Z) (payload frame : list Z) : Prop := {
  bu_split : ∃ head, frame = ethernet ++ head ++ payload ∧ len head = len prefix ∧
    ∀ i, 0 ≤ i < len prefix → byte head i =
      if i =? previous then Some protocol
      else if (4 <=? i) && (i <? 6) then byte (to_be16 (len prefix - 40 + len payload)) (i - 4)
      else byte prefix i;
  bu_parse : ∃ packet ip, range frame ETH_HEADER_LEN (len frame) = Some packet ∧ parse packet = Some (Some ip) ∧ fragment ip = None;
  bu_u8 : Forall in_u8 frame
}.

Lemma put_shift l r a bs r' : 0 ≤ a → put r a bs = Some r' → put (l ++ r) (len l + a) bs = Some (l ++ r').
Proof.
  intros Ha. unfold put. rewrite len_app. destruct (Z.leb_spec (a + len bs) (len r)) as [Hb|]; [|done]. intros [= <-].
  rewrite (proj2 (Z.leb_le _ _)) by lia. unfold len in *.
  replace (Z.to_nat (Z.of_nat (length l) + a)) with (length l + Z.to_nat a)%nat by lia.
  replace (Z.to_nat (Z.of_nat (length l) + a + Z.of_nat (length bs))) with (length l + Z.to_nat (a + Z.of_nat (length bs)))%nat by lia.
  by rewrite take_app_add, drop_app_add, <- app_assoc.
Qed.

Section Total.
Context {ep : Etherparse} {laws : EtherparseLaws}.

Lemma rebuild_total ethernet prefix previous protocol payload :
  length ethernet = 14%nat → Forall in_u8 ethernet → 40 ≤ len prefix → Forall in_u8 prefix → 6 ≤ previous < len prefix →
  in_u8 protocol → Forall in_u8 payload →
  ∃ r, rebuild ethernet prefix previous protocol payload = Some r ∧
  ∀ frame, r = Some frame → built ethernet prefix previous protocol payload frame.
Proof.
  intros He Heu Hp Hpu Hprev Hprot Hyu. unfold rebuild. destruct (Z.ltb_spec (len prefix) 40); [lia|].
  destruct (Z.ltb_spec 65535 (len prefix - 40 + len payload)); [by eexists|].
  assert (len ethernet = 14) as Hel by (unfold len; lia). pose proof (len_nonneg payload).
  set (n := len prefix - 40 + len payload) in *. unfold ETH_HEADER_LEN.
  destruct (put_Some prefix previous [protocol]) as [p1 P1]; [lia|change (len [protocol]) with 1; lia|].
  destruct (put_inv prefix previous [protocol] p1 ltac:(lia) P1) as (_ & L1 & U1 & B1).
  destruct (put_Some p1 4 (to_be16 n)) as [p2 P2]; [lia|change (len (to_be16 n)) with 2; lia|].
  destruct (put_inv p1 4 (to_be16 n) p2 ltac:(lia) P2) as (_ & L2 & U2 & B2).
  rewrite <- Hel, (put_shift ethernet prefix previous [protocol] p1), (put_shift ethernet p1 4 (to_be16 n) p2) by (done || lia).
  rewrite <- app_assoc, range_all.
  assert (Forall in_u8 (p2 ++ payload)) as Hu.
  { apply Forall_app. split; [|done]. apply U2; [apply U1; [done|by constructor]|]. apply to_be16_u8. unfold in_u16, u16_bound, n. lia. }
  destruct (ip_parse_total (p2 ++ payload) Hu) as (r & Hr & _). rewrite Hr. destruct r as [ip|]; [|by eexists].
  destruct (fragment ip) eqn:Hf; [by eexists|]. eexists. split; [done|]. intros frame [= <-]. split.
  - exists p2. split; [done|]. split; [lia|]. intros i Hi. rewrite B2 by lia. change (len (to_be16 n)) with 2.
    change (4 + 2) with 6. destruct (Z.eqb_spec i previous) as [->|Hne].
    + replace (_ && _) with false by (symmetry; apply andb_false_iff; right; apply Z.ltb_ge; lia).
      rewrite B1 by lia. change (len [protocol]) with 1. rewrite (proj2 (Z.leb_le _ _)), (proj2 (Z.ltb_lt _ _)) by lia.
      cbn [andb]. by rewrite Z.sub_diag.
    + destruct (_ && _); [done|]. rewrite B1 by lia. change (len [protocol]) with 1.
      destruct (Z.leb_spec previous i); destruct (Z.ltb_spec i (previous + 1)); cbn [andb]; try done. lia.
  - exists (p2 ++ payload), ip. split; [unfold ETH_HEADER_LEN; rewrite <- Hel; apply range_all|done].
  - by apply Forall_app.
Qed.

Lemma complete_first_header_total ethernet f :
  length ethernet = 14%nat → Forall in_u8 ethernet → fragment_ok f → is_Some (previous_next_header f) →
  is_Some (complete_first_header ethernet f).
Proof.
  intros He Heu Hf [previous Hp]. unfold complete_first_header. rewrite Hp. destruct (fo_u8 _ Hf) as [U1 U2].
  destruct (rebuild_total ethernet (f_prefix f) previous (f_protocol f) (f_payload f)) as (r & -> & Hr);
    [done|done|apply Hf|done|by apply (fo_previous _ Hf)|apply Hf|done|].
  destruct r as [frame|]; [|by eexists]. destruct (bu_parse _ _ _ _ _ _ (Hr frame eq_refl)) as (packet & ip & -> & -> & _).
  by eexists.
Qed.

(** ** Entries *)

Record entry_ok (e : Entry) : Prop := {
  eo_prefix : 40 ≤ len (prefix e) ∧ Forall in_u8 (prefix e);
  eo_ethernet : length (ethernet e) = 14%nat ∧ Forall in_u8 (ethernet e);
  eo_previous : 6 ≤ previous e < len (prefix e);
  eo_protocol : in_u8 (protocol e);
  eo_sep : sep 0 (ranges e);
  eo_ends s t : (s, t) ∈ ranges e → s < t ≤ len (payload e);
  eo_filled : payload e = [] ∨ ∃ s, (s, len (payload e)) ∈ ranges e;
  eo_len : len (payload e) ≤ 65535;
  eo_u8 : Forall in_u8 (payload e);
  eo_ranges : (length (ranges e) ≤ MAX_RANGES)%nat
}.

(** What a frame that reaches the table is made of. *)
Record view_ok (v : View) : Prop := {
  vo_ethernet : length (v_ethernet v) = 14%nat ∧ Forall in_u8 (v_ethernet v);
  vo_fragment : fragment_ok (v_fragment v);
  vo_previous : previous_next_header (v_fragment v) = Some (v_previous v)
}.

Lemma view_total frame : Forall in_u8 frame → ∃ r, view frame = Some r ∧ ∀ v, r = Some v → view_ok v.
Proof.
  intros Hf. unfold view, ETH_HEADER_LEN. destruct (Z.ltb_spec (len frame) 14); [by eexists|].
  destruct (range_Some frame 14 (len frame)) as (packet & -> & _ & Hu); [lia|lia|].
  destruct (ip_parse_total packet (Hu Hf)) as (r & -> & Hr). destruct r as [ip|]; [|by eexists]. specialize (Hr ip eq_refl).
  destruct (fragment ip) as [f|] eqn:Hfr; [|by eexists]. destruct (previous_next_header f) as [p|] eqn:Hp; [|by eexists].
  destruct (range_Some frame 0 14) as (ethernet & -> & Hl & Heu); [lia|lia|]. eexists. split; [done|]. intros v [= <-].
  split; cbn; [split; [unfold len in Hl; lia|auto]|by apply (iv_fragment _ Hr)|done].
Qed.

Lemma poison_ok e : entry_ok e → entry_ok (poison e).
Proof.
  intros He. unfold poison, upd. split; cbn; try apply He; try done; try lia; [by intros ?? ?%elem_of_nil|by left].
Qed.

Lemma new_entry6_ok now v : view_ok v → entry_ok (new_entry now (v_ethernet v) (v_previous v) (v_fragment v)).
Proof.
  intros Hv. pose proof (vo_fragment _ Hv) as Hf. unfold new_entry.
  split; cbn; try done; [split; apply Hf|apply Hv|by apply (fo_previous _ Hf), Hv|apply Hf|by intros ?? ?%elem_of_nil|by left|unfold MAX_RANGES; lia].
Qed.

Lemma overlaps_total rs p f :
  (∀ s t, (s, t) ∈ rs → 0 ≤ s ≤ t ∧ t ≤ len p) →
  ∃ o, overlaps rs p f = Some o ∧
  match o with
  | Disjoint => ∀ s t, (s, t) ∈ rs → ¬ (f_offset f < t ∧ s < f_end f)
  | Duplicate => (f_offset f, f_end f) ∈ rs ∧ range p (f_offset f) (f_end f) = Some (f_payload f)
  | Conflict => True
  end.
Proof.
  intros Hrs. induction rs as [|[s t] rs IH]; cbn [overlaps]; [eexists; split; [done|]; by intros ?? ?%elem_of_nil|].
  assert ((s, t) ∈ (s, t) :: rs) as Hin by (apply elem_of_cons; by left).
  destruct (Z.ltb_spec (f_offset f) t); destruct (Z.ltb_spec s (f_end f)); cbn [andb].
  1: destruct (Z.eqb_spec (f_offset f) s) as [Hs|]; destruct (Z.eqb_spec (f_end f) t) as [Ht|]; cbn [andb]; try by eexists.
  { destruct (Hrs s t Hin). destruct (range_Some p s t) as (old & Ho & _); [lia|lia|]. rewrite Ho.
    case_bool_decide as Hb; eexists; (split; [done|]); [|done]. rewrite Hs, Ht. subst old. done. }
  all: destruct IH as (o & -> & Hspec); [intros ?? ?; apply Hrs; apply elem_of_cons; by right|]; exists o; (split; [done|]);
    destruct o; [intros s' t' [[= -> ->]|Hin']%elem_of_cons; [lia|by apply Hspec]|split; [apply elem_of_cons; right|]; apply Hspec|done].
Qed.

Lemma range_byte_at l a b bs i : 0 ≤ a → range l a b = Some bs → a ≤ i < b → byte bs (i - a) = byte l i.
Proof.
  intros Ha. unfold range. case_match; [|done]. intros [= <-] Hi. unfold byte. rewrite lookup_take_lt by lia.
  rewrite lookup_drop. f_equal. lia.
Qed.

(** The congestion mark of a fragment, as a bit. *)
Definition mark (f : FragmentView) : Z :=
  match byte (f_prefix f) 1 with Some traffic => Z.shiftl 1 (Z.land (Z.shiftr traffic 4) 3) | None => 0 end.

(** The entry took the fragment. *)
Record accepted (e : Entry) (v : View) (e' : Entry) : Prop := {
  ac_open : poisoned e = false ∧ poisoned e' = false;
  ac_fits : misfits e (v_previous v) (v_fragment v) = false;
  ac_same : first_seen e' = first_seen e ∧ previous e' = previous e ∧ protocol e' = protocol e;
  ac_total : total e' = if f_more (v_fragment v) then total e else Some (f_end (v_fragment v));
  ac_head : if f_offset (v_fragment v) =? 0
    then prefix e' = f_prefix (v_fragment v) ∧ ethernet e' = v_ethernet v
    else prefix e' = prefix e ∧ ethernet e' = ethernet e;
  ac_ecn : ecn e' = Z.lor (ecn e) (mark (v_fragment v));
  ac_covered i : covered (ranges e') i ↔ f_offset (v_fragment v) ≤ i < f_end (v_fragment v) ∨ covered (ranges e) i;
  ac_old i : covered (ranges e) i → byte (payload e') i = byte (payload e) i;
  ac_new i : f_offset (v_fragment v) ≤ i < f_end (v_fragment v) →
    byte (payload e') i = byte (f_payload (v_fragment v)) (i - f_offset (v_fragment v));
  ac_starts s t : (s, t) ∈ ranges e' → s = f_offset (v_fragment v) ∨ ∃ t', (s, t') ∈ ranges e
}.

Lemma keep_bytes_spec e f :
  entry_ok e → fragment_ok f → f_payload f ≠ [] → f_end f ≤ 65535 →
  (∀ s t, (s, t) ∈ ranges e → ¬ (f_offset f < t ∧ s < f_end f)) →
  ∃ e', keep_bytes e f = Some e' ∧ (∃ p r, e' = e <| payload := p |> <| ranges := r |>) ∧
  ((length (ranges e') ≤ MAX_RANGES)%nat → entry_ok e') ∧ entry_ok (poison e') ∧
  (∀ i, covered (ranges e') i ↔ f_offset f ≤ i < f_end f ∨ covered (ranges e) i) ∧
  (∀ i, covered (ranges e) i → byte (payload e') i = byte (payload e) i) ∧
  (∀ i, f_offset f ≤ i < f_end f → byte (payload e') i = byte (f_payload f) (i - f_offset f)) ∧
  ∀ s t, (s, t) ∈ ranges e' → s = f_offset f ∨ ∃ t', (s, t') ∈ ranges e.
Proof.
  intros He Hf Hne Hend Hdis. pose proof (fo_offset _ Hf) as Ho. unfold keep_bytes, f_end in *.
  assert (0 < len (f_payload f)) as Hpos by (unfold len; destruct (f_payload f); [done|simpl; lia]).
  destruct (fo_u8 _ Hf) as [_ Hu]. set (n := Z.to_nat _).
  destruct (put_grown (payload e) n (f_offset f) (f_payload f)) as (p & -> & Hl & Hpu & Hout & Hin);
    [apply He|done|lia|unfold n; lia|].
  destruct (merge_range_spec (ranges e) (f_offset f) (f_offset f + len (f_payload f))) as (M1 & M2 & M3); [apply He|lia|].
  eexists. split; [done|]. split; [by eexists _, _|].
  assert (∀ i, covered (ranges e) i → 0 ≤ i < len (payload e) ∧ ¬ (f_offset f ≤ i < f_offset f + len (f_payload f))) as Hcov.
  { intros i (s & t & Hst & Hi). pose proof (eo_ends _ He _ _ Hst). pose proof (sep_elem _ _ _ _ (eo_sep _ He) Hst).
    specialize (Hdis s t Hst). lia. }
  assert (∀ s t, (s, t) ∈ merge_range (ranges e) (f_offset f) (f_offset f + len (f_payload f)) → s < t ≤ len p) as Hends.
  { intros s t Hst. destruct (M3 s t Hst) as [Hs Ht]. pose proof (sep_elem _ _ _ _ M1 Hst). split.
    - assert (covered (merge_range (ranges e) (f_offset f) (f_offset f + len (f_payload f))) s) as (s2 & t2 & Hst2 & Hs2).
      { apply M2. destruct Hs as [->|[t' Ht']]; [left; lia|right]. exists s, t'. split; [done|]. pose proof (eo_ends _ He _ _ Ht'). lia. }
      assert ((s, t) = (s2, t2)) as [= -> ->]; [|lia]. apply (sep_same _ _ _ _ _ _ M1 Hst Hst2); lia.
    - rewrite Hl. destruct Ht as [->|[s' Hs']]; [lia|]. pose proof (eo_ends _ He _ _ Hs'). lia. }
  unfold poison, upd. cbn. split; [|split; [|split; [done|split; [|split; [done|]]]]].
  - intros Hr. split; cbn; try apply He; try done.
    + right. destruct (M2 (len p - 1)) as [_ (s & t & Hst & Hb)].
      { destruct (decide (len p = f_offset f + len (f_payload f))); [left; lia|right].
        destruct (eo_filled _ He) as [Hnil|[s Hs]]; [rewrite Hnil in Hl; change (len []) with 0 in Hl; lia|].
        exists s, (len (payload e)). split; [done|]. pose proof (eo_ends _ He _ _ Hs). lia. }
      pose proof (Hends s t Hst). exists s. by replace (len p) with t by lia.
    + pose proof (eo_len _ He). lia.
  - apply (poison_ok e He).
  - intros i [H1 H2]%Hcov. by apply Hout.
  - intros s t [Hs _]%M3. done.
Qed.

(** What a fragment that fits satisfies. *)
Record fits (e : Entry) (v : View) : Prop := {
  fi_payload : f_payload (v_fragment v) ≠ [];
  fi_len : len (f_prefix (v_fragment v)) - 40 + f_end (v_fragment v) ≤ 65535;
  fi_same : previous e = v_previous v ∧ protocol e = f_protocol (v_fragment v);
  fi_prefix : same_prefix (prefix e) (f_prefix (v_fragment v)) = true;
  fi_total t : total e = Some t → f_end (v_fragment v) ≤ t;
  fi_last t : f_more (v_fragment v) = false → total e = Some t → t = f_end (v_fragment v);
  fi_ranges r : f_more (v_fragment v) = false → last (ranges e) = Some r → r.2 ≤ f_end (v_fragment v)
}.

Lemma misfits_fits e v : misfits e (v_previous v) (v_fragment v) = false → fits e v.
Proof.
  unfold misfits. rewrite !orb_false_iff, !negb_false_iff.
  intros [[[[[[[H1 _] H3%Z.ltb_ge] H4%Z.eqb_eq] H5%Z.eqb_eq] H6] H7] H8].
  apply bool_decide_eq_false in H1. split; [done|done|done|done| | |].
  - intros t Ht. rewrite Ht in H7. apply orb_false_iff in H7 as [H7%Z.ltb_ge _]. done.
  - intros t Hm Ht. rewrite Hm, Ht in H8. cbn [negb andb] in H8. apply orb_false_iff in H8 as [H8%negb_false_iff%Z.eqb_eq _]. done.
  - intros r Hm Hr. rewrite Hm, Hr in H8. cbn [negb andb] in H8. apply orb_false_iff in H8 as [_ H8%Z.ltb_ge]. done.
Qed.

Lemma refused_total e v : view_ok v →
  ∃ r, refused e (v_ethernet v) (v_previous v) (v_fragment v) = Some r ∧
  (r = false → misfits e (v_previous v) (v_fragment v) = false).
Proof.
  intros Hv. unfold refused. destruct (misfits e (v_previous v) (v_fragment v)) eqn:Hm; [by eexists|].
  destruct (f_offset (v_fragment v) =? 0); [|by eexists]. destruct (vo_ethernet _ Hv) as [E1 E2].
  destruct (complete_first_header_total (v_ethernet v) (v_fragment v)) as [c ->]; [done|done|apply Hv|rewrite (vo_previous _ Hv); eauto|].
  by eexists.
Qed.

Lemma same_prefix_length a b : same_prefix a b = true → length a = length b.
Proof. unfold same_prefix. intros [H _]%andb_true_iff. by apply bool_decide_eq_true in H. Qed.

Lemma note_spec e v :
  entry_ok e → view_ok v → same_prefix (prefix e) (f_prefix (v_fragment v)) = true →
  ∃ e', note e (v_ethernet v) (v_fragment v) = Some e' ∧ entry_ok e' ∧ payload e' = payload e ∧ ranges e' = ranges e ∧
  ecn e' = ecn e ∧ poisoned e' = poisoned e ∧ first_seen e' = first_seen e ∧ previous e' = previous e ∧ protocol e' = protocol e ∧
  total e' = (if f_more (v_fragment v) then total e else Some (f_end (v_fragment v))) ∧
  if f_offset (v_fragment v) =? 0
    then prefix e' = f_prefix (v_fragment v) ∧ ethernet e' = v_ethernet v
    else prefix e' = prefix e ∧ ethernet e' = ethernet e.
Proof.
  intros He Hv Hs%same_prefix_length. unfold note. pose proof (vo_fragment _ Hv) as Hf.
  set (e1 := if f_more (v_fragment v) then e else _).
  assert (entry_ok e1 ∧ prefix e1 = prefix e ∧ ethernet e1 = ethernet e ∧ payload e1 = payload e ∧ ranges e1 = ranges e ∧ ecn e1 = ecn e ∧
    poisoned e1 = poisoned e ∧ first_seen e1 = first_seen e ∧ previous e1 = previous e ∧ protocol e1 = protocol e ∧
    total e1 = if f_more (v_fragment v) then total e else Some (f_end (v_fragment v)))
    as (E0 & E1 & E1' & E2 & E3 & E4 & E5 & E6 & E7 & E8 & E9).
  { unfold e1. destruct (f_more (v_fragment v)); [done|]. split; [|done]. unfold upd. split; cbn; apply He. }
  destruct (f_offset (v_fragment v) =? 0); [|by exists e1].
  rewrite E1, bool_decide_eq_true_2 by done. eexists. split; [done|]. unfold upd; cbn. split; [|done].
  split; cbn; try apply E0; [split; apply Hf|apply Hv|]. pose proof (eo_previous _ E0). rewrite E1 in *. unfold len in *. lia.
Qed.

Lemma receive_spec e v :
  entry_ok e → view_ok v →
  ∃ e' c, receive e (v_ethernet v) (v_previous v) (v_fragment v) = Some (e', c) ∧ entry_ok e' ∧ first_seen e' = first_seen e ∧
  (poisoned e' = true ∧ c = false ∨ accepted e v e' ∧ (c = true → complete e' = true)).
Proof.
  intros He Hv. pose proof (vo_fragment _ Hv) as Hf. unfold receive. destruct (poisoned e) eqn:Hp; [exists e, false; split; [done|]; split; [done|]; split; [done|]; by left|].
  assert (∀ e1, entry_ok e1 → first_seen e1 = first_seen e → ∃ e' c, Some (poison e1, false) = Some (e', c) ∧ entry_ok e' ∧
    first_seen e' = first_seen e ∧ (poisoned e' = true ∧ c = false ∨ accepted e v e' ∧ (c = true → complete e' = true))) as Hpoison.
  { intros e1 H1 Hs. eexists _, _. split; [done|]. split; [by apply poison_ok|]. auto. }
  destruct (refused_total e v Hv) as (r & -> & Hr). destruct r; [by apply Hpoison|]. specialize (Hr eq_refl).
  pose proof (misfits_fits e v Hr) as Hfit. destruct (fo_u8 _ Hf) as [Hfu _].
  destruct (byte_Some (f_prefix (v_fragment v)) 1) as (traffic & Htr & _); [done|pose proof (fo_prefix _ Hf); lia|]. rewrite Htr.
  set (e1 := e <| ecn := _ |>). assert (entry_ok e1) as He1 by (unfold e1, upd; split; cbn; apply He).
  destruct (_ && negb (ecn e1 =? 1)); [by apply Hpoison|].
  destruct (note_spec e1 v He1 Hv (fi_prefix _ _ Hfit)) as (e2 & -> & He2 & N1 & N2 & N3 & N4 & N5 & N6 & N7 & N8 & N9).
  destruct (overlaps_total (ranges e2) (payload e2) (v_fragment v)) as (o & -> & Ho).
  { intros s t Hst. pose proof (eo_ends _ He2 _ _ Hst). pose proof (sep_elem _ _ _ _ (eo_sep _ He2) Hst). lia. }
  assert (f_end (v_fragment v) ≤ 65535) as Hend by (pose proof (fi_len _ _ Hfit); pose proof (fo_prefix _ Hf); lia).
  assert (mark (v_fragment v) = Z.shiftl 1 (Z.land (Z.shiftr traffic 4) 3)) as Hmark by (unfold mark; by rewrite Htr).
  destruct o; [|exists e2, false; split; [done|]; split; [done|]; split; [done|]; right; split; [|done]|by apply Hpoison; [|rewrite N5]].
  - destruct (keep_bytes_spec e2 (v_fragment v) He2 Hf (fi_payload _ _ Hfit) Hend Ho)
      as (e3 & -> & (p & rs & He3) & Hok & Hpois & K1 & K2 & K3 & K4).
    assert (first_seen e3 = first_seen e) as Hseen by (rewrite He3; exact N5).
    destruct (Nat.ltb_spec MAX_RANGES (length (ranges e3))) as [Hlt|Hle].
    { eexists _, _. split; [done|]. split; [done|]. split; [done|by left]. }
    eexists _, _. split; [done|]. split; [by apply Hok|]. split; [done|]. right. split; [|done].
    rewrite N2, N1 in *. split; try done; rewrite ?He3; unfold upd; cbn; rewrite ?N4, ?N6, ?N7, ?N8, ?N3, ?Hmark; try done.
  - destruct Ho as [Hin Hold]. rewrite N2, N1 in *.
    assert (∀ i, f_offset (v_fragment v) ≤ i < f_end (v_fragment v) → covered (ranges e) i) as Hcov
      by (intros i Hi; eexists _, _; split; [exact Hin|done]).
    split; rewrite ?N3, ?N4, ?N5, ?N6, ?N7, ?N8, ?N2, ?N1; try done; unfold e1, upd; cbn; rewrite ?Hmark; try done.
    + intros i. split; [by right|]. intros [Hi|Hi]; [by apply Hcov|done].
    + intros i Hi. symmetry. apply (range_byte_at _ _ _ _ _ ltac:(apply Hf) Hold Hi).
    + intros s t Hst. right. by exists t.
Qed.

End Total.

End Frag6.
