(* ===== verification/FragmentV6Props.v ===== *)
(** * What the reassembly of IPv6 fragments guarantees

    The log of the fragments an entry holds: while an entry is not poisoned all the
    fragments that arrived since it was made agree with it, so a frame that comes
    out is made of fragments of one datagram, and fragments that disagree bring
    nothing out until the entry times out. *)

From Stdlib Require Import ZArith Lia.
From stdpp Require Import base numbers list gmap.
From S2P Require Import Prelude Bits Checksum Bytes EthFrame Fragment IpView FragmentV6.

Open Scope Z_scope.

Module Frag6Props.

Import Eth Frag IpView Frag6.

(** ** Prefixes that may belong to one datagram *)

Lemma same_prefix_spec a b :
  same_prefix a b = true ↔ length a = length b ∧ ∀ i x y, a !! i = Some x → b !! i = Some y → same_byte i x y = true.
Proof.
  unfold same_prefix. rewrite andb_true_iff, bool_decide_eq_true, forallb_forall. split; intros [Hl Hf]; (split; [done|]).
  - intros i x y Hx Hy. specialize (Hf (i, (x, y))). cbn in Hf. apply Hf. apply list_elem_of_In, list_elem_of_lookup. exists i.
    rewrite list_lookup_imap, lookup_zip_with, Hx, Hy. done.
  - intros [i [x y]] Hin. apply list_elem_of_In, list_elem_of_lookup in Hin as [j Hj]. rewrite list_lookup_imap, lookup_zip_with in Hj.
    destruct (a !! j) as [x'|] eqn:Hx; [|done]. destruct (b !! j) as [y'|] eqn:Hy; [|done]. injection Hj as <- <- <-. by apply Hf.
Qed.

Lemma same_byte_equiv i x y z : same_byte i x y = true → (same_byte i x z = true ↔ same_byte i y z = true).
Proof.
  intros Hxy. unfold same_byte in *. destruct i as [|[|[|[|[|[|[|[|i]]]]]]]]; try done;
    apply Z.eqb_eq in Hxy; rewrite ?Hxy; done.
Qed.

Lemma same_prefix_equiv a b c : same_prefix a b = true → same_prefix a c = true → same_prefix b c = true.
Proof.
  rewrite !same_prefix_spec. intros [Hl1 H1] [Hl2 H2]. split; [congruence|]. intros i y z Hy Hz.
  destruct (lookup_lt_is_Some_2 a i) as [x Hx]; [rewrite Hl1; by eapply lookup_lt_Some|].
  apply (same_byte_equiv i x y z); eauto.
Qed.

Lemma same_prefix_refl a : same_prefix a a = true.
Proof.
  apply same_prefix_spec. split; [done|]. intros i x y Hx Hy. rewrite Hx in Hy. injection Hy as ->.
  unfold same_byte. repeat case_match; try done; apply Z.eqb_refl.
Qed.

(** ** The fragments of a datagram among the frames *)

Notation Arrival := (list Z * Z)%type.

Section Log.
Context {ep : Etherparse} {laws : EtherparseLaws}.

Definition view_of (k : Key) (a : Arrival) : option View :=
  match view a.1 with
  | Some (Some v) => if decide (v_key v = k ∧ atomic (v_fragment v) = false) then Some v else None
  | _ => None
  end.
Definition views (k : Key) (fs : list Arrival) : list View := omap (view_of k) fs.

Lemma views6_app k fs gs : views k (fs ++ gs) = views k fs ++ views k gs.
Proof. apply omap_app. Qed.

Lemma views6_hit frame now v :
  view frame = Some (Some v) → atomic (v_fragment v) = false → views (v_key v) [(frame, now)] = [v].
Proof. intros Hv Ha. unfold views, view_of. simpl. by rewrite Hv, decide_True. Qed.

Lemma views6_miss k frame now v : view frame = Some (Some v) → v_key v ≠ k ∨ atomic (v_fragment v) = true → views k [(frame, now)] = [].
Proof. intros Hv Hk. unfold views, view_of. simpl. rewrite Hv, decide_False; [done|]. intros [? ?]. destruct Hk; congruence. Qed.

Lemma views6_none k frame now : view frame = Some None → views k [(frame, now)] = [].
Proof. intros Hv. unfold views, view_of. simpl. by rewrite Hv. Qed.

Definition marks (vs : list View) : Z := foldl (λ m v, Z.lor m (mark (v_fragment v))) 0 vs.

(** The entry [e] holds exactly the fragments [vs], all of which agree. *)
Record agreed (e : Entry) (vs : list View) : Prop := {
  ag_bytes v i : v ∈ vs → f_offset (v_fragment v) ≤ i < f_end (v_fragment v) →
    covered (ranges e) i ∧ byte (payload e) i = byte (f_payload (v_fragment v)) (i - f_offset (v_fragment v));
  ag_cover i : covered (ranges e) i → ∃ v, v ∈ vs ∧ f_offset (v_fragment v) ≤ i < f_end (v_fragment v);
  ag_total t : total e = Some t → ∃ v, v ∈ vs ∧ f_more (v_fragment v) = false ∧ f_end (v_fragment v) = t;
  ag_last v : v ∈ vs → f_more (v_fragment v) = false → total e = Some (f_end (v_fragment v));
  ag_same v : v ∈ vs → v_previous v = previous e ∧ f_protocol (v_fragment v) = protocol e ∧
    same_prefix (prefix e) (f_prefix (v_fragment v)) = true;
  ag_head v : v ∈ vs → f_offset (v_fragment v) = 0 →
    ∃ w, w ∈ vs ∧ f_offset (v_fragment w) = 0 ∧ prefix e = f_prefix (v_fragment w) ∧ ethernet e = v_ethernet w;
  ag_starts s t : (s, t) ∈ ranges e → ∃ v, v ∈ vs ∧ f_offset (v_fragment v) = s;
  ag_ecn : ecn e = marks vs
}.

Lemma new_entry_agreed now v : agreed (new_entry now (v_ethernet v) (v_previous v) (v_fragment v)) [].
Proof.
  split; try done; try (by intros ?? ?%elem_of_nil); try (by intros ? ?%elem_of_nil). by intros i ?%covered_nil.
Qed.

Lemma accepted_agreed e v e' vs : agreed e vs → accepted e v e' → agreed e' (vs ++ [v]).
Proof.
  intros He Ha. pose proof (misfits_fits _ _ (ac_fits _ _ _ Ha)) as Hfit. destruct (ac_same _ _ _ Ha) as (_ & Hprev & Hprot).
  assert (∀ w, w ∈ vs ++ [v] ↔ w ∈ vs ∨ w = v) as Hin by (intros w; by rewrite elem_of_app, list_elem_of_singleton).
  assert (∀ P : View → Prop, (∃ w, w ∈ vs ∧ P w) → ∃ w, w ∈ vs ++ [v] ∧ P w) as Hl.
  { intros P (w & Hw & HP). exists w. split; [apply Hin; by left|done]. }
  assert (∀ P : View → Prop, P v → ∃ w, w ∈ vs ++ [v] ∧ P w) as Hr by (intros P HP; exists v; split; [apply Hin; by right|done]).
  pose proof (ac_total _ _ _ Ha) as Htot. pose proof (ac_head _ _ _ Ha) as Hhead. split.
  - intros w i [Hw| ->]%Hin Hi; [|split; [apply (ac_covered _ _ _ Ha); by left|by apply (ac_new _ _ _ Ha)]].
    destruct (ag_bytes _ _ He w i Hw Hi) as [Hc Hb]. split; [apply (ac_covered _ _ _ Ha); by right|by rewrite (ac_old _ _ _ Ha)].
  - intros i [Hi|Hi]%(ac_covered _ _ _ Ha); [by apply Hr|]. by apply Hl, (ag_cover _ _ He).
  - intros t Ht. rewrite Htot in Ht. destruct (f_more (v_fragment v)) eqn:Hm; [by apply Hl, (ag_total _ _ He)|].
    injection Ht as <-. by apply Hr.
  - intros w [Hw| ->]%Hin Hm; [|by rewrite Htot, Hm]. pose proof (ag_last _ _ He w Hw Hm) as Hlast. rewrite Htot.
    destruct (f_more (v_fragment v)) eqn:Hm'; [done|]. f_equal. symmetry. by apply (fi_last _ _ Hfit).
  - rewrite Hprev, Hprot. destruct (fi_same _ _ Hfit) as [F1 F2]. pose proof (fi_prefix _ _ Hfit) as F3.
    assert (∀ w, w ∈ vs ++ [v] → v_previous w = previous e ∧ f_protocol (v_fragment w) = protocol e ∧
      same_prefix (prefix e) (f_prefix (v_fragment w)) = true) as Hold by (intros w [Hw| ->]%Hin; [by apply (ag_same _ _ He)|done]).
    intros w (W1 & W2 & W3)%Hold. split; [done|]. split; [done|].
    destruct (f_offset (v_fragment v) =? 0); destruct Hhead as [-> _]; [by apply (same_prefix_equiv (prefix e))|done].
  - intros w Hw H0. destruct (Z.eqb_spec (f_offset (v_fragment v)) 0) as [Hz|Hz]; destruct Hhead as [Hh1 Hh2]; [by apply Hr|].
    apply Hin in Hw as [Hw| ->]; [|done]. rewrite Hh1, Hh2. by apply Hl, (ag_head _ _ He w).
  - intros s t [->|[t' Hs]]%(ac_starts _ _ _ Ha); [by apply Hr|]. by apply Hl, (ag_starts _ _ He s t').
  - rewrite (ac_ecn _ _ _ Ha), (ag_ecn _ _ He). unfold marks. by rewrite foldl_snoc.
Qed.

(** ** Complete datagrams *)

(** The prefix with the congestion mark of the whole datagram. *)
Definition remarked (m : Z) (prefix prefix' : list Z) : Prop :=
  ∃ traffic, byte prefix 1 = Some traffic ∧
  put prefix 1 [Z.lor (Z.land traffic (255 - 0x30)) (Z.shiftl (joint_ecn m) 4)] = Some prefix'.

(** [out] is the datagram of the fragments [vs]: they agree with its payload [body]
    wherever they lie, fill it, and have the same headers as far as these must not
    differ; the headers are those of a fragment at offset 0. *)
Record assembled (vs : list View) (out : list Z) (head : View) (body : list Z) : Prop := {
  as_head : head ∈ vs ∧ f_offset (v_fragment head) = 0;
  as_built : ∃ prefix, remarked (marks vs) (f_prefix (v_fragment head)) prefix ∧
    built (v_ethernet head) prefix (v_previous head) (f_protocol (v_fragment head)) body out;
  as_agree v i : v ∈ vs → f_offset (v_fragment v) ≤ i < f_end (v_fragment v) →
    i < len body ∧ byte body i = byte (f_payload (v_fragment v)) (i - f_offset (v_fragment v));
  as_cover i : 0 ≤ i < len body → ∃ v, v ∈ vs ∧ f_offset (v_fragment v) ≤ i < f_end (v_fragment v);
  as_last v : v ∈ vs → f_more (v_fragment v) = false → f_end (v_fragment v) = len body;
  as_ends : ∃ v, v ∈ vs ∧ f_more (v_fragment v) = false;
  as_same v : v ∈ vs → v_previous v = v_previous head ∧ f_protocol (v_fragment v) = f_protocol (v_fragment head) ∧
    same_prefix (f_prefix (v_fragment head)) (f_prefix (v_fragment v)) = true
}.

Lemma joint_ecn_range m : 0 ≤ joint_ecn m ≤ 3.
Proof. unfold joint_ecn. repeat case_match; lia. Qed.

Lemma remark_byte t m : in_u8 t → in_u8 (Z.lor (Z.land t (255 - 0x30)) (Z.shiftl (joint_ecn m) 4)).
Proof.
  intros Ht. pose proof (joint_ecn_range m) as Hj. pose proof (land_le_r t (255 - 0x30) ltac:(apply Ht) ltac:(lia)) as Hl.
  unfold in_u8, u8_bound. assert (0 ≤ Z.land t (255 - 0x30)) by (apply Z.land_nonneg; lia).
  assert (0 ≤ Z.shiftl (joint_ecn m) 4 ≤ 48) by (rewrite Z.shiftl_mul_pow2 by lia; lia).
  split; [apply Z.lor_nonneg; lia|]. apply (Z.log2_lt_cancel); rewrite Z.log2_lor by lia.
  apply Z.max_lub_lt; (eapply Z.le_lt_trans; [apply (Z.log2_le_mono _ 255); lia|reflexivity]).
Qed.

Lemma finish_spec e :
  entry_ok e → ∃ r, finish e = Some r ∧
  ∀ out, r = Some out → ∃ prefix', remarked (ecn e) (prefix e) prefix' ∧
    built (ethernet e) prefix' (previous e) (protocol e) (payload e) out.
Proof.
  intros He. destruct (eo_prefix _ He) as [Hp Hu]. unfold finish.
  destruct (byte_Some (prefix e) 1) as (t & Ht & Htu); [done|lia|]. rewrite Ht.
  set (b := Z.lor _ _). assert (in_u8 b) as Hb by (by apply remark_byte).
  destruct (put_Some (prefix e) 1 [b]) as [p Hput]; [lia|change (len [b]) with 1; lia|]. rewrite Hput.
  destruct (put_inv (prefix e) 1 [b] p ltac:(lia) Hput) as (_ & Hl & Hpu & _). destruct (eo_ethernet _ He) as [E1 E2].
  destruct (rebuild_total (ethernet e) p (previous e) (protocol e) (payload e)) as (r & -> & Hr);
    [done|done|lia|apply Hpu; [done|by constructor]|rewrite Hl; apply He|apply He|apply He|].
  exists r. split; [done|]. intros out Hout. exists p. split; [by exists t|by apply Hr].
Qed.

Lemma complete_assembled6 e vs out :
  entry_ok e → agreed e vs → complete e = true → finish e = Some (Some out) → ∃ head, assembled vs out head (payload e).
Proof.
  intros He Ha Hc Hf. unfold complete in Hc. destruct (total e) as [t|] eqn:Ht; [|done]. apply bool_decide_eq_true in Hc.
  assert (t = len (payload e)) as ->.
  { pose proof (eo_ends _ He 0 t) as Hends. rewrite Hc in Hends. specialize (Hends ltac:(by apply list_elem_of_singleton)).
    destruct (eo_filled _ He) as [Hn|[s Hs]]; [rewrite Hn in Hends; change (len []) with 0 in Hends; lia|].
    rewrite Hc in Hs. apply list_elem_of_singleton in Hs. congruence. }
  assert (∀ i, covered (ranges e) i ↔ 0 ≤ i < len (payload e)) as Hcov.
  { intros i. rewrite Hc, covered_cons. split; [intros [?|?%covered_nil]; [done|done]|by left]. }
  destruct (ag_starts _ _ Ha 0 (len (payload e))) as (v0 & Hv0 & H0); [rewrite Hc; by apply list_elem_of_singleton|].
  destruct (ag_head _ _ Ha v0 Hv0 H0) as (head & Hhead & Hz & Hpre & Heth). destruct (ag_same _ _ Ha head Hhead) as (S1 & S2 & _).
  destruct (finish_spec e He) as (r & Hr & Hb). rewrite Hf in Hr. injection Hr as <-.
  destruct (Hb out eq_refl) as (p & Hmark & Hbuilt). exists head. split.
  - done.
  - exists p. rewrite <- (ag_ecn _ _ Ha), <- Hpre, <- Heth, S1, S2. done.
  - intros v i Hv Hi. destruct (ag_bytes _ _ Ha v i Hv Hi) as [Hci Hbi]. apply Hcov in Hci. split; [lia|done].
  - intros i Hi. by apply (ag_cover _ _ Ha), Hcov.
  - intros v Hv Hm. pose proof (ag_last _ _ Ha v Hv Hm). congruence.
  - destruct (ag_total _ _ Ha _ Ht) as (v & Hv & Hm & _). eauto.
  - intros v Hv. destruct (ag_same _ _ Ha v Hv) as (V1 & V2 & V3). rewrite <- Hpre. split; [congruence|]. split; [congruence|done].
Qed.

(** ** The table *)

Definition table_ok (es : Table) : Prop := (size es ≤ MAX_ENTRIES)%nat ∧ map_Forall (λ _, entry_ok) es.

(** The entry a fragment meets. *)
Definition met (es : Table) (v : View) (now : Z) : Entry :=
  default (new_entry now (v_ethernet v) (v_previous v) (v_fragment v)) (es !! v_key v).

Inductive entered (es : Table) (v : View) (now : Z) : Table → option (list Z) → Prop :=
  | entered_full : es !! v_key v = None → (MAX_ENTRIES ≤ size es)%nat → entered es v now es None
  | entered_kept e :
      (es !! v_key v = None → (size es < MAX_ENTRIES)%nat) → entry_ok e → first_seen e = first_seen (met es v now) →
      poisoned e = true ∨ accepted (met es v now) v e → entered es v now (<[v_key v := e]> es) None
  | entered_done e out :
      entry_ok e → first_seen e = first_seen (met es v now) → accepted (met es v now) v e → complete e = true →
      finish e = Some out → entered es v now (delete (v_key v) es) out.

Lemma enter_total es v now :
  table_ok es → view_ok v →
  ∃ es' out, enter es (v_key v) (v_ethernet v) (v_previous v) (v_fragment v) now = Some (es', out) ∧ entered es v now es' out.
Proof.
  intros [Hsize Hes] Hv. unfold enter.
  destruct (bool_decide (es !! v_key v = None) && (MAX_ENTRIES <=? size es)%nat) eqn:Hfull.
  { apply andb_true_iff in Hfull as [Hn%bool_decide_eq_true Hs%Nat.leb_le]. eexists _, _. split; [done|]. by apply entered_full. }
  assert (es !! v_key v = None → (size es < MAX_ENTRIES)%nat) as Hroom.
  { intros Hn. rewrite bool_decide_eq_true_2 in Hfull by done. by apply Nat.leb_gt in Hfull. }
  fold (met es v now). assert (entry_ok (met es v now)) as Hmet.
  { unfold met. destruct (es !! v_key v) as [e|] eqn:Hk; cbn; [by apply (Hes (v_key v))|by apply new_entry6_ok]. }
  destruct (receive_spec (met es v now) v Hmet Hv) as (e & c & -> & He & Hs & Hcase). destruct c.
  - destruct Hcase as [[_ [=]]|[Ha Hc]]. destruct (finish_spec e He) as (out & Hf & _). rewrite Hf.
    eexists _, _. split; [done|]. by eapply entered_done; [..|apply Hc|].
  - eexists _, _. split; [done|]. apply entered_kept; [done|done|done|]. destruct Hcase as [[? _]|[? _]]; [by left|by right].
Qed.

Lemma retain_lookup es now k e :
  retain es now !! k = Some e ↔ es !! k = Some e ∧ saturating_sub now (first_seen e) < REASSEMBLY_TIMEOUT.
Proof. unfold retain. by rewrite map_lookup_filter_Some. Qed.

Lemma sub_ok es es' : es' ⊆ es → table_ok es → table_ok es'.
Proof.
  intros Hsub [Hs He]. split; [pose proof (map_subseteq_size es' es Hsub); lia|].
  intros k e Hk. apply (He k). by eapply lookup_weaken.
Qed.

Lemma entered_ok es v now es' out : table_ok es → entered es v now es' out → table_ok es'.
Proof.
  intros [Hs He] [Hn _|e Hroom Hok _ _|e o _ _ _ _ _]; [done| |apply (sub_ok es); [apply delete_subseteq|done]].
  split; [|by apply map_Forall_insert_2]. destruct (es !! v_key v) as [e0|] eqn:Hk.
  - rewrite map_size_insert, Hk. done.
  - rewrite map_size_insert, Hk. specialize (Hroom eq_refl). lia.
Qed.

(** Every entry of the table was made by a fragment since which it holds all the
    fragments of its datagram, as long as they agree. *)
Definition since (k : Key) (e : Entry) (h : list Arrival) : Prop :=
  ∃ pre frame rest, h = pre ++ (frame, first_seen e) :: rest ∧ views k [(frame, first_seen e)] ≠ [] ∧
  (poisoned e = false → agreed e (views k ((frame, first_seen e) :: rest))).
Definition table_log (es : Table) (h : list Arrival) : Prop := ∀ k e, es !! k = Some e → since k e h.

Lemma since_other k e h a : views k [a] = [] → since k e h → since k e (h ++ [a]).
Proof.
  intros Ha (pre & frame & rest & -> & Hv & Hlog). exists pre, frame, (rest ++ [a]). split; [by rewrite <- app_assoc|].
  split; [done|]. by rewrite app_comm_cons, views6_app, Ha, app_nil_r.
Qed.

Lemma since_met es h frame now v e :
  table_log es h → view frame = Some (Some v) → atomic (v_fragment v) = false →
  first_seen e = first_seen (met es v now) → poisoned e = true ∨ accepted (met es v now) v e →
  since (v_key v) e (h ++ [(frame, now)]).
Proof.
  intros Hl Hv Hat Hs Hcase. pose proof (views6_hit frame now v Hv Hat) as Hhit. unfold met, since in *. rewrite Hs.
  destruct (es !! v_key v) as [e0|] eqn:Hk; cbn [default] in *.
  - destruct (Hl _ _ Hk) as (pre & frame0 & rest & -> & Hne & Hlog). exists pre, frame0, (rest ++ [(frame, now)]).
    split; [by rewrite <- app_assoc|]. split; [done|]. rewrite app_comm_cons, views6_app, Hhit. intros Hop.
    destruct Hcase as [?|Ha]; [congruence|]. destruct (ac_open _ _ _ Ha) as [Ho _]. by apply (accepted_agreed e0 v e); [apply Hlog|].
  - exists h, frame, []. cbn [first_seen new_entry]. split; [done|]. rewrite Hhit. split; [done|]. intros Hop.
    destruct Hcase as [?|Ha]; [congruence|]. apply (accepted_agreed _ _ _ [] (new_entry_agreed now v) Ha).
Qed.

(** Where a frame that comes out at [now] comes from: a fragment that is a whole
    datagram, or the fragments of one datagram that arrived in the last three
    seconds, since one of them. *)
Inductive origin (h : list Arrival) (now : Z) (out : list Z) : Prop :=
  | origin_atomic pre frame v :
      h = pre ++ [(frame, now)] → view frame = Some (Some v) → atomic (v_fragment v) = true →
      built (v_ethernet v) (f_prefix (v_fragment v)) (v_previous v) (f_protocol (v_fragment v)) (f_payload (v_fragment v)) out →
      origin h now out
  | origin_fragments k pre frame t rest head body :
      h = pre ++ (frame, t) :: rest → saturating_sub now t < REASSEMBLY_TIMEOUT →
      assembled (views k ((frame, t) :: rest)) out head body → origin h now out.

Lemma table_log_other6 es h frame now v :
  view frame = Some (Some v) → es !! v_key v = None → table_log es h → table_log es (h ++ [(frame, now)]).
Proof.
  intros Hv Hn Hl k e Hk. apply since_other; [|by apply Hl]. apply (views6_miss k frame now v Hv). left. intros <-. congruence.
Qed.

Lemma entered_log es h frame now v es' out :
  (∀ k e, es !! k = Some e → saturating_sub now (first_seen e) < REASSEMBLY_TIMEOUT) →
  table_log es h → view frame = Some (Some v) → atomic (v_fragment v) = false → entered es v now es' out →
  table_log es' (h ++ [(frame, now)]) ∧ ∀ o, out = Some o → origin (h ++ [(frame, now)]) now o.
Proof.
  intros Hfresh Hlog Hv Hat Hent.
  assert (table_log (delete (v_key v) es) (h ++ [(frame, now)])) as Hdel.
  { apply (table_log_other6 _ _ _ _ v Hv); [apply lookup_delete_eq|]. intros k e [_ Hk]%lookup_delete_Some. by apply Hlog. }
  destruct Hent as [Hn _|e _ _ Hs Hcase|e o Hok Hs Ha Hc Hf].
  - split; [by apply (table_log_other6 _ _ _ _ v)|done].
  - split; [|done]. intros k e' [[<- <-]|[Hne Hk]]%lookup_insert_Some; [by apply (since_met es)|].
    apply Hdel. by rewrite lookup_delete_ne.
  - split; [done|]. intros out' ->.
    destruct (since_met es h frame now v e Hlog Hv Hat Hs (or_intror Ha)) as (pre & frame0 & rest & Heq & _ & Hl).
    destruct (complete_assembled6 e _ out' Hok (Hl (proj2 (ac_open _ _ _ Ha))) Hc Hf) as (head & Hass).
    eapply origin_fragments; [exact Heq| |exact Hass]. rewrite Hs. unfold met.
    destruct (es !! v_key v) as [e0|] eqn:Hk; cbn; [by apply (Hfresh (v_key v))|unfold saturating_sub, REASSEMBLY_TIMEOUT; lia].
Qed.

Lemma push_step6 es h frame now :
  table_ok es → table_log es h → Forall in_u8 frame →
  ∃ es' out, push es frame now = Some (es', out) ∧ table_ok es' ∧ table_log es' (h ++ [(frame, now)]) ∧
  ∀ o, out = Some o → origin (h ++ [(frame, now)]) now o.
Proof.
  intros Hok Hlog Hf. unfold push.
  assert (table_ok (retain es now)) as Hok1 by (apply (sub_ok es); [apply map_filter_subseteq|done]).
  assert (table_log (retain es now) h) as Hlog1 by (intros k e [Hk _]%retain_lookup; by apply Hlog).
  assert (∀ k e, retain es now !! k = Some e → saturating_sub now (first_seen e) < REASSEMBLY_TIMEOUT) as Hfresh
    by (intros k e [_ ?]%retain_lookup; done).
  generalize dependent (retain es now). clear es Hok Hlog. intros es Hok Hlog Hfresh.
  destruct (view_total frame Hf) as (r & Hr & Hv). rewrite Hr. destruct r as [v|].
  2: { exists es, None. split; [done|]. split; [done|]. split; [|done]. intros k e Hk. apply since_other; [by apply views6_none|by apply Hlog]. }
  specialize (Hv v eq_refl). destruct (atomic (v_fragment v)) eqn:Hat.
  - pose proof (vo_fragment _ Hv) as Hfr. destruct (vo_ethernet _ Hv). destruct (fo_u8 _ Hfr).
    destruct (rebuild_total (v_ethernet v) (f_prefix (v_fragment v)) (v_previous v) (f_protocol (v_fragment v)) (f_payload (v_fragment v)))
      as (out & -> & Hout); [done|done|apply Hfr|done|by apply (fo_previous _ Hfr), Hv|apply Hfr|done|].
    exists es, out. split; [done|]. split; [done|]. split.
    + intros k e Hk. apply since_other; [|by apply Hlog]. apply (views6_miss k frame now v Hr). by right.
    + intros o Ho. by eapply origin_atomic; [| | |apply Hout].
  - destruct (enter_total es v now Hok Hv) as (es' & out & -> & Hent). exists es', out. split; [done|].
    split; [by eapply entered_ok|]. by apply (entered_log es h frame now v).
Qed.

Lemma empty6_ok : table_ok ∅.
Proof. split; [rewrite map_size_empty; unfold MAX_ENTRIES; lia|apply map_Forall_empty]. Qed.

Lemma empty6_log : table_log ∅ [].
Proof. intros k e Hk. by rewrite lookup_empty in Hk. Qed.

(** ** Quarantine *)

(** Two fragments that give different bytes for one place. *)
Definition disagree (v w : View) : Prop :=
  ∃ i, f_offset (v_fragment v) ≤ i < f_end (v_fragment v) ∧ f_offset (v_fragment w) ≤ i < f_end (v_fragment w) ∧
  byte (f_payload (v_fragment v)) (i - f_offset (v_fragment v)) ≠ byte (f_payload (v_fragment w)) (i - f_offset (v_fragment w)).

Lemma agreed_disagree e vs v w : agreed e vs → v ∈ vs → w ∈ vs → ¬ disagree v w.
Proof.
  intros Ha Hv Hw (i & Hi & Hj & Hne). destruct (ag_bytes _ _ Ha v i Hv Hi) as [_ H1]. destruct (ag_bytes _ _ Ha w i Hw Hj) as [_ H2].
  congruence.
Qed.

(** A poisoned entry stays and lets nothing out until it times out. *)
Lemma poisoned_step es k e frame now :
  table_ok es → Forall in_u8 frame → es !! k = Some e → poisoned e = true →
  saturating_sub now (first_seen e) < REASSEMBLY_TIMEOUT →
  ∃ es' out, push es frame now = Some (es', out) ∧ es' !! k = Some e ∧ (views k [(frame, now)] ≠ [] → out = None).
Proof.
  intros Hok Hf Hk Hp Ht. unfold push. assert (retain es now !! k = Some e) as Hk1 by (by apply retain_lookup).
  assert (table_ok (retain es now)) as Hok1 by (apply (sub_ok es); [apply map_filter_subseteq|done]).
  generalize dependent (retain es now). clear es Hok Hk. intros es Hk Hok.
  destruct (view_total frame Hf) as (r & Hr & Hv). rewrite Hr. destruct r as [v|].
  2: { eexists _, _. split; [done|]. split; [done|]. by rewrite views6_none. }
  specialize (Hv v eq_refl). destruct (atomic (v_fragment v)) eqn:Hat.
  - pose proof (vo_fragment _ Hv) as Hfr. destruct (vo_ethernet _ Hv). destruct (fo_u8 _ Hfr).
    destruct (rebuild_total (v_ethernet v) (f_prefix (v_fragment v)) (v_previous v) (f_protocol (v_fragment v)) (f_payload (v_fragment v)))
      as (out & -> & _); [done|done|apply Hfr|done|by apply (fo_previous _ Hfr), Hv|apply Hfr|done|].
    eexists _, _. split; [done|]. split; [done|]. rewrite (views6_miss k frame now v Hr); [done|by right].
  - destruct (decide (v_key v = k)) as [<-|Hne].
    + unfold enter, receive. rewrite Hk. rewrite bool_decide_eq_false_2 by done. cbn. rewrite Hp.
      eexists _, _. split; [done|]. split; [by rewrite lookup_insert_eq|done].
    + destruct (enter_total es v now Hok Hv) as (es' & out & -> & Hent). exists es', out. split; [done|]. split.
      * destruct Hent; [done|by rewrite lookup_insert_ne|by rewrite lookup_delete_ne].
      * rewrite (views6_miss k frame now v Hr); [done|by left].
Qed.

End Log.

End Frag6Props.
