(* ===== verification/Reassembly.v ===== *)
(** * The whole reassembler

    [FragmentReassembler::push] on frames of both versions, from the tables of
    [Fragment] and [FragmentV6]: what it holds and returns whatever frames arrive,
    that the frames of the UDP builder are put together again, and the quarantine
    of IPv6 datagrams whose fragments disagree. The theorems hold for any
    [etherparse] with the documented behaviour; the examples use one that reads the
    headers by their definition. *)

From Stdlib Require Import ZArith Lia.
From stdpp Require Import base numbers list gmap.
From S2P Require Import Prelude Bits Checksum Bytes EthFrame Fragment FragmentProps UdpFrag IpView FragmentV6 FragmentV6Props.

Open Scope Z_scope.

Module Reassembly.

Import Eth Frag FragProps UdpFrag IpView.
Import Frag6 (FragmentReassembler, MkReassembler, entries, ipv6, push_any, is_v6).

(** ** Runs *)

(** What holds along a run if every step keeps it. *)
Lemma run_with_log {S} (push : S → list Z → Z → option (S * option (list Z))) (I : S → list Arrival → Prop)
    (O : list Arrival → Z → list Z → Prop) (F : Arrival → Prop) :
  (∀ s h frame now, I s h → F (frame, now) → ∃ s' out, push s frame now = Some (s', out) ∧ I s' (h ++ [(frame, now)]) ∧
    ∀ o, out = Some o → O (h ++ [(frame, now)]) now o) →
  ∀ s h fs, I s h → Forall F fs → ∃ s' outs, run_with push s fs = Some (s', outs) ∧ I s' (h ++ fs) ∧ length outs = length fs ∧
  ∀ i o, outs !! i = Some (Some o) → ∃ frame now, fs !! i = Some (frame, now) ∧ O (h ++ take (Datatypes.S i) fs) now o.
Proof.
  intros Hstep s h fs. revert s h. induction fs as [|[frame now] fs IH]; intros s h Hi Hf.
  { exists s, []. rewrite app_nil_r. done. }
  apply Forall_cons in Hf as [Hf1 Hf2]. destruct (Hstep s h frame now Hi Hf1) as (s1 & out & Hp & Hi1 & Ho).
  destruct (IH s1 (h ++ [(frame, now)]) Hi1 Hf2) as (s2 & outs & Hr & Hi2 & Hlen & Hos).
  exists s2, (out :: outs). cbn [run_with]. rewrite Hp, Hr. split; [done|].
  split; [by rewrite <- app_assoc in Hi2|]. split; [simpl; lia|]. intros [|i] o; cbn [lookup list_lookup].
  - intros [= ->]. exists frame, now. split; [done|]. cbn [take]. by apply Ho.
  - intros Hl. destruct (Hos i o Hl) as (f & t & Hft & Horg). exists f, t. split; [done|]. cbn [take]. by rewrite <- app_assoc in Horg.
Qed.

(** The frames of a version. *)
Definition v4s (fs : list Arrival) : list Arrival := filter (λ a, is_v6 a.1 = false) fs.
Definition v6s (fs : list Arrival) : list Arrival := filter (λ a, is_v6 a.1 = true) fs.

Lemma v4s_snoc fs frame now : v4s (fs ++ [(frame, now)]) = if is_v6 frame then v4s fs else v4s fs ++ [(frame, now)].
Proof. unfold v4s. rewrite filter_app, filter_cons, filter_nil. cbn. destruct (is_v6 frame); [apply app_nil_r|done]. Qed.

Lemma v6s_snoc fs frame now : v6s (fs ++ [(frame, now)]) = if is_v6 frame then v6s fs ++ [(frame, now)] else v6s fs.
Proof. unfold v6s. rewrite filter_app, filter_cons, filter_nil. cbn. destruct (is_v6 frame); [done|apply app_nil_r]. Qed.

Definition new : FragmentReassembler := MkReassembler ∅ ∅.

Section Runs.
Context {ep : Etherparse} {laws : EtherparseLaws}.

Notation run_any := (run_with push_any).

Record sane (r : FragmentReassembler) (h : list Arrival) : Prop := {
  sn_ok4 : table_ok (entries r);
  sn_log4 : table_log (entries r) (v4s h);
  sn_ok6 : Frag6Props.table_ok (ipv6 r);
  sn_log6 : Frag6Props.table_log (ipv6 r) (v6s h)
}.

(** Where a frame that comes out comes from, by the version of the last frame. *)
Definition came_from (h : list Arrival) (now : Z) (out : list Z) : Prop :=
  ∃ pre frame, h = pre ++ [(frame, now)] ∧
  if is_v6 frame then Frag6Props.origin (v6s h) now out else origin (v4s h) now out.

Lemma push_any_step r h frame now :
  sane r h → Forall in_u8 frame →
  ∃ r' out, push_any r frame now = Some (r', out) ∧ sane r' (h ++ [(frame, now)]) ∧
  ∀ o, out = Some o → came_from (h ++ [(frame, now)]) now o.
Proof.
  intros [Hok4 Hlog4 Hok6 Hlog6] Hf. unfold push_any, came_from. destruct (is_v6 frame) eqn:Hv.
  - destruct (Frag6Props.push_step6 (ipv6 r) (v6s h) frame now Hok6 Hlog6 Hf) as (es & out & -> & H1 & H2 & H3).
    eexists _, _. split; [done|]. split; [split; cbn; rewrite ?v4s_snoc, ?v6s_snoc, ?Hv; done|].
    intros o Ho. exists h, frame. split; [done|]. rewrite Hv, v6s_snoc, Hv. by apply H3.
  - destruct (push_step (entries r) (v4s h) frame now Hok4 Hlog4 Hf) as (es & out & -> & H1 & H2 & H3).
    eexists _, _. split; [done|]. split; [split; cbn; rewrite ?v4s_snoc, ?v6s_snoc, ?Hv; done|].
    intros o Ho. exists h, frame. split; [done|]. rewrite Hv, v4s_snoc, Hv. by apply H3.
Qed.

Lemma new_sane : sane new [].
Proof. split; [apply empty_ok|apply empty_log|apply Frag6Props.empty6_ok|apply Frag6Props.empty6_log]. Qed.

Lemma run_any_log r h fs :
  sane r h → Forall (λ a, Forall in_u8 a.1) fs →
  ∃ r' outs, run_any r fs = Some (r', outs) ∧ sane r' (h ++ fs) ∧ length outs = length fs ∧
  ∀ i o, outs !! i = Some (Some o) → ∃ frame now, fs !! i = Some (frame, now) ∧ came_from (h ++ take (Datatypes.S i) fs) now o.
Proof. apply (run_with_log push_any sane came_from (λ a, Forall in_u8 a.1)). intros. by apply push_any_step. Qed.

(** The table of version 4 sees the frames of version 4 only. *)
Lemma run_any_v4 r fs r' outs :
  run_any r fs = Some (r', outs) → ∃ outs4, run_with Frag.push (entries r) (v4s fs) = Some (entries r', outs4).
Proof.
  revert r outs. induction fs as [|[frame now] fs IH]; intros r outs; cbn [run_with]; [intros [= <- _]; by eexists|].
  destruct (push_any r frame now) as [[r1 out]|] eqn:Hp; [|done]. destruct (run_with push_any r1 fs) as [[r2 outs2]|] eqn:Hr; [|done].
  intros [= <- _]. destruct (IH r1 outs2 Hr) as [outs4 H4]. unfold v4s. rewrite filter_cons. cbn [fst]. unfold push_any in Hp.
  destruct (is_v6 frame) eqn:Hv.
  - rewrite decide_False by done. destruct (Frag6.push (ipv6 r) frame now) as [[es o]|]; [|done]. injection Hp as <- <-. by exists outs4.
  - rewrite decide_True by done. destruct (Frag.push (entries r) frame now) as [[es o]|] eqn:H4p; [|done]. injection Hp as <- <-.
    exists (o :: outs4). cbn [run_with]. rewrite H4p. cbn [entries] in H4. unfold v4s in H4. by rewrite H4.
Qed.

(** A poisoned entry of version 6 stays and lets nothing out until it times out. *)
Lemma poisoned_run r h fs k e :
  sane r h → ipv6 r !! k = Some e → Frag6.poisoned e = true →
  Forall (λ a, Forall in_u8 a.1 ∧ Frag6.first_seen e ≤ a.2 < Frag6.first_seen e + REASSEMBLY_TIMEOUT) fs →
  ∃ r' outs, run_any r fs = Some (r', outs) ∧ ipv6 r' !! k = Some e ∧
  ∀ i a, fs !! i = Some a → is_v6 a.1 = true → Frag6Props.views k [a] ≠ [] → outs !! i = Some None.
Proof.
  intros Hs Hk Hp Hf. revert r h Hs Hk. induction Hf as [|[frame now] fs [Hu Ht] _ IH]; intros r h Hs Hk; cbn [run_with].
  { by exists r, []. }
  destruct (push_any_step r h frame now Hs Hu) as (r1 & out & Hp1 & Hs1 & _).
  assert (ipv6 r1 !! k = Some e ∧ (is_v6 frame = true → Frag6Props.views k [(frame, now)] ≠ [] → out = None)) as [Hk1 Hout].
  { unfold push_any in Hp1. destruct (is_v6 frame).
    - destruct (Frag6Props.poisoned_step (ipv6 r) k e frame now) as (es & o & Hpush & Hke & Ho); [apply Hs|done|done|done| |].
      { cbn in Ht. unfold saturating_sub. lia. }
      rewrite Hpush in Hp1. injection Hp1 as <- <-. by split.
    - destruct (Frag.push (entries r) frame now) as [[es o]|]; [|done]. injection Hp1 as <- <-. by split. }
  destruct (IH r1 (h ++ [(frame, now)]) Hs1 Hk1) as (r2 & outs & Hr & Hk2 & Hos). exists r2, (out :: outs). rewrite Hp1, Hr.
  split; [done|]. split; [done|]. intros [|i] a; cbn [lookup list_lookup]; [|apply Hos].
  intros [= <-] Hv Hvs. by rewrite (Hout Hv Hvs).
Qed.

(** ** The frames of the UDP builder *)

Lemma frame_of_v4 src dst id offset more part src_mac dst_mac :
  length src_mac = 6%nat → length dst_mac = 6%nat → is_v6 (frame_of src dst id offset more part src_mac dst_mac) = false.
Proof.
  intros Hs Hd. unfold is_v6, frame_of, frame_head, byte. change (Z.to_nat ETH_HEADER_LEN) with (6 + (6 + 2))%nat.
  rewrite <- !app_assoc. rewrite lookup_app_r by lia. rewrite Hd. rewrite lookup_app_r by lia. rewrite Hs. done.
Qed.

Lemma built_v4 id src dst src_port dst_port payload src_mac dst_mac mtu frames id' f :
  mac_ok src_mac → mac_ok dst_mac →
  build_udp_ip_ethernet id src dst src_port dst_port payload src_mac dst_mac mtu = Some (frames, id') → f ∈ frames → is_v6 f = false.
Proof.
  intros [Hs _] [Hd _] Hb Hf. destruct (Z.ltb_spec mtu 36) as [Hm|Hm].
  { unfold build_udp_ip_ethernet in Hb. by rewrite (proj2 (Z.ltb_lt _ _) Hm) in Hb. }
  destruct (Z.ltb_spec MAX_UDP_PAYLOAD (len payload)) as [Hl|Hl].
  { unfold build_udp_ip_ethernet in Hb. rewrite (proj2 (Z.ltb_ge _ _) Hm), (proj2 (Z.ltb_lt _ _) Hl) in Hb.
    injection Hb as <- _. by apply elem_of_nil in Hf. }
  rewrite build_udp_eq in Hb by done. injection Hb as <- _. destruct (_ <=? _).
  - apply list_elem_of_singleton in Hf as ->. by apply frame_of_v4.
  - unfold udp_frames in Hf. apply list_elem_of_lookup in Hf as [i Hi]. rewrite list_lookup_imap in Hi.
    apply fmap_Some in Hi as (part & _ & ->). by apply frame_of_v4.
Qed.

(** What may arrive while the frames do: these, frames of version 6, and frames
    that are not fragments of the datagram. *)
Definition arrives_any (frames : list (list Z)) (k : Key) (t0 : Z) (a : Arrival) : Prop :=
  Forall in_u8 a.1 ∧ a.2 < t0 + REASSEMBLY_TIMEOUT ∧ (a.1 ∈ frames ∨ is_v6 a.1 = true ∨ view_of k a = None).

Lemma arrives_v4 frames k t0 fs : Forall (arrives_any frames k t0) fs → Forall (arrives frames k t0) (v4s fs).
Proof.
  intros Hf. apply Forall_forall. intros a [Hv Ha]%list_elem_of_filter. rewrite Forall_forall in Hf.
  destruct (Hf a Ha) as (H1 & H2 & [H3|[H3|H3]]); [split; auto|congruence|split; auto].
Qed.

Lemma v4s_frames (frames : list (list Z)) fs f : (∀ f, f ∈ frames → is_v6 f = false) → f ∈ frames → (f ∈ (v4s fs).*1 ↔ f ∈ fs.*1).
Proof.
  intros Hv Hf. rewrite !list_elem_of_fmap. split.
  - intros (a & -> & [_ Ha]%list_elem_of_filter). eauto.
  - intros (a & -> & Ha). exists a. split; [done|]. apply list_elem_of_filter. split; [by apply Hv|done].
Qed.

(** ** Properties *)

(** C27: whatever frames the guest sends, of either version, the reassembler does
    not panic and holds at most 32 datagrams of each version, each with at most
    65535 bytes of payload and at most 64 received ranges, which are in order, apart
    and inside the payload. *)
Theorem reassembly_bounded fs :
  Forall (λ a, Forall in_u8 a.1) fs →
  ∃ r outs, run_any new fs = Some (r, outs) ∧ length outs = length fs ∧
  (size (entries r) ≤ 32)%nat ∧ (size (ipv6 r) ≤ 32)%nat ∧
  map_Forall (λ _ e, len (payload e) ≤ 65515 ∧ (length (ranges e) ≤ 64)%nat ∧ sep 0 (ranges e) ∧
    ∀ s t, (s, t) ∈ ranges e → t ≤ len (payload e)) (entries r) ∧
  map_Forall (λ _ e, len (Frag6.payload e) ≤ 65535 ∧ (length (Frag6.ranges e) ≤ 64)%nat ∧ sep 0 (Frag6.ranges e) ∧
    ∀ s t, (s, t) ∈ Frag6.ranges e → s < t ≤ len (Frag6.payload e)) (ipv6 r).
Proof.
  intros Hf. destruct (run_any_log new [] fs new_sane Hf) as (r & outs & Hr & [[Hs4 H4] _ [Hs6 H6] _] & Hl & _).
  exists r, outs. do 4 (split; [done|]). split.
  - intros k e Hk. specialize (H4 k e Hk). split; [apply H4|]. split; [apply H4|]. split; [apply H4|]. intros s t. by apply (eo_ends _ H4).
  - intros k e Hk. specialize (H6 k e Hk). split; [apply H6|]. split; [apply H6|]. split; [apply H6|]. intros s t.
    by apply (Frag6.eo_ends _ H6).
Qed.

(** C24: every frame that comes out is made of fragments of one datagram, all of
    those that arrived since a point at most three seconds ago (or of a single
    fragment that is a whole IPv6 datagram): they fill its payload, agree with it
    byte by byte and name its length. The headers are those of a first fragment
    with the length set, without the fragment field or header, and for IPv4 with a
    valid checksum. *)
Theorem frames_come_from_fragments fs :
  Forall (λ a, Forall in_u8 a.1) fs →
  ∃ r outs, run_any new fs = Some (r, outs) ∧
  ∀ i out, outs !! i = Some (Some out) → ∃ frame now, fs !! i = Some (frame, now) ∧
  if is_v6 frame then Frag6Props.origin (v6s (take (S i) fs)) now out else origin (v4s (take (S i) fs)) now out.
Proof.
  intros Hf. destruct (run_any_log new [] fs new_sane Hf) as (r & outs & Hr & _ & _ & Ho). exists r, outs. split; [done|].
  intros i out Hi. destruct (Ho i out Hi) as (frame & now & Hl & pre & frame' & Heq & Hor). exists frame, now. split; [done|].
  cbn [app] in *. rewrite (take_S_r _ _ _ Hl) in Heq. apply app_inj_tail in Heq as [_ [= ->]]. done.
Qed.

(** C25: after fragments of an IPv6 datagram that give different bytes for the same
    place, the datagram is in quarantine: until three seconds after the fragment its
    entry was made by, no fragment of it brings a frame out, whatever else
    arrives. *)
Theorem conflicts_are_quarantined past r pouts k e v w fs :
  Forall (λ a, Forall in_u8 a.1) past → run_any new past = Some (r, pouts) → ipv6 r !! k = Some e →
  ∃ pre first rest, v6s past = pre ++ (first, Frag6.first_seen e) :: rest ∧
  let vs := Frag6Props.views k ((first, Frag6.first_seen e) :: rest) in
  v ∈ vs → w ∈ vs → Frag6Props.disagree v w →
  Forall (λ a, Forall in_u8 a.1 ∧ Frag6.first_seen e ≤ a.2 < Frag6.first_seen e + REASSEMBLY_TIMEOUT) fs →
  ∃ r' outs, run_any r fs = Some (r', outs) ∧ ipv6 r' !! k = Some e ∧
  ∀ i a, fs !! i = Some a → is_v6 a.1 = true → Frag6Props.views k [a] ≠ [] → outs !! i = Some None.
Proof.
  intros Hf Hr Hk. destruct (run_any_log new [] past new_sane Hf) as (r' & outs' & Hr' & Hs & _). rewrite Hr in Hr'.
  injection Hr' as <- _. destruct (sn_log6 _ _ Hs k e Hk) as (pre & first & rest & Heq & _ & Hag).
  exists pre, first, rest. split; [done|]. intros vs Hv Hw Hd Hfs. apply (poisoned_run r past fs k e Hs Hk); [|done].
  destruct (Frag6.poisoned e); [done|]. by destruct (Frag6Props.agreed_disagree e vs v w (Hag eq_refl) Hv Hw).
Qed.

(** A datagram larger than the MTU, split by the UDP builder into up to 64 frames
    none of which exceeds the MTU, is put together again whatever the order its
    frames arrive in within three seconds, repeated or between other frames, of
    either version, also fragments of other datagrams: the last one missing yields
    exactly the frame an MTU large enough would have given. *)
Lemma udp_fragments_reassemble id src dst src_port dst_port payload src_mac dst_mac mtu frames id'
    r past first t0 fs frame now :
  ip_ok src → ip_ok dst → in_u16 id → in_u16 src_port → in_u16 dst_port → Forall in_u8 payload →
  mac_ok src_mac → mac_ok dst_mac → mtu < 2 ^ 64 →
  build_udp_ip_ethernet id src dst src_port dst_port payload src_mac dst_mac mtu = Some (frames, id') →
  (1 < length frames ≤ 64)%nat →
  sane r past → entries r !! (src, dst, 17, id) = None → (size (entries r) < 32)%nat →
  Forall (arrives_any frames (src, dst, 17, id) t0) ((first, t0) :: fs ++ [(frame, now)]) → first ∈ frames →
  (∀ f, f ∈ frames → f ∈ ((first, t0) :: fs ++ [(frame, now)]).*1) →
  (∃ f, f ∈ frames ∧ f ∉ ((first, t0) :: fs).*1) →
  Forall (λ f, len f ≤ mtu + 14) frames ∧
  ∃ r1 outs r2 out, run_any r ((first, t0) :: fs) = Some (r1, outs) ∧ push_any r1 frame now = Some (r2, Some out) ∧
  build_udp_ip_ethernet id src dst src_port dst_port payload src_mac dst_mac (28 + len payload) = Some ([out], id').
Proof.
  intros Hsrc Hdst Hid Hsp Hdp Hp Hsm Hdm Hmtu Hb Hn Hs Hk Hsize Har Hfirst Hall [f [Hf Hfno]].
  assert (∀ g, g ∈ frames → is_v6 g = false) as Hv4 by (intros g; by apply (built_v4 id src dst src_port dst_port payload src_mac dst_mac mtu _ id')).
  assert (frame = f) as ->.
  { specialize (Hall f Hf). rewrite app_comm_cons, fmap_app in Hall. apply elem_of_app in Hall as [?|H1]; [done|].
    by apply list_elem_of_singleton in H1. }
  assert (∀ l, v4s ((first, t0) :: l) = (first, t0) :: v4s l) as Hcons.
  { intros l. unfold v4s. rewrite filter_cons, decide_True; [done|]. by apply Hv4. }
  assert (v4s ((first, t0) :: fs ++ [(f, now)]) = (first, t0) :: v4s fs ++ [(f, now)]) as Hfull.
  { rewrite Hcons, v4s_snoc, (Hv4 f Hf). done. }
  destruct (run_any_log r past ((first, t0) :: fs) Hs) as (r1 & outs & Hr1 & _).
  { rewrite app_comm_cons in Har. apply Forall_app in Har as [Har _]. eapply Forall_impl; [exact Har|]. by intros a (? & _). }
  destruct (run_any_v4 _ _ _ _ Hr1) as [outs4 H4]. rewrite Hcons in H4.
  destruct (udp_frames_reassemble id src dst src_port dst_port payload src_mac dst_mac mtu frames id' (entries r) first t0 (v4s fs) f now)
    as (Hlen & es1 & o1 & es2 & out & Hr4 & Hp4 & Hout); try done.
  - apply Hs.
  - rewrite <- Hfull. by apply arrives_v4.
  - intros g Hg. rewrite <- Hfull. apply (v4s_frames frames); [done|done|by apply Hall].
  - exists f. split; [done|]. rewrite <- Hcons. by rewrite (v4s_frames frames).
  - split; [done|]. rewrite H4 in Hr4. injection Hr4 as <- _. exists r1, outs.
    unfold push_any. rewrite (Hv4 f Hf), Hp4. eexists _, out. done.
Qed.

End Runs.

(** ** Examples *)

#[local] Existing Instance ex_etherparse.
#[local] Existing Instance ex_laws.

(** A fragment of version 6, as the tests build it. *)
Definition ex_fragment6 (id offset : Z) (more : bool) (data : list Z) : list Z :=
  replicate 12 0 ++ [0x86; 0xdd] ++ [0x60; 0; 0; 0] ++ to_be16 (8 + len data) ++ [44; 64] ++ replicate 15 0 ++ [1] ++
  replicate 15 0 ++ [2] ++ [17; 0] ++ to_be16 (offset + if more then 1 else 0) ++ [0; 0] ++ to_be16 id ++ data.
Definition ex_udp : list Z := Eval vm_compute in [0x12; 0x34; 0; 53; 0; 32; 0xab; 0xcd] ++ seqZ 0 24.
Definition ex_key (id : Z) : Frag6.Key := (V6 (replicate 15 0 ++ [1]), V6 (replicate 15 0 ++ [2]), id).

(** A datagram of 40 bytes over an MTU of 36, in three frames, and fragments of two
    IPv6 datagrams between them, the first of which is complete. *)
Definition ex_frames : list (list Z) := Eval vm_compute in
  match build_udp_ip_ethernet 7 (MkIp 10 0 2 2) (MkIp 93 184 216 34) 4000 53 (seqZ 0 40) (replicate 6 1) (replicate 6 2) 36 with
  | Some (frames, _) => frames
  | None => []
  end.
Definition ex_frame (i : nat) : list Z := nth i ex_frames [].
Definition ex_arrivals : list Arrival :=
  [(ex_frame 2, 0); (ex_fragment6 1 16 false (drop 16 ex_udp), 5); (ex_frame 1, 10); (ex_fragment6 2 0 true (take 16 ex_udp), 12);
   (ex_fragment6 1 0 true (take 16 ex_udp), 15); (ex_frame 0, 20)].

Lemma ex_arrivals_u8 : Forall (λ a, Forall in_u8 a.1) ex_arrivals.
Proof. apply (bool_decide_unpack _). vm_compute. exact I. Qed.

Lemma reassembly_bounded_witness :
  ∃ r outs, run_with push_any new ex_arrivals = Some (r, outs) ∧ length outs = 6%nat ∧ size (ipv6 r) = 1%nat ∧
  map_Forall (λ _ e, len (Frag6.payload e) ≤ 65535) (ipv6 r).
Proof.
  destruct (reassembly_bounded ex_arrivals ex_arrivals_u8) as (r & outs & Hr & Hl & _ & _ & _ & H6).
  exists r, outs. split; [exact Hr|]. split; [exact Hl|]. split; [vm_compute in Hr; injection Hr as <- _; reflexivity|].
  intros k e Hk. apply (H6 k e Hk).
Defined.

Lemma frames_come_from_fragments_witness :
  ∃ r outs out4 out6, run_with push_any new ex_arrivals = Some (r, outs) ∧
  outs = [None; None; None; None; Some out6; Some out4] ∧
  Frag6Props.origin (v6s (take 5 ex_arrivals)) 15 out6 ∧ origin (v4s (take 6 ex_arrivals)) 20 out4.
Proof.
  destruct (frames_come_from_fragments ex_arrivals ex_arrivals_u8) as (r & outs & Hr & Ho).
  assert (∃ out4 out6, outs = [None; None; None; None; Some out6; Some out4]) as (out4 & out6 & ->)
    by (vm_compute in Hr; injection Hr as _ <-; eexists _, _; reflexivity).
  exists r, [None; None; None; None; Some out6; Some out4], out4, out6. split; [exact Hr|]. split; [reflexivity|]. split.
  - destruct (Ho 4%nat out6 eq_refl) as (frame & now & Hl & Hor).
    change (Some (ex_fragment6 1 0 true (take 16 ex_udp), 15) = Some (frame, now)) in Hl. injection Hl as Hf Hn. rewrite <- Hf, <- Hn in Hor.
    replace (is_v6 (ex_fragment6 1 0 true (take 16 ex_udp))) with true in Hor by (vm_compute; reflexivity). exact Hor.
  - destruct (Ho 5%nat out4 eq_refl) as (frame & now & Hl & Hor).
    change (Some (ex_frame 0, 20) = Some (frame, now)) in Hl. injection Hl as Hf Hn. rewrite <- Hf, <- Hn in Hor.
    replace (is_v6 (ex_frame 0)) with false in Hor by (vm_compute; reflexivity). exact Hor.
Defined.

(** The first fragment of a datagram, and one with other bytes for the same place. *)
Definition ex_first : list Z := ex_fragment6 1 0 true (take 16 ex_udp).
Definition ex_forged : list Z := ex_fragment6 1 0 true (take 8 ex_udp ++ replicate 8 0xff).
Definition ex_view (frame : list Z) : Frag6.View :=
  match Frag6.view frame with
  | Some (Some v) => v
  | _ => Frag6.MkView [] (ex_key 0) (MkFragment 0 0 false 0 [] [] None) 0
  end.

Lemma conflicts_are_quarantined_witness :
  ∃ r pouts e r' outs, run_with push_any new [(ex_first, 0); (ex_forged, 10)] = Some (r, pouts) ∧ ipv6 r !! ex_key 1 = Some e ∧
  run_with push_any r [(ex_fragment6 1 16 false (drop 16 ex_udp), 20); (ex_first, 2999999999)] = Some (r', outs) ∧
  outs !! 1%nat = Some None.
Proof.
  destruct (run_with push_any new [(ex_first, 0); (ex_forged, 10)]) as [[r pouts]|] eqn:Hr; [|vm_compute in Hr; discriminate].
  assert (∃ e, ipv6 r !! ex_key 1 = Some e ∧ Frag6.first_seen e = 0) as (e & He & Hs)
    by (vm_compute in Hr; injection Hr as <- _; eexists; split; vm_compute; reflexivity).
  destruct (conflicts_are_quarantined [(ex_first, 0); (ex_forged, 10)] r pouts (ex_key 1) e (ex_view ex_first) (ex_view ex_forged)
    [(ex_fragment6 1 16 false (drop 16 ex_udp), 20); (ex_first, 2999999999)]) as (pre & first & rest & Heq & Hq);
    [apply (bool_decide_unpack _); vm_compute; exact I|exact Hr|exact He|].
  rewrite Hs in *. change (v6s [(ex_first, 0); (ex_forged, 10)]) with [(ex_first, 0); (ex_forged, 10)] in Heq.
  destruct pre as [|a [|b pre]]; injection Heq as Heq1 Heq2; [|discriminate|by destruct pre]. subst first rest.
  assert (Frag6Props.views (ex_key 1) [(ex_first, 0); (ex_forged, 10)] = [ex_view ex_first; ex_view ex_forged]) as Hvs
    by (vm_compute; reflexivity).
  cbv zeta in Hq. rewrite Hvs in Hq. destruct Hq as (r' & outs & Hr' & _ & Hno).
  - apply elem_of_cons. by left.
  - apply elem_of_cons. right. apply elem_of_cons. by left.
  - exists 8. split; [vm_compute; split; congruence|]. split; [vm_compute; split; congruence|]. vm_compute. congruence.
  - repeat (apply Forall_cons; split); try apply Forall_nil_2;
      (split; [apply (bool_decide_unpack _); vm_compute; exact I|vm_compute; split; congruence]).
  - exists r, pouts, e, r', outs. split; [reflexivity|]. split; [exact He|]. split; [exact Hr'|].
    apply (Hno 1%nat (ex_first, 2999999999)); [reflexivity|vm_compute; reflexivity|vm_compute; discriminate].
Defined.

(** ** Duplicates that are taken for conflicts *)

(** The fragment at 0 arrives again, byte for byte, after the one at 8 that
    touches it: the entry is poisoned and the last fragment brings nothing out. *)
Example merged_duplicate_poisons :
  let piece a b := take (b - a) (drop a ex_udp) in
  match run_with push_any new [(ex_fragment6 3 0 true (piece 0 8)%nat, 0); (ex_fragment6 3 8 true (piece 8 16)%nat, 1);
    (ex_fragment6 3 0 true (piece 0 8)%nat, 2); (ex_fragment6 3 16 false (piece 16 32)%nat, 3)] with
  | Some (r, outs) => outs = [None; None; None; None] ∧ Frag6.poisoned <$> ipv6 r !! ex_key 3 = Some true
  | None => False
  end.
Proof. vm_compute. split; reflexivity. Qed.

(** Without the duplicate the datagram is complete. *)
Example unmerged_completes :
  let piece a b := take (b - a) (drop a ex_udp) in
  match run_with push_any new [(ex_fragment6 3 0 true (piece 0 8)%nat, 0); (ex_fragment6 3 8 true (piece 8 16)%nat, 1);
    (ex_fragment6 3 16 false (piece 16 32)%nat, 3)] with
  | Some (r, [None; None; Some _]) => ipv6 r !! ex_key 3 = None
  | _ => False
  end.
Proof. vm_compute. reflexivity. Qed.

End Reassembly.
