(* ===== verification/Classifier.v ===== *)
(** * The frame classifier

    [src/common/splicetcp/src/classifier.rs]: a frame of the guest is answered (ARP),
    reassembled (fragments) or queued for the handler of its protocol; and
    [shim.rs]: the framing of bare IP packets. A frame buffer is the bytes it
    holds ([Pool] shows that the pooled ones keep them). The clock is an argument.
    The draining of TCP frames through the bridge ([drain_tcp]) is not modelled. *)

From Stdlib Require Import ZArith Lia.
From stdpp Require Import base numbers list gmap.
From S2P Require Import Prelude Bits Checksum Bytes EthFrame Fragment FragmentProps UdpFrag IpView FragmentV6 FragmentV6Props Reassembly.

Open Scope Z_scope.

Module Classifier.

Import Eth IpView.
Import Frag6 (FragmentReassembler, MkReassembler, push_any).

(** ** State *)

Definition PROTO_ICMP : Z := 1.
Definition PROTO_TCP : Z := 6.
Definition PROTO_UDP : Z := 17.

Record TcpSynInfo := MkSyn {
  syn_dst_port : Z; syn_src_ip : IpAddr; syn_src_port : Z; syn_dst_ip : IpAddr; syn_seq : Z; syn_frame : list Z
}.

Inductive InterceptedKind := Dhcp | Dns | Udp | Icmp.
#[export] Instance InterceptedKind_eq_dec : EqDecision InterceptedKind.
Proof. solve_decision. Defined.

Record FrameClassifier := MkClassifier {
  gateway_ip : Ipv4;
  gateway_mac : list Z;
  rx_queue : list (list Z);
  intercepted : list (list Z * InterceptedKind);
  gated_syns : list TcpSynInfo;
  pending_arp_replies : list (list Z);
  arp : ArpResponder;
  reassembler : FragmentReassembler
}.
#[export] Instance eta_FrameClassifier : Eta FrameClassifier := {|
  eta c := MkClassifier (gateway_ip c) (gateway_mac c) (rx_queue c) (intercepted c) (gated_syns c) (pending_arp_replies c)
    (arp c) (reassembler c);
  eta_ok := ltac:(by intros [])
|}.

Definition new_classifier (gateway_ip : Ipv4) : FrameClassifier :=
  MkClassifier gateway_ip (replicate 6 0) [] [] [] [] (MkArp gateway_ip (replicate 6 0)) (MkReassembler ∅ ∅).

Definition set_gateway_mac (c : FrameClassifier) (mac : list Z) : FrameClassifier :=
  c <| gateway_mac := mac |> <| arp := MkArp (gateway_ip c) mac |>.

Definition take_arp_replies (c : FrameClassifier) : FrameClassifier * list (list Z) :=
  (c <| pending_arp_replies := [] |>, pending_arp_replies c).
Definition clear_unmatched_rx (c : FrameClassifier) : FrameClassifier := c <| rx_queue := [] |>.
Definition take_intercepted (c : FrameClassifier) : FrameClassifier * list (list Z * InterceptedKind) :=
  (c <| intercepted := [] |>, intercepted c).
Definition take_gated_syns (c : FrameClassifier) : FrameClassifier * list TcpSynInfo := (c <| gated_syns := [] |>, gated_syns c).

(** ** Draining *)

(** The loop of [drain_fast_path] from the index [i]: the callback is a function on
    the state it captures. *)
Fixpoint fast_path_loop {S} (try_intercept : S → list Z → S * option (list Z)) (fuel : nat) (s : S) (q : list (list Z)) (i : nat)
    (ack_frames : list (list Z)) : S * list (list Z) * list (list Z) :=
  match fuel with
  | O => (s, q, ack_frames)
  | Datatypes.S fuel =>
      match q !! i with
      | None => (s, q, ack_frames)
      | Some frame =>
          match try_intercept s frame with
          | (s, Some ack) =>
              let ack_frames := if bool_decide (ack = []) then ack_frames else ack_frames ++ [ack] in
              fast_path_loop try_intercept fuel s (delete i q) i ack_frames
          | (s, None) => fast_path_loop try_intercept fuel s q (i + 1) ack_frames
          end
      end
  end.
Definition drain_fast_path {S} (try_intercept : S → list Z → S * option (list Z)) (s : S) (c : FrameClassifier)
    : S * FrameClassifier * list (list Z) :=
  let '(s, q, acks) := fast_path_loop try_intercept (length (rx_queue c)) s (rx_queue c) 0 [] in (s, c <| rx_queue := q |>, acks).

(** The loop of [drain_handshake]. *)
Fixpoint handshake_loop {S} (try_complete : S → list Z → S * option (list (list Z))) (fuel : nat) (s : S) (q : list (list Z))
    (i : nat) (reply_frames : list (list Z)) : S * list (list Z) * list (list Z) :=
  match fuel with
  | O => (s, q, reply_frames)
  | Datatypes.S fuel =>
      match q !! i with
      | None => (s, q, reply_frames)
      | Some frame =>
          match try_complete s frame with
          | (s, Some replies) => handshake_loop try_complete fuel s (delete i q) i (reply_frames ++ replies)
          | (s, None) => handshake_loop try_complete fuel s q (i + 1) reply_frames
          end
      end
  end.
Definition drain_handshake {S} (try_complete : S → list Z → S * option (list (list Z))) (s : S) (c : FrameClassifier)
    : S * FrameClassifier * list (list Z) :=
  let '(s, q, replies) := handshake_loop try_complete (length (rx_queue c)) s (rx_queue c) 0 [] in (s, c <| rx_queue := q |>, replies).

(** ** Classification *)

Definition learn_guest_mac (mac : list Z) (guest_mac : option (list Z)) : option (list Z) :=
  if (match mac with m :: _ => negb (Z.land m 1 =? 0) | [] => false end) || bool_decide (mac = replicate 6 0) then guest_mac
  else Some mac.

(** ** Bare IP packets *)

Definition GATEWAY_MAC : list Z := [2; 0; 0; 0; 0; 1].
Definition HOST_MAC : list Z := [2; 0; 0; 0; 0; 2].

Definition synthetic_l2_header : list Z := to_bytes (MkEthernet GATEWAY_MAC HOST_MAC EtIpv4).

Section Classify.
Context `{Etherparse}.

Definition is_syn (flags : Z) : bool := Z.land flags 0x12 =? 0x02.

Definition queue_tcp (c : FrameClassifier) (header : list Z) (ip : IpPacketView) : option FrameClassifier :=
  match tcp_parse ip with
  | None => Some c
  | Some tcp =>
      let! flags := byte (tcp_slice tcp) 13 in
      if is_syn flags then
        Some (c <| gated_syns := gated_syns c ++
          [MkSyn (tcp_destination_port tcp) (source ip) (tcp_source_port tcp) (destination ip) (tcp_sequence_number tcp)
            (header ++ bytes ip)] |>)
      else Some (c <| rx_queue := rx_queue c ++ [header ++ bytes ip] |>)
  end.

Definition udp_kind (gateway : Ipv4) (ip : IpPacketView) (dst_port : Z) : InterceptedKind :=
  if (dst_port =? 67) && is_ipv4 (destination ip) then Dhcp
  else if (dst_port =? 53) && bool_decide (destination ip = V4 gateway) then Dns
  else Udp.

Definition queue_udp (c : FrameClassifier) (header : list Z) (ip : IpPacketView) : option FrameClassifier :=
  match transport ip with
  | None => Some c
  | Some udp =>
      if len udp <? 8 then Some c
      else
        let! length := get_be16 udp 4 in
        if (length <? 8) || (len udp <? length) then Some c
        else
          let! dst_port := get_be16 udp 2 in
          Some (c <| intercepted := intercepted c ++ [(header ++ bytes ip, udp_kind (gateway_ip c) ip dst_port)] |>)
  end.

(** A packet that is not a fragment, by its protocol. *)
Definition classify_whole (c : FrameClassifier) (header : list Z) (ip : IpPacketView) : option FrameClassifier :=
  if protocol ip =? PROTO_TCP then queue_tcp c header ip
  else if protocol ip =? PROTO_UDP then queue_udp c header ip
  else if (protocol ip =? PROTO_ICMP) && is_ipv4 (source ip) then
    Some (c <| intercepted := intercepted c ++ [(header ++ bytes ip, Icmp)] |>)
  else Some c.

(** The recursion of [classify_ip] on a reassembled packet, [depth] calls deep at
    most. *)
Fixpoint classify_ip (depth : nat) (c : FrameClassifier) (header : list Z) (ip : IpPacketView) (now : Z) : option FrameClassifier :=
  match depth with
  | O => None
  | S depth =>
      match fragment ip with
      | Some _ =>
          let! pushed := push_any (reassembler c) (header ++ bytes ip) now in
          let '(r, out) := pushed in
          let c := c <| reassembler := r |> in
          match out with
          | None => Some c
          | Some reassembled =>
              let! packet := range reassembled ETH_HEADER_LEN (len reassembled) in
              let! parsed := parse packet in
              match parsed with
              | None => Some c
              | Some ip => let! header := range reassembled 0 ETH_HEADER_LEN in classify_ip depth c header ip now
              end
          end
      | None => classify_whole c header ip
      end
  end.

(** Reassembled packets are not fragments, so two calls are enough. *)
Definition CLASSIFY_DEPTH : nat := 2.

Definition classify_frame (c : FrameClassifier) (frame : list Z) (guest_mac : option (list Z)) (now : Z)
    : option (FrameClassifier * option (list Z)) :=
  if len frame <? ETH_HEADER_LEN then Some (c, guest_mac)
  else
    let! src_mac := range frame 6 12 in
    let guest_mac := learn_guest_mac src_mac guest_mac in
    let! ethertype := get_be16 frame 12 in
    if ethertype =? 0x0806 then
      let! reply := handle_arp (arp c) frame in
      match reply with
      | Some reply => Some (c <| pending_arp_replies := pending_arp_replies c ++ [reply] |>, guest_mac)
      | None => Some (c, guest_mac)
      end
    else if (ethertype =? 0x0800) || (ethertype =? 0x86dd) then
      let! packet := range frame ETH_HEADER_LEN (len frame) in
      let! parsed := parse packet in
      match parsed with
      | Some ip =>
          if Bool.eqb (ethertype =? 0x0800) (is_ipv4 (source ip)) then
            let! header := range frame 0 ETH_HEADER_LEN in
            let! c := classify_ip CLASSIFY_DEPTH c header ip now in Some (c, guest_mac)
          else Some (c, guest_mac)
      | None => Some (c, guest_mac)
      end
    else Some (c, guest_mac).

Definition classify_ip_packet (c : FrameClassifier) (packet : list Z) (guest_mac : option (list Z)) (now : Z)
    : option (FrameClassifier * option (list Z)) :=
  let! parsed := parse packet in
  match parsed with
  | None => Some (c, guest_mac)
  | Some ip =>
      let ipv6 := is_ipv6 (source ip) in
      let maximum := 65535 + if ipv6 then 40 else 0 in
      if maximum <? len packet then Some (c, guest_mac)
      else
        let guest_mac := learn_guest_mac HOST_MAC guest_mac in
        let header := synthetic_l2_header in
        let! header := if (ipv6 : bool) then put header 12 [0x86; 0xdd] else Some header in
        let! c := classify_ip CLASSIFY_DEPTH c header ip now in Some (c, guest_mac)
  end.

(** [l3_to_l2] with a buffer of [size] bytes. *)
Definition l3_to_l2 (ip_packet header : list Z) (size : Z) : option (option (list Z)) :=
  let! parsed := parse ip_packet in
  match parsed with
  | None => Some None
  | Some ip =>
      let ip_packet := bytes ip in
      let total := ETH_HEADER_LEN + len ip_packet in
      if size <? total then Some None
      else
        let ethertype := if is_ipv6 (source ip) then EtIpv6 else EtIpv4 in
        let! framed := put header 12 (to_be16 (to_raw ethertype)) in
        Some (Some (framed ++ ip_packet))
  end.

(** [L3ToL2Source]: its header and the length of its buffer. *)
Record L3ToL2Source := MkSource { l3_header : list Z; l3_buf : Z }.
Definition new_source : L3ToL2Source := MkSource synthetic_l2_header (ETH_HEADER_LEN + 40 + 65535).

(** [drain]: the frames handed on of the packets the wrapped source yields, with the
    time each is handed on. *)
Fixpoint drain_source (s : L3ToL2Source) (packets : list (list Z * Z)) : option (list (list Z * Z)) :=
  match packets with
  | [] => Some []
  | (ip_packet, now) :: packets =>
      let! framed := l3_to_l2 ip_packet (l3_header s) (l3_buf s) in
      let! frames := drain_source s packets in
      Some (match framed with Some frame => (frame, now) :: frames | None => frames end)
  end.

Definition l2_to_l3 (frame : list Z) : option (option (list Z)) :=
  let! header := Eth.parse frame in
  match header with
  | None => Some None
  | Some h =>
      match ethertype h with
      | EtIpv4 | EtIpv6 => Some (Some (strip_ethernet_header frame))
      | _ => Some None
      end
  end.

End Classify.

End Classifier.
