(* ===== verification/ClassifierProps.v ===== *)
(** * What the classifier guarantees

    Whatever frames arrive, the classifier does not panic, its recursion ends, and
    every queue holds whole packets of its kind only; the drains keep the order of
    what they leave; the two ways of feeding bare IP packets agree; and the frames
    of a fragmented UDP datagram come out as one. *)

From Stdlib Require Import ZArith Lia.
From stdpp Require Import base numbers list gmap.
From S2P Require Import Prelude Bits Checksum Bytes EthFrame Fragment FragmentProps UdpFrag IpView FragmentV6 FragmentV6Props Reassembly Classifier.

Open Scope Z_scope.

Module ClassifierProps.

Import Eth IpView Reassembly Classifier.
Import Frag6 (FragmentReassembler, MkReassembler, push_any, is_v6).

(** ** ARP *)

Lemma handle_arp_total r frame : Forall in_u8 frame → is_Some (handle_arp r frame).
Proof.
  intros Hf. unfold handle_arp, ARP_FRAME_MIN_LEN, ETH_HEADER_LEN. destruct (Z.ltb_spec (len frame) (14 + 28)) as [|Hl]; [eauto|].
  set (a := drop (Z.to_nat 14) frame). assert (Forall in_u8 a) as Ha by (by apply Forall_drop).
  assert (28 ≤ len a) as Hla by (unfold a, len in *; rewrite length_drop; lia). clearbody a.
  destruct (get_be16_Some a 0) as (? & -> & _); [done|lia|lia|]. destruct (get_be16_Some a 2) as (? & -> & _); [done|lia|lia|].
  destruct (_ || _); [eauto|]. destruct (byte_Some a 4) as (? & -> & _); [done|lia|]. destruct (byte_Some a 5) as (? & -> & _); [done|lia|].
  destruct (get_be16_Some a 6) as (? & -> & _); [done|lia|lia|]. destruct (_ || _); [eauto|].
  destruct (get_ip_Some a 24) as (? & -> & _); [done|lia|lia|]. destruct (negb _); [eauto|].
  destruct (range_Some a 8 14) as (? & -> & _); [lia|lia|]. destruct (get_ip_Some a 14) as (? & -> & _); [done|lia|lia|]. eauto.
Qed.

(** ** Whole packets out of the reassembler *)

Section Whole.
Context {ep : Etherparse} {laws : EtherparseLaws}.

Lemma range_drop_byte l a bs i : 0 ≤ a → 0 ≤ i → range l a (len l) = Some bs → byte bs i = byte l (a + i).
Proof.
  intros Ha Hi. unfold range. case_match; [|done]. intros [= <-]. unfold byte, len in *.
  rewrite take_ge by (rewrite length_drop; lia). rewrite lookup_drop. f_equal. lia.
Qed.

Lemma fragment_view_byte frame v : Frag.fragment_view frame = Some (Some v) →
  ∃ b, byte (Frag.v_header v) 14 = Some b ∧ byte frame 14 = Some b.
Proof.
  unfold Frag.fragment_view, ETH_HEADER_LEN. destruct (_ <? _); [done|]. destruct (byte frame 14) as [b0|] eqn:Hb; [|done].
  destruct (get_be16 frame (14 + 2)) as [tot|]; [|done].
  destruct (Z.ltb_spec (Z.land b0 15 * 4) 20); cbn [orb]; [done|]. destruct (_ || _); [done|].
  destruct (get_be16 frame (14 + 6)); [|done]. destruct (range frame (14 + _) _); [|done]. destruct (_ && _); [done|].
  destruct (Frag.key_of frame); [|done]. destruct (range frame 0 _) as [head|] eqn:Hh; [|done]. intros [= <-]. cbn.
  exists b0. split; [|done]. rewrite <- Hb. apply (FragProps.range_byte _ _ _ _ Hh). lia.
Qed.

Lemma origin_v4_whole h now out packet ip :
  Forall (λ a, is_v6 a.1 = false) h → FragProps.origin h now out →
  range out ETH_HEADER_LEN (len out) = Some packet → parse packet = Some (Some ip) → fragment ip = None.
Proof.
  intros Hv (k & pre & frame & t & rest & head & body & Heq & _ & Has) Hr Hp.
  pose proof (FragProps.as_whole _ _ _ _ Has) as Hw. unfold ETH_HEADER_LEN in Hr.
  assert (Forall in_u8 packet) as Hu by (eapply range_u8; [exact Hr|apply Hw]).
  unfold parse in Hp. destruct (byte packet 0) as [b|] eqn:Hb; [|done]. rewrite (range_drop_byte out 14) in Hb by (done || lia).
  assert (Z.shiftr b 4 =? 6 = false) as H6.
  { destruct (FragProps.as_head _ _ _ _ Has) as (v & Hv0 & _ & Hhead). apply list_elem_of_omap in Hv0 as (a & Ha & Hva).
    unfold FragProps.view_of in Hva. destruct (Frag.fragment_view a.1) as [[w|]|] eqn:Hfv; [|done|done].
    destruct (decide _); [|done]. injection Hva as ->. destruct (fragment_view_byte _ _ Hfv) as (b0 & Hh & Hf0).
    assert (is_v6 a.1 = false) as Hav. { rewrite Forall_forall in Hv. apply Hv. rewrite Heq. apply elem_of_app. by right. }
    unfold is_v6, ETH_HEADER_LEN in Hav. rewrite Hf0 in Hav. rewrite Hhead in Hh.
    change (14 + 0) with 14 in Hb. rewrite (Frag.wh_head _ _ _ Hw 14), Hh in Hb; [by injection Hb as ->| |lia].
    apply lookup_lt_Some in Hh. unfold len. lia. }
  destruct (_ =? 4); [|by rewrite H6 in Hp]. unfold parse4 in Hp. destruct (ipv4_from_slice packet) as [hd|] eqn:Hhd; [|done].
  assert (get_be16 packet 6 = Some 0) as Hz.
  { unfold get_be16. rewrite (range_drop_byte out 14 packet 6), (range_drop_byte out 14 packet (6 + 1)) by (done || lia).
    exact (Frag.wh_fragment _ _ _ Hw). }
  destruct (ipv4_header_spec packet hd Hu Hhd) as (_ & _ & _ & _ & _ & (b6 & Hb6 & Hmore) & (w & Hw6 & Hoff) & _).
  rewrite Hz in Hw6. injection Hw6 as <-. unfold get_be16 in Hz. rewrite Hb6 in Hz. destruct (byte packet (6 + 1)) as [b7|] eqn:Hb7; [|done].
  apply (byte_range _ _ _ Hu) in Hb6. apply (byte_range _ _ _ Hu) in Hb7. injection Hz as Hz. unfold be16, in_u8, u8_bound in *. assert (b6 = 0) as -> by lia.
  assert (is_fragmenting_payload hd = false) as Hfr by (unfold is_fragmenting_payload; by rewrite Hmore, Hoff).
  rewrite Hfr in Hp. destruct (_ <? _); [done|]. destruct (_ <? _); [done|]. destruct (range packet 0 _) as [pk|]; [|done].
  destruct (range pk _ _); [|done]. by injection Hp as <-.
Qed.

Lemma came_whole h now out :
  came_from h now out → Forall in_u8 out ∧ 14 ≤ len out ∧
  ∀ packet ip, range out ETH_HEADER_LEN (len out) = Some packet → parse packet = Some (Some ip) → fragment ip = None.
Proof.
  intros (pre & frame & _ & Ho). destruct (is_v6 frame).
  - assert (∃ e p v x y, Frag6.built e p v x y out) as (e & p & v & x & y & Hb).
    { destruct Ho as [? ? ? _ _ _ Hb|? ? ? ? ? ? ? _ _ Has]; [eauto 10|].
      destruct (Frag6Props.as_built _ _ _ _ Has) as (? & _ & Hb). eauto 10. }
    destruct (Frag6.bu_parse _ _ _ _ _ _ Hb) as (packet & ip & Hr & Hp & Hf). split; [apply Hb|]. split.
    + unfold range, ETH_HEADER_LEN in Hr. destruct (Z.leb_spec 14 (len out)); [done|]. done.
    + intros packet' ip' Hr' Hp'. congruence.
  - split; [|split].
    + destruct Ho as (? & ? & ? & ? & ? & head & body & _ & _ & Has). apply (FragProps.as_whole _ _ _ _ Has).
    + destruct Ho as (? & ? & ? & ? & ? & head & body & _ & _ & Has). pose proof (FragProps.as_whole _ _ _ _ Has) as Hw.
      pose proof (Frag.wh_fragment _ _ _ Hw) as Hz. unfold get_be16 in Hz. destruct (byte out 20) as [b|] eqn:Hb; [|done].
      apply lookup_lt_Some in Hb. unfold len. lia.
    + intros packet ip. apply (origin_v4_whole (v4s h) now); [|done]. apply Forall_forall. by intros a [? _]%list_elem_of_filter.
Qed.

End Whole.

(** ** The queues *)

Section Queues.
Context {ep : Etherparse} {laws : EtherparseLaws}.

(** The frame is an Ethernet header and a whole IP packet. *)
Definition carries (frame : list Z) (ip : IpPacketView) : Prop :=
  ∃ header, frame = header ++ bytes ip ∧ length header = 14%nat ∧ parse (bytes ip) = Some (Some ip) ∧ fragment ip = None.

(** A complete TCP segment that opens a connection (SYN without ACK), or one that
    does not. *)
Definition segment (ip : IpPacketView) (tcp : TcpSlice) (syn : bool) : Prop :=
  tcp_parse ip = Some tcp ∧ ∃ flags, byte (tcp_slice tcp) 13 = Some flags ∧ Z.testbit flags 1 && negb (Z.testbit flags 4) = syn.

Definition intercept_ok (gateway : Ipv4) (x : list Z * InterceptedKind) : Prop :=
  ∃ ip, carries x.1 ip ∧
  if decide (x.2 = Icmp) then protocol ip = 1 ∧ is_ipv4 (source ip) = true
  else protocol ip = 17 ∧ ∃ udp length port, transport ip = Some udp ∧ get_be16 udp 4 = Some length ∧ 8 ≤ length ≤ len udp ∧
    get_be16 udp 2 = Some port ∧ (x.2 = Dhcp ↔ port = 67 ∧ is_ipv4 (destination ip) = true) ∧
    (x.2 = Dns ↔ port = 53 ∧ destination ip = V4 gateway).

Definition syn_ok (s : TcpSynInfo) : Prop :=
  ∃ ip tcp, carries (syn_frame s) ip ∧ segment ip tcp true ∧ syn_src_ip s = source ip ∧ syn_dst_ip s = destination ip ∧
  syn_src_port s = tcp_source_port tcp ∧ syn_dst_port s = tcp_destination_port tcp ∧ syn_seq s = tcp_sequence_number tcp.

Record routed (c : FrameClassifier) : Prop := {
  ro_rx : Forall (λ f, ∃ ip tcp, carries f ip ∧ segment ip tcp false) (rx_queue c);
  ro_syn : Forall syn_ok (gated_syns c);
  ro_intercepted : Forall (intercept_ok (gateway_ip c)) (intercepted c);
  ro_arp : Forall (λ reply, ∃ mac request, handle_arp (MkArp (gateway_ip c) mac) request = Some (Some reply)) (pending_arp_replies c);
  ro_responder : ∃ mac, arp c = MkArp (gateway_ip c) mac;
  ro_sane : ∃ h, sane (reassembler c) h
}.

(** At most one queue grows, by one element at its end. *)
Definition grows (c c' : FrameClassifier) : Prop :=
  gateway_ip c' = gateway_ip c ∧ gateway_mac c' = gateway_mac c ∧ arp c' = arp c ∧
  ∃ rx int syns replies, rx_queue c' = rx_queue c ++ rx ∧ intercepted c' = intercepted c ++ int ∧
  gated_syns c' = gated_syns c ++ syns ∧ pending_arp_replies c' = pending_arp_replies c ++ replies ∧
  (length rx + length int + length syns + length replies ≤ 1)%nat.

Lemma grows_refl c r : grows c (c <| reassembler := r |>).
Proof. unfold grows, upd. cbn. do 3 (split; [done|]). exists [], [], [], []. rewrite !app_nil_r. cbn. split_and!; done || lia. Qed.

Lemma grows_same c : grows c c.
Proof. unfold grows. do 3 (split; [done|]). exists [], [], [], []. rewrite !app_nil_r. cbn. split_and!; done || lia. Qed.

Lemma reassembler_routed c r h : routed c → sane r h → routed (c <| reassembler := r |>).
Proof. intros Hc Hs. unfold upd. split; cbn; try apply Hc. by exists h. Qed.

Lemma is_syn_bits flags : in_u8 flags → is_syn flags = Z.testbit flags 1 && negb (Z.testbit flags 4).
Proof.
  intros Hf. assert (Forall (λ flags, is_syn flags = Z.testbit flags 1 && negb (Z.testbit flags 4)) (seqZ 0 256)) as Hall
    by (apply (bool_decide_unpack _); vm_compute; exact I).
  rewrite Forall_forall in Hall. apply Hall, elem_of_seqZ. unfold in_u8, u8_bound in Hf. lia.
Qed.

Lemma queue_tcp_spec c header ip :
  routed c → carries (header ++ bytes ip) ip → ip_view_ok ip →
  ∃ c', queue_tcp c header ip = Some c' ∧ routed c' ∧ grows c c'.
Proof.
  intros Hc Hcar Hip. unfold queue_tcp. destruct (tcp_parse ip) as [tcp|] eqn:Ht; [|exists c; auto using grows_same].
  assert (∃ flags, byte (tcp_slice tcp) 13 = Some flags ∧ in_u8 flags) as (flags & Hf & Hu8).
  { unfold tcp_parse, transport in Ht. destruct (negb _); [done|]. destruct (fragment ip); [done|].
    destruct (iv_u8 _ Hip) as [_ Hu]. destruct (tcp_spec _ _ Hu Ht) as (H20 & -> & _). destruct (byte_Some (ip_payload ip) 13) as (b & -> & ?); [done|lia|eauto]. }
  rewrite Hf. assert (segment ip tcp (is_syn flags)) as Hseg by (rewrite is_syn_bits by done; split; eauto). destruct (is_syn flags).
  - eexists. split; [done|]. unfold upd. split; [split; cbn; try apply Hc|].
    + apply Forall_app. split; [apply Hc|]. apply Forall_singleton. exists ip, tcp. done.
    + unfold grows. cbn. do 3 (split; [done|]). eexists [], [], [_], []. rewrite !app_nil_r. cbn. split_and!; done || lia.
  - eexists. split; [done|]. unfold upd. split; [split; cbn; try apply Hc|].
    + apply Forall_app. split; [apply Hc|]. apply Forall_singleton. by exists ip, tcp.
    + unfold grows. cbn. do 3 (split; [done|]). eexists [_], [], [], []. rewrite !app_nil_r. cbn. split_and!; done || lia.
Qed.

Lemma intercept_spec c header ip kind :
  routed c → intercept_ok (gateway_ip c) (header ++ bytes ip, kind) →
  let c' := c <| intercepted := intercepted c ++ [(header ++ bytes ip, kind)] |> in routed c' ∧ grows c c'.
Proof.
  intros Hc Hi. unfold upd. split; [split; cbn; try apply Hc|].
  - apply Forall_app. split; [apply Hc|]. by apply Forall_singleton.
  - unfold grows. cbn. do 3 (split; [done|]). eexists [], [_], [], []. rewrite !app_nil_r. cbn. split_and!; done || lia.
Qed.

Lemma udp_kind_not_icmp gateway ip port : udp_kind gateway ip port ≠ Icmp.
Proof. unfold udp_kind. by repeat case_match. Qed.

Lemma udp_kind_spec gateway ip port :
  (udp_kind gateway ip port = Dhcp ↔ port = 67 ∧ is_ipv4 (destination ip) = true) ∧
  (udp_kind gateway ip port = Dns ↔ port = 53 ∧ destination ip = V4 gateway).
Proof.
  unfold udp_kind. destruct (Z.eqb_spec port 67) as [->|]; cbn [andb].
  - destruct (is_ipv4 (destination ip)) eqn:Hv; [naive_solver|]. cbn. naive_solver.
  - destruct (Z.eqb_spec port 53) as [->|]; cbn [andb]; [|naive_solver]. case_bool_decide; naive_solver.
Qed.

Lemma queue_udp_spec c header ip :
  routed c → carries (header ++ bytes ip) ip → ip_view_ok ip → protocol ip = 17 →
  ∃ c', queue_udp c header ip = Some c' ∧ routed c' ∧ grows c c'.
Proof.
  intros Hc Hcar Hip Hp. unfold queue_udp. destruct (transport ip) as [udp|] eqn:Ht; [|exists c; auto using grows_same].
  assert (Forall in_u8 udp) as Hu.
  { unfold transport in Ht. destruct (fragment ip); [done|]. injection Ht as <-. apply Hip. }
  destruct (Z.ltb_spec (len udp) 8); [exists c; auto using grows_same|].
  destruct (get_be16_Some udp 4) as (length & Hlen & _); [done|lia|lia|]. rewrite Hlen.
  destruct (Z.ltb_spec length 8); cbn [orb]; [exists c; auto using grows_same|].
  destruct (Z.ltb_spec (len udp) length); [exists c; auto using grows_same|].
  destruct (get_be16_Some udp 2) as (port & Hport & _); [done|lia|lia|]. rewrite Hport.
  eexists. split; [done|]. apply intercept_spec; [done|]. exists ip. split; [done|].
  rewrite decide_False by apply udp_kind_not_icmp. split; [done|]. exists udp, length, port. split_and!; try done; apply udp_kind_spec.
Qed.

Lemma classify_whole_spec c header ip :
  routed c → carries (header ++ bytes ip) ip → ip_view_ok ip →
  ∃ c', classify_whole c header ip = Some c' ∧ routed c' ∧ grows c c'.
Proof.
  intros Hc Hcar Hip. unfold classify_whole, PROTO_TCP, PROTO_UDP, PROTO_ICMP.
  destruct (Z.eqb_spec (protocol ip) 6); [by apply queue_tcp_spec|].
  destruct (Z.eqb_spec (protocol ip) 17); [by apply queue_udp_spec|].
  destruct (Z.eqb_spec (protocol ip) 1); cbn [andb]; [|exists c; auto using grows_same].
  destruct (is_ipv4 (source ip)) eqn:Hv; [|exists c; auto using grows_same].
  eexists. split; [done|]. apply intercept_spec; [done|]. exists ip. split; [done|]. by rewrite decide_True.
Qed.

(** The packet under [header] is an Ethernet frame of bytes. *)
Record framed (header : list Z) (ip : IpPacketView) : Prop := {
  fr_header : length header = 14%nat ∧ Forall in_u8 header;
  fr_parse : parse (bytes ip) = Some (Some ip);
  fr_view : ip_view_ok ip
}.

Lemma parsed_framed frame packet ip :
  Forall in_u8 frame → 14 ≤ len frame → range frame ETH_HEADER_LEN (len frame) = Some packet → parse packet = Some (Some ip) →
  ∃ header, range frame 0 ETH_HEADER_LEN = Some header ∧ framed header ip.
Proof.
  intros Hf Hl Hr Hp. assert (Forall in_u8 packet) as Hu by (by eapply range_u8).
  unfold ETH_HEADER_LEN in *. destruct (range_Some frame 0 14) as (header & Hh & Hhl & Hhu); [lia|lia|]. exists header. split; [done|].
  destruct (ip_parse_total packet Hu) as (r & Hr' & Hok). rewrite Hp in Hr'. injection Hr' as <-.
  split; [split; [unfold len in Hhl; lia|auto]|by apply (parse_trim packet)|by apply Hok].
Qed.

Lemma framed_carries header ip : framed header ip → fragment ip = None → carries (header ++ bytes ip) ip.
Proof. intros [[Hh _] Hp _] Hf. by exists header. Qed.

Lemma classify_ip_spec c header ip now :
  routed c → framed header ip → ∃ c', classify_ip CLASSIFY_DEPTH c header ip now = Some c' ∧ routed c' ∧ grows c c'.
Proof.
  intros Hc Hfr. unfold CLASSIFY_DEPTH. cbn [classify_ip]. destruct (fragment ip) as [f|] eqn:Hf.
  2: { apply classify_whole_spec; [done|by apply framed_carries|apply Hfr]. }
  destruct (ro_sane _ Hc) as [h Hs]. destruct (fr_header _ _ Hfr) as [_ Hhu]. destruct (iv_u8 _ (fr_view _ _ Hfr)) as [Hbu _].
  destruct (push_any_step (reassembler c) h (header ++ bytes ip) now Hs) as (r & out & -> & Hs' & Ho); [by apply Forall_app|].
  pose proof (reassembler_routed c r _ Hc Hs') as Hc1. destruct out as [o|]; [|eexists; split; [done|]; split; [done|apply grows_refl]].
  destruct (came_whole _ _ _ (Ho o eq_refl)) as (Hou & Hol & Hwh).
  destruct (range_Some o ETH_HEADER_LEN (len o)) as (packet & Hr & _ & Hpu); [unfold ETH_HEADER_LEN; lia|lia|]. rewrite Hr.
  destruct (ip_parse_total packet (Hpu Hou)) as (p & Hp & _). rewrite Hp.
  destruct p as [ip'|]; [|eexists; split; [done|]; split; [done|apply grows_refl]].
  destruct (parsed_framed o packet ip' Hou Hol Hr Hp) as (header' & -> & Hfr'). rewrite (Hwh packet ip' Hr Hp).
  destruct (classify_whole_spec (c <| reassembler := r |>) header' ip') as (c' & Hc' & H1 & H2);
    [done|apply framed_carries; [done|by apply (Hwh packet)]|apply Hfr'|].
  exists c'. split; [done|]. split; [done|]. exact H2.
Qed.

Lemma classify_frame_spec c frame guest_mac now :
  routed c → Forall in_u8 frame →
  ∃ c' guest_mac', classify_frame c frame guest_mac now = Some (c', guest_mac') ∧ routed c' ∧ grows c c'.
Proof.
  intros Hc Hf. unfold classify_frame. destruct (Z.ltb_spec (len frame) ETH_HEADER_LEN) as [|Hl]; [eexists _, _; auto using grows_same|].
  unfold ETH_HEADER_LEN in Hl. destruct (range_Some frame 6 12) as (mac & -> & _); [lia|lia|].
  destruct (get_be16_Some frame 12) as (et & -> & _); [done|lia|lia|]. cbv zeta. destruct (et =? 0x0806).
  - destruct (handle_arp_total (arp c) frame Hf) as [reply Ha]. rewrite Ha. destruct reply as [reply|]; [|eexists _, _; auto using grows_same].
    eexists _, _. split; [done|]. unfold upd. split; [split; cbn; try apply Hc|].
    + apply Forall_app. split; [apply Hc|]. apply Forall_singleton. destruct (ro_responder _ Hc) as [m Hm]. rewrite Hm in Ha. eauto.
    + unfold grows. cbn. do 3 (split; [done|]). eexists [], [], [], [_]. rewrite !app_nil_r. cbn. split_and!; done || lia.
  - destruct (_ || _); [|eexists _, _; auto using grows_same].
    destruct (range_Some frame ETH_HEADER_LEN (len frame)) as (packet & Hr & _ & Hpu); [unfold ETH_HEADER_LEN; lia|lia|]. rewrite Hr.
    destruct (ip_parse_total packet (Hpu Hf)) as (p & Hp & _). rewrite Hp. destruct p as [ip|]; [|eexists _, _; auto using grows_same].
    destruct (Bool.eqb _ _); [|eexists _, _; auto using grows_same].
    destruct (parsed_framed frame packet ip Hf Hl Hr Hp) as (header & -> & Hfr).
    destruct (classify_ip_spec c header ip now Hc Hfr) as (c' & -> & H1 & H2). eexists _, _. auto.
Qed.

Lemma synthetic_ok : length synthetic_l2_header = 14%nat ∧ Forall in_u8 synthetic_l2_header.
Proof. split; [reflexivity|]. apply (bool_decide_unpack _). vm_compute. exact I. Qed.

(** The Ethernet header in front of a bare packet. *)
Definition l2_header (ip : IpPacketView) : list Z :=
  take 12 synthetic_l2_header ++ if is_ipv6 (source ip) then [0x86; 0xdd] else [0x08; 0x00].

Lemma classify_ip_packet_eq c packet guest_mac now ip :
  parse packet = Some (Some ip) → len packet ≤ 65535 + (if is_ipv6 (source ip) then 40 else 0) →
  classify_ip_packet c packet guest_mac now =
    match classify_ip CLASSIFY_DEPTH c (l2_header ip) ip now with Some c => Some (c, Some HOST_MAC) | None => None end.
Proof.
  intros Hp Hl. unfold classify_ip_packet, l2_header. rewrite Hp. cbv zeta. destruct (is_ipv6 (source ip)).
  - destruct (Z.ltb_spec (65535 + 40) (len packet)); [lia|]. reflexivity.
  - destruct (Z.ltb_spec (65535 + 0) (len packet)); [lia|]. reflexivity.
Qed.

Lemma l2_header_ok ip : length (l2_header ip) = 14%nat ∧ Forall in_u8 (l2_header ip).
Proof. unfold l2_header. destruct (is_ipv6 (source ip)); (split; [reflexivity|]); apply (bool_decide_unpack _); vm_compute; exact I. Qed.

Lemma bare_framed packet ip : Forall in_u8 packet → parse packet = Some (Some ip) → framed (l2_header ip) ip.
Proof.
  intros Hu Hp. destruct (ip_parse_total packet Hu) as (r & Hr & Hok). rewrite Hp in Hr. injection Hr as <-.
  split; [apply l2_header_ok|by apply (parse_trim packet)|by apply Hok].
Qed.

Lemma classify_ip_packet_spec c packet guest_mac now :
  routed c → Forall in_u8 packet →
  ∃ c' guest_mac', classify_ip_packet c packet guest_mac now = Some (c', guest_mac') ∧ routed c' ∧ grows c c'.
Proof.
  intros Hc Hu. destruct (ip_parse_total packet Hu) as (p & Hp & _).
  destruct p as [ip|]; [|unfold classify_ip_packet; rewrite Hp; eexists _, _; auto using grows_same].
  destruct (decide (len packet ≤ 65535 + (if is_ipv6 (source ip) then 40 else 0))) as [Hl|Hl].
  - rewrite (classify_ip_packet_eq _ _ _ _ ip) by done.
    destruct (classify_ip_spec c (l2_header ip) ip now Hc (bare_framed _ _ Hu Hp)) as (c' & -> & H1 & H2). eexists _, _. auto.
  - unfold classify_ip_packet. rewrite Hp. cbv zeta. rewrite (proj2 (Z.ltb_lt _ _)) by lia. eexists _, _. auto using grows_same.
Qed.

End Queues.

(** ** Draining *)

Section Drains.
Context {S : Type}.

(** What a drain does to the queue, frame after frame: the state of the callback,
    the frames it leaves and those it answers with. *)
Fixpoint drained {A} (try : S → list Z → S * option A) (answer : A → list (list Z)) (s : S) (q : list (list Z))
    : S * list (list Z) * list (list Z) :=
  match q with
  | [] => (s, [], [])
  | frame :: q =>
      let '(s, taken) := try s frame in
      let '(s, kept, answers) := drained try answer s q in
      match taken with
      | Some a => (s, kept, answer a ++ answers)
      | None => (s, frame :: kept, answers)
      end
  end.

Definition ack_answer (ack : list Z) : list (list Z) := if bool_decide (ack = []) then [] else [ack].

Lemma fast_path_loop_drained try s kept q acks :
  fast_path_loop try (length q) s (kept ++ q) (length kept) acks =
  let '(s, kept', acks') := drained try ack_answer s q in (s, kept ++ kept', acks ++ acks').
Proof.
  revert s kept acks. induction q as [|frame q IH]; intros s kept acks; cbn [length fast_path_loop drained]; [by rewrite !app_nil_r|].
  rewrite list_lookup_middle by done. destruct (try s frame) as [s' [ack|]].
  - rewrite delete_middle, IH. destruct (drained try ack_answer s' q) as [[s2 kept'] acks']. unfold ack_answer.
    destruct (bool_decide (ack = [])); [done|]. by rewrite <- app_assoc.
  - replace (kept ++ frame :: q) with ((kept ++ [frame]) ++ q) by (by rewrite <- app_assoc).
    replace (length kept + 1)%nat with (length (kept ++ [frame])) by (rewrite length_app; done).
    rewrite IH. destruct (drained try ack_answer s' q) as [[s2 kept'] acks']. by rewrite <- app_assoc.
Qed.

Lemma handshake_loop_drained try s kept q replies :
  handshake_loop try (length q) s (kept ++ q) (length kept) replies =
  let '(s, kept', replies') := drained try (λ a, a) s q in (s, kept ++ kept', replies ++ replies').
Proof.
  revert s kept replies. induction q as [|frame q IH]; intros s kept replies; cbn [length handshake_loop drained]; [by rewrite !app_nil_r|].
  rewrite list_lookup_middle by done. destruct (try s frame) as [s' [a|]].
  - rewrite delete_middle, IH. destruct (drained try _ s' q) as [[s2 kept'] replies']. by rewrite <- app_assoc.
  - replace (kept ++ frame :: q) with ((kept ++ [frame]) ++ q) by (by rewrite <- app_assoc).
    replace (length kept + 1)%nat with (length (kept ++ [frame])) by (rewrite length_app; done).
    rewrite IH. destruct (drained try _ s' q) as [[s2 kept'] replies']. by rewrite <- app_assoc.
Qed.

Lemma drained_sublist {A} (try : S → list Z → S * option A) answer s q : sublist (drained try answer s q).1.2 q.
Proof.
  revert s. induction q as [|frame q IH]; intros s; cbn [drained]; [done|]. destruct (try s frame) as [s' taken].
  specialize (IH s'). destruct (drained try answer s' q) as [[s2 kept] answers]. destruct taken; cbn in *; by constructor.
Qed.

(** The drains visit every frame once, in order, and leave the refused ones in
    their order. *)
Lemma drain_fast_path_eq try s c :
  drain_fast_path try s c = let '(s, kept, acks) := drained try ack_answer s (rx_queue c) in (s, c <| rx_queue := kept |>, acks).
Proof.
  unfold drain_fast_path. pose proof (fast_path_loop_drained try s [] (rx_queue c) []) as He. cbn in He. rewrite He.
  by destruct (drained _ _ _ _) as [[??]?].
Qed.

Lemma drain_handshake_eq try s c :
  drain_handshake try s c = let '(s, kept, replies) := drained try (λ a, a) s (rx_queue c) in (s, c <| rx_queue := kept |>, replies).
Proof.
  unfold drain_handshake. pose proof (handshake_loop_drained try s [] (rx_queue c) []) as He. cbn in He. rewrite He.
  by destruct (drained _ _ _ _) as [[??]?].
Qed.

End Drains.

(** ** Bare packets *)

Section Bare.
Context {ep : Etherparse} {laws : EtherparseLaws}.

Lemma l3_to_l2_eq packet ip :
  Forall in_u8 packet → parse packet = Some (Some ip) →
  l3_to_l2 packet (l3_header new_source) (l3_buf new_source) = Some (Some (l2_header ip ++ bytes ip)).
Proof.
  intros Hu Hp. destruct (ip_parse_total packet Hu) as (r & Hr & Hok). rewrite Hp in Hr. injection Hr as <-.
  pose proof (iv_len _ (Hok ip eq_refl)) as Hl. unfold l3_to_l2, l2_header. rewrite Hp. cbv zeta.
  unfold new_source, l3_buf, ETH_HEADER_LEN. rewrite (proj2 (Z.ltb_ge _ _)) by (destruct (is_ipv6 (source ip)); lia).
  by destruct (is_ipv6 (source ip)).
Qed.

Lemma l3_to_l2_none packet size : parse packet = Some None → l3_to_l2 packet synthetic_l2_header size = Some None.
Proof. intros Hp. unfold l3_to_l2. by rewrite Hp. Qed.

Lemma header_fields ip rest :
  range (l2_header ip ++ rest) 6 12 = Some HOST_MAC ∧
  get_be16 (l2_header ip ++ rest) 12 = Some (if is_ipv6 (source ip) then 0x86dd else 0x0800) ∧
  range (l2_header ip ++ rest) 0 ETH_HEADER_LEN = Some (l2_header ip).
Proof.
  destruct (l2_header_ok ip) as [Hl _]. unfold get_be16, ETH_HEADER_LEN. rewrite !range_app_l, !byte_app_l by (unfold len; lia).
  unfold l2_header. by destruct (is_ipv6 (source ip)).
Qed.

Lemma range_body header rest : length header = 14%nat → range (header ++ rest) ETH_HEADER_LEN (len (header ++ rest)) = Some rest.
Proof. intros Hl. rewrite <- (range_all header rest). f_equal. unfold len. by rewrite Hl. Qed.

(** A bare packet and its frame are classified alike. *)
Lemma classify_framed c packet ip guest_mac now :
  Forall in_u8 packet → parse packet = Some (Some ip) → len packet ≤ 65535 + (if is_ipv6 (source ip) then 40 else 0) →
  classify_frame c (l2_header ip ++ bytes ip) guest_mac now = classify_ip_packet c packet guest_mac now.
Proof.
  intros Hu Hp Hl. rewrite (classify_ip_packet_eq _ _ _ _ ip) by done. destruct (l2_header_ok ip) as [Hhl _].
  unfold classify_frame. rewrite (proj2 (Z.ltb_ge _ _)) by (unfold len, ETH_HEADER_LEN; rewrite length_app, Hhl; lia).
  destruct (header_fields ip (bytes ip)) as (-> & -> & ->). rewrite range_body by done. rewrite (parse_trim packet ip Hu Hp). cbv zeta.
  unfold is_ipv6. destruct (is_ipv4 (source ip)); reflexivity.
Qed.

Lemma l2_to_l3_framed ip : ip_view_ok ip → l2_to_l3 (l2_header ip ++ bytes ip) = Some (Some (bytes ip)).
Proof.
  intros Hip. pose proof (iv_len _ Hip) as Hlen. destruct (l2_header_ok ip) as [Hhl _].
  assert (len (l2_header ip ++ bytes ip) = 14 + len (bytes ip)) as Hl by (unfold len; rewrite length_app, Hhl; lia).
  destruct (header_fields ip (bytes ip)) as (H6 & H12 & _).
  unfold l2_to_l3, Eth.parse, ETH_HEADER_LEN. rewrite (proj2 (Z.ltb_ge _ _)) by lia. rewrite H6, H12.
  destruct (range_Some (l2_header ip ++ bytes ip) 0 6) as (dst & -> & _); [lia|lia|]. cbn [ethertype].
  assert (strip_ethernet_header (l2_header ip ++ bytes ip) = bytes ip) as ->.
  { unfold strip_ethernet_header, ETH_HEADER_LEN. rewrite (proj2 (Z.leb_gt _ _)) by lia. by rewrite drop_app_length'. }
  by destruct (is_ipv6 (source ip)).
Qed.

(** Frames or packets classified one after the other. *)
Fixpoint classify_all (classify : FrameClassifier → list Z → option (list Z) → Z → option (FrameClassifier * option (list Z)))
    (c : FrameClassifier) (guest_mac : option (list Z)) (fs : list (list Z * Z)) : option (FrameClassifier * option (list Z)) :=
  match fs with
  | [] => Some (c, guest_mac)
  | (frame, now) :: fs =>
      let! done := classify c frame guest_mac now in
      classify_all classify done.1 done.2 fs
  end.

Lemma drain_source_total packets :
  Forall (λ a, Forall in_u8 a.1) packets →
  ∃ frames, drain_source new_source packets = Some frames ∧
  ∀ a, a ∈ frames → ∃ packet ip, (packet, a.2) ∈ packets ∧ parse packet = Some (Some ip) ∧ l2_to_l3 a.1 = Some (Some (bytes ip)).
Proof.
  induction 1 as [|[packet now] packets Hu _ (frames & IH & Hfr)]; [exists []; split; [done|]; by intros a ?%not_elem_of_nil|].
  cbn [drain_source fst] in *. rewrite IH. destruct (ip_parse_total packet Hu) as (p & Hp & Hok).
  assert (∀ a, a ∈ frames → ∃ packet' ip, (packet', a.2) ∈ (packet, now) :: packets ∧ parse packet' = Some (Some ip) ∧
    l2_to_l3 a.1 = Some (Some (bytes ip))) as Hrest.
  { intros a Ha. destruct (Hfr a Ha) as (packet' & ip' & Hin & ?). exists packet', ip'. split; [by right|done]. }
  destruct p as [ip|].
  - rewrite (l3_to_l2_eq packet ip) by done. eexists. split; [done|]. intros a [->|Ha]%elem_of_cons; [|by apply Hrest].
    exists packet, ip. split; [by left|]. split; [done|]. apply l2_to_l3_framed. by apply Hok.
  - cbn [l3_header new_source]. rewrite l3_to_l2_none by done. by exists frames.
Qed.

Lemma classify_drained c guest_mac packets frames :
  Forall (λ a, Forall in_u8 a.1 ∧
    ∀ ip, parse a.1 = Some (Some ip) → len a.1 ≤ 65535 + if is_ipv6 (source ip) then 40 else 0) packets →
  drain_source new_source packets = Some frames →
  classify_all classify_frame c guest_mac frames = classify_all classify_ip_packet c guest_mac packets.
Proof.
  intros Hps. revert c guest_mac frames. induction Hps as [|[packet now] packets [Hu Hl] _ IH]; intros c g frames; [by intros [= <-]|].
  cbn [drain_source classify_all fst] in *. destruct (ip_parse_total packet Hu) as (p & Hp & _). destruct p as [ip|].
  - rewrite (l3_to_l2_eq packet ip) by done. destruct (drain_source new_source packets) as [rest|]; [|done]. intros Hfr.
    assert ((l2_header ip ++ bytes ip, now) :: rest = frames) as <- by congruence. cbn [classify_all]. rewrite (classify_framed c packet ip g now Hu Hp (Hl ip Hp)).
    destruct (classify_ip_packet c packet g now) as [[c' g']|]; [|done]. by apply IH.
  - cbn [l3_header new_source]. rewrite l3_to_l2_none by done.
    assert (classify_ip_packet c packet g now = Some (c, g)) as -> by (unfold classify_ip_packet; by rewrite Hp).
    destruct (drain_source new_source packets) as [rest|]; [|done]. intros [= <-]. by apply IH.
Qed.

End Bare.

(** ** Reachable classifiers *)

Section Reach.
Context {ep : Etherparse} {laws : EtherparseLaws}.

(** The classifiers the operations make of a new one. *)
Inductive reach (gateway : Ipv4) : FrameClassifier → Prop :=
| reach_new : reach gateway (new_classifier gateway)
| reach_frame c frame guest_mac now c' guest_mac' : reach gateway c → Forall in_u8 frame →
    classify_frame c frame guest_mac now = Some (c', guest_mac') → reach gateway c'
| reach_packet c packet guest_mac now c' guest_mac' : reach gateway c → Forall in_u8 packet →
    classify_ip_packet c packet guest_mac now = Some (c', guest_mac') → reach gateway c'
| reach_mac c mac : reach gateway c → reach gateway (set_gateway_mac c mac)
| reach_replies c : reach gateway c → reach gateway (take_arp_replies c).1
| reach_clear c : reach gateway c → reach gateway (clear_unmatched_rx c)
| reach_intercepted c : reach gateway c → reach gateway (take_intercepted c).1
| reach_syns c : reach gateway c → reach gateway (take_gated_syns c).1
| reach_fast {S} try (s : S) c : reach gateway c → reach gateway (drain_fast_path try s c).1.2
| reach_handshake {S} try (s : S) c : reach gateway c → reach gateway (drain_handshake try s c).1.2.

Lemma rx_routed c q : routed c → sublist q (rx_queue c) → routed (c <| rx_queue := q |>).
Proof.
  intros Hc Hq. unfold upd. split; cbn; try apply Hc. apply Forall_forall. intros f Hf.
  apply (proj1 (Forall_forall _ _) (ro_rx _ Hc)). by eapply elem_of_sublist.
Qed.

Lemma reach_routed gateway c : reach gateway c → routed c ∧ gateway_ip c = gateway.
Proof.
  induction 1 as [|c frame g now c' g' _ [IH Hg] Hf Hc|c packet g now c' g' _ [IH Hg] Hp Hc|c mac _ [IH Hg]|c _ [IH Hg]|c _ [IH Hg]
    |c _ [IH Hg]|c _ [IH Hg]|S try s c _ [IH Hg]|S try s c _ [IH Hg]].
  - split; [|done]. split; try (by constructor). { by eexists. } exists []. apply new_sane.
  - destruct (classify_frame_spec c frame g now IH Hf) as (c1 & g1 & Hc1 & Hr & [Hg' _]). rewrite Hc in Hc1. injection Hc1 as <- <-.
    split; [done|congruence].
  - destruct (classify_ip_packet_spec c packet g now IH Hp) as (c1 & g1 & Hc1 & Hr & [Hg' _]). rewrite Hc in Hc1. injection Hc1 as <- <-.
    split; [done|congruence].
  - split; [|done]. unfold set_gateway_mac, upd. split; cbn; try apply IH. by eexists.
  - split; [|done]. unfold take_arp_replies, upd. split; cbn; try apply IH. constructor.
  - split; [|done]. apply rx_routed; [done|apply sublist_nil_l].
  - split; [|done]. unfold take_intercepted, upd. split; cbn; try apply IH. constructor.
  - split; [|done]. unfold take_gated_syns, upd. split; cbn; try apply IH. constructor.
  - rewrite drain_fast_path_eq. pose proof (drained_sublist try ack_answer s (rx_queue c)) as Hq.
    destruct (drained _ _ _ _) as [[s' kept] acks]. split; [by apply rx_routed|done].
  - rewrite drain_handshake_eq. pose proof (drained_sublist try (λ a, a) s (rx_queue c)) as Hq.
    destruct (drained _ _ _ _) as [[s' kept] acks]. split; [by apply rx_routed|done].
Qed.

End Reach.

(** ** Theorems *)

Section Claims.
Context {ep : Etherparse} {laws : EtherparseLaws}.

(** C23: In every state the operations of the classifier reach, each queue holds what
    its handler expects: TCP frames that open no connection in [rx_queue], the
    opening ones with the fields of their headers in [gated_syns], whole UDP datagrams
    by destination port and IPv4 ICMP packets in [intercepted], answers of this
    gateway's ARP responder in [pending_arp_replies]; every IP packet queued is whole
    and trimmed to its declared length. And the next frame or bare packet, whatever its
    bytes, is classified without a panic, the recursion on reassembled packets ends,
    and at most one queue grows, by one element at its end. *)
Theorem frames_are_routed gateway c :
  reach gateway c →
  Forall (λ f, ∃ ip tcp, carries f ip ∧ segment ip tcp false) (rx_queue c) ∧
  Forall syn_ok (gated_syns c) ∧ Forall (intercept_ok gateway) (intercepted c) ∧
  Forall (λ reply, ∃ mac request, handle_arp (MkArp gateway mac) request = Some (Some reply)) (pending_arp_replies c) ∧
  ∀ bs guest_mac now, Forall in_u8 bs →
  (∃ c' guest_mac', classify_frame c bs guest_mac now = Some (c', guest_mac') ∧ grows c c') ∧
  (∃ c' guest_mac', classify_ip_packet c bs guest_mac now = Some (c', guest_mac') ∧ grows c c').
Proof.
  intros Hc. destruct (reach_routed gateway c Hc) as [Hr Hg]. rewrite <- Hg. split_and!; try apply Hr.
  intros bs g now Hb. destruct (classify_frame_spec c bs g now Hr Hb) as (c1 & g1 & H1 & _ & G1).
  destruct (classify_ip_packet_spec c bs g now Hr Hb) as (c2 & g2 & H2 & _ & G2). eauto 10.
Qed.

(** C26: The two ways of feeding bare IP packets agree: [L3ToL2Source] followed by
    [classify_frame] leaves the classifier as [classify_ip_packet] does, packet after
    packet, for all packets no longer than the length their version allows; and the
    egress filter [l2_to_l3] recovers from each frame the packet it was made of. *)
Theorem ingest_paths_agree c guest_mac packets :
  Forall (λ a, Forall in_u8 a.1 ∧
    ∀ ip, parse a.1 = Some (Some ip) → len a.1 ≤ 65535 + if is_ipv6 (source ip) then 40 else 0) packets →
  ∃ frames, drain_source new_source packets = Some frames ∧
  classify_all classify_frame c guest_mac frames = classify_all classify_ip_packet c guest_mac packets ∧
  ∀ a, a ∈ frames → ∃ packet ip, (packet, a.2) ∈ packets ∧ parse packet = Some (Some ip) ∧ l2_to_l3 a.1 = Some (Some (bytes ip)).
Proof.
  intros Hps. destruct (drain_source_total packets) as (frames & Hd & Hfr); [eapply Forall_impl; [exact Hps|]; by intros a [? _]|].
  exists frames. split; [done|]. split; [by apply classify_drained|done].
Qed.

End Claims.

(** ** Examples *)

#[local] Existing Instance ex_etherparse.
#[local] Existing Instance ex_laws.

Definition ex_gateway : Ipv4 := MkIp 10 0 2 1.
(** A segment from 10.0.2.2:4000 to 93.184.216.34:80 with [flags], as a bare packet. *)
Definition ex_segment (flags : Z) : list Z :=
  [0x45; 0; 0; 40; 0; 1; 0; 0; 64; 6; 0; 0; 10; 0; 2; 2; 93; 184; 216; 34] ++
  [15; 160; 0; 80; 0; 0; 3; 232; 0; 0; 0; 0; 0x50; flags; 255; 255; 0; 0; 0; 0].
Definition ex_tcp_frame (flags : Z) : list Z := replicate 6 2 ++ replicate 6 4 ++ [8; 0] ++ ex_segment flags.
Definition ex_classifier : FrameClassifier := Eval vm_compute in
  match classify_all classify_frame (new_classifier ex_gateway) None [(ex_tcp_frame 0x02, 0); (ex_tcp_frame 0x10 ++ [0; 0], 1)] with
  | Some (c, _) => c
  | None => new_classifier ex_gateway
  end.

Lemma frames_are_routed_witness :
  length (rx_queue ex_classifier) = 1%nat ∧ syn_seq <$> gated_syns ex_classifier = [1000] ∧
  Forall (λ f, ∃ ip tcp, carries f ip ∧ segment ip tcp false) (rx_queue ex_classifier) ∧
  ∃ c' guest_mac', classify_frame ex_classifier (ex_tcp_frame 0x11) None 2 = Some (c', guest_mac') ∧ grows ex_classifier c'.
Proof.
  assert (∀ l, bool_decide (Forall in_u8 l) = true → Forall in_u8 l) as Hu by (intros l; apply bool_decide_eq_true_1).
  destruct (frames_are_routed ex_gateway ex_classifier) as (H1 & _ & _ & _ & H2).
  { eapply (reach_frame _ _ (ex_tcp_frame 0x10 ++ [0; 0]) (Some (replicate 6 4)) 1 _ (Some (replicate 6 4))).
    - eapply (reach_frame _ _ (ex_tcp_frame 0x02) None 0); [apply reach_new|apply Hu; vm_compute; reflexivity|vm_compute; reflexivity].
    - apply Hu. vm_compute. reflexivity.
    - vm_compute. reflexivity. }
  split; [reflexivity|]. split; [reflexivity|]. split; [exact H1|].
  apply (H2 (ex_tcp_frame 0x11) None 2). apply Hu. vm_compute. reflexivity.
Defined.

Lemma ingest_paths_agree_witness :
  ∃ frames c, drain_source new_source [(ex_segment 0x02, 0); ([0x50], 1); (ex_segment 0x10 ++ [7], 2)] = Some frames ∧
  length frames = 2%nat ∧ classify_all classify_frame (new_classifier ex_gateway) None frames = Some (c, Some HOST_MAC) ∧
  length (rx_queue c) = 1%nat.
Proof.
  destruct (ingest_paths_agree (new_classifier ex_gateway) None [(ex_segment 0x02, 0); ([0x50], 1); (ex_segment 0x10 ++ [7], 2)])
    as (frames & Hd & He & _).
  { repeat constructor; cbn [fst]; try (apply (bool_decide_unpack _); vm_compute; exact I);
      intros ip Hp; vm_compute in Hp; try discriminate; injection Hp as <-; vm_compute; discriminate. }
  pose proof Hd as Hf. vm_compute in Hf. injection Hf as Hf. eexists frames, _. split; [exact Hd|].
  split; [rewrite <- Hf; reflexivity|]. split; [rewrite He; vm_compute; reflexivity|reflexivity].
Defined.

End ClassifierProps.
