(* ===== verification/ClassifierUdp.v ===== *)
(** * Fragmented datagrams through the classifier

    The frames the builder of [EthFrame] makes of a UDP datagram larger than the MTU,
    fed to the classifier between any other frames: it intercepts the datagram, once
    whole, for the handler of its port. *)

From Stdlib Require Import ZArith Lia.
From stdpp Require Import base numbers list gmap.
From S2P Require Import Prelude Bits Checksum Bytes EthFrame Fragment FragmentProps UdpFrag IpView FragmentV6 FragmentV6Props Reassembly Classifier ClassifierProps.

Open Scope Z_scope.

Module ClassifierUdp.

Import Eth IpView Reassembly Classifier ClassifierProps.
Import Frag (run_with, REASSEMBLY_TIMEOUT).
Import Frag6 (FragmentReassembler, MkReassembler, entries, push_any, is_v6).

(** ** Built frames *)

Section Built.
Context {ep : Etherparse} {laws : EtherparseLaws}.
Context (src dst : Ipv4) (id : Z) (src_mac dst_mac : list Z).
Context (Hsrc : ip_ok src) (Hdst : ip_ok dst) (Hid : in_u16 id) (Hsm : mac_ok src_mac) (Hdm : mac_ok dst_mac).

Definition eth_of : list Z := dst_mac ++ src_mac ++ [8; 0].
Definition header_of (offset : Z) (more : bool) (n : Z) : list Z :=
  let total := wrap16 (20 + n) in
  ip_header total id (flags_word offset more) (ip_header_sum total id (flags_word offset more) src dst) src dst.

Lemma frame_of_eq offset more part :
  frame_of src dst id offset more part src_mac dst_mac = eth_of ++ header_of offset more (len part) ++ part.
Proof. unfold frame_of, frame_head, eth_of, header_of. by rewrite <- !app_assoc. Qed.

Lemma header_of_fields offset more n part :
  0 ≤ n ≤ 65515 →
  let bs := header_of offset more n ++ part in
  len (header_of offset more n) = 20 ∧ byte bs 0 = Some 0x45 ∧ get_be16 bs 2 = Some (20 + n) ∧
  get_be16 bs 6 = Some (flags_word offset more) ∧ byte bs 9 = Some 17 ∧ get_ip bs 12 = Some src ∧ get_ip bs 16 = Some dst.
Proof.
  intros Hn bs. assert (wrap16 (20 + n) = 20 + n) as Hw by (apply Z.mod_small; unfold u16_bound; lia).
  unfold bs, header_of. rewrite Hw. unfold ip_header. generalize (ip_header_sum (20 + n) id (flags_word offset more) src dst). intros c.
  generalize (flags_word offset more). intros fl. generalize (20 + n). intros tl. unfold get_be16, get_ip, byte, to_be16, octets. cbn [app].
  split; [reflexivity|]. split; [reflexivity|]. split; [rewrite <- (be16_to tl) at 3; reflexivity|].
  split; [rewrite <- (be16_to fl) at 3; reflexivity|]. split; [reflexivity|]. by destruct src, dst.
Qed.

Lemma header_of_u8 offset more n : 0 ≤ offset < 65536 → Forall in_u8 eth_of ∧ Forall in_u8 (header_of offset more n).
Proof.
  intros Ho. apply Forall_app. pose proof (UdpFrag.frame_head_u8 src dst id src_mac dst_mac Hsrc Hdst Hid Hsm Hdm offset more n Ho) as Hu.
  unfold frame_head in Hu. unfold eth_of, header_of. by rewrite <- !app_assoc.
Qed.

Lemma more_bit bs offset more b :
  Forall in_u8 bs → 0 ≤ offset < 65536 → get_be16 bs 6 = Some (flags_word offset more) → byte bs 6 = Some b → Z.testbit b 5 = more.
Proof.
  intros Hu Ho Hw Hb. unfold get_be16 in Hw. rewrite Hb in Hw. destruct (byte bs (6 + 1)) as [b7|] eqn:Hb7; [|done]. injection Hw as Hw.
  apply (byte_range _ _ _ Hu) in Hb7. unfold in_u8, u8_bound, be16 in *.
  rewrite <- (UdpFrag.flags_word_more offset more Ho). change 0x2000 with (2 ^ 13). rewrite UdpFrag.land_bit by lia. rewrite <- Hw.
  replace 13 with (5 + 8) by lia. rewrite <- Z.shiftr_spec, Z.shiftr_div_pow2 by lia. f_equal. Z.to_euclidean_division_equations. lia.
Qed.

(** What the parser makes of a built packet. *)
Lemma parse_built offset more part :
  0 ≤ offset < 65536 → offset mod 8 = 0 → len part ≤ 65515 → Forall in_u8 part →
  let packet := header_of offset more (len part) ++ part in
  ∃ f, parse packet = Some (Some (MkIpView packet (V4 src) (V4 dst) 17 part f)) ∧ (f = None ↔ offset = 0 ∧ more = false).
Proof.
  intros Ho H8 Hl Hp packet. pose proof (len_nonneg part) as H0. pose proof (header_of_fields offset more (len part) part ltac:(lia)) as Hfs.
  destruct (header_of_u8 offset more (len part) Ho) as [_ Hhu]. fold packet in Hfs. cbv zeta in Hfs. destruct Hfs as (Hhl & G0 & G2 & G6 & G9 & G12 & G16).
  assert (Forall in_u8 packet) as Hu by (by apply Forall_app).
  assert (len packet = 20 + len part) as Hpl by (unfold packet; rewrite len_app; lia).
  assert (range packet 20 (len packet) = Some part) as Hpart.
  { unfold packet. rewrite <- (range_all (header_of offset more (len part)) part). by rewrite Hhl. }
  assert (range packet 0 (20 + len part) = Some packet) as Hwhole.
  { rewrite <- Hpl. apply (range_all [] packet). }
  unfold parse. rewrite G0. change (Z.shiftr 0x45 4 =? 4) with true. cbv beta iota zeta. unfold parse4.
  destruct (ipv4_accepts packet 0x45 Hu G0) as (h & Hh & Hs); [done|done|rewrite Hpl; change (Z.land 0x45 15) with 5; lia|].
  change (4 * Z.land 0x45 15) with 20 in Hs. rewrite Hh.
  destruct (ipv4_header_spec packet h Hu Hh) as (rest & _ & _ & Ht & _ & (b & Hb & Hm) & (w & Hw & Hoff) & Hpr & Hsr & Hds).
  rewrite G2 in Ht. injection Ht as ->. rewrite G9 in Hpr. injection Hpr as ->. rewrite G12 in Hsr. injection Hsr as ->.
  rewrite G16 in Hds. injection Hds as ->. rewrite G6 in Hw. injection Hw as <-.
  rewrite Hs. rewrite (proj2 (Z.ltb_ge _ _)), (proj2 (Z.ltb_ge _ _)) by lia. rewrite Hwhole, Hpart.
  eexists. split; [done|]. unfold is_fragmenting_payload.
  rewrite Hm, (more_bit packet offset more b Hu Ho G6 Hb), Hoff, Z.mul_comm, (UdpFrag.flags_word_offset offset more Ho H8).
  destruct more; cbn [orb]; [by split; [|intros [_ ?]]|]. destruct (Z.eqb_spec offset 0); cbn [negb]; by split; [|intros [? _]].
Qed.

End Built.

(** ** What the classifier hands to the reassembler *)

Section Feed.
Context {ep : Etherparse} {laws : EtherparseLaws}.

(** The header and the packet of an IP frame. *)
Definition ip_of (frame : list Z) : option (list Z * IpPacketView) :=
  if len frame <? ETH_HEADER_LEN then None
  else
    let! ethertype := get_be16 frame 12 in
    if (ethertype =? 0x0800) || (ethertype =? 0x86dd) then
      let! packet := range frame ETH_HEADER_LEN (len frame) in
      match parse packet with
      | Some (Some ip) =>
          if Bool.eqb (ethertype =? 0x0800) (is_ipv4 (source ip)) then
            let! header := range frame 0 ETH_HEADER_LEN in Some (header, ip)
          else None
      | _ => None
      end
    else None.

(** The frame handed to the reassembler: a fragment, without its padding. *)
Definition feed (frame : list Z) : option (list Z) :=
  match ip_of frame with
  | Some (header, ip) => match fragment ip with Some _ => Some (header ++ bytes ip) | None => None end
  | None => None
  end.

Definition feeds (fs : list (list Z * Z)) : list (list Z * Z) :=
  omap (λ a, match feed a.1 with Some f => Some (f, a.2) | None => None end) fs.

Lemma classify_whole_reassembler c header ip c' : classify_whole c header ip = Some c' → reassembler c' = reassembler c.
Proof.
  unfold classify_whole, queue_tcp, queue_udp, upd. intros Hc.
  repeat (case_match; try (injection Hc as <-; done)); done.
Qed.

(** The frames with an IP packet go to [classify_ip], the others leave the
    reassembler. *)
Lemma classify_frame_ip c frame guest_mac now :
  Forall in_u8 frame →
  match ip_of frame with
  | Some (header, ip) => framed header ip ∧
      ∃ guest_mac', classify_frame c frame guest_mac now =
        match classify_ip CLASSIFY_DEPTH c header ip now with Some c => Some (c, guest_mac') | None => None end
  | None => ∃ c' guest_mac', classify_frame c frame guest_mac now = Some (c', guest_mac') ∧ reassembler c' = reassembler c
  end.
Proof.
  intros Hf. unfold ip_of, classify_frame. destruct (Z.ltb_spec (len frame) ETH_HEADER_LEN) as [|Hl]; [by eexists _, _|].
  unfold ETH_HEADER_LEN in Hl. destruct (range_Some frame 6 12) as (mac & -> & _); [lia|lia|].
  destruct (get_be16_Some frame 12) as (et & -> & _); [done|lia|lia|]. cbv zeta. destruct (Z.eqb_spec et 0x0806) as [->|].
  - cbn. destruct (handle_arp_total (arp c) frame Hf) as [[reply|] ->]; by eexists _, _.
  - destruct (_ || _); [|by eexists _, _].
    destruct (range_Some frame ETH_HEADER_LEN (len frame)) as (packet & Hr & _ & Hpu); [unfold ETH_HEADER_LEN; lia|lia|]. rewrite Hr.
    destruct (ip_parse_total packet (Hpu Hf)) as (p & Hp & _). rewrite Hp. destruct p as [ip|]; [|by eexists _, _].
    destruct (Bool.eqb _ _); [|by eexists _, _].
    destruct (parsed_framed frame packet ip Hf Hl Hr Hp) as (header & -> & Hfr). split; [done|]. by eexists.
Qed.

(** The step of the reassembler in the step of the classifier. *)
Lemma classify_ip_step c header ip now c' :
  routed c → framed header ip → classify_ip CLASSIFY_DEPTH c header ip now = Some c' →
  match fragment ip with
  | Some _ => ∃ out, push_any (reassembler c) (header ++ bytes ip) now = Some (reassembler c', out)
  | None => reassembler c' = reassembler c
  end.
Proof.
  intros Hc Hfr. unfold CLASSIFY_DEPTH. cbn [classify_ip]. destruct (fragment ip) as [f|] eqn:Hf; [|apply classify_whole_reassembler].
  destruct (ro_sane _ Hc) as [h Hs]. destruct (fr_header _ _ Hfr) as [_ Hhu]. destruct (iv_u8 _ (fr_view _ _ Hfr)) as [Hbu _].
  destruct (push_any_step (reassembler c) h (header ++ bytes ip) now Hs) as (r & out & -> & Hs' & Ho); [by apply Forall_app|].
  destruct out as [o|]; [|intros [= <-]; by eexists]. intros Hc'. exists (Some o). do 2 f_equal.
  destruct (came_whole _ _ _ (Ho o eq_refl)) as (Hou & Hol & Hwh).
  destruct (range_Some o ETH_HEADER_LEN (len o)) as (packet & Hr & _ & Hpu); [unfold ETH_HEADER_LEN; lia|lia|]. rewrite Hr in Hc'.
  destruct (ip_parse_total packet (Hpu Hou)) as (p & Hp & _). rewrite Hp in Hc'. destruct p as [ip'|]; [|by injection Hc' as <-].
  destruct (range o 0 ETH_HEADER_LEN); [|done]. rewrite (Hwh packet ip' Hr Hp) in Hc'. by rewrite (classify_whole_reassembler _ _ _ _ Hc').
Qed.

Lemma classify_feed c frame guest_mac now c' guest_mac' :
  routed c → Forall in_u8 frame → classify_frame c frame guest_mac now = Some (c', guest_mac') →
  match feed frame with
  | Some f => ∃ out, push_any (reassembler c) f now = Some (reassembler c', out)
  | None => reassembler c' = reassembler c
  end.
Proof.
  intros Hc Hf Hs. pose proof (classify_frame_ip c frame guest_mac now Hf) as Hi. unfold feed. destruct (ip_of frame) as [[header ip]|].
  - destruct Hi as [Hfr [g Hi]]. rewrite Hi in Hs. destruct (classify_ip _ _ _ _ _) as [c1|] eqn:Hci; [|done]. injection Hs as <- _.
    pose proof (classify_ip_step c header ip now c1 Hc Hfr Hci) as Hst. by destruct (fragment ip).
  - destruct Hi as (c1 & g & Hi & Hr). rewrite Hi in Hs. by injection Hs as <- _.
Qed.

(** A run of the classifier is one of its reassembler on what it is fed. *)
Lemma classify_all_run c guest_mac fs :
  routed c → Forall (λ a, Forall in_u8 a.1) fs →
  ∃ c' guest_mac' outs, classify_all classify_frame c guest_mac fs = Some (c', guest_mac') ∧ routed c' ∧
  gateway_ip c' = gateway_ip c ∧ run_with push_any (reassembler c) (feeds fs) = Some (reassembler c', outs).
Proof.
  intros Hc Hfs. revert c guest_mac Hc. induction Hfs as [|[frame now] fs Hf _ IH]; intros c g Hc; [by eexists _, _, _|].
  cbn [classify_all fst] in *. destruct (classify_frame_spec c frame g now Hc Hf) as (c1 & g1 & Hs & Hc1 & [Hg1 _]). rewrite Hs. cbn [fst snd].
  destruct (IH c1 g1 Hc1) as (c2 & g2 & outs & -> & Hc2 & Hg2 & Hr). pose proof (classify_feed c frame g now c1 g1 Hc Hf Hs) as Hfd.
  unfold feeds. cbn [omap list_omap fst snd]. fold (feeds fs). destruct (feed frame) as [f|].
  - destruct Hfd as [out Hp]. exists c2, g2, (out :: outs). do 2 (split; [done|]). split; [congruence|]. cbn [run_with]. by rewrite Hp, Hr.
  - rewrite Hfd in Hr. exists c2, g2, outs. do 2 (split; [done|]). split; [congruence|done].
Qed.

(** ** The reassembled datagram *)

Context (src dst : Ipv4) (id : Z) (src_mac dst_mac : list Z).
Context (Hsrc : ip_ok src) (Hdst : ip_ok dst) (Hid : in_u16 id) (Hsm : mac_ok src_mac) (Hdm : mac_ok dst_mac).
Context (src_port dst_port : Z) (payload : list Z).
Context (Hsp : in_u16 src_port) (Hdp : in_u16 dst_port) (Hpl : Forall in_u8 payload) (Hl : len payload ≤ MAX_UDP_PAYLOAD).

Local Notation datagram := (datagram_of src dst src_port dst_port payload).

Lemma eth_of_fields rest :
  length (eth_of src_mac dst_mac) = 14%nat ∧ get_be16 (eth_of src_mac dst_mac ++ rest) 12 = Some 0x0800.
Proof.
  destruct Hsm as [Hs _], Hdm as [Hd _]. unfold eth_of. split; [rewrite !length_app, Hs, Hd; done|].
  unfold get_be16, byte. change (Z.to_nat 12) with (6 + (6 + 0))%nat. change (Z.to_nat (12 + 1)) with (6 + (6 + 1))%nat.
  rewrite <- !app_assoc, !(lookup_app_r dst_mac) by lia. rewrite Hd, !(lookup_app_r src_mac) by lia. by rewrite Hs.
Qed.

Lemma datagram_fields : get_be16 datagram 4 = Some (8 + len payload) ∧ get_be16 datagram 2 = Some dst_port.
Proof.
  unfold datagram_of. assert (wrap16 (8 + len payload) = 8 + len payload) as Hw.
  { apply Z.mod_small. pose proof (len_nonneg payload). unfold MAX_UDP_PAYLOAD, u16_bound in *. lia. }
  rewrite Hw. generalize (udp_checksum src dst (udp_header src_port dst_port (8 + len payload) 0 ++ payload)). intros c.
  generalize (8 + len payload). intros n. unfold udp_header, to_be16, get_be16, byte. cbn [app].
  split; [rewrite <- (be16_to n) at 3; reflexivity|rewrite <- (be16_to dst_port) at 3; reflexivity].
Qed.

(** The handler a datagram is for. *)
Definition handler (gateway : Ipv4) : InterceptedKind :=
  if dst_port =? 67 then Dhcp else if (dst_port =? 53) && bool_decide (dst = gateway) then Dns else Udp.

Lemma handler_eq gateway ip : destination ip = V4 dst → udp_kind gateway ip dst_port = handler gateway.
Proof.
  intros Hi. unfold udp_kind, handler. rewrite Hi. cbn [is_ipv4]. rewrite andb_true_r. destruct (_ =? 67); [done|].
  replace (bool_decide (V4 dst = V4 gateway)) with (bool_decide (dst = gateway)); [done|]. apply bool_decide_ext. naive_solver.
Qed.

Lemma range_header header rest : length header = 14%nat → range (header ++ rest) 0 ETH_HEADER_LEN = Some header.
Proof.
  intros Hh. change ETH_HEADER_LEN with (Z.of_nat 14). rewrite <- Hh, range_app_l by (unfold len; lia). apply (range_all [] header).
Qed.

Lemma classify_reassembled c header ip f now r :
  fragment ip = Some f →
  push_any (reassembler c) (header ++ bytes ip) now = Some (r, Some (frame_of src dst id 0 false datagram src_mac dst_mac)) →
  classify_ip CLASSIFY_DEPTH c header ip now =
  Some (c <| reassembler := r |>
    <| intercepted := intercepted c ++ [(frame_of src dst id 0 false datagram src_mac dst_mac, handler (gateway_ip c))] |>).
Proof.
  intros Hf Hp. unfold CLASSIFY_DEPTH. cbn [classify_ip]. rewrite Hf, Hp. rewrite frame_of_eq.
  pose proof (datagram_len src dst src_port dst_port payload) as Hdl. pose proof (len_nonneg payload) as H0.
  assert (len datagram ≤ 65515) as Hd by (unfold MAX_UDP_PAYLOAD in Hl; lia).
  destruct (parse_built src dst id src_mac dst_mac Hsrc Hdst Hid Hsm Hdm 0 false datagram) as (g & Hpk & Hg);
    [lia|done|done|by apply UdpFrag.datagram_u8|].
  set (packet := header_of src dst id 0 false (len datagram) ++ datagram) in *.
  destruct (eth_of_fields packet) as [Hel _]. rewrite range_body by done. rewrite Hpk. cbv beta iota.
  rewrite range_header by done.
  assert (g = None) as -> by (by apply Hg). cbn [fragment]. unfold classify_whole, PROTO_TCP, PROTO_UDP. cbn [protocol Z.eqb Pos.eqb].
  unfold queue_udp, transport. cbn [fragment ip_payload bytes]. destruct datagram_fields as [-> ->].
  rewrite !(proj2 (Z.ltb_ge _ _)) by lia. cbn [orb]. rewrite handler_eq by done. done.
Qed.

Lemma ip_of_built offset more part :
  0 ≤ offset < 65536 → offset mod 8 = 0 → len part ≤ 65515 → Forall in_u8 part →
  ∃ ip, ip_of (frame_of src dst id offset more part src_mac dst_mac) = Some (eth_of src_mac dst_mac, ip) ∧
  frame_of src dst id offset more part src_mac dst_mac = eth_of src_mac dst_mac ++ bytes ip ∧
  (fragment ip = None ↔ offset = 0 ∧ more = false).
Proof.
  intros Ho H8 Hlp Hp. destruct (parse_built src dst id src_mac dst_mac Hsrc Hdst Hid Hsm Hdm offset more part Ho H8 Hlp Hp) as (f & Hpk & Hf).
  rewrite frame_of_eq. set (packet := header_of src dst id offset more (len part) ++ part) in *.
  destruct (eth_of_fields packet) as [Hel He]. exists (MkIpView packet (V4 src) (V4 dst) 17 part f). split; [|done]. unfold ip_of.
  rewrite (proj2 (Z.ltb_ge _ _)) by (unfold len, ETH_HEADER_LEN; rewrite length_app; lia). rewrite He. cbv beta iota. cbn [Z.eqb Pos.eqb orb].
  rewrite range_body, Hpk by done. cbn [is_ipv4 source Bool.eqb]. by rewrite range_header.
Qed.

End Feed.

(** ** Arrivals *)

Section Arrivals.
Context {ep : Etherparse} {laws : EtherparseLaws}.

(** The frames of a datagram, padded or not, and what arrives while they do. *)
Definition arrives_at (frames : list (list Z)) (k : Frag.Key) (t0 : Z) (a : list Z * Z) : Prop :=
  Forall in_u8 a.1 ∧ a.2 < t0 + REASSEMBLY_TIMEOUT ∧
  ∀ f, feed a.1 = Some f → f ∈ frames ∨ is_v6 f = true ∨ FragProps.view_of k (f, a.2) = None.

Lemma feed_u8 frame f : Forall in_u8 frame → feed frame = Some f → Forall in_u8 f.
Proof.
  intros Hf. pose proof (classify_frame_ip (new_classifier (MkIp 0 0 0 0)) frame None 0 Hf) as Hi. unfold feed.
  destruct (ip_of frame) as [[header ip]|]; [|done]. destruct Hi as [Hfr _]. destruct (fragment ip); [|done]. intros [= <-].
  apply Forall_app. split; [apply (fr_header _ _ Hfr)|apply (iv_u8 _ (fr_view _ _ Hfr))].
Qed.

Lemma arrives_feeds frames k t0 fs : Forall (arrives_at frames k t0) fs → Forall (arrives_any frames k t0) (feeds fs).
Proof.
  intros Hfs. apply Forall_forall. intros a (b & Hb & Ha)%list_elem_of_omap. rewrite Forall_forall in Hfs.
  destruct (Hfs b Hb) as (Hu & Ht & Hv). destruct (feed b.1) as [f|] eqn:Hf; [|done]. injection Ha as <-.
  split; [by apply (feed_u8 b.1)|]. split; [done|]. by apply Hv.
Qed.

Lemma feeds_app fs gs : feeds (fs ++ gs) = feeds fs ++ feeds gs.
Proof. apply omap_app. Qed.

(** The classifier hands the frames of a fragmented datagram on as they are. *)
Lemma feed_built id src dst src_port dst_port payload src_mac dst_mac mtu frames id' f :
  ip_ok src → ip_ok dst → in_u16 id → in_u16 src_port → in_u16 dst_port → Forall in_u8 payload →
  mac_ok src_mac → mac_ok dst_mac → mtu < 2 ^ 64 →
  build_udp_ip_ethernet id src dst src_port dst_port payload src_mac dst_mac mtu = Some (frames, id') →
  (1 < length frames)%nat → f ∈ frames → feed f = Some f.
Proof.
  intros Hsrc Hdst Hid Hsp Hdp Hp Hsm Hdm Hmtu Hb Hn Hf.
  assert (36 ≤ mtu ∧ len payload ≤ MAX_UDP_PAYLOAD) as [Hm Hl] by (by eapply UdpFrag.built_bounds).
  pose proof (UdpFrag.built_large _ _ _ _ _ _ _ _ _ _ _ (proj1 Hsm) (proj1 Hdm) Hb Hn) as Hbig.
  rewrite build_udp_eq, (proj2 (Z.leb_gt _ _)) in Hb by (apply Hsm || apply Hdm || done).
  injection Hb as <- <-. pose proof (datagram_len src dst src_port dst_port payload) as Hdl.
  pose proof (UdpFrag.datagram_u8 src dst _ _ payload Hsp Hdp Hp) as Hdu. set (dg := datagram_of src dst src_port dst_port payload) in *.
  destruct (UdpFrag.chunk_bounds mtu) as [H8 Hcb]; [lia|]. unfold MAX_UDP_PAYLOAD in Hl.
  apply list_elem_of_lookup in Hf as [i [Hi ->]%UdpFrag.frames_lookup]; [|lia].
  pose proof (UdpFrag.piece_len dg mtu ltac:(lia) i Hi) as Hpl. cbn [UdpFrag.uview Frag.v_offset Frag.v_more].
  set (part := UdpFrag.piece dg mtu i) in *. set (more := _ <? _).
  destruct (ip_of_built src dst id src_mac dst_mac Hsrc Hdst Hid Hsm Hdm (Z.of_nat i * UdpFrag.chunk mtu) more part) as (ip & Hip & He & Hfr).
  - lia.
  - by rewrite Z.mul_mod, H8, Z.mul_0_r by lia.
  - lia.
  - by apply Forall_take, Forall_drop.
  - unfold feed. rewrite Hip, <- He. destruct (fragment ip); [done|]. destruct (proj1 Hfr eq_refl) as [Hz Hmore]. exfalso.
    unfold more in Hmore. apply Z.ltb_ge in Hmore. rewrite Hz, Hpl in Hmore. lia.
Qed.

(** The step in which the reassembler yields the datagram. *)
Lemma yield_intercepted c frame guest_mac now f id src dst src_port dst_port payload src_mac dst_mac r :
  ip_ok src → ip_ok dst → in_u16 id → in_u16 src_port → in_u16 dst_port → Forall in_u8 payload → len payload ≤ MAX_UDP_PAYLOAD →
  mac_ok src_mac → mac_ok dst_mac → Forall in_u8 frame → feed frame = Some f →
  let out := frame_of src dst id 0 false (datagram_of src dst src_port dst_port payload) src_mac dst_mac in
  push_any (reassembler c) f now = Some (r, Some out) →
  ∃ guest_mac', classify_frame c frame guest_mac now =
  Some (c <| reassembler := r |> <| intercepted := intercepted c ++ [(out, handler dst dst_port (gateway_ip c))] |>, guest_mac').
Proof.
  intros Hsrc Hdst Hid Hsp Hdp Hp Hl Hsm Hdm Hu Hf out Hpu. pose proof (classify_frame_ip c frame guest_mac now Hu) as Hi. unfold feed in Hf.
  destruct (ip_of frame) as [[header ip]|]; [|done]. destruct (fragment ip) as [g|] eqn:Hg; [|done]. injection Hf as <-.
  destruct Hi as [Hfr [mac Hi]]. exists mac. rewrite Hi.
  by rewrite (classify_reassembled src dst id src_mac dst_mac Hsrc Hdst Hid Hsm Hdm src_port dst_port payload Hsp Hdp Hp Hl c header ip g now r Hg Hpu).
Qed.

(** C22: A UDP datagram larger than the MTU, sent to the classifier as the frames the
    builder splits it into, in any order, repeated, padded, and between any other
    frames within three seconds: the frame that completes it makes the classifier
    intercept exactly the frame an MTU large enough would have given, for the DHCP
    handler if it is for port 67, the DNS handler if it is for port 53 of the gateway,
    and the UDP handler otherwise; no other queue changes. *)
Theorem datagram_is_intercepted gateway c guest_mac id src dst src_port dst_port payload src_mac dst_mac mtu frames id'
    first f0 t0 fs frame now :
  ip_ok src → ip_ok dst → in_u16 id → in_u16 src_port → in_u16 dst_port → Forall in_u8 payload →
  mac_ok src_mac → mac_ok dst_mac → mtu < 2 ^ 64 →
  build_udp_ip_ethernet id src dst src_port dst_port payload src_mac dst_mac mtu = Some (frames, id') →
  (1 < length frames ≤ 64)%nat → reach gateway c →
  entries (reassembler c) !! (src, dst, 17, id) = None → (size (entries (reassembler c)) < 32)%nat →
  Forall (arrives_at frames (src, dst, 17, id) t0) ((first, t0) :: fs ++ [(frame, now)]) →
  feed first = Some f0 → f0 ∈ frames →
  (∀ f, f ∈ frames → f ∈ (feeds ((first, t0) :: fs ++ [(frame, now)])).*1) →
  (∃ f, f ∈ frames ∧ f ∉ (feeds ((first, t0) :: fs)).*1) →
  (∀ f, f ∈ frames → feed f = Some f) ∧
  ∃ c1 guest_mac1 c2 guest_mac2 out, classify_all classify_frame c guest_mac ((first, t0) :: fs) = Some (c1, guest_mac1) ∧
  classify_frame c1 frame guest_mac1 now = Some (c2, guest_mac2) ∧
  build_udp_ip_ethernet id src dst src_port dst_port payload src_mac dst_mac (28 + len payload) = Some ([out], id') ∧
  intercepted c2 = intercepted c1 ++ [(out, if dst_port =? 67 then Dhcp
    else if (dst_port =? 53) && bool_decide (dst = gateway) then Dns else Udp)] ∧
  rx_queue c2 = rx_queue c1 ∧ gated_syns c2 = gated_syns c1 ∧ pending_arp_replies c2 = pending_arp_replies c1.
Proof.
  intros Hsrc Hdst Hid Hsp Hdp Hp Hsm Hdm Hmtu Hb Hn Hreach Hk Hsize Har Hfirst H0 Hall [f [Hf Hfno]].
  assert (∀ g, g ∈ frames → feed g = Some g) as Hfeed 
    by (intros g Hg; by apply (feed_built id src dst src_port dst_port payload src_mac dst_mac mtu frames id' g Hsrc Hdst Hid Hsp Hdp Hp Hsm Hdm Hmtu Hb (proj1 Hn))).
  split; [done|].
  destruct (reach_routed gateway c Hreach) as [Hc Hgw]. destruct (ro_sane _ Hc) as [h Hs].
  assert (Forall (λ a, Forall in_u8 a.1) ((first, t0) :: fs ++ [(frame, now)])) as Hu by (eapply Forall_impl; [exact Har|]; by intros a (? & _)).
  rewrite app_comm_cons in Hu. apply Forall_app in Hu as [Hu Huf]. apply (proj1 (Forall_singleton _ _)) in Huf. cbn [fst] in Huf.
  destruct (classify_all_run c guest_mac ((first, t0) :: fs) Hc Hu) as (c1 & g1 & outs & Hall1 & Hc1 & Hg1 & Hr1).
  assert (∀ l, feeds ((first, t0) :: l) = (f0, t0) :: feeds l) as Hcons by (intros l; unfold feeds; cbn; by rewrite Hfirst).
  assert (feed frame = Some f) as Hlast.
  { specialize (Hall f Hf). rewrite app_comm_cons, feeds_app, fmap_app in Hall. apply elem_of_app in Hall as [?|H1]; [done|].
    unfold feeds in H1. cbn in H1. destruct (feed frame) as [g|]; [|by apply not_elem_of_nil in H1].
    apply list_elem_of_singleton in H1. by rewrite H1. }
  assert (feeds ((first, t0) :: fs ++ [(frame, now)]) = (f0, t0) :: feeds fs ++ [(f, now)]) as Hfull.
  { rewrite Hcons, feeds_app. f_equal. f_equal. unfold feeds. cbn. by rewrite Hlast. }
  destruct (udp_fragments_reassemble id src dst src_port dst_port payload src_mac dst_mac mtu frames id'
    (reassembler c) h f0 t0 (feeds fs) f now) as (_ & r1 & outs' & r2 & out & Hr & Hpu & Hout); try done.
  - rewrite <- Hfull. by apply arrives_feeds.
  - intros g Hg. rewrite <- Hfull. by apply Hall.
  - exists f. split; [done|]. by rewrite <- Hcons.
  - rewrite Hcons, Hr in Hr1. injection Hr1 as -> ->.
    destruct (UdpFrag.built_bounds _ _ _ _ _ _ _ _ _ _ _ Hb (proj1 Hn)) as [Hm Hl]. pose proof (len_nonneg payload).
    pose proof (UdpFrag.built_large _ _ _ _ _ _ _ _ _ _ _ (proj1 Hsm) (proj1 Hdm) Hb (proj1 Hn)) as Hbig.
    assert (out = frame_of src dst id 0 false (datagram_of src dst src_port dst_port payload) src_mac dst_mac) as ->.
    { rewrite build_udp_eq, Z.leb_refl in Hout by (apply Hsm || apply Hdm || lia || done). by injection Hout as <-. }
    destruct (yield_intercepted c1 frame g1 now f id src dst src_port dst_port payload src_mac dst_mac r2) as [g2 Hc2]; try done.
    eexists c1, g1, _, g2, _. split; [done|]. split; [exact Hc2|]. split; [exact Hout|]. rewrite Hg1, Hgw. done.
Qed.

End Arrivals.

(** ** Example *)

#[local] Existing Instance ex_etherparse.
#[local] Existing Instance ex_laws.

(** The last frame padded, the last one again, the first, a connection opened, a
    fragment of version 6, and the middle one. *)
Definition ex_before : list (list Z * Z) :=
  [(ex_frame 2, 10); (ex_frame 0, 20); (ex_tcp_frame 0x02, 30); (ex_first, 35)].

Lemma datagram_is_intercepted_witness :
  let src := MkIp 10 0 2 2 in
  let dst := MkIp 93 184 216 34 in
  ∃ c1 guest_mac1 c2 guest_mac2 out,
  classify_all classify_frame (new_classifier ex_gateway) None ((ex_frame 2 ++ [0; 0], 0) :: ex_before) = Some (c1, guest_mac1) ∧
  classify_frame c1 (ex_frame 1) guest_mac1 40 = Some (c2, guest_mac2) ∧
  build_udp_ip_ethernet 7 src dst 4000 53 (seqZ 0 40) (replicate 6 1) (replicate 6 2) 68 = Some ([out], 8) ∧
  intercepted c2 = intercepted c1 ++ [(out, Udp)].
Proof.
  cbv zeta. destruct (datagram_is_intercepted ex_gateway (new_classifier ex_gateway) None 7 (MkIp 10 0 2 2) (MkIp 93 184 216 34) 4000 53
    (seqZ 0 40) (replicate 6 1) (replicate 6 2) 36 ex_frames 8 (ex_frame 2 ++ [0; 0]) (ex_frame 2) 0 ex_before (ex_frame 1) 40)
    as (_ & c1 & g1 & c2 & g2 & out & H1 & H2 & H3 & H4 & _).
  1,2: repeat split; vm_compute; congruence.
  1,2,3: split; vm_compute; congruence.
  1: apply (bool_decide_unpack _); vm_compute; exact I.
  1,2: split; [reflexivity|apply (bool_decide_unpack _); vm_compute; exact I].
  1,2: vm_compute; reflexivity.
  1: split; apply (bool_decide_unpack _); vm_compute; exact I.
  1: apply reach_new.
  1: reflexivity.
  1: apply (bool_decide_unpack _); vm_compute; exact I.
  1: { unfold ex_before. cbn [app]. repeat (apply Forall_cons; split); try apply Forall_nil_2;
       (split; [apply (bool_decide_unpack _); vm_compute; exact I|split; [vm_compute; reflexivity|]]);
       intros f Hf; vm_compute in Hf; try discriminate Hf; injection Hf as <-;
       first [left; apply (bool_decide_unpack _); vm_compute; exact I|right; left; vm_compute; reflexivity]. }
  1: vm_compute; reflexivity.
  1: apply (bool_decide_unpack _); vm_compute; exact I.
  1: apply Forall_forall; apply (bool_decide_unpack _); vm_compute; exact I.
  1: exists (ex_frame 1); split; apply (bool_decide_unpack _); vm_compute; exact I.
  exists c1, g1, c2, g2, out. split; [exact H1|]. split; [exact H2|]. split; [exact H3|exact H4].
Defined.

End ClassifierUdp.
