(* ===== verification/DhcpPacket.v ===== *)
(** * DHCP messages and configuration

    [src/virt/arcbox-dhcp/src/packet.rs] and [config.rs]: the wire format of the
    messages and the configuration whose values the replies carry. A [String] is
    the list of its bytes; durations are nanoseconds. *)

From Stdlib Require Import ZArith Lia.
From stdpp Require Import base numbers list strings.
From S2P Require Import Prelude Bits Checksum Bytes.

Open Scope Z_scope.

Module Dhcp.

(** ** Addresses as integers *)

(** [u32::from(ip)] and [Ipv4Addr::from(u32)]. *)
Definition u32_of (ip : Ipv4) : Z := ip_value ip.
Definition ip_of_u32 (v : Z) : Ipv4 :=
  MkIp (v / 16777216) (v / 65536 mod 256) (v / 256 mod 256) (v mod 256).

Definition UNSPECIFIED : Ipv4 := MkIp 0 0 0 0.
Definition BROADCAST : Ipv4 := MkIp 255 255 255 255.

(** ** Errors *)

Inductive DhcpError := Protocol (msg : string) | PoolExhausted.

(** ** Configuration *)

Record DhcpConfig := MkConfig {
  server_ip : Ipv4;
  netmask : Ipv4;
  gateway : Ipv4;
  dns_servers : list Ipv4;
  lease_duration : Z;
  pool_start : Ipv4;
  pool_end : Ipv4;
  domain_name : option (list Z)
}.
#[export] Instance eta_DhcpConfig : Eta DhcpConfig := {|
  eta c := MkConfig (server_ip c) (netmask c) (gateway c) (dns_servers c) (lease_duration c) (pool_start c)
    (pool_end c) (domain_name c);
  eta_ok := ltac:(by intros [])
|}.

(** Twenty-four hours. *)
Definition DEFAULT_LEASE_DURATION : Z := 86400 * 1000000000.

Definition saturating_add32 (a b : Z) : Z := Z.min (a + b) (u32_bound - 1).

Definition new_config (server_ip netmask : Ipv4) : DhcpConfig :=
  let netmask_u32 := u32_of netmask in
  let network := Z.land (u32_of server_ip) netmask_u32 in
  let broadcast := Z.lor network (not32 netmask_u32) in
  let server_u32 := u32_of server_ip in
  let host_min := saturating_add32 network 1 in
  let host_max := saturating_sub broadcast 1 in
  let pool_start_u32 := if host_min =? server_u32 then saturating_add32 host_min 1 else host_min in
  let pool_end_u32 := Z.min (saturating_add32 pool_start_u32 252) host_max in
  MkConfig server_ip netmask server_ip [server_ip] DEFAULT_LEASE_DURATION (ip_of_u32 pool_start_u32)
    (ip_of_u32 pool_end_u32) None.

Definition with_gateway (c : DhcpConfig) (g : Ipv4) : DhcpConfig := c <| gateway := g |>.
Definition with_dns_servers (c : DhcpConfig) (servers : list Ipv4) : DhcpConfig := c <| dns_servers := servers |>.
Definition with_lease_duration (c : DhcpConfig) (d : Z) : DhcpConfig := c <| lease_duration := d |>.
Definition with_pool_range (c : DhcpConfig) (s e : Ipv4) : DhcpConfig := c <| pool_start := s |> <| pool_end := e |>.
Definition with_domain_name (c : DhcpConfig) (name : list Z) : DhcpConfig := c <| domain_name := Some name |>.

(** ** Messages *)

Inductive DhcpMessageType := Discover | Offer | Request | Decline | Ack | Nak | Release | Inform.
#[export] Instance DhcpMessageType_eq_dec : EqDecision DhcpMessageType.
Proof. solve_decision. Defined.

(** [try_from(value).ok()] and [as u8]. *)
Definition message_type_of (value : Z) : option DhcpMessageType :=
  match value with
  | 1 => Some Discover | 2 => Some Offer | 3 => Some Request | 4 => Some Decline
  | 5 => Some Ack | 6 => Some Nak | 7 => Some Release | 8 => Some Inform
  | _ => None
  end.
Definition message_type_u8 (t : DhcpMessageType) : Z :=
  match t with
  | Discover => 1 | Offer => 2 | Request => 3 | Decline => 4 | Ack => 5 | Nak => 6 | Release => 7 | Inform => 8
  end.

Record DhcpPacket := MkPacket {
  op : Z;
  htype : Z;
  hlen : Z;
  hops : Z;
  xid : Z;
  secs : Z;
  flags : Z;
  ciaddr : Ipv4;
  yiaddr : Ipv4;
  siaddr : Ipv4;
  giaddr : Ipv4;
  chaddr : list Z;
  message_type : option DhcpMessageType;
  requested_ip : option Ipv4;
  hostname : option (list Z)
}.
#[export] Instance eta_DhcpPacket : Eta DhcpPacket := {|
  eta p := MkPacket (op p) (htype p) (hlen p) (hops p) (xid p) (secs p) (flags p) (ciaddr p) (yiaddr p) (siaddr p)
    (giaddr p) (chaddr p) (message_type p) (requested_ip p) (hostname p);
  eta_ok := ltac:(by intros [])
|}.

Definition MAGIC_COOKIE : list Z := [99; 130; 83; 99].
Definition MIN_SIZE : Z := 236.

Definition new_packet : DhcpPacket :=
  MkPacket 0 1 6 0 0 0 0 UNSPECIFIED UNSPECIFIED UNSPECIFIED UNSPECIFIED (replicate 16 0) None None None.

(** [String::from_utf8(bytes).ok()]: well-formed UTF-8, without overlong forms
    and surrogates. *)
Definition cont (b : Z) : bool := (0x80 <=? b) && (b <=? 0xBF).
Fixpoint utf8 (l : list Z) : bool :=
  match l with
  | [] => true
  | a :: l =>
      if a <? 0x80 then utf8 l
      else match l with
      | b :: l =>
          if (0xC2 <=? a) && (a <=? 0xDF) then cont b && utf8 l
          else match l with
          | c :: l =>
              if (0xE0 <=? a) && (a <=? 0xEF) then
                ((if a =? 0xE0 then 0xA0 else 0x80) <=? b) && (b <=? (if a =? 0xED then 0x9F else 0xBF)) &&
                cont c && utf8 l
              else match l with
              | d :: l =>
                  (0xF0 <=? a) && (a <=? 0xF4) && ((if a =? 0xF0 then 0x90 else 0x80) <=? b) &&
                  (b <=? (if a =? 0xF4 then 0x8F else 0xBF)) && cont c && cont d && utf8 l
              | [] => false
              end
          | [] => false
          end
      | [] => false
      end
  end.
Definition from_utf8 (bytes : list Z) : option (list Z) := if utf8 bytes then Some bytes else None.

(** The [match] on the code of one option. *)
Definition parse_option (packet : DhcpPacket) (option_code : Z) (option_data : list Z) : option DhcpPacket :=
  if (option_code =? 53) && negb (len option_data =? 0) then
    let! t := byte option_data 0 in Some (packet <| message_type := message_type_of t |>)
  else if (option_code =? 50) && (4 <=? len option_data) then
    let! ip := get_ip option_data 0 in Some (packet <| requested_ip := Some ip |>)
  else if option_code =? 12 then Some (packet <| hostname := from_utf8 option_data |>)
  else Some packet.

(** The loop of [parse_options] from index [i]. Each iteration moves [i] on, so
    as many as there are bytes are enough ([options_loop_fuel]). *)
Fixpoint options_loop (fuel : nat) (packet : DhcpPacket) (data : list Z) (i : Z) : option DhcpPacket :=
  match fuel with
  | O => Some packet
  | S fuel =>
      if len data <=? i then Some packet else
      let! option_code := byte data i in
      if option_code =? 255 then Some packet else
      if option_code =? 0 then options_loop fuel packet data (i + 1) else
      if len data <=? i + 1 then Some packet else
      let! option_len := byte data (i + 1) in
      if len data <? i + 2 + option_len then Some packet else
      let! option_data := range data (i + 2) (i + 2 + option_len) in
      let! packet := parse_option packet option_code option_data in
      options_loop fuel packet data (i + 2 + option_len)
  end.
Definition parse_options (packet : DhcpPacket) (data : list Z) : option DhcpPacket :=
  options_loop (length data) packet data 0.

Definition parse (data : list Z) : option (result DhcpError DhcpPacket) :=
  if len data <? MIN_SIZE then Some (Err (Protocol "packet too short")) else
  let! op := byte data 0 in
  let! htype := byte data 1 in
  let! hlen := byte data 2 in
  let! hops := byte data 3 in
  let! xid := get_be32 data 4 in
  let! secs := get_be16 data 8 in
  let! flags := get_be16 data 10 in
  let! ciaddr := get_ip data 12 in
  let! yiaddr := get_ip data 16 in
  let! siaddr := get_ip data 20 in
  let! giaddr := get_ip data 24 in
  let! chaddr := range data 28 44 in
  let packet := MkPacket op htype hlen hops xid secs flags ciaddr yiaddr siaddr giaddr chaddr
    (message_type new_packet) (requested_ip new_packet) (hostname new_packet) in
  let options_start := 236 in
  if options_start + 4 <? len data then
    let! cookie := range data options_start (options_start + 4) in
    if bool_decide (cookie = MAGIC_COOKIE) then
      let! options := range data (options_start + 4) (len data) in
      let! packet := parse_options packet options in Some (Ok packet)
    else Some (Ok packet)
  else Some (Ok packet).

(** ** Serialization *)

(** An option of four bytes of data at [offset]: the buffer and the offset after. *)
Definition put_option4 (data : list Z) (offset code : Z) (bytes : list Z) : option (list Z * Z) :=
  let! data := put data offset ([code; 4] ++ bytes) in Some (data, offset + 6).

(** The addresses of the DNS option, from [offset]. *)
Fixpoint put_dns (data : list Z) (offset : Z) (servers : list Ipv4) : option (list Z * Z) :=
  match servers with
  | dns :: servers => let! data := put data offset (octets dns) in put_dns data (offset + 4) servers
  | [] => Some (data, offset)
  end.

Definition put_dns_option (data : list Z) (offset : Z) (servers : list Ipv4) : option (list Z * Z) :=
  if bool_decide (servers = []) then Some (data, offset)
  else
    let count := Z.min (Z.of_nat (length servers)) 63 in
    let needed := offset + 2 + count * 4 + 1 in
    let data := if len data <? needed then data ++ replicate (Z.to_nat (needed - len data)) 0 else data in
    let! data := put data offset [6; wrap8 (count * 4)] in
    put_dns data (offset + 2) (take (Z.to_nat count) servers).

Notation "'let2!' d o ':=' a 'in' b" := (match a with Some (d, o) => b | None => None end)
  (at level 10, d name, o name, a at level 100, b at level 200) : panic_scope.

(** The fixed header and the magic cookie, in a buffer of 576 bytes. *)
Definition serialize_head (p : DhcpPacket) : option (list Z) :=
  let data := replicate 576 0 in
  let! data := put data 0 [op p] in
  let! data := put data 1 [htype p] in
  let! data := put data 2 [hlen p] in
  let! data := put data 3 [hops p] in
  let! data := put data 4 (to_be32 (xid p)) in
  let! data := put data 8 (to_be16 (secs p)) in
  let! data := put data 10 (to_be16 (flags p)) in
  let! data := put data 12 (octets (ciaddr p)) in
  let! data := put data 16 (octets (yiaddr p)) in
  let! data := put data 20 (octets (siaddr p)) in
  let! data := put data 24 (octets (giaddr p)) in
  let! data := put data 28 (chaddr p) in
  put data 236 MAGIC_COOKIE.

Definition serialize (p : DhcpPacket) (config : DhcpConfig) : option (list Z) :=
  let! data := serialize_head p in
  let offset := 236 in
  let offset := offset + 4 in
  let2! data offset :=
    match message_type p with
    | Some msg_type => let! data := put data offset [53; 1; message_type_u8 msg_type] in Some (data, offset + 3)
    | None => Some (data, offset)
    end in
  let2! data offset := put_option4 data offset 1 (octets (netmask config)) in
  let2! data offset := put_option4 data offset 3 (octets (gateway config)) in
  let lease_secs := wrap32 (lease_duration config / 1000000000) in
  let2! data offset := put_option4 data offset 51 (to_be32 lease_secs) in
  let2! data offset := put_option4 data offset 54 (octets (server_ip config)) in
  let2! data offset := put_dns_option data offset (dns_servers config) in
  let! data := put data offset [255] in
  Some (take (Z.to_nat (offset + 1)) data).

Definition client_mac (p : DhcpPacket) : list Z := take 6 (chaddr p).

(** ** Addresses and their integers *)

Lemma u32_of_range ip : ip_ok ip → in_u32 (u32_of ip).
Proof.
  intros (? & ? & ? & ?). unfold in_u8, u8_bound in *. unfold u32_of, ip_value, be32, be16, in_u32, u32_bound. lia.
Qed.

Lemma ip_of_u32_ok v : in_u32 v → ip_ok (ip_of_u32 v).
Proof.
  unfold in_u32, u32_bound. intros Hv. unfold ip_ok, ip_of_u32, in_u8, u8_bound. cbn [ip0 ip1 ip2 ip3].
  repeat split; Z.to_euclidean_division_equations; lia.
Qed.

Lemma u32_of_ip v : u32_of (ip_of_u32 v) = v.
Proof.
  unfold u32_of, ip_value, be32, be16, ip_of_u32. cbn [ip0 ip1 ip2 ip3]. Z.to_euclidean_division_equations; lia.
Qed.

Lemma ip_of_u32_of ip : ip_ok ip → ip_of_u32 (u32_of ip) = ip.
Proof.
  destruct ip as [a b c d]. intros (? & ? & ? & ?). unfold in_u8, u8_bound in *. cbn [ip0 ip1 ip2 ip3] in *.
  unfold u32_of, ip_value, be32, be16, ip_of_u32. cbn [ip0 ip1 ip2 ip3]. f_equal; Z.to_euclidean_division_equations; lia.
Qed.

Lemma u32_of_inj a b : ip_ok a → ip_ok b → u32_of a = u32_of b → a = b.
Proof. intros Ha Hb He. by rewrite <- (ip_of_u32_of a Ha), <- (ip_of_u32_of b Hb), He. Qed.

(** ** Parsing arbitrary bytes *)

Record packet_ok (p : DhcpPacket) : Prop := {
  po_op : in_u8 (op p); po_htype : in_u8 (htype p); po_hlen : in_u8 (hlen p); po_hops : in_u8 (hops p);
  po_xid : in_u32 (xid p); po_secs : in_u16 (secs p); po_flags : in_u16 (flags p);
  po_ciaddr : ip_ok (ciaddr p); po_yiaddr : ip_ok (yiaddr p); po_siaddr : ip_ok (siaddr p); po_giaddr : ip_ok (giaddr p);
  po_chaddr : length (chaddr p) = 16%nat; po_mac : Forall in_u8 (chaddr p);
  po_requested ip : requested_ip p = Some ip → ip_ok ip
}.

Lemma parse_option_total p code d :
  packet_ok p → Forall in_u8 d → ∃ p', parse_option p code d = Some p' ∧ packet_ok p'.
Proof.
  intros Hp Hd. unfold parse_option. destruct ((code =? 53) && _) eqn:H53.
  - apply andb_true_iff in H53 as [_ Hl%negb_true_iff%Z.eqb_neq]. pose proof (len_nonneg d).
    destruct (byte_Some d 0 Hd) as (t & -> & _); [lia|]. eexists. split; [done|]. by destruct Hp; split.
  - destruct ((code =? 50) && _) eqn:H50.
    + apply andb_true_iff in H50 as [_ Hl%Z.leb_le]. destruct (get_ip_Some d 0 Hd) as (ip & -> & Hip); [lia|lia|].
      eexists. split; [done|]. destruct Hp; split; try done. by intros ip' [= <-].
    + case_match; [|by eexists]. eexists. split; [done|]. by destruct Hp; split.
Qed.

Lemma options_loop_total fuel p data i :
  packet_ok p → Forall in_u8 data → 0 ≤ i → ∃ p', options_loop fuel p data i = Some p' ∧ packet_ok p'.
Proof.
  intros Hp Hd. revert p i Hp. induction fuel as [|fuel IH]; intros p i Hp Hi; [by eexists|]. cbn [options_loop].
  destruct (Z.leb_spec (len data) i); [by eexists|]. destruct (byte_Some data i Hd) as (code & -> & _); [lia|].
  destruct (code =? 255); [by eexists|]. destruct (code =? 0); [apply IH; [done|lia]|].
  destruct (Z.leb_spec (len data) (i + 1)); [by eexists|]. destruct (byte_Some data (i + 1) Hd) as (n & -> & Hn); [lia|].
  destruct (Z.ltb_spec (len data) (i + 2 + n)); [by eexists|]. unfold in_u8 in Hn.
  destruct (range_Some data (i + 2) (i + 2 + n)) as (d & -> & _ & Hu); [lia|lia|].
  destruct (parse_option_total p code d Hp (Hu Hd)) as (p' & -> & Hp'). apply IH; [done|lia].
Qed.

(** The fuel of [parse_options] is enough: more changes nothing. *)
Lemma options_loop_fuel fuel p data i :
  Forall in_u8 data → 0 ≤ i → len data ≤ i + Z.of_nat fuel → options_loop fuel p data i = options_loop (S fuel) p data i.
Proof.
  intros Hd. revert p i. induction fuel as [|fuel IH]; intros p i Hi Hl.
  { cbn [options_loop]. by rewrite (proj2 (Z.leb_le _ _)) by lia. }
  cbn [options_loop]. destruct (Z.leb_spec (len data) i); [done|]. destruct (byte data i) as [code|]; [|done].
  destruct (code =? 255); [done|]. destruct (code =? 0); [apply IH; lia|].
  destruct (Z.leb_spec (len data) (i + 1)); [done|]. destruct (byte_Some data (i + 1) Hd) as (n & -> & Hn); [lia|].
  destruct (Z.ltb_spec (len data) (i + 2 + n)); [done|]. destruct (range _ _ _); [|done].
  destruct (parse_option _ _ _); [|done]. unfold in_u8 in Hn. apply IH; lia.
Qed.

Lemma packet_parse_total data :
  Forall in_u8 data → ∃ r, parse data = Some r ∧ ∀ p, r = Ok p → packet_ok p.
Proof.
  intros Hd. unfold parse, MIN_SIZE. destruct (Z.ltb_spec (len data) 236); [by eexists|].
  destruct (byte_Some data 0 Hd) as (? & -> & ?); [lia|]. destruct (byte_Some data 1 Hd) as (? & -> & ?); [lia|].
  destruct (byte_Some data 2 Hd) as (? & -> & ?); [lia|]. destruct (byte_Some data 3 Hd) as (? & -> & ?); [lia|].
  destruct (get_be32_Some data 4 Hd) as (? & -> & ?); [lia|lia|].
  destruct (get_be16_Some data 8 Hd) as (? & -> & ?); [lia|lia|]. destruct (get_be16_Some data 10 Hd) as (? & -> & ?); [lia|lia|].
  destruct (get_ip_Some data 12 Hd) as (? & -> & ?); [lia|lia|]. destruct (get_ip_Some data 16 Hd) as (? & -> & ?); [lia|lia|].
  destruct (get_ip_Some data 20 Hd) as (? & -> & ?); [lia|lia|]. destruct (get_ip_Some data 24 Hd) as (? & -> & ?); [lia|lia|].
  destruct (range_Some data 28 44) as (mac & -> & Hml & Hmu); [lia|lia|]. cbv beta iota zeta.
  match goal with |- context [Some (Ok ?pkt)] => set (p0 := pkt) end.
  assert (packet_ok p0) as Hp0 by (split; cbn; try done; [unfold len in Hml; lia|by apply Hmu]).
  destruct (Z.ltb_spec (236 + 4) (len data)); [|eexists; split; [done|]; by intros p [= <-]].
  destruct (range_Some data 236 (236 + 4)) as (cookie & -> & _); [lia|lia|].
  case_bool_decide; [|eexists; split; [done|]; by intros p [= <-]].
  destruct (range_Some data (236 + 4) (len data)) as (opts & -> & _ & Hou); [lia|lia|].
  destruct (options_loop_total (length opts) p0 opts 0 Hp0 (Hou Hd)) as (p & Hp & Hpo); [lia|].
  unfold parse_options. rewrite Hp. eexists. split; [done|]. by intros p' [= <-].
Qed.

(** ** The bytes of a message *)

Definition head_bytes (p : DhcpPacket) : list Z :=
  [op p; htype p; hlen p; hops p] ++ to_be32 (xid p) ++ to_be16 (secs p) ++ to_be16 (flags p) ++
  octets (ciaddr p) ++ octets (yiaddr p) ++ octets (siaddr p) ++ octets (giaddr p) ++ chaddr p.

Definition type_option (p : DhcpPacket) : list Z :=
  match message_type p with Some t => [53; 1; message_type_u8 t] | None => [] end.

Definition dns_option (servers : list Ipv4) : list Z :=
  if bool_decide (servers = []) then []
  else let servers := take 63 servers in [6; wrap8 (Z.of_nat (length servers) * 4)] ++ concat (octets <$> servers).

Definition option_bytes (p : DhcpPacket) (c : DhcpConfig) : list Z :=
  type_option p ++ ([1; 4] ++ octets (netmask c)) ++ ([3; 4] ++ octets (gateway c)) ++
  ([51; 4] ++ to_be32 (wrap32 (lease_duration c / 1000000000))) ++ ([54; 4] ++ octets (server_ip c)) ++
  dns_option (dns_servers c).

Definition wire (p : DhcpPacket) (c : DhcpConfig) : list Z :=
  (head_bytes p ++ replicate 192 0) ++ MAGIC_COOKIE ++ option_bytes p c ++ [255].

Lemma length_octets servers : length (concat (octets <$> servers)) = (4 * length servers)%nat.
Proof. induction servers as [|s l IH]; [done|]. cbn [fmap list_fmap concat]. rewrite length_app, IH. simpl. lia. Qed.

Lemma put_dns_eq servers done n :
  (4 * length servers ≤ n)%nat →
  put_dns (done ++ replicate n 0) (len done) servers =
  Some ((done ++ concat (octets <$> servers)) ++ replicate (n - 4 * length servers) 0, len done + 4 * Z.of_nat (length servers)).
Proof.
  revert done n. induction servers as [|ip servers IH]; intros done n Hn; cbn [put_dns].
  - rewrite app_nil_r. do 2 f_equal; [|simpl; lia]. do 2 f_equal. simpl. lia.
  - rewrite put_zeros; [|done|cbn in *; unfold len; simpl; lia].
    replace (len done + 4) with (len (done ++ octets ip)) by (unfold len; rewrite length_app; simpl; lia).
    change (length (octets ip)) with 4%nat. rewrite IH by (simpl in Hn; lia).
    rewrite <- (app_assoc done). cbn [fmap list_fmap concat]. f_equal. f_equal.
    + f_equal. f_equal. simpl. lia.
    + unfold len. rewrite length_app. simpl. lia.
Qed.

Lemma put_dns_option_eq servers done n :
  len done = 267 ∨ len done = 264 → len done + Z.of_nat n = 576 →
  ∃ m, put_dns_option (done ++ replicate n 0) (len done) servers =
  Some ((done ++ dns_option servers) ++ replicate (S m) 0, len (done ++ dns_option servers)).
Proof.
  intros Hd Hn. unfold put_dns_option, dns_option. case_bool_decide as Hs.
  { exists (n - 1)%nat. rewrite app_nil_r. do 3 f_equal. f_equal. lia. }
  set (count := Z.min (Z.of_nat (length servers)) 63).
  assert (len (done ++ replicate n 0) = 576) as Hl by (unfold len in *; rewrite length_app, length_replicate; lia).
  rewrite Hl. rewrite (proj2 (Z.ltb_ge _ _)) by (unfold count; lia).
  rewrite put_zeros; [|done|unfold len in *; simpl; lia].
  assert (length (take (Z.to_nat count) servers) = Z.to_nat count) as Hc by (rewrite length_take; unfold count; lia).
  assert (take 63 servers = take (Z.to_nat count) servers) as ->.
  { destruct (decide (63 ≤ length servers)%nat); [f_equal; unfold count; lia|]. by rewrite !take_ge by (unfold count; lia). }
  rewrite Hc, Z2Nat.id by (unfold count; lia). cbn [length].
  replace (len done + 2) with (len (done ++ [6; wrap8 (count * 4)])) by (unfold len; rewrite length_app; simpl; lia).
  rewrite put_dns_eq by (rewrite Hc; unfold count; lia). rewrite Hc. exists (n - 2 - 4 * Z.to_nat count - 1)%nat.
  rewrite <- (app_assoc done). do 2 f_equal.
  - do 2 f_equal. unfold count in *. lia.
  - unfold len. rewrite !length_app, length_octets, Hc. simpl. lia.
Qed.

(** The writes up to the cookie. *)
Lemma serialize_head_eq p :
  length (chaddr p) = 16%nat →
  serialize_head p = Some (((head_bytes p ++ replicate 192 0) ++ MAGIC_COOKIE) ++ replicate 336 0).
Proof.
  intros Hc. unfold serialize_head. change (replicate 576 0) with ([] ++ replicate 576 (0 : Z)).
  do 11 (rewrite put_zeros; [cbv beta iota|reflexivity|by vm_compute]).
  match goal with |- context [put (_ ++ replicate ?n 0) 28 _] => change n with 548%nat end.
  rewrite put_zeros; [cbv beta iota|reflexivity|unfold len; rewrite Hc; lia].
  replace (548 - length (chaddr p))%nat with (192 + 340)%nat by (rewrite Hc; done). rewrite replicate_add, (app_assoc _ (replicate 192 0)).
  rewrite put_zeros; [|unfold len; rewrite !length_app, length_replicate, Hc; done|done].
  reflexivity.
Qed.

Lemma put_option4_eq done n code bs :
  len bs = 4 → (6 ≤ n)%nat →
  put_option4 (done ++ replicate n 0) (len done) code bs =
  Some ((done ++ [code; 4] ++ bs) ++ replicate (n - 6) 0, len (done ++ [code; 4] ++ bs)).
Proof.
  intros Hb Hn. unfold put_option4. assert (length bs = 4%nat) as Hl by (unfold len in Hb; lia).
  rewrite put_zeros; [|done|unfold len in *; rewrite length_app; simpl; lia]. cbv beta iota.
  f_equal. f_equal; [by rewrite length_app, Hl|]. unfold len. rewrite !length_app, Hl. simpl. lia.
Qed.

(** The message is the explicit list of bytes, and writing it never panics. *)
Lemma serialize_eq p c : length (chaddr p) = 16%nat → serialize p c = Some (wire p c).
Proof.
  intros Hc. unfold serialize. rewrite serialize_head_eq by done. cbv beta iota zeta.
  assert (len ((head_bytes p ++ replicate 192 0) ++ MAGIC_COOKIE) = 240) as Hl
    by (unfold len, head_bytes; rewrite !length_app, Hc, length_replicate; reflexivity).
  unfold wire. rewrite (app_assoc _ MAGIC_COOKIE). set (d0 := (_ ++ _) ++ MAGIC_COOKIE) in *. clearbody d0.
  assert (∃ d n, (match message_type p with
    | Some msg_type => let! data := put (d0 ++ replicate 336 0) (236 + 4) [53; 1; message_type_u8 msg_type] in Some (data, 236 + 4 + 3)
    | None => Some (d0 ++ replicate 336 0, 236 + 4) end) = Some (d ++ replicate n 0, len d) ∧
    d = d0 ++ type_option p ∧ len d + Z.of_nat n = 576 ∧ (len d = 240 ∨ len d = 243)) as (d & n & -> & Hd & Hn & Hl2).
  { unfold type_option. destruct (message_type p) as [t|].
    - rewrite put_zeros; [|done|by vm_compute]. exists (d0 ++ [53; 1; message_type_u8 t]), 333%nat.
      assert (len (d0 ++ [53; 1; message_type_u8 t]) = 243) as -> by (unfold len in *; rewrite length_app; simpl; lia). auto.
    - exists d0, 336%nat. rewrite app_nil_r, Hl. auto. }
  cbv beta iota. rewrite put_option4_eq by (done || lia). rewrite put_option4_eq by (done || lia).
  rewrite put_option4_eq by (done || lia). rewrite put_option4_eq by (done || lia).
  set (d4 := (((d ++ _) ++ _) ++ _) ++ _).
  assert (len d4 = len d + 24) as Hl4 by (unfold d4, len; rewrite !length_app; simpl; lia).
  destruct (put_dns_option_eq (dns_servers c) d4 (n - 6 - 6 - 6 - 6)) as [m Hm]; [lia|lia|]. rewrite Hm. cbv beta iota.
  rewrite put_zeros; [|done|change (len [255]) with 1; lia]. cbv beta iota. f_equal.
  set (d5 := d4 ++ dns_option (dns_servers c)) in *.
  replace (Z.to_nat (len d5 + 1)) with (length (d5 ++ [255])) by (unfold len; rewrite length_app; simpl; lia).
  rewrite take_app_length. unfold d5, d4, option_bytes. rewrite Hd, <- !app_assoc. done.
Qed.

(** ** Reading back *)

Lemma be32_to v :
  be16 (v / 65536 / 256) (v / 65536 mod 256) * 65536 + be16 (v mod 65536 / 256) (v mod 65536 mod 256) = v.
Proof. rewrite !be16_to. pose proof (Z.div_mod v 65536). lia. Qed.

Lemma head_read p rest :
  length (chaddr p) = 16%nat → let data := head_bytes p ++ rest in
  byte data 0 = Some (op p) ∧ byte data 1 = Some (htype p) ∧ byte data 2 = Some (hlen p) ∧ byte data 3 = Some (hops p) ∧
  get_be32 data 4 = Some (xid p) ∧ get_be16 data 8 = Some (secs p) ∧ get_be16 data 10 = Some (flags p) ∧
  get_ip data 12 = Some (ciaddr p) ∧ get_ip data 16 = Some (yiaddr p) ∧ get_ip data 20 = Some (siaddr p) ∧
  get_ip data 24 = Some (giaddr p) ∧ range data 28 44 = Some (chaddr p).
Proof.
  intros Hc data. unfold data, head_bytes. destruct p as [? ? ? ? x s f ci yi si gi ch ? ? ?]; cbn [chaddr] in Hc.
  do 16 (destruct ch as [|? ch]; [done|]). destruct ch; [|done]. cbn [op htype hlen hops xid secs flags ciaddr yiaddr siaddr giaddr chaddr].
  destruct ci, yi, si, gi.
  split; [reflexivity|]. split; [reflexivity|]. split; [reflexivity|]. split; [reflexivity|].
  split; [rewrite <- (be32_to x) at 2; reflexivity|]. split; [transitivity (Some (be16 (s / 256) (s mod 256))); [reflexivity|by rewrite be16_to]|].
  split; [transitivity (Some (be16 (f / 256) (f mod 256))); [reflexivity|by rewrite be16_to]|].
  do 4 (split; [reflexivity|]).
  unfold range. match goal with |- (if ?b then _ else _) = _ => assert (b = true) as -> end; [|reflexivity].
  apply andb_true_iff. split; [reflexivity|]. apply Z.leb_le. unfold len. rewrite !length_app. cbn [length octets to_be32 to_be16 app]. lia.
Qed.

(** One option read at its place. *)
Lemma options_step fuel p pre code d post :
  code ≠ 0 → code ≠ 255 →
  options_loop (S fuel) p (pre ++ (code :: len d :: d) ++ post) (len pre) =
  match parse_option p code d with
  | Some p => options_loop fuel p (pre ++ (code :: len d :: d) ++ post) (len (pre ++ code :: len d :: d))
  | None => None
  end.
Proof.
  intros H0 H255. set (data := pre ++ _ ++ post). cbn [options_loop]. pose proof (len_nonneg d). pose proof (len_nonneg post).
  assert (len data = len pre + 2 + len d + len post) as Hl by (unfold data, len in *; rewrite !length_app; simpl; lia).
  rewrite (proj2 (Z.leb_gt _ _)) by lia.
  assert (byte data (len pre) = Some code) as ->.
  { unfold data, byte, len. rewrite lookup_app_r by lia. by replace (Z.to_nat _ - _)%nat with 0%nat by lia. }
  destruct (Z.eqb_spec code 255); [done|]. destruct (Z.eqb_spec code 0); [done|]. rewrite (proj2 (Z.leb_gt _ _)) by lia.
  assert (byte data (len pre + 1) = Some (len d)) as ->.
  { unfold data, byte, len. rewrite lookup_app_r by lia. by replace (Z.to_nat _ - _)%nat with 1%nat by lia. }
  rewrite (proj2 (Z.ltb_ge _ _)) by lia.
  assert (range data (len pre + 2) (len pre + 2 + len d) = Some d) as ->.
  { unfold data. replace (pre ++ (code :: len d :: d) ++ post) with ((pre ++ [code; len d]) ++ d ++ post) by (by rewrite <- !app_assoc).
    rewrite app_assoc, range_app_l by (unfold len in *; rewrite ?length_app; simpl; lia).
    replace (len pre + 2) with (len (pre ++ [code; len d])) by (unfold len; rewrite length_app; simpl; lia).
    rewrite <- (range_all (pre ++ [code; len d]) d). f_equal. unfold len. rewrite (length_app _ d). lia. }
  destruct (parse_option p code d); [|done].
  replace (len pre + 2 + len d) with (len (pre ++ code :: len d :: d)) by (unfold len; rewrite length_app; simpl; lia). done.
Qed.

(** Options as codes and data, and their bytes. *)
Definition enc (o : Z * list Z) : list Z := o.1 :: len o.2 :: o.2.
Definition option_list (p : DhcpPacket) (c : DhcpConfig) : list (Z * list Z) :=
  match message_type p with Some t => [(53, [message_type_u8 t])] | None => [] end ++
  [(1, octets (netmask c)); (3, octets (gateway c)); (51, to_be32 (wrap32 (lease_duration c / 1000000000)));
   (54, octets (server_ip c))] ++
  if bool_decide (dns_servers c = []) then [] else [(6, concat (octets <$> take 63 (dns_servers c)))].

Lemma option_bytes_enc p c : option_bytes p c = concat (enc <$> option_list p c).
Proof.
  unfold option_bytes, option_list, type_option, dns_option. rewrite !fmap_app, !concat_app.
  f_equal; [by destruct (message_type p)|].
  match goal with |- _ ++ _ ++ _ ++ _ ++ ?x = _ ++ ?y => assert (x = y) as ->; [|reflexivity] end.
  case_bool_decide; [done|]. cbn [fmap list_fmap concat]. rewrite app_nil_r. unfold enc. cbn [fst snd app]. do 2 f_equal.
  unfold len. rewrite length_octets. unfold wrap8, u8_bound. rewrite Z.mod_small; [lia|]. rewrite length_take. lia.
Qed.

Fixpoint parse_all (p : DhcpPacket) (os : list (Z * list Z)) : option DhcpPacket :=
  match os with
  | (code, d) :: os => let! p := parse_option p code d in parse_all p os
  | [] => Some p
  end.

Lemma options_loop_all os fuel p pre :
  Forall (λ o, o.1 ≠ 0 ∧ o.1 ≠ 255) os → (length os < fuel)%nat →
  options_loop fuel p (pre ++ concat (enc <$> os) ++ [255]) (len pre) = parse_all p os.
Proof.
  revert fuel p pre. induction os as [|[code d] os IH]; intros fuel p pre Hos Hf.
  - destruct fuel as [|fuel]; [lia|]. cbn [options_loop fmap list_fmap concat app parse_all].
    rewrite (proj2 (Z.leb_gt _ _)) by (unfold len; rewrite length_app; simpl; lia).
    unfold byte, len. rewrite lookup_app_r by lia. by replace (Z.to_nat _ - _)%nat with 0%nat by lia.
  - apply Forall_cons in Hos as [[H0 H255] Hos]. destruct fuel as [|fuel]; [lia|].
    cbn [fmap list_fmap concat parse_all]. rewrite <- (app_assoc (enc (code, d))). unfold enc at 1. cbn [fst snd] in *.
    rewrite options_step by done. destruct (parse_option p code d) as [p'|]; [|done].
    rewrite <- (IH fuel p' (pre ++ code :: len d :: d)) by (done || (simpl in Hf; lia)). f_equal. by rewrite <- app_assoc.
Qed.

Lemma parse_all_list p c p0 :
  message_type p0 = None →
  parse_all p0 (option_list p c) = Some (p0 <| message_type := message_type p |>).
Proof.
  intros H0. unfold option_list.
  assert (∀ q, parse_all q ([(1, octets (netmask c)); (3, octets (gateway c)); (51, to_be32 (wrap32 (lease_duration c / 1000000000)));
    (54, octets (server_ip c))] ++ (if bool_decide (dns_servers c = []) then [] else [(6, concat (octets <$> take 63 (dns_servers c)))])) = Some q) as Hq.
  { intros q. by destruct (bool_decide (dns_servers c = [])). }
  destruct (message_type p) as [t|].
  - change (parse_all p0 ([(53, [message_type_u8 t])] ++ ?x)) with (parse_all (p0 <| message_type := message_type_of (message_type_u8 t) |>) x).
    rewrite Hq. by destruct t.
  - rewrite app_nil_l, Hq. f_equal. destruct p0. cbn in H0. by subst.
Qed.

Lemma option_list_codes p c : Forall (λ o, o.1 ≠ 0 ∧ o.1 ≠ 255) (option_list p c).
Proof.
  unfold option_list. rewrite !Forall_app. split; [destruct (message_type p); repeat constructor; done|].
  split; [repeat constructor; done|]. case_bool_decide; repeat constructor; done.
Qed.

Lemma length_enc os : (length os ≤ length (concat (enc <$> os)))%nat.
Proof. induction os as [|o os IH]; [done|]. cbn [fmap list_fmap concat]. rewrite length_app. simpl. lia. Qed.

(** A message written for the wire reads back as it was, apart from the requested
    address and the host name, which are not sent; writing never panics. *)
Lemma serialize_parse p c :
  length (chaddr p) = 16%nat →
  ∃ data, serialize p c = Some data ∧
  parse data = Some (Ok (p <| requested_ip := None |> <| hostname := None |>)).
Proof.
  intros Hc. exists (wire p c). split; [by apply serialize_eq|].
  assert (length (head_bytes p) = 44%nat) as Hh by (unfold head_bytes; rewrite !length_app, Hc; reflexivity).
  assert (len (head_bytes p ++ replicate 192 0) = 236) as Hl by (unfold len; rewrite length_app, length_replicate, Hh; done).
  pose proof (head_read p (replicate 192 0 ++ MAGIC_COOKIE ++ option_bytes p c ++ [255]) Hc) as Hr. cbv zeta in Hr.
  unfold wire. rewrite (app_assoc (head_bytes p)) in Hr.
  destruct Hr as (R1 & R2 & R3 & R4 & R5 & R6 & R7 & R8 & R9 & R10 & R11 & R12).
  unfold parse. rewrite R1, R2, R3, R4, R5, R6, R7, R8, R9, R10, R11, R12. clear R1 R2 R3 R4 R5 R6 R7 R8 R9 R10 R11 R12.
  set (h := head_bytes p ++ replicate 192 0) in *. set (opts := option_bytes p c ++ [255]). clearbody h.
  assert (0 < len opts) as Ho by (unfold opts; rewrite len_app; pose proof (len_nonneg (option_bytes p c)); change (len [255]) with 1; lia).
  pose proof (range_mid h MAGIC_COOKIE opts) as M1. pose proof (range_all (h ++ MAGIC_COOKIE) opts) as M2.
  rewrite <- app_assoc in M2. rewrite !len_app, !Hl in *. change (len MAGIC_COOKIE) with 4 in *. unfold MIN_SIZE.
  rewrite (proj2 (Z.ltb_ge _ 236)), (proj2 (Z.ltb_lt (236 + 4) _)) by lia. cbv beta iota zeta.
  rewrite M1, bool_decide_eq_true_2 by done. replace (236 + (4 + len opts)) with (236 + 4 + len opts) in * by lia. rewrite M2.
  unfold parse_options, opts. rewrite option_bytes_enc.
  rewrite (options_loop_all (option_list p c) _ _ []); [| |].
  - rewrite parse_all_list by done. by destruct p.
  - apply option_list_codes.
  - rewrite length_app. pose proof (length_enc (option_list p c)). change (length [255]) with 1%nat. lia.
Qed.

End Dhcp.
