(* ===== verification/DhcpServer.v ===== *)
(** * The DHCP server

    [src/virt/arcbox-dhcp/src/allocator.rs] and [server.rs]: the pool of
    addresses, the leases, reservations and quarantined addresses, and the
    handling of a client's message. A hardware address is the list of its six
    bytes. An operation that reads the clock is given one instant, in
    nanoseconds. [None] is a panic. *)

From Stdlib Require Import ZArith Lia.
From stdpp Require Import base numbers list strings gmap.
From S2P Require Import Prelude Bits Checksum Bytes DhcpPacket.

Open Scope Z_scope.

Module DhcpSrv.

Import Dhcp.

(** ** The pool *)

Record IpAllocator := MkAlloc { start : Z; end_ : Z; allocated : gset Z; next : Z }.
#[export] Instance eta_IpAllocator : Eta IpAllocator := {|
  eta a := MkAlloc (start a) (end_ a) (allocated a) (next a); eta_ok := ltac:(by intros [])
|}.

Definition new_allocator (s e : Ipv4) : option IpAllocator :=
  let start_u32 := u32_of s in
  let end_u32 := u32_of e in
  if end_u32 <? start_u32 then None else Some (MkAlloc start_u32 end_u32 ∅ start_u32).

Definition advance (a : IpAllocator) : IpAllocator :=
  a <| next := if end_ a <=? next a then start a else next a + 1 |>.

(** The [for] loop of [allocate] with [fuel] iterations left. *)
Fixpoint allocate_loop (fuel : nat) (a : IpAllocator) : IpAllocator * option Ipv4 :=
  match fuel with
  | O => (a, None)
  | S fuel =>
      if negb (bool_decide (next a ∈ allocated a)) then
        let addr := next a in
        (advance (a <| allocated := {[addr]} ∪ allocated a |>), Some (ip_of_u32 addr))
      else allocate_loop fuel (advance a)
  end.
Definition allocate (a : IpAllocator) : IpAllocator * option Ipv4 :=
  let range_size := end_ a - start a + 1 in allocate_loop (Z.to_nat range_size) a.

Definition allocate_specific (a : IpAllocator) (ip : Ipv4) : IpAllocator * bool :=
  let ip_u32 := u32_of ip in
  if (ip_u32 <? start a) || (end_ a <? ip_u32) then (a, false)
  else if bool_decide (ip_u32 ∈ allocated a) then (a, false)
  else (a <| allocated := {[ip_u32]} ∪ allocated a |>, true).

Definition release (a : IpAllocator) (ip : Ipv4) : IpAllocator :=
  a <| allocated := allocated a ∖ {[u32_of ip]} |>.

Definition is_available (a : IpAllocator) (ip : Ipv4) : bool :=
  let ip_u32 := u32_of ip in
  (start a <=? ip_u32) && (ip_u32 <=? end_ a) && negb (bool_decide (ip_u32 ∈ allocated a)).

Definition allocated_count (a : IpAllocator) : Z := Z.of_nat (size (allocated a)).
Definition available_count (a : IpAllocator) : Z := end_ a - start a + 1 - Z.of_nat (size (allocated a)).

(** ** The server *)

Record DhcpLease := MkLease {
  lease_mac : list Z;
  lease_ip : Ipv4;
  lease_hostname : option (list Z);
  lease_start : Z;
  lease_length : Z
}.

Definition is_expired (l : DhcpLease) (now : Z) : bool := lease_length l <=? saturating_sub now (lease_start l).

Definition time_remaining (l : DhcpLease) (now : Z) : Z :=
  let elapsed := saturating_sub now (lease_start l) in
  if lease_length l <=? elapsed then 0 else lease_length l - elapsed.

Record DhcpReply := MkReply { payload : list Z; destination : Ipv4 }.

(** Five minutes. *)
Definition DECLINE_QUARANTINE : Z := 300 * 1000000000.

Record DhcpServer := MkServer {
  config : DhcpConfig;
  allocator : IpAllocator;
  leases : gmap (list Z) DhcpLease;
  reservations : gmap (list Z) Ipv4;
  declined_ips : gmap Ipv4 Z
}.
#[export] Instance eta_DhcpServer : Eta DhcpServer := {|
  eta s := MkServer (config s) (allocator s) (leases s) (reservations s) (declined_ips s); eta_ok := ltac:(by intros [])
|}.

Definition new_server (config : DhcpConfig) : option DhcpServer :=
  let! allocator := new_allocator (pool_start config) (pool_end config) in
  Some (MkServer config allocator ∅ ∅ ∅).

Definition reserve_ip (s : DhcpServer) (mac : list Z) (ip : Ipv4) : option DhcpServer :=
  if is_available (allocator s) ip then
    Some (s <| allocator := (allocate_specific (allocator s) ip).1 |> <| reservations := <[mac := ip]> (reservations s) |>)
  else None.

Definition remove_reservation (s : DhcpServer) (mac : list Z) : DhcpServer :=
  match reservations s !! mac with
  | Some ip => s <| reservations := delete mac (reservations s) |> <| allocator := release (allocator s) ip |>
  | None => s
  end.

(** ** Expiry *)

(** The keys of the leases that have run out, in the order of the map. *)
Definition expired (s : DhcpServer) (now : Z) : list (list Z) :=
  (filter (λ ml : list Z * DhcpLease, is_expired ml.2 now = true ∧ reservations s !! ml.1 = None) (map_to_list (leases s))).*1.

Definition drop_lease (s : DhcpServer) (mac : list Z) : DhcpServer :=
  match leases s !! mac with
  | Some lease => s <| leases := delete mac (leases s) |> <| allocator := release (allocator s) (lease_ip lease) |>
  | None => s
  end.

Definition expired_declines (s : DhcpServer) (now : Z) : list Ipv4 :=
  (filter (λ it : Ipv4 * Z, DECLINE_QUARANTINE ≤ saturating_sub now it.2) (map_to_list (declined_ips s))).*1.

Definition end_quarantine (s : DhcpServer) (ip : Ipv4) : DhcpServer :=
  let s := s <| declined_ips := delete ip (declined_ips s) |> in
  let reserved := existsb (λ r, bool_decide (r = ip)) (map_to_list (reservations s)).*2 in
  let leased := existsb (λ l, bool_decide (lease_ip l = ip)) (map_to_list (leases s)).*2 in
  if reserved || leased then s else s <| allocator := release (allocator s) ip |>.

Definition cleanup_expired_leases (s : DhcpServer) (now : Z) : DhcpServer :=
  let s := foldl drop_lease s (expired s now) in
  foldl end_quarantine s (expired_declines s now).

(** ** Messages *)

(** A reply with the fields the server sets. *)
Definition response (packet : DhcpPacket) (s : DhcpServer) (yiaddr : Ipv4) (t : DhcpMessageType) : DhcpPacket :=
  MkPacket 2 (htype new_packet) (hlen new_packet) (hops new_packet) (xid packet) (secs new_packet) (flags packet)
    (ciaddr new_packet) yiaddr (server_ip (config s)) (giaddr new_packet) (chaddr packet) (Some t) None None.

Definition record_lease (s : DhcpServer) (packet : DhcpPacket) (ip : Ipv4) (now : Z) : DhcpServer :=
  let mac := client_mac packet in
  s <| leases := <[mac := MkLease mac ip (hostname packet) now (lease_duration (config s))]> (leases s) |>.

(** The address a DISCOVER is offered. *)
Definition choose_ip (s : DhcpServer) (packet : DhcpPacket) : DhcpServer * result DhcpError Ipv4 :=
  let mac := client_mac packet in
  let any := let '(a, r) := allocate (allocator s) in
    (s <| allocator := a |>, match r with Some ip => Ok ip | None => Err PoolExhausted end) in
  match reservations s !! mac with
  | Some reserved_ip => (s, Ok reserved_ip)
  | None =>
      match leases s !! mac with
      | Some lease => (s, Ok (lease_ip lease))
      | None =>
          match requested_ip packet with
          | Some requested =>
              if is_available (allocator s) requested
              then (s <| allocator := (allocate_specific (allocator s) requested).1 |>, Ok requested)
              else any
          | None => any
          end
      end
  end.

Definition handle_discover (s : DhcpServer) (packet : DhcpPacket) (now : Z) : DhcpServer * result DhcpError DhcpPacket :=
  let s := cleanup_expired_leases s now in
  let '(s, r) := choose_ip s packet in
  match r with
  | Err e => (s, Err e)
  | Ok ip => let s := record_lease s packet ip now in (s, Ok (response packet s ip Offer))
  end.

Definition handle_request (s : DhcpServer) (packet : DhcpPacket) (now : Z) : DhcpServer * result DhcpError DhcpPacket :=
  let mac := client_mac packet in
  let requested := match requested_ip packet with
    | Some ip => Some ip
    | None => if bool_decide (ciaddr packet = UNSPECIFIED) then None else Some (ciaddr packet)
    end in
  match requested with
  | None => (s, Err (Protocol "no IP requested"))
  | Some requested_ip =>
      let '(s, valid) :=
        match leases s !! mac with
        | Some lease => (s, bool_decide (lease_ip lease = requested_ip))
        | None =>
            match reservations s !! mac with
            | Some reserved => (s, bool_decide (reserved = requested_ip))
            | None => let '(a, ok) := allocate_specific (allocator s) requested_ip in (s <| allocator := a |>, ok)
            end
        end in
      if valid
      then let s := record_lease s packet requested_ip now in (s, Ok (response packet s requested_ip Ack))
      else (s, Ok (response packet s UNSPECIFIED Nak))
  end.

Definition handle_release (s : DhcpServer) (packet : DhcpPacket) : DhcpServer :=
  let mac := client_mac packet in
  match leases s !! mac with
  | Some lease =>
      let s := s <| leases := delete mac (leases s) |> in
      if bool_decide (is_Some (reservations s !! mac)) then s
      else s <| allocator := release (allocator s) (lease_ip lease) |>
  | None => s
  end.

(** The [debug_assert!] is a panic. *)
Definition handle_decline (s : DhcpServer) (packet : DhcpPacket) (now : Z) : option DhcpServer :=
  let mac := client_mac packet in
  match requested_ip packet with
  | None => Some s
  | Some ip =>
      let leased := lease_ip <$> leases s !! mac in
      let reserved := reservations s !! mac in
      let offered_to_mac := bool_decide (leased = Some ip) || bool_decide (reserved = Some ip) in
      if negb offered_to_mac then Some s else
      let s := if bool_decide (leased = Some ip) then s <| leases := delete mac (leases s) |> else s in
      if is_available (allocator s) ip then None
      else Some (s <| declined_ips := <[ip := now]> (declined_ips s) |>)
  end.

(** The reply to a response, with its destination. *)
Definition reply_to (s : DhcpServer) (packet response : DhcpPacket) : option DhcpReply :=
  let destination :=
    if bool_decide (message_type response = Some Nak) || bool_decide (ciaddr packet = UNSPECIFIED)
    then BROADCAST else ciaddr packet in
  let! payload := serialize response (config s) in Some (MkReply payload destination).

Definition handle_packet (s : DhcpServer) (data : list Z) (now : Z)
    : option (DhcpServer * result DhcpError (option DhcpReply)) :=
  let! parsed := parse data in
  match parsed with
  | Err e => Some (s, Err e)
  | Ok packet =>
      if negb (op packet =? 1) then Some (s, Ok None)
      else
        let answer h := let '(s, r) := h s packet now in
          match r with
          | Err e => Some (s, Err e)
          | Ok resp => let! reply := reply_to s packet resp in Some (s, Ok (Some reply))
          end in
        match message_type packet with
        | Some Discover => answer handle_discover
        | Some Request => answer handle_request
        | Some Release => Some (handle_release s packet, Ok None)
        | Some Decline => let! s := handle_decline s packet now in Some (s, Ok None)
        | _ => Some (s, Ok None)
        end
  end.

(** ** The pool is a set of addresses *)

Record alloc_ok (a : IpAllocator) : Prop := {
  ao_range : 0 ≤ start a ≤ end_ a ∧ end_ a < u32_bound;
  ao_next : start a ≤ next a ≤ end_ a;
  ao_allocated x : x ∈ allocated a → start a ≤ x ≤ end_ a
}.

Definition free (a : IpAllocator) (x : Z) : Prop := start a ≤ x ≤ end_ a ∧ x ∉ allocated a.

Lemma pool_advance_ok a : alloc_ok a → alloc_ok (advance a).
Proof.
  intros Ha. pose proof (ao_range _ Ha). pose proof (ao_next _ Ha). unfold advance, upd.
  split; cbn; [done| |apply Ha]. destruct (Z.leb_spec (end_ a) (next a)); lia.
Qed.

Lemma insert_ok a x : alloc_ok a → start a ≤ x ≤ end_ a → alloc_ok (a <| allocated := {[x]} ∪ allocated a |>).
Proof.
  intros Ha Hx. unfold upd. split; cbn; [apply Ha|apply Ha|].
  intros y [->%elem_of_singleton|Hy]%elem_of_union; [done|by apply Ha].
Qed.

(** The address [j] places after [x] in the cycle through the pool. *)
Definition cyclic (a : IpAllocator) (x j : Z) : Z := start a + (x - start a + j) mod (end_ a - start a + 1).

Lemma cyclic_advance a j :
  alloc_ok a → 0 ≤ j → cyclic a (next (advance a)) j = cyclic a (next a) (j + 1).
Proof.
  intros Ha Hj. pose proof (ao_range _ Ha). pose proof (ao_next _ Ha). unfold cyclic, advance, upd. cbn. f_equal.
  destruct (Z.leb_spec (end_ a) (next a)).
  - replace (next a) with (end_ a) by lia. replace (end_ a - start a + (j + 1)) with (j + 1 * (end_ a - start a + 1)) by lia.
    rewrite Z.mod_add by lia. f_equal. lia.
  - f_equal. lia.
Qed.

Lemma allocate_loop_spec fuel a :
  alloc_ok a →
  (∃ a' ip, allocate_loop fuel a = (a', Some ip) ∧ alloc_ok a' ∧ start a' = start a ∧ end_ a' = end_ a ∧
    ip_ok ip ∧ free a (u32_of ip) ∧ allocated a' = {[u32_of ip]} ∪ allocated a) ∨
  (∃ a', allocate_loop fuel a = (a', None) ∧ alloc_ok a' ∧ start a' = start a ∧ end_ a' = end_ a ∧ allocated a' = allocated a ∧
    ∀ j, 0 ≤ j < Z.of_nat fuel → cyclic a (next a) j ∈ allocated a).
Proof.
  revert a. induction fuel as [|fuel IH]; intros a Ha; cbn [allocate_loop].
  { right. exists a. repeat (split; [done|]). lia. }
  pose proof (ao_range _ Ha). pose proof (ao_next _ Ha). case_bool_decide as Hin; cbn [negb].
  - destruct (IH (advance a) (pool_advance_ok a Ha)) as [(a' & ip & Hr & Hok & Hs & He & Hip & Hf & Hal)|(a' & Hr & Hok & Hs & He & Hal & Hc)].
    + left. exists a', ip. done.
    + right. exists a'. repeat (split; [done|]). intros j Hj. destruct (decide (j = 0)) as [->|Hj0].
      * unfold cyclic. rewrite Z.mod_small by lia. by replace (start a + (next a - start a + 0)) with (next a) by lia.
      * replace j with (j - 1 + 1) by lia. rewrite <- cyclic_advance by (done || lia). apply (Hc (j - 1)). lia.
  - left. eexists _, _. split; [done|]. split; [by apply pool_advance_ok, insert_ok|]. split; [done|]. split; [done|].
    split; [apply ip_of_u32_ok; unfold in_u32, u32_bound in *; lia|]. rewrite u32_of_ip. by split.
Qed.

(** [allocate] finds a free address unless there is none. *)
Lemma allocate_spec a :
  alloc_ok a →
  (∃ a' ip, allocate a = (a', Some ip) ∧ alloc_ok a' ∧ start a' = start a ∧ end_ a' = end_ a ∧
    ip_ok ip ∧ free a (u32_of ip) ∧ allocated a' = {[u32_of ip]} ∪ allocated a) ∨
  (∃ a', allocate a = (a', None) ∧ alloc_ok a' ∧ start a' = start a ∧ end_ a' = end_ a ∧ allocated a' = allocated a ∧
    ∀ x, ¬ free a x).
Proof.
  intros Ha. unfold allocate. pose proof (ao_range _ Ha). pose proof (ao_next _ Ha).
  destruct (allocate_loop_spec (Z.to_nat (end_ a - start a + 1)) a Ha) as [?|(a' & Hr & Hok & Hs & He & Hal & Hc)]; [by left|].
  right. exists a'. repeat (split; [done|]). intros x [Hx Hno]. apply Hno.
  specialize (Hc ((x - next a) mod (end_ a - start a + 1))). unfold cyclic in Hc.
  rewrite Zplus_mod_idemp_r in Hc. replace (next a - start a + (x - next a)) with (x - start a) in Hc by lia.
  rewrite (Z.mod_small (x - start a)) in Hc by lia. replace (start a + (x - start a)) with x in Hc by lia. apply Hc.
  pose proof (Z.mod_pos_bound (x - next a) (end_ a - start a + 1)). lia.
Qed.

Lemma is_available_free a ip : is_available a ip = true ↔ free a (u32_of ip).
Proof.
  unfold is_available, free. rewrite !andb_true_iff, !Z.leb_le, negb_true_iff, bool_decide_eq_false. tauto.
Qed.

Lemma allocate_specific_spec a ip :
  alloc_ok a →
  let '(a', ok) := allocate_specific a ip in
  alloc_ok a' ∧ start a' = start a ∧ end_ a' = end_ a ∧
  if ok then free a (u32_of ip) ∧ allocated a' = {[u32_of ip]} ∪ allocated a else a' = a ∧ ¬ free a (u32_of ip).
Proof.
  intros Ha. unfold allocate_specific, free.
  destruct (Z.ltb_spec (u32_of ip) (start a)); cbn [orb]; [split; [done|]; do 2 (split; [done|]); split; [done|lia]|].
  destruct (Z.ltb_spec (end_ a) (u32_of ip)); cbn [orb]; [split; [done|]; do 2 (split; [done|]); split; [done|lia]|].
  case_bool_decide as Hin; [split; [done|]; do 2 (split; [done|]); split; [done|tauto]|].
  split; [by apply insert_ok|]. do 2 (split; [done|]). split; [done|done].
Qed.

Lemma release_ok a ip : alloc_ok a → alloc_ok (release a ip).
Proof. intros Ha. unfold release, upd. split; cbn; [apply Ha|apply Ha|]. intros x [Hx _]%elem_of_difference. by apply Ha. Qed.

Lemma release_keeps a ip ip' :
  ip_ok ip → ip_ok ip' → ip' ≠ ip → u32_of ip' ∈ allocated a → u32_of ip' ∈ allocated (release a ip).
Proof.
  intros Hip Hip' Hne Hin. unfold release, upd. cbn. apply elem_of_difference. split; [done|].
  intros ?%elem_of_singleton. by apply Hne, u32_of_inj.
Qed.

(** ** The invariant of the server *)

(** A client holds an address: it has a lease or a reservation for it. *)
Definition holds (s : DhcpServer) (m : list Z) (ip : Ipv4) : Prop :=
  (∃ l, leases s !! m = Some l ∧ lease_ip l = ip) ∨ reservations s !! m = Some ip.

Record server_ok (s : DhcpServer) : Prop := {
  so_alloc : alloc_ok (allocator s);
  so_held m ip : holds s m ip → ip_ok ip ∧ u32_of ip ∈ allocated (allocator s);
  so_own m m' ip : holds s m ip → holds s m' ip → m = m';
  so_declined ip t : declined_ips s !! ip = Some t → ip_ok ip ∧ u32_of ip ∈ allocated (allocator s);
  so_quarantine m l t : leases s !! m = Some l → declined_ips s !! lease_ip l = Some t → is_Some (reservations s !! m)
}.

Lemma fresh_unheld s ip : server_ok s → free (allocator s) (u32_of ip) → (∀ m, ¬ holds s m ip) ∧ declined_ips s !! ip = None.
Proof.
  intros Hs [_ Hno]. split; [intros m Hm; by apply (so_held _ Hs) in Hm as [_ ?]|].
  destruct (declined_ips s !! ip) as [t|] eqn:Ht; [|done]. by apply (so_declined _ Hs) in Ht as [_ ?].
Qed.

Lemma grow_ok s a :
  server_ok s → alloc_ok a → allocated (allocator s) ⊆ allocated a → server_ok (s <| allocator := a |>).
Proof.
  intros Hs Ha Hsub. unfold upd. split; cbn; [done| |apply Hs| |apply Hs].
  - intros m ip [??]%(so_held _ Hs). set_solver.
  - intros ip t [??]%(so_declined _ Hs). set_solver.
Qed.

Lemma record_lease_ok s packet ip now :
  server_ok s → ip_ok ip → u32_of ip ∈ allocated (allocator s) → (∀ m, holds s m ip → m = client_mac packet) →
  (is_Some (declined_ips s !! ip) → is_Some (reservations s !! client_mac packet)) →
  server_ok (record_lease s packet ip now).
Proof.
  intros Hs Hip Hin Hown Hq. set (mac := client_mac packet) in *.
  assert (∀ m ip', holds (record_lease s packet ip now) m ip' → holds s m ip' ∨ m = mac ∧ ip' = ip) as Hh.
  { intros m ip' [(l & Hl & <-)|Hr]; [|left; by right]. unfold record_lease, upd in Hl. cbn in Hl. fold mac in Hl.
    apply lookup_insert_Some in Hl as [[<- <-]|[_ Hl]]; [by right|left; left; eauto]. }
  split.
  - apply Hs.
  - intros m ip' [H|[-> ->]]%Hh; [by apply (so_held _ Hs m)|done].
  - intros m m' ip' [H|[-> ->]]%Hh [H'|[-> Heq]]%Hh; subst; [by apply (so_own _ Hs m m' ip')|by apply Hown|symmetry; by apply Hown|done].
  - apply Hs.
  - intros m l t Hl Hd. unfold record_lease, upd in Hl, Hd |- *. cbn in *. fold mac in Hl.
    apply lookup_insert_Some in Hl as [[<- <-]|[_ Hl]]; [by apply Hq|by apply (so_quarantine _ Hs m l t)].
Qed.

(** Taking a client's lease away and freeing its address. *)
Lemma free_lease_ok s m l :
  server_ok s → leases s !! m = Some l → reservations s !! m = None →
  server_ok (s <| leases := delete m (leases s) |> <| allocator := release (allocator s) (lease_ip l) |>).
Proof.
  intros Hs Hl Hr. assert (holds s m (lease_ip l)) as Hm by (left; eauto). destruct (so_held _ Hs _ _ Hm) as [Hip _].
  set (s' := _ <| allocator := _ |>).
  assert (∀ m' ip, holds s' m' ip → holds s m' ip ∧ ip ≠ lease_ip l) as Hh.
  { intros m' ip H. assert (holds s m' ip ∧ m' ≠ m) as [H1 H2].
    { destruct H as [(l' & Hl' & <-)|Hr']; unfold s', upd in *; cbn in *.
      - apply lookup_delete_Some in Hl' as [? ?]. split; [left; eauto|done].
      - split; [by right|congruence]. }
    split; [done|]. intros ->. by apply H2, (so_own _ Hs m' m (lease_ip l)). }
  assert (∀ ip, ip_ok ip → ip ≠ lease_ip l → u32_of ip ∈ allocated (allocator s) → u32_of ip ∈ allocated (allocator s')) as Hrel
    by (intros; by apply release_keeps).
  split.
  - by apply release_ok, Hs.
  - intros m' ip [H Hne]%Hh. apply (so_held _ Hs) in H as [??]. auto.
  - intros m1 m2 ip [H1 _]%Hh [H2 _]%Hh. by apply (so_own _ Hs m1 m2 ip).
  - intros ip t Hd. pose proof (so_declined _ Hs ip t Hd) as [??]. split; [done|]. apply Hrel; [done| |done].
    intros ->. destruct (so_quarantine _ Hs m l t Hl Hd). congruence.
  - intros m' l' t Hl' Hd. unfold s', upd in *. cbn in *. apply lookup_delete_Some in Hl' as [_ Hl'].
    by apply (so_quarantine _ Hs m' l' t).
Qed.

Lemma drop_lease_ok s m : server_ok s → reservations s !! m = None → server_ok (drop_lease s m).
Proof. intros Hs Hr. unfold drop_lease. destruct (leases s !! m) eqn:Hl; [by apply free_lease_ok|done]. Qed.

(** Dropping leases leaves the rest of the server, and the other leases, alone. *)
Lemma drop_leases_frame s ms :
  let s' := foldl drop_lease s ms in
  config s' = config s ∧ reservations s' = reservations s ∧ declined_ips s' = declined_ips s ∧
  ∀ m, leases s' !! m = if decide (m ∈ ms) then None else leases s !! m.
Proof.
  revert s. induction ms as [|m0 ms IH]; intros s; cbn [foldl].
  { repeat (split; [done|]). intros m. by rewrite decide_False by (by intros ?%elem_of_nil). }
  destruct (IH (drop_lease s m0)) as (-> & -> & -> & Hl).
  assert (config (drop_lease s m0) = config s ∧ reservations (drop_lease s m0) = reservations s ∧
    declined_ips (drop_lease s m0) = declined_ips s ∧ leases (drop_lease s m0) = delete m0 (leases s)) as (-> & -> & -> & Hd).
  { unfold drop_lease. destruct (leases s !! m0) eqn:H0; [done|]. repeat (split; [done|]). by rewrite delete_id. }
  repeat (split; [done|]). intros m. rewrite Hl, Hd. repeat case_decide; try done.
  - destruct H0. apply elem_of_cons. by right.
  - apply elem_of_cons in H0 as [->|]; [apply lookup_delete_eq|done].
  - apply lookup_delete_ne. intros ->. apply H0, elem_of_cons. by left.
Qed.

Lemma drop_leases_ok s ms :
  server_ok s → (∀ m, m ∈ ms → reservations s !! m = None) → server_ok (foldl drop_lease s ms).
Proof.
  revert s. induction ms as [|m ms IH]; intros s Hs Hr; [done|]. cbn [foldl]. apply IH.
  - apply drop_lease_ok; [done|]. apply Hr, elem_of_cons. by left.
  - intros m' Hm'. destruct (drop_leases_frame s [m]) as (_ & Hres & _). cbn [foldl] in Hres. rewrite Hres.
    apply Hr, elem_of_cons. by right.
Qed.

Lemma end_quarantine_frame s ip :
  config (end_quarantine s ip) = config s ∧ reservations (end_quarantine s ip) = reservations s ∧
  leases (end_quarantine s ip) = leases s ∧ declined_ips (end_quarantine s ip) = delete ip (declined_ips s).
Proof. unfold end_quarantine. by destruct (_ || _). Qed.

Lemma existsb_map_to_list {K A} `{Countable K} (m : gmap K A) (f : A → bool) :
  existsb f (map_to_list m).*2 = false → ∀ k x, m !! k = Some x → f x = false.
Proof.
  intros Hf k x Hk. destruct (f x) eqn:Hx; [|done]. rewrite <- Hf. symmetry. apply existsb_exists. exists x.
  split; [|done]. apply list_elem_of_In, list_elem_of_fmap. exists (k, x). split; [done|]. by apply elem_of_map_to_list.
Qed.

Lemma end_quarantine_ok s ip : server_ok s → ip_ok ip → server_ok (end_quarantine s ip).
Proof.
  intros Hs Hip. set (s1 := s <| declined_ips := delete ip (declined_ips s) |>).
  assert (server_ok s1) as Hs1.
  { split; [apply Hs|apply Hs|apply Hs| |].
    - intros ip' t. unfold s1, upd. cbn. intros [_ Hd]%lookup_delete_Some. by apply (so_declined _ Hs ip' t).
    - intros m l t Hl. unfold s1, upd. cbn. intros [_ Hd]%lookup_delete_Some. by apply (so_quarantine _ Hs m l t). }
  unfold end_quarantine. fold s1. destruct (existsb _ (map_to_list (reservations s1)).*2) eqn:Hr; [done|].
  destruct (existsb _ (map_to_list (leases s1)).*2) eqn:Hl; [done|]. cbn [orb].
  assert (∀ ip', ip_ok ip' → ip' ≠ ip → u32_of ip' ∈ allocated (allocator s1) → u32_of ip' ∈ allocated (release (allocator s1) ip)) as Hrel.
  { intros ip' Ho Hne Hin. unfold release, upd. cbn. apply elem_of_difference. split; [done|].
    intros ?%elem_of_singleton. by apply Hne, u32_of_inj. }
  unfold upd at 1. split; cbn -[s1]; [by apply release_ok, Hs1| |apply Hs1| |apply Hs1].
  - intros m ip' Hh. destruct (so_held _ Hs1 m ip' Hh) as [Ho Hin]. split; [done|]. apply Hrel; [done| |done]. intros ->.
    destruct Hh as [(l & Hll & Hli)|Hh].
    + pose proof (existsb_map_to_list _ _ Hl m l Hll) as Hf. by apply bool_decide_eq_false in Hf.
    + pose proof (existsb_map_to_list _ _ Hr m ip Hh) as Hf. by apply bool_decide_eq_false in Hf.
  - intros ip' t Hd. destruct (so_declined _ Hs1 ip' t Hd) as [Ho Hin]. split; [done|]. apply Hrel; [done| |done]. intros ->.
    unfold s1, upd in Hd. cbn in Hd. by rewrite lookup_delete_eq in Hd.
Qed.

Lemma expired_elem s now m :
  m ∈ expired s now ↔ ∃ l, leases s !! m = Some l ∧ is_expired l now = true ∧ reservations s !! m = None.
Proof.
  unfold expired. rewrite list_elem_of_fmap. split.
  - intros ([m' l] & -> & [[He Hr] Hin]%list_elem_of_filter). apply elem_of_map_to_list in Hin. cbn in *. eauto.
  - intros (l & Hl & He & Hr). exists (m, l). split; [done|]. apply list_elem_of_filter. split; [done|]. by apply elem_of_map_to_list.
Qed.

Lemma end_quarantines s ips :
  server_ok s → Forall ip_ok ips →
  let s' := foldl end_quarantine s ips in
  server_ok s' ∧ config s' = config s ∧ reservations s' = reservations s ∧ leases s' = leases s.
Proof.
  revert s. induction ips as [|ip ips IH]; intros s Hs Hips; [done|]. apply Forall_cons in Hips as [Hip Hips]. cbn [foldl].
  destruct (IH (end_quarantine s ip)) as (H1 & H2 & H3 & H4); [by apply end_quarantine_ok|done|].
  destruct (end_quarantine_frame s ip) as (E1 & E2 & E3 & _). cbv zeta. rewrite H2, H3, H4. auto.
Qed.

Lemma cleanup_spec s now :
  server_ok s →
  let s' := cleanup_expired_leases s now in
  server_ok s' ∧ config s' = config s ∧ reservations s' = reservations s ∧
  ∀ m, leases s' !! m = match leases s !! m with
    | Some l => if decide (is_expired l now = true ∧ reservations s !! m = None) then None else Some l
    | None => None
    end.
Proof.
  intros Hs. unfold cleanup_expired_leases. destruct (drop_leases_frame s (expired s now)) as (D1 & D2 & D3 & D4).
  assert (server_ok (foldl drop_lease s (expired s now))) as Hs1.
  { apply drop_leases_ok; [done|]. intros m (l & _ & _ & Hr)%expired_elem. done. }
  destruct (end_quarantines (foldl drop_lease s (expired s now)) (expired_declines (foldl drop_lease s (expired s now)) now))
    as (E1 & E2 & E3 & E4); [done| |].
  { apply Forall_forall. unfold expired_declines. intros ip ([ip' t] & -> & [_ Hin]%list_elem_of_filter)%list_elem_of_fmap.
    apply elem_of_map_to_list in Hin. by apply (so_declined _ Hs1) in Hin as [? _]. }
  cbv zeta. split; [done|]. rewrite E2, E3, E4, D1, D2. do 2 (split; [done|]). intros m. rewrite D4.
  destruct (leases s !! m) as [l|] eqn:Hl; [|by case_decide].
  repeat case_decide; try done.
  - apply expired_elem in H as (l' & Hl' & He & Hr). naive_solver.
  - destruct H. apply expired_elem. naive_solver.
Qed.

(** ** Handlers *)

(** What a handler keeps: the invariant, the configuration, the reservations and
    the pool's bounds. *)
Definition keeps (s s' : DhcpServer) : Prop :=
  server_ok s' ∧ config s' = config s ∧ reservations s' = reservations s ∧
  start (allocator s') = start (allocator s) ∧ end_ (allocator s') = end_ (allocator s).

Lemma drop_lease_pool s m : start (allocator (drop_lease s m)) = start (allocator s) ∧ end_ (allocator (drop_lease s m)) = end_ (allocator s).
Proof. unfold drop_lease. by destruct (leases s !! m). Qed.

Lemma end_quarantine_pool s ip :
  start (allocator (end_quarantine s ip)) = start (allocator s) ∧ end_ (allocator (end_quarantine s ip)) = end_ (allocator s).
Proof. unfold end_quarantine. by destruct (_ || _). Qed.

Lemma foldl_pool {A} (f : DhcpServer → A → DhcpServer) s l :
  (∀ s x, start (allocator (f s x)) = start (allocator s) ∧ end_ (allocator (f s x)) = end_ (allocator s)) →
  start (allocator (foldl f s l)) = start (allocator s) ∧ end_ (allocator (foldl f s l)) = end_ (allocator s).
Proof.
  intros Hf. revert s. induction l as [|x l IH]; intros s; [done|]. cbn [foldl].
  destruct (IH (f s x)) as [-> ->]. apply Hf.
Qed.

Lemma cleanup_keeps s now : server_ok s → keeps s (cleanup_expired_leases s now).
Proof.
  intros Hs. destruct (cleanup_spec s now Hs) as (H1 & H2 & H3 & _). repeat (split; [done|]).
  unfold cleanup_expired_leases. destruct (foldl_pool end_quarantine (foldl drop_lease s (expired s now))
    (expired_declines (foldl drop_lease s (expired s now)) now) end_quarantine_pool) as [-> ->].
  apply (foldl_pool drop_lease s (expired s now) drop_lease_pool).
Qed.

(** A free address is taken from the pool. *)
Lemma take_fresh s ip a (m : list Z) :
  server_ok s → free (allocator s) (u32_of ip) → alloc_ok a → start a = start (allocator s) →
  end_ a = end_ (allocator s) → allocated a = {[u32_of ip]} ∪ allocated (allocator s) →
  keeps s (s <| allocator := a |>) ∧ u32_of ip ∈ allocated a ∧ (∀ m', holds s m' ip → m' = m) ∧
  (is_Some (declined_ips s !! ip) → is_Some (None : option Ipv4)).
Proof.
  intros Hs Hf Ha Hst He Hal. destruct (fresh_unheld s ip Hs Hf) as [Hno Hnd].
  split; [split; [apply grow_ok; [done|done|rewrite Hal; set_solver]|done]|].
  split; [rewrite Hal; set_solver|]. split; [intros m' Hm; by destruct (Hno m')|]. rewrite Hnd. by intros [? [=]].
Qed.

(** The address chosen for a client belongs to it or to nobody. *)
Lemma choose_ip_spec s packet :
  server_ok s → packet_ok packet →
  let '(s', r) := choose_ip s packet in
  keeps s s' ∧ leases s' = leases s ∧ declined_ips s' = declined_ips s ∧
  match r with
  | Ok ip => ip_ok ip ∧ u32_of ip ∈ allocated (allocator s') ∧ (∀ m, holds s m ip → m = client_mac packet) ∧
      (is_Some (declined_ips s !! ip) → is_Some (reservations s !! client_mac packet)) ∧
      (reservations s !! client_mac packet = None → leases s !! client_mac packet = None →
        free (allocator s) (u32_of ip) ∧
        ∀ r, requested_ip packet = Some r → free (allocator s) (u32_of r) → ip = r)
  | Err e => e = PoolExhausted ∧ allocated (allocator s') = allocated (allocator s) ∧ (∀ x, ¬ free (allocator s) x) ∧
      reservations s !! client_mac packet = None ∧ leases s !! client_mac packet = None
  end.
Proof.
  intros Hs Hp. unfold choose_ip. set (mac := client_mac packet).
  destruct (reservations s !! mac) as [rip|] eqn:Hr.
  { assert (holds s mac rip) as Hh by (by right). destruct (so_held _ Hs _ _ Hh) as [Hip Hin].
    do 3 (split; [done|]). split; [done|]. split; [done|]. split; [intros m Hm; by apply (so_own _ Hs m mac rip)|done]. }
  destruct (leases s !! mac) as [l|] eqn:Hl.
  { assert (holds s mac (lease_ip l)) as Hh by (left; eauto). destruct (so_held _ Hs _ _ Hh) as [Hip Hin].
    do 3 (split; [done|]). split; [done|]. split; [done|]. split; [intros m Hm; by apply (so_own _ Hs m mac (lease_ip l))|].
    split; [|done]. intros [t Ht]. rewrite <- Hr. by apply (so_quarantine _ Hs mac l t). }
  destruct (requested_ip packet) as [rq|] eqn:Hrq.
  1: destruct (is_available (allocator s) rq) eqn:Hav.
  - apply is_available_free in Hav. pose proof (allocate_specific_spec (allocator s) rq (so_alloc _ Hs)) as Hsp.
    destruct (allocate_specific (allocator s) rq) as [a' ok]. destruct Hsp as (A1 & A2 & A3 & A4).
    destruct ok; [|by destruct A4]. destruct A4 as [Hf Hal]. cbn [fst].
    pose proof (po_requested _ Hp rq Hrq) as Hro. destruct (take_fresh s rq a' mac) as (F1 & F2 & F3 & F4); [done..|].
    split; [done|]. split; [done|]. split; [done|]. do 4 (split; [done|]). intros _ _. split; [done|]. by intros r [= <-].
  - destruct (allocate_spec (allocator s) (so_alloc _ Hs)) as [(a' & ip & -> & A1 & A2 & A3 & Hip & Hf & Hal)|(a' & -> & A1 & A2 & A3 & Hal & Hno)].
    + destruct (take_fresh s ip a' mac) as (F1 & F2 & F3 & F4); [done..|]. do 3 (split; [done|]). do 4 (split; [done|]).
      intros _ _. split; [done|]. intros r [= <-] Hr'. apply is_available_free in Hr'. congruence.
    + split; [split; [apply grow_ok; [done|done|by rewrite Hal]|done]|]. done.
  - destruct (allocate_spec (allocator s) (so_alloc _ Hs)) as [(a' & ip & -> & A1 & A2 & A3 & Hip & Hf & Hal)|(a' & -> & A1 & A2 & A3 & Hal & Hno)].
    + destruct (take_fresh s ip a' mac) as (F1 & F2 & F3 & F4); [done..|]. do 3 (split; [done|]). do 4 (split; [done|]).
      intros _ _. by split.
    + split; [split; [apply grow_ok; [done|done|by rewrite Hal]|done]|]. done.
Qed.

(** Leases of other clients that have not run out stay as they are. *)
Definition spares (mac : list Z) (now : Z) (s s' : DhcpServer) : Prop :=
  ∀ m l, m ≠ mac → leases s !! m = Some l → is_expired l now = false → leases s' !! m = Some l.

Lemma cleanup_spares mac now s : server_ok s → spares mac now s (cleanup_expired_leases s now).
Proof.
  intros Hs m l _ Hl He. destruct (cleanup_spec s now Hs) as (_ & _ & _ & ->). rewrite Hl. rewrite decide_False; [done|].
  intros [? _]. congruence.
Qed.

Lemma keeps_trans s1 s2 s3 : keeps s1 s2 → keeps s2 s3 → keeps s1 s3.
Proof. intros (_ & H1 & H2 & H3 & H4) (? & ? & ? & ? & ?). unfold keeps. split; [done|]. repeat split; congruence. Qed.

Lemma record_lease_spec s packet ip now :
  server_ok (record_lease s packet ip now) → keeps s (record_lease s packet ip now) ∧
  leases (record_lease s packet ip now) !! client_mac packet =
    Some (MkLease (client_mac packet) ip (hostname packet) now (lease_duration (config s))) ∧
  ∀ m, m ≠ client_mac packet → leases (record_lease s packet ip now) !! m = leases s !! m.
Proof.
  intros Hok. split; [done|]. unfold record_lease, upd. cbn. split; [apply lookup_insert_eq|].
  intros m Hm. by apply lookup_insert_ne.
Qed.

Lemma discover_spec s packet now :
  server_ok s → packet_ok packet →
  let '(s', r) := handle_discover s packet now in
  keeps s s' ∧ spares (client_mac packet) now s s' ∧
  match r with
  | Ok resp => ∃ ip, resp = response packet s' ip Offer ∧ ip_ok ip ∧
      leases s' !! client_mac packet = Some (MkLease (client_mac packet) ip (hostname packet) now (lease_duration (config s))) ∧
      (choose_ip (cleanup_expired_leases s now) packet).2 = Ok ip
  | Err e => (choose_ip (cleanup_expired_leases s now) packet).2 = Err e
  end.
Proof.
  intros Hs Hp. unfold handle_discover. pose proof (cleanup_keeps s now Hs) as Hk. pose proof (cleanup_spares (client_mac packet) now s Hs) as Hsp.
  set (s1 := cleanup_expired_leases s now) in *. destruct Hk as (Hok1 & Hrest).
  pose proof (choose_ip_spec s1 packet Hok1 Hp) as Hc. destruct (choose_ip s1 packet) as [s2 r]. destruct Hc as (Hk2 & Hl2 & Hd2 & Hr).
  destruct r as [ip|e].
  - destruct Hr as (Hip & Hin & Hown & Hq & _).
    assert (server_ok (record_lease s2 packet ip now)) as Hok3.
    { assert (reservations s2 = reservations s1) as Hres by apply Hk2. apply record_lease_ok; [apply Hk2|done|done| |].
      - intros m Hm. apply Hown. unfold holds in *. by rewrite Hl2, Hres in Hm.
      - by rewrite Hd2, Hres. }
    destruct (record_lease_spec s2 packet ip now Hok3) as (R1 & R2 & R3).
    assert (keeps s s1) as Hk1 by done.
    assert (config s2 = config s) as Hcfg by (apply (keeps_trans s s1 s2); done).
    split; [by eapply keeps_trans; [eapply keeps_trans|]|]. split.
    + intros m l Hm Hl He. rewrite R3, Hl2 by done. by apply Hsp.
    + exists ip. rewrite R2, Hcfg. done.
  - split; [by eapply keeps_trans|]. split; [|done]. intros m l Hm Hl He. rewrite Hl2. by apply Hsp.
Qed.

(** The address a REQUEST asks for. *)
Definition asked (packet : DhcpPacket) : option Ipv4 :=
  match requested_ip packet with
  | Some ip => Some ip
  | None => if bool_decide (ciaddr packet = UNSPECIFIED) then None else Some (ciaddr packet)
  end.

(** A lease for an address that is the client's or nobody's. *)
Lemma lease_given s packet ip now :
  ip_ok ip → ∀ s1, keeps s s1 → leases s1 = leases s → u32_of ip ∈ allocated (allocator s1) → declined_ips s1 = declined_ips s →
  (∀ m, holds s m ip → m = client_mac packet) → (is_Some (declined_ips s !! ip) → is_Some (reservations s !! client_mac packet)) →
  keeps s (record_lease s1 packet ip now) ∧ spares (client_mac packet) now s (record_lease s1 packet ip now).
Proof.
  intros Hip s1 Hk Hl1 Hin Hd Hown Hq. assert (reservations s1 = reservations s) as Hres by apply Hk.
  assert (server_ok (record_lease s1 packet ip now)) as Hok.
  { apply record_lease_ok; [apply Hk|done|done| |by rewrite Hd, Hres].
    intros m Hm. apply Hown. unfold holds in *. by rewrite Hl1, Hres in Hm. }
  destruct (record_lease_spec s1 packet ip now Hok) as (R1 & _ & R3). split; [by eapply keeps_trans|].
  intros m l Hm Hl _. by rewrite R3, Hl1.
Qed.

Lemma request_spec s packet now :
  server_ok s → packet_ok packet →
  let '(s', r) := handle_request s packet now in
  keeps s s' ∧ spares (client_mac packet) now s s' ∧
  match r with
  | Ok resp => ∃ ip t, resp = response packet s' ip t
  | Err e => asked packet = None
  end ∧
  ∀ l, leases s !! client_mac packet = Some l → asked packet = Some (lease_ip l) →
  r = Ok (response packet s' (lease_ip l) Ack).
Proof.
  intros Hs Hp. unfold handle_request. fold (asked packet). set (mac := client_mac packet).
  destruct (asked packet) as [rq|] eqn:Hrq; [|split; [done|]; split; [by intros ?????|]; split; [done|]; by intros l _ [=]].
  assert (ip_ok rq) as Hip.
  { unfold asked in Hrq. destruct (requested_ip packet) as [x|] eqn:Hx; [injection Hrq as <-; by apply (po_requested _ Hp)|].
    case_bool_decide; [done|]. injection Hrq as <-. apply Hp. }
  pose proof (lease_given s packet rq now Hip) as Hgo. fold mac in Hgo.
  destruct (leases s !! mac) as [l0|] eqn:Hl0.
  - assert (holds s mac (lease_ip l0)) as Hh by (left; eauto). case_bool_decide as Heq.
    + destruct (Hgo s) as [G1 G2]; [done|done|subst; by apply (so_held _ Hs mac)|done|subst; intros m Hm; by apply (so_own _ Hs m mac (lease_ip l0))| |].
      { subst. intros [t Ht]. by apply (so_quarantine _ Hs mac l0 t). }
      split; [done|]. split; [done|]. split; [eauto|]. intros l [= <-] [= ->]. done.
    + split; [done|]. split; [by intros ?????|]. split; [eauto|]. intros l [= <-] [= ->]. done.
  - destruct (reservations s !! mac) as [rip|] eqn:Hr.
    + assert (holds s mac rip) as Hh by (by right). case_bool_decide as Heq.
      * destruct (Hgo s) as [G1 G2]; [done|done|subst; by apply (so_held _ Hs mac)|done|subst; intros m Hm; by apply (so_own _ Hs m mac rq)|done|].
        split; [done|]. split; [done|]. split; [eauto|done].
      * split; [done|]. split; [by intros ?????|]. split; [eauto|done].
    + pose proof (allocate_specific_spec (allocator s) rq (so_alloc _ Hs)) as Hsp.
      destruct (allocate_specific (allocator s) rq) as [a' ok]. destruct Hsp as (A1 & A2 & A3 & A4). destruct ok.
      * destruct A4 as [Hf Hal]. destruct (take_fresh s rq a' mac) as (F1 & F2 & F3 & F4); [done..|].
        destruct (Hgo (s <| allocator := a' |>)) as [G1 G2]; [done..|]. split; [done|]. split; [done|]. split; [eauto|done].
      * destruct A4 as [-> _]. split; [split; [apply grow_ok; [done|done|done]|done]|]. split; [by intros ?????|]. split; [eauto|done].
Qed.

(** Taking a client's lease away and keeping its address. *)
Lemma forget_lease_ok s m : server_ok s → server_ok (s <| leases := delete m (leases s) |>).
Proof.
  intros Hs. set (s' := _ <| leases := _ |>).
  assert (∀ m' l, leases s' !! m' = Some l → leases s !! m' = Some l) as Hl.
  { intros m' l. unfold s', upd. cbn. by intros [_ ?]%lookup_delete_Some. }
  assert (∀ m' ip, holds s' m' ip → holds s m' ip) as Hh.
  { intros m' ip [(l & ?%Hl & <-)|?]; [left; eauto|by right]. }
  split; [apply Hs|intros m' ip ?%Hh; by apply (so_held _ Hs m')| |apply Hs|].
  - intros m1 m2 ip ?%Hh ?%Hh. by apply (so_own _ Hs m1 m2 ip).
  - intros m' l t ?%Hl. by apply (so_quarantine _ Hs).
Qed.

Lemma release_spec s packet now :
  server_ok s → keeps s (handle_release s packet) ∧ spares (client_mac packet) now s (handle_release s packet).
Proof.
  intros Hs. unfold handle_release. destruct (leases s !! client_mac packet) as [l|] eqn:Hl; [|split; [done|by intros ?????]].
  split.
  - unfold upd at 1 2. cbn [reservations]. case_bool_decide as Hr.
    + split; [by apply (forget_lease_ok s)|done].
    + split; [apply (free_lease_ok s); [done|done|]|done]. destruct (reservations s !! client_mac packet); [destruct Hr; eauto|done].
  - intros m l' Hm Hl' _. unfold upd. case_bool_decide; cbn; by rewrite lookup_delete_ne.
Qed.

Lemma held_unavailable s m ip : server_ok s → holds s m ip → is_available (allocator s) ip = false.
Proof.
  intros Hs Hh. destruct (is_available (allocator s) ip) eqn:Hav; [|done].
  apply is_available_free in Hav as [_ Hno]. by apply (so_held _ Hs) in Hh as [_ ?].
Qed.

(** A quarantined address is allocated, and nobody has a lease on it without a
    reservation. *)
Lemma quarantine_ok s ip now :
  server_ok s → ip_ok ip → u32_of ip ∈ allocated (allocator s) →
  (∀ m l, leases s !! m = Some l → lease_ip l = ip → is_Some (reservations s !! m)) →
  server_ok (s <| declined_ips := <[ip := now]> (declined_ips s) |>).
Proof.
  intros Hs Hip Hin Hl. split; [apply Hs|apply Hs|apply Hs| |]; unfold upd; cbn.
  - intros ip' t [[<- _]|[_ Hd]]%lookup_insert_Some; [done|by apply (so_declined _ Hs ip' t)].
  - intros m l t Hm [[Heq _]|[_ Hd]]%lookup_insert_Some; [by apply (Hl m l)|by apply (so_quarantine _ Hs m l t)].
Qed.

Lemma decline_spec s packet now :
  server_ok s → ∃ s', handle_decline s packet now = Some s' ∧ keeps s s' ∧ spares (client_mac packet) now s s'.
Proof.
  intros Hs. unfold handle_decline. set (mac := client_mac packet).
  destruct (requested_ip packet) as [ip|]; [|exists s; split; [done|]; split; [done|by intros ?????]].
  destruct (bool_decide (lease_ip <$> leases s !! mac = Some ip) || bool_decide (reservations s !! mac = Some ip)) eqn:Hoff; cbn [negb].
  2: exists s; split; [done|]; split; [done|by intros ?????].
  assert (holds s mac ip) as Hh.
  { apply orb_true_iff in Hoff as [Ho|Ho]; apply bool_decide_eq_true in Ho; [left|by right].
    destruct (leases s !! mac) as [l|]; [|done]. exists l. split; [done|]. by injection Ho. }
  destruct (so_held _ Hs _ _ Hh) as [Hip Hin].
  set (s1 := if bool_decide (lease_ip <$> leases s !! mac = Some ip) then _ else s).
  assert (keeps s s1 ∧ allocator s1 = allocator s ∧ (∀ m, m ≠ mac → leases s1 !! m = leases s !! m) ∧
    (∀ m l, leases s1 !! m = Some l → lease_ip l = ip → False)) as (Hk & Ha & Hl1 & Hno).
  { unfold s1. case_bool_decide as Hb.
    - split; [split; [by apply forget_lease_ok|done]|]. split; [done|]. unfold upd. cbn. split; [intros m Hm; by rewrite lookup_delete_ne|].
      intros m l [Hne Hl]%lookup_delete_Some Heq. apply Hne. symmetry. apply (so_own _ Hs m mac ip); [left; eauto|done].
    - split; [done|]. split; [done|]. split; [done|]. intros m l Hl Heq. apply Hb.
      assert (m = mac) as -> by (apply (so_own _ Hs m mac ip); [left; eauto|done]). rewrite Hl. simpl. congruence. }
  rewrite Ha, (held_unavailable s mac ip Hs Hh). eexists. split; [done|]. split.
  - eapply keeps_trans; [exact Hk|]. split; [|done]. apply quarantine_ok; [apply Hk|done|by rewrite Ha|].
    intros m l Hl Heq. by destruct (Hno m l).
  - intros m l Hm Hl _. unfold upd. cbn. by rewrite Hl1.
Qed.

(** ** Whole messages *)

Lemma response_reply s packet ip t s' :
  packet_ok packet → ∃ reply, reply_to s packet (response packet s' ip t) = Some reply ∧
  parse (payload reply) = Some (Ok (response packet s' ip t)).
Proof.
  intros Hp. unfold reply_to.
  assert (length (chaddr (response packet s' ip t)) = 16%nat) as Hc by apply Hp.
  destruct (serialize_parse (response packet s' ip t) (config s) Hc) as (data & -> & Hparse).
  eexists. split; [done|]. exact Hparse.
Qed.

(** The bytes are not a message of the client [m]. *)
Definition from_other (m : list Z) (data : list Z) : Prop := ∀ p, parse data = Some (Ok p) → client_mac p ≠ m.

Lemma handle_packet_spec s data now :
  server_ok s → Forall in_u8 data →
  ∃ s' r, handle_packet s data now = Some (s', r) ∧ keeps s s' ∧
  ∀ m l, from_other m data → leases s !! m = Some l → is_expired l now = false → leases s' !! m = Some l.
Proof.
  intros Hs Hd. unfold handle_packet. destruct (packet_parse_total data Hd) as (parsed & Hparse & Hok). rewrite Hparse.
  assert (keeps s s) as Hk by (by split).
  destruct parsed as [p|e]; [|eexists _, _; split; [done|]; split; [done|]; by intros m l _ Hl _].
  specialize (Hok p eq_refl). destruct (op p =? 1); cbn [negb]; [|eexists _, _; split; [done|]; split; [done|]; by intros m l _ Hl _].
  assert (∀ s' r, keeps s s' ∧ spares (client_mac p) now s s' →
    ∃ s'' (r' : result DhcpError (option DhcpReply)), Some (s', r) = Some (s'', r') ∧ keeps s s'' ∧
    ∀ m l, from_other m data → leases s !! m = Some l → is_expired l now = false → leases s'' !! m = Some l) as Hdone.
  { intros s' r [H1 H2]. exists s', r. split; [done|]. split; [done|]. intros m l Hm Hl He. apply H2; [|done|done].
    intros ->. by apply (Hm p). }
  destruct (message_type p) as [[]|]; try (apply Hdone; split; [done|by intros ?????]).
  - pose proof (discover_spec s p now Hs Hok) as Hdisc. destruct (handle_discover s p now) as [s' r]. destruct Hdisc as (H1 & H2 & H3).
    destruct r as [resp|e]; [|by apply Hdone]. destruct H3 as (ip & -> & _).
    destruct (response_reply s' p ip Offer s' Hok) as (reply & -> & _). by apply Hdone.
  - pose proof (request_spec s p now Hs Hok) as Hreq. destruct (handle_request s p now) as [s' r]. destruct Hreq as (H1 & H2 & H3 & _).
    destruct r as [resp|e]; [|by apply Hdone]. destruct H3 as (ip & t & ->).
    destruct (response_reply s' p ip t s' Hok) as (reply & -> & _). by apply Hdone.
  - destruct (decline_spec s p now Hs) as (s' & -> & H). by apply Hdone.
  - apply Hdone. by apply release_spec.
Qed.

(** ** Reservations and the states of a server *)

Lemma new_server_ok c s : ip_ok (pool_start c) → ip_ok (pool_end c) → new_server c = Some s → server_ok s.
Proof.
  intros Hs He Hnew. unfold new_server, new_allocator in Hnew.
  destruct (Z.ltb_spec (u32_of (pool_end c)) (u32_of (pool_start c))); [done|]. injection Hnew as <-.
  pose proof (u32_of_range _ Hs). pose proof (u32_of_range _ He). unfold in_u32 in *. split; cbn.
  - split; cbn; [lia|lia|]. intros x. set_solver.
  - intros m ip [(l & Hl & _)|Hl]; cbn in Hl; by rewrite lookup_empty in Hl.
  - intros m m' ip [(l & Hl & _)|Hl]; cbn in Hl; by rewrite lookup_empty in Hl.
  - intros ip t Hl. by rewrite lookup_empty in Hl.
  - intros m l t Hl. by rewrite lookup_empty in Hl.
Qed.

Lemma reserve_ok s mac ip s' : server_ok s → ip_ok ip → reserve_ip s mac ip = Some s' → server_ok s'.
Proof.
  intros Hs Hip. unfold reserve_ip. destruct (is_available (allocator s) ip) eqn:Hav; [|done]. intros [= <-].
  apply is_available_free in Hav. destruct (fresh_unheld s ip Hs Hav) as [Hun Hnd].
  pose proof (allocate_specific_spec (allocator s) ip (so_alloc _ Hs)) as Ha. destruct (allocate_specific (allocator s) ip) as [a ok].
  destruct Ha as (Ha & _ & _ & Hok). destruct ok; [|by destruct Hok]. destruct Hok as [_ Hal].
  pose proof (grow_ok s a Hs Ha) as Hg. rewrite Hal in Hg. specialize (Hg ltac:(set_solver)). set (s' := _ <| reservations := _ |>).
  assert (∀ m ip', holds s' m ip' → holds s m ip' ∨ m = mac ∧ ip' = ip) as Hh.
  { intros m ip' [Hl|Hr]; [left; by left|]. unfold s', upd in Hr. cbn in Hr.
    apply lookup_insert_Some in Hr as [[<- <-]|[_ Hr]]; [by right|left; by right]. }
  split; [done| | |apply Hg|].
  - intros m ip' [Hm|[-> ->]]%Hh; [by apply (so_held _ Hg m)|]. split; [done|]. unfold s', upd. cbn. rewrite Hal. set_solver.
  - intros m m' ip' [H|[-> ->]]%Hh [H'|[-> Heq]]%Hh; subst; [by apply (so_own _ Hs m m' ip')|by destruct (Hun m)|by destruct (Hun m')|done].
  - intros m l t Hl Hd. unfold s', upd. cbn. destruct (decide (mac = m)) as [->|Hne]; [rewrite lookup_insert_eq; eauto|].
    rewrite lookup_insert_ne by done. by apply (so_quarantine _ Hs m l t).
Qed.

(** A reservation may be removed when its client has no lease and its address is
    not in quarantine. *)
Definition may_unreserve (s : DhcpServer) (mac : list Z) : Prop :=
  leases s !! mac = None ∧ ∀ ip, reservations s !! mac = Some ip → declined_ips s !! ip = None.

Lemma remove_reservation_ok s mac : server_ok s → may_unreserve s mac → server_ok (remove_reservation s mac).
Proof.
  intros Hs [Hl Hd]. unfold remove_reservation. destruct (reservations s !! mac) as [ip|] eqn:Hr; [|done].
  assert (holds s mac ip) as Hm by (by right). destruct (so_held _ Hs _ _ Hm) as [Hip _]. specialize (Hd ip eq_refl).
  set (s' := _ <| allocator := _ |>).
  assert (∀ m' ip', holds s' m' ip' → holds s m' ip' ∧ ip' ≠ ip) as Hh.
  { intros m' ip' H. assert (holds s m' ip' ∧ m' ≠ mac) as [H1 H2].
    { destruct H as [(l' & Hl' & <-)|Hr']; unfold s', upd in *; cbn in *.
      - split; [left; eauto|congruence].
      - apply lookup_delete_Some in Hr' as [? ?]. split; [by right|done]. }
    split; [done|]. intros ->. by apply H2, (so_own _ Hs m' mac ip). }
  assert (∀ ip', ip_ok ip' → ip' ≠ ip → u32_of ip' ∈ allocated (allocator s) → u32_of ip' ∈ allocated (allocator s')) as Hrel
    by (intros; by apply release_keeps).
  split.
  - by apply release_ok, Hs.
  - intros m' ip' [H Hne]%Hh. apply (so_held _ Hs) in H as [??]. auto.
  - intros m1 m2 ip' [H1 _]%Hh [H2 _]%Hh. by apply (so_own _ Hs m1 m2 ip').
  - intros ip' t Ht. pose proof (so_declined _ Hs ip' t Ht) as [??]. split; [done|]. apply Hrel; [done| |done]. intros ->.
    unfold s', upd in Ht. cbn in Ht. congruence.
  - intros m' l' t Hl' Ht. unfold s', upd in *. cbn in *. assert (m' ≠ mac) by congruence. rewrite lookup_delete_ne by done.
    by apply (so_quarantine _ Hs m' l' t).
Qed.

(** The states a server goes through. *)
Inductive reach : DhcpServer → Prop :=
  | reach_new c s : ip_ok (pool_start c) → ip_ok (pool_end c) → new_server c = Some s → reach s
  | reach_packet s data now s' r : reach s → Forall in_u8 data → handle_packet s data now = Some (s', r) → reach s'
  | reach_reserve s mac ip s' : reach s → ip_ok ip → reserve_ip s mac ip = Some s' → reach s'
  | reach_unreserve s mac : reach s → may_unreserve s mac → reach (remove_reservation s mac)
  | reach_cleanup s now : reach s → reach (cleanup_expired_leases s now).

Lemma reach_ok s : reach s → server_ok s.
Proof.
  induction 1 as [c s|s data now s' r _ IH Hd Hp|s mac ip s' _ IH|s mac _ IH|s now _ IH].
  - by apply (new_server_ok c).
  - destruct (handle_packet_spec s data now IH Hd) as (s1 & r1 & Hp1 & Hk & _). rewrite Hp in Hp1. injection Hp1 as <- _. apply Hk.
  - by apply (reserve_ok s mac ip).
  - by apply remove_reservation_ok.
  - by apply cleanup_keeps.
Qed.

End DhcpSrv.
