(* ===== verification/DhcpProps.v ===== *)
(** * What the DHCP server promises its clients

    The theorems on [DhcpServer]: addresses are exclusive in every state the
    server goes through, an offer is honoured while its lease lasts, and a
    DISCOVER is refused only when the pool is exhausted. *)

From Stdlib Require Import ZArith Lia.
From stdpp Require Import base numbers list strings gmap.
From S2P Require Import Prelude Bits Checksum Bytes DhcpPacket DhcpServer.

Open Scope Z_scope.

Module DhcpProps.

Import Dhcp DhcpSrv.

(** ** Several messages *)

(** The messages are handled in turn, each at its time; the replies are dropped. *)
Fixpoint serve (s : DhcpServer) (msgs : list (list Z * Z)) : option DhcpServer :=
  match msgs with
  | [] => Some s
  | (data, now) :: msgs => match handle_packet s data now with Some (s, _) => serve s msgs | None => None end
  end.

(** A message of another client, at a time when the lease runs. *)
Definition bystander (m : list Z) (l : DhcpLease) (msg : list Z * Z) : Prop :=
  Forall in_u8 msg.1 ∧ from_other m msg.1 ∧ is_expired l msg.2 = false.

Lemma serve_spares s msgs m l :
  server_ok s → leases s !! m = Some l → Forall (bystander m l) msgs →
  ∃ s', serve s msgs = Some s' ∧ keeps s s' ∧ leases s' !! m = Some l.
Proof.
  intros Hs Hl Hm. revert s Hs Hl. induction Hm as [|[data now] msgs (Hd & Ho & He) _ IH]; intros s Hs Hl; cbn [serve].
  { by exists s. }
  destruct (handle_packet_spec s data now Hs Hd) as (s1 & r & -> & Hk & Hsp).
  destruct (IH s1 ltac:(apply Hk) (Hsp m l Ho Hl He)) as (s' & Hs' & Hk' & Hl').
  exists s'. split; [done|]. split; [by eapply keeps_trans|done].
Qed.

(** ** A single message *)

(** The bytes are the message [p] of a client, of type [t]. *)
Record message (data : list Z) (t : DhcpMessageType) (p : DhcpPacket) : Prop := {
  msg_u8 : Forall in_u8 data;
  msg_parse : parse data = Some (Ok p);
  msg_op : op p = 1;
  msg_type : message_type p = Some t
}.

(** The reply carries a message of type [t] for the client of [p], with the
    address [ip]. *)
Definition answers (reply : DhcpReply) (p : DhcpPacket) (t : DhcpMessageType) (ip : Ipv4) : Prop :=
  ∃ q, parse (payload reply) = Some (Ok q) ∧ op q = 2 ∧ message_type q = Some t ∧ yiaddr q = ip ∧
  xid q = xid p ∧ chaddr q = chaddr p.

Lemma message_ok data t p : message data t p → packet_ok p.
Proof. intros [Hd Hp _ _]. destruct (packet_parse_total data Hd) as (r & Hr & Hok). rewrite Hp in Hr. injection Hr as <-. by apply Hok. Qed.

Lemma reply_answers s p ip t s' : packet_ok p → ∃ reply, reply_to s p (response p s' ip t) = Some reply ∧ answers reply p t ip.
Proof. intros Hp. destruct (response_reply s p ip t s' Hp) as (reply & -> & Hq). exists reply. split; [done|]. by eexists. Qed.

(** The address the server has for a client, by reservation or by lease. *)
Definition entitled (s : DhcpServer) (m : list Z) : option Ipv4 :=
  match reservations s !! m with Some ip => Some ip | None => lease_ip <$> leases s !! m end.

Lemma choose_ip_entitled s p :
  server_ok s → packet_ok p →
  match (choose_ip s p).2 with
  | Ok ip => match entitled s (client_mac p) with
    | Some own => ip = own
    | None => free (allocator s) (u32_of ip) ∧ ∀ r, requested_ip p = Some r → free (allocator s) (u32_of r) → ip = r
    end
  | Err e => e = PoolExhausted ∧ entitled s (client_mac p) = None ∧ ∀ x, ¬ free (allocator s) x
  end.
Proof.
  intros Hs Hp. pose proof (choose_ip_spec s p Hs Hp) as Hc. unfold entitled.
  destruct (choose_ip s p) as [s' r] eqn:Hch. destruct Hc as (_ & _ & _ & Hr). cbn [snd]. unfold choose_ip in Hch.
  destruct (reservations s !! client_mac p) eqn:H1; [by injection Hch as <- <-|].
  destruct (leases s !! client_mac p) eqn:H2; [by injection Hch as <- <-|]. destruct r as [ip|e]; cbn.
  - destruct Hr as (_ & _ & _ & _ & Hf). by apply Hf.
  - by destruct Hr as (-> & _ & Hno & _).
Qed.

Lemma discover_answer s data p now :
  server_ok s → message data Discover p →
  ∃ s' r, handle_packet s data now = Some (s', r) ∧ keeps s s' ∧
  match r with
  | Ok (Some reply) => ∃ ip, answers reply p Offer ip ∧
      leases s' !! client_mac p = Some (MkLease (client_mac p) ip (hostname p) now (lease_duration (config s))) ∧
      (choose_ip (cleanup_expired_leases s now) p).2 = Ok ip
  | Ok None => False
  | Err e => (choose_ip (cleanup_expired_leases s now) p).2 = Err e
  end.
Proof.
  intros Hs Hm. pose proof (message_ok _ _ _ Hm) as Hp. destruct Hm as [_ Hparse Hop Ht]. unfold handle_packet.
  rewrite Hparse, Hop, Ht. cbn [negb Z.eqb Pos.eqb]. pose proof (discover_spec s p now Hs Hp) as Hd.
  destruct (handle_discover s p now) as [s' r]. destruct Hd as (Hk & _ & Hr). destruct r as [resp|e]; [|by eexists _, _].
  destruct Hr as (ip & -> & _ & Hl & Hc). destruct (reply_answers s' p ip Offer s' Hp) as (reply & -> & Ha).
  eexists _, _. split; [done|]. split; [done|]. by exists ip.
Qed.

Lemma request_answer s data p now l :
  server_ok s → message data Request p → leases s !! client_mac p = Some l → asked p = Some (lease_ip l) →
  ∃ s' reply, handle_packet s data now = Some (s', Ok (Some reply)) ∧ answers reply p Ack (lease_ip l).
Proof.
  intros Hs Hm Hl Ha. pose proof (message_ok _ _ _ Hm) as Hp. destruct Hm as [_ Hparse Hop Ht]. unfold handle_packet.
  rewrite Hparse, Hop, Ht. cbn [negb Z.eqb Pos.eqb]. pose proof (request_spec s p now Hs Hp) as Hr.
  destruct (handle_request s p now) as [s' r]. destruct Hr as (_ & _ & _ & Hack). rewrite (Hack l Hl Ha).
  destruct (reply_answers s' p (lease_ip l) Ack s' Hp) as (reply & -> & Han). by exists s', reply.
Qed.

Lemma answers_ip reply p t ip p' t' ip' : answers reply p t ip → answers reply p' t' ip' → ip = ip'.
Proof. intros (q & Hq & _ & _ & <- & _) (q' & Hq' & _ & _ & <- & _). rewrite Hq in Hq'. by injection Hq' as <-. Qed.

(** ** A concrete server *)

Definition ex_config : DhcpConfig := new_config (MkIp 10 0 2 1) (MkIp 255 255 255 0).

(** A server with a pool of two addresses. *)
Definition ex_server : DhcpServer :=
  default (MkServer ex_config (MkAlloc 0 0 ∅ 0) ∅ ∅ ∅)
    (new_server (with_pool_range ex_config (MkIp 10 0 2 2) (MkIp 10 0 2 3))).

Definition ex_packet (mac : list Z) (t : DhcpMessageType) (ip : Ipv4) : DhcpPacket :=
  MkPacket 1 1 6 0 0x5eed 0 0 ip UNSPECIFIED UNSPECIFIED UNSPECIFIED (mac ++ replicate 10 0) (Some t) None None.
Definition ex_message (mac : list Z) (t : DhcpMessageType) (ip : Ipv4) : list Z :=
  default [] (serialize (ex_packet mac t ip) ex_config).

Definition ex_alice : list Z := [2; 0; 0; 0; 0; 7].
Definition ex_bob : list Z := [2; 0; 0; 0; 0; 8].
Definition ex_carol : list Z := [2; 0; 0; 0; 0; 9].

Definition ex_after (s : DhcpServer) (msgs : list (list Z * Z)) : DhcpServer := default s (serve s msgs).

(** The address and the type of the answer to a message. *)
Definition ex_answer (s : DhcpServer) (data : list Z) (now : Z) : option (DhcpMessageType * Ipv4) :=
  match handle_packet s data now with
  | Some (_, Ok (Some reply)) =>
      match parse (payload reply) with
      | Some (Ok q) => t ← message_type q; Some (t, yiaddr q)
      | _ => None
      end
  | _ => None
  end.

(** ** Properties *)

(** C28: in every state the server goes through, by messages of any bytes,
    reservations, their removal for a client without a lease and a quarantine, and
    the expiry of leases, no two clients hold the same address, by lease or by
    reservation; an address that is held lies in the pool and is not available to
    another client; an address in quarantine is leased only to a client with a
    reservation; and the next message, whatever its bytes, is handled without a
    panic. *)
Theorem addresses_are_exclusive s :
  reach s →
  (∀ m1 m2 ip, holds s m1 ip → holds s m2 ip → m1 = m2) ∧
  (∀ m ip, holds s m ip → start (allocator s) ≤ u32_of ip ≤ end_ (allocator s) ∧ is_available (allocator s) ip = false) ∧
  (∀ m l t, leases s !! m = Some l → declined_ips s !! lease_ip l = Some t → is_Some (reservations s !! m)) ∧
  ∀ data now, Forall in_u8 data → is_Some (handle_packet s data now).
Proof.
  intros Hs%reach_ok. split; [apply Hs|]. split; [|split; [apply Hs|]].
  - intros m ip Hm. split; [|by apply (held_unavailable s m)]. apply (so_held _ Hs) in Hm as [_ Hin].
    by apply (ao_allocated _ (so_alloc _ Hs)).
  - intros data now Hd. destruct (handle_packet_spec s data now Hs Hd) as (s' & r & -> & _). eauto.
Qed.

Lemma ex_server_reach : reach ex_server.
Proof.
  apply (reach_new (with_pool_range ex_config (MkIp 10 0 2 2) (MkIp 10 0 2 3))); [| |reflexivity];
  repeat split; vm_compute; congruence.
Qed.

Lemma addresses_are_exclusive_witness :
  let s := ex_after ex_server [(ex_message ex_alice Discover UNSPECIFIED, 0)] in
  holds s ex_alice (MkIp 10 0 2 2) ∧ is_available (allocator s) (MkIp 10 0 2 2) = false.
Proof.
  set (s := ex_after _ _). assert (holds s ex_alice (MkIp 10 0 2 2)) as Hh by (left; eexists; by split; vm_compute).
  split; [done|]. refine (proj2 (proj1 (proj2 (addresses_are_exclusive s _)) ex_alice (MkIp 10 0 2 2) Hh)).
  eapply (reach_packet ex_server (ex_message ex_alice Discover UNSPECIFIED) 0); [apply ex_server_reach| |by vm_compute].
  apply (bool_decide_unpack _); vm_compute; exact I.
Defined.

(** C29: an offer is honoured: after a DISCOVER that is answered with the offer of
    an address, and any messages of other clients within the duration of a lease,
    a REQUEST of the client for that address is answered with an ACK for it. *)
Theorem offer_is_honoured s data p now s1 reply ip msgs data' p' now' :
  reach s → message data Discover p → handle_packet s data now = Some (s1, Ok (Some reply)) → answers reply p Offer ip →
  Forall (λ msg, Forall in_u8 msg.1 ∧ from_other (client_mac p) msg.1 ∧ now ≤ msg.2 < now + lease_duration (config s)) msgs →
  message data' Request p' → client_mac p' = client_mac p → asked p' = Some ip →
  ∃ s2 s3 reply', serve s1 msgs = Some s2 ∧ handle_packet s2 data' now' = Some (s3, Ok (Some reply')) ∧ answers reply' p' Ack ip.
Proof.
  intros Hs%reach_ok Hm Hh Ha Hmsgs Hm' Hmac Hask.
  destruct (discover_answer s data p now Hs Hm) as (s1' & r & Hh' & Hk & Hr). rewrite Hh in Hh'. injection Hh' as <- <-.
  destruct Hr as (ip' & Ha' & Hl & _). assert (ip' = ip) as -> by (by eapply answers_ip).
  destruct (serve_spares s1 msgs (client_mac p) _ ltac:(apply Hk) Hl) as (s2 & Hs2 & Hk2 & Hl2).
  { eapply Forall_impl; [exact Hmsgs|]. intros [d t] (Hd & Ho & Ht). split; [done|]. split; [done|].
    unfold is_expired, saturating_sub. cbn in *. apply Z.leb_gt. lia. }
  rewrite <- Hmac in Hl2. destruct (request_answer s2 data' p' now' _ ltac:(apply Hk2) Hm' Hl2 Hask) as (s3 & reply' & H3 & H4).
  by exists s2, s3, reply'.
Qed.

Lemma ex_message_ok mac t ip :
  bool_decide (Forall in_u8 (ex_message mac t ip)) = true → length mac = 6%nat → message (ex_message mac t ip) t (ex_packet mac t ip).
Proof.
  intros Hd%bool_decide_eq_true Hm. unfold ex_message in *.
  destruct (serialize_parse (ex_packet mac t ip) ex_config) as (data & Hs & Hp); [cbn; rewrite length_app, Hm; reflexivity|].
  rewrite Hs in *. by split.
Qed.

Lemma ex_from_other m mac t ip :
  bool_decide (Forall in_u8 (ex_message mac t ip)) = true → length mac = 6%nat → client_mac (ex_packet mac t ip) ≠ m →
  from_other m (ex_message mac t ip).
Proof. intros Hd Hl Hm p Hp. destruct (ex_message_ok mac t ip Hd Hl) as [_ Hp' _ _]. rewrite Hp in Hp'. by injection Hp' as ->. Qed.

Lemma offer_is_honoured_witness :
  let ask := ex_packet ex_alice Request (MkIp 10 0 2 2) in
  let s1 := ex_after ex_server [(ex_message ex_alice Discover UNSPECIFIED, 0)] in
  ∃ s2 s3 reply', serve s1 [(ex_message ex_bob Discover UNSPECIFIED, 5)] = Some s2 ∧
  handle_packet s2 (ex_message ex_alice Request (MkIp 10 0 2 2)) 9 = Some (s3, Ok (Some reply')) ∧ answers reply' ask Ack (MkIp 10 0 2 2).
Proof.
  cbv zeta. eapply (offer_is_honoured ex_server (ex_message ex_alice Discover UNSPECIFIED) (ex_packet ex_alice Discover UNSPECIFIED) 0).
  - apply ex_server_reach.
  - by apply ex_message_ok; vm_compute.
  - vm_compute. reflexivity.
  - eexists. split; [vm_compute; reflexivity|]. by repeat split.
  - apply Forall_singleton. split; [apply (bool_decide_unpack _); vm_compute; exact I|].
    split; [apply ex_from_other; vm_compute; congruence|]. vm_compute. split; congruence.
  - by apply ex_message_ok; vm_compute.
  - reflexivity.
  - reflexivity.
Defined.

(** C30: a DISCOVER of a client with a reservation or a lease that runs is answered
    with the offer of its address; of another client with the offer of a free
    address of the pool, the one it asks for if that is free; the address is then
    leased to the client. Only when the client has none and no address of the pool
    is free is the answer an error. *)
Theorem discover_is_served s data p now :
  reach s → message data Discover p →
  let s0 := cleanup_expired_leases s now in
  ∃ s' r, handle_packet s data now = Some (s', r) ∧
  match r with
  | Ok (Some reply) => ∃ ip, answers reply p Offer ip ∧
      leases s' !! client_mac p = Some (MkLease (client_mac p) ip (hostname p) now (lease_duration (config s))) ∧
      match entitled s0 (client_mac p) with
      | Some own => ip = own
      | None => free (allocator s0) (u32_of ip) ∧ ∀ r, requested_ip p = Some r → free (allocator s0) (u32_of r) → ip = r
      end
  | Ok None => False
  | Err e => e = PoolExhausted ∧ entitled s0 (client_mac p) = None ∧ ∀ x, ¬ free (allocator s0) x
  end.
Proof.
  intros Hs%reach_ok Hm. destruct (discover_answer s data p now Hs Hm) as (s' & r & Hh & _ & Hr). exists s', r. split; [done|].
  pose proof (choose_ip_entitled (cleanup_expired_leases s now) p ltac:(by apply cleanup_keeps) (message_ok _ _ _ Hm)) as Hc.
  destruct r as [[reply|]|e]; [|done|by rewrite Hr in Hc].
  destruct Hr as (ip & Ha & Hl & Hch). rewrite Hch in Hc. by exists ip.
Qed.

Lemma discover_is_served_witness :
  let s := ex_after ex_server [(ex_message ex_alice Discover UNSPECIFIED, 0); (ex_message ex_bob Discover UNSPECIFIED, 5)] in
  ∃ s' e, handle_packet s (ex_message ex_carol Discover UNSPECIFIED) 9 = Some (s', Err e) ∧ e = PoolExhausted.
Proof.
  set (s := ex_after _ _). destruct (discover_is_served s (ex_message ex_carol Discover UNSPECIFIED)
    (ex_packet ex_carol Discover UNSPECIFIED) 9) as (s' & r & Hh & Hr).
  - eapply (reach_packet (ex_after ex_server [(ex_message ex_alice Discover UNSPECIFIED, 0)])
      (ex_message ex_bob Discover UNSPECIFIED) 5); [| |by vm_compute]; [|apply (bool_decide_unpack _); vm_compute; exact I].
    eapply (reach_packet ex_server (ex_message ex_alice Discover UNSPECIFIED) 0); [apply ex_server_reach| |by vm_compute].
    apply (bool_decide_unpack _); vm_compute; exact I.
  - by apply ex_message_ok; vm_compute.
  - exists s'. destruct r as [o|e]; [|exists e; split; [exact Hh|apply Hr]]. exfalso. vm_compute in Hh. discriminate.
Defined.

(** ** Removing a reservation and the quarantine of a reserved address *)

(** A reservation that is removed while its client has a lease frees the address:
    another client is offered the address the first one has leased. *)
Example removed_reservation_shares_address :
  match reserve_ip ex_server ex_alice (MkIp 10 0 2 2) with
  | Some s =>
      let s := ex_after s [(ex_message ex_alice Discover UNSPECIFIED, 0); (ex_message ex_alice Request (MkIp 10 0 2 2), 1)] in
      let s := remove_reservation s ex_alice in
      lease_ip <$> leases s !! ex_alice = Some (MkIp 10 0 2 2) ∧
      ex_answer s (ex_message ex_bob Discover UNSPECIFIED) 2 = Some (Offer, MkIp 10 0 2 2)
  | None => False
  end.
Proof. vm_compute. by split. Qed.

(** A client with a reservation that declines the address is offered it again at
    once, while the address is in quarantine. *)
Example declined_reservation_is_offered_again :
  match reserve_ip ex_server ex_alice (MkIp 10 0 2 2) with
  | Some s =>
      match handle_decline s ((ex_packet ex_alice Decline UNSPECIFIED) <| requested_ip := Some (MkIp 10 0 2 2) |>) 1 with
      | Some s => declined_ips s !! MkIp 10 0 2 2 = Some 1 ∧
          ex_answer s (ex_message ex_alice Discover UNSPECIFIED) 2 = Some (Offer, MkIp 10 0 2 2)
      | None => False
      end
  | None => False
  end.
Proof. vm_compute. by split. Qed.

(** The default pool of a server that is not the first host of its network has the
    server's own address, which is offered to a client. *)
Example pool_has_server_address :
  let c := new_config (MkIp 10 0 2 5) (MkIp 255 255 255 0) in
  u32_of (pool_start c) ≤ u32_of (server_ip c) ≤ u32_of (pool_end c).
Proof. vm_compute. split; congruence. Qed.

(** A network without hosts has no server: the pool is empty and its construction
    panics. *)
Example no_hosts_panics : new_server (new_config (MkIp 10 0 2 1) (MkIp 255 255 255 255)) = None.
Proof. reflexivity. Qed.

End DhcpProps.
